(* ===== verification/_CoqProject ===== *)
-Q . S2P
Prelude.v
Vector.v
Graph.v
LinkList.v
PQueue.v
Thread.v
ThreadStats.v
ThreadFrame.v
Sigevent.v
Network.v
CString.v
Memory.v
Hash.v
FrrStr.v
Buffer.v
Vty.v
Prefix.v
JHash.v
PrefixText.v
SockUnion.v
TokenMatch.v
CommandMatch.v
CmdGraph.v
Command.v
CmdNode.v
VtyRead.v
VtySafe.v
VtyTasks.v
VtyServ.v
VtyConf.v
TapInject.v
TapMirror.v
VppApi.v
VppCli.v
Netlink.v
Sync.v
