(* ===== verification/Prelude.v ===== *)
(** * A verification library for routerd

    routerd keeps a VPP data plane in step with the Linux kernel.  It listens to
    the kernel's netlink events and repeats them to VPP over VPP's binary API,
    and it offers a command line (a VTY) to configure VPP.  The repository holds
    five parts, and each has its files here.

    ** The program and the files that model it

    - [src/] is the daemon.  [src/vpp.c] is a client of the VPP API (one message
      builder per request, sessions, reply waits): [VppApi].  [src/vpp_cli.c]
      has the commands that use it: [VppCli].  [src/netlink.cc] translates
      kernel events into API requests: [Sync].
    - [libyalin/] is a netlink library: the attribute parser, the cache of links
      and the walk over the messages of a datagram are [Netlink].
    - [libvui/] is the VTY library, derived from FRR.  Its containers are
      vectors (lib/vector.c: [Vector]), graphs (lib/graph.c: [Graph]), doubly
      linked lists on a heap of nodes (lib/linklist.c: [LinkList]), chained hash
      tables with resizing (lib/hash.c: [Hash], lib/jhash.c: [JHash]) and the
      priority queue of its timers (lib/pqueue.c: [PQueue]).  Its strings are
      lib/frrstr.c, strlcpy.c and strlcat.c: [FrrStr].  The event loop is
      lib/thread.c: [Thread] for tasks, descriptors, timers, cancellation and
      the choice of the next task, [ThreadStats] for the run-time statistics
      that several pthreads update, [ThreadFrame] for what its operations do to
      the tasks of one owner.  Signals reach it through the flags of
      lib/sigevent.c: [Sigevent].  lib/network.c is [Network], lib/sockunion.c
      [SockUnion], the statistics of lib/memory.c are [Memory].  A terminal is the output buffer
      (lib/buffer.c: [Buffer]) and lib/vty.c: [Vty] for output, filters, the
      line editor, the history and the prompt, [VtyRead] for what happens to the
      bytes a session receives (telnet, escape sequences, keys, login, help,
      completion), [VtySafe] for the invariant of a session, [VtyTasks] and
      [VtyServ] for the server (accepting, scheduling, flushing, timing out and
      closing sessions on the event loop), [VtyConf] for its commands and
      settings.  Network prefixes are
      lib/prefix.c: [Prefix] for bits, masks and comparisons, [PrefixText] for
      the conversions from and to text.  The matching of command lines is
      lib/command_match.c: [TokenMatch] for one word, [CommandMatch] for the
      command graph; how commands get into the graph is lib/command_graph.c:
      [CmdGraph]; the nodes and what is installed in them are
      lib/command_node.c: [CmdNode].  The interpreter is lib/command.c: [Command] for cutting a
      line into words, completion, execution at the nodes on the way up,
      configuration files and the commands the library itself offers.
    - [cplane_netdev/] is a VPP plugin that gives every Ethernet interface a
      Linux tap: [TapInject], with the modules [TapTables] (the lookup tables),
      [TapControl] (connecting, enabling, the API handlers), [TapData] (the
      packet nodes) and [TapNames] (the names of the taps).
    - [tap_mirror/] is a VPP plugin that copies the packets of a graph node to
      taps: [TapMirror].

    This file and [CString] (the C library's string functions that the sources
    call) are shared by all.  The parts meet as the code lets them meet: [Sync]
    runs on the messages [Netlink] delivers and calls the exchanges of [VppApi];
    [VppCli] calls [VppApi]; [CommandMatch] calls [TokenMatch], and both use the
    address conversions of the class [PrefixText.Inet]; [Thread] keeps its timers
    in the queue of [PQueue]; [CmdGraph] works on the graphs of [Graph]; [Vty] writes through the class [Vty.OutBuffer],
    which [Buffer] implements; [Command] matches with [CommandMatch] and runs
    commands on the world of a session; [VtyRead] calls [Vty] and [Command], and
    what it relies on of the interpreter is the class [VtySafe.InterpreterLaws],
    which [VtySafe.interpreter_ok] derives for the interpreter of command.c and
    commands that keep a session well formed, as those of command.c do
    ([VtySafe.library_keeps]); [VtyServ] runs
    [VtyRead] and [Buffer] in the handlers of tasks that [Thread] hands out.  VPP loads the plugins,
    which talk to routerd only through API messages.

    ** How code becomes definitions

    A C function is a Rocq function of the same name.  A structure is a record,
    an enumeration an inductive type, an array a list and an index into it a
    number; an integer that can wrap is a [Z] with the wrap written out ([u8],
    [u32], [size_t]).  A function that changes its argument returns the new
    value.  A result [None] of a function of type [option] means that the C code
    has undefined behaviour there (a read or write out of bounds, a null
    pointer), fails an assertion, calls [exit], or that the fuel of a loop ran
    out; so every theorem that gives a [Some] also says that none of these
    happens.  Code that talks to VPP runs in a state monad ([VppApi.M]) whose
    state holds the answers of the environment and the record of everything sent
    and printed.

    What is not in the repository is a parameter: the address conversions of the
    C library (class [Inet], laws [InetLaws], instance [Inet_plain]), the parser
    that bison generates ([cmd_graph_parse] of [CmdNode]), the cloning of packets
    by VPP, the
    comparison and position callbacks of the priority queue (classes [CmpOrder]
    and [Tracks]), [crypt], the results of system calls (oracles in the states of
    [TapControl], [TapMirror] and [Buffer]), the replies of VPP (the world of
    [VppApi.M]), the error texts of [strerror].

    ** What is shown

    - Data structures refine their abstract contents: vectors are lists with
      holes ([vector_refines_list]), the output buffer is a byte queue under any
      behaviour of the descriptor ([buffer_fifo]), the priority queue is a heap
      that keeps its elements, sorts them and reports every position
      ([pqueue_sorts], [pqueue_tracks_positions]), the four tables of the tap
      plugin are one injective map ([tap_tables_refine]).  The statements at the
      ends of [Graph], [LinkList] and [Hash] do the same for adjacency, list
      order and the partial map of a hash table across growth.
    - The event loop keeps every task in exactly one place along the histories
      whose calls meet its assertions ([thread_places]), cancels exactly the tasks asked for ([thread_cancel_exact]), runs ready
      tasks before expired timers before new input ([thread_fetch_order]) and
      releases everything at the end ([thread_master_free_all]); its counters
      agree with a sequential run under any interleaving ([stats_linearize]).
      A signal that comes at any point of the loop has its functions called
      within a bounded number of steps ([delivered_signal_handled]), and not more
      often than it came ([calls_need_signals]).
    - Allocation statistics count the blocks there are, the maximum as far as
      its exchanges succeed ([memory_accounting]);
      [readn] and [writen] move what they should when nothing fails
      ([readn_reads_all], [writen_sends_all]); socket addresses are totally
      ordered, hashed as they are compared and read back from their text
      ([sockunion_cmp_order], [sockunion_same_hash], [str2sockunion_roundtrip]).
    - The line editor is a text with a cursor, and the terminal shows it
      ([editor_refines]); the history ring is the list of the last lines
      ([history_refines]); the output filter passes the lines it should
      ([vty_out_filters]).
    - Whatever bytes a peer sends, a terminal session stays well formed and
      nothing is accessed outside its buffers, unless ^D meets an empty password
      prompt or a line calls a command whose own function fails
      ([vty_read_safe]); where an enable password is set, the session gets beyond
      the view node only with it ([privilege_needs_password]); the cuts between
      reads do not matter but behind a telnet command without its option and when
      a read closes the session ([vty_read_split]); a window size arrives as sent
      ([naws_roundtrip]).
    - However connections come and go, no task outlives its session and no
      handler runs on a session that is gone ([session_tasks_live]); a reset
      closes all ([vty_reset_all]).  The steps are the turns of the loop that
      succeed below the limit of descriptors, with new connections on
      descriptors that are not in use.  [show_history_lines] and
      [exec_timeout_written] say what the history and the written timeout are.
    - A line is cut into its words ([cmd_make_strvec_words]) and run by the first
      node that knows it ([cmd_execute_command_dispatch]); completions are the
      sorted distinct texts ([completions_to_vec_correct]); which passwords are
      accepted after which settings is [passwords_follow_settings].
    - Prefix operations are characterised on address bits: coverage, equality of
      networks, common length, masks in both directions ([prefix_match_covers],
      [prefix_cmp_equivalence], [prefix_common_bits_exact],
      [masklen_roundtrip]), and text round trips
      ([str2prefix_prefix2str], [str2prefix_eth_roundtrip]).
    - Matching a command line returns the single best reading, and tells
      ambiguous, incomplete and unknown lines apart ([command_match_correct]);
      installing a command without alternatives adds it to the commands of the
      graph and changes no other ([cmd_graph_merge_adds]); a node's vector, table
      and graph agree on its commands whatever is installed and uninstalled, and
      only the parser and the merge can fail ([registry_consistent]), and new nodes keep the way up to the
      configuration node ([alloc_new_node_id_ok], [ids_nodes_ok]).
    - What the synchronisation sends is determined field by field, the fields
      of missing route attributes being what the stack held ([link_event_sends], [route_event_sends], [srv6_event_sends],
      [sync_sets_links]); attributes survive encoding and parsing
      ([rtattr_roundtrip]); every message of a datagram is handled once and in
      order ([netlink_listen_handles_all]).
    - Every VPP command but vpe connect and vpe disconnect closes the session it
      opens on every path ([command_closes_session]); waiting is bounded ([wait_startup_bounded]).
    - Enabling taps connects all interfaces whose device the kernel grants or
      rolls back ([enable_handler_rolls_back]), disabling closes the taps the
      tables lead to ([disable_closes_connected]); the packet nodes write the
      first buffer of every packet and warn when that is not all of it
      ([tap_inject_tx_delivers]), free and stay in bounds ([tap_rx_correct]); a
      mirrored node still processes each frame exactly once with its own function
      while packets can be cloned and no name is the beginning of another
      ([mirror_transparent]).

    Where the code does not do what its authors meant, the theorem states what
    it does: [addr_event_length], [srv6_event_sends], [reconnect_leaks_tap],
    [tap_inject_neighbor_actions], [str2prefix_ipv4_wraps],
    [match_ipv4_exact], [prefix_copy_flowspec], [writen_counts_failures], and the
    examples at the ends of [Sigevent], [SockUnion], [CmdNode], [Sync], [TapMirror], [TokenMatch], [CmdGraph], [Thread], [ThreadStats], [Vty],
    [Command], [VtyRead] and [VtyConf].

    ** Fuel

    Loops that are not structural run on fuel, and each has a lemma that the
    fuel its caller passes is enough: 33 for the doubling of a 32-bit size in
    [Vector], the index plus one for the walk up in [PQueue] (the index gets
    smaller) and the size plus one for the walk down and the search (it grows),
    the length of the text for the token matchers, the number of bytes for
    [Buffer.buffer_put] (every round stores one), the outcomes the descriptor
    still holds plus two for flushing (then everything is accepted), the length
    of the receive buffer for the walks of [Netlink] (every step consumes a
    header), the number of nodes plus one for [CommandMatch.add_nexthops] (a
    deeper walk repeats a fork), the replies left for the dump loops of
    [VppCli] (then only the timeout follows), the number of copied descriptors
    for [Thread.process_io_loop], the size of the timer queue for
    [Thread.process_timers_loop], the cursor or the length of the line for the
    loops of the editor, the number of nodes for the way up in [Command.climb]
    (parents are older nodes), the length of a text for folding it in
    [VtyRead.fold_lines], the words of the new command plus three for
    [CmdGraph.cmd_merge_nodes], the length of the ring plus two for
    [VtyConf.show_loop].

    ** Not modelled

    Socket options, ioctls, privileges, terminal settings and start-up glue; the
    object registry; VPP itself; FreeBSD's
    printf and the other vendored headers; debug output; the printers of
    libyalin.  Of libvui the parser of command strings is a bison grammar and a
    flex lexer whose generated code is not in the repository; the parsed graph is
    an argument of the models of merging, matching and interpretation.  Containers
    generated by macros that nothing here uses (skip lists, heaps, red-black
    trees), shell sessions and stdio are left out. *)
From stdpp Require Export prelude gmap list strings.
From Stdlib Require Export ZArith Lia.

(** * Machine integers *)

Definition u8 (z : Z) : Z := (z mod 2 ^ 8)%Z.
Definition u16 (z : Z) : Z := (z mod 2 ^ 16)%Z.
Definition u32 (z : Z) : Z := (z mod 2 ^ 32)%Z.
Definition INT_MAX : Z := (2 ^ 31 - 1)%Z.

(** * Lists as C arrays *)

(** [memcpy]/[memmove] inside one array: [n] cells from [src] to [dst]. [None]
    when either range leaves the array. *)
Definition memmove_cells {A} (l : list A) (dst src n : nat) : option (list A) :=
  if decide (dst + n ≤ length l ∧ src + n ≤ length l)
  then Some (take dst l ++ take n (drop src l) ++ drop (dst + n) l)
  else None.

(** Write one cell of an array; [None] when the index is out of range. *)
Definition write {A} (l : list A) (i : nat) (x : A) : option (list A) :=
  if decide (i < length l) then Some (<[i := x]> l) else None.

Lemma write_Some {A} (l : list A) i x :
  i < length l → write l i x = Some (<[i := x]> l).
Proof. intros ?. unfold write. by rewrite decide_True. Qed.

Lemma filter_all {A} (P : A → Prop) `{∀ x, Decision (P x)} (l : list A) :
  (∀ x, x ∈ l → P x) → filter P l = l.
Proof.
  induction l as [|x l IH]; intros Hl; [done|].
  rewrite filter_cons_True by (apply Hl; left). f_equal. apply IH. intros y Hy. apply Hl. by right.
Qed.

Lemma filter_none {A} (P : A → Prop) `{∀ x, Decision (P x)} (l : list A) :
  (∀ x, x ∈ l → ¬ P x) → filter P l = [].
Proof.
  induction l as [|x l IH]; intros Hl; [done|].
  rewrite filter_cons_False by (apply Hl; left). apply IH. intros y Hy. apply Hl. by right.
Qed.

Lemma filter_member {A} (P : A → Prop) `{∀ x, Decision (P x)} (l : list A) (x : A) :
  x ∈ l → P x → 1 ≤ length (filter P l).
Proof.
  intros Hx HP. assert (x ∈ filter P l) as Hf by (by apply list_elem_of_filter).
  destruct (filter P l); [by apply elem_of_nil in Hf|cbn; lia].
Qed.

Lemma filter_in_iff {A} (P Q : A → Prop) `{∀ x, Decision (P x)} `{∀ x, Decision (Q x)} (l : list A) :
  (∀ x, x ∈ l → (P x ↔ Q x)) → filter P l = filter Q l.
Proof.
  induction l as [|x l IH]; intros Hl; [done|]. rewrite !filter_cons.
  assert (filter P l = filter Q l) as -> by (apply IH; intros y Hy; apply Hl; by right).
  pose proof (Hl x ltac:(left)). destruct (decide (P x)), (decide (Q x)); tauto.
Qed.

(** Drop the trailing NULL pointers of a pointer array. *)
Fixpoint rstrip {A} (l : list (option A)) : list (option A) :=
  match l with
  | [] => []
  | x :: l =>
      match x, rstrip l with
      | None, [] => []
      | _, l' => x :: l'
      end
  end.

Lemma rstrip_snoc_None {A} (l : list (option A)) : rstrip (l ++ [None]) = rstrip l.
Proof. induction l as [|x l IH]; [done|]. simpl. by rewrite IH. Qed.

Lemma rstrip_snoc_Some {A} (l : list (option A)) x :
  rstrip (l ++ [Some x]) = l ++ [Some x].
Proof.
  induction l as [|y l IH]; [done|]. simpl. rewrite IH.
  destruct y; [done|]. by destruct l.
Qed.

(** Decidable inequality on machine-size quantities, as the C code tests them. *)
Lemma u32_small (z : Z) : (0 ≤ z < 2 ^ 32)%Z → u32 z = z.
Proof. intros ?. unfold u32. by apply Z.mod_small. Qed.

(** ** Bytes in memory, least significant first *)

Fixpoint le_read (l : list Z) : Z :=
  match l with
  | [] => 0
  | b :: l => Z.lor b (Z.shiftl (le_read l) 8)
  end.

Fixpoint le_write (n : nat) (z : Z) : list Z :=
  match n with
  | 0 => []
  | S n => u8 z :: le_write n (Z.shiftr z 8)
  end.

(** [htons]/[ntohs] and [htonl]/[ntohl] on a little-endian host. *)
Definition bswap (n : nat) (z : Z) : Z := le_read (reverse (le_write n z)).
Definition htons (z : Z) : Z := bswap 2 z.
Definition htonl (z : Z) : Z := bswap 4 z.

Definition is_byte (b : Z) : Prop := (0 ≤ b < 256)%Z.
Definition bytes (l : list Z) : Prop := Forall is_byte l.

#[export] Instance is_byte_dec b : Decision (is_byte b).
Proof. unfold is_byte. apply _. Defined.
#[export] Instance bytes_dec l : Decision (bytes l).
Proof. unfold bytes. apply _. Defined.

Lemma testbit_above n z k : (0 ≤ z < 2 ^ n → 0 ≤ n → n ≤ k → Z.testbit z k = false)%Z.
Proof.
  intros Hz Hn Hk. rewrite <- (Z.mod_small z (2 ^ n)) by done.
  by apply Z.mod_pow2_bits_high.
Qed.

Lemma byte_bits b k : is_byte b → (8 ≤ k → Z.testbit b k = false)%Z.
Proof. intros Hb Hk. apply (testbit_above 8); [exact Hb|lia|done]. Qed.

(** Two bytes that agree on their eight bits are equal. *)
Lemma byte_ext a b : is_byte a → is_byte b →
  (∀ k, (0 ≤ k < 8)%Z → Z.testbit a k = Z.testbit b k) → a = b.
Proof.
  intros Ha Hb H. apply Z.bits_inj'. intros k Hk.
  destruct (Z_lt_le_dec k 8); [apply H; lia|]. by rewrite !byte_bits.
Qed.

Lemma u8_byte z : is_byte (u8 z).
Proof. unfold u8, is_byte. apply (Z.mod_pos_bound z 256). lia. Qed.

Lemma u8_id b : is_byte b → u8 b = b.
Proof. intros. by apply Z.mod_small. Qed.

Lemma u8_bit z k : (0 ≤ k < 8)%Z → Z.testbit (u8 z) k = Z.testbit z k.
Proof. intros. unfold u8. apply Z.mod_pow2_bits_low. lia. Qed.

(** The bits above the eighth decide whether a value is a byte. *)
Lemma byte_of_bits z : (∀ k, (8 ≤ k)%Z → Z.testbit z k = false) → is_byte z.
Proof.
  intros H. replace z with (u8 z); [apply u8_byte|]. apply Z.bits_inj'. intros k Hk.
  destruct (Z_lt_le_dec k 8); [apply u8_bit; lia|].
  rewrite H by done. apply byte_bits; [apply u8_byte|done].
Qed.

Lemma land_byte a b : is_byte a → is_byte (Z.land a b).
Proof. intros Ha. apply byte_of_bits. intros k Hk. by rewrite Z.land_spec, byte_bits. Qed.

Lemma le_write_length n z : length (le_write n z) = n.
Proof. revert z. induction n as [|n IH]; intros z; [done|]. simpl. by rewrite IH. Qed.

Lemma le_write_bytes n z : bytes (le_write n z).
Proof.
  revert z. induction n as [|n IH]; intros z; constructor; [apply u8_byte|apply IH].
Qed.

Lemma le_write_lookup n z i : i < n →
  le_write n z !! i = Some (u8 (Z.shiftr z (8 * Z.of_nat i))).
Proof.
  revert z i. induction n as [|n IH]; intros z [|i] Hi; [lia|lia| |]; simpl.
  - by rewrite Z.shiftr_0_r.
  - rewrite IH, Z.shiftr_shiftr by lia. do 3 f_equal. lia.
Qed.

Lemma le_write_read l : bytes l → le_write (length l) (le_read l) = l.
Proof.
  induction 1 as [|b l Hb Hl IH]; [done|]. simpl. f_equal.
  - apply byte_ext; [apply u8_byte|done|]. intros k Hk. rewrite u8_bit by lia.
    rewrite Z.lor_spec, Z.shiftl_spec_low by lia. by rewrite orb_false_r.
  - assert (Z.shiftr (Z.lor b (Z.shiftl (le_read l) 8)) 8 = le_read l) as ->; [|exact IH].
    apply Z.bits_inj'. intros k Hk.
    rewrite Z.shiftr_spec, Z.lor_spec, Z.shiftl_spec by lia.
    rewrite (byte_bits b) by (done || lia). simpl. f_equal. lia.
Qed.

Lemma le_read_inj l1 l2 : bytes l1 → bytes l2 → length l1 = length l2 →
  le_read l1 = le_read l2 → l1 = l2.
Proof. intros B1 B2 L E. by rewrite <- (le_write_read l1), <- (le_write_read l2), E, L. Qed.

Lemma le_read_bit l k : bytes l → (0 ≤ k)%Z →
  Z.testbit (le_read l) k = Z.testbit (default 0%Z (l !! Z.to_nat (k / 8))) (k mod 8).
Proof.
  intros Hl. revert k. induction Hl as [|b l Hb Hl IH]; intros k Hk.
  - simpl. by rewrite !Z.testbit_0_l.
  - simpl le_read. rewrite Z.lor_spec. destruct (Z_lt_le_dec k 8).
    + rewrite Z.shiftl_spec_low by lia. rewrite Z.div_small, Z.mod_small by lia.
      by rewrite orb_false_r.
    + rewrite (byte_bits b) by done. rewrite Z.shiftl_spec, IH by lia. simpl.
      replace k with (k - 8 + 1 * 8)%Z at 3 4 by lia. rewrite Z.div_add, Z.mod_add by lia.
      rewrite Z2Nat.inj_add by (try apply Z.div_pos; lia).
      change (Z.to_nat 1) with 1. by rewrite Nat.add_comm.
Qed.

(** Reading back what was written gives the value modulo its width. *)
Lemma le_read_write n z : le_read (le_write n z) = (z mod 2 ^ (8 * Z.of_nat n))%Z.
Proof.
  apply Z.bits_inj'. intros k Hk. rewrite le_read_bit by (apply le_write_bytes || done).
  pose proof (Z.mod_pos_bound k 8). pose proof (Z_div_mod_eq_full k 8).
  destruct (Z_lt_le_dec k (8 * Z.of_nat n)) as [Hlt|Hge].
  - assert (0 ≤ k / 8 < Z.of_nat n)%Z by (split; [apply Z.div_pos|apply Z.div_lt_upper_bound]; lia).
    rewrite le_write_lookup by lia. simpl. rewrite Z.mod_pow2_bits_low by lia.
    rewrite u8_bit, Z.shiftr_spec by lia. f_equal. lia.
  - rewrite Z.mod_pow2_bits_high by lia. rewrite lookup_ge_None_2; [apply Z.testbit_0_l|].
    rewrite le_write_length. assert (Z.of_nat n ≤ k / 8)%Z by (apply Z.div_le_lower_bound; lia). lia.
Qed.

Lemma le_read_write_small n z : (0 ≤ z < 2 ^ (8 * Z.of_nat n))%Z → le_read (le_write n z) = z.
Proof. intros Hz. rewrite le_read_write. by apply Z.mod_small. Qed.

Lemma le_read_range l : bytes l → (0 ≤ le_read l < 2 ^ (8 * Z.of_nat (length l)))%Z.
Proof.
  intros Hl. pose proof (le_read_write (length l) (le_read l)) as E.
  rewrite le_write_read in E by done. rewrite E. apply Z.mod_pos_bound. lia.
Qed.

Arguments le_write : simpl never.
Arguments bswap : simpl never.
Arguments htons : simpl never.
Arguments htonl : simpl never.

(** * Automation *)

(** [lens] computes lengths; [len] finishes goals about them. *)
Create Rewrite HintDb lens.
#[export] Hint Rewrite @length_app @length_replicate @length_insert @length_take @length_drop le_write_length : lens.
Ltac len := repeat (autorewrite with lens in *; simpl in * ); lia.

(** [bytes] proves that what was cut and pasted from bytes is bytes. *)
Lemma bytes_app l l' : bytes l → bytes l' → bytes (l ++ l').
Proof. intros. by apply Forall_app. Qed.
Lemma bytes_take n l : bytes l → bytes (take n l).
Proof. apply Forall_take. Qed.
Lemma bytes_drop n l : bytes l → bytes (drop n l).
Proof. apply Forall_drop. Qed.
Lemma bytes_zeros n : bytes (replicate n 0%Z).
Proof. apply Forall_replicate. unfold is_byte. lia. Qed.
Create HintDb bytes.
#[export] Hint Resolve u8_byte land_byte le_write_bytes bytes_app bytes_take bytes_drop bytes_zeros : bytes.

(** One step of a computation that may be undefined. *)
Ltac obind := cbn [mbind option_bind].

(** The same by rewriting, where the kernel should not look into the operands. *)
Lemma obind_Some {A B} (f : A → option B) x : Some x ≫= f = f x.
Proof. reflexivity. Qed.
Ltac ostep := rewrite obind_Some; cbv beta iota zeta.
