(* ===== verification/Vector.v ===== *)
(** * The growable pointer vector of libvui: lib/vector.c, lib/vector.h

    A vector is an allocated array of pointers and the number of slots in use; a
    slot may hold NULL ([None]).  The array grows by doubling and never shrinks.
    Its abstract contents are the slots in use: [vector_refines_list] shows that
    the operations do to that list what they promise, and [vector_set_lookup]
    that setting fills the first hole.  [None] as a result is an access outside
    the array. *)
From S2P Require Import Prelude.

Section Vector.
Context {A : Type} `{!EqDecision A}.

(** [struct _vector]: [index] is the block [index] points at; a slot is a
    void pointer, [None] being NULL. *)
Record vector := Vec {
  active : nat;
  alloced : nat;
  index : list (option A)
}.

Definition VECTOR_MIN_SIZE : nat := 1.

Definition vector_init (size : nat) : vector :=
  let size := if size =? 0 then 1 else size in
  Vec 0 size (replicate size None).

(** The byte count [sizeof(ptr) * alloced] is kept in an [unsigned int]. *)
Definition vector_copy (v : vector) : option vector :=
  let size := u32 (8 * Z.of_nat (alloced v)) in
  let cells := Z.to_nat (size / 8) in
  if decide (cells ≤ length (index v))
  then Some (Vec (active v) (alloced v) (take cells (index v)))
  else None.

(** [unsigned int] doubling: when [alloced * 2] wraps, [realloc] is asked for
    fewer than [alloced] slots and the [memset] that follows writes past the
    block. *)
Fixpoint vector_ensure_loop (fuel : nat) (v : vector) (num : nat) : option vector :=
  match fuel with
  | 0 => None
  | S fuel =>
      if num <? alloced v then Some v
      else if (Z.of_nat (alloced v) * 2 <? 2 ^ 32)%Z then
        let v := Vec (active v) (alloced v * 2)
                   (index v ++ replicate (alloced v) None) in
        if alloced v <=? num then vector_ensure_loop fuel v num else Some v
      else None
  end.

Definition vector_ensure (v : vector) (num : nat) : option vector :=
  vector_ensure_loop 33 v num.

Fixpoint empty_slot_loop (l : list (option A)) (i : nat) : nat :=
  match l with
  | [] => i
  | None :: _ => i
  | Some _ :: l => empty_slot_loop l (S i)
  end.

Definition vector_empty_slot (v : vector) : nat :=
  if active v =? 0 then 0 else empty_slot_loop (take (active v) (index v)) 0.

Definition vector_set_index (v : vector) (i : nat) (val : option A) : option (vector * nat) :=
  v ← vector_ensure v i;
  idx ← write (index v) i val;
  Some (Vec (if active v <=? i then i + 1 else active v) (alloced v) idx, i).

Definition vector_set (v : vector) (val : option A) : option (vector * nat) :=
  let i := vector_empty_slot v in
  v ← vector_ensure v i;
  idx ← write (index v) i val;
  Some (Vec (if active v <=? i then i + 1 else active v) (alloced v) idx, i).

Definition vector_slot (v : vector) (i : nat) : option (option A) := index v !! i.
Definition vector_active (v : vector) : nat := active v.

Definition vector_lookup (v : vector) (i : nat) : option (option A) :=
  if active v <=? i then Some None else vector_slot v i.

Definition vector_lookup_ensure (v : vector) (i : nat) : option (vector * option A) :=
  v ← vector_ensure v i;
  x ← vector_slot v i;
  Some (v, x).

(** [while (i && v->index[--i] == NULL && v->active--) ;] *)
Fixpoint unset_loop (idx : list (option A)) (i act : nat) : option nat :=
  match i with
  | 0 => Some act
  | S i =>
      x ← idx !! i;
      match x with
      | Some _ => Some act
      | None =>
          match act with
          | 0 => None
          | S act => unset_loop idx i act
          end
      end
  end.

Definition vector_unset (v : vector) (i : nat) : option vector :=
  if alloced v <=? i then Some v
  else
    idx ← write (index v) i None;
    if i + 1 =? active v then
      act ← unset_loop idx i (active v - 1);
      Some (Vec act (alloced v) idx)
    else Some (Vec (active v) (alloced v) idx).

Definition vector_remove (v : vector) (ix : nat) : option vector :=
  if active v <=? ix then Some v
  else
    let act := active v - 1 in
    let n := act - ix in
    idx ← memmove_cells (index v) ix (ix + 1) n;
    idx ← write idx act None;
    Some (Vec act (alloced v) idx).

Fixpoint vector_compact_loop (fuel : nat) (v : vector) (i : nat) : option vector :=
  match fuel with
  | 0 => None
  | S fuel =>
      if i <? active v then
        x ← vector_slot v i;
        match x with
        | None => v ← vector_remove v i; vector_compact_loop fuel v i
        | Some _ => vector_compact_loop fuel v (i + 1)
        end
      else Some v
  end.

Definition vector_compact (v : vector) : option vector :=
  vector_compact_loop (S (active v)) v 0.

Fixpoint find_value (l : list (option A)) (val : option A) (i : nat) : nat :=
  match l with
  | [] => i
  | x :: l => if decide (x = val) then i else find_value l val (S i)
  end.

(** [do v->active--; while (i && v->index[--i] == NULL);] *)
Fixpoint unset_value_loop (idx : list (option A)) (i act : nat) : option nat :=
  match act with
  | 0 => None
  | S act =>
      match i with
      | 0 => Some act
      | S i =>
          x ← idx !! i;
          match x with
          | Some _ => Some act
          | None => unset_value_loop idx i act
          end
      end
  end.

Definition vector_unset_value (v : vector) (val : option A) : option vector :=
  let i := find_value (take (active v) (index v)) val 0 in
  idx ← (if i <? active v then write (index v) i None else Some (index v));
  if i + 1 =? active v then
    act ← unset_value_loop idx i (active v);
    Some (Vec act (alloced v) idx)
  else Some (Vec (active v) (alloced v) idx).

Fixpoint count_loop (l : list (option A)) (count : nat) : nat :=
  match l with
  | [] => count
  | Some _ :: l => count_loop l (count + 1)
  | None :: l => count_loop l count
  end.

Definition vector_count (v : vector) : nat :=
  count_loop (take (active v) (index v)) 0.

Definition vector_to_array (v : vector) : list (option A) * nat :=
  (take (active v) (index v), active v).

Fixpoint array_to_vector_loop (v : vector) (i : nat) (src : list (option A)) : option vector :=
  match src with
  | [] => Some v
  | x :: src => '(v, _) ← vector_set_index v i x; array_to_vector_loop v (S i) src
  end.

Definition array_to_vector (src : list (option A)) : option vector :=
  array_to_vector_loop (vector_init VECTOR_MIN_SIZE) 0 src.

(** ** Well-formedness and the abstract contents *)

Definition contents (v : vector) : list (option A) := take (active v) (index v).

(** The block has [alloced] slots, every slot past [active] is NULL. *)
Record wf (v : vector) : Prop := {
  wf_pos : 1 ≤ alloced v;
  wf_act : active v ≤ alloced v;
  wf_length : length (index v) = alloced v;
  wf_width : (Z.of_nat (alloced v) < 2 ^ 32)%Z;
  wf_index : index v = contents v ++ replicate (alloced v - active v) None
}.

Lemma contents_length v : wf v → length (contents v) = active v.
Proof.
  intros []. unfold contents. len.
Qed.

(** The block holding [l] in [n] slots, and the vector around it. *)
Definition pad (l : list (option A)) (n : nat) : list (option A) :=
  l ++ replicate (n - length l) None.
Definition mkv (l : list (option A)) (n : nat) : vector := Vec (length l) n (pad l n).
Definition fits (l : list (option A)) (n : nat) : Prop :=
  1 ≤ n ∧ length l ≤ n ∧ (Z.of_nat n < 2 ^ 32)%Z.

Lemma contents_mkv l n : contents (mkv l n) = l.
Proof. unfold contents; simpl. unfold pad. by rewrite take_app_length. Qed.

Lemma pad_length l n : length l ≤ n → length (pad l n) = n.
Proof. unfold pad. intros. len. Qed.

Lemma wf_mkv l n : fits l n → wf (mkv l n).
Proof.
  intros (?&?&?). split; simpl; auto using pad_length.
  by rewrite contents_mkv.
Qed.

(** Every well-formed vector is of that form. *)
Lemma wf_inv v : wf v → ∃ l n, v = mkv l n ∧ fits l n.
Proof.
  intros Hwf. pose proof (contents_length v Hwf) as Hl.
  destruct v as [ac al idx]; destruct Hwf as [? ? ? ? H]. exists (contents (Vec ac al idx)), al.
  unfold mkv, pad. rewrite Hl. simpl in *. split; [by rewrite <- H|].
  unfold fits. lia.
Qed.

Definition set_at (l : list (option A)) (i : nat) (x : option A) : list (option A) :=
  <[i := x]> (l ++ replicate (S i - length l) None).

Lemma set_at_length l i x : length (set_at l i x) = Nat.max (length l) (S i).
Proof. unfold set_at. len. Qed.

Lemma pad_extend l n m : length l ≤ m → m ≤ n →
  pad l n = pad (l ++ replicate (m - length l) None) n.
Proof.
  intros. unfold pad. rewrite <- app_assoc, <- replicate_add.
  do 2 f_equal. len.
Qed.

Lemma pad_insert l n i x : i < length l → <[i := x]> (pad l n) = pad (<[i := x]> l) n.
Proof. intros. unfold pad. by rewrite insert_app_l, length_insert. Qed.

Lemma pad_set l n i x : i < n → length l ≤ n → <[i := x]> (pad l n) = pad (set_at l i x) n.
Proof.
  intros. unfold set_at. rewrite (pad_extend l n (Nat.max (S i) (length l))) by lia.
  replace (Nat.max (S i) (length l) - length l) with (S i - length l) by lia.
  apply pad_insert. len.
Qed.

Lemma pad_take l n i x : S i = length l → length l ≤ n → pad (take i l ++ [x]) n = <[i := x]> (pad l n).
Proof.
  intros Hi ?. rewrite pad_insert by lia. f_equal.
  rewrite insert_take_drop by lia. rewrite drop_ge by lia. done.
Qed.

Lemma pad_snoc_None l n : length l < n → pad (l ++ [None]) n = pad l n.
Proof.
  intros. unfold pad. rewrite <- app_assoc. f_equal.
  rewrite length_app; simpl. replace (n - length l) with (S (n - (length l + 1))) by lia. done.
Qed.

Lemma vector_init_wf n : (Z.of_nat n < 2 ^ 32)%Z →
  wf (vector_init n) ∧ contents (vector_init n) = [].
Proof.
  intros ?. assert (∃ m, vector_init n = mkv [] m ∧ fits [] m) as (m & -> & ?).
  { unfold vector_init. destruct (Nat.eqb_spec n 0); simpl.
    - exists 1. split; [done|]. unfold fits; simpl. lia.
    - exists n. split; [|unfold fits; simpl; lia].
      unfold mkv, pad; simpl. by rewrite Nat.sub_0_r. }
  rewrite contents_mkv. auto using wf_mkv.
Qed.

Lemma vector_ensure_loop_spec fuel l n num :
  fits l n → (Z.of_nat num < 2 ^ 31)%Z →
  (Z.of_nat num < Z.of_nat n * 2 ^ Z.of_nat fuel)%Z →
  ∃ n', vector_ensure_loop (S fuel) (mkv l n) num = Some (mkv l n') ∧
    fits l n' ∧ n ≤ n' ∧ num < n'.
Proof.
  revert n. induction fuel as [|fuel IH]; intros n Hf Hnum Hlt.
  - simpl. destruct (Nat.ltb_spec num n); [|lia]. eauto with lia.
  - remember (S fuel) as f eqn:Ef.
    cbn [vector_ensure_loop alloced mkv active index].
    destruct (Nat.ltb_spec num n); [eauto with lia|].
    destruct (Z.ltb_spec (Z.of_nat n * 2) (2 ^ 32)); [|lia].
    assert (fits l (n * 2)) by (unfold fits in *; lia).
    assert (Vec (length l) (n * 2) (pad l n ++ replicate n None) = mkv l (n * 2)) as ->.
    { unfold mkv, pad. f_equal. rewrite <- app_assoc, <- replicate_add.
      destruct Hf as (?&?&?). do 2 f_equal. lia. }
    destruct (Nat.leb_spec (n * 2) num); [|eauto 6 with lia].
    destruct (IH (n * 2)) as (n' & -> & ? & ? & ?); [done|done| |eauto 6 with lia].
    rewrite Ef, Nat2Z.inj_succ, Z.pow_succ_r in Hlt by lia. lia.
Qed.

Lemma vector_ensure_spec l n num :
  fits l n → (Z.of_nat num < 2 ^ 31)%Z →
  ∃ n', vector_ensure (mkv l n) num = Some (mkv l n') ∧ fits l n' ∧ num < n'.
Proof.
  intros Hf Hnum. destruct (vector_ensure_loop_spec 32 l n num Hf Hnum)
    as (n' & ? & ? & ? & ?); [|eauto].
  destruct Hf. lia.
Qed.

Lemma set_spec l n i x : fits l n → i < n →
  ∃ idx, write (index (mkv l n)) i x = Some idx ∧
    Vec (if active (mkv l n) <=? i then i + 1 else active (mkv l n)) (alloced (mkv l n)) idx
      = mkv (set_at l i x) n ∧ fits (set_at l i x) n.
Proof.
  intros (?&?&?) Hi. simpl. rewrite write_Some by (rewrite pad_length; lia).
  eexists; split; [done|]. rewrite pad_set by lia. split.
  - unfold mkv. rewrite set_at_length. f_equal. destruct (Nat.leb_spec (length l) i); lia.
  - unfold fits. rewrite set_at_length. lia.
Qed.

Lemma vector_set_index_spec l n i x :
  fits l n → (Z.of_nat i < 2 ^ 31)%Z →
  ∃ n', vector_set_index (mkv l n) i x = Some (mkv (set_at l i x) n', i) ∧
    fits (set_at l i x) n'.
Proof.
  intros Hf Hi. unfold vector_set_index.
  destruct (vector_ensure_spec l n i Hf Hi) as (n' & -> & Hf' & ?). simpl.
  destruct (set_spec l n' i x Hf' ltac:(done)) as (idx & Hw & Hv & ?).
  simpl in Hw, Hv. rewrite Hw; simpl. rewrite Hv. eauto.
Qed.

(** First empty slot: the length when there is none. *)
Definition first_empty (l : list (option A)) : nat := empty_slot_loop l 0.

Lemma empty_slot_loop_add l i : empty_slot_loop l i = i + first_empty l.
Proof.
  unfold first_empty. revert i. induction l as [|[y|] l IH]; intros i; simpl; [lia| |lia].
  rewrite (IH (S i)), (IH 1). lia.
Qed.

Lemma first_empty_le l : first_empty l ≤ length l.
Proof.
  induction l as [|[y|] l IH]; unfold first_empty in *; simpl; [lia| |lia].
  rewrite empty_slot_loop_add. unfold first_empty. lia.
Qed.

Lemma vector_empty_slot_spec l n : vector_empty_slot (mkv l n) = first_empty l.
Proof.
  unfold vector_empty_slot. fold (contents (mkv l n)). rewrite contents_mkv. simpl.
  destruct l; done.
Qed.

Lemma vector_set_spec l n x :
  fits l n → (Z.of_nat (length l) < 2 ^ 31)%Z →
  ∃ n', vector_set (mkv l n) x = Some (mkv (set_at l (first_empty l) x) n', first_empty l) ∧
    fits (set_at l (first_empty l) x) n'.
Proof.
  intros Hf Hl. pose proof (first_empty_le l).
  assert (vector_set (mkv l n) x = vector_set_index (mkv l n) (first_empty l) x) as ->.
  { unfold vector_set, vector_set_index. by rewrite vector_empty_slot_spec. }
  apply vector_set_index_spec; [done|lia].
Qed.

Lemma first_empty_full (l : list A) : first_empty (Some <$> l) = length l.
Proof.
  induction l as [|x l IH]; [done|]. unfold first_empty in *. cbn. rewrite empty_slot_loop_add. unfold first_empty. by rewrite IH.
Qed.

Lemma set_at_end l x : set_at l (length l) x = l ++ [x].
Proof.
  unfold set_at. replace (S (length l) - length l) with 1 by lia. cbn [replicate]. by rewrite insert_app_r_alt, Nat.sub_diag by lia.
Qed.

(** Without holes [vector_set] appends. *)
Lemma vector_push_any (l : list A) n x : fits (Some <$> l) n → (Z.of_nat (length l) < 2 ^ 31)%Z →
  ∃ n', vector_set (mkv (Some <$> l) n) x = Some (mkv ((Some <$> l) ++ [x]) n', length l) ∧ fits ((Some <$> l) ++ [x]) n'.
Proof.
  intros Hf Hl. destruct (vector_set_spec (Some <$> l) n x Hf) as (n' & E & Hf'); [by rewrite length_fmap|].
  rewrite first_empty_full in *.
  assert (set_at (Some <$> l) (length l) x = (Some <$> l) ++ [x]) as Es.
  { rewrite <- (set_at_end (Some <$> l) x). by rewrite length_fmap. }
  rewrite Es in *. eauto.
Qed.
Lemma vector_push (l : list A) n x : fits (Some <$> l) n → (Z.of_nat (length l) < 2 ^ 31)%Z →
  ∃ n', vector_set (mkv (Some <$> l) n) (Some x) = Some (mkv (Some <$> (l ++ [x])) n', length l) ∧ fits (Some <$> (l ++ [x])) n'.
Proof. intros Hf Hl. rewrite fmap_app. by apply vector_push_any. Qed.

Lemma vector_lookup_spec l n i : fits l n → vector_lookup (mkv l n) i = Some (mjoin (l !! i)).
Proof.
  intros (?&?&?). unfold vector_lookup, vector_slot; simpl.
  destruct (Nat.leb_spec (length l) i) as [?|Hi].
  - by rewrite lookup_ge_None_2.
  - unfold pad. rewrite lookup_app_l by done. by destruct (lookup_lt_is_Some_2 l i Hi) as [y ->].
Qed.

Lemma vector_lookup_ensure_spec l n i :
  fits l n → (Z.of_nat i < 2 ^ 31)%Z →
  ∃ n', vector_lookup_ensure (mkv l n) i = Some (mkv l n', mjoin (l !! i)) ∧ fits l n'.
Proof.
  intros Hf Hi. unfold vector_lookup_ensure.
  destruct (vector_ensure_spec l n i Hf Hi) as (n' & -> & Hf' & ?). simpl.
  exists n'. split; [|done]. unfold vector_slot; simpl. unfold pad. rewrite lookup_app.
  destruct (l !! i) eqn:E; [done|]. apply lookup_ge_None in E.
  rewrite lookup_replicate_2; [done|]. destruct Hf' as (?&?&?). lia.
Qed.

(** The tail scan of [vector_unset]: it stops at the end of [rstrip]. *)
Lemma unset_loop_spec l tl i act : i = length l → act = length l →
  unset_loop (l ++ tl) i act = Some (length (rstrip l)).
Proof.
  intros -> ->. revert tl. induction l as [|x l IH] using rev_ind; intros tl; [done|].
  rewrite length_app, Nat.add_1_r, <- app_assoc. simpl.
  rewrite list_lookup_middle by done. simpl.
  destruct x as [x|].
  - rewrite rstrip_snoc_Some. f_equal. len.
  - rewrite rstrip_snoc_None. by rewrite (IH (None :: tl)).
Qed.

Lemma rstrip_pad l n : length l ≤ n → pad (rstrip l) n = pad l n.
Proof.
  revert n. induction l as [|[x|] l IH] using rev_ind; intros n Hn; [done| |].
  - by rewrite rstrip_snoc_Some.
  - rewrite length_app in Hn; simpl in Hn.
    rewrite rstrip_snoc_None, IH, pad_snoc_None by lia. done.
Qed.

Lemma rstrip_length l : length (rstrip (A:=A) l) ≤ length l.
Proof.
  induction l as [|[x|] l IH]; simpl; [lia|lia|]. destruct (rstrip l); simpl in *; lia.
Qed.

Lemma fits_shrink l l' n : fits l n → length l' ≤ length l → fits l' n.
Proof. unfold fits. lia. Qed.

Definition unset_at (l : list (option A)) (i : nat) : list (option A) :=
  if i + 1 =? length l then rstrip (take i l) else <[i := None]> l.

Lemma unset_at_length l i : length (unset_at l i) ≤ length l.
Proof.
  unfold unset_at. destruct (i + 1 =? length l); [|len].
  etrans; [apply rstrip_length|]. len.
Qed.

(** Shrinking after the last slot was cleared. *)
Lemma unset_last l n i : fits l n → i + 1 = length l →
  <[i := None]> (pad l n) = take i l ++ None :: replicate (n - length l) None ∧
  mkv (rstrip (take i l)) n = Vec (length (rstrip (take i l))) n (<[i := None]> (pad l n)).
Proof.
  intros (?&?&?) Hi. assert (length (take i l) = i) as Hti by len. split.
  - rewrite <- pad_take by lia. unfold pad. rewrite <- app_assoc. simpl.
    do 3 f_equal. len.
  - unfold mkv. f_equal. rewrite rstrip_pad by len.
    rewrite <- pad_take by lia. rewrite pad_snoc_None by len. done.
Qed.

Lemma pad_insert_None l n i : length l ≤ i → <[i := None]> (pad l n) = pad l n.
Proof.
  intros Hi. destruct (decide (i < length (pad l n))) as [Hlt|]; [|by rewrite list_insert_ge by lia].
  apply list_insert_id. unfold pad in *. rewrite lookup_app_r by done.
  apply lookup_replicate_2. len.
Qed.

Lemma vector_unset_spec l n i : fits l n →
  vector_unset (mkv l n) i = Some (mkv (unset_at l i) n) ∧ fits (unset_at l i) n.
Proof.
  intros Hf. split; [|eapply fits_shrink; [done|apply unset_at_length]].
  pose proof Hf as (?&?&?). unfold vector_unset, unset_at; simpl.
  destruct (Nat.leb_spec n i) as [?|Hi].
  { destruct (Nat.eqb_spec (i + 1) (length l)); [lia|]. by rewrite list_insert_ge by lia. }
  rewrite write_Some by (rewrite pad_length; lia). simpl.
  destruct (Nat.eqb_spec (i + 1) (length l)) as [He|Hne].
  - destruct (unset_last l n i Hf He) as [E1 E2]. rewrite E1 at 1.
    rewrite (unset_loop_spec (take i l)) by len. simpl. by rewrite E2.
  - destruct (decide (i < length l)).
    + unfold mkv. by rewrite pad_insert, length_insert by lia.
    + rewrite pad_insert_None, list_insert_ge by lia. done.
Qed.

Definition remove_at (l : list (option A)) (i : nat) : list (option A) :=
  take i l ++ drop (S i) l.

Lemma remove_at_length l i : i < length l → length (remove_at l i) = length l - 1.
Proof. unfold remove_at. intros. len. Qed.

Lemma vector_remove_spec l n i : fits l n →
  vector_remove (mkv l n) i = Some (mkv (remove_at l i) n) ∧ fits (remove_at l i) n.
Proof.
  intros Hf. pose proof Hf as (?&?&?). unfold vector_remove; simpl.
  destruct (Nat.leb_spec (length l) i) as [?|Hi].
  { unfold remove_at. rewrite take_ge, drop_ge, app_nil_r by lia. done. }
  pose proof (remove_at_length l i Hi) as Hrl.
  split; [|eapply fits_shrink; [done|lia]].
  unfold memmove_cells. rewrite decide_True by (rewrite pad_length; lia). simpl.
  assert (take i (pad l n) ++ take (length l - 1 - i) (drop (i + 1) (pad l n)) ++
    drop (i + (length l - 1 - i)) (pad l n)
    = remove_at l i ++ drop (length l - 1) (pad l n)) as ->.
  { unfold remove_at. rewrite <- app_assoc. f_equal.
    - unfold pad. rewrite take_app_le by lia. done.
    - f_equal; [|f_equal; lia]. unfold pad. rewrite drop_app_le by lia.
      rewrite take_app_le by len. rewrite Nat.add_1_r. apply take_ge. len. }
  rewrite write_Some; simpl.
  - unfold mkv. rewrite Hrl. do 2 f_equal.
    rewrite insert_app_r_alt by lia. rewrite Hrl, Nat.sub_diag.
    unfold pad. rewrite Hrl. f_equal. rewrite drop_app_le by lia.
    destruct (drop (length l - 1) l) as [|y [|z dl]] eqn:E;
      apply (f_equal length) in E; rewrite length_drop in E; simpl in E; [lia| |lia].
    simpl. replace (n - (length l - 1)) with (S (n - length l)) by lia. done.
  - rewrite length_app, Hrl, length_drop, pad_length by lia. lia.
Qed.

Lemma vector_compact_loop_spec n p q fuel :
  fits (p ++ q) n → Forall is_Some p → length q < fuel →
  vector_compact_loop fuel (mkv (p ++ q) n) (length p)
    = Some (mkv (p ++ filter is_Some q) n) ∧ fits (p ++ filter is_Some q) n.
Proof.
  revert p q. induction fuel as [|fuel IH]; intros p q Hf Hp Hq; [lia|].
  cbn [vector_compact_loop active mkv]. destruct q as [|x q].
  { rewrite app_nil_r. destruct (Nat.ltb_spec (length p) (length p)); [lia|].
    rewrite filter_nil, app_nil_r in *. done. }
  destruct (Nat.ltb_spec (length p) (length (p ++ x :: q))) as [_|Hlt];
    [|rewrite length_app in Hlt; simpl in Hlt; lia].
  unfold vector_slot. cbn [index mkv]. unfold pad at 1.
  rewrite lookup_app_l by len. rewrite list_lookup_middle by done. simpl in Hq |- *.
  destruct x as [x|].
  - rewrite filter_cons_True by eauto.
    replace (length p + 1) with (length (p ++ [Some x])) by len.
    change (Some x :: q) with ([Some x] ++ q) in *. rewrite app_assoc in *.
    change (Some x :: filter is_Some q) with ([Some x] ++ filter is_Some q).
    rewrite app_assoc. apply IH; [done| |lia].
    apply Forall_app; split; [done|]. repeat constructor. eauto.
  - destruct (vector_remove_spec (p ++ None :: q) n (length p) Hf) as [-> Hf'].
    assert (remove_at (p ++ None :: q) (length p) = p ++ q) as E.
    { unfold remove_at. rewrite take_app_length. f_equal.
      change (None :: q) with ([None] ++ q). rewrite app_assoc.
      apply drop_app_length'. len. }
    rewrite E in *. simpl. rewrite filter_cons_False by (intros [? ?]; done).
    apply IH; [done|done|lia].
Qed.

Lemma vector_compact_spec l n : fits l n →
  vector_compact (mkv l n) = Some (mkv (filter is_Some l) n) ∧ fits (filter is_Some l) n.
Proof.
  intros Hf. apply (vector_compact_loop_spec n [] l); [done|constructor|]. simpl. lia.
Qed.

Definition unset_value (l : list (option A)) (val : option A) : list (option A) :=
  let i := find_value l val 0 in if i <? length l then unset_at l i else l.

Lemma unset_value_loop_eq idx i : unset_value_loop idx i (S i) = unset_loop idx i i.
Proof.
  induction i as [|i IH]; [done|]. cbn [unset_value_loop unset_loop].
  destruct (idx !! i) as [[?|]|]; simpl; [done| |done]. apply IH.
Qed.

Lemma vector_unset_value_spec l n val : fits l n →
  vector_unset_value (mkv l n) val = Some (mkv (unset_value l val) n) ∧
  fits (unset_value l val) n.
Proof.
  intros Hf. pose proof Hf as (?&?&?). unfold vector_unset_value, unset_value.
  fold (contents (mkv l n)). rewrite contents_mkv. cbn [active index alloced mkv].
  set (i := find_value l val 0). destruct (Nat.ltb_spec i (length l)) as [Hi|Hi].
  2:{ simpl. destruct (Nat.eqb_spec (i + 1) (length l)); [lia|]. done. }
  split; [|eapply fits_shrink; [done|apply unset_at_length]].
  rewrite write_Some by (rewrite pad_length; lia). simpl. unfold unset_at.
  destruct (Nat.eqb_spec (i + 1) (length l)) as [He|Hne].
  - destruct (unset_last l n i Hf He) as [E1 E2]. rewrite <- He, Nat.add_1_r.
    rewrite unset_value_loop_eq, E1 at 1.
    rewrite (unset_loop_spec (take i l)) by len. simpl. by rewrite E2.
  - unfold mkv. by rewrite pad_insert, length_insert by lia.
Qed.

Lemma count_loop_spec l k : count_loop l k = k + length (filter is_Some l).
Proof.
  revert k. induction l as [|[x|] l IH]; intros k; cbn [count_loop]; [rewrite filter_nil; simpl; lia| |].
  - rewrite IH, filter_cons_True by eauto. simpl. lia.
  - by rewrite IH, filter_cons_False by (intros [? ?]; done).
Qed.

Lemma vector_copy_spec v : wf v → (Z.of_nat (alloced v) < 2 ^ 29)%Z →
  vector_copy v = Some v.
Proof.
  intros [] ?. unfold vector_copy. rewrite u32_small by lia.
  replace (8 * Z.of_nat (alloced v))%Z with (Z.of_nat (alloced v) * 8)%Z by lia.
  rewrite Z.div_mul, Nat2Z.id by lia. rewrite decide_True by lia.
  rewrite take_ge by lia. by destruct v.
Qed.

(** From [2 ^ 29] slots on, the byte count wraps and the copy's block is shorter
    than its [alloced] claims. *)
Lemma vector_copy_short v v' : wf v → (2 ^ 29 ≤ Z.of_nat (alloced v))%Z →
  vector_copy v = Some v' → length (index v') < alloced v'.
Proof.
  intros [] H29. unfold vector_copy. case_decide; [|done]. intros [= <-]. simpl.
  rewrite length_take. unfold u32 in *.
  assert (Z.to_nat ((8 * Z.of_nat (alloced v)) mod 2 ^ 32 / 8) < alloced v); [|lia].
  pose proof (Z.mod_pos_bound (8 * Z.of_nat (alloced v)) (2 ^ 32) ltac:(lia)).
  pose proof (Z.div_lt_upper_bound ((8 * Z.of_nat (alloced v)) mod 2 ^ 32) 8 (2 ^ 29) ltac:(lia) ltac:(lia)).
  pose proof (Z.div_pos ((8 * Z.of_nat (alloced v)) mod 2 ^ 32) 8 ltac:(lia) ltac:(lia)). lia.
Qed.

Lemma array_to_vector_loop_spec l n src :
  fits l n → (Z.of_nat (length l + length src) < 2 ^ 31)%Z →
  ∃ n', array_to_vector_loop (mkv l n) (length l) src = Some (mkv (l ++ src) n') ∧
    fits (l ++ src) n'.
Proof.
  revert l n. induction src as [|x src IH]; intros l n Hf Hl.
  - simpl. rewrite app_nil_r. eauto.
  - cbn [array_to_vector_loop length] in *.
    destruct (vector_set_index_spec l n (length l) x Hf) as (n' & -> & Hf'); [lia|]. simpl.
    assert (set_at l (length l) x = l ++ [x]) as E.
    { unfold set_at. rewrite insert_app_r_alt, Nat.sub_diag by lia. f_equal.
      by replace (S (length l) - length l) with 1 by lia. }
    rewrite E in *. replace (S (length l)) with (length (l ++ [x])) by len.
    destruct (IH (l ++ [x]) n' Hf') as (n'' & -> & Hf''); [len|].
    rewrite <- app_assoc in *. eauto.
Qed.

(** ** Operations as a transition system, concrete and abstract *)

Inductive vop :=
| VSet (val : option A)
| VSetIndex (i : nat) (val : option A)
| VLookupEnsure (i : nat)
| VUnset (i : nat)
| VRemove (i : nat)
| VCompact
| VUnsetValue (val : option A).

(** What the code does. *)
Definition vop_run (op : vop) (v : vector) : option vector :=
  match op with
  | VSet x => fst <$> vector_set v x
  | VSetIndex i x => fst <$> vector_set_index v i x
  | VLookupEnsure i => fst <$> vector_lookup_ensure v i
  | VUnset i => vector_unset v i
  | VRemove i => vector_remove v i
  | VCompact => vector_compact v
  | VUnsetValue x => vector_unset_value v x
  end.

(** What it means, on a list of slots. *)
Definition vop_spec (op : vop) (l : list (option A)) : list (option A) :=
  match op with
  | VSet x => set_at l (first_empty l) x
  | VSetIndex i x => set_at l i x
  | VLookupEnsure _ => l
  | VUnset i => unset_at l i
  | VRemove i => remove_at l i
  | VCompact => filter is_Some l
  | VUnsetValue x => unset_value l x
  end.

(** Indices stay below [2 ^ 31]. *)
Definition vop_ok (op : vop) (l : list (option A)) : Prop :=
  match op with
  | VSet _ => (Z.of_nat (length l) < 2 ^ 31)%Z
  | VSetIndex i _ | VLookupEnsure i => (Z.of_nat i < 2 ^ 31)%Z
  | _ => True
  end.

Lemma vop_run_spec op l n : fits l n → vop_ok op l →
  ∃ n', vop_run op (mkv l n) = Some (mkv (vop_spec op l) n') ∧ fits (vop_spec op l) n'.
Proof.
  intros Hf Hok. destruct op as [x|i x|i|i|i| |x]; simpl in *.
  - destruct (vector_set_spec l n x Hf Hok) as (n' & -> & ?). eauto.
  - destruct (vector_set_index_spec l n i x Hf Hok) as (n' & -> & ?). eauto.
  - destruct (vector_lookup_ensure_spec l n i Hf Hok) as (n' & -> & ?). eauto.
  - destruct (vector_unset_spec l n i Hf). eauto.
  - destruct (vector_remove_spec l n i Hf). eauto.
  - destruct (vector_compact_spec l n Hf). eauto.
  - destruct (vector_unset_value_spec l n x Hf). eauto.
Qed.

Fixpoint vops_run (ops : list vop) (v : vector) : option vector :=
  match ops with
  | [] => Some v
  | op :: ops => v ← vop_run op v; vops_run ops v
  end.

Fixpoint vops_spec (ops : list vop) (l : list (option A)) : list (option A) :=
  match ops with [] => l | op :: ops => vops_spec ops (vop_spec op l) end.

Fixpoint vops_ok (ops : list vop) (l : list (option A)) : Prop :=
  match ops with [] => True | op :: ops => vop_ok op l ∧ vops_ok ops (vop_spec op l) end.

Lemma vops_run_spec ops l n : fits l n → vops_ok ops l →
  ∃ n', vops_run ops (mkv l n) = Some (mkv (vops_spec ops l) n') ∧ fits (vops_spec ops l) n'.
Proof.
  revert l n. induction ops as [|op ops IH]; intros l n Hf Hok; simpl in *; [eauto|].
  destruct Hok as [Hok Hoks].
  destruct (vop_run_spec op l n Hf Hok) as (n' & -> & Hf'). simpl. eauto.
Qed.

Lemma first_empty_split l x : ∃ p q,
  first_empty l = length p ∧ set_at l (first_empty l) x = (Some <$> p) ++ x :: q ∧
  (l = (Some <$> p) ++ None :: q ∨ (l = Some <$> p ∧ q = [])).
Proof.
  induction l as [|[y|] l IH]; unfold first_empty in *; simpl.
  - exists [], []. auto.
  - destruct IH as (p & q & Hp & Hs & Hl). rewrite empty_slot_loop_add.
    unfold first_empty. rewrite Hp in *. exists (y :: p), q. split; [done|].
    change (1 + length p) with (S (length p)).
    split; [unfold set_at in *; simpl; by rewrite Hs|].
    destruct Hl as [->|[-> ->]]; auto.
  - exists [], l. unfold set_at; simpl. rewrite app_nil_r. auto.
Qed.

(** C21 (refinement). Any sequence of vector operations that stays below 2^31 slots runs
    without leaving the allocated block and has the effect of the list operations of
    [vops_spec] on the active slots; the representation invariant holds at the end. *)
Theorem vector_refines_list ops v :
  wf v → vops_ok ops (contents v) →
  ∃ v', vops_run ops v = Some v' ∧ wf v' ∧ contents v' = vops_spec ops (contents v).
Proof.
  intros Hwf Hok. destruct (wf_inv v Hwf) as (l & n & -> & Hf). rewrite contents_mkv in *.
  destruct (vops_run_spec ops _ _ Hf Hok) as (n' & -> & Hf').
  eexists; split; [done|]. rewrite contents_mkv. auto using wf_mkv.
Qed.

(** (set). [vector_set] stores into the first empty slot: every slot before it is
    occupied, it was empty, looking it up gives the value, every other index looks up as
    before, and the count of occupied slots grows by one (by none for NULL). *)
Theorem vector_set_lookup v x :
  wf v → (Z.of_nat (active v) < 2 ^ 31)%Z →
  ∃ v' i, vector_set v x = Some (v', i) ∧
    (∀ j, j < i → ∃ y, vector_lookup v j = Some (Some y)) ∧
    vector_lookup v i = Some None ∧
    vector_lookup v' i = Some x ∧
    (∀ j, j ≠ i → vector_lookup v' j = vector_lookup v j) ∧
    vector_count v' = vector_count v + (if x is Some _ then 1 else 0).
Proof.
  intros Hwf Hl. destruct (wf_inv v Hwf) as (l & n & -> & Hf). simpl in Hl.
  destruct (vector_set_spec l n x Hf Hl) as (n' & -> & Hf').
  destruct (first_empty_split l x) as (p & q & Hp & Hs & Hlq).
  rewrite Hs, Hp in *. do 2 eexists; split; [done|].
  unfold vector_count. fold (contents (mkv l n)). fold (contents (mkv ((Some <$> p) ++ x :: q) n')).
  rewrite !contents_mkv, !count_loop_spec.
  pose proof (λ j, vector_lookup_spec l n j Hf) as L1. pose proof (λ j, vector_lookup_spec _ _ j Hf') as L2.
  assert (length p = length (Some <$> p)) as Hp' by (by rewrite length_fmap).
  split_and!; try setoid_rewrite L1; try setoid_rewrite L2.
  - intros j Hj. destruct (lookup_lt_is_Some_2 p j Hj) as [y Hy]. exists y.
    assert ((Some <$> p) !! j = Some (Some y)) as Hj' by (by rewrite list_lookup_fmap, Hy).
    destruct Hlq as [->|[-> ->]]; [rewrite lookup_app_l by lia|]; by rewrite Hj'.
  - destruct Hlq as [->|[-> ->]]; [by rewrite list_lookup_middle by lia|].
    by rewrite lookup_ge_None_2 by lia.
  - by rewrite list_lookup_middle by lia.
  - intros j Hj. do 2 f_equal. destruct (decide (j < length p)).
    + destruct Hlq as [->|[-> ->]]; by rewrite ?lookup_app_l by lia.
    + destruct Hlq as [->|[-> ->]]; rewrite ?lookup_app_r by lia.
      * by rewrite !lookup_cons_ne_0 by lia.
      * rewrite lookup_cons_ne_0 by lia. by rewrite lookup_nil, lookup_ge_None_2 by lia.
  - assert (length (filter is_Some (x :: q))
      = length (filter is_Some q) + if x is Some _ then 1 else 0) as Hx.
    { destruct x; [rewrite filter_cons_True by eauto; simpl; lia|].
      rewrite filter_cons_False by (intros [? ?]; done). lia. }
    rewrite filter_app, length_app, Hx. destruct Hlq as [->|[-> ->]].
    + rewrite filter_app, length_app, (filter_cons_False _ None) by (intros [? ?]; done). lia.
    + rewrite filter_nil; simpl; lia.
Qed.

(** (arrays). [array_to_vector] of an array shorter than 2^31 and [vector_to_array]
    back give the same array and length, NULL entries included. *)
Theorem vector_array_roundtrip src :
  (Z.of_nat (length src) < 2 ^ 31)%Z →
  ∃ v, array_to_vector src = Some v ∧ wf v ∧ vector_to_array v = (src, length src).
Proof.
  intros Hs. destruct (vector_init_wf VECTOR_MIN_SIZE ltac:(done)) as [Hwf Hc].
  destruct (array_to_vector_loop_spec [] 1 src) as (n' & E & Hf); [unfold fits; simpl; lia|done|].
  unfold array_to_vector. change (vector_init VECTOR_MIN_SIZE) with (mkv [] 1).
  eexists; split; [exact E|]. split; [by apply wf_mkv|].
  unfold vector_to_array. f_equal. apply (contents_mkv src).
Qed.

End Vector.
Arguments vector : clear implicits.

(** ** Witnesses *)

Lemma vector_refines_list_witness :
  let ops := [VSet (Some 5); VSetIndex 3 (Some 7); VUnset 3; VSet (Some 9); VSetIndex 4 (Some 1);
              VRemove 0; VCompact; VUnsetValue (Some 1)] in
  wf (A:=nat) (vector_init 1) ∧ vops_ok ops (contents (vector_init 1)) ∧
  ∃ v', vops_run ops (vector_init 1) = Some v' ∧ wf v' ∧ contents v' = [Some 9].
Proof.
  intros ops. pose proof (proj1 (vector_init_wf (A:=nat) 1 ltac:(lia))) as Hwf.
  assert (vops_ok ops (contents (vector_init 1))) as Hok
    by (cbn; repeat split; reflexivity || lia).
  split; [exact Hwf|]. split; [exact Hok|].
  exact (vector_refines_list ops (vector_init 1) Hwf Hok).
Defined.

Lemma vector_set_lookup_witness :
  let v := mkv [Some 4; None; Some 6] 4 in
  wf v ∧ (Z.of_nat (active v) < 2 ^ 31)%Z ∧
  ∃ v' i, vector_set v (Some 8) = Some (v', i) ∧ vector_lookup v' i = Some (Some 8).
Proof.
  intros v. assert (wf v) as Hwf by (apply wf_mkv; unfold fits; simpl; lia).
  split; [exact Hwf|]. split; [reflexivity|].
  destruct (vector_set_lookup v (Some 8) Hwf eq_refl) as (v' & i & H1 & _ & _ & H2 & _).
  exists v', i. split; assumption.
Defined.

Lemma vector_array_roundtrip_witness :
  (Z.of_nat (length [Some 1; None; Some 3]) < 2 ^ 31)%Z ∧
  ∃ v, array_to_vector [Some 1; None; Some 3] = Some v ∧ wf v ∧
    vector_to_array v = ([Some 1; None; Some 3], 3).
Proof.
  split; [reflexivity|]. exact (vector_array_roundtrip [Some 1; None; Some 3] eq_refl).
Defined.
