(* ===== verification/Graph.v ===== *)
(** * Directed graphs: lib/graph.c

    A graph is a vector of its nodes; a node has a vector of the nodes it has an
    edge to and one of the nodes it has an edge from.  Both ends of an edge are
    kept, so adding and removing one touches two nodes.  Nodes live in a heap
    and are told apart by their address; the deletion callback of a node's data
    is recorded in [deleted].

    The adjacency vectors are the vectors of [Vector].  [None] is a read through
    a dangling pointer or outside a vector.

    Theorems: under every history of calls the structure is a finite directed
    multigraph ([graph_refines_multigraph]), and a depth-first walk calls back
    every reachable node exactly once ([graph_dfs_visits]). *)
From stdpp Require Import prelude gmap list relations.
From S2P Require Import Prelude Vector.
Set Default Goal Selector "!".

Abbreviation ptr := nat.

Record gnode := GNode { from : vector ptr; to : vector ptr; data : option nat; del : bool }.

Record graph := Graph {
  nodes : vector ptr;
  heap : gmap ptr gnode;
  fresh : ptr;
  deleted : list nat;   (* data handed to a deletion callback, newest first *)
}.

Definition graph_new : graph := Graph (vector_init VECTOR_MIN_SIZE) ∅ 0 [].

Definition graph_new_node (g : graph) (data : option nat) (del : bool) : option (ptr * graph) :=
  let node := GNode (vector_init VECTOR_MIN_SIZE) (vector_init VECTOR_MIN_SIZE) data del in
  '(ns, _) ← vector_set (nodes g) (Some (fresh g));
  Some (fresh g, Graph ns (<[fresh g := node]> (heap g)) (S (fresh g)) (deleted g)).

(** The last element takes the place of the removed one. *)
Definition graph_vector_remove (v : vector ptr) (ix : nat) : option (vector ptr) :=
  if decide (active v ≤ ix) then Some v
  else
    let act := active v - 1 in
    x ← index v !! act;
    idx ← write (index v) ix x;
    idx ← write idx act None;
    Some (Vec act (alloced v) idx).

(** [for (i = vector_active(v); i--;) if (vector_slot(v, i) == x) { remove; break; }] *)
Fixpoint remove_loop (i : nat) (v : vector ptr) (x : ptr) : option (vector ptr) :=
  match i with
  | 0 => Some v
  | S i =>
      y ← vector_slot v i;
      if decide (y = Some x) then graph_vector_remove v i else remove_loop i v x
  end.

Definition graph_remove_edge (h : gmap ptr gnode) (a b : ptr) : option (gmap ptr gnode) :=
  nb ← h !! b;
  f ← remove_loop (vector_active (from nb)) (from nb) a;
  let h := <[b := GNode f (to nb) (data nb) (del nb)]> h in
  na ← h !! a;
  t ← remove_loop (vector_active (to na)) (to na) b;
  Some (<[a := GNode (from na) t (data na) (del na)]> h).

Definition graph_add_edge (h : gmap ptr gnode) (a b : ptr) : option (gmap ptr gnode) :=
  na ← h !! a;
  '(t, _) ← vector_set (to na) (Some b);
  let h := <[a := GNode (from na) t (data na) (del na)]> h in
  nb ← h !! b;
  '(f, _) ← vector_set (from nb) (Some a);
  Some (<[b := GNode f (to nb) (data nb) (del nb)]> h).

(** The loops of [graph_delete_node] that remove the edges to and from it. *)
Fixpoint remove_in_edges (i : nat) (h : gmap ptr gnode) (node : ptr) : option (gmap ptr gnode) :=
  match i with
  | 0 => Some h
  | S i =>
      n ← h !! node;
      adj ← mjoin (vector_slot (from n) i);
      h ← graph_remove_edge h adj node;
      remove_in_edges i h node
  end.

Fixpoint remove_out_edges (i : nat) (h : gmap ptr gnode) (node : ptr) : option (gmap ptr gnode) :=
  match i with
  | 0 => Some h
  | S i =>
      n ← h !! node;
      adj ← mjoin (vector_slot (to n) i);
      h ← graph_remove_edge h node adj;
      remove_out_edges i h node
  end.

Definition graph_delete_node (g : graph) (node : option ptr) : option graph :=
  match node with
  | None => Some g
  | Some node =>
      n ← heap g !! node;
      h ← remove_in_edges (vector_active (from n)) (heap g) node;
      n ← h !! node;
      h ← remove_out_edges (vector_active (to n)) h node;
      n ← h !! node;
      let deleted := match data n with Some d => if del n then d :: deleted g else deleted g | None => deleted g end in
      ns ← remove_loop (vector_active (nodes g)) (nodes g) node;
      Some (Graph ns (delete node h) (fresh g) deleted)
  end.

(** [for (i = vector_active(graph->nodes); i--;) graph_delete_node(graph, vector_slot(graph->nodes, i))] *)
Fixpoint delete_all (i : nat) (g : graph) : option graph :=
  match i with
  | 0 => Some g
  | S i =>
      n ← vector_slot (nodes g) i;
      g ← graph_delete_node g n;
      delete_all i g
  end.

(** What is left in the heap after the graph itself is freed. *)
Definition graph_delete_graph (g : graph) : option (gmap ptr gnode * list nat) :=
  g ← delete_all (vector_active (nodes g)) g;
  Some (heap g, deleted g).

Fixpoint find_loop (i : nat) (g : graph) (d : option nat) : option (option ptr) :=
  match i with
  | 0 => Some None
  | S i =>
      p ← mjoin (vector_slot (nodes g) i);
      n ← heap g !! p;
      if decide (data n = d) then Some (Some p) else find_loop i g d
  end.

Definition graph_find_node (g : graph) (d : option nat) : option (option ptr) :=
  find_loop (vector_active (nodes g)) g d.

Fixpoint has_edge_loop (i : nat) (v : vector ptr) (b : ptr) : option bool :=
  match i with
  | 0 => Some false
  | S i => y ← vector_slot v i; if decide (y = Some b) then Some true else has_edge_loop i v b
  end.

Definition graph_has_edge (h : gmap ptr gnode) (a b : ptr) : option bool :=
  n ← h !! a; has_edge_loop (vector_active (to n)) (to n) b.

(** [for (i = 0; i < vector_active(visited); i++) if (start == vector_slot(visited, i)) return;] *)
Fixpoint visited_loop (n i : nat) (v : vector ptr) (x : ptr) : option bool :=
  match n with
  | 0 => Some false
  | S n => y ← vector_slot v i; if decide (y = Some x) then Some true else visited_loop n (S i) v x
  end.

(** The walk; the callback's calls are recorded in order. *)
Fixpoint _graph_dfs (fuel : nat) (h : gmap ptr gnode) (start : ptr) (visited : vector ptr) (calls : list ptr) :
    option (vector ptr * list ptr) :=
  match fuel with
  | 0 => None
  | S fuel =>
      seen ← visited_loop (vector_active visited) 0 visited start;
      if (seen : bool) then Some (visited, calls)
      else
        visited ← vector_ensure visited (vector_active visited);
        '(visited, _) ← vector_set_index visited (vector_active visited) (Some start);
        n ← h !! start;
        (fix children (i : nat) (s : vector ptr * list ptr) : option (vector ptr * list ptr) :=
           match i with
           | 0 => Some s
           | S i =>
               c ← mjoin (vector_slot (to n) i);
               s ← _graph_dfs fuel h c s.1 s.2;
               children i s
           end) (vector_active (to n)) (visited, calls ++ [start])
  end.

(** A walk never goes deeper than the number of nodes. *)
Definition graph_dfs (h : gmap ptr gnode) (start : ptr) : option (list ptr) :=
  snd <$> _graph_dfs (S (size h)) h start (vector_init VECTOR_MIN_SIZE) [].

(** ** Vectors without holes *)

Definition holds (v : vector ptr) (l : list ptr) : Prop := ∃ n, v = mkv (Some <$> l) n ∧ fits (Some <$> l) n.

Lemma holds_active v l : holds v l → vector_active v = length l.
Proof. intros (n & -> & _). cbn. apply length_fmap. Qed.

Lemma holds_slot v l i x : holds v l → l !! i = Some x → vector_slot v i = Some (Some x).
Proof.
  intros (n & -> & _) Hi. unfold vector_slot. cbn. unfold pad. apply lookup_app_l_Some. by rewrite list_lookup_fmap, Hi.
Qed.

Lemma holds_inj v l l' : holds v l → holds v l' → l = l'.
Proof.
  intros (k1 & E1 & _) (k2 & E2 & _). rewrite E1 in E2. apply (f_equal contents) in E2. rewrite !contents_mkv in E2.
  by apply (inj (fmap Some)) in E2.
Qed.

Lemma holds_init : holds (vector_init VECTOR_MIN_SIZE) [].
Proof. exists 1. split; [done|]. unfold fits. cbn. lia. Qed.

Lemma holds_set v l x : holds v l → (Z.of_nat (length l) < 2 ^ 31)%Z →
  ∃ v', vector_set v (Some x) = Some (v', length l) ∧ holds v' (l ++ [x]).
Proof.
  intros (n & -> & Hf) Hl. destruct (vector_set_spec _ n (Some x) Hf) as (n' & E & Hf'); [by rewrite length_fmap|].
  rewrite first_empty_full in E, Hf'. rewrite <- (length_fmap (@Some ptr) l), set_at_end in E, Hf'. rewrite length_fmap in E.
  eexists. split; [exact E|]. exists n'. by rewrite fmap_app.
Qed.

Lemma holds_push v l x : holds v l → (Z.of_nat (length l) < 2 ^ 31)%Z →
  ∃ v1 v' k, vector_ensure v (vector_active v) = Some v1
    ∧ vector_set_index v1 (vector_active v1) (Some x) = Some (v', k) ∧ holds v' (l ++ [x]).
Proof.
  intros (n & -> & Hf) Hl. cbn [vector_active mkv active]. destruct (vector_ensure_spec _ n (length (Some <$> l)) Hf) as (n1 & -> & Hf1 & _);
    [by rewrite length_fmap|].
  destruct (vector_set_index_spec _ n1 (length (Some <$> l)) (Some x) Hf1) as (n2 & E & Hf2); [by rewrite length_fmap|].
  rewrite set_at_end in E, Hf2. do 3 eexists. split; [reflexivity|]. split; [exact E|]. exists n2. by rewrite fmap_app.
Qed.

Lemma holds_swap_remove v l i x : holds v l → l !! i = Some x →
  ∃ v' l', graph_vector_remove v i = Some v' ∧ holds v' l' ∧ l ≡ₚ x :: l'.
Proof.
  intros (n & -> & Hf) Hi. pose proof (lookup_lt_Some _ _ _ Hi) as Hlt.
  destruct l as [|y l0 _] using rev_ind; [cbn in Hlt; lia|]. rewrite length_app in Hlt. cbn in Hlt.
  unfold graph_vector_remove. cbn [mkv active index alloced]. rewrite length_fmap, length_app, Nat.add_sub. cbn [length].
  rewrite decide_False by lia. rewrite fmap_app in *. cbn [fmap list_fmap] in *. set (L := Some <$> l0) in *.
  assert (length L = length l0) as HL by apply length_fmap. destruct Hf as (Hf1 & Hf2 & Hf3). rewrite length_app in Hf2. cbn in Hf2.
  assert (pad (L ++ [Some y]) n !! length l0 = Some (Some y)) as ->.
  { unfold pad. apply lookup_app_l_Some. rewrite lookup_app_r by lia. by rewrite HL, Nat.sub_diag. }
  obind. rewrite write_Some by (rewrite pad_length; rewrite ?length_app; cbn; lia). obind.
  rewrite write_Some by (rewrite length_insert, pad_length; rewrite ?length_app; cbn; lia). obind.
  rewrite pad_insert by (rewrite length_app; cbn; lia).
  assert (∀ L' : list (option ptr), length L' = length l0 → ∀ z, <[length l0 := None]> (pad (L' ++ [z]) n) = pad L' n) as Hcut.
  { intros L' HL' z. rewrite pad_insert by (rewrite length_app; cbn; lia). rewrite insert_app_r_alt by lia.
    rewrite HL', Nat.sub_diag. cbn. apply pad_snoc_None. lia. }
  destruct (decide (i = length l0)) as [->|Hne].
  - rewrite lookup_app_r, Nat.sub_diag in Hi by lia. injection Hi as ->. exists (mkv L n), l0. split; [|split].
    + rewrite insert_app_r_alt by lia. rewrite HL, Nat.sub_diag. cbn [insert list_insert]. rewrite Hcut by done. unfold mkv. by rewrite HL.
    + exists n. split; [done|]. unfold fits. fold L. lia.
    + by rewrite Permutation_app_comm.
  - rewrite lookup_app_l in Hi by lia. rewrite insert_app_l by lia.
    exists (mkv (Some <$> <[i := y]> l0) n), (<[i := y]> l0). split; [|split].
    + rewrite Hcut by (rewrite length_insert; lia). unfold mkv. rewrite list_fmap_insert, length_insert. fold L. by rewrite HL.
    + exists n. split; [done|]. unfold fits. rewrite length_fmap, length_insert. lia.
    + rewrite <- (take_drop_middle l0 i x Hi) at 1. rewrite insert_take_drop by lia. solve_Permutation.
Qed.

(** ** Counting *)

Definition cnt {A} `{EqDecision A} (x : A) (l : list A) : nat := length (filter (x =.) l).

Section cnt.
Context {A : Type} `{EqDecision A}.
Implicit Types (x y : A) (l : list A).

Lemma cnt_cons x y l : cnt x (y :: l) = (if decide (x = y) then 1 else 0) + cnt x l.
Proof. unfold cnt. rewrite filter_cons. by destruct (decide (x = y)). Qed.

Lemma cnt_app x l l' : cnt x (l ++ l') = cnt x l + cnt x l'.
Proof. unfold cnt. by rewrite filter_app, length_app. Qed.

Lemma cnt_perm x l l' : l ≡ₚ l' → cnt x l = cnt x l'.
Proof. intros E. unfold cnt. by rewrite E. Qed.

Lemma cnt_pos x l : 0 < cnt x l ↔ x ∈ l.
Proof.
  induction l as [|y l IH]; [split; [cbn; lia|by intros ?%elem_of_nil]|].
  rewrite cnt_cons, elem_of_cons, <- IH. destruct (decide (x = y)); [split; [by left|lia]|]. split; [right; lia|intros [?|?]; [done|lia]].
Qed.

Lemma cnt_zero x l : cnt x l = 0 ↔ x ∉ l.
Proof. rewrite <- cnt_pos. lia. Qed.
End cnt.

(** Removing one occurrence from the back. *)
Lemma remove_loop_spec v l x i : holds v l → i ≤ length l →
  ∃ v' l', remove_loop i v x = Some v' ∧ holds v' l' ∧ (x ∈ take i l → l ≡ₚ x :: l') ∧ (x ∉ take i l → l' = l).
Proof.
  intros Hv Hi. induction i as [|i IH].
  { exists v, l. split_and!; [done|done|by intros ?%elem_of_nil|done]. }
  cbn [remove_loop]. destruct (lookup_lt_is_Some_2 l i ltac:(lia)) as [y Hy]. rewrite (holds_slot v l i y Hv Hy). obind.
  rewrite (take_S_r _ _ _ Hy). destruct (decide (Some y = Some x)) as [[= ->]|Hne].
  - destruct (holds_swap_remove v l i x Hv Hy) as (v' & l' & -> & Hv' & Hp). exists v', l'.
    split_and!; [done|done|done|]. intros Hx. destruct Hx. apply elem_of_app. right. by apply list_elem_of_singleton.
  - destruct (IH ltac:(lia)) as (v' & l' & -> & Hv' & H1 & H2). exists v', l'.
    split_and!; [done|done| |]; rewrite elem_of_app, list_elem_of_singleton.
    + intros [?| ->]; [by apply H1|done].
    + intros Hx. apply H2. tauto.
Qed.

Lemma remove_all_spec v l x : holds v l →
  ∃ v' l', remove_loop (vector_active v) v x = Some v' ∧ holds v' l'
    ∧ (∀ y, cnt y l' = cnt y l - (if decide (y = x) then 1 else 0)) ∧ length l' ≤ length l
    ∧ (x ∈ l → length l = S (length l')) ∧ (∀ y, y ∈ l' → y ∈ l).
Proof.
  intros Hv. rewrite (holds_active v l Hv). destruct (remove_loop_spec v l x (length l) Hv) as (v' & l' & E & Hv' & H1 & H2); [done|].
  exists v', l'. rewrite firstn_all in H1, H2. split; [done|]. split; [done|]. destruct (decide (x ∈ l)) as [Hx|Hx].
  - specialize (H1 Hx). split_and!.
    + intros y. rewrite (cnt_perm y _ _ H1), cnt_cons. destruct (decide (y = x)); lia.
    + rewrite (Permutation_length H1). cbn. lia.
    + intros _. by rewrite (Permutation_length H1).
    + intros y Hy. rewrite H1. by right.
  - rewrite (H2 Hx). split_and!; [|done|done|done]. intros y. destruct (decide (y = x)) as [->|]; [|lia].
    apply cnt_zero in Hx. lia.
Qed.

(** ** The heap as a multigraph

    [c p q] is the number of edges from [p] to [q]; [k] bounds the degrees. *)

Record rep (k : nat) (h : gmap ptr gnode) (c : ptr → ptr → nat) : Prop := Rep {
  rep_node : ∀ p n, h !! p = Some n → ∃ lf lt, holds (from n) lf ∧ holds (to n) lt ∧ length lf ≤ k ∧ length lt ≤ k
    ∧ (∀ q, cnt q lf = c q p) ∧ (∀ q, cnt q lt = c p q);
  rep_closed : ∀ p q, 0 < c p q → is_Some (h !! p) ∧ is_Some (h !! q);
}.

Definition info (n : gnode) : option nat * bool := (data n, del n).

Lemma info_is_Some (h h' : gmap ptr gnode) p : info <$> h' = info <$> h → is_Some (h !! p) → is_Some (h' !! p).
Proof.
  intros Ei [n Hn]. apply (f_equal (.!! p)) in Ei. rewrite !lookup_fmap, Hn in Ei. destruct (h' !! p); [by eexists|done].
Qed.

Lemma rep_ext k k' h c c' : rep k h c → k ≤ k' → (∀ p q, c p q = c' p q) → rep k' h c'.
Proof.
  intros [H1 H2] Hk Hc. split.
  - intros p n Hp. destruct (H1 p n Hp) as (lf & lt & ? & ? & ? & ? & Hf & Ht). exists lf, lt.
    split_and!; [done|done|lia|lia|intros q; by rewrite Hf|intros q; by rewrite Ht].
  - intros p q Hq. apply H2. by rewrite Hc.
Qed.

(** Two nodes changed, the first in its incoming and the second in its
    outgoing edges. *)
Definition updated (h h' : gmap ptr gnode) (a b : ptr) (f t : vector ptr) : Prop :=
  ∀ p, match h !! p, h' !! p with
       | Some n, Some n' => from n' = (if decide (p = b) then f else from n) ∧ to n' = (if decide (p = a) then t else to n)
                            ∧ info n' = info n
       | None, None => True
       | _, _ => False
       end.

Lemma updated_info h h' a b f t : updated h h' a b f t → info <$> h' = info <$> h.
Proof.
  intros Hu. apply map_eq. intros p. rewrite !lookup_fmap. specialize (Hu p).
  destruct (h !! p), (h' !! p); [|done..]. destruct Hu as (_ & _ & E). cbn. by rewrite E.
Qed.

Lemma updated_rep k k' h h' c c' a b f t lf lt : rep k h c → updated h h' a b f t → is_Some (h !! a) → is_Some (h !! b) →
  k ≤ k' → holds f lf → holds t lt → length lf ≤ k' → length lt ≤ k' →
  (∀ q, cnt q lf = c' q b) → (∀ q, cnt q lt = c' a q) → (∀ p q, p ≠ a ∨ q ≠ b → c' p q = c p q) → rep k' h' c'.
Proof.
  intros Hr Hu Ha Hb Hk Hf Ht Lf Lt Cf Ct Cc. split.
  - intros p n' Hp. specialize (Hu p). rewrite Hp in Hu. destruct (h !! p) as [n|] eqn:E; [|done].
    destruct Hu as (Ef & Et & _). destruct (rep_node _ _ _ Hr p n E) as (lf0 & lt0 & ? & ? & ? & ? & Cf0 & Ct0).
    exists (if decide (p = b) then lf else lf0), (if decide (p = a) then lt else lt0). rewrite Ef, Et.
    destruct (decide (p = b)), (decide (p = a)); subst; split_and!; try (done || lia); intros q; rewrite Cc by auto; done.
  - intros p q Hq. assert (is_Some (h !! p) ∧ is_Some (h !! q)) as [Hp' Hq'].
    { destruct (decide (p = a ∧ q = b)) as [[-> ->]|Hne]; [done|]. rewrite Cc in Hq by (destruct (decide (p = a)); [right|left]; naive_solver). by apply (rep_closed _ _ _ Hr). }
    split; [specialize (Hu p)|specialize (Hu q)]; destruct (h' !! _); eauto; by destruct (h !! _), Hp', Hq'.
Qed.

(** ** The operations on the heap *)

Lemma add_edge_spec k h c a b : rep k h c → is_Some (h !! a) → is_Some (h !! b) → (Z.of_nat k < 2 ^ 31)%Z →
  ∃ h', graph_add_edge h a b = Some h' ∧ info <$> h' = info <$> h
    ∧ rep (S k) h' (λ p q, c p q + if decide (p = a ∧ q = b) then 1 else 0).
Proof.
  intros Hr [na Ea] [nb Eb] Hk. destruct (rep_node _ _ _ Hr a na Ea) as (lfa & lta & Hfa & Hta & Lfa & Lta & Cfa & Cta).
  destruct (rep_node _ _ _ Hr b nb Eb) as (lfb & ltb & Hfb & Htb & Lfb & Ltb & Cfb & Ctb).
  unfold graph_add_edge. rewrite Ea. ostep. destruct (holds_set _ _ b Hta) as (t & -> & Ht); [lia|]. ostep.
  set (h1 := <[a := _]> h).
  assert (∃ n, h1 !! b = Some n ∧ from n = from nb ∧ to n = (if decide (b = a) then t else to nb) ∧ info n = info nb)
    as (n & -> & En1 & En2 & En3).
  { unfold h1. destruct (decide (b = a)) as [->|Hne]; [rewrite lookup_insert_eq|rewrite lookup_insert_ne by done; by exists nb].
    eexists. split; [done|]. assert (na = nb) as -> by congruence. done. }
  ostep. rewrite En1. destruct (holds_set _ _ a Hfb) as (f & -> & Hf); [lia|]. clear Hk. ostep.
  assert (updated h (<[b := GNode f (to n) (data n) (del n)]> h1) a b f t) as Hu.
  { intros p. unfold h1. destruct (decide (p = b)) as [->|Hpb].
    - rewrite Eb, lookup_insert_eq. cbn. by rewrite En2.
    - rewrite lookup_insert_ne by done. destruct (decide (p = a)) as [->|Hpa].
      + by rewrite Ea, lookup_insert_eq.
      + rewrite lookup_insert_ne by done. by destruct (h !! p). }
  eexists. split; [reflexivity|]. split; [by eapply updated_info|].
  eapply (updated_rep k (S k)); [exact Hr|exact Hu|eauto|eauto|lia|exact Hf|exact Ht|rewrite length_app; cbn; lia
    |rewrite length_app; cbn; lia| | |].
  - intros q. rewrite cnt_app, cnt_cons, Cfb. cbn. destruct (decide (q = a)), (decide (q = a ∧ b = b)); lia || tauto.
  - intros q. rewrite cnt_app, cnt_cons, Cta. cbn. destruct (decide (q = b)), (decide (a = a ∧ q = b)); lia || tauto.
  - intros p q Hpq. rewrite decide_False; [lia|]. tauto.
Qed.

Lemma remove_edge_spec k h c a b : rep k h c → is_Some (h !! a) → is_Some (h !! b) →
  ∃ h', graph_remove_edge h a b = Some h' ∧ info <$> h' = info <$> h
    ∧ rep k h' (λ p q, c p q - if decide (p = a ∧ q = b) then 1 else 0).
Proof.
  intros Hr [na Ea] [nb Eb]. destruct (rep_node _ _ _ Hr a na Ea) as (lfa & lta & Hfa & Hta & Lfa & Lta & Cfa & Cta).
  destruct (rep_node _ _ _ Hr b nb Eb) as (lfb & ltb & Hfb & Htb & Lfb & Ltb & Cfb & Ctb).
  unfold graph_remove_edge. rewrite Eb. ostep.
  destruct (remove_all_spec _ _ a Hfb) as (f & lf & -> & Hf & Cf & Lf & _ & _). ostep. set (h1 := <[b := _]> h).
  assert (∃ n, h1 !! a = Some n ∧ to n = to na ∧ from n = (if decide (a = b) then f else from na) ∧ info n = info na)
    as (n & -> & En1 & En2 & En3).
  { unfold h1. destruct (decide (a = b)) as [->|Hne]; [rewrite lookup_insert_eq|rewrite lookup_insert_ne by done; by exists na].
    eexists. split; [done|]. assert (na = nb) as -> by congruence. done. }
  ostep. rewrite En1. destruct (remove_all_spec _ _ b Hta) as (t & lt & -> & Ht & Ct & Lt & _ & _). ostep.
  assert (updated h (<[a := GNode (from n) t (data n) (del n)]> h1) a b f t) as Hu.
  { intros p. unfold h1. destruct (decide (p = a)) as [->|Hpa].
    - rewrite Ea, lookup_insert_eq. cbn. by rewrite En2.
    - rewrite lookup_insert_ne by done. destruct (decide (p = b)) as [->|Hpb].
      + by rewrite Eb, lookup_insert_eq.
      + rewrite lookup_insert_ne by done. by destruct (h !! p). }
  eexists. split; [reflexivity|]. split; [by eapply updated_info|].
  eapply (updated_rep k k); [exact Hr|exact Hu|eauto|eauto|lia|exact Hf|exact Ht|lia|lia| | |].
  - intros q. rewrite Cf, Cfb. destruct (decide (q = a)), (decide (q = a ∧ b = b)); lia || tauto.
  - intros q. rewrite Ct, Cta. destruct (decide (q = b)), (decide (a = a ∧ q = b)); lia || tauto.
  - intros p q Hpq. rewrite decide_False; [lia|]. tauto.
Qed.

Lemma cnt_ext_perm {A} `{EqDecision A} (l l' : list A) : (∀ x, cnt x l = cnt x l') → l ≡ₚ l'.
Proof.
  revert l'. induction l as [|x l IH]; intros l' Hc.
  - destruct l' as [|y l']; [done|]. specialize (Hc y). rewrite cnt_cons, decide_True in Hc by done. cbn in Hc. lia.
  - assert (x ∈ l') as Hx. { apply cnt_pos. rewrite <- Hc, cnt_cons, decide_True by done. lia. }
    apply elem_of_Permutation in Hx as [l'' Hp]. rewrite Hp. constructor. apply IH. intros y.
    specialize (Hc y). rewrite (cnt_perm y _ _ Hp), !cnt_cons in Hc. lia.
Qed.

Lemma cnt_NoDup {A} `{EqDecision A} (l : list A) : NoDup l ↔ ∀ x, cnt x l ≤ 1.
Proof.
  induction l as [|x l IH]; [split; [intros _ x; cbn; lia|constructor]|]. rewrite NoDup_cons, IH. split.
  - intros [Hx%cnt_zero Hl] y. rewrite cnt_cons. destruct (decide (y = x)) as [->|]; [lia|]. apply Hl.
  - intros Hc. split.
    + apply cnt_zero. specialize (Hc x). rewrite cnt_cons, decide_True in Hc by done. lia.
    + intros y. specialize (Hc y). rewrite cnt_cons in Hc. lia.
Qed.

Lemma remove_in_edges_spec k i : ∀ h c node n lf, rep k h c → h !! node = Some n → holds (from n) lf → length lf = i →
  ∃ h', remove_in_edges i h node = Some h' ∧ info <$> h' = info <$> h
    ∧ rep k h' (λ p q, if decide (q = node) then 0 else c p q).
Proof.
  induction i as [|i IH]; intros h c node n lf Hr Hn Hf Hl; cbn [remove_in_edges];
    destruct (rep_node _ _ _ Hr node n Hn) as (lf0 & lt0 & Hf0 & _ & _ & _ & Cf & _);
    assert (lf0 = lf) as -> by (by eapply holds_inj).
  { exists h. split; [done|]. split; [done|]. eapply rep_ext; [exact Hr|done|]. intros p q. cbn. destruct (decide (q = node)) as [->|]; [|done].
    rewrite <- Cf. by apply nil_length_inv in Hl as ->. }
  destruct (lookup_lt_is_Some_2 lf i ltac:(lia)) as [adj Hadj]. rewrite Hn. ostep.
  rewrite (holds_slot _ _ _ _ Hf Hadj). cbn [mjoin option_join]. ostep.
  assert (0 < c adj node) as Hpos by (rewrite <- Cf; apply cnt_pos; by eapply list_elem_of_lookup_2).
  destruct (rep_closed _ _ _ Hr _ _ Hpos) as [Ha Hb].
  destruct (remove_edge_spec k h c adj node Hr Ha Hb) as (h1 & -> & Ei & Hr1). ostep.
  assert (is_Some (h1 !! node)) as [n1 Hn1].
  { apply (info_is_Some h); [done|by eexists]. }
  destruct (rep_node _ _ _ Hr1 node n1 Hn1) as (lf1 & lt1 & Hf1 & _ & _ & _ & Cf1 & _).
  assert (adj :: lf1 ≡ₚ lf) as Hp.
  { apply cnt_ext_perm. intros q. rewrite cnt_cons, Cf1, Cf.
    destruct (decide (q = adj)) as [->|], (decide (_ ∧ _)); [lia|tauto|tauto|lia]. }
  apply Permutation_length in Hp. cbn in Hp.
  destruct (IH h1 _ node n1 lf1 Hr1 Hn1 Hf1 ltac:(lia)) as (h' & -> & Ei' & Hr'). exists h'. split; [done|]. split; [congruence|].
  eapply rep_ext; [exact Hr'|done|]. intros p q. cbn. destruct (decide (q = node)); [done|]. rewrite decide_False by tauto. lia.
Qed.

Lemma remove_out_edges_spec k i : ∀ h c node n lt, rep k h c → h !! node = Some n → holds (to n) lt → length lt = i →
  ∃ h', remove_out_edges i h node = Some h' ∧ info <$> h' = info <$> h
    ∧ rep k h' (λ p q, if decide (p = node) then 0 else c p q).
Proof.
  induction i as [|i IH]; intros h c node n lt Hr Hn Ht Hl; cbn [remove_out_edges];
    destruct (rep_node _ _ _ Hr node n Hn) as (lf0 & lt0 & _ & Ht0 & _ & _ & _ & Ct);
    assert (lt0 = lt) as -> by (by eapply holds_inj).
  { exists h. split; [done|]. split; [done|]. eapply rep_ext; [exact Hr|done|]. intros p q. cbn. destruct (decide (p = node)) as [->|]; [|done].
    rewrite <- Ct. by apply nil_length_inv in Hl as ->. }
  destruct (lookup_lt_is_Some_2 lt i ltac:(lia)) as [adj Hadj]. rewrite Hn. ostep.
  rewrite (holds_slot _ _ _ _ Ht Hadj). cbn [mjoin option_join]. ostep.
  assert (0 < c node adj) as Hpos by (rewrite <- Ct; apply cnt_pos; by eapply list_elem_of_lookup_2).
  destruct (rep_closed _ _ _ Hr _ _ Hpos) as [Ha Hb].
  destruct (remove_edge_spec k h c node adj Hr Ha Hb) as (h1 & -> & Ei & Hr1). ostep.
  assert (is_Some (h1 !! node)) as [n1 Hn1].
  { apply (info_is_Some h); [done|by eexists]. }
  destruct (rep_node _ _ _ Hr1 node n1 Hn1) as (lf1 & lt1 & _ & Ht1 & _ & _ & _ & Ct1).
  assert (adj :: lt1 ≡ₚ lt) as Hp.
  { apply cnt_ext_perm. intros q. rewrite cnt_cons, Ct1, Ct.
    destruct (decide (q = adj)) as [->|], (decide (_ ∧ _)); [lia|tauto|tauto|lia]. }
  apply Permutation_length in Hp. cbn in Hp.
  destruct (IH h1 _ node n1 lt1 Hr1 Hn1 Ht1 ltac:(lia)) as (h' & -> & Ei' & Hr'). exists h'. split; [done|]. split; [congruence|].
  eapply rep_ext; [exact Hr'|done|]. intros p q. cbn. destruct (decide (p = node)); [done|]. rewrite decide_False by tauto. lia.
Qed.

(** ** The graph as a finite directed multigraph *)

Record mgraph := MGraph {
  vertices : gmap ptr (option nat * bool);
  edges : list (ptr * ptr);
  mfresh : ptr;
  mdeleted : list nat;
}.

Inductive gop := NewNode (d : option nat) (b : bool) | AddEdge (p q : ptr) | RemoveEdge (p q : ptr) | DeleteNode (p : ptr).

(** What the code does. *)
Definition grun (g : graph) (o : gop) : option graph :=
  match o with
  | NewNode d b => snd <$> graph_new_node g d b
  | AddEdge p q => h ← graph_add_edge (heap g) p q; Some (Graph (nodes g) h (fresh g) (deleted g))
  | RemoveEdge p q => h ← graph_remove_edge (heap g) p q; Some (Graph (nodes g) h (fresh g) (deleted g))
  | DeleteNode p => graph_delete_node g (Some p)
  end.

Fixpoint remove_one (e : ptr * ptr) (l : list (ptr * ptr)) : list (ptr * ptr) :=
  match l with [] => [] | x :: l => if decide (e = x) then l else x :: remove_one e l end.

(** What it means. *)
Definition mrun (m : mgraph) (o : gop) : mgraph :=
  match o with
  | NewNode d b => MGraph (<[mfresh m := (d, b)]> (vertices m)) (edges m) (S (mfresh m)) (mdeleted m)
  | AddEdge p q => MGraph (vertices m) ((p, q) :: edges m) (mfresh m) (mdeleted m)
  | RemoveEdge p q => MGraph (vertices m) (remove_one (p, q) (edges m)) (mfresh m) (mdeleted m)
  | DeleteNode p =>
      MGraph (delete p (vertices m)) (filter (λ e, e.1 ≠ p ∧ e.2 ≠ p) (edges m)) (mfresh m)
        (match vertices m !! p with Some (Some d, true) => d :: mdeleted m | _ => mdeleted m end)
  end.

(** Only live nodes are passed to the operations. *)
Definition gop_ok (m : mgraph) (o : gop) : bool :=
  match o with
  | NewNode _ _ => true
  | AddEdge p q | RemoveEdge p q => bool_decide (is_Some (vertices m !! p)) && bool_decide (is_Some (vertices m !! q))
  | DeleteNode p => bool_decide (is_Some (vertices m !! p))
  end.

Fixpoint gruns (g : graph) (os : list gop) : option graph :=
  match os with [] => Some g | o :: os => g ← grun g o; gruns g os end.
Fixpoint mruns (m : mgraph) (os : list gop) : mgraph :=
  match os with [] => m | o :: os => mruns (mrun m o) os end.
Fixpoint gops_ok (m : mgraph) (os : list gop) : bool :=
  match os with [] => true | o :: os => gop_ok m o && gops_ok (mrun m o) os end.

(** The degrees and the number of nodes are at most [k]. *)
Record represents (k : nat) (g : graph) (m : mgraph) : Prop := Represents {
  r_vertices : info <$> heap g = vertices m;
  r_edges : rep k (heap g) (λ p q, cnt (p, q) (edges m));
  r_nodes : ∃ l, holds (nodes g) l ∧ NoDup l ∧ length l ≤ k ∧ ∀ p, p ∈ l ↔ is_Some (vertices m !! p);
  r_fresh : fresh g = mfresh m ∧ ∀ p, is_Some (vertices m !! p) → p < mfresh m;
  r_deleted : deleted g = mdeleted m;
}.

Lemma info_lookup (h : gmap ptr gnode) vs p : info <$> h = vs → is_Some (h !! p) ↔ is_Some (vs !! p).
Proof. intros <-. rewrite lookup_fmap. split; [intros [n ->]; by eexists|]. destruct (h !! p); [by eexists|by intros []]. Qed.

Lemma cnt_remove_one e l x : cnt x (remove_one e l) = cnt x l - if decide (x = e) then 1 else 0.
Proof.
  induction l as [|y l IH]; [done|]. cbn [remove_one]. destruct (decide (e = y)) as [->|Hne]; rewrite !cnt_cons, ?IH.
  - destruct (decide (x = y)); lia.
  - destruct (decide (x = y)) as [->|]; [|done]. rewrite decide_False by done. lia.
Qed.

Lemma new_node_represents k g m d b : represents k g m → (Z.of_nat k < 2 ^ 31)%Z →
  ∃ p g', graph_new_node g d b = Some (p, g') ∧ represents (S k) g' (mrun m (NewNode d b)).
Proof.
  intros [Hv He (l & Hl & Nl & Ll & Ml) [Hf Hfr] Hd] Hk. unfold graph_new_node.
  destruct (holds_set _ _ (fresh g) Hl) as (ns & -> & Hns); [lia|]. clear Hk. ostep. do 2 eexists. split; [reflexivity|].
  assert (vertices m !! fresh g = None) as Hnone.
  { destruct (vertices m !! fresh g) eqn:E; [|done]. specialize (Hfr (fresh g) ltac:(by eexists)). lia. }
  assert (∀ p q, 0 < cnt (p, q) (edges m) → p ≠ fresh g ∧ q ≠ fresh g) as Hne.
  { intros p q Hpq. destruct (rep_closed _ _ _ He p q Hpq) as [Hp Hq]. rewrite (info_lookup _ _ p Hv) in Hp; rewrite (info_lookup _ _ q Hv) in Hq.
    split; intros ->; destruct Hp, Hq; congruence. }
  split; cbn [nodes heap fresh deleted mrun vertices edges mfresh mdeleted].
  - rewrite fmap_insert, Hv, <- Hf. done.
  - split.
    + intros p n. destruct (decide (p = fresh g)) as [->|Hp].
      * rewrite lookup_insert_eq. intros [= <-]. exists [], []. cbn [from to].
        split_and!; [apply holds_init|apply holds_init|cbn; lia|cbn; lia| |]; intros q; cbn.
        -- destruct (cnt (q, fresh g) (edges m)) eqn:E; [done|]. destruct (Hne q (fresh g)); [lia|done].
        -- destruct (cnt (fresh g, q) (edges m)) eqn:E; [done|]. destruct (Hne (fresh g) q); [lia|done].
      * rewrite lookup_insert_ne by done. apply (rep_node (S k) (heap g) (λ p q, cnt (p, q) (edges m))).
        eapply rep_ext; [exact He|lia|done].
    + intros p q Hpq. destruct (Hne p q Hpq). rewrite !lookup_insert_ne by done. by apply (rep_closed _ _ _ He).
  - exists (l ++ [fresh g]). split; [done|]. split; [|split].
    + apply NoDup_app. split; [done|]. split; [|apply NoDup_singleton]. intros x Hx ->%list_elem_of_singleton.
      apply Ml in Hx as [? ?]. congruence.
    + rewrite length_app. cbn. lia.
    + intros p. rewrite elem_of_app, list_elem_of_singleton, Ml, <- Hf. destruct (decide (p = fresh g)) as [->|Hp].
      * rewrite lookup_insert_eq. split; [by eexists|by right].
      * rewrite lookup_insert_ne by done. tauto.
  - rewrite <- Hf. split; [done|]. intros p. destruct (decide (p = fresh g)) as [->|Hp]; [lia|].
    rewrite lookup_insert_ne by done. intros Hp'. specialize (Hfr p Hp'). lia.
  - done.
Qed.

Lemma delete_node_represents k g m p : represents k g m → is_Some (vertices m !! p) →
  ∃ g', graph_delete_node g (Some p) = Some g' ∧ represents k g' (mrun m (DeleteNode p)).
Proof.
  intros [Hv He (l & Hl & Nl & Ll & Ml) [Hf Hfr] Hd] Hp. unfold graph_delete_node.
  pose proof Hp as Hp'. rewrite <- (info_lookup _ _ _ Hv) in Hp'. destruct Hp' as [n Hn]. rewrite Hn. ostep.
  destruct (rep_node _ _ _ He p n Hn) as (lf & lt & Hlf & _). rewrite (holds_active _ _ Hlf).
  destruct (remove_in_edges_spec k _ _ _ p n lf He Hn Hlf eq_refl) as (h1 & -> & E1 & R1). ostep.
  destruct (info_is_Some _ _ p E1 ltac:(by eexists)) as [n1 Hn1]. rewrite Hn1. ostep.
  destruct (rep_node _ _ _ R1 p n1 Hn1) as (lf1 & lt1 & _ & Hlt1 & _). rewrite (holds_active _ _ Hlt1).
  destruct (remove_out_edges_spec k _ _ _ p n1 lt1 R1 Hn1 Hlt1 eq_refl) as (h2 & -> & E2 & R2). ostep.
  destruct (info_is_Some _ _ p E2 ltac:(by eexists)) as [n2 Hn2]. rewrite Hn2. ostep.
  assert (info <$> h2 = vertices m) as Hv2 by congruence.
  destruct (remove_all_spec _ _ p Hl) as (ns & l' & -> & Hl' & Cl' & Ll' & _ & _). ostep. eexists. split; [reflexivity|].
  split; cbn [nodes heap fresh deleted mrun vertices edges mfresh mdeleted].
  - by rewrite fmap_delete, Hv2.
  - assert (∀ a b, cnt (a, b) (filter (λ e, e.1 ≠ p ∧ e.2 ≠ p) (edges m)) =
      if decide (a = p) then 0 else if decide (b = p) then 0 else cnt (a, b) (edges m)) as Hc.
    { intros a b. unfold cnt. rewrite list_filter_filter. destruct (decide (a = p)) as [->|Ha]; [|destruct (decide (b = p)) as [->|Hb]].
      - rewrite filter_none; [done|]. intros e _ [<- [? _]]. done.
      - rewrite filter_none; [done|]. intros e _ [<- [_ ?]]. done.
      - f_equal. apply filter_in_iff. intros e _. split; [by intros [? _]|]. intros <-. done. }
    split.
    + intros q n' Hq. apply lookup_delete_Some in Hq as [Hqp Hq]. destruct (rep_node _ _ _ R2 q n' Hq) as (f & t & ? & ? & ? & ? & Cf & Ct).
      exists f, t. split_and!; [done..| |]; intros x; rewrite Hc; [rewrite Cf|rewrite Ct]; by repeat case_decide.
    + intros a b. rewrite Hc. intros Hab. destruct (rep_closed _ _ _ R2 a b) as [Ha Hb]; [done|].
      destruct (decide (a = p)), (decide (b = p)); [lia..|]. by rewrite !lookup_delete_ne.
  - exists l'. split; [done|]. assert (∀ x, cnt x l' ≤ cnt x l) as Hle by (intros x; rewrite Cl'; lia). split; [|split; [lia|]].
    + apply cnt_NoDup. intros x. pose proof (proj1 (cnt_NoDup l) Nl x). specialize (Hle x). lia.
    + intros x. rewrite <- cnt_pos, Cl'. pose proof (proj1 (cnt_NoDup l) Nl x) as H1. destruct (decide (x = p)) as [->|Hx].
      * rewrite lookup_delete_eq. split; [lia|by intros []].
      * rewrite lookup_delete_ne by done. rewrite <- Ml, <- cnt_pos. rewrite Nat.sub_0_r. done.
  - split; [done|]. intros q Hq. apply Hfr. destruct (decide (q = p)) as [->|]; [done|]. by rewrite lookup_delete_ne in Hq by done.
  - apply (f_equal (.!! p)) in Hv2. rewrite lookup_fmap, Hn2 in Hv2. cbn in Hv2. rewrite <- Hv2, Hd. unfold info.
    destruct (data n2); [|done]. by destruct (del n2).
Qed.

Lemma grun_represents k g m o : represents k g m → gop_ok m o = true → (Z.of_nat k < 2 ^ 31)%Z →
  ∃ g', grun g o = Some g' ∧ represents (S k) g' (mrun m o).
Proof.
  intros Hr Hok Hk.
  assert (∀ g' m', represents k g' m' → represents (S k) g' m') as Hmono.
  { intros g' m' [A B (l & C1 & C2 & C3 & C4) D E]. split; [done|eapply rep_ext; [exact B|lia|done]| |done|done].
    exists l. split_and!; [done|done|lia|done]. }
  destruct o as [d b|p q|p q|p]; cbn [grun gop_ok] in *.
  - destruct (new_node_represents k g m d b Hr Hk) as (p & g' & -> & Hr'). by exists g'.
  - apply andb_true_iff in Hok as [Hp%bool_decide_eq_true Hq%bool_decide_eq_true]. destruct Hr as [A B C D E].
    rewrite <- (info_lookup _ _ p A) in Hp. rewrite <- (info_lookup _ _ q A) in Hq.
    destruct (add_edge_spec k _ _ p q B Hp Hq Hk) as (h' & -> & Ei & Hr'). clear Hk. ostep. eexists. split; [reflexivity|].
    split; cbn [nodes heap fresh deleted mrun vertices edges mfresh mdeleted]; [congruence| | |done|done].
    + eapply rep_ext; [exact Hr'|done|]. intros a b. cbv beta. rewrite cnt_cons.
      destruct (decide ((a, b) = (p, q))) as [[= -> ->]|Hne]; [rewrite decide_True by done; lia|].
      rewrite decide_False; [lia|]. intros [-> ->]. done.
    + destruct C as (l & C1 & C2 & C3 & C4). exists l. split_and!; [done|done|lia|done].
  - apply andb_true_iff in Hok as [Hp%bool_decide_eq_true Hq%bool_decide_eq_true]. clear Hk. destruct Hr as [A B C D E].
    rewrite <- (info_lookup _ _ p A) in Hp. rewrite <- (info_lookup _ _ q A) in Hq.
    destruct (remove_edge_spec k _ _ p q B Hp Hq) as (h' & -> & Ei & Hr'). ostep. eexists. split; [reflexivity|]. apply Hmono.
    split; cbn [nodes heap fresh deleted mrun vertices edges mfresh mdeleted]; [congruence| |done|done|done].
    eapply rep_ext; [exact Hr'|done|]. intros a b. cbv beta. rewrite cnt_remove_one.
    destruct (decide ((a, b) = (p, q))) as [[= -> ->]|Hne]; [by rewrite decide_True|].
    rewrite decide_False; [done|]. intros [-> ->]. done.
  - apply bool_decide_eq_true in Hok. destruct (delete_node_represents k g m p Hr Hok) as (g' & -> & Hr').
    exists g'. split; [done|]. by apply Hmono.
Qed.

Lemma gruns_represents os : ∀ k g m, represents k g m → gops_ok m os = true → (Z.of_nat (k + length os) < 2 ^ 31)%Z →
  ∃ g', gruns g os = Some g' ∧ represents (k + length os) g' (mruns m os).
Proof.
  induction os as [|o os IH]; intros k g m Hr Hok Hk; cbn [gruns mruns gops_ok length] in *.
  { exists g. by rewrite Nat.add_0_r. }
  apply andb_true_iff in Hok as [Ho Hok]. destruct (grun_represents k g m o Hr Ho) as (g1 & -> & Hr1); [lia|]. ostep.
  destruct (IH (S k) g1 (mrun m o) Hr1 Hok) as (g' & E & Hr'); [lia|]. exists g'. split; [exact E|].
  by replace (k + S (length os)) with (S k + length os) by lia.
Qed.

Definition mempty : mgraph := MGraph ∅ [] 0 [].

Lemma graph_new_represents : represents 0 graph_new mempty.
Proof.
  split; cbn; [by rewrite fmap_empty| | |split; [done|by intros p []]|done].
  - split; [intros p n; by rewrite lookup_empty|intros p q; cbn; lia].
  - exists []. split_and!; [apply holds_init|constructor|cbn; lia|]. intros p. rewrite lookup_empty, elem_of_nil. split; [done|by intros []].
Qed.

(** A membership test on a vector without holes. *)
Lemma has_edge_loop_spec v l b i : holds v l → i ≤ length l → has_edge_loop i v b = Some (bool_decide (b ∈ take i l)).
Proof.
  intros Hv Hi. induction i as [|i IH]; [done|]. cbn [has_edge_loop].
  destruct (lookup_lt_is_Some_2 l i ltac:(lia)) as [y Hy]. rewrite (holds_slot v l i y Hv Hy). ostep. rewrite (take_S_r _ _ _ Hy).
  destruct (decide (Some y = Some b)) as [[= ->]|Hne].
  - f_equal. symmetry. apply bool_decide_eq_true_2, elem_of_app. right. by apply list_elem_of_singleton.
  - rewrite IH by lia. f_equal. apply bool_decide_ext. rewrite elem_of_app, list_elem_of_singleton. split; [by left|].
    intros [?| ->]; [done|by destruct Hne].
Qed.

(** C24 Under every history of calls on live nodes the graph is a finite
    directed multigraph: creating and deleting nodes and adding and removing
    edges change its vertices and its edges as the names say (deleting a node
    takes its edges with it and hands its data to the callback), no call reads a
    dangling pointer, and [graph_has_edge] answers membership. *)
Theorem graph_refines_multigraph (os : list gop) : gops_ok mempty os = true → (Z.of_nat (length os) < 2 ^ 31)%Z →
  let m := mruns mempty os in
  ∃ g, gruns graph_new os = Some g ∧ represents (length os) g m
    ∧ ∀ p q, is_Some (vertices m !! p) → graph_has_edge (heap g) p q = Some (bool_decide ((p, q) ∈ edges m)).
Proof.
  intros Hok Hk m. destruct (gruns_represents os 0 graph_new mempty graph_new_represents Hok Hk) as (g & E & Hr).
  exists g. split; [exact E|]. split; [exact Hr|]. intros p q Hp. destruct Hr as [A B _ _ _].
  apply (info_lookup _ _ p A) in Hp as [n Hn]. unfold graph_has_edge. rewrite Hn. ostep.
  destruct (rep_node _ _ _ B p n Hn) as (lf & lt & _ & Ht & _ & _ & _ & Ct). rewrite (holds_active _ _ Ht).
  rewrite (has_edge_loop_spec _ _ _ _ Ht) by done. rewrite firstn_all. f_equal. apply bool_decide_ext.
  by rewrite <- !cnt_pos, Ct.
Qed.

Lemma graph_refines_multigraph_witness :
  let os := [NewNode (Some 7) true; NewNode None false; AddEdge 0 1; AddEdge 0 1; AddEdge 1 1; RemoveEdge 0 1; DeleteNode 0] in
  edges (mruns mempty os) = [(1, 1)] ∧ mdeleted (mruns mempty os) = [7]
  ∧ ∃ g, gruns graph_new os = Some g ∧ graph_has_edge (heap g) 1 1 = Some true.
Proof.
  intros os. split; [reflexivity|]. split; [reflexivity|].
  destruct (graph_refines_multigraph os) as (g & E & _ & Hh); [reflexivity|reflexivity|].
  exists g. split; [exact E|]. rewrite Hh; [reflexivity|]. by eexists.
Defined.

(** ** Depth-first walk *)

Lemma visited_loop_spec v l x n i : holds v l → i + n = length l → visited_loop n i v x = Some (bool_decide (x ∈ drop i l)).
Proof.
  intros Hv. revert i. induction n as [|n IH]; intros i Hi; cbn [visited_loop].
  { rewrite drop_ge by lia. f_equal. }
  destruct (lookup_lt_is_Some_2 l i ltac:(lia)) as [y Hy]. rewrite (holds_slot v l i y Hv Hy). ostep.
  rewrite (drop_S _ _ _ Hy). destruct (decide (Some y = Some x)) as [[= ->]|Hne].
  - f_equal. symmetry. apply bool_decide_eq_true_2. by left.
  - rewrite IH by lia. f_equal. apply bool_decide_ext. rewrite elem_of_cons. split; [by right|]. by intros [->|?].
Qed.

Section dfs.
Context (k : nat) (h : gmap ptr gnode) (c : ptr → ptr → nat) (Hr : rep k h c).
Context (Hsize : (Z.of_nat (size h) < 2 ^ 31)%Z).

Definition edge (p q : ptr) : Prop := 0 < c p q.

(** A list of distinct live nodes is no longer than the heap is large. *)
Lemma live_length l : NoDup l → (∀ p, p ∈ l → is_Some (h !! p)) → length l ≤ size h.
Proof.
  intros Nl Hl. rewrite <- size_dom. rewrite <- (size_list_to_set (C := gset ptr) l Nl). apply subseteq_size.
  intros p Hp. apply elem_of_list_to_set in Hp. by apply elem_of_dom, Hl.
Qed.

(** The nodes [new] were added by a walk from [start]: all are reachable, and
    their successors are visited too. *)
Record walked (start : ptr) (vis new : list ptr) : Prop := Walked {
  w_nodup : NoDup (vis ++ new);
  w_live : ∀ p, p ∈ new → is_Some (h !! p);
  w_reach : ∀ p, p ∈ new → rtc edge start p;
  w_closed : ∀ p q, p ∈ new → edge p q → q ∈ vis ++ new;
  w_start : start ∈ vis ++ new;
  w_first : start ∉ vis → ∃ l, new = start :: l;
}.

Lemma dfs_spec fuel : ∀ start v vis calls, is_Some (h !! start) → holds v vis → NoDup vis →
  (∀ p, p ∈ vis → is_Some (h !! p)) → size h - length vis < fuel →
  ∃ v' new, _graph_dfs fuel h start v calls = Some (v', calls ++ new) ∧ holds v' (vis ++ new) ∧ walked start vis new.
Proof.
  induction fuel as [|fuel IH]; intros start v vis calls Hs Hv Nv Lv Hf; [lia|]. cbn [_graph_dfs].
  rewrite (holds_active _ _ Hv), (visited_loop_spec v vis start (length vis) 0 Hv eq_refl). ostep. rewrite drop_0.
  case_bool_decide as Hin.
  { exists v, []. rewrite !app_nil_r. split; [done|]. split; [done|]. split; rewrite ?app_nil_r; [done|set_solver..|done|done]. }
  assert (NoDup (vis ++ [start])) as Nv1.
  { apply NoDup_app. split; [done|]. split; [by intros x Hx ->%list_elem_of_singleton|apply NoDup_singleton]. }
  assert (∀ p, p ∈ vis ++ [start] → is_Some (h !! p)) as Lv1.
  { intros p [Hp| ->%list_elem_of_singleton]%elem_of_app; [by apply Lv|done]. }
  pose proof (live_length _ Nv1 Lv1) as Hlen. rewrite length_app in Hlen. cbn [length] in Hlen.
  destruct (holds_push v vis start Hv) as (v1 & v2 & j & Ee & Ei & Hv2); [lia|].
  rewrite (holds_active _ _ Hv) in Ee. rewrite Ee. ostep. rewrite Ei. ostep.
  destruct Hs as [n Hn]. rewrite Hn. ostep. destruct (rep_node _ _ _ Hr start n Hn) as (lf & lt & _ & Ht & _ & _ & _ & Ct).
  rewrite (holds_active _ _ Ht).
  set (children := fix children (i : nat) (s : vector ptr * list ptr) := match i with 0 => _ | S i => _ end).
  (* the loop over the children, from a state in which [new1] was added *)
  assert (∀ i new1 w, i ≤ length lt → holds w (vis ++ start :: new1) → NoDup (vis ++ start :: new1) →
    (∀ p, p ∈ new1 → is_Some (h !! p)) → (∀ p, p ∈ new1 → rtc edge start p) →
    (∀ p q, p ∈ new1 → edge p q → q ∈ vis ++ start :: new1) →
    ∃ v' new, children i (w, calls ++ start :: new1) = Some (v', calls ++ start :: new1 ++ new) ∧ holds v' (vis ++ start :: new1 ++ new)
      ∧ NoDup (vis ++ start :: new1 ++ new) ∧ (∀ p, p ∈ new1 ++ new → is_Some (h !! p)) ∧ (∀ p, p ∈ new1 ++ new → rtc edge start p)
      ∧ (∀ p q, p ∈ new1 ++ new → edge p q → q ∈ vis ++ start :: new1 ++ new)
      ∧ (∀ q, q ∈ take i lt → q ∈ vis ++ start :: new1 ++ new)) as Hch.
  { induction i as [|i IHi]; intros new1 w Hi Hw Nw Lw Rw Cw; cbn [children].
    { exists w, []. rewrite app_nil_r. split_and!; try done. by intros q ?%elem_of_nil. }
    destruct (lookup_lt_is_Some_2 lt i ltac:(lia)) as [ch Hch]. rewrite (holds_slot _ _ _ _ Ht Hch). cbn [mjoin option_join]. ostep. cbn [fst snd].
    assert (edge start ch) as Hedge by (unfold edge; rewrite <- Ct; apply cnt_pos; by eapply list_elem_of_lookup_2).
    destruct (rep_closed _ _ _ Hr _ _ Hedge) as [_ Hlive].
    destruct (IH ch w (vis ++ start :: new1) (calls ++ start :: new1)) as (w' & new & -> & Hw' & [N1 L1 R1 C1 S1 _]); [done|done|done| | |].
    { intros p. rewrite elem_of_app, elem_of_cons. intros [?|[->|?]]; [by apply Lv|by eexists|by apply Lw]. }
    { rewrite length_app. cbn [length]. lia. }
    ostep. cbn [fst snd]. rewrite <- !app_assoc in *. cbn [app] in *.
    destruct (IHi (new1 ++ new) w') as (v' & new2 & E & Hv' & N2 & L2 & R2 & C2 & T2); [lia|done|done| | | |].
    - intros p [?|?]%elem_of_app; [by apply Lw|by apply L1].
    - intros p [?|Hp]%elem_of_app; [by apply Rw|]. eapply rtc_l; [exact Hedge|by apply R1].
    - intros p q [Hp|Hp]%elem_of_app Hpq; [|by eapply C1]. specialize (Cw p q Hp Hpq). set_solver.
    - exists v', (new ++ new2). rewrite <- !app_assoc in *. split_and!; try done.
      intros q. rewrite (take_S_r _ _ _ Hch). intros [?|Hq]%elem_of_app; [by apply T2|].
      apply list_elem_of_singleton in Hq as ->. set_solver. }
  destruct (Hch (length lt) [] v2) as (v' & new & E & Hv' & N' & L' & R' & C' & T'); [done|done|done|set_solver|set_solver|set_solver|].
  cbn [app] in *. exists v', (start :: new). split; [exact E|]. split; [done|]. rewrite firstn_all in T'. split.
  - done.
  - intros p [->|?]%elem_of_cons; [by eexists|by apply L'].
  - intros p [->|?]%elem_of_cons; [done|by apply R'].
  - intros p q [->|?]%elem_of_cons Hpq; [|by eapply C']. apply T', cnt_pos. by rewrite Ct.
  - set_solver.
  - by eexists.
Qed.
End dfs.

(** A walk from a node of a well-formed graph ends, and calls back every
    node that can be reached along edges exactly once and no other, the start
    first. *)
Theorem graph_dfs_visits (k : nat) (h : gmap ptr gnode) (c : ptr → ptr → nat) (start : ptr) :
  rep k h c → is_Some (h !! start) → (Z.of_nat (size h) < 2 ^ 31)%Z →
  ∃ calls, graph_dfs h start = Some (start :: calls) ∧ NoDup (start :: calls)
    ∧ ∀ p, p ∈ start :: calls ↔ rtc (edge c) start p.
Proof.
  intros Hr Hs Hk.
  destruct (dfs_spec k h c Hr Hk (S (size h)) start (vector_init VECTOR_MIN_SIZE) [] []) as (v' & new & E & _ & [N L R C _ F]);
    [done|apply holds_init|constructor|by intros p ?%elem_of_nil|cbn; lia|].
  cbn [app] in *. unfold graph_dfs. rewrite E. cbn [fmap option_fmap option_map snd].
  destruct F as [calls ->]; [by intros ?%elem_of_nil|]. exists calls. split; [done|]. split; [done|]. intros p. split; [apply R|].
  revert p. apply rtc_ind_r; [by left|]. intros p q _ Hpq Hp. by eapply C.
Qed.

Lemma graph_dfs_visits_witness :
  let os := [NewNode None false; NewNode None false; NewNode None false; NewNode None false; AddEdge 0 1; AddEdge 1 2; AddEdge 2 0; AddEdge 3 0] in
  ∃ g calls, gruns graph_new os = Some g ∧ graph_dfs (heap g) 0 = Some (0 :: calls) ∧ NoDup (0 :: calls).
Proof.
  intros os. destruct (gruns_represents os 0 graph_new mempty graph_new_represents) as (g & E & [A B _ _ _]); [reflexivity|reflexivity|].
  destruct (graph_dfs_visits _ (heap g) _ 0 B) as (calls & Ec & Nc & _).
  - apply (info_lookup _ _ 0 A). by eexists.
  - vm_compute in E. injection E as <-. reflexivity.
  - exists g, calls. split; [exact E|]. split; [exact Ec|exact Nc].
Defined.

(** Deleting the graph frees every node. *)
Lemma graph_delete_graph_frees k g m : represents k g m → ∃ d, graph_delete_graph g = Some (∅, d).
Proof.
  intros Hr. unfold graph_delete_graph. destruct (r_nodes _ _ _ Hr) as (l & Hl & Nl & _ & Ml).
  rewrite (holds_active _ _ Hl). remember (length l) as i eqn:Hi. revert g m l Hr Hl Nl Ml Hi.
  induction i as [|i IH]; intros g m l Hr Hl Nl Ml Hi; cbn [delete_all].
  { ostep. exists (deleted g). assert (heap g = ∅) as ->; [|done]. apply map_empty. intros p.
    destruct (heap g !! p) eqn:E; [|done]. symmetry in Hi. apply nil_length_inv in Hi as ->.
    assert (p ∈ []) as Hp; [|by apply elem_of_nil in Hp]. apply Ml, (info_lookup _ _ p (r_vertices _ _ _ Hr)). by eexists. }
  destruct (lookup_lt_is_Some_2 l i ltac:(lia)) as [p Hp]. rewrite (holds_slot _ _ _ _ Hl Hp). ostep.
  assert (p ∈ l) as Hpl by (by eapply list_elem_of_lookup_2).
  destruct (delete_node_represents k g m p Hr) as (g' & -> & Hr'); [by apply Ml|]. ostep.
  destruct (r_nodes _ _ _ Hr') as (l' & Hl' & Nl' & _ & Ml'). apply (IH g' _ l' Hr' Hl' Nl' Ml').
  assert (l ≡ₚ p :: l') as E%Permutation_length; [|cbn in E; lia]. cbn [mrun vertices] in Ml'.
  assert (p ∉ l') as Hpl'. { rewrite Ml', lookup_delete_eq. by intros []. }
  apply NoDup_Permutation; [done|by constructor|]. intros x. rewrite elem_of_cons, Ml, Ml'. destruct (decide (x = p)) as [->|Hx].
  - split; [by left|]. intros _. by apply Ml.
  - rewrite lookup_delete_ne by done. tauto.
Qed.
