(* ===== verification/LinkList.v ===== *)
(** * Doubly linked lists: lib/linklist.c, lib/linklist.h

    A list has pointers to its first and last node and a count; a node has
    pointers to its neighbours and to its data.  Nodes live in the heap of their
    list and are told apart by their address; a node address is a handle that
    callers keep to insert next to it, move it or delete it.

    [None] as a result is a failed assertion, a null or dangling pointer that is
    followed, or a write outside an array.  The callback [del] is recorded in
    [freed]; the order [cmp] is an argument, [None] when the list has none.

    Theorems: under every history of calls with handles of the list and without
    [listnode_add_head] on an empty list, which leaves it without a tail, the
    structure is the list of its nodes that the operations' names say
    ([linklist_refines]), and insertion by
    [listnode_add_sort] sorts ([listnode_add_sort_sorts]). *)
From stdpp Require Import prelude gmap list sorting.
From S2P Require Import Prelude.
Set Default Goal Selector "!".

Section linklist.
Context {D : Type} `{!EqDecision D}.

Abbreviation ptr := nat.

Record listnode := LNode { next : option ptr; prev : option ptr; data : D }.

Record llist := LList {
  head : option ptr;
  tail : option ptr;
  count : Z;                    (* unsigned int *)
  heap : gmap ptr listnode;
  fresh : ptr;
  freed : list D;               (* data handed to [del], newest first *)
}.

Definition list_new : llist := LList None None 0 ∅ 0 [].

Definition set_next (h : gmap ptr listnode) (p : ptr) (v : option ptr) : option (gmap ptr listnode) :=
  n ← h !! p; Some (<[p := LNode v (prev n) (data n)]> h).
Definition set_prev (h : gmap ptr listnode) (p : ptr) (v : option ptr) : option (gmap ptr listnode) :=
  n ← h !! p; Some (<[p := LNode (next n) v (data n)]> h).

Definition listnode_add (l : llist) (val : option D) : option (ptr * llist) :=
  val ← val;
  let node := fresh l in
  let h := <[node := LNode None (tail l) val]> (heap l) in
  match head l with
  | None => Some (node, LList (Some node) (Some node) (u32 (count l + 1)) h (S node) (freed l))
  | Some _ =>
      t ← tail l; h ← set_next h t (Some node);
      Some (node, LList (head l) (Some node) (u32 (count l + 1)) h (S node) (freed l))
  end.

(** An empty list gets a head and no tail. *)
Definition listnode_add_head (l : llist) (val : option D) : option llist :=
  val ← val;
  let node := fresh l in
  let h := <[node := LNode (head l) None val]> (heap l) in
  h ← match head l with None => Some h | Some hd => set_prev h hd (Some node) end;
  Some (LList (Some node) (tail l) (u32 (count l + 1)) h (S node) (freed l)).

(** [new->next = n; new->prev = n->prev; if (n->prev) n->prev->next = new; else
    list->head = new; n->prev = new; list->count++] *)
Definition insert_before (l : llist) (n : ptr) (val : D) : option llist :=
  nn ← heap l !! n;
  let new := fresh l in
  let h := <[new := LNode (Some n) (prev nn) val]> (heap l) in
  '(h, hd) ← match prev nn with
             | Some p => h ← set_next h p (Some new); Some (h, head l)
             | None => Some (h, Some new)
             end;
  h ← set_prev h n (Some new);
  Some (LList hd (tail l) (u32 (count l + 1)) h (S new) (freed l)).

(** [LISTNODE_ATTACH] of a new node with [val]. *)
Definition attach_new (l : llist) (val : D) : option llist :=
  let new := fresh l in
  let h := <[new := LNode None (tail l) val]> (heap l) in
  '(h, hd) ← match head l with
             | None => Some (h, Some new)
             | Some hd => t ← tail l; h ← set_next h t (Some new); Some (h, Some hd)
             end;
  Some (LList hd (Some new) (u32 (count l + 1)) h (S new) (freed l)).

(** The search of [listnode_add_sort]; the fuel is the number of nodes. *)
Fixpoint sort_position (fuel : nat) (cmp : D → D → Z) (h : gmap ptr listnode) (n : option ptr) (val : D) :
    option (option ptr) :=
  match n with
  | None => Some None
  | Some n =>
      match fuel with
      | 0 => None
      | S fuel =>
          nn ← h !! n;
          if (cmp val (data nn) <? 0)%Z then Some (Some n) else sort_position fuel cmp h (next nn) val
      end
  end.

Definition append_new (l : llist) (val : D) : option llist :=
  let new := fresh l in
  let h := <[new := LNode None (tail l) val]> (heap l) in
  '(h, hd) ← match tail l with
             | Some t => h ← set_next h t (Some new); Some (h, head l)
             | None => Some (h, Some new)
             end;
  Some (LList hd (Some new) (u32 (count l + 1)) h (S new) (freed l)).

Definition listnode_add_sort (cmp : option (D → D → Z)) (l : llist) (val : option D) : option llist :=
  val ← val;
  pos ← match cmp with Some cmp => sort_position (size (heap l)) cmp (heap l) (head l) val | None => Some None end;
  match pos with
  | Some n => insert_before l n val
  | None => append_new l val
  end.

(** The search of [listnode_add_sort_nodup]: a place, the end, or a duplicate. *)
Inductive place := Before (n : ptr) | At_end | Duplicate.
Fixpoint nodup_position (fuel : nat) (cmp : D → D → Z) (h : gmap ptr listnode) (n : option ptr) (val : D) : option place :=
  match n with
  | None => Some At_end
  | Some n =>
      match fuel with
      | 0 => None
      | S fuel =>
          nn ← h !! n;
          let ret := cmp val (data nn) in
          if (ret <? 0)%Z then Some (Before n)
          else if decide (ret = 0)%Z then Some Duplicate
          else nodup_position fuel cmp h (next nn) val
      end
  end.

Definition listnode_add_sort_nodup (cmp : option (D → D → Z)) (l : llist) (val : option D) : option (bool * llist) :=
  val ← val;
  pos ← match cmp with Some cmp => nodup_position (size (heap l)) cmp (heap l) (head l) val | None => Some At_end end;
  match pos with
  | Before n => l ← insert_before l n val; Some (true, l)
  | At_end => l ← attach_new l val; Some (true, l)
  | Duplicate => Some (false, l)
  end.

Definition listnode_add_after (l : llist) (pp : option ptr) (val : option D) : option (ptr * llist) :=
  val ← val;
  let nn := fresh l in
  match pp with
  | None =>
      let h := <[nn := LNode (head l) None val]> (heap l) in
      '(h, tl) ← match head l with
                 | Some hd => h ← set_prev h hd (Some nn); Some (h, tail l)
                 | None => Some (h, Some nn)
                 end;
      Some (nn, LList (Some nn) tl (u32 (count l + 1)) h (S nn) (freed l))
  | Some pp =>
      n ← heap l !! pp;
      let h := <[nn := LNode (next n) (Some pp) val]> (heap l) in
      '(h, tl) ← match next n with
                 | Some q => h ← set_prev h q (Some nn); Some (h, tail l)
                 | None => Some (h, Some nn)
                 end;
      h ← set_next h pp (Some nn);
      Some (nn, LList (head l) tl (u32 (count l + 1)) h (S nn) (freed l))
  end.

Definition listnode_add_before (l : llist) (pp : option ptr) (val : option D) : option (ptr * llist) :=
  val ← val;
  let nn := fresh l in
  match pp with
  | None =>
      let h := <[nn := LNode None (tail l) val]> (heap l) in
      '(h, hd) ← match tail l with
                 | Some t => h ← set_next h t (Some nn); Some (h, head l)
                 | None => Some (h, Some nn)
                 end;
      Some (nn, LList hd (Some nn) (u32 (count l + 1)) h (S nn) (freed l))
  | Some pp =>
      n ← heap l !! pp;
      let h := <[nn := LNode (Some pp) (prev n) val]> (heap l) in
      '(h, hd) ← match prev n with
                 | Some q => h ← set_next h q (Some nn); Some (h, head l)
                 | None => Some (h, Some nn)
                 end;
      h ← set_prev h pp (Some nn);
      Some (nn, LList hd (tail l) (u32 (count l + 1)) h (S nn) (freed l))
  end.

(** [LISTNODE_DETACH]; the node itself stays as it is. *)
Definition detach (l : llist) (p : ptr) : option llist :=
  n ← heap l !! p;
  '(h, hd) ← match prev n with
             | Some q => h ← set_next (heap l) q (next n); Some (h, head l)
             | None => Some (heap l, next n)
             end;
  '(h, tl) ← match next n with
             | Some q => h ← set_prev h q (prev n); Some (h, tail l)
             | None => Some (h, prev n)
             end;
  Some (LList hd tl (u32 (count l - 1)) h (fresh l) (freed l)).

(** [LISTNODE_ATTACH] of an existing node. *)
Definition attach (l : llist) (p : ptr) : option llist :=
  n ← heap l !! p;
  let h := <[p := LNode None (tail l) (data n)]> (heap l) in
  '(h, hd) ← match head l with
             | None => Some (h, Some p)
             | Some hd => t ← tail l; h ← set_next h t (Some p); Some (h, Some hd)
             end;
  Some (LList hd (Some p) (u32 (count l + 1)) h (fresh l) (freed l)).

Definition listnode_move_to_tail (l : llist) (n : ptr) : option llist := l ← detach l n; attach l n.

Definition list_delete_node (l : llist) (node : ptr) : option llist :=
  l ← detach l node;
  Some (LList (head l) (tail l) (count l) (delete node (heap l)) (fresh l) (freed l)).

Fixpoint lookup_loop (fuel : nat) (h : gmap ptr listnode) (node : option ptr) (d : D) : option (option ptr) :=
  match node with
  | None => Some None
  | Some p =>
      match fuel with
      | 0 => None
      | S fuel => n ← h !! p; if decide (d = data n) then Some (Some p) else lookup_loop fuel h (next n) d
      end
  end.

Definition listnode_lookup (l : llist) (d : D) : option (option ptr) :=
  lookup_loop (size (heap l)) (heap l) (head l) d.

(** A null list is looked up as an empty one. *)
Definition listnode_lookup_nocheck (l : option llist) (d : D) : option (option ptr) :=
  match l with None => Some None | Some l => listnode_lookup l d end.

Definition listnode_delete (l : llist) (val : D) : option llist :=
  node ← listnode_lookup l val;
  match node with Some p => list_delete_node l p | None => Some l end.

Definition listnode_head (l : llist) : option (option D) :=
  match head l with Some p => n ← heap l !! p; Some (Some (data n)) | None => Some None end.

(** The data of the nodes from [node] on, in order. *)
Fixpoint elements_loop (fuel : nat) (h : gmap ptr listnode) (node : option ptr) : option (list D) :=
  match node with
  | None => Some []
  | Some p =>
      match fuel with
      | 0 => None
      | S fuel => n ← h !! p; rest ← elements_loop fuel h (next n); Some (data n :: rest)
      end
  end.
Definition elements (l : llist) : option (list D) := elements_loop (size (heap l)) (heap l) (head l).

(** The nodes are freed while walking. *)
Fixpoint delete_all_loop (fuel : nat) (del : bool) (h : gmap ptr listnode) (node : option ptr) (freed : list D) :
    option (gmap ptr listnode * list D) :=
  match node with
  | None => Some (h, freed)
  | Some p =>
      match fuel with
      | 0 => None
      | S fuel =>
          n ← h !! p;
          delete_all_loop fuel del (delete p h) (next n) (if del then data n :: freed else freed)
      end
  end.

Definition list_delete_all_node (del : bool) (l : llist) : option llist :=
  '(h, fr) ← delete_all_loop (size (heap l)) del (heap l) (head l) (freed l);
  Some (LList None None 0 h (fresh l) fr).

(** What is left when the list itself is freed. *)
Definition list_delete (del : bool) (l : llist) : option (gmap ptr listnode * list D) :=
  l ← list_delete_all_node del l; Some (heap l, freed l).

(** [ALL_LIST_ELEMENTS] with a body that may delete the node it is at. *)
Fixpoint filter_loop (fuel : nat) (del : bool) (cond : D → bool) (l : llist) (node : option ptr) : option llist :=
  match node with
  | None => Some l
  | Some p =>
      match fuel with
      | 0 => None
      | S fuel =>
          n ← heap l !! p;
          if cond (data n) then
            let l := if del then LList (head l) (tail l) (count l) (heap l) (fresh l) (data n :: freed l) else l in
            l ← list_delete_node l p;
            filter_loop fuel del cond l (next n)
          else filter_loop fuel del cond l (next n)
      end
  end.

(** Without a condition every node goes. *)
Definition list_filter_out_nodes (del : bool) (l : llist) (cond : option (D → bool)) : option llist :=
  filter_loop (size (heap l)) del (default (λ _, true) cond) l (head l).

Fixpoint add_all (l : llist) (vals : list D) : option llist :=
  match vals with
  | [] => Some l
  | v :: vals => '(_, l) ← listnode_add l (Some v); add_all l vals
  end.

(** The two lists do not share nodes. *)
Definition list_add_list (l add : llist) : option llist := vals ← elements add; add_all l vals.

Definition list_dup (l : llist) : option llist := vals ← elements l; add_all list_new vals.

(** [items[++i] = data; list_delete_node(list, ln)] on every node. *)
Fixpoint take_out (fuel : nat) (l : llist) (node : option ptr) (items : list D) : option (llist * list D) :=
  match node with
  | None => Some (l, items)
  | Some p =>
      match fuel with
      | 0 => None
      | S fuel =>
          n ← heap l !! p;
          l ← list_delete_node l p;
          take_out fuel l (next n) (items ++ [data n])
      end
  end.

(** [qsort] is the C library's; [items] has room for [count] entries. *)
Definition list_sort (qsort : list D → list D) (l : llist) : option llist :=
  let n := count l in
  '(l, items) ← take_out (size (heap l)) l (head l) [];
  if decide (Z.of_nat (length items) = n) then add_all l (qsort items) else None.

Definition listnode_add_force (l : option llist) (val : option D) : option (ptr * llist) :=
  listnode_add (default list_new l) val.

(** [arr[idx++] = vp; if (idx == arrlen) break]; [arr] has [arrlen] slots. *)
Fixpoint to_array_loop (vals : list D) (idx arrlen : nat) (arr : list (option D)) : option (list (option D)) :=
  match vals with
  | [] => Some arr
  | v :: vals =>
      arr ← write arr idx (Some v);
      if decide (S idx = arrlen) then Some arr else to_array_loop vals (S idx) arrlen arr
  end.

Definition list_to_array (l : llist) (arr : list (option D)) : option (list (option D)) :=
  vals ← elements l; to_array_loop vals 0 (length arr) arr.
End linklist.
Arguments llist : clear implicits.
Arguments listnode : clear implicits.

(** ** The list of the nodes *)

Section dll.
Context {D : Type} `{!EqDecision D}.
Implicit Types (ps : list (nat * D)) (l : llist D).

Definition next_of ps (i : nat) : option nat := fst <$> ps !! i.
Definition prev_of ps (i : nat) : option nat := match i with 0 => None | S j => fst <$> ps !! j end.

Record dll l ps : Prop := Dll {
  d_nodes : ∀ i p x, ps !! i = Some (p, x) → heap l !! p = Some (LNode (next_of ps (S i)) (prev_of ps i) x);
  d_dom : ∀ p, is_Some (heap l !! p) → p ∈ ps.*1;
  d_nodup : NoDup ps.*1;
  d_head : head l = next_of ps 0;
  d_tail : tail l = prev_of ps (length ps);
  d_count : count l = u32 (Z.of_nat (length ps));
  d_fresh : ∀ p, p ∈ ps.*1 → p < fresh l;
}.

Lemma pos_inj ps i j p x y : NoDup ps.*1 → ps !! i = Some (p, x) → ps !! j = Some (p, y) → i = j.
Proof. intros Hn Hi Hj. apply (NoDup_lookup _ i j p Hn); by rewrite list_lookup_fmap, ?Hi, ?Hj. Qed.

Lemma in_pos ps p : p ∈ ps.*1 → ∃ i x, ps !! i = Some (p, x).
Proof. intros ([q x] & -> & H)%list_elem_of_fmap. cbn [fst]. apply list_elem_of_lookup in H as [i Hi]. by exists i, x. Qed.

Lemma pos_in ps i p x : ps !! i = Some (p, x) → p ∈ ps.*1.
Proof. intros Hi. apply list_elem_of_fmap. exists (p, x). split; [done|]. by eapply list_elem_of_lookup_2. Qed.

Lemma next_of_Some ps i p : next_of ps i = Some p → ∃ x, ps !! i = Some (p, x).
Proof. unfold next_of. destruct (ps !! i) as [[q x]|]; [|done]. intros [= ->]. by exists x. Qed.

Lemma prev_of_Some ps i p : prev_of ps i = Some p → ∃ j x, i = S j ∧ ps !! j = Some (p, x).
Proof. destruct i as [|j]; [done|]. intros (x & Hx)%(next_of_Some ps j p). by exists j, x. Qed.

(** The node [nn] put between its neighbours [pv] and [nx]. *)
Definition linked (h h' : gmap nat (listnode D)) (pv nx : option nat) (nn : nat) (x : D) : Prop :=
  ∀ q, h' !! q = if decide (q = nn) then Some (LNode nx pv x)
                 else (λ n, LNode (if decide (pv = Some q) then Some nn else next n)
                                  (if decide (nx = Some q) then Some nn else prev n) (data n)) <$> h !! q.

Definition splice ps (i : nat) (nx : nat * D) : list (nat * D) := take i ps ++ nx :: drop i ps.

Lemma splice_lookup ps i e j : i ≤ length ps →
  splice ps i e !! j = if decide (j < i) then ps !! j else if decide (j = i) then Some e else ps !! (j - 1).
Proof.
  intros Hi. unfold splice. destruct (decide (j < i)) as [Hlt|Hge].
  - rewrite lookup_app_l by (rewrite length_take; lia). by rewrite lookup_take_lt.
  - rewrite lookup_app_r by (rewrite length_take; lia). rewrite length_take, Nat.min_l by lia.
    destruct (decide (j = i)) as [->|Hne]; [by rewrite Nat.sub_diag|].
    destruct (j - i) as [|k] eqn:E; [lia|]. change ((e :: drop i ps) !! S k) with (drop i ps !! k).
    rewrite lookup_drop. f_equal. lia.
Qed.

Lemma splice_length ps i e : length (splice ps i e) = S (length ps).
Proof. unfold splice. rewrite length_app, length_take. cbn. rewrite length_drop. lia. Qed.

Lemma splice_perm ps i e : splice ps i e ≡ₚ e :: ps.
Proof. unfold splice. rewrite <- Permutation_middle, take_drop. done. Qed.

(** Every way to insert a node comes down to this. *)
Lemma dll_splice l l' ps i nn x : dll l ps → i ≤ length ps → nn ∉ ps.*1 →
  linked (heap l) (heap l') (prev_of ps i) (next_of ps i) nn x →
  head l' = (if decide (i = 0) then Some nn else head l) →
  tail l' = (if decide (i = length ps) then Some nn else tail l) →
  count l' = u32 (count l + 1) → nn < fresh l' → fresh l ≤ fresh l' → dll l' (splice ps i (nn, x)).
Proof.
  intros [N Dm Nd Hd Tl Ct Fr] Hi Hnn Hl Hh Ht Hc Hf Hf'. split.
  - intros j p y. rewrite splice_lookup by done. destruct (decide (j < i)) as [Hlt|Hge].
    + intros Hj. assert (p ≠ nn) as Hp by (intros ->; by apply Hnn, (pos_in ps j nn y)).
      rewrite (Hl p), decide_False, (N j p y Hj) by done. cbn. f_equal. f_equal.
      * unfold next_of at 2. rewrite splice_lookup by done. destruct (decide (S j < i)) as [|Hge'].
        -- rewrite decide_False; [done|]. intros (k & z & -> & Hk)%prev_of_Some. apply (pos_inj ps j k p y z Nd) in Hj; [lia|done].
        -- assert (i = S j) as -> by lia. rewrite decide_True by (cbn; by rewrite Hj). by rewrite decide_True by lia.
      * rewrite decide_False by (intros (z & Hk)%next_of_Some; apply (pos_inj ps j i p y z Nd) in Hj; [lia|done]).
        destruct j as [|j]; [done|]. cbn. rewrite splice_lookup by done. by rewrite decide_True by lia.
    + destruct (decide (j = i)) as [->|Hne].
      * intros [= <- <-]. rewrite (Hl nn), decide_True by done. f_equal. f_equal.
        -- unfold next_of. rewrite splice_lookup by done. rewrite !decide_False by lia. by rewrite Nat.sub_succ, Nat.sub_0_r.
        -- destruct i as [|i]; [done|]. cbn. rewrite splice_lookup by done. by rewrite decide_True by lia.
      * intros Hj. destruct j as [|j]; [lia|]. rewrite Nat.sub_succ, Nat.sub_0_r in Hj.
        assert (p ≠ nn) as Hp by (intros ->; by apply Hnn, (pos_in ps j nn y)).
        rewrite (Hl p), decide_False, (N j p y Hj) by done. cbn. f_equal. f_equal.
        -- rewrite decide_False by (intros (k & z & -> & Hk)%prev_of_Some; apply (pos_inj ps j k p y z Nd) in Hj; [lia|done]).
           unfold next_of. rewrite splice_lookup by done. rewrite !decide_False by lia. by rewrite Nat.sub_succ, Nat.sub_0_r.
        -- rewrite splice_lookup by done. rewrite (decide_False (P := j < i)) by lia. destruct (decide (j = i)) as [->|Hne'].
           ++ rewrite decide_True; [done|]. unfold next_of. by rewrite Hj.
           ++ rewrite decide_False by (intros (z & Hk)%next_of_Some; apply (pos_inj ps j i p y z Nd) in Hj; [lia|done]).
              destruct j as [|j]; [lia|]. cbn. by rewrite Nat.sub_0_r.
  - intros p. rewrite (Hl p), (splice_perm ps i), fmap_cons, elem_of_cons. cbn [fst]. destruct (decide (p = nn)); [by left|].
    destruct (heap l !! p) eqn:E; [|by intros []]. intros _. right. apply Dm. by eexists.
  - rewrite splice_perm, fmap_cons. by constructor.
  - rewrite Hh, Hd. unfold next_of. rewrite splice_lookup by done. destruct i as [|i]; [done|]. by rewrite decide_False.
  - rewrite Ht, splice_length. cbn. rewrite splice_lookup by done. destruct (decide (i = length ps)) as [->|Hne].
    + by rewrite decide_False, decide_True by lia.
    + rewrite Tl, !decide_False by lia. destruct (length ps) as [|n] eqn:En; [lia|]. cbn. by rewrite Nat.sub_0_r.
  - rewrite Hc, Ct, splice_length. unfold u32. rewrite Nat2Z.inj_succ. unfold Z.succ. by rewrite Zplus_mod_idemp_l.
  - intros p. rewrite (splice_perm ps i), fmap_cons, elem_of_cons. intros [->|Hp]; [done|]. specialize (Fr p Hp). lia.
Qed.

Definition unlinked (h h' : gmap nat (listnode D)) (pv nx : option nat) (p : nat) : Prop :=
  ∀ q, h' !! q = if decide (q = p) then None
                 else (λ n, LNode (if decide (pv = Some q) then nx else next n)
                                  (if decide (nx = Some q) then pv else prev n) (data n)) <$> h !! q.

Lemma cut_lookup ps i j : delete i ps !! j = if decide (j < i) then ps !! j else ps !! S j.
Proof. case_decide; [by apply list_lookup_delete_lt|apply list_lookup_delete_ge; lia]. Qed.

(** Every way to take a node out comes down to this. *)
Lemma dll_cut l l' ps i p x : dll l ps → ps !! i = Some (p, x) →
  unlinked (heap l) (heap l') (prev_of ps i) (next_of ps (S i)) p →
  head l' = (if decide (i = 0) then next_of ps 1 else head l) →
  tail l' = (if decide (S i = length ps) then prev_of ps i else tail l) →
  count l' = u32 (count l - 1) → fresh l' = fresh l → dll l' (delete i ps).
Proof.
  intros [N Dm Nd Hd Tl Ct Fr] Hi Hl Hh Ht Hc Hf. pose proof (lookup_lt_Some _ _ _ Hi) as Hlt.
  assert (ps ≡ₚ (p, x) :: delete i ps) as Hp by (by apply delete_Permutation).
  assert (NoDup (p :: (delete i ps).*1)) as Nd' by (rewrite <- (fmap_cons fst (p, x)), <- Hp; exact Nd).
  apply NoDup_cons in Nd' as [Hpn Nd']. split; [| |done| | | |].
  - intros j q y. rewrite cut_lookup. intros Hj.
    assert (q ≠ p) as Hq by (intros ->; apply Hpn, (pos_in (delete i ps) j p y); by rewrite cut_lookup).
    rewrite (Hl q), decide_False by done. destruct (decide (j < i)) as [Hji|Hji].
    + rewrite (N j q y Hj). cbn. f_equal. f_equal.
      * unfold next_of at 3. rewrite cut_lookup. destruct (decide (S j < i)) as [|Hge].
        -- rewrite decide_False; [done|]. intros (k & z & -> & Hk)%prev_of_Some. apply (pos_inj ps j k q y z Nd) in Hj; [lia|done].
        -- assert (i = S j) as -> by lia. rewrite decide_True by (cbn; by rewrite Hj). done.
      * rewrite decide_False by (intros (z & Hk)%next_of_Some; apply (pos_inj ps j (S i) q y z Nd) in Hj; [lia|done]).
        destruct j as [|j]; [done|]. cbn. rewrite cut_lookup. by rewrite decide_True by lia.
    + rewrite (N (S j) q y Hj). cbn [fmap option_fmap option_map next prev data]. f_equal. f_equal.
      * rewrite decide_False by (intros (k & z & -> & Hk)%prev_of_Some; apply (pos_inj ps (S j) k q y z Nd) in Hj; [lia|done]).
        unfold next_of. rewrite cut_lookup. by rewrite decide_False by lia.
      * destruct (decide (j = i)) as [->|Hne].
        -- rewrite decide_True by (unfold next_of; by rewrite Hj). destruct i as [|i]; [done|]. cbn. rewrite cut_lookup. by rewrite decide_True by lia.
        -- rewrite decide_False by (intros (z & Hk)%next_of_Some; apply (pos_inj ps (S j) (S i) q y z Nd) in Hj; [lia|done]).
           destruct j as [|j]; [lia|]. cbn. rewrite cut_lookup. by rewrite decide_False by lia.
  - intros q. rewrite (Hl q). destruct (decide (q = p)) as [->|Hne]; [by intros []|]. destruct (heap l !! q) eqn:E; [|by intros []].
    intros _. assert (q ∈ ps.*1) as Hq by (apply Dm; by eexists). rewrite Hp, fmap_cons in Hq. apply elem_of_cons in Hq as [?|?]; done.
  - rewrite Hh, Hd. unfold next_of. rewrite cut_lookup. by destruct i.
  - rewrite Ht, Tl, length_delete by (by eexists). destruct (decide (S i = length ps)) as [<-|Hne].
    + cbn. rewrite Nat.sub_0_r. destruct i as [|i]; [done|]. cbn. rewrite cut_lookup. by rewrite decide_True by lia.
    + destruct (length ps) as [|[|n]] eqn:En; [lia..|]. cbn. rewrite ?Nat.sub_0_r. cbn. rewrite cut_lookup. by rewrite decide_False by lia.
  - rewrite Hc, Ct. rewrite length_delete by (by eexists). unfold u32. rewrite Zminus_mod_idemp_l. f_equal. lia.
  - intros q Hq. rewrite Hf. apply Fr. rewrite Hp, fmap_cons. by right.
Qed.

(** ** Linking in the heap *)

Definition maybe_next (h : gmap nat (listnode D)) (p : option nat) (v : option nat) : option (gmap nat (listnode D)) :=
  match p with Some p => set_next h p v | None => Some h end.
Definition maybe_prev (h : gmap nat (listnode D)) (p : option nat) (v : option nat) : option (gmap nat (listnode D)) :=
  match p with Some p => set_prev h p v | None => Some h end.

Lemma maybe_next_spec h p v : (∀ q, p = Some q → is_Some (h !! q)) →
  ∃ h', maybe_next h p v = Some h' ∧ ∀ q, h' !! q = (λ n, LNode (if decide (p = Some q) then v else next n) (prev n) (data n)) <$> h !! q.
Proof.
  intros Hp. destruct p as [p|]; cbn.
  - destruct (Hp p eq_refl) as [n Hn]. unfold set_next. rewrite Hn. obind. eexists. split; [reflexivity|]. intros q.
    destruct (decide (q = p)) as [->|Hne]; [rewrite lookup_insert_eq, Hn; cbn; by rewrite decide_True|].
    rewrite lookup_insert_ne by done. destruct (h !! q) as [[]|]; [|done]. cbn. by rewrite decide_False by congruence.
  - exists h. split; [done|]. intros q. by destruct (h !! q) as [[]|].
Qed.

Lemma maybe_prev_spec h p v : (∀ q, p = Some q → is_Some (h !! q)) →
  ∃ h', maybe_prev h p v = Some h' ∧ ∀ q, h' !! q = (λ n, LNode (next n) (if decide (p = Some q) then v else prev n) (data n)) <$> h !! q.
Proof.
  intros Hp. destruct p as [p|]; cbn.
  - destruct (Hp p eq_refl) as [n Hn]. unfold set_prev. rewrite Hn. obind. eexists. split; [reflexivity|]. intros q.
    destruct (decide (q = p)) as [->|Hne]; [rewrite lookup_insert_eq, Hn; cbn; by rewrite decide_True|].
    rewrite lookup_insert_ne by done. destruct (h !! q) as [[]|]; [|done]. cbn. by rewrite decide_False by congruence.
  - exists h. split; [done|]. intros q. by destruct (h !! q) as [[]|].
Qed.

(** The neighbours of a place in the list are in the heap. *)
Lemma prev_live l ps i q : dll l ps → prev_of ps i = Some q → is_Some (heap l !! q) ∧ q ∈ ps.*1.
Proof. intros Hd (j & x & _ & Hj)%prev_of_Some. split; [rewrite (d_nodes _ _ Hd j q x Hj); by eexists|by eapply pos_in]. Qed.
Lemma next_live l ps i q : dll l ps → next_of ps i = Some q → is_Some (heap l !! q) ∧ q ∈ ps.*1.
Proof. intros Hd (x & Hj)%next_of_Some. split; [rewrite (d_nodes _ _ Hd i q x Hj); by eexists|by eapply pos_in]. Qed.

(** A node written to the heap and linked to its neighbours, in either order. *)
Lemma link_spec l ps i nn x : dll l ps → nn ∉ ps.*1 →
  let h := <[nn := LNode (next_of ps i) (prev_of ps i) x]> (heap l) in
  (∃ h1 h2, maybe_next h (prev_of ps i) (Some nn) = Some h1 ∧ maybe_prev h1 (next_of ps i) (Some nn) = Some h2
     ∧ linked (heap l) h2 (prev_of ps i) (next_of ps i) nn x)
  ∧ (∃ h1 h2, maybe_prev h (next_of ps i) (Some nn) = Some h1 ∧ maybe_next h1 (prev_of ps i) (Some nn) = Some h2
     ∧ linked (heap l) h2 (prev_of ps i) (next_of ps i) nn x).
Proof.
  intros Hd Hnn h.
  assert (∀ q, prev_of ps i = Some q → is_Some (heap l !! q) ∧ q ≠ nn) as Hpv by (intros q Hq; destruct (prev_live _ _ _ _ Hd Hq); split; [done|by intros ->]).
  assert (∀ q, next_of ps i = Some q → is_Some (heap l !! q) ∧ q ≠ nn) as Hnx by (intros q Hq; destruct (next_live _ _ _ _ Hd Hq); split; [done|by intros ->]).
  assert (∀ q, is_Some (heap l !! q) → is_Some (h !! q)) as Hh.
  { intros q Hq. unfold h. destruct (decide (q = nn)) as [->|]; [rewrite lookup_insert_eq; by eexists|by rewrite lookup_insert_ne]. }
  assert (∀ q, h !! q = if decide (q = nn) then Some (LNode (next_of ps i) (prev_of ps i) x) else heap l !! q) as Lh.
  { intros q. unfold h. destruct (decide (q = nn)) as [->|]; [by rewrite lookup_insert_eq|by rewrite lookup_insert_ne]. }
  assert (∀ q, prev_of ps i = Some q → is_Some (h !! q)) as Hpv' by (intros q Hq; apply Hh, Hpv, Hq).
  assert (∀ q, next_of ps i = Some q → is_Some (h !! q)) as Hnx' by (intros q Hq; apply Hh, Hnx, Hq).
  split.
  - destruct (maybe_next_spec h _ (Some nn) Hpv') as (h1 & E1 & L1). destruct (maybe_prev_spec h1 (next_of ps i) (Some nn)) as (h2 & E2 & L2).
    { intros q Hq. rewrite L1. destruct (Hnx' q Hq) as [? ->]. by eexists. }
    exists h1, h2. split; [done|]. split; [done|]. intros q. rewrite L2, L1, Lh. destruct (decide (q = nn)) as [->|].
    + cbn. rewrite !decide_False; [done|intros E; first [apply Hpv in E as [_ ?]|apply Hnx in E as [_ ?]]; done..].
    + by destruct (heap l !! q).
  - destruct (maybe_prev_spec h _ (Some nn) Hnx') as (h1 & E1 & L1). destruct (maybe_next_spec h1 (prev_of ps i) (Some nn)) as (h2 & E2 & L2).
    { intros q Hq. rewrite L1. destruct (Hpv' q Hq) as [? ->]. by eexists. }
    exists h1, h2. split; [done|]. split; [done|]. intros q. rewrite L2, L1, Lh. destruct (decide (q = nn)) as [->|].
    + cbn. rewrite !decide_False; [done|intros E; first [apply Hpv in E as [_ ?]|apply Hnx in E as [_ ?]]; done..].
    + by destruct (heap l !! q).
Qed.

(** ** Inserting *)

Lemma fresh_new l ps : dll l ps → fresh l ∉ ps.*1.
Proof. intros Hd Hin. pose proof (d_fresh _ _ Hd _ Hin). lia. Qed.

(** The neighbours of the places at both ends. *)
Lemma next_of_end ps : next_of ps (length ps) = None.
Proof. unfold next_of. by rewrite lookup_ge_None_2. Qed.

Lemma head_tail l ps : dll l ps → (head l = None ↔ ps = []) ∧ (tail l = None ↔ ps = []).
Proof.
  intros Hd. rewrite (d_head _ _ Hd), (d_tail _ _ Hd). destruct ps as [|e ps]; [done|]. split; [done|]. cbn.
  destruct (lookup_lt_is_Some_2 (e :: ps) (length ps)) as [y ->]; [cbn; lia|]. done.
Qed.

Lemma head_first l ps i : dll l ps → prev_of ps i = None → i ≤ length ps → i = 0.
Proof.
  intros _ Hp Hi. destruct i as [|i]; [done|]. cbn in Hp. destruct (lookup_lt_is_Some_2 ps i) as [y Hy]; [lia|]. by rewrite Hy in Hp.
Qed.

Lemma tail_last l ps i : dll l ps → next_of ps i = None → i ≤ length ps → i = length ps.
Proof.
  intros _ Hp Hi. destruct (decide (i = length ps)); [done|]. unfold next_of in Hp.
  destruct (lookup_lt_is_Some_2 ps i) as [y Hy]; [lia|]. by rewrite Hy in Hp.
Qed.

Lemma splice_end ps e : splice ps (length ps) e = ps ++ [e].
Proof. unfold splice. by rewrite take_ge, drop_ge by lia. Qed.

(** The list after linking: head and tail move only at the ends. *)
Lemma spliced l ps i x h : dll l ps → i ≤ length ps → linked (heap l) h (prev_of ps i) (next_of ps i) (fresh l) x →
  dll (LList (match prev_of ps i with None => Some (fresh l) | Some _ => head l end)
             (match next_of ps i with None => Some (fresh l) | Some _ => tail l end)
             (u32 (count l + 1)) h (S (fresh l)) (freed l)) (splice ps i (fresh l, x)).
Proof.
  intros Hd Hi Hl. eapply (dll_splice l); [done|done|by apply fresh_new|done| | |done|cbn; lia|cbn; lia]; cbn.
  - destruct (prev_of ps i) eqn:E; [|by rewrite (head_first l ps i Hd E Hi)]. rewrite decide_False; [done|]. by intros ->.
  - destruct (next_of ps i) eqn:E; [|rewrite (tail_last l ps i Hd E Hi); by rewrite decide_True].
    rewrite decide_False; [done|]. intros ->. by rewrite next_of_end in E.
Qed.

Lemma insert_before_spec l ps i n y x : dll l ps → ps !! i = Some (n, y) →
  ∃ l', insert_before l n x = Some l' ∧ dll l' (splice ps i (fresh l, x)) ∧ fresh l' = S (fresh l) ∧ freed l' = freed l.
Proof.
  intros Hd Hi. pose proof (lookup_lt_Some _ _ _ Hi). unfold insert_before. rewrite (d_nodes _ _ Hd i n y Hi). obind. cbn [prev].
  destruct (link_spec l ps i (fresh l) x Hd (fresh_new l ps Hd)) as [(h1 & h2 & E1 & E2 & Hl) _].
  pose proof (spliced l ps i x h2 Hd ltac:(lia) Hl) as Hs.
  assert (next_of ps i = Some n) as En by (unfold next_of; by rewrite Hi). rewrite En in *. cbn [maybe_prev] in E2.
  destruct (prev_of ps i) as [p|]; cbn [maybe_next] in E1.
  - rewrite E1. obind. rewrite E2. obind. by eexists.
  - injection E1 as <-. obind. rewrite E2. obind. by eexists.
Qed.

Lemma append_new_spec l ps x : dll l ps →
  ∃ l', append_new l x = Some l' ∧ dll l' (ps ++ [(fresh l, x)]) ∧ fresh l' = S (fresh l) ∧ freed l' = freed l.
Proof.
  intros Hd. unfold append_new. destruct (link_spec l ps (length ps) (fresh l) x Hd (fresh_new l ps Hd)) as [(h1 & h2 & E1 & E2 & Hl) _].
  pose proof (spliced l ps (length ps) x h2 Hd ltac:(lia) Hl) as Hs. rewrite splice_end in Hs.
  rewrite next_of_end in *. cbn [maybe_prev] in E2. injection E2 as ->. rewrite (d_tail _ _ Hd).
  destruct (prev_of ps (length ps)) as [p|]; cbn [maybe_next] in E1.
  - rewrite E1. obind. by eexists.
  - injection E1 as <-. obind. by eexists.
Qed.

(** The four ways the code appends a node do the same. *)
Lemma listnode_add_append l ps x : dll l ps → listnode_add l (Some x) = pair (fresh l) <$> append_new l x.
Proof.
  intros Hd. unfold listnode_add, append_new. obind. destruct (head_tail l ps Hd) as [Hh Ht].
  destruct (head l) as [hd|] eqn:Eh, (tail l) as [t|] eqn:Et; obind; cbn [fmap option_fmap option_map].
  - by destruct (set_next _ _ _).
  - exfalso. assert (ps = []) as -> by (by apply Ht). discriminate (proj2 Hh eq_refl).
  - exfalso. assert (ps = []) as -> by (by apply Hh). discriminate (proj2 Ht eq_refl).
  - done.
Qed.

Lemma attach_new_append l ps x : dll l ps → attach_new l x = append_new l x.
Proof.
  intros Hd. unfold attach_new, append_new. destruct (head_tail l ps Hd) as [Hh Ht].
  destruct (head l) as [hd|] eqn:Eh, (tail l) as [t|] eqn:Et; obind.
  - by destruct (set_next _ _ _).
  - exfalso. assert (ps = []) as -> by (by apply Ht). discriminate (proj2 Hh eq_refl).
  - exfalso. assert (ps = []) as -> by (by apply Hh). discriminate (proj2 Ht eq_refl).
  - done.
Qed.

Lemma add_before_spec l ps pp i x : dll l ps →
  match pp with Some p => next_of ps i = Some p | None => i = length ps end →
  ∃ l', listnode_add_before l pp (Some x) = Some (fresh l, l') ∧ dll l' (splice ps i (fresh l, x)) ∧ fresh l' = S (fresh l) ∧ freed l' = freed l.
Proof.
  intros Hd Hp. destruct pp as [p|].
  - destruct (next_of_Some _ _ _ Hp) as [y Hy]. destruct (insert_before_spec l ps i p y x Hd Hy) as (l' & E & Hs & Hf).
    exists l'. split; [|done]. unfold listnode_add_before, insert_before in *. obind.
    rewrite (d_nodes _ _ Hd i p y Hy) in *. cbn [mbind option_bind prev] in E |- *.
    destruct (prev_of ps i) as [q|]; cbn [mbind option_bind] in E |- *.
    + destruct (set_next _ _ _) as [h1|]; [|done]. cbn [mbind option_bind] in E |- *.
      destruct (set_prev _ _ _) as [h2|]; [|done]. cbn [mbind option_bind] in E |- *. by injection E as <-.
    + destruct (set_prev _ _ _) as [h2|]; [|done]. cbn [mbind option_bind] in E |- *. by injection E as <-.
  - subst i. rewrite splice_end. destruct (append_new_spec l ps x Hd) as (l' & E & Hs & Hf). exists l'. split; [|done].
    unfold listnode_add_before, append_new in *. obind. destruct (tail l) as [t|].
    + destruct (set_next _ _ _) as [h1|]; [|done]. cbn [mbind option_bind] in E |- *. by injection E as <-.
    + cbn [mbind option_bind] in E |- *. by injection E as <-.
Qed.

Lemma add_after_spec l ps pp i x : dll l ps → i ≤ length ps → prev_of ps i = pp →
  ∃ l', listnode_add_after l pp (Some x) = Some (fresh l, l') ∧ dll l' (splice ps i (fresh l, x)) ∧ fresh l' = S (fresh l) ∧ freed l' = freed l.
Proof.
  intros Hd Hi Hp. destruct (link_spec l ps i (fresh l) x Hd (fresh_new l ps Hd)) as [_ (h1 & h2 & E1 & E2 & Hl)].
  pose proof (spliced l ps i x h2 Hd Hi Hl) as Hs. unfold listnode_add_after. obind. rewrite Hp in *. destruct pp as [p|].
  - destruct (prev_of_Some _ _ _ Hp) as (j & y & -> & Hj). rewrite (d_nodes _ _ Hd j p y Hj). obind. cbn [next maybe_next] in *.
    destruct (next_of ps (S j)) as [q|]; cbn [maybe_prev] in E1.
    + rewrite E1. obind. rewrite E2. obind. by eexists.
    + injection E1 as <-. obind. rewrite E2. obind. by eexists.
  - rewrite (head_first l ps i Hd Hp Hi) in *. rewrite (d_head _ _ Hd) in *. cbn [maybe_next] in E2. injection E2 as ->.
    destruct (next_of ps 0) as [q|]; cbn [maybe_prev] in E1.
    + rewrite E1. obind. by eexists.
    + injection E1 as <-. obind. by eexists.
Qed.

(** [listnode_add_head] is right unless the list is empty. *)
Lemma add_head_spec l ps x : dll l ps → ps ≠ [] →
  ∃ l', listnode_add_head l (Some x) = Some l' ∧ dll l' ((fresh l, x) :: ps) ∧ fresh l' = S (fresh l) ∧ freed l' = freed l.
Proof.
  intros Hd Hne. destruct (link_spec l ps 0 (fresh l) x Hd (fresh_new l ps Hd)) as [_ (h1 & h2 & E1 & E2 & Hl)].
  pose proof (spliced l ps 0 x h2 Hd ltac:(lia) Hl) as Hs. cbn [prev_of maybe_next] in *. injection E2 as ->.
  unfold listnode_add_head. obind. rewrite (d_head _ _ Hd) in *. destruct (next_of ps 0) as [q|] eqn:En; [|by destruct ps].
  cbn [maybe_prev] in E1. rewrite E1. obind. by eexists.
Qed.

(** ** Taking out *)

Definition free_node l p : llist D := LList (head l) (tail l) (count l) (delete p (heap l)) (fresh l) (freed l).

Lemma detach_spec l ps i p x : dll l ps → ps !! i = Some (p, x) →
  ∃ l1, detach l p = Some l1 ∧ dll (free_node l1 p) (delete i ps) ∧ data <$> heap l1 !! p = Some x
    ∧ fresh l1 = fresh l ∧ freed l1 = freed l.
Proof.
  intros Hd Hi. pose proof (lookup_lt_Some _ _ _ Hi) as Hlt. pose proof (d_nodes _ _ Hd i p x Hi) as Hn. unfold detach. rewrite Hn. obind. cbn [next prev].
  set (pv := prev_of ps i). set (nx := next_of ps (S i)).
  destruct (maybe_next_spec (heap l) pv nx) as (h1 & E1 & L1); [intros q Hq; by eapply prev_live|].
  destruct (maybe_prev_spec h1 nx pv) as (h2 & E2 & L2).
  { intros q Hq. rewrite L1. destruct (next_live l ps (S i) q Hd Hq) as [[? ->] _]. by eexists. }
  set (l1 := LList (match pv with Some _ => head l | None => nx end) (match nx with Some _ => tail l | None => pv end)
               (u32 (count l - 1)) h2 (fresh l) (freed l)).
  exists l1. assert (∀ q, h2 !! q = (λ n, LNode (if decide (pv = Some q) then nx else next n) (if decide (nx = Some q) then pv else prev n) (data n)) <$> heap l !! q) as L12.
  { intros q. rewrite L2, L1. by destruct (heap l !! q). }
  split; [|split_and!; [|by (cbn; rewrite L12, Hn)|done|done]].
  - destruct pv as [q|], nx as [q'|]; cbn [maybe_next maybe_prev] in E1, E2; rewrite ?E1; try injection E1 as <-; obind;
      rewrite ?E2; try injection E2 as <-; done.
  - eapply (dll_cut l); [done|exact Hi| | | |done|done]; cbn.
    + intros q. destruct (decide (q = p)) as [->|]; [by rewrite lookup_delete_eq|]. rewrite lookup_delete_ne by done. apply L12.
    + fold nx. destruct pv as [q|] eqn:E; [rewrite decide_False; [done|]; by intros ->|].
      rewrite (head_first l ps i Hd E ltac:(lia)), decide_True by done. unfold nx. by rewrite (head_first l ps i Hd E ltac:(lia)).
    + fold pv. destruct nx as [q|] eqn:E.
      * rewrite decide_False; [done|]. intros E'. unfold nx in E. by rewrite E', next_of_end in E.
      * rewrite decide_True; [done|]. by apply (tail_last l ps (S i) Hd E).
Qed.

Lemma delete_node_spec l ps i p x : dll l ps → ps !! i = Some (p, x) →
  ∃ l', list_delete_node l p = Some l' ∧ dll l' (delete i ps) ∧ fresh l' = fresh l ∧ freed l' = freed l.
Proof.
  intros Hd Hi. destruct (detach_spec l ps i p x Hd Hi) as (l1 & E & Hd1 & _ & Hf & Hr). unfold list_delete_node. rewrite E. obind. by eexists.
Qed.

Lemma move_to_tail_spec l ps i p x : dll l ps → ps !! i = Some (p, x) →
  ∃ l', listnode_move_to_tail l p = Some l' ∧ dll l' (delete i ps ++ [(p, x)]) ∧ fresh l' = fresh l ∧ freed l' = freed l.
Proof.
  intros Hd Hi. destruct (detach_spec l ps i p x Hd Hi) as (l1 & E & Hd1 & Hx & Hf & Hr). unfold listnode_move_to_tail. rewrite E. obind.
  unfold attach. destruct (heap l1 !! p) as [n|] eqn:En; [|done]. cbn in Hx. injection Hx as Hx. obind. rewrite Hx.
  set (ps' := delete i ps) in *. set (l2 := free_node l1 p) in *.
  assert (p ∉ ps'.*1) as Hp.
  { intros Hin. destruct (in_pos _ _ Hin) as (j & y & Hj). pose proof (d_nodes _ _ Hd1 j p y Hj) as E'.
    unfold l2 in E'. cbn in E'. by rewrite lookup_delete_eq in E'. }
  destruct (link_spec l2 ps' (length ps') p x Hd1 Hp) as [(h1 & h2 & E1 & E2 & Hl) _]. rewrite next_of_end in *. cbn [maybe_prev] in E2. injection E2 as ->.
  change (heap l2) with (delete p (heap l1)) in E1. rewrite insert_delete_eq in E1.
  assert (tail l1 = prev_of ps' (length ps')) as Et by exact (d_tail _ _ Hd1). rewrite Et.
  assert (head l1 = next_of ps' 0) as Eh by exact (d_head _ _ Hd1).
  set (l' := LList (match head l1 with None => Some p | Some hd => Some hd end) (Some p) (u32 (count l1 + 1)) h2 (fresh l1) (freed l1)).
  exists l'. split; [|split; [|done]].
  - rewrite Eh. unfold l'. rewrite Eh. destruct (head_tail l2 ps' Hd1) as [Hh Ht]. destruct (next_of ps' 0) as [hd|] eqn:E0.
    + destruct (prev_of ps' (length ps')) as [t|] eqn:E3.
      * obind. cbn [maybe_next] in E1. rewrite E1. done.
      * exfalso. assert (ps' = []) as E4 by (apply Ht; by rewrite (d_tail _ _ Hd1)). by rewrite E4 in E0.
    + destruct (prev_of ps' (length ps')) as [t|] eqn:E3; [|by injection E1 as <-].
      exfalso. assert (ps' = []) as E4 by (apply Hh; by rewrite (d_head _ _ Hd1)). by rewrite E4 in E3.
  - rewrite <- (splice_end ps'). eapply (dll_splice l2); [done|lia|done|by rewrite next_of_end| | |done| |done].
    + unfold l'. cbn. rewrite Eh. destruct (decide (length ps' = 0)) as [E0|E0].
      * by rewrite (nil_length_inv _ E0).
      * by destruct ps' as [|[]].
    + cbn. by rewrite decide_True.
    + cbn. rewrite Hf. apply (d_fresh _ _ Hd). by eapply pos_in.
Qed.

(** ** Walking *)

Fixpoint idx_of (f : nat * D → bool) ps : nat :=
  match ps with [] => 0 | e :: ps => if f e then 0 else S (idx_of f ps) end.

Lemma idx_of_le f ps : idx_of f ps ≤ length ps.
Proof. induction ps as [|e ps IH]; cbn; [lia|]. destruct (f e); lia. Qed.

Lemma heap_size l ps : dll l ps → size (heap l) = length ps.
Proof.
  intros Hd. rewrite <- (length_fmap fst ps), <- (size_list_to_set (C := gset nat) _ (d_nodup _ _ Hd)), <- size_dom. f_equal.
  apply set_eq. intros p. rewrite elem_of_dom, elem_of_list_to_set. split; [apply (d_dom _ _ Hd)|].
  intros Hp. destruct (in_pos _ _ Hp) as (i & x & Hi). rewrite (d_nodes _ _ Hd i p x Hi). by eexists.
Qed.

(** At a node: its record and the rest of the walk. *)
Lemma walk l ps i : dll l ps → i < length ps →
  ∃ p x, ps !! i = Some (p, x) ∧ next_of ps i = Some p ∧ heap l !! p = Some (LNode (next_of ps (S i)) (prev_of ps i) x)
    ∧ drop i ps = (p, x) :: drop (S i) ps.
Proof.
  intros Hd Hi. destruct (lookup_lt_is_Some_2 ps i Hi) as [[p x] Hp]. exists p, x. split; [done|].
  split; [unfold next_of; by rewrite Hp|]. split; [by apply (d_nodes _ _ Hd)|]. by apply drop_S.
Qed.

Lemma lookup_loop_spec l ps d fuel : dll l ps → ∀ i, i ≤ length ps → length ps - i ≤ fuel →
  lookup_loop fuel (heap l) (next_of ps i) d = Some (next_of ps (i + idx_of (λ e, bool_decide (d = e.2)) (drop i ps))).
Proof.
  intros Hd. induction fuel as [|fuel IH]; intros i Hi Hf; (destruct (decide (i = length ps)) as [->|Hne];
    [by rewrite drop_ge, Nat.add_0_r, next_of_end by lia|]); [lia|].
  destruct (walk l ps i Hd ltac:(lia)) as (p & x & Hp & -> & Hn & ->). cbn [lookup_loop idx_of]. rewrite Hn. obind. cbn [data next snd].
  destruct (decide (d = x)) as [->|Hx].
  - rewrite bool_decide_eq_true_2 by done. rewrite Nat.add_0_r. unfold next_of. by rewrite Hp.
  - rewrite bool_decide_eq_false_2 by done. rewrite IH by lia. do 2 f_equal. lia.
Qed.

Lemma elements_loop_spec l ps fuel : dll l ps → ∀ i, i ≤ length ps → length ps - i ≤ fuel →
  elements_loop fuel (heap l) (next_of ps i) = Some (drop i ps).*2.
Proof.
  intros Hd. induction fuel as [|fuel IH]; intros i Hi Hf; (destruct (decide (i = length ps)) as [->|Hne];
    [by rewrite drop_ge, next_of_end by lia|]); [lia|].
  destruct (walk l ps i Hd ltac:(lia)) as (p & x & Hp & -> & Hn & ->). cbn [elements_loop]. rewrite Hn. obind. cbn [data next].
  rewrite IH by lia. done.
Qed.

Lemma dll_new : dll list_new [].
Proof. split; cbn; try done; [intros p; rewrite lookup_empty; by intros []|constructor|by intros p ?%elem_of_nil]. Qed.

Lemma elements_spec l ps : dll l ps → elements l = Some ps.*2.
Proof.
  intros Hd. unfold elements.
  rewrite (heap_size _ _ Hd), (d_head _ _ Hd), (elements_loop_spec _ _ _ Hd 0) by lia. by rewrite drop_0.
Qed.

Lemma sort_position_spec l ps cmp val fuel : dll l ps → ∀ i, i ≤ length ps → length ps - i ≤ fuel →
  sort_position fuel cmp (heap l) (next_of ps i) val = Some (next_of ps (i + idx_of (λ e, (cmp val e.2 <? 0)%Z) (drop i ps))).
Proof.
  intros Hd. induction fuel as [|fuel IH]; intros i Hi Hf; (destruct (decide (i = length ps)) as [->|Hne];
    [by rewrite drop_ge, Nat.add_0_r, next_of_end by lia|]); [lia|].
  destruct (walk l ps i Hd ltac:(lia)) as (p & x & Hp & -> & Hn & ->). cbn [sort_position idx_of]. rewrite Hn. obind. cbn [data next snd].
  destruct (cmp val x <? 0)%Z.
  - rewrite Nat.add_0_r. unfold next_of. by rewrite Hp.
  - rewrite IH by lia. do 2 f_equal. lia.
Qed.

Lemma nodup_position_spec l ps cmp val fuel : dll l ps → ∀ i, i ≤ length ps → length ps - i ≤ fuel →
  nodup_position fuel cmp (heap l) (next_of ps i) val =
    Some match ps !! (i + idx_of (λ e, (cmp val e.2 <=? 0)%Z) (drop i ps)) with
         | Some (p, y) => if decide (cmp val y = 0)%Z then Duplicate else Before p
         | None => At_end
         end.
Proof.
  intros Hd. induction fuel as [|fuel IH]; intros i Hi Hf; (destruct (decide (i = length ps)) as [->|Hne];
    [by rewrite drop_ge, Nat.add_0_r, next_of_end, lookup_ge_None_2 by lia|]); [lia|].
  destruct (walk l ps i Hd ltac:(lia)) as (p & x & Hp & -> & Hn & ->). cbn [nodup_position idx_of]. rewrite Hn. obind. cbn [data next snd].
  destruct (Z.ltb_spec (cmp val x) 0), (Z.leb_spec (cmp val x) 0); try lia.
  - rewrite Nat.add_0_r, Hp. by rewrite decide_False by lia.
  - rewrite Nat.add_0_r, Hp. assert (cmp val x = 0)%Z as -> by lia. done.
  - rewrite decide_False by lia. rewrite IH by lia. by replace (i + S (idx_of _ (drop (S i) ps))) with (S i + idx_of (λ e, (cmp val e.2 <=? 0)%Z) (drop (S i) ps)) by lia.
Qed.

(** ** Loops that change the list *)

Lemma filter_loop_spec del cond rest : ∀ kept l fuel, dll l (kept ++ rest) → length rest ≤ fuel →
  ∃ l', filter_loop fuel del cond l (next_of (kept ++ rest) (length kept)) = Some l'
    ∧ dll l' (kept ++ filter (λ e, cond e.2 = false) rest) ∧ fresh l' = fresh l
    ∧ freed l' = (if del then reverse (filter (λ e, cond e.2 = true) rest).*2 else []) ++ freed l.
Proof.
  induction rest as [|[p x] rest IH]; intros kept l fuel Hd Hf.
  { exists l. rewrite app_nil_r, next_of_end in *. split_and!; [by destruct fuel|by rewrite filter_nil, app_nil_r|done|by destruct del]. }
  assert ((kept ++ (p, x) :: rest) !! length kept = Some (p, x)) as Hi by (by apply list_lookup_middle).
  unfold next_of. rewrite Hi. cbn [fmap option_fmap option_map fst length] in *. destruct fuel as [|fuel]; [lia|]. cbn [filter_loop].
  rewrite (d_nodes _ _ Hd _ p x Hi). obind. cbn [data next].
  assert (next_of (kept ++ (p, x) :: rest) (S (length kept)) = next_of (kept ++ rest) (length kept)) as En.
  { unfold next_of. rewrite !lookup_app_r by lia. rewrite Nat.sub_diag. by replace (S (length kept) - length kept) with 1 by lia. }
  rewrite !filter_cons. destruct (cond x) eqn:Ec; cbn [snd]; rewrite Ec.
  - rewrite decide_False, decide_True by done.
    set (l0 := if del then LList _ _ _ _ _ _ else l).
    assert (dll l0 (kept ++ (p, x) :: rest)) as Hd0 by (unfold l0; destruct del; [destruct Hd; by constructor|done]).
    destruct (delete_node_spec l0 _ _ p x Hd0 Hi) as (l1 & -> & Hd1 & Hf1 & Hr1). obind. rewrite delete_middle in Hd1. rewrite En.
    destruct (IH kept l1 fuel Hd1 ltac:(lia)) as (l' & -> & Hd' & Hf' & Hr'). exists l'. split; [done|]. split; [done|].
    split; [rewrite Hf', Hf1; unfold l0; by destruct del|]. rewrite Hr', Hr1. unfold l0. destruct del; [|done].
    by rewrite fmap_cons, reverse_cons, <- app_assoc.
  - rewrite decide_True, decide_False by done.
    destruct (IH (kept ++ [(p, x)]) l fuel) as (l' & E & Hd' & Hf' & Hr'); [by rewrite <- app_assoc|lia|].
    rewrite <- app_assoc in E, Hd'. rewrite length_app, Nat.add_1_r in E. exists l'. split; [exact E|]. by split_and!.
Qed.

Lemma take_out_spec rest : ∀ l fuel items, dll l rest → length rest ≤ fuel →
  ∃ l', take_out fuel l (next_of rest 0) items = Some (l', items ++ rest.*2) ∧ dll l' [] ∧ fresh l' = fresh l ∧ freed l' = freed l.
Proof.
  induction rest as [|[p x] rest IH]; intros l fuel items Hd Hf.
  { exists l. rewrite app_nil_r. by destruct fuel. }
  destruct fuel as [|fuel]; [cbn in Hf; lia|]. cbn [take_out next_of lookup list_lookup fmap option_fmap option_map fst].
  rewrite (d_nodes _ _ Hd 0 p x eq_refl). obind. cbn [data next].
  destruct (delete_node_spec l _ 0 p x Hd eq_refl) as (l1 & -> & Hd1 & Hf1 & Hr1). obind. cbn [delete list_delete] in Hd1.
  destruct (IH l1 fuel (items ++ [x]) Hd1 ltac:(cbn in Hf; lia)) as (l' & E & Hd' & Hf' & Hr'). exists l'.
  split; [|split_and!; [done|congruence|congruence]]. rewrite <- app_assoc in E. exact E.
Qed.

Lemma delete_all_loop_spec del (h0 : gmap nat (listnode D)) ps fuel : (∀ j p x, ps !! j = Some (p, x) → h0 !! p = Some (LNode (next_of ps (S j)) (prev_of ps j) x)) → NoDup ps.*1 →
  ∀ i (h : gmap nat (listnode D)) fr, (∀ j p x, i ≤ j → ps !! j = Some (p, x) → h !! p = h0 !! p) → (∀ p, is_Some (h !! p) → p ∈ (drop i ps).*1) →
  length ps - i ≤ fuel → i ≤ length ps →
  delete_all_loop fuel del h (next_of ps i) fr = Some (∅, (if del then reverse (drop i ps).*2 else []) ++ fr).
Proof.
  intros H0 Nd. induction fuel as [|fuel IH]; intros i h fr Hh Hdom Hf Hi; (destruct (decide (i = length ps)) as [->|Hne];
    [rewrite next_of_end, drop_ge in * by lia; assert (h = ∅) as -> by (apply map_empty; intros p; destruct (h !! p) eqn:E; [|done];
      specialize (Hdom p ltac:(by eexists)); by apply elem_of_nil in Hdom); by destruct del|]); [lia|].
  destruct (lookup_lt_is_Some_2 ps i ltac:(lia)) as [[p x] Hp]. rewrite (drop_S _ _ _ Hp) in *.
  assert (next_of ps i = Some p) as -> by (unfold next_of; by rewrite Hp). cbn [delete_all_loop].
  rewrite (Hh i p x), (H0 i p x Hp) by done. obind. cbn [data next]. rewrite IH; [|..|lia|lia].
  - destruct del; [|done]. by rewrite fmap_cons, reverse_cons, <- app_assoc.
  - intros j q y Hj Hq. rewrite lookup_delete_ne; [by apply (Hh j q y); [lia|]|]. intros <-. apply (pos_inj ps i j p x y Nd) in Hp; [lia|done].
  - intros q Hq. destruct (decide (q = p)) as [->|Hqp]; [rewrite lookup_delete_eq in Hq; by destruct Hq|].
    rewrite lookup_delete_ne in Hq by done. specialize (Hdom q Hq). rewrite fmap_cons in Hdom. by apply elem_of_cons in Hdom as [?|?].
Qed.

Lemma delete_all_spec del l ps : dll l ps →
  ∃ l', list_delete_all_node del l = Some l' ∧ dll l' [] ∧ fresh l' = fresh l
    ∧ freed l' = (if del then reverse ps.*2 else []) ++ freed l.
Proof.
  intros Hd. unfold list_delete_all_node. rewrite (heap_size l ps Hd), (d_head _ _ Hd).
  rewrite (delete_all_loop_spec del (heap l) ps (length ps) (d_nodes _ _ Hd) (d_nodup _ _ Hd) 0 (heap l) (freed l)); [|done|apply (d_dom _ _ Hd)|lia|lia].
  rewrite drop_0. obind. eexists. split; [reflexivity|]. split; [|done]. split; cbn; try done.
  - intros p. rewrite lookup_empty. by intros [].
  - constructor.
  - intros p Hp. by apply elem_of_nil in Hp.
Qed.

Lemma listnode_add_spec l ps x : dll l ps →
  ∃ l', listnode_add l (Some x) = Some (fresh l, l') ∧ dll l' (ps ++ [(fresh l, x)]) ∧ fresh l' = S (fresh l) ∧ freed l' = freed l.
Proof.
  intros Hd. rewrite (listnode_add_append l ps x Hd). destruct (append_new_spec l ps x Hd) as (l' & -> & H). by exists l'.
Qed.

Lemma add_all_spec vals : ∀ l ps, dll l ps →
  ∃ l', add_all l vals = Some l' ∧ dll l' (ps ++ zip (seq (fresh l) (length vals)) vals) ∧ fresh l' = fresh l + length vals ∧ freed l' = freed l.
Proof.
  induction vals as [|v vals IH]; intros l ps Hd; cbn [add_all].
  { exists l. cbn. by rewrite app_nil_r, Nat.add_0_r. }
  destruct (listnode_add_spec l ps v Hd) as (l1 & -> & Hd1 & Hf1 & Hr1). obind.
  destruct (IH l1 _ Hd1) as (l' & -> & Hd' & Hf' & Hr'). exists l'. split; [done|]. rewrite <- app_assoc, Hf1 in Hd'.
  split; [exact Hd'|]. split; [cbn [length]; lia|congruence].
Qed.
End dll.

(** ** The structure is the list of its nodes *)

Section refine.
Context {D : Type} `{!EqDecision D}.
Context (cmp : option (D → D → Z)) (del : bool) (qsort : list D → list D).

Inductive lop :=
  | Add (x : D) | AddHead (x : D) | AddSort (x : D) | AddSortNodup (x : D)
  | AddAfter (p : option nat) (x : D) | AddBefore (p : option nat) (x : D)
  | MoveToTail (p : nat) | DeleteNode (p : nat) | Delete (x : D)
  | DeleteAll | FilterOut (cond : option (D → bool)) | AddList (vals : list D) | Sort.

(** What the code does. *)
Definition lrun (l : llist D) (o : lop) : option (llist D) :=
  match o with
  | Add x => snd <$> listnode_add l (Some x)
  | AddHead x => listnode_add_head l (Some x)
  | AddSort x => listnode_add_sort cmp l (Some x)
  | AddSortNodup x => snd <$> listnode_add_sort_nodup cmp l (Some x)
  | AddAfter p x => snd <$> listnode_add_after l p (Some x)
  | AddBefore p x => snd <$> listnode_add_before l p (Some x)
  | MoveToTail p => listnode_move_to_tail l p
  | DeleteNode p => list_delete_node l p
  | Delete x => listnode_delete l x
  | DeleteAll => list_delete_all_node del l
  | FilterOut cond => list_filter_out_nodes del l cond
  | AddList vals => add ← add_all list_new vals; list_add_list l add
  | Sort => list_sort qsort l
  end.

(** The nodes with their data, the next address, the data freed. *)
Record alist := AList { anodes : list (nat * D); afresh : nat; afreed : list D }.

Definition place_of (p : nat) (ps : list (nat * D)) : nat := idx_of (λ e, bool_decide (e.1 = p)) ps.
Definition value_of (x : D) (ps : list (nat * D)) : nat := idx_of (λ e, bool_decide (x = e.2)) ps.

(** What it means. *)
Definition arun (a : alist) (o : lop) : alist :=
  let ps := anodes a in
  let new i x := AList (splice ps i (afresh a, x)) (S (afresh a)) (afreed a) in
  let free vals := (if del then reverse vals else []) ++ afreed a in
  match o with
  | Add x => new (length ps) x
  | AddHead x => new 0 x
  | AddSort x => new (match cmp with Some cmp => idx_of (λ e, (cmp x e.2 <? 0)%Z) ps | None => length ps end) x
  | AddSortNodup x =>
      let i := match cmp with Some cmp => idx_of (λ e, (cmp x e.2 <=? 0)%Z) ps | None => length ps end in
      match cmp, ps !! i with
      | Some cmp, Some e => if decide (cmp x e.2 = 0)%Z then a else new i x
      | _, _ => new i x
      end
  | AddAfter p x => new (match p with Some p => S (place_of p ps) | None => 0 end) x
  | AddBefore p x => new (match p with Some p => place_of p ps | None => length ps end) x
  | MoveToTail p => AList (delete (place_of p ps) ps ++ option_list (ps !! place_of p ps)) (afresh a) (afreed a)
  | DeleteNode p => AList (delete (place_of p ps) ps) (afresh a) (afreed a)
  | Delete x => AList (delete (value_of x ps) ps) (afresh a) (afreed a)
  | DeleteAll => AList [] (afresh a) (free ps.*2)
  | FilterOut cond =>
      let c := default (λ _, true) cond in
      AList (filter (λ e, c e.2 = false) ps) (afresh a) (free (filter (λ e, c e.2 = true) ps).*2)
  | AddList vals => AList (ps ++ zip (seq (afresh a) (length vals)) vals) (afresh a + length vals) (afreed a)
  | Sort => AList (zip (seq (afresh a) (length ps)) (qsort ps.*2)) (afresh a + length ps) (afreed a)
  end.

(** Handles are of nodes in the list; an empty list has no front to add to. *)
Definition lop_ok (a : alist) (o : lop) : bool :=
  match o with
  | AddHead _ => bool_decide (anodes a ≠ [])
  | AddAfter (Some p) _ | AddBefore (Some p) _ | MoveToTail p | DeleteNode p => bool_decide (p ∈ (anodes a).*1)
  | Sort => (Z.of_nat (length (anodes a)) <? 2 ^ 32)%Z
  | _ => true
  end.

Fixpoint lruns (l : llist D) (os : list lop) : option (llist D) :=
  match os with [] => Some l | o :: os => l ← lrun l o; lruns l os end.
Fixpoint aruns (a : alist) (os : list lop) : alist :=
  match os with [] => a | o :: os => aruns (arun a o) os end.
Fixpoint lops_ok (a : alist) (os : list lop) : bool :=
  match os with [] => true | o :: os => lop_ok a o && lops_ok (arun a o) os end.

Definition models (l : llist D) (a : alist) : Prop := dll l (anodes a) ∧ fresh l = afresh a ∧ freed l = afreed a.

Lemma place_of_spec p ps : p ∈ ps.*1 → ∃ x, ps !! place_of p ps = Some (p, x).
Proof.
  unfold place_of. induction ps as [|[q y] ps IH]; [by intros ?%elem_of_nil|]. rewrite fmap_cons, elem_of_cons. cbn [idx_of fst].
  destruct (bool_decide_reflect (q = p)) as [->|Hne]; [intros _; by exists y|]. intros [->|Hp]; [done|]. by apply IH.
Qed.

Lemma value_of_spec x ps : match ps !! value_of x ps with Some e => e.2 = x | None => value_of x ps = length ps end.
Proof.
  unfold value_of. induction ps as [|[q y] ps IH]; [done|]. cbn [idx_of snd]. destruct (bool_decide_reflect (x = y)) as [->|Hne]; [done|].
  change (((q, y) :: ps) !! S ?i) with (ps !! i). destruct (ps !! _); [done|]. cbn. by rewrite IH.
Qed.

Context (Hq : ∀ xs, qsort xs ≡ₚ xs).

Lemma lrun_models l a o : models l a → lop_ok a o = true → ∃ l', lrun l o = Some l' ∧ models l' (arun a o).
Proof.
  destruct a as [ps fr fd]. intros (Hd & Hf & Hr) Hok. cbn [anodes afresh afreed] in *. subst fr fd.
  destruct o as [x|x|x|x|p x|p x|p|p|x| |cond|vals|]; cbn [lrun arun lop_ok] in *; cbv zeta; unfold models; cbn [anodes afresh afreed] in *.
  - rewrite splice_end. destruct (listnode_add_spec l ps x Hd) as (l' & -> & H). by exists l'.
  - apply bool_decide_eq_true in Hok. destruct (add_head_spec l ps x Hd Hok) as (l' & -> & H). by exists l'.
  - unfold listnode_add_sort. obind. destruct cmp as [c|].
    + rewrite (heap_size l ps Hd), (d_head _ _ Hd), (sort_position_spec l ps c x _ Hd 0) by lia. rewrite drop_0, Nat.add_0_l. obind.
      set (i := idx_of _ ps). destruct (next_of ps i) as [n|] eqn:En.
      * destruct (next_of_Some _ _ _ En) as [y Hy]. destruct (insert_before_spec l ps i n y x Hd Hy) as (l' & -> & H). by exists l'.
      * rewrite (tail_last l ps i Hd En) by apply idx_of_le. rewrite splice_end.
        destruct (append_new_spec l ps x Hd) as (l' & -> & H). by exists l'.
    + obind. rewrite splice_end. destruct (append_new_spec l ps x Hd) as (l' & -> & H). by exists l'.
  - unfold listnode_add_sort_nodup. obind. destruct cmp as [c|].
    + rewrite (heap_size l ps Hd), (d_head _ _ Hd), (nodup_position_spec l ps c x _ Hd 0) by lia. rewrite drop_0, Nat.add_0_l. obind.
      set (i := idx_of _ ps). pose proof (idx_of_le (λ e, (c x e.2 <=? 0)%Z) ps). destruct (ps !! i) as [[n y]|] eqn:Ei; cbn [snd].
      * destruct (decide (c x y = 0)%Z); [by exists l|]. destruct (insert_before_spec l ps i n y x Hd Ei) as (l' & -> & H'). by exists l'.
      * assert (i = length ps) as -> by (apply lookup_ge_None in Ei; unfold i in *; lia). rewrite splice_end, (attach_new_append l ps x Hd).
        destruct (append_new_spec l ps x Hd) as (l' & -> & H'). by exists l'.
    + obind. rewrite splice_end, (attach_new_append l ps x Hd). destruct (append_new_spec l ps x Hd) as (l' & -> & H). by exists l'.
  - assert (∃ i, match p with Some p => S (place_of p ps) | None => 0 end = i ∧ i ≤ length ps ∧ prev_of ps i = p) as (i & -> & Hi & Hp).
    { destruct p as [p|]; [|by exists 0; split_and!; [|lia|]]. apply bool_decide_eq_true in Hok. destruct (place_of_spec p ps Hok) as [y Hy].
      eexists. split; [reflexivity|]. split; [by apply lookup_lt_Some in Hy|]. cbn. by rewrite Hy. }
    destruct (add_after_spec l ps p i x Hd Hi Hp) as (l' & -> & H). by exists l'.
  - destruct (add_before_spec l ps p (match p with Some p => place_of p ps | None => length ps end) x Hd) as (l' & -> & H); [|by exists l'].
    destruct p as [p|]; [|done]. apply bool_decide_eq_true in Hok. destruct (place_of_spec p ps Hok) as [y Hy]. unfold next_of. by rewrite Hy.
  - apply bool_decide_eq_true in Hok. destruct (place_of_spec p ps Hok) as [y Hy]. rewrite Hy. cbn [option_list].
    destruct (move_to_tail_spec l ps _ p y Hd Hy) as (l' & -> & H). by exists l'.
  - apply bool_decide_eq_true in Hok. destruct (place_of_spec p ps Hok) as [y Hy].
    destruct (delete_node_spec l ps _ p y Hd Hy) as (l' & -> & H). by exists l'.
  - unfold listnode_delete, listnode_lookup. rewrite (heap_size l ps Hd), (d_head _ _ Hd), (lookup_loop_spec l ps x _ Hd 0) by lia.
    rewrite drop_0, Nat.add_0_l. obind. fold (value_of x ps). pose proof (value_of_spec x ps) as Hv. unfold next_of.
    destruct (ps !! value_of x ps) as [[p y]|] eqn:E; cbn [fmap option_fmap option_map fst].
    + destruct (delete_node_spec l ps _ p y Hd E) as (l' & -> & H). by exists l'.
    + exists l. split; [done|]. rewrite Hv, delete_take_drop, take_ge, drop_ge, app_nil_r by lia. done.
  - destruct (delete_all_spec del l ps Hd) as (l' & -> & H1 & H2 & H3). by exists l'.
  - unfold list_filter_out_nodes. rewrite (heap_size l ps Hd), (d_head _ _ Hd).
    destruct (filter_loop_spec del (default (λ _, true) cond) ps [] l (length ps) Hd) as (l' & E & H1 & H2 & H3); [lia|]. by exists l'.
  - destruct (add_all_spec vals list_new []) as (add & -> & Ha & _).
    { apply dll_new. }
    obind. unfold list_add_list. rewrite (elements_spec _ _ Ha). obind. cbn [app]. assert ((zip (seq (fresh list_new) (length vals)) vals).*2 = vals) as -> by (apply snd_zip; rewrite length_seq; lia).
    destruct (add_all_spec vals l ps Hd) as (l' & -> & H). by exists l'.
  - apply Z.ltb_lt in Hok. unfold list_sort. rewrite (heap_size l ps Hd), (d_head _ _ Hd), (d_count _ _ Hd).
    destruct (take_out_spec ps l (length ps) [] Hd) as (l1 & -> & H1 & H2 & H3); [lia|]. obind. cbn [app].
    rewrite decide_True by (rewrite length_fmap; unfold u32; rewrite Z.mod_small; lia).
    destruct (add_all_spec (qsort ps.*2) l1 [] H1) as (l' & -> & H4 & H5 & H6). exists l'. split; [done|].
    rewrite (Permutation_length (Hq ps.*2)), length_fmap in *. rewrite H2 in *. cbn [app] in H4. split_and!; [done|lia|congruence].
Qed.

Lemma lruns_models os : ∀ l a, models l a → lops_ok a os = true → ∃ l', lruns l os = Some l' ∧ models l' (aruns a os).
Proof.
  induction os as [|o os IH]; intros l a Hm Hok; cbn in *; [by exists l|]. apply andb_true_iff in Hok as [Ho Hok].
  destruct (lrun_models l a o Hm Ho) as (l1 & -> & Hm1). obind. by apply IH.
Qed.

Lemma list_new_runs os : lops_ok (AList [] 0 []) os = true →
  ∃ l, lruns list_new os = Some l ∧ models l (aruns (AList [] 0 []) os) ∧ elements l = Some (anodes (aruns (AList [] 0 []) os)).*2.
Proof.
  intros Hok. destruct (lruns_models os list_new (AList [] 0 [])) as (l & E & Hm); [split; [apply dll_new|done]|done|].
  exists l. split; [done|]. split; [done|]. destruct Hm as (Hd & _). by apply elements_spec.
Qed.

Lemma lruns_app os os' l : lruns l (os ++ os') = l1 ← lruns l os; lruns l1 os'.
Proof. revert l. induction os as [|o os IH]; intros l; [done|]. cbn [app lruns]. destruct (lrun l o); obind; [apply IH|done]. Qed.

(** At the front of an empty list [listnode_add_head] leaves the tail null, which
    is no list. *)
Lemma add_head_breaks l x : dll l [] → ∃ l', listnode_add_head l (Some x) = Some l' ∧ is_Some (head l') ∧ tail l' = None ∧ ∀ a, ¬ models l' a.
Proof.
  intros Hd. unfold listnode_add_head. obind. rewrite (d_head _ _ Hd). cbn [next_of fmap option_fmap option_map]. eexists. split; [reflexivity|].
  cbn [head tail]. split; [by eexists|]. split; [by rewrite (d_tail _ _ Hd)|]. intros [ps fr fd] (Hd' & _). cbn [anodes] in Hd'.
  pose proof (d_head _ _ Hd') as H1. pose proof (d_tail _ _ Hd') as H2. cbn [head tail] in H1, H2. rewrite (d_tail _ _ Hd) in H2. cbn in H2.
  destruct ps as [|e ps]; [done|]. cbn [length prev_of] in H2. destruct (lookup_lt_is_Some_2 (e :: ps) (length ps)) as [y Hy]; [cbn; lia|].
  by rewrite Hy in H2.
Qed.

End refine.

(** ** Insertion sort *)

Section sorting.
Context {D : Type} `{!EqDecision D} (cmp : D → D → Z).
Context (Hasym : ∀ x y, (cmp x y < 0)%Z → ¬ (cmp y x < 0)%Z).
Context (Htrans : ∀ x y z, ¬ (cmp y x < 0)%Z → ¬ (cmp z y < 0)%Z → ¬ (cmp z x < 0)%Z).

(** [x] may stand before [y]. *)
Definition leq (x y : D) : Prop := ¬ (cmp y x < 0)%Z.

Lemma sorted_splice ps nn x : StronglySorted leq ps.*2 →
  StronglySorted leq (splice ps (idx_of (λ e, (cmp x e.2 <? 0)%Z) ps) (nn, x)).*2.
Proof.
  induction ps as [|[p y] ps IH]; intros Hs; [repeat constructor|]. cbn [idx_of snd]. rewrite fmap_cons in Hs.
  apply StronglySorted_inv in Hs as [Hs Hy]. destruct (Z.ltb_spec (cmp x y) 0) as [Hlt|Hge].
  - cbn. constructor; [by constructor|]. constructor; [by apply Hasym|]. eapply Forall_impl; [exact Hy|]. intros z Hz.
    apply (Htrans x y z); [by apply Hasym|exact Hz].
  - specialize (IH Hs). unfold splice in *. cbn [take drop app]. rewrite fmap_cons. constructor; [exact IH|].
    rewrite fmap_app, fmap_cons, !fmap_take, !fmap_drop. apply Forall_app. split; [by apply Forall_take|].
    constructor; [unfold leq; cbn [snd]; lia|by apply Forall_drop].
Qed.

(** Adding values one by one with [listnode_add_sort] to a list whose
    [cmp] is an order gives a list of exactly these values in that order. *)
Theorem listnode_add_sort_sorts (del : bool) (qsort : list D → list D) (vals : list D) :
  (∀ xs, qsort xs ≡ₚ xs) →
  ∃ l sorted, lruns (Some cmp) del qsort list_new (AddSort <$> vals) = Some l ∧ elements l = Some sorted
    ∧ StronglySorted leq sorted ∧ sorted ≡ₚ vals.
Proof.
  intros Hq. destruct (list_new_runs (Some cmp) del qsort Hq (AddSort <$> vals)) as (l & E & _ & Ee).
  { generalize (AList (D := D) [] 0 []). induction vals as [|v vals IH]; intros a; [done|]. cbn. apply IH. }
  assert (∀ a, StronglySorted leq (anodes a).*2 → let a' := aruns (Some cmp) del qsort a (AddSort <$> vals) in
    StronglySorted leq (anodes a').*2 ∧ (anodes a').*2 ≡ₚ (anodes a).*2 ++ vals) as Hall.
  { clear E Ee. induction vals as [|v vals IH]; intros a Ha; cbn -[splice idx_of]; [by rewrite app_nil_r|].
    destruct (IH (AList (splice (anodes a) (idx_of (λ e, (cmp v e.2 <? 0)%Z) (anodes a)) (afresh a, v)) (S (afresh a)) (afreed a))) as [H1 H2].
    { cbn. by apply sorted_splice. }
    split; [exact H1|]. etrans; [exact H2|]. cbn [anodes]. rewrite splice_perm, fmap_cons. cbn. by rewrite Permutation_middle. }
  destruct (Hall (AList [] 0 [])) as [Hs Hp]; [constructor|]. do 2 eexists. split; [exact E|]. split; [exact Ee|]. split; [exact Hs|exact Hp].
Qed.
End sorting.

Definition cmpZ_list (x y : Z) : Z := (x - y)%Z.


Lemma listnode_add_sort_sorts_witness :
  ∃ l sorted, lruns (Some cmpZ_list) false id list_new (AddSort <$> [3; 1; 2]%Z) = Some l ∧ elements l = Some sorted
    ∧ sorted ≡ₚ [3; 1; 2]%Z.
Proof.
  destruct (listnode_add_sort_sorts cmpZ_list ltac:(unfold cmpZ_list; lia) ltac:(unfold cmpZ_list; lia) false id [3; 1; 2]%Z (λ xs, Permutation_refl xs))
    as (l & sorted & E & Ee & _ & Hp). exists l, sorted. split; [exact E|]. split; [exact Ee|exact Hp].
Defined.

(** ** What goes wrong *)

(** Adding at the head of an empty list leaves the list without a tail: the
    next append follows a null pointer. *)
Example add_head_empty_no_tail :
  tail <$> listnode_add_head (list_new (D := Z)) (Some 1%Z) = Some None
  ∧ (l ← listnode_add_head (list_new (D := Z)) (Some 1%Z); listnode_add l (Some 2%Z)) = None.
Proof. split; reflexivity. Qed.

(** An array of no slots is written to. *)
Example list_to_array_empty : (r ← listnode_add (list_new (D := Z)) (Some 1%Z); list_to_array r.2 []) = None.
Proof. reflexivity. Qed.
