(* ===== verification/PQueue.v ===== *)
(** * The priority queue of libvui: lib/pqueue.c, lib/pqueue.h

    A binary heap in a growing array, used by the thread library for its timers.
    The order is the callback [cmp]; an optional callback [update] is told the
    new index of every node that moves.  The class [CmpOrder] states that [cmp]
    is a total preorder, [Tracks] that [update] records the index; both have
    instances.  The theorems show that the queue keeps its nodes, returns a
    smallest one, sorts, removes exactly the node asked for and reports right
    positions.  [None] is a read outside the array or of an unset slot. *)
From Stdlib Require Import Sorted.
From S2P Require Import Prelude.

Section PQueue.
(** [A] is the type of the queued nodes (pointers); [cmp] and [update] are the two
    callback fields of [struct pqueue], set by the owner after [pqueue_create] and
    never changed by the queue. [update] acts on the owner's state [S] (the thread
    library stores the node's position in the node). *)
Context {A S : Type} `{!EqDecision A}.
Context (cmp : A → A → Z) (update : option (A → nat → S → S)).

(** [array] is the block [array] points at, NULL slots being [None]. *)
Record pqueue := PQ {
  array : list (option A);
  array_size : nat;
  size : nat
}.

Definition PQUEUE_INIT_ARRAYSIZE : nat := 32.

Definition PARENT_OF (x : nat) : nat := (x - 1) / 2.
Definition LEFT_OF (x : nat) : nat := 2 * x + 1.
Definition RIGHT_OF (x : nat) : nat := 2 * x + 2.
Definition HAVE_CHILD (x : nat) (size : nat) : bool := x <? size / 2.

(** Call [queue->update] on the node and its new position unless it is NULL. *)
Definition notify (node : A) (pos : nat) (s : S) : S :=
  match update with Some f => f node pos s | None => s end.

(** Read a node: out of range and NULL are both [None]. *)
Definition node_at (arr : list (option A)) (i : nat) : option A := mjoin (arr !! i).

Fixpoint trickle_up_loop (fuel : nat) (tmp : A) (index : nat) (arr : list (option A)) (s : S)
  : option (nat * list (option A) * S) :=
  match fuel with
  | 0 => None
  | Datatypes.S fuel =>
      if 0 <? index then
        p ← node_at arr (PARENT_OF index);
        if (cmp tmp p <? 0)%Z then
          arr ← write arr index (Some p);
          trickle_up_loop fuel tmp (PARENT_OF index) arr (notify p index s)
        else Some (index, arr, s)
      else Some (index, arr, s)
  end.

Definition trickle_up (index : nat) (q : pqueue) (s : S) : option (pqueue * S) :=
  tmp ← node_at (array q) index;
  '(index, arr, s) ← trickle_up_loop (index + 1) tmp index (array q) s;
  arr ← write arr index (Some tmp);
  Some (PQ arr (array_size q) (size q), notify tmp index s).

Fixpoint trickle_down_loop (fuel : nat) (sz : nat) (tmp : A) (index : nat)
    (arr : list (option A)) (s : S) : option (nat * list (option A) * S) :=
  match fuel with
  | 0 => None
  | Datatypes.S fuel =>
      if HAVE_CHILD index sz then
        which ← (if RIGHT_OF index <? sz then
                   l ← node_at arr (LEFT_OF index);
                   r ← node_at arr (RIGHT_OF index);
                   Some (if (cmp l r >? 0)%Z then RIGHT_OF index else LEFT_OF index)
                 else Some (LEFT_OF index));
        w ← node_at arr which;
        if (cmp w tmp >? 0)%Z then Some (index, arr, s)
        else
          arr ← write arr index (Some w);
          trickle_down_loop fuel sz tmp which arr (notify w index s)
      else Some (index, arr, s)
  end.

Definition trickle_down (index : nat) (q : pqueue) (s : S) : option (pqueue * S) :=
  tmp ← node_at (array q) index;
  '(index, arr, s) ← trickle_down_loop (size q + 1) (size q) tmp index (array q) s;
  arr ← write arr index (Some tmp);
  Some (PQ arr (array_size q) (size q), notify tmp index s).

Definition pqueue_create : pqueue :=
  PQ (replicate PQUEUE_INIT_ARRAYSIZE None) PQUEUE_INIT_ARRAYSIZE 0.

(** [array_size *= 2] is a signed multiplication: overflow is undefined. *)
Definition pqueue_expand (q : pqueue) : option pqueue :=
  if decide (array_size q ≤ length (array q) ∧ (Z.of_nat (array_size q) * 2 ≤ INT_MAX)%Z)
  then Some (PQ (take (array_size q) (array q) ++ replicate (array_size q) None)
               (array_size q * 2) (size q))
  else None.

Definition pqueue_enqueue (data : A) (q : pqueue) (s : S) : option (pqueue * S) :=
  q ← (if array_size q <=? size q + 2 then pqueue_expand q else Some q);
  arr ← write (array q) (size q) (Some data);
  '(q, s) ← trickle_up (size q) (PQ arr (array_size q) (size q)) (notify data (size q) s);
  Some (PQ (array q) (array_size q) (size q + 1), s).

Definition pqueue_dequeue (q : pqueue) (s : S) : option (option A * pqueue * S) :=
  data ← array q !! 0;
  match size q with
  | 0 => None
  | Datatypes.S sz =>
      last ← array q !! sz;
      arr ← write (array q) 0 last;
      '(q, s) ← trickle_down 0 (PQ arr (array_size q) sz) s;
      Some (data, q, s)
  end.

Definition pqueue_remove_at (index : nat) (q : pqueue) (s : S) : option (pqueue * S) :=
  match size q with
  | 0 => None
  | Datatypes.S sz =>
      last ← array q !! sz;
      arr ← write (array q) index last;
      let q := PQ arr (array_size q) sz in
      up ← ((if 0 <? index then
               x ← node_at arr index;
               p ← node_at arr (PARENT_OF index);
               Some (cmp x p <? 0)%Z
             else Some false) : option bool);
      if (up : bool) then trickle_up index q s else trickle_down index q s
  end.

Fixpoint pqueue_remove_loop (fuel : nat) (data : A) (i : nat) (q : pqueue) (s : S)
  : option (pqueue * S) :=
  match fuel with
  | 0 => None
  | Datatypes.S fuel =>
      if i <? size q then
        x ← array q !! i;
        '(q, s) ← (if decide (x = Some data) then pqueue_remove_at i q s else Some (q, s));
        pqueue_remove_loop fuel data (i + 1) q s
      else Some (q, s)
  end.

Definition pqueue_remove (data : A) (q : pqueue) (s : S) : option (pqueue * S) :=
  pqueue_remove_loop (size q + 1) data 0 q s.

(** ** The heap *)

Definition le (a b : A) : Prop := (cmp a b ≤ 0)%Z.

(** What the owner's comparison has to satisfy. *)
Class CmpOrder : Prop := {
  cmp_trans : ∀ a b c, le a b → le b c → le a c;
  cmp_sign : ∀ a b, (cmp a b > 0 ↔ cmp b a < 0)%Z
}.

(** Edge [k]: node [k] is not smaller than its parent. *)
Definition edge (h : list A) (k : nat) : Prop :=
  ∀ x y, 0 < k → h !! PARENT_OF k = Some x → h !! k = Some y → le x y.
Definition heap (h : list A) : Prop := ∀ k, edge h k.

Definition block (h : list A) (junk : list (option A)) : list (option A) := (Some <$> h) ++ junk.

(** [q] holds the nodes [h]. *)
Record holds (q : pqueue) (h : list A) : Prop := {
  holds_block : ∃ junk, array q = block h junk;
  holds_len : length (array q) = array_size q;
  holds_size : size q = length h;
  holds_room : size q + 2 ≤ array_size q
}.

Lemma node_at_block h junk i x : h !! i = Some x → node_at (block h junk) i = Some x.
Proof.
  intros Hi. unfold node_at, block. rewrite lookup_app_l.
  - by rewrite list_lookup_fmap, Hi.
  - rewrite length_fmap. eauto using lookup_lt_Some.
Qed.

Lemma write_block h junk i x : i < length h →
  write (block h junk) i (Some x) = Some (block (<[i := x]> h) junk).
Proof.
  intros Hi. unfold block. rewrite write_Some by (rewrite length_app, length_fmap; lia).
  rewrite insert_app_l by (rewrite length_fmap; lia). by rewrite list_fmap_insert.
Qed.

Lemma parent_lt k : 0 < k → PARENT_OF k < k.
Proof.
  intros. unfold PARENT_OF. apply Nat.Div0.div_lt_upper_bound. lia.
Qed.

Lemma parent_child c p : 0 < c → PARENT_OF c = p → c = LEFT_OF p ∨ c = RIGHT_OF p.
Proof.
  unfold PARENT_OF, LEFT_OF, RIGHT_OF. intros ? <-.
  pose proof (Nat.div_mod_eq (c - 1) 2). pose proof (Nat.mod_upper_bound (c - 1) 2). lia.
Qed.

Lemma parent_left p : PARENT_OF (LEFT_OF p) = p.
Proof.
  unfold PARENT_OF, LEFT_OF. replace (2 * p + 1 - 1) with (p * 2) by lia.
  by apply Nat.div_mul.
Qed.

Lemma parent_right p : PARENT_OF (RIGHT_OF p) = p.
Proof.
  unfold PARENT_OF, RIGHT_OF. replace (2 * p + 2 - 1) with (1 + p * 2) by lia.
  rewrite Nat.div_add by lia. done.
Qed.

(** ** Hole moves: both loops shift nodes into the hole one at a time *)

Inductive move : nat * list A * S → nat * list A * S → Prop :=
| move_intro i w x h s :
    i < length h → w ≠ i → h !! w = Some x →
    move (i, h, s) (w, <[i := x]> h, notify x i s).

Lemma insert_perm (l : list A) i a b : l !! i = Some a → b :: l ≡ₚ a :: <[i := b]> l.
Proof.
  intros Hi. rewrite (delete_Permutation l i a Hi) at 1.
  rewrite (delete_Permutation (<[i:=b]> l) i b)
    by (apply list_lookup_insert_eq; eauto using lookup_lt_Some).
  assert (delete i (<[i := b]> l) = delete i l) as ->; [|constructor].
  revert l Hi. induction i as [|i IH]; intros [|y l] Hi; simplify_eq/=; [done|].
  f_equal. by apply IH.
Qed.

Lemma move_perm tmp i h s i' h' s' : move (i, h, s) (i', h', s') →
  length h' = length h ∧ i' < length h' ∧ <[i' := tmp]> h' ≡ₚ <[i := tmp]> h.
Proof.
  inversion 1 as [? ? x ? ? Hi Hw Hx]; subst.
  pose proof (lookup_lt_Some _ _ _ Hx). rewrite length_insert. split_and!; [done|done|].
  assert ((<[i := tmp]> h) !! i = Some tmp) as H1 by (by apply list_lookup_insert_eq).
  assert ((<[i := x]> h) !! i' = Some x) as H2 by (by rewrite list_lookup_insert_ne).
  pose proof (insert_perm _ _ _ x H1) as P1. rewrite list_insert_insert_eq in P1.
  pose proof (insert_perm _ _ _ tmp H2) as P2.
  apply (Permutation_cons_inv (a := x)). by rewrite <- P2, P1.
Qed.

Lemma moves_perm tmp i h s i' h' s' : rtc move (i, h, s) (i', h', s') → i < length h →
  length h' = length h ∧ i' < length h' ∧ <[i' := tmp]> h' ≡ₚ <[i := tmp]> h.
Proof.
  intros Hm. remember (i, h, s) as c eqn:Ec. remember (i', h', s') as c' eqn:Ec'.
  revert i h s Ec. induction Hm as [|? [[i1 h1] s1] ? Hm _ IH]; intros i h s -> Hi; simplify_eq; [done|].
  destruct (move_perm tmp _ _ _ _ _ _ Hm) as (L1 & L2 & L3).
  destruct (IH eq_refl i1 h1 s1 eq_refl L2) as (? & ? & ->). split_and!; congruence.
Qed.

(** ** Heap order along the two loops *)

Context {HO : CmpOrder}.

Lemma le_of_not_lt a b : ¬ (cmp a b < 0)%Z → le b a.
Proof. intros Hn. unfold le. destruct (Z_le_gt_dec (cmp b a) 0); [done|]. by apply cmp_sign in g. Qed.

Lemma le_refl a : le a a.
Proof. apply le_of_not_lt. intros Hn. pose proof (proj2 (cmp_sign a a) Hn). lia. Qed.

Lemma le_of_gt a b : (cmp a b > 0)%Z → le b a.
Proof. intros ?%cmp_sign. unfold le. lia. Qed.

(** Only the edge above [i] may be wrong; its children already fit under its parent. *)
Definition up_inv (h : list A) (i : nat) : Prop :=
  (∀ k, k ≠ i → edge h k) ∧
  (∀ c x y, 0 < i → 0 < c → PARENT_OF c = i →
     h !! PARENT_OF i = Some x → h !! c = Some y → le x y).

(** Only the edges below [i] may be wrong. *)
Definition down_inv (h : list A) (i : nat) : Prop :=
  (∀ k, PARENT_OF k ≠ i → edge h k) ∧
  (∀ c x y, 0 < i → 0 < c → PARENT_OF c = i →
     h !! PARENT_OF i = Some x → h !! c = Some y → le x y).

Lemma up_inv_step h i x tmp :
  0 < i → i < length h → h !! i = Some tmp → h !! PARENT_OF i = Some x → (cmp tmp x < 0)%Z →
  up_inv h i → up_inv (<[PARENT_OF i := tmp]> (<[i := x]> h)) (PARENT_OF i).
Proof.
  intros Hi Hlt Ht Hx Hc [He Hg]. pose proof (parent_lt i Hi).
  assert (le tmp x) by (unfold le; lia).
  set (p := PARENT_OF i) in *. pose proof (lookup_lt_Some _ _ _ Hx).
  assert (∀ k, k ≠ p → k ≠ i → (<[p := tmp]> (<[i := x]> h)) !! k = h !! k) as Hother.
  { intros. by rewrite !list_lookup_insert_ne by done. }
  assert ((<[p := tmp]> (<[i := x]> h)) !! p = Some tmp) as Hp.
  { apply list_lookup_insert_eq. len. }
  assert ((<[p := tmp]> (<[i := x]> h)) !! i = Some x) as Hi'.
  { rewrite list_lookup_insert_ne by lia. by apply list_lookup_insert_eq. }
  split.
  - intros k Hk a b Hk0 Ha Hb. pose proof (parent_lt k Hk0).
    destruct (decide (k = i)) as [->|Hki].
    { fold p in Ha. rewrite Hp in Ha. rewrite Hi' in Hb. by simplify_eq. }
    rewrite Hother in Hb by done.
    destruct (decide (PARENT_OF k = i)) as [Hpk|?].
    { rewrite Hpk, Hi' in Ha. simplify_eq. by apply (Hg k). }
    destruct (decide (PARENT_OF k = p)) as [Hpk|?].
    { rewrite Hpk, Hp in Ha. simplify_eq. apply (cmp_trans _ x); [done|].
      apply (He k); [done|done|by rewrite Hpk|done]. }
    rewrite Hother in Ha by done. by apply (He k).
  - intros c a b Hp0 Hc0 Hpc Ha Hb. pose proof (parent_lt p Hp0).
    rewrite Hother in Ha by lia.
    assert (le a x) as Hax by (by apply (He p); [lia|..]).
    destruct (decide (c = i)) as [->|Hci]; [rewrite Hi' in Hb; by simplify_eq|].
    assert (c ≠ p) by (pose proof (parent_lt c Hc0); lia).
    rewrite Hother in Hb by done. apply (cmp_trans _ x); [done|].
    apply (He c); [done|done|by rewrite Hpc|done].
Qed.

Lemma up_inv_stop h i x tmp :
  h !! i = Some tmp → h !! PARENT_OF i = Some x → ¬ (cmp tmp x < 0)%Z →
  up_inv h i → heap h.
Proof.
  intros Ht Hx Hc [He _] k. destruct (decide (k = i)) as [->|]; [|by apply He].
  intros a b _ Ha Hb. simplify_eq. by apply le_of_not_lt.
Qed.

Lemma up_inv_root h : up_inv h 0 → heap h.
Proof.
  intros [He _] k. destruct (decide (k = 0)) as [->|]; [intros a b ?; lia|by apply He].
Qed.

Lemma trickle_up_loop_spec fuel tmp i h junk s :
  i < length h → i < fuel → up_inv (<[i := tmp]> h) i →
  ∃ j h' s', trickle_up_loop fuel tmp i (block h junk) s = Some (j, block h' junk, s') ∧
    rtc move (i, h, s) (j, h', s') ∧ heap (<[j := tmp]> h').
Proof.
  revert i h s. induction fuel as [|fuel IH]; intros i h s Hi Hf Hu; [lia|]. simpl.
  destruct (Nat.ltb_spec 0 i) as [Hi0|?].
  2:{ assert (i = 0) as -> by lia. do 3 eexists; split; [done|]. split; [apply rtc_refl|].
      by apply up_inv_root. }
  pose proof (parent_lt i Hi0) as Hp.
  destruct (lookup_lt_is_Some_2 h (PARENT_OF i)) as [x Hx]; [lia|].
  rewrite (node_at_block _ _ _ x Hx). simpl.
  assert ((<[i := tmp]> h) !! i = Some tmp) as H1 by (by apply list_lookup_insert_eq).
  assert ((<[i := tmp]> h) !! PARENT_OF i = Some x) as H2
    by (rewrite list_lookup_insert_ne by lia; done).
  destruct (Z.ltb_spec (cmp tmp x) 0) as [Hc|Hc].
  - rewrite write_block by done. simpl.
    destruct (IH (PARENT_OF i) (<[i := x]> h) (notify x i s)) as (j & h' & s' & E & M & ?).
    + len.
    + lia.
    + assert (i < length (<[i := tmp]> h)) as H0 by (by rewrite length_insert).
      pose proof (up_inv_step _ i x tmp Hi0 H0 H1 H2 Hc Hu) as Hu'.
      by rewrite list_insert_insert_eq in Hu'.
    + do 3 eexists; split; [exact E|]. split; [|done].
      eapply rtc_l; [|exact M]. constructor; [done|lia|done].
  - do 3 eexists; split; [done|]. split; [apply rtc_refl|].
    eapply up_inv_stop; [exact H1|exact H2|lia|done].
Qed.

Lemma down_inv_step h i w x tmp :
  0 < w → PARENT_OF w = i → h !! i = Some tmp → h !! w = Some x → le x tmp →
  (∀ c y, 0 < c → PARENT_OF c = i → h !! c = Some y → le x y) →
  down_inv h i → down_inv (<[w := tmp]> (<[i := x]> h)) w.
Proof.
  intros Hw Hpw Ht Hx Hle Hmin [He Hg]. pose proof (parent_lt w Hw).
  pose proof (lookup_lt_Some _ _ _ Hx). pose proof (lookup_lt_Some _ _ _ Ht).
  assert (∀ k, k ≠ w → k ≠ i → (<[w := tmp]> (<[i := x]> h)) !! k = h !! k) as Hother.
  { intros. by rewrite !list_lookup_insert_ne by done. }
  assert ((<[w := tmp]> (<[i := x]> h)) !! w = Some tmp) as Hw'.
  { apply list_lookup_insert_eq. len. }
  assert ((<[w := tmp]> (<[i := x]> h)) !! i = Some x) as Hi'.
  { rewrite list_lookup_insert_ne by lia. by apply list_lookup_insert_eq. }
  split.
  - intros k Hk a b Hk0 Ha Hb.
    destruct (decide (k = w)) as [->|Hkw].
    { rewrite Hpw, Hi' in Ha. rewrite Hw' in Hb. by simplify_eq. }
    destruct (decide (k = i)) as [->|Hki].
    { pose proof (parent_lt i Hk0). rewrite Hother in Ha by lia. rewrite Hi' in Hb. simplify_eq.
      by apply (Hg w). }
    rewrite Hother in Hb by done.
    destruct (decide (PARENT_OF k = i)) as [Hpk|?].
    { rewrite Hpk, Hi' in Ha. simplify_eq. by apply (Hmin k). }
    rewrite Hother in Ha by done. by apply (He k).
  - intros c a b _ Hc0 Hpc Ha Hb. pose proof (parent_lt c Hc0).
    rewrite Hpw, Hi' in Ha. injection Ha as <-. rewrite Hother in Hb by lia.
    apply (He c); [lia|done|by rewrite Hpc|done].
Qed.

Lemma down_inv_stop h i tmp :
  h !! i = Some tmp → (∀ c y, 0 < c → PARENT_OF c = i → h !! c = Some y → le tmp y) →
  down_inv h i → heap h.
Proof.
  intros Ht Hmin [He _] k. destruct (decide (PARENT_OF k = i)) as [Hpk|]; [|by apply He].
  intros a b Hk0 Ha Hb. rewrite Hpk in Ha. simplify_eq. by apply (Hmin k).
Qed.

(** The child the loop picks is the smallest one. *)
Lemma which_spec h junk i :
  HAVE_CHILD i (length h) = true →
  ∃ w x, 0 < w ∧ PARENT_OF w = i ∧ h !! w = Some x ∧
    (if RIGHT_OF i <? length h then
       l ← node_at (block h junk) (LEFT_OF i);
       r ← node_at (block h junk) (RIGHT_OF i);
       Some (if (cmp l r >? 0)%Z then RIGHT_OF i else LEFT_OF i)
     else Some (LEFT_OF i)) = Some w ∧
    (∀ c y, 0 < c → PARENT_OF c = i → h !! c = Some y → le x y).
Proof.
  intros Hc%Nat.ltb_lt. pose proof (parent_left i) as PL. pose proof (parent_right i) as PR.
  assert (LEFT_OF i < length h) as Hl.
  { unfold LEFT_OF. pose proof (Nat.div_mod_eq (length h) 2). lia. }
  pose proof le_refl.
  destruct (lookup_lt_is_Some_2 h _ Hl) as [l El]. rewrite (node_at_block _ _ _ l El).
  assert (0 < LEFT_OF i ∧ 0 < RIGHT_OF i) as [? ?] by (unfold LEFT_OF, RIGHT_OF; lia).
  destruct (Nat.ltb_spec (RIGHT_OF i) (length h)) as [Hr|Hr].
  - destruct (lookup_lt_is_Some_2 h _ Hr) as [r Er]. rewrite (node_at_block _ _ _ r Er). simpl.
    destruct (Z.gtb_spec (cmp l r) 0) as [Hg|Hg].
    + exists (RIGHT_OF i), r. split_and!; auto. intros c y Hc0 Hpc Hy.
      destruct (parent_child c i Hc0 Hpc) as [->| ->]; simplify_eq; [|done].
      apply le_of_gt. lia.
    + exists (LEFT_OF i), l. split_and!; auto. intros c y Hc0 Hpc Hy.
      destruct (parent_child c i Hc0 Hpc) as [->| ->]; simplify_eq; done.
  - exists (LEFT_OF i), l. split_and!; auto. intros c y Hc0 Hpc Hy.
    destruct (parent_child c i Hc0 Hpc) as [->| ->]; simplify_eq; [done|].
    apply lookup_lt_Some in Hy. lia.
Qed.

Lemma trickle_down_loop_spec fuel tmp i h junk s :
  i < length h → length h < fuel + i → down_inv (<[i := tmp]> h) i →
  ∃ j h' s', trickle_down_loop fuel (length h) tmp i (block h junk) s
               = Some (j, block h' junk, s') ∧
    rtc move (i, h, s) (j, h', s') ∧ heap (<[j := tmp]> h').
Proof.
  revert i h s. induction fuel as [|fuel IH]; intros i h s Hi Hf Hd; [lia|].
  assert ((<[i := tmp]> h) !! i = Some tmp) as H1 by (by apply list_lookup_insert_eq).
  cbn [trickle_down_loop].
  destruct (HAVE_CHILD i (length h)) eqn:Hh.
  2:{ do 3 eexists; split; [done|]. split; [apply rtc_refl|].
      eapply down_inv_stop; [exact H1| |done]. intros c y Hc0 Hpc Hy%lookup_lt_Some.
      rewrite length_insert in Hy. apply Nat.ltb_ge in Hh.
      pose proof (Nat.div_mod_eq (length h) 2). pose proof (Nat.mod_upper_bound (length h) 2).
      destruct (parent_child c i Hc0 Hpc) as [->| ->]; unfold LEFT_OF, RIGHT_OF in *; lia. }
  destruct (which_spec h junk i Hh) as (w & x & Hw0 & Hpw & Hx & -> & Hmin).
  pose proof (parent_lt w Hw0). pose proof (lookup_lt_Some _ _ _ Hx).
  simpl. rewrite (node_at_block _ _ _ x Hx). simpl.
  assert (∀ c y, 0 < c → PARENT_OF c = i → (<[i := tmp]> h) !! c = Some y → le x y) as Hmin'.
  { intros c y Hc0 Hpc Hy. pose proof (parent_lt c Hc0).
    rewrite list_lookup_insert_ne in Hy by lia. by apply (Hmin c). }
  destruct (Z.gtb_spec (cmp x tmp) 0) as [Hg|Hg].
  - do 3 eexists; split; [done|]. split; [apply rtc_refl|].
    eapply down_inv_stop; [exact H1| |done]. intros c y Hc0 Hpc Hy.
    apply (cmp_trans _ x); [apply le_of_gt; lia|by apply (Hmin' c)].
  - rewrite write_block by done. simpl.
    destruct (IH w (<[i := x]> h) (notify x i s)) as (j & h' & s' & E & M & ?).
    + len.
    + rewrite length_insert. lia.
    + assert ((<[i := tmp]> h) !! w = Some x) as H2 by (rewrite list_lookup_insert_ne by lia; done).
      pose proof (down_inv_step (<[i := tmp]> h) i w x tmp Hw0 Hpw H1 H2 Hg Hmin' Hd) as Hd'.
      by rewrite list_insert_insert_eq in Hd'.
    + rewrite length_insert in E. do 3 eexists; split; [exact E|]. split; [|done].
      eapply rtc_l; [|exact M]. constructor; [done|lia|done].
Qed.

(** ** Position tracking through the [update] callback *)

(** [pos] reads back what the callback stored. *)
Class Tracks (pos : S → A → nat) : Prop := {
  track_eq : ∀ x i s, pos (notify x i s) x = i;
  track_ne : ∀ x y i s, x ≠ y → pos (notify x i s) y = pos s y
}.

Definition tracked (pos : S → A → nat) (h : list A) (s : S) : Prop :=
  ∀ k x, h !! k = Some x → pos s x = k.
Definition tracked_except (pos : S → A → nat) (i : nat) (h : list A) (s : S) : Prop :=
  ∀ k x, k ≠ i → h !! k = Some x → pos s x = k.

Lemma moves_track `{!Tracks pos} tmp i h s j h' s' :
  rtc move (i, h, s) (j, h', s') → i < length h → NoDup (<[i := tmp]> h) →
  tracked_except pos i h s → tracked_except pos j h' s'.
Proof.
  intros Hm. remember (i, h, s) as c eqn:Ec. remember (j, h', s') as c' eqn:Ec'.
  revert i h s Ec. induction Hm as [|? [[w h1] s1] ? Hm _ IH]; intros i h s -> Hi Hnd Ht; simplify_eq; [done|].
  destruct (move_perm tmp _ _ _ _ _ _ Hm) as (L1 & L2 & L3).
  apply (IH eq_refl w h1 s1 eq_refl L2); [by rewrite L3|].
  inversion Hm as [? ? x ? ? _ Hw Hx]; subst. intros k y Hk Hy.
  destruct (decide (k = i)) as [->|Hki].
  { rewrite list_lookup_insert_eq in Hy by done. simplify_eq. apply track_eq. }
  rewrite list_lookup_insert_ne in Hy by done. rewrite track_ne; [by apply Ht|].
  intros ->. apply Hk, (NoDup_lookup _ _ _ y Hnd); by rewrite list_lookup_insert_ne.
Qed.

(** ** The two public trickle functions *)

(** The state after a rearrangement of [h] around position [i]. *)
Definition rearranged (i : nat) (h : list A) (s : S) (h' : list A) (s' : S) : Prop :=
  h' ≡ₚ h ∧ heap h' ∧
  (∀ pos, Tracks pos → NoDup h → tracked_except pos i h s → tracked pos h' s').

Lemma rearranged_of_moves i h s tmp j h' s' :
  h !! i = Some tmp → rtc move (i, h, s) (j, h', s') → heap (<[j := tmp]> h') →
  length h' = length h ∧ j < length h' ∧ rearranged i h s (<[j := tmp]> h') (notify tmp j s').
Proof.
  intros Ht M Hh. pose proof (lookup_lt_Some _ _ _ Ht).
  destruct (moves_perm tmp _ _ _ _ _ _ M) as (? & ? & P); [done|].
  rewrite (list_insert_id h i tmp Ht) in P. do 2 (split; [done|]). split; [done|]. split; [done|].
  intros pos Htr Hnd Hte k y Hy.
  assert (NoDup (<[j := tmp]> h')) as Hnd' by (by rewrite P).
  assert (tracked_except pos j h' s') as Htj.
  { eapply (moves_track tmp); [exact M|done| |done]. by rewrite (list_insert_id h i tmp Ht). }
  destruct (decide (k = j)) as [->|Hkj].
  { rewrite list_lookup_insert_eq in Hy by done. simplify_eq. apply track_eq. }
  rewrite track_ne.
  - apply Htj; [done|]. by rewrite list_lookup_insert_ne in Hy.
  - intros ->. apply Hkj, (NoDup_lookup _ _ _ y Hnd'); [done|]. by rewrite list_lookup_insert_eq.
Qed.

Lemma trickle_up_spec i h junk n sz s :
  i < length h → up_inv h i →
  ∃ h' s', trickle_up i (PQ (block h junk) n sz) s = Some (PQ (block h' junk) n sz, s') ∧
    rearranged i h s h' s'.
Proof.
  intros Hi Hu. destruct (lookup_lt_is_Some_2 h i Hi) as [tmp Ht].
  unfold trickle_up; simpl. rewrite (node_at_block _ _ _ tmp Ht). simpl.
  destruct (trickle_up_loop_spec (i + 1) tmp i h junk s) as (j & h' & s' & -> & M & Hh);
    [done|lia|by rewrite list_insert_id|]. simpl.
  destruct (rearranged_of_moves _ _ _ _ _ _ _ Ht M Hh) as (? & ? & ?).
  rewrite write_block by done. simpl. eauto.
Qed.

Lemma trickle_down_spec i h junk n sz s :
  sz = length h → i < sz → down_inv h i →
  ∃ h' s', trickle_down i (PQ (block h junk) n sz) s = Some (PQ (block h' junk) n sz, s') ∧
    rearranged i h s h' s'.
Proof.
  intros -> Hi Hd. destruct (lookup_lt_is_Some_2 h i Hi) as [tmp Ht].
  unfold trickle_down; simpl. rewrite (node_at_block _ _ _ tmp Ht). simpl.
  destruct (trickle_down_loop_spec (length h + 1) tmp i h junk s) as (j & h' & s' & -> & M & Hh);
    [done|lia|by rewrite list_insert_id|]. simpl.
  destruct (rearranged_of_moves _ _ _ _ _ _ _ Ht M Hh) as (? & ? & ?).
  rewrite write_block by done. simpl. eauto.
Qed.

(** Trickling down from just past the end only rewrites the slot. *)
Lemma trickle_down_past h x junk n s :
  trickle_down (length h) (PQ (block h (Some x :: junk)) n (length h)) s
  = Some (PQ (block h (Some x :: junk)) n (length h), notify x (length h) s).
Proof.
  assert (block h (Some x :: junk) !! length h = Some (Some x)) as E.
  { unfold block. apply list_lookup_middle. by rewrite length_fmap. }
  unfold trickle_down. simpl. unfold node_at at 1. rewrite E. simpl.
  rewrite Nat.add_1_r. simpl. unfold HAVE_CHILD.
  destruct (Nat.ltb_spec (length h) (length h / 2)) as [Hlt|_].
  { pose proof (Nat.Div0.div_le_upper_bound (length h) 2 (length h)). lia. }
  simpl. rewrite write_Some by eauto using lookup_lt_Some. simpl. by rewrite list_insert_id.
Qed.

(** ** Operations *)

Lemma heap_take h n : heap h → heap (take n h).
Proof.
  intros Hh k x y Hk Hx Hy. apply lookup_take_Some in Hx as [Hx ?], Hy as [Hy ?].
  by apply (Hh k).
Qed.

Lemma heap_snoc_up h x : heap h → up_inv (h ++ [x]) (length h).
Proof.
  intros Hh. split.
  - intros k Hk a b Hk0 Ha Hb. pose proof (parent_lt k Hk0).
    assert (k < length h) by (apply lookup_lt_Some in Hb; rewrite length_app in Hb; simpl in Hb; lia).
    rewrite lookup_app_l in Ha, Hb by lia. by apply (Hh k).
  - intros c a b ? Hc Hpc _ Hb%lookup_lt_Some. pose proof (parent_lt c Hc).
    rewrite length_app in Hb. simpl in Hb. lia.
Qed.

Definition valid (q : pqueue) (h : list A) : Prop := holds q h ∧ heap h.

Lemma valid_inv q h : valid q h → ∃ junk n,
  q = PQ (block h junk) n (length h) ∧ length (block h junk) = n ∧ length h + 2 ≤ n ∧ heap h.
Proof.
  intros [[[junk Ha] Hl Hs Hr] Hh]. destruct q as [arr n sz]. simpl in *. subst.
  exists junk. eauto 6.
Qed.

Lemma valid_mk h junk n :
  length (block h junk) = n → length h + 2 ≤ n → heap h → valid (PQ (block h junk) n (length h)) h.
Proof. intros. split; [|done]. split; simpl; eauto. Qed.

Lemma block_length h junk : length (block h junk) = length h + length junk.
Proof. unfold block. by rewrite length_app, length_fmap. Qed.

Lemma pqueue_create_valid : valid pqueue_create [].
Proof.
  apply (valid_mk [] (replicate 32 None) 32); [done|simpl; lia|].
  intros k x y _ Hx. by rewrite lookup_nil in Hx.
Qed.

(** Room for one more: after the growth test the slot at [size] and two more exist. *)
Lemma pqueue_grow_spec q h :
  valid q h → (array_size q ≤ size q + 2 → (Z.of_nat (array_size q) * 2 ≤ INT_MAX)%Z) →
  ∃ x junk n,
    (if array_size q <=? size q + 2 then pqueue_expand q else Some q)
      = Some (PQ (block h (x :: junk)) n (length h)) ∧
    length (block h (x :: junk)) = n ∧ length h + 3 ≤ n ∧
    n ≤ Nat.max (array_size q) (2 * length h + 4).
Proof.
  intros Hv Hz. destruct (valid_inv q h Hv) as (junk & n & -> & Hn & Hr & Hh). simpl in *.
  rewrite block_length in Hn. destruct (Nat.leb_spec n (length h + 2)).
  - unfold pqueue_expand; simpl. rewrite decide_True by (rewrite block_length; lia).
    rewrite take_ge by (rewrite block_length; lia).
    destruct junk as [|x junk]; [simpl in *; lia|].
    exists x, (junk ++ replicate n None), (n * 2).
    unfold block. rewrite <- app_assoc. simpl. split; [done|].
    rewrite !length_app, length_fmap. simpl in *. rewrite length_app, length_replicate. lia.
  - destruct junk as [|x junk]; [simpl in *; lia|].
    exists x, junk, n. rewrite block_length. simpl in *. split; [done|]. lia.
Qed.

Lemma pqueue_enqueue_room d q s r : pqueue_enqueue d q s = Some r → array_size q ≤ size q + 2 → (Z.of_nat (array_size q) * 2 ≤ INT_MAX)%Z.
Proof.
  unfold pqueue_enqueue. intros (q' & E & _)%bind_Some Hq. apply Nat.leb_le in Hq. rewrite Hq in E. unfold pqueue_expand in E.
  destruct (decide _) as [[_ ?]|]; [done|discriminate E].
Qed.

Lemma pqueue_enqueue_spec d q h s :
  valid q h → (array_size q ≤ size q + 2 → (Z.of_nat (array_size q) * 2 ≤ INT_MAX)%Z) →
  ∃ q' h' s', pqueue_enqueue d q s = Some (q', s') ∧ valid q' h' ∧ h' ≡ₚ d :: h ∧
    array_size q' ≤ Nat.max (array_size q) (2 * length h + 4) ∧
    (∀ pos, Tracks pos → NoDup (d :: h) → tracked pos h s → tracked pos h' s').
Proof.
  intros Hv Hz. pose proof (pqueue_grow_spec q h Hv Hz) as (x & junk & n & E & Hn & Hn3 & Hmax).
  unfold pqueue_enqueue. rewrite E. cbn [mbind option_bind array array_size size].
  rewrite write_Some by (rewrite block_length; simpl; lia). obind.
  assert (<[length h := Some d]> (block h (x :: junk)) = block (h ++ [d]) junk) as ->.
  { unfold block. rewrite insert_app_r_alt by (rewrite length_fmap; lia).
    rewrite length_fmap, Nat.sub_diag, fmap_app, <- app_assoc. done. }
  destruct (trickle_up_spec (length h) (h ++ [d]) junk n (length h) (notify d (length h) s))
    as (h' & s' & -> & P & Hh' & Ht); [len|apply heap_snoc_up, Hv|].
  cbn [mbind option_bind array array_size size].
  assert (h' ≡ₚ d :: h) as P' by (rewrite P; symmetry; apply Permutation_cons_append).
  assert (length h' = length h + 1) as Hl by (rewrite P'; simpl; lia).
  exists (PQ (block h' junk) n (length h + 1)), h', s'. split; [done|].
  split; [rewrite <- Hl; apply valid_mk; [rewrite block_length in *; simpl in *; lia|lia|done]|].
  split; [done|]. split; [done|].
  intros pos Htr Hnd Hth. apply Ht; [done|by rewrite <- Permutation_cons_append|].
  intros k y Hk Hy. assert (k < length h) as Hkl.
  { apply lookup_lt_Some in Hy. rewrite length_app in Hy. simpl in Hy. lia. }
  rewrite lookup_app_l in Hy by done. rewrite track_ne; [by apply Hth|].
  intros ->. apply NoDup_cons in Hnd as [Hnd _]. apply Hnd.
  by eapply list_elem_of_lookup_2.
Qed.

(** Overwrite node [i] with the last node and cut the last slot off. *)
Section Overwrite.
  Context (h : list A) (sz i : nat) (x last : A).
  Context (Hsz : length h = Datatypes.S sz) (Hi : i < sz).
  Context (Hx : h !! i = Some x) (Hlast : h !! sz = Some last).
Let h1 := <[i := last]> (take sz h).

Lemma overwrite_length : length h1 = sz.
  Proof using HO Hsz Hi Hx Hlast. unfold h1. rewrite length_insert, length_take. lia. Qed.

Lemma overwrite_perm : h ≡ₚ x :: h1.
  Proof using HO Hsz Hi Hx Hlast.
    assert (take sz h !! i = Some x) as Ht by (by rewrite lookup_take_lt).
    pose proof (insert_perm _ _ _ last Ht) as P. fold h1 in P. rewrite <- P.
    rewrite <- (take_drop sz h) at 1. rewrite (drop_S h last sz Hlast), drop_ge by lia.
    symmetry. apply Permutation_cons_append.
  Qed.

Lemma overwrite_block junk :
    <[i := Some last]> (block h junk) = block h1 (Some last :: junk).
  Proof using HO Hsz Hi Hx Hlast.
    unfold block. rewrite insert_app_l by (rewrite length_fmap; lia).
    unfold h1. rewrite list_fmap_insert. rewrite <- (take_drop sz h) at 1.
    rewrite (drop_S h last sz Hlast), drop_ge by lia.
    rewrite fmap_app, insert_app_l by (rewrite length_fmap, length_take; lia).
    by rewrite <- app_assoc.
  Qed.

Lemma overwrite_lookup k y : k ≠ i → h1 !! k = Some y → h !! k = Some y.
  Proof using HO Hsz Hi Hx Hlast. intros Hk. unfold h1. rewrite list_lookup_insert_ne by done. by intros [? _]%lookup_take_Some. Qed.

Lemma overwrite_i : h1 !! i = Some last.
  Proof using HO Hsz Hi Hx Hlast. apply list_lookup_insert_eq. rewrite length_take. lia. Qed.

Lemma overwrite_tracked pos s : tracked pos h s → tracked_except pos i h1 s.
  Proof using HO Hsz Hi Hx Hlast. intros Ht k y Hk Hy. apply Ht. by apply overwrite_lookup. Qed.

Lemma overwrite_grand c a b : heap h →
    0 < i → 0 < c → PARENT_OF c = i → h1 !! PARENT_OF i = Some a → h1 !! c = Some b → le a b.
  Proof using HO Hsz Hi Hx Hlast.
    intros Hh Hi0 Hc Hpc Ha Hb. pose proof (parent_lt i Hi0). pose proof (parent_lt c Hc).
    apply overwrite_lookup in Ha, Hb; [|lia..].
    apply (cmp_trans _ x); [by apply (Hh i)|]. apply (Hh c); [done|by rewrite Hpc|done].
  Qed.

Lemma overwrite_edge k : heap h → k ≠ i → PARENT_OF k ≠ i → edge h1 k.
  Proof using HO Hsz Hi Hx Hlast.
    intros Hh Hk Hpk a b Hk0 Ha%overwrite_lookup Hb%overwrite_lookup; [|done..]. by apply (Hh k).
  Qed.

Lemma overwrite_down : heap h →
    (∀ p, 0 < i → h !! PARENT_OF i = Some p → ¬ (cmp last p < 0)%Z) → down_inv h1 i.
  Proof using HO Hsz Hi Hx Hlast.
    intros Hh Hp. split; [|eauto using overwrite_grand].
    intros k Hpk. destruct (decide (k = i)) as [->|Hk]; [|by apply overwrite_edge].
    intros a b Hk0 Ha Hb. rewrite overwrite_i in Hb. injection Hb as <-.
    pose proof (parent_lt i Hk0). apply overwrite_lookup in Ha; [|lia].
    apply le_of_not_lt. by apply Hp.
  Qed.

Lemma overwrite_up p : heap h → 0 < i → h !! PARENT_OF i = Some p → (cmp last p < 0)%Z →
    up_inv h1 i.
  Proof using HO Hsz Hi Hx Hlast.
    intros Hh Hi0 Hp Hc. split; [|eauto using overwrite_grand].
    intros k Hk. destruct (decide (PARENT_OF k = i)) as [Hpk|]; [|by apply overwrite_edge].
    intros a b Hk0 Ha Hb. rewrite Hpk, overwrite_i in Ha. injection Ha as <-.
    apply overwrite_lookup in Hb; [|done].
    apply (cmp_trans _ p); [unfold le; lia|]. apply (cmp_trans _ x); [by apply (Hh i)|].
    apply (Hh k); [done|by rewrite Hpk|done].
  Qed.
End Overwrite.

Lemma overwrite_finish h sz i x last h1 junk n s (q' : pqueue) h' s' :
  h1 = <[i := last]> (take sz h) → length h = Datatypes.S sz → i < sz →
  h !! i = Some x → h !! sz = Some last →
  length (block h junk) = n → length h + 2 ≤ n →
  rearranged i h1 s h' s' → q' = PQ (block h' (Some last :: junk)) n sz →
  valid q' h' ∧ h ≡ₚ x :: h' ∧
  (∀ pos, Tracks pos → NoDup h → tracked pos h s → tracked pos h' s').
Proof.
  intros -> Hsz Hi Hx Hlast Hn Hr (P & Hh' & Ht) ->.
  pose proof (overwrite_perm h sz i x last Hsz Hi Hx Hlast) as P1.
  pose proof (overwrite_length h sz i x last Hsz Hi Hx Hlast) as L1.
  assert (length h' = sz) as L2 by (by rewrite P).
  split; [|split].
  - rewrite <- L2. apply valid_mk; [|lia|done]. rewrite block_length in *. simpl. lia.
  - by rewrite P1, P.
  - intros pos Htr Hnd Hth. apply Ht; [done| |by apply (overwrite_tracked h sz i x last Hsz Hi Hx Hlast)].
    rewrite P1 in Hnd. by apply NoDup_cons in Hnd as [_ ?].
Qed.

(** Cutting the last node off. *)
Lemma cut_last h sz x junk n s :
  length h = Datatypes.S sz → h !! sz = Some x → length (block h junk) = n → length h + 2 ≤ n →
  heap h →
  let q' := PQ (block (take sz h) (Some x :: junk)) n sz in
  block h junk = block (take sz h) (Some x :: junk) ∧
  trickle_down sz q' s = Some (q', notify x sz s) ∧
  valid q' (take sz h) ∧ h ≡ₚ x :: take sz h ∧
  (∀ pos, Tracks pos → NoDup h → tracked pos h s → tracked pos (take sz h) (notify x sz s)).
Proof.
  intros Hsz Hx Hn Hr Hh q'.
  assert (length (take sz h) = sz) as L by (rewrite length_take; lia).
  assert (h = take sz h ++ [x]) as E.
  { rewrite <- (take_drop sz h) at 1. by rewrite (drop_S h x sz Hx), drop_ge by lia. }
  split; [|split; [|split; [|split]]].
  - rewrite E at 1. unfold block. by rewrite fmap_app, <- app_assoc.
  - pose proof (trickle_down_past (take sz h) x junk n s) as T. by rewrite L in T.
  - unfold q'. rewrite <- L at 2. apply valid_mk; [|lia|by apply heap_take].
    rewrite block_length in *. simpl. lia.
  - rewrite E at 1. symmetry. apply Permutation_cons_append.
  - intros pos Htr Hnd Hth k y Hy. pose proof (lookup_lt_Some _ _ _ Hy).
    apply lookup_take_Some in Hy as [Hy _]. rewrite track_ne; [by apply Hth|].
    intros ->. assert (sz = k) by (by apply (NoDup_lookup h _ _ y)). lia.
Qed.

Lemma block_lookup h junk k x : h !! k = Some x → block h junk !! k = Some (Some x).
Proof.
  intros Hk. unfold block. rewrite lookup_app_l.
  - by rewrite list_lookup_fmap, Hk.
  - rewrite length_fmap. eauto using lookup_lt_Some.
Qed.

(** The direction test of [pqueue_remove_at] on a slot that keeps the heap. *)
Lemma remove_at_test h junk i x :
  heap h → h !! i = Some x →
  (if 0 <? i then
     a ← node_at (block h junk) i; p ← node_at (block h junk) (PARENT_OF i);
     Some (cmp a p <? 0)%Z
   else Some false) = Some false.
Proof.
  intros Hh Hx. destruct (Nat.ltb_spec 0 i) as [Hi0|]; [|done]. pose proof (parent_lt i Hi0).
  pose proof (lookup_lt_Some _ _ _ Hx).
  destruct (lookup_lt_is_Some_2 h (PARENT_OF i)) as [p Hp]; [lia|].
  rewrite (node_at_block _ _ _ _ Hx), (node_at_block _ _ _ _ Hp). simpl. f_equal.
  apply Z.ltb_ge. pose proof (Hh i p x Hi0 Hp Hx) as Hle.
  destruct (Z_lt_le_dec (cmp x p) 0) as [Hlt|]; [|done].
  apply cmp_sign in Hlt. unfold le in Hle. lia.
Qed.

(** What is left to do once the last node has replaced node [i]. *)
Lemma overwrite_settle h sz i x last junk n s :
  length h = Datatypes.S sz → i < sz → h !! i = Some x → h !! sz = Some last → heap h →
  let q := PQ (block (<[i := last]> (take sz h)) (Some last :: junk)) n sz in
  ∃ h' s',
    (up ← ((if 0 <? i then
              a ← node_at (array q) i; p ← node_at (array q) (PARENT_OF i);
              Some (cmp a p <? 0)%Z
            else Some false) : option bool);
     if (up : bool) then trickle_up i q s else trickle_down i q s)
      = Some (PQ (block h' (Some last :: junk)) n sz, s') ∧
    rearranged i (<[i := last]> (take sz h)) s h' s' ∧
    (i = 0 → trickle_down i q s = Some (PQ (block h' (Some last :: junk)) n sz, s')).
Proof.
  intros Hsz Hi Hx Hlast Hh q.
  pose proof (overwrite_i h sz i x last Hsz Hi Hx Hlast) as E1.
  pose proof (overwrite_length h sz i x last Hsz Hi Hx Hlast) as L1.
  unfold q. cbn [array]. set (h1 := <[i := last]> (take sz h)) in *.
  rewrite (node_at_block _ _ _ _ E1). obind.
  destruct (Nat.ltb_spec 0 i) as [Hi0|Hi0].
  - pose proof (parent_lt i Hi0).
    destruct (lookup_lt_is_Some_2 h1 (PARENT_OF i)) as [p Hp]; [lia|].
    rewrite (node_at_block _ _ _ _ Hp). obind.
    apply (overwrite_lookup h sz i x last Hsz Hi Hx Hlast) in Hp as Hp'; [|lia].
    destruct (Z.ltb_spec (cmp last p) 0) as [Hc|Hc].
    + destruct (trickle_up_spec i h1 (Some last :: junk) n sz s) as (h' & s' & -> & R);
        [lia|by apply (overwrite_up h sz i x last Hsz Hi Hx Hlast p)|]. eauto with lia.
    + destruct (trickle_down_spec i h1 (Some last :: junk) n sz s) as (h' & s' & -> & R); [lia|lia| |].
      { apply (overwrite_down h sz i x last Hsz Hi Hx Hlast Hh). intros p' _ Hp''. simplify_eq. lia. }
      eauto.
  - destruct (trickle_down_spec i h1 (Some last :: junk) n sz s) as (h' & s' & -> & R); [lia|lia| |].
    { apply (overwrite_down h sz i x last Hsz Hi Hx Hlast Hh). intros p' ?. lia. }
    eauto.
Qed.

Lemma pqueue_remove_at_spec i q h s x :
  valid q h → h !! i = Some x →
  ∃ q' h' s', pqueue_remove_at i q s = Some (q', s') ∧ valid q' h' ∧ h ≡ₚ x :: h' ∧
    (∀ pos, Tracks pos → NoDup h → tracked pos h s → tracked pos h' s') ∧
    (i = 0 → pqueue_dequeue q s = Some (Some x, q', s')).
Proof.
  intros Hv Hx. destruct (valid_inv q h Hv) as (junk & n & -> & Hn & Hr & Hh).
  pose proof (lookup_lt_Some _ _ _ Hx) as Hi.
  destruct (length h) as [|sz] eqn:Hsz; [lia|].
  unfold pqueue_remove_at, pqueue_dequeue; cbn [size array array_size].
  destruct (lookup_lt_is_Some_2 h sz) as [last Hlast]; [lia|].
  rewrite (block_lookup _ _ _ _ Hlast).
  obind. rewrite !write_Some by (rewrite block_length; lia). obind.
  destruct (decide (i = sz)) as [->|Hne].
  - rewrite Hlast in Hx. injection Hx as ->.
    destruct (cut_last h sz x junk n s Hsz Hlast Hn ltac:(lia) Hh) as (E & T & V & P & Htr).
    rewrite (list_insert_id (block h junk) sz (Some x)) by (by apply block_lookup).
    rewrite (remove_at_test _ _ _ _ Hh Hlast). obind.
    do 3 eexists. split; [rewrite E, T; done|]. do 3 (split; [done|]). intros ->.
    rewrite (block_lookup _ _ _ _ Hlast). obind.
    rewrite (list_insert_id (block h junk) 0 (Some x)) by (by apply block_lookup).
    by rewrite E, T.
  - assert (i < sz) as His by lia.
    destruct (overwrite_settle h sz i x last junk n s Hsz His Hx Hlast Hh) as (h' & s' & E & R & E0).
    rewrite (overwrite_block h sz i x last Hsz His Hx Hlast junk). cbn [array] in E.
    rewrite E. do 3 eexists; split; [done|].
    destruct (overwrite_finish h sz i x last _ junk n s _ h' s' eq_refl Hsz His Hx Hlast Hn
      ltac:(lia) R eq_refl) as (? & ? & ?). do 3 (split; [done|]).
    intros ->. rewrite (block_lookup _ _ _ _ Hx). obind.
    rewrite (overwrite_block h sz 0 x last Hsz His Hx Hlast junk), E0 by done. done.
Qed.

Lemma heap_root_min h x y : heap h → h !! 0 = Some x → y ∈ h → le x y.
Proof.
  intros Hh Hx (k & Hk)%list_elem_of_lookup. revert y Hk.
  induction k as [k IH] using lt_wf_ind. intros y Hk.
  destruct (decide (k = 0)) as [->|Hk0].
  { simplify_eq. apply le_refl. }
  assert (0 < k) as Hk1 by lia. pose proof (parent_lt k Hk1).
  pose proof (lookup_lt_Some _ _ _ Hk).
  destruct (lookup_lt_is_Some_2 h (PARENT_OF k)) as [p Hp]; [lia|].
  apply (cmp_trans _ p); [by apply (IH (PARENT_OF k))|by apply (Hh k)].
Qed.

Lemma pqueue_dequeue_spec q h s :
  valid q h → h ≠ [] →
  ∃ x q' h' s', pqueue_dequeue q s = Some (Some x, q', s') ∧ valid q' h' ∧ h ≡ₚ x :: h' ∧
    (∀ y, y ∈ h → le x y) ∧
    (∀ pos, Tracks pos → NoDup h → tracked pos h s → tracked pos h' s').
Proof.
  intros Hv Hne. destruct h as [|x h0] eqn:E; [done|]. rewrite <- E in *.
  assert (h !! 0 = Some x) as Hx by (by rewrite E).
  destruct (pqueue_remove_at_spec 0 q h s x Hv Hx) as (q' & h' & s' & _ & ? & ? & ? & Hd).
  exists x, q', h', s'. split; [by apply Hd|]. do 2 (split; [done|]). split; [|done].
  intros y Hy. eapply heap_root_min; [apply Hv|done|done].
Qed.

Lemma valid_slot q h i : valid q h → i < size q → ∃ x, h !! i = Some x ∧ array q !! i = Some (Some x).
Proof.
  intros Hv Hi. destruct (valid_inv q h Hv) as (junk & n & -> & _ & _ & _). simpl in *.
  destruct (lookup_lt_is_Some_2 h i Hi) as [x Hx]. eauto using block_lookup.
Qed.

Lemma pqueue_remove_loop_absent fuel d i q h s :
  valid q h → d ∉ h → size q < fuel + i → 0 < fuel →
  pqueue_remove_loop fuel d i q s = Some (q, s).
Proof.
  intros Hv Hd. revert i. induction fuel as [|fuel IH]; intros i Hf Hpos; [lia|]. simpl.
  destruct (Nat.ltb_spec i (size q)) as [Hi|]; [|done].
  destruct (valid_slot q h i Hv Hi) as (x & Hx & ->). simpl.
  rewrite decide_False; [simpl; apply IH; lia|].
  intros [= ->]. apply Hd. by eapply list_elem_of_lookup_2.
Qed.

Lemma pqueue_remove_loop_spec fuel d i q h s :
  valid q h → NoDup h → (∀ k, k < i → h !! k ≠ Some d) → size q < fuel + i → 0 < fuel →
  ∃ q' h' s', pqueue_remove_loop fuel d i q s = Some (q', s') ∧ valid q' h' ∧
    h' ≡ₚ filter (.≠ d) h.
Proof.
  intros Hv Hnd. revert i. induction fuel as [|fuel IH]; intros i Hk Hf Hpos; [lia|]. simpl.
  pose proof Hv as [[_ _ Hsz _] _].
  destruct (Nat.ltb_spec i (size q)) as [Hi|Hi].
  2:{ do 3 eexists; split; [done|]. split; [done|]. rewrite filter_all; [done|].
      intros x (k & Hx)%list_elem_of_lookup ->. eapply Hk; [|done].
      apply lookup_lt_Some in Hx. lia. }
  destruct (valid_slot q h i Hv Hi) as (x & Hx & ->). simpl.
  case_decide as Hdx.
  - injection Hdx as ->.
    destruct (pqueue_remove_at_spec i q h s d Hv Hx) as (q' & h' & s' & -> & Hv' & P & _). simpl.
    assert ((d ∉ h') ∧ NoDup h') as [Hd' Hnd'] by (apply NoDup_cons; by rewrite <- P).
    rewrite (pqueue_remove_loop_absent fuel d (i + 1) q' h' s' Hv' Hd').
    + do 3 eexists; split; [done|]. split; [done|]. rewrite P, filter_cons_False by naive_solver.
      rewrite filter_all; [done|]. by intros y Hy ->.
    + pose proof Hv' as [[_ _ Hsz' _] _]. apply Permutation_length in P. simpl in P. lia.
    + lia.
  - simpl. apply IH; [|lia|lia]. intros k Hki Hkd.
    destruct (decide (k = i)) as [->|]; [congruence|]. apply (Hk k); [lia|done].
Qed.

(** ** Clients *)

Fixpoint enqueue_all (ds : list A) (q : pqueue) (s : S) : option (pqueue * S) :=
  match ds with
  | [] => Some (q, s)
  | d :: ds => '(q, s) ← pqueue_enqueue d q s; enqueue_all ds q s
  end.

Fixpoint dequeue_n (n : nat) (q : pqueue) (s : S) : option (list (option A) * pqueue * S) :=
  match n with
  | 0 => Some ([], q, s)
  | Datatypes.S n =>
      '(x, q, s) ← pqueue_dequeue q s;
      '(xs, q, s) ← dequeue_n n q s;
      Some (x :: xs, q, s)
  end.

Lemma enqueue_all_spec ds q h s :
  valid q h → array_size q ≤ 2 * length h + 32 →
  (Z.of_nat (length h + length ds) < 2 ^ 28)%Z →
  ∃ q' h' s', enqueue_all ds q s = Some (q', s') ∧ valid q' h' ∧ h' ≡ₚ ds ++ h.
Proof.
  revert q h s. induction ds as [|d ds IH]; intros q h s Hv Ha Hl; simpl; [eauto 6|].
  simpl in Hl. destruct (pqueue_enqueue_spec d q h s Hv) as (q' & h' & s' & -> & Hv' & P & Hm & _).
  { unfold INT_MAX. lia. }
  simpl. assert (length h' = Datatypes.S (length h)) as Hl' by (by rewrite P).
  destruct (IH q' h' s' Hv') as (q2 & h2 & s2 & -> & Hv2 & P2); [lia|lia|].
  do 3 eexists; split; [done|]. split; [done|]. rewrite P2, P. by rewrite Permutation_middle.
Qed.

Lemma dequeue_n_spec n q h s :
  valid q h → n = length h →
  ∃ xs q' s', dequeue_n n q s = Some (Some <$> xs, q', s') ∧ xs ≡ₚ h ∧
    StronglySorted le xs ∧ size q' = 0.
Proof.
  revert q h s. induction n as [|n IH]; intros q h s Hv Hn; simpl.
  - exists [], q, s. destruct h; [|done]. split; [done|]. split; [done|]. split; [constructor|].
    apply Hv.
  - destruct (pqueue_dequeue_spec q h s Hv) as (x & q' & h' & s' & -> & Hv' & P & Hmin & _).
    { by intros ->. }
    simpl. assert (n = length h') as Hn' by (rewrite P in Hn; simpl in Hn; lia).
    destruct (IH q' h' s' Hv' Hn') as (xs & q2 & s2 & -> & P2 & Hs & Hz).
    exists (x :: xs), q2, s2. split; [done|]. split; [by rewrite P, P2|]. split; [|done].
    constructor; [done|]. apply Forall_forall. intros y Hy. apply Hmin. rewrite P.
    rewrite <- P2. by right.
Qed.

(** States reachable from [pqueue_create] by the calls the thread library makes. *)
Inductive pq_reach (s0 : S) : pqueue → S → Prop :=
| reach_create : pq_reach s0 pqueue_create s0
| reach_enqueue d q s q' s' :
    pq_reach s0 q s → Some d ∉ take (size q) (array q) →
    (Z.of_nat (array_size q) * 2 ≤ INT_MAX)%Z →
    pqueue_enqueue d q s = Some (q', s') → pq_reach s0 q' s'
| reach_dequeue q s x q' s' :
    pq_reach s0 q s → 0 < size q → pqueue_dequeue q s = Some (x, q', s') → pq_reach s0 q' s'
| reach_remove_at i q s q' s' :
    pq_reach s0 q s → i < size q → pqueue_remove_at i q s = Some (q', s') → pq_reach s0 q' s'.

Lemma holds_elems q h : holds q h → take (size q) (array q) = Some <$> h.
Proof.
  intros [[junk Hb] _ Hs _]. rewrite Hs, Hb. unfold block.
  apply take_app_length'. by rewrite length_fmap.
Qed.

Lemma pq_reach_inv `{!Tracks pos} s0 q s : pq_reach s0 q s →
  ∃ h, valid q h ∧ NoDup h ∧ tracked pos h s.
Proof.
  induction 1 as [|d q s q' s' _ (h & Hv & Hnd & Ht) Hd Hz E
                  |q s x q' s' _ (h & Hv & Hnd & Ht) Hs E|i q s q' s' _ (h & Hv & Hnd & Ht) Hi E].
  - exists []. split; [apply pqueue_create_valid|]. split; [constructor|]. intros k x Hk.
    by rewrite lookup_nil in Hk.
  - destruct (pqueue_enqueue_spec d q h s Hv (λ _, Hz)) as (? & h' & ? & E' & Hv' & P & _ & Htr).
    rewrite E in E'. simplify_eq.
    assert (NoDup (d :: h)) as Hnd'.
    { apply NoDup_cons; split; [|done]. intros Hin. apply Hd.
      rewrite (holds_elems q h) by apply Hv. by apply list_elem_of_fmap_2. }
    exists h'. split; [done|]. split; [by rewrite P|]. by apply Htr.
  - destruct (pqueue_dequeue_spec q h s Hv) as (? & ? & h' & ? & E' & Hv' & P & _ & Htr).
    { intros ->. destruct Hv as [[_ _ Hsz _] _]. simpl in Hsz. lia. }
    rewrite E in E'. simplify_eq. exists h'. split; [done|]. split; [|by apply Htr].
    rewrite P in Hnd. by apply NoDup_cons in Hnd as [_ ?].
  - destruct (valid_slot q h i Hv Hi) as (x & Hx & _).
    destruct (pqueue_remove_at_spec i q h s x Hv Hx) as (? & h' & ? & E' & Hv' & P & Htr & _).
    rewrite E in E'. simplify_eq. exists h'. split; [done|]. split; [|by apply Htr].
    rewrite P in Hnd. by apply NoDup_cons in Hnd as [_ ?].
Qed.

(** ** Properties *)

(** (enqueue). On a queue holding the heap [h] with room to double, [pqueue_enqueue]
    returns without touching memory outside its block, the queue then holds exactly [d]
    and the nodes of [h], and it is again a heap. *)
Theorem pqueue_enqueue_correct d q h s :
  valid q h → (Z.of_nat (array_size q) * 2 ≤ INT_MAX)%Z →
  ∃ q' h' s', pqueue_enqueue d q s = Some (q', s') ∧ valid q' h' ∧ h' ≡ₚ d :: h.
Proof.
  intros Hv Hz. destruct (pqueue_enqueue_spec d q h s Hv (λ _, Hz)) as (q' & h' & s' & ? & ? & ? & _).
  eauto 6.
Qed.

(** (dequeue). On a non-empty queue [pqueue_dequeue] returns a node no other node is
    smaller than, and the queue keeps exactly the other nodes, as a heap. *)
Theorem pqueue_dequeue_min q h s :
  valid q h → h ≠ [] →
  ∃ x q' h' s', pqueue_dequeue q s = Some (Some x, q', s') ∧ valid q' h' ∧ h ≡ₚ x :: h' ∧
    ∀ y, y ∈ h → le x y.
Proof.
  intros Hv Hne. destruct (pqueue_dequeue_spec q h s Hv Hne) as (x & q' & h' & s' & ? & ? & ? & ? & _).
  eauto 8.
Qed.

(** [pqueue_remove] takes the node [d] out wherever it stands, keeps every
    other node and keeps the heap, when no node is queued twice. *)
Theorem pqueue_remove_correct d q h s :
  valid q h → NoDup h →
  ∃ q' h' s', pqueue_remove d q s = Some (q', s') ∧ valid q' h' ∧ h' ≡ₚ filter (.≠ d) h.
Proof.
  intros Hv Hnd. apply pqueue_remove_loop_spec; [done|done| |lia|lia]. intros k ?. lia.
Qed.

(** C9 (heap sort). Enqueueing [ds] into a new queue and dequeueing as many times returns
    the nodes of [ds] in ascending order of [cmp] and empties the queue. *)
Theorem pqueue_sorts ds s :
  (Z.of_nat (length ds) < 2 ^ 28)%Z →
  ∃ q s1 xs q' s2,
    enqueue_all ds pqueue_create s = Some (q, s1) ∧
    dequeue_n (length ds) q s1 = Some (Some <$> xs, q', s2) ∧
    xs ≡ₚ ds ∧ StronglySorted le xs ∧ size q' = 0.
Proof.
  intros Hl. destruct (enqueue_all_spec ds pqueue_create [] s) as (q & h & s1 & E & Hv & P);
    [apply pqueue_create_valid|unfold pqueue_create, PQUEUE_INIT_ARRAYSIZE; simpl; lia|simpl; lia|].
  rewrite app_nil_r in P.
  destruct (dequeue_n_spec (length ds) q h s1 Hv) as (xs & q' & s2 & ? & P2 & ? & ?); [by rewrite P|].
  exists q, s1, xs, q', s2. rewrite P in P2. auto.
Qed.

(** Positions.  Along every sequence of calls that never queues a node twice, the
    [update] callback keeps the position recorded for each queued node equal to the slot
    that holds it, which is what [pqueue_remove_at] relies on. *)
Theorem pqueue_tracks_positions `{!Tracks pos} s0 q s i x :
  pq_reach s0 q s → i < size q → array q !! i = Some (Some x) → pos s x = i.
Proof.
  intros Hr Hi Hx. destruct (pq_reach_inv s0 q s Hr) as (h & Hv & _ & Ht).
  destruct (valid_slot q h i Hv Hi) as (y & Hy & E). rewrite Hx in E. simplify_eq. by apply Ht.
Qed.

End PQueue.
Arguments pqueue : clear implicits.

(** ** Witnesses: integer nodes ordered by subtraction, positions kept in a map *)

Definition cmpZ (a b : Z) : Z := (a - b)%Z.
Definition upd_map (x : Z) (i : nat) (m : gmap Z nat) : gmap Z nat := <[x := i]> m.
Definition pos_map (m : gmap Z nat) (x : Z) : nat := default 0 (m !! x).

#[export] Instance cmpZ_order : CmpOrder cmpZ.
Proof. split; unfold le, cmpZ; intros; lia. Qed.

#[export] Instance pos_map_tracks : Tracks (Some upd_map) pos_map.
Proof.
  split; unfold pos_map; simpl; unfold upd_map; intros.
  - by rewrite lookup_insert_eq.
  - by rewrite lookup_insert_ne.
Qed.

Definition q312 : pqueue Z := PQ ([Some 1; Some 3; Some 2] ++ replicate 29 None)%Z 32 3.

Lemma q312_valid : valid cmpZ q312 [1; 3; 2]%Z.
Proof.
  apply (valid_mk cmpZ [1; 3; 2]%Z (replicate 29 None) 32); [done|simpl; lia|].
  intros [|[|[|k]]] x y Hk Hx Hy; [lia| | |done]; simpl in *; simplify_eq; unfold le, cmpZ; lia.
Qed.

Lemma pqueue_enqueue_correct_witness :
  valid cmpZ q312 [1; 3; 2]%Z ∧ (Z.of_nat (array_size q312) * 2 ≤ INT_MAX)%Z ∧
  ∃ q' h' s', pqueue_enqueue cmpZ (Some upd_map) 0%Z q312 ∅ = Some (q', s') ∧
    valid cmpZ q' h' ∧ h' ≡ₚ [0; 1; 3; 2]%Z.
Proof.
  split; [exact q312_valid|]. split; [done|].
  exact (pqueue_enqueue_correct cmpZ (Some upd_map) 0%Z q312 _ ∅ q312_valid ltac:(done)).
Defined.

Lemma pqueue_dequeue_min_witness :
  valid cmpZ q312 [1; 3; 2]%Z ∧ [1; 3; 2]%Z ≠ [] ∧
  ∃ x q' h' s', pqueue_dequeue cmpZ (Some upd_map) q312 ∅ = Some (Some x, q', s') ∧
    valid cmpZ q' h' ∧ [1; 3; 2]%Z ≡ₚ x :: h' ∧ ∀ y, y ∈ [1; 3; 2]%Z → le cmpZ x y.
Proof.
  split; [exact q312_valid|]. split; [done|].
  exact (pqueue_dequeue_min cmpZ (Some upd_map) q312 _ ∅ q312_valid ltac:(done)).
Defined.

Lemma pqueue_remove_correct_witness :
  valid cmpZ q312 [1; 3; 2]%Z ∧ NoDup [1; 3; 2]%Z ∧
  ∃ q' h' s', pqueue_remove cmpZ (Some upd_map) 3%Z q312 ∅ = Some (q', s') ∧
    valid cmpZ q' h' ∧ h' ≡ₚ [1; 2]%Z.
Proof.
  assert (NoDup [1; 3; 2]%Z) as Hnd by (apply (bool_decide_unpack _); vm_compute; done).
  split; [exact q312_valid|]. split; [exact Hnd|].
  exact (pqueue_remove_correct cmpZ (Some upd_map) 3%Z q312 _ ∅ q312_valid Hnd).
Defined.

Lemma pqueue_sorts_witness :
  (Z.of_nat (length [5; 1; 4; 1; 3]%Z) < 2 ^ 28)%Z ∧
  ∃ q s1 xs q' s2,
    enqueue_all cmpZ (Some upd_map) [5; 1; 4; 1; 3]%Z pqueue_create ∅ = Some (q, s1) ∧
    dequeue_n cmpZ (Some upd_map) 5 q s1 = Some (Some <$> xs, q', s2) ∧
    xs ≡ₚ [5; 1; 4; 1; 3]%Z ∧ StronglySorted (le cmpZ) xs ∧ size q' = 0.
Proof.
  split; [done|]. exact (pqueue_sorts cmpZ (Some upd_map) [5; 1; 4; 1; 3]%Z ∅ ltac:(done)).
Defined.

Lemma pqueue_tracks_positions_witness :
  ∃ q s, pq_reach cmpZ (Some upd_map) ∅ q s ∧ 0 < size q ∧ array q !! 0 = Some (Some 7%Z) ∧
    pos_map s 7%Z = 0.
Proof.
  destruct (pqueue_enqueue cmpZ (Some upd_map) 7%Z pqueue_create ∅) as [[q s]|] eqn:E; [|discriminate].
  assert (pq_reach cmpZ (Some upd_map) ∅ q s) as Hr.
  { eapply reach_enqueue; [apply reach_create| | |exact E]; [|done].
    apply not_elem_of_nil. }
  assert (0 < size q ∧ array q !! 0 = Some (Some 7%Z)) as [Hs Ha].
  { vm_compute in E. injection E as <- <-. simpl. auto with lia. }
  exists q, s. split; [exact Hr|]. split; [exact Hs|]. split; [exact Ha|].
  exact (pqueue_tracks_positions cmpZ (Some upd_map) ∅ q s 0 7%Z Hr Hs Ha).
Defined.
