(* ===== verification/Thread.v ===== *)
(** * The event loop: lib/thread.c, lib/thread.h

    A thread master keeps tasks ("threads"): reads and writes by file descriptor,
    timers in a priority queue, events and ready tasks in lists, and finished ones
    in a list for reuse.  Threads live in [mem], told apart by their address; their
    field [index], written by the queue's callback, is the map [tindex]; the
    callers' variables that a thread's back reference points to are [refs].

    [None] as a result of an operation is a failed assertion, an access outside an
    array or through a null or dangling pointer.  Mutexes, condition variables and
    the wake-up pipe only matter between pthreads and are left out; a request
    posted by another pthread is in [cancel_reqs] when the owner looks.  Times,
    results of poll and its errors are inputs, one [poll_result] for each turn of
    the loop of [thread_fetch].  The record of run times is left out.

    Theorems: along all histories of calls that meet the assertions every thread is in exactly the place its type
    says, back references are right and nothing is lost ([thread_places]);
    cancelling takes out exactly that task ([thread_cancel_exact]);
    [thread_fetch] hands out tasks first come first served, events before timers
    before descriptors, due timers in the order of their times
    ([thread_fetch_order]); tearing the master down frees every thread exactly
    once ([thread_master_free_all]).  The examples at the end show requests that
    disturb each other, stale poll flags and calls that fail. *)
From stdpp Require Import prelude gmap list sorting.
From S2P Require Import Prelude.
From S2P Require Import PQueue.
Set Default Goal Selector "!".

Abbreviation tptr := nat.

Inductive ttype := THREAD_READ | THREAD_WRITE | THREAD_TIMER | THREAD_EVENT | THREAD_READY | THREAD_UNUSED | THREAD_EXECUTE.
#[export] Instance ttype_eq_dec : EqDecision ttype.
Proof. solve_decision. Defined.

Record timeval := TV { tv_sec : Z; tv_usec : Z }.

(** [timercmp(a, b, <)] *)
Definition timer_lt (a b : timeval) : bool :=
  if (tv_sec a =? tv_sec b)%Z then (tv_usec a <? tv_usec b)%Z else (tv_sec a <? tv_sec b)%Z.
Definition timeradd (a b : timeval) : timeval :=
  let s := (tv_sec a + tv_sec b)%Z in let us := (tv_usec a + tv_usec b)%Z in
  if (1000000 <=? us)%Z then TV (s + 1) (us - 1000000) else TV s us.
Definition timersub (a b : timeval) : timeval :=
  let s := (tv_sec a - tv_sec b)%Z in let us := (tv_usec a - tv_usec b)%Z in
  if (us <? 0)%Z then TV (s - 1) (us + 1000000) else TV s us.
Definition microseconds (t : timeval) : Z := (tv_sec t * 1000000 + tv_usec t)%Z.

(** [monotime_since] and [monotime_until] at time [now]. *)
Definition monotime_since (now ref : timeval) : Z := microseconds (timersub now ref).
Definition monotime_until (now ref : timeval) : Z := microseconds (timersub ref now).

Inductive uval := U_none | U_val (v : Z) | U_fd (fd : nat) | U_sands (t : timeval).

(** [func] and [arg] are addresses, 0 is the null pointer. *)
Record thread := Thread {
  type : ttype;
  add_type : ttype;
  ref : option nat;
  func : nat;
  arg : nat;
  u : uval;
}.

Definition sands (t : thread) : timeval := match u t with U_sands s => s | _ => TV 0 0 end.

Record pollfd := PollFd { fd : nat; events : Z; revents : Z }.

Definition POLLIN : Z := 1.
Definition POLLOUT : Z := 4.
Definition POLLHUP : Z := 16.
Definition POLLNVAL : Z := 32.

Record cancel_req := CancelReq { cr_thread : option tptr; cr_eventobj : nat; cr_threadref : option nat }.

Record thread_master := Master {
  fd_limit : nat;
  rd : list (option tptr);  (* thread_master.read *)
  wr : list (option tptr);  (* thread_master.write *)
  timer : pqueue tptr;
  event : list tptr;
  ready : list tptr;
  unuse : list tptr;
  alloc : Z;
  pfds : list pollfd;  (* pfdsize slots *)
  pfdcount : nat;
  copy : list pollfd;
  copycount : nat;
  cancel_reqs : list cancel_req;  (* thread_master.cancel_req *)
  canceled : bool;
  spin : bool;
  selectpoll_timeout : Z;
  mem : gmap tptr thread;  (* the threads *)
  tindex : gmap tptr Z;  (* the field index of the threads *)
  refs : gmap nat (option tptr);  (* the callers' variables of type struct thread * *)
  fresh : tptr;
}.

Definition set_rd (rd' : list (option tptr)) (m : thread_master) : thread_master :=
  Master (fd_limit m) rd' (wr m) (timer m) (event m) (ready m) (unuse m) (alloc m) (pfds m) (pfdcount m) (copy m) (copycount m) (cancel_reqs m) (canceled m) (spin m) (selectpoll_timeout m) (mem m) (tindex m) (refs m) (fresh m).
Definition set_wr (wr' : list (option tptr)) (m : thread_master) : thread_master :=
  Master (fd_limit m) (rd m) wr' (timer m) (event m) (ready m) (unuse m) (alloc m) (pfds m) (pfdcount m) (copy m) (copycount m) (cancel_reqs m) (canceled m) (spin m) (selectpoll_timeout m) (mem m) (tindex m) (refs m) (fresh m).
Definition set_timer (timer' : pqueue tptr) (tindex' : gmap tptr Z) (m : thread_master) : thread_master :=
  Master (fd_limit m) (rd m) (wr m) timer' (event m) (ready m) (unuse m) (alloc m) (pfds m) (pfdcount m) (copy m) (copycount m) (cancel_reqs m) (canceled m) (spin m) (selectpoll_timeout m) (mem m) tindex' (refs m) (fresh m).
Definition set_event (event' : list tptr) (m : thread_master) : thread_master :=
  Master (fd_limit m) (rd m) (wr m) (timer m) event' (ready m) (unuse m) (alloc m) (pfds m) (pfdcount m) (copy m) (copycount m) (cancel_reqs m) (canceled m) (spin m) (selectpoll_timeout m) (mem m) (tindex m) (refs m) (fresh m).
Definition set_ready (ready' : list tptr) (m : thread_master) : thread_master :=
  Master (fd_limit m) (rd m) (wr m) (timer m) (event m) ready' (unuse m) (alloc m) (pfds m) (pfdcount m) (copy m) (copycount m) (cancel_reqs m) (canceled m) (spin m) (selectpoll_timeout m) (mem m) (tindex m) (refs m) (fresh m).
Definition set_unuse (unuse' : list tptr) (m : thread_master) : thread_master :=
  Master (fd_limit m) (rd m) (wr m) (timer m) (event m) (ready m) unuse' (alloc m) (pfds m) (pfdcount m) (copy m) (copycount m) (cancel_reqs m) (canceled m) (spin m) (selectpoll_timeout m) (mem m) (tindex m) (refs m) (fresh m).
Definition set_pfds (pfds' : list pollfd) (pfdcount' : nat) (m : thread_master) : thread_master :=
  Master (fd_limit m) (rd m) (wr m) (timer m) (event m) (ready m) (unuse m) (alloc m) pfds' pfdcount' (copy m) (copycount m) (cancel_reqs m) (canceled m) (spin m) (selectpoll_timeout m) (mem m) (tindex m) (refs m) (fresh m).
Definition set_copy (copy' : list pollfd) (copycount' : nat) (m : thread_master) : thread_master :=
  Master (fd_limit m) (rd m) (wr m) (timer m) (event m) (ready m) (unuse m) (alloc m) (pfds m) (pfdcount m) copy' copycount' (cancel_reqs m) (canceled m) (spin m) (selectpoll_timeout m) (mem m) (tindex m) (refs m) (fresh m).
Definition set_cancel (cancel_reqs' : list cancel_req) (canceled' : bool) (m : thread_master) : thread_master :=
  Master (fd_limit m) (rd m) (wr m) (timer m) (event m) (ready m) (unuse m) (alloc m) (pfds m) (pfdcount m) (copy m) (copycount m) cancel_reqs' canceled' (spin m) (selectpoll_timeout m) (mem m) (tindex m) (refs m) (fresh m).
Definition set_mem (mem' : gmap tptr thread) (m : thread_master) : thread_master :=
  Master (fd_limit m) (rd m) (wr m) (timer m) (event m) (ready m) (unuse m) (alloc m) (pfds m) (pfdcount m) (copy m) (copycount m) (cancel_reqs m) (canceled m) (spin m) (selectpoll_timeout m) mem' (tindex m) (refs m) (fresh m).
Definition set_refs (refs' : gmap nat (option tptr)) (m : thread_master) : thread_master :=
  Master (fd_limit m) (rd m) (wr m) (timer m) (event m) (ready m) (unuse m) (alloc m) (pfds m) (pfdcount m) (copy m) (copycount m) (cancel_reqs m) (canceled m) (spin m) (selectpoll_timeout m) (mem m) (tindex m) refs' (fresh m).
Definition set_alloc (alloc' : Z) (m : thread_master) : thread_master :=
  Master (fd_limit m) (rd m) (wr m) (timer m) (event m) (ready m) (unuse m) alloc' (pfds m) (pfdcount m) (copy m) (copycount m) (cancel_reqs m) (canceled m) (spin m) (selectpoll_timeout m) (mem m) (tindex m) (refs m) (fresh m).
Definition set_tindex (tindex' : gmap tptr Z) (m : thread_master) : thread_master :=
  Master (fd_limit m) (rd m) (wr m) (timer m) (event m) (ready m) (unuse m) (alloc m) (pfds m) (pfdcount m) (copy m) (copycount m) (cancel_reqs m) (canceled m) (spin m) (selectpoll_timeout m) (mem m) tindex' (refs m) (fresh m).
Definition set_fresh (fresh' : tptr) (m : thread_master) : thread_master :=
  Master (fd_limit m) (rd m) (wr m) (timer m) (event m) (ready m) (unuse m) (alloc m) (pfds m) (pfdcount m) (copy m) (copycount m) (cancel_reqs m) (canceled m) (spin m) (selectpoll_timeout m) (mem m) (tindex m) (refs m) fresh'.

(** [thread_timer_cmp]: the order of the timer queue. *)
Definition time_of (mem : gmap tptr thread) (p : tptr) : timeval := from_option sands (TV 0 0) (mem !! p).
Definition thread_timer_cmp (mem : gmap tptr thread) (a b : tptr) : Z :=
  if timer_lt (time_of mem a) (time_of mem b) then -1
  else if timer_lt (time_of mem b) (time_of mem a) then 1 else 0.

Definition thread_timer_update (node : tptr) (actual_position : nat) (ix : gmap tptr Z) : gmap tptr Z :=
  <[node := Z.of_nat actual_position]> ix.

Definition thread_master_create (limit : nat) (vars : gmap nat (option tptr)) : thread_master :=
  Master limit (replicate limit None) (replicate limit None) pqueue_create [] [] [] 0
    (replicate limit (PollFd 0 0 0)) 0 (replicate limit (PollFd 0 0 0)) 0 [] true true 0 ∅ ∅ vars 0.

(** ** Getting and giving back threads *)

Definition THREAD_UNUSED_DEPTH : nat := 10.

Definition thread_free (m : thread_master) (p : tptr) : option thread_master :=
  _ ← mem m !! p;
  if decide (0 < alloc m)%Z then
    Some (set_alloc (alloc m - 1) (set_tindex (delete p (tindex m)) (set_mem (delete p (mem m)) m)))
  else None.

Definition unused : thread := Thread THREAD_UNUSED THREAD_READ None 0 0 U_none.

Definition thread_add_unuse (m : thread_master) (p : tptr) : option thread_master :=
  _ ← mem m !! p;
  let m := set_tindex (<[p := 0%Z]> (tindex m)) (set_mem (<[p := unused]> (mem m)) m) in
  if decide (length (unuse m) < THREAD_UNUSED_DEPTH) then Some (set_unuse (unuse m ++ [p]) m)
  else thread_free m p.

Definition thread_get (m : thread_master) (ty : ttype) (f a : nat) : tptr * thread_master :=
  let '(p, m) :=
    match unuse m with
    | p :: rest => (p, set_unuse rest m)
    | [] => (fresh m, set_alloc (alloc m + 1) (set_fresh (S (fresh m)) m))
    end in
  (p, set_tindex (<[p := (-1)%Z]> (tindex m)) (set_mem (<[p := Thread ty ty None f a U_none]> (mem m)) m)).

(** [*ref = v]; the variable has to exist. *)
Definition set_ref (r : nat) (v : option tptr) (m : thread_master) : option thread_master :=
  _ ← refs m !! r; Some (set_refs (<[r := v]> (refs m)) m).

(** [if (thread->ref) *thread->ref = NULL] *)
Definition clear_ref (t : thread) (m : thread_master) : option thread_master :=
  match ref t with Some r => set_ref r None m | None => Some m end.

(** Store [uv] in the new thread's union and tie it to the caller's variable. *)
Definition set_u (p : tptr) (uv : uval) (m : thread_master) : option thread_master :=
  t ← mem m !! p;
  Some (set_mem (<[p := Thread (type t) (add_type t) (ref t) (func t) (arg t) uv]> (mem m)) m).
Definition tie (p : tptr) (t_ptr : option nat) (m : thread_master) : option thread_master :=
  match t_ptr with
  | None => Some m
  | Some r =>
      m ← set_ref r (Some p) m;
      t ← mem m !! p;
      Some (set_mem (<[p := Thread (type t) (add_type t) (Some r) (func t) (arg t) (u t)]> (mem m)) m)
  end.

(** [t_ptr && *t_ptr] *)
Definition scheduled (m : thread_master) (t_ptr : option nat) : option bool :=
  match t_ptr with None => Some false | Some r => v ← refs m !! r; Some (bool_decide (v ≠ None)) end.

(** ** Adding tasks *)

Fixpoint find_pollfd (l : list pollfd) (n i : nat) (f : nat) : nat :=
  match l, n with
  | pf :: l, S n => if decide (fd pf = f) then i else find_pollfd l n (S i) f
  | _, _ => i
  end.

Definition funcname_thread_add_read_write (write : bool) (m : thread_master) (f a : nat) (zfd : Z) (t_ptr : option nat) :
    option (option tptr * thread_master) :=
  if decide (0 ≤ zfd < Z.of_nat (fd_limit m))%Z then
    let n := Z.to_nat zfd in
    already ← scheduled m t_ptr;
    if (already : bool) then Some (None, m)
    else
      let queuepos := find_pollfd (pfds m) (pfdcount m) 0 n in
      if decide (queuepos + 1 < length (pfds m)) then
        let '(p, m) := thread_get m (if write then THREAD_WRITE else THREAD_READ) f a in
        pf ← pfds m !! queuepos;
        let m := set_pfds (<[queuepos := PollFd n (Z.lor (events pf) (if write then POLLOUT else POLLIN)) (revents pf)]> (pfds m))
                          (if decide (queuepos = pfdcount m) then S (pfdcount m) else pfdcount m) m in
        m ← set_u p (U_fd n) m;
        m ← (if write then a ← Prelude.write (wr m) n (Some p); Some (set_wr a m)
             else a ← Prelude.write (rd m) n (Some p); Some (set_rd a m));
        m ← tie p t_ptr m;
        Some (Some p, m)
      else None
  else None.

Definition funcname_thread_add_timer_timeval (now : timeval) (m : thread_master) (f a : nat) (rel : timeval) (t_ptr : option nat) :
    option (option tptr * thread_master) :=
  already ← scheduled m t_ptr;
  if (already : bool) then Some (None, m)
  else
    let '(p, m) := thread_get m THREAD_TIMER f a in
    m ← set_u p (U_sands (timeradd now rel)) m;
    '(q, ix) ← pqueue_enqueue (thread_timer_cmp (mem m)) (Some thread_timer_update) p (timer m) (tindex m);
    m ← tie p t_ptr (set_timer q ix m);
    Some (Some p, m).

Definition funcname_thread_add_timer (now : timeval) (m : thread_master) (f a : nat) (secs : Z) (t_ptr : option nat) :=
  funcname_thread_add_timer_timeval now m f a (TV secs 0) t_ptr.
(** C's division and remainder truncate towards zero. *)
Definition funcname_thread_add_timer_msec (now : timeval) (m : thread_master) (f a : nat) (msecs : Z) (t_ptr : option nat) :=
  funcname_thread_add_timer_timeval now m f a (TV (Z.quot msecs 1000) (1000 * Z.rem msecs 1000)) t_ptr.
Definition funcname_thread_add_timer_tv (now : timeval) (m : thread_master) (f a : nat) (tv : timeval) (t_ptr : option nat) :=
  funcname_thread_add_timer_timeval now m f a tv t_ptr.

Definition funcname_thread_add_event (m : thread_master) (f a : nat) (val : Z) (t_ptr : option nat) : option (option tptr * thread_master) :=
  already ← scheduled m t_ptr;
  if (already : bool) then Some (None, m)
  else
    let '(p, m) := thread_get m THREAD_EVENT f a in
    m ← set_u p (U_val val) m;
    m ← tie p t_ptr (set_event (event m ++ [p]) m);
    Some (Some p, m).

(** ** Cancelling *)

(** [memmove] of the [n] slots of [l] from [i + 1] on down to [i]; the slot after
    them keeps what it had. *)
Definition delete_pollfd (l : list pollfd) (i count : nat) : list pollfd :=
  take i l ++ take (count - i - 1) (drop (S i) l) ++ drop (count - 1) l.

(** [events &= ~state] *)
Definition drop_events (state : Z) (pf : pollfd) : pollfd := PollFd (fd pf) (Z.ldiff (events pf) state) (revents pf).

Definition thread_cancel_rw (m : thread_master) (n : nat) (state : Z) : option thread_master :=
  let state := Z.lor state POLLHUP in
  let i := find_pollfd (pfds m) (pfdcount m) 0 n in
  if decide (i = pfdcount m) then Some m   (* a message is printed *)
  else
    pf ← pfds m !! i;
    let l := <[i := drop_events state pf]> (pfds m) in
    let m := if (events (drop_events state pf) =? 0)%Z
             then set_pfds (delete_pollfd l i (pfdcount m)) (pfdcount m - 1) m
             else set_pfds l (pfdcount m) m in
    if decide (copycount m ≤ i) then Some m
    else
      cf ← copy m !! i;
      let l := <[i := drop_events state cf]> (copy m) in
      if (events (drop_events state cf) =? 0)%Z
      then Some (set_copy (delete_pollfd l i (copycount m)) (copycount m - 1) m)
      else Some (set_copy l (copycount m) m).

(** [thread_list_del] *)
Definition thread_list_del (l : list tptr) (p : tptr) : option (list tptr) :=
  if decide (p ∈ l) then Some (filter (.≠ p) l) else None.

(** The walks over the event and the ready list for one [eventobj]. *)
Fixpoint cancel_events (which : bool) (l : list tptr) (obj : nat) (m : thread_master) : option thread_master :=
  match l with
  | [] => Some m
  | p :: l =>
      t ← mem m !! p;
      if decide (arg t = obj) then
        m ← (if which then l' ← thread_list_del (ready m) p; Some (set_ready l' m)
             else l' ← thread_list_del (event m) p; Some (set_event l' m));
        m ← clear_ref t m;
        m ← thread_add_unuse m p;
        cancel_events which l obj m
      else cancel_events which l obj m
  end.

(** The variables [list], [queue] and [thread_array] of [do_thread_cancel]: they
    are set by one request and still set for the next. *)
Record chosen := Chosen { c_list : option bool; c_queue : bool; c_array : option bool }.

(** One request that names a thread. *)
Definition cancel_thread (c : chosen) (p : tptr) (m : thread_master) : option (chosen * thread_master) :=
  t ← mem m !! p;
  sel ← match type t, u t with
        | THREAD_READ, U_fd n => m ← thread_cancel_rw m n POLLIN; Some (Some (Chosen (c_list c) (c_queue c) (Some false), m))
        | THREAD_WRITE, U_fd n => m ← thread_cancel_rw m n POLLOUT; Some (Some (Chosen (c_list c) (c_queue c) (Some true), m))
        | THREAD_TIMER, _ => Some (Some (Chosen (c_list c) true (c_array c), m))
        | THREAD_EVENT, _ => Some (Some (Chosen (Some false) (c_queue c) (c_array c), m))
        | THREAD_READY, _ => Some (Some (Chosen (Some true) (c_queue c) (c_array c), m))
        | THREAD_READ, _ | THREAD_WRITE, _ => None
        | _, _ => Some None
        end;
  match sel with
  | None => Some (c, m)                      (* default: continue *)
  | Some (c, m) =>
      m ← (if c_queue c then
             i ← tindex m !! p;
             x ← (if (0 <=? i)%Z then array (timer m) !! Z.to_nat i else None);
             if decide (x = Some p) then
               '(q, ix) ← pqueue_remove_at (thread_timer_cmp (mem m)) (Some thread_timer_update) (Z.to_nat i) (timer m) (tindex m);
               Some (set_timer q ix m)
             else None
           else
             match c_list c, c_array c with
             | Some true, _ => l ← thread_list_del (ready m) p; Some (set_ready l m)
             | Some false, _ => l ← thread_list_del (event m) p; Some (set_event l m)
             | None, Some w =>
                 match u t with
                 | U_fd n => if w then a ← Prelude.write (wr m) n None; Some (set_wr a m)
                             else a ← Prelude.write (rd m) n None; Some (set_rd a m)
                 | _ => None
                 end
             | None, None => None
             end);
      m ← clear_ref t m;
      m ← thread_add_unuse m p;
      Some (c, m)
  end.

Fixpoint cancel_loop (c : chosen) (reqs : list cancel_req) (m : thread_master) : option thread_master :=
  match reqs with
  | [] => Some m
  | cr :: reqs =>
      if decide (cr_eventobj cr ≠ 0) then
        m ← cancel_events false (event m) (cr_eventobj cr) m;
        m ← cancel_events true (ready m) (cr_eventobj cr) m;
        cancel_loop c reqs m
      else
        p ← (match cr_thread cr with Some p => Some (Some p) | None => r ← cr_threadref cr; refs m !! r end);
        match p with
        | None => cancel_loop c reqs m
        | Some p => '(c, m) ← cancel_thread c p m; cancel_loop c reqs m
        end
  end.

Definition do_thread_cancel (m : thread_master) : option thread_master :=
  m ← cancel_loop (Chosen None false None) (cancel_reqs m) m;
  Some (set_cancel [] true m).

Definition post (cr : cancel_req) (done : bool) (m : thread_master) : thread_master :=
  set_cancel (cancel_reqs m ++ [cr]) done m.

Definition thread_cancel_event (m : thread_master) (a : nat) : option thread_master :=
  do_thread_cancel (post (CancelReq None a None) (canceled m) m).

Definition thread_cancel (m : thread_master) (p : tptr) : option thread_master :=
  do_thread_cancel (post (CancelReq (Some p) 0 None) (canceled m) m).

(** What another pthread leaves before it waits for [canceled]. *)
Definition thread_cancel_async (m : thread_master) (var : option nat) (obj : nat) : option thread_master :=
  match var with
  | Some r => if decide (obj = 0) then Some (post (CancelReq None 0 (Some r)) false m) else None
  | None => if decide (obj = 0) then None else Some (post (CancelReq None obj None) false m)
  end.

(** ** Fetching the next task *)

Definition thread_timer_wait (now : timeval) (m : thread_master) : option (option timeval) :=
  if decide (size (timer m) = 0) then Some None
  else p ← node_at (array (timer m)) 0; t ← mem m !! p; Some (Some (timersub (sands t) now)).

(** [*fetch = *thread] *)
Definition thread_run (m : thread_master) (p : tptr) : option (thread * thread_master) :=
  t ← mem m !! p; m ← thread_add_unuse m p; Some (t, m).

Definition ready_type (t : thread) : thread := Thread THREAD_READY (add_type t) (ref t) (func t) (arg t) (u t).

(** [thread->type = THREAD_READY] and to the end of the ready list. *)
Definition make_ready (m : thread_master) (p : tptr) : option thread_master :=
  t ← mem m !! p; Some (set_ready (ready m ++ [p]) (set_mem (<[p := ready_type t]> (mem m)) m)).

Definition thread_process_io_helper (m : thread_master) (p : option tptr) (state : Z) (pos : nat) : option thread_master :=
  pf ← pfds m !! pos;
  let m := set_pfds (<[pos := drop_events state pf]> (pfds m)) (pfdcount m) m in
  match p with
  | None => Some m
  | Some p =>
      t ← mem m !! p;
      n ← match u t with U_fd n => Some n | _ => None end;
      m ← (if decide (type t = THREAD_READ) then a ← Prelude.write (rd m) n None; Some (set_rd a m)
           else a ← Prelude.write (wr m) n None; Some (set_wr a m));
      make_ready m p
  end.

(** [for (i = 0; i < copycount && ready < num; ++i)]; a garbage descriptor is
    taken out of both arrays and [i] stays. *)
Fixpoint process_io_loop (fuel : nat) (m : thread_master) (num i nready : nat) : option thread_master :=
  if decide (i < copycount m ∧ nready < num) then
    match fuel with
    | 0 => None
    | S fuel =>
        cf ← copy m !! i;
        if (revents cf =? 0)%Z then process_io_loop fuel m num (S i) nready
        else
          m ← (if (Z.land (revents cf) (Z.lor POLLIN POLLHUP) =? 0)%Z then Some m
               else p ← rd m !! fd cf; thread_process_io_helper m p POLLIN i);
          m ← (if (Z.land (revents cf) POLLOUT =? 0)%Z then Some m
               else p ← wr m !! fd cf; thread_process_io_helper m p POLLOUT i);
          if (Z.land (revents cf) POLLNVAL =? 0)%Z then process_io_loop fuel m num (S i) (S nready)
          else
            let m := set_pfds (delete_pollfd (pfds m) i (pfdcount m)) (pfdcount m - 1) m in
            let m := set_copy (delete_pollfd (copy m) i (copycount m)) (copycount m - 1) m in
            process_io_loop fuel m num i (S nready)
    end
  else Some m.

Definition thread_process_io (m : thread_master) (num : nat) : option thread_master :=
  process_io_loop (copycount m) m num 0 0.

Fixpoint process_timers_loop (fuel : nat) (timenow : timeval) (m : thread_master) : option thread_master :=
  match fuel with
  | 0 => Some m
  | S fuel =>
      if decide (size (timer m) = 0) then Some m
      else
        p ← node_at (array (timer m)) 0;
        t ← mem m !! p;
        if timer_lt timenow (sands t) then Some m
        else
          '(_, q, ix) ← pqueue_dequeue (thread_timer_cmp (mem m)) (Some thread_timer_update) (timer m) (tindex m);
          m ← make_ready (set_timer q ix m) p;
          process_timers_loop fuel timenow m
  end.
Definition thread_process_timers (timenow : timeval) (m : thread_master) : option thread_master :=
  process_timers_loop (size (timer m)) timenow m.

(** [thread_process(&m->event)] *)
Fixpoint process_loop (l : list tptr) (m : thread_master) : option thread_master :=
  match l with
  | [] => Some m
  | p :: l => m ← make_ready (set_event l m) p; process_loop l m
  end.
Definition thread_process (m : thread_master) : option thread_master := process_loop (event m) m.

(** What a turn of the loop sees: the time when the wait is computed, the result
    of poll ([inl] an error, true for EINTR; [inr] the revents of each descriptor)
    and the time after it. *)
Record poll_result := Poll { before : timeval; outcome : bool + (nat → Z); after : timeval }.

(** The timeout passed to poll, -1 is to wait without limit. *)
Definition fd_poll_timeout (m : thread_master) (timer_wait : option timeval) : Z :=
  match timer_wait with
  | Some w => if (selectpoll_timeout m =? 0)%Z then (tv_sec w * 1000 + Z.quot (tv_usec w) 1000)%Z
              else if (0 <? selectpoll_timeout m)%Z then selectpoll_timeout m else 0%Z
  | None => if (0 <? selectpoll_timeout m)%Z then selectpoll_timeout m
            else if (selectpoll_timeout m <? 0)%Z then 0%Z else (-1)%Z
  end.

(** [fd_poll] with what poll does, an error or a report of [kernel n] for each
    descriptor [n]: one slot more than the count is needed for the pipe, whose
    entry is left out. *)
Definition set_revents (kernel : nat → Z) (pf : pollfd) : pollfd := PollFd (fd pf) (events pf) (kernel (fd pf)).
Definition fd_poll (m : thread_master) (outcome : bool + (nat → Z)) : option ((bool + nat) * thread_master) :=
  if decide (copycount m + 1 < length (copy m)) then
    match outcome with
    | inl eintr => Some (inl eintr, m)
    | inr kernel =>
        let polled := map (set_revents kernel) (take (copycount m) (copy m)) in
        Some (inr (length (filter (λ pf, revents pf ≠ 0%Z) polled)), set_copy (polled ++ drop (copycount m) (copy m)) (copycount m) m)
    end
  else None.

(** A task; the null pointer; the caller's buffer as it was; still waiting. *)
Inductive fetched := Task (t : thread) | Nothing | Untouched | Waiting.

(** [tw] after the two tests: no wait, a wait of zero, or the time to the first
    timer. *)
Definition wait_time (now : timeval) (m : thread_master) : option (option timeval) :=
  tw ← (if decide (ready m = []) then thread_timer_wait now m else Some None);
  Some (if decide (ready m ≠ []) then Some (TV 0 0)
        else match tw with
             | Some w => if timer_lt (TV 0 0) w then Some w else Some (TV 0 0)
             | None => None
             end).

Fixpoint thread_fetch (env : list poll_result) (m : thread_master) : option (fetched * thread_master) :=
  m ← do_thread_cancel m;
  match ready m with
  | p :: rest =>
      '(t, m) ← thread_run (set_ready rest m) p;
      m ← clear_ref t m;
      Some (Task t, m)
  | [] =>
      match env with
      | [] => Some (Waiting, m)
      | e :: env =>
          m ← thread_process m;
          tw ← wait_time (before e) m;
          if decide (tw = None ∧ pfdcount m = 0) then Some (Nothing, m)
          else
            let m := set_copy (take (pfdcount m) (pfds m) ++ drop (pfdcount m) (copy m)) (pfdcount m) m in
            '(num, m) ← fd_poll m (outcome e);
            match num with
            | inl true => if spin m then thread_fetch env m else Some (Untouched, m)
            | inl false => Some (Nothing, m)
            | inr num =>
                m ← thread_process_timers (after e) m;
                m ← (if decide (0 < num) then thread_process_io m num else Some m);
                if spin m then thread_fetch env m else Some (Untouched, m)
            end
      end
  end.

(** ** Small accessors *)

Definition thread_timer_remain_msec (now : timeval) (t : thread) : Z :=
  let remain := Z.quot (monotime_until now (sands t)) 1000 in if (remain <? 0)%Z then 0 else remain.
Definition thread_timer_remain_second (now : timeval) (t : thread) : Z := (thread_timer_remain_msec now t / 1000)%Z.
Definition thread_timer_remain (now : timeval) (t : thread) : timeval := timersub (sands t) now.
Definition thread_should_yield (now real : timeval) (yield : Z) : bool := (yield <? monotime_since now real)%Z.

(** [call] is what the task's function does to the master and [self] the address
    of the local variable [thread], to which the task's reference points; it is
    read again after the call and gone when the function returns. *)
Definition funcname_thread_execute (call : thread → thread_master → option thread_master) (self : nat) (m : thread_master) (f a : nat) (val : Z) :
    option thread_master :=
  let '(p, m) := thread_get m THREAD_EVENT f a in
  let t := Thread THREAD_EVENT THREAD_EXECUTE (Some self) f a (U_val val) in
  m ← call t (set_refs (<[self := Some p]> (refs m)) (set_mem (<[p := t]> (mem m)) m));
  p ← refs m !! self;
  p ← p;
  m ← thread_add_unuse m p;
  Some (set_refs (delete self (refs m)) m).

(** ** Tearing down *)

(** [while ((t = thread_list_pop(list))) thread_free(m, t)] *)
Fixpoint free_all (l : list tptr) (m : thread_master) : option thread_master :=
  match l with [] => Some m | p :: l => m ← thread_free m p; free_all l m end.

Definition thread_master_free_unused (m : thread_master) : option thread_master :=
  let l := unuse m in free_all l (set_unuse [] m).

(** One array: [i] counts the slots of [fd_limit] that are left. *)
Fixpoint array_free (i : nat) (a : list (option tptr)) (m : thread_master) : option thread_master :=
  match i, a with
  | 0, _ => Some m
  | S _, [] => None
  | S i, o :: a => m ← match o with Some p => thread_free m p | None => Some m end; array_free i a m
  end.
Definition thread_array_free (m : thread_master) (a : list (option tptr)) : option thread_master := array_free (fd_limit m) a m.

Definition thread_queue_free (m : thread_master) (q : pqueue tptr) : option thread_master :=
  foldl (λ m i, m ← m; p ← node_at (array q) i; thread_free m p) (Some m) (seq 0 (size q)).

(** [thread_master_free], up to the memory of the master itself. *)
Definition thread_master_free (m : thread_master) : option thread_master :=
  m ← thread_array_free m (rd m);
  m ← thread_array_free m (wr m);
  m ← thread_queue_free m (timer m);
  m ← free_all (event m) m;
  m ← free_all (ready m) m;
  free_all (unuse m) m.

(** ** The order of the timers *)

Lemma timer_lt_spec a b : timer_lt a b = true ↔ (tv_sec a < tv_sec b ∨ tv_sec a = tv_sec b ∧ tv_usec a < tv_usec b)%Z.
Proof. unfold timer_lt. destruct (Z.eqb_spec (tv_sec a) (tv_sec b)); rewrite Z.ltb_lt; lia. Qed.

Definition time_le (a b : timeval) : Prop := (tv_sec a < tv_sec b ∨ tv_sec a = tv_sec b ∧ tv_usec a ≤ tv_usec b)%Z.

Lemma timer_ge a b : timer_lt a b = false ↔ time_le b a.
Proof. rewrite <- not_true_iff_false, timer_lt_spec. unfold time_le. lia. Qed.

Lemma cmp_le mem a b : le (thread_timer_cmp mem) a b ↔ time_le (time_of mem a) (time_of mem b).
Proof.
  unfold le, thread_timer_cmp. destruct (timer_lt (time_of mem a) (time_of mem b)) eqn:E1.
  - apply timer_lt_spec in E1. unfold time_le. split; lia.
  - destruct (timer_lt (time_of mem b) (time_of mem a)) eqn:E2.
    + apply timer_lt_spec in E2. unfold time_le. split; lia.
    + apply timer_ge in E2. split; [done|lia].
Qed.

#[export] Instance timer_order mem : CmpOrder (thread_timer_cmp mem).
Proof.
  split.
  - intros a b c. rewrite !cmp_le. unfold time_le. lia.
  - intros a b. unfold thread_timer_cmp.
    destruct (timer_lt (time_of mem a) (time_of mem b)) eqn:E1, (timer_lt (time_of mem b) (time_of mem a)) eqn:E2;
      rewrite ?timer_lt_spec in *; lia.
Qed.

(** The order only looks at the times of the queued threads. *)
Lemma valid_times mem mem' q h : valid (thread_timer_cmp mem) q h →
  (∀ p, p ∈ h → time_of mem' p = time_of mem p) → valid (thread_timer_cmp mem') q h.
Proof.
  intros [Hh Hheap] Heq. split; [done|]. intros k x y Hk Hx Hy. apply cmp_le.
  rewrite !Heq by (by eapply list_elem_of_lookup_2). apply cmp_le. by apply (Hheap k).
Qed.

(** The callback records positions: two ways to read a missing one. *)
Definition pos_or (d : nat) (ix : gmap tptr Z) (p : tptr) : nat :=
  match ix !! p with Some z => if (z <? 0)%Z then d else Z.to_nat z | None => d end.
#[export] Instance pos_or_tracks d : Tracks (Some thread_timer_update) (pos_or d).
Proof.
  split.
  - intros x i ix. unfold notify, thread_timer_update, pos_or. rewrite lookup_insert_eq.
    destruct (Z.ltb_spec (Z.of_nat i) 0); lia.
  - intros x y i ix Hne. unfold notify, thread_timer_update, pos_or. by rewrite lookup_insert_ne.
Qed.

Definition indexed (h : list tptr) (ix : gmap tptr Z) : Prop := ∀ k p, h !! k = Some p → ix !! p = Some (Z.of_nat k).

Lemma indexed_tracked h ix : indexed h ix ↔ tracked (pos_or 0) h ix ∧ tracked (pos_or 1) h ix.
Proof.
  split.
  - intros H. split; intros k p Hk; unfold pos_or; rewrite (H k p Hk); (destruct (Z.ltb_spec (Z.of_nat k) 0); lia).
  - intros [H0 H1] k p Hk. specialize (H0 k p Hk). specialize (H1 k p Hk). unfold pos_or in *.
    destruct (ix !! p) as [z|]; [|congruence]. destruct (Z.ltb_spec z 0); [congruence|]. f_equal. lia.
Qed.

(** ** Every thread in its place *)

(** [p] is in the place for type [ty]; the timer queue holds the threads [h]. *)
Definition at_place (m : thread_master) (h : list tptr) (ty : ttype) (p : tptr) : Prop :=
  match ty with
  | THREAD_READ => Some p ∈ rd m
  | THREAD_WRITE => Some p ∈ wr m
  | THREAD_TIMER => p ∈ h
  | THREAD_EVENT => p ∈ event m
  | THREAD_READY => p ∈ ready m
  | THREAD_UNUSED => p ∈ unuse m
  | THREAD_EXECUTE => False
  end.

(** Every thread, but for one on its way from one place to the next ([hole]), is
    in the place its type says and in no other. *)
Definition placed (hole : option tptr) (m : thread_master) (h : list tptr) : Prop :=
  ∀ q ty, at_place m h ty q ↔ hole ≠ Some q ∧ ∃ t, mem m !! q = Some t ∧ type t = ty.

Definition lists_nodup (m : thread_master) (h : list tptr) : Prop :=
  NoDup h ∧ NoDup (event m) ∧ NoDup (ready m) ∧ NoDup (unuse m).

(** The arrays have their size and the pollfds in use are of valid descriptors. *)
Record arrays_ok (m : thread_master) : Prop := ArraysOk {
  a_rd : length (rd m) = fd_limit m;
  a_wr : length (wr m) = fd_limit m;
  a_pfds : length (pfds m) = fd_limit m;
  a_copy : length (copy m) = fd_limit m;
  a_count : pfdcount m ≤ fd_limit m;
  a_copycount : copycount m ≤ fd_limit m;
  a_range : Forall (λ pf, fd pf < fd_limit m) (take (pfdcount m) (pfds m)) }.

Ltac keep_arrays := match goal with H : arrays_ok _ |- arrays_ok _ => destruct H; by split end.

Section places.
Context {R : list cancel_req}.

(** All of it; [R] are the requests that wait. *)
Record inv (hole : option tptr) (m : thread_master) (h : list tptr) : Prop := Inv {
  i_at : placed hole m h;
  i_fd : ∀ q n, rd m !! n = Some (Some q) ∨ wr m !! n = Some (Some q) → u <$> mem m !! q = Some (U_fd n);
  i_nodup : lists_nodup m h;
  i_timer : valid (thread_timer_cmp (mem m)) (timer m) h;
  i_index : indexed h (tindex m);
  i_ref : ∀ q r, (∃ t, mem m !! q = Some t ∧ ref t = Some r) ↔ refs m !! r = Some (Some q);
  i_unused : ∀ q t, mem m !! q = Some t → type t = THREAD_UNUSED → ref t = None;
  i_alloc : alloc m = Z.of_nat (stdpp.base.size (mem m));
  i_depth : length (unuse m) ≤ THREAD_UNUSED_DEPTH;
  i_fresh : ∀ q, is_Some (mem m !! q) → q < fresh m;
  i_arrays : arrays_ok m;
  i_cancel : cancel_reqs m = R }.

(** One thread changes: the others stay where they are. *)
Lemma placed_step hole hole' m m' h h' p t' : placed hole m h → mem m' = <[p := t']> (mem m) →
  (∀ q, q ≠ p → hole = Some q ↔ hole' = Some q) →
  (∀ q ty, q ≠ p → at_place m' h' ty q ↔ at_place m h ty q) →
  (∀ ty, at_place m' h' ty p ↔ hole' ≠ Some p ∧ ty = type t') →
  placed hole' m' h'.
Proof.
  intros Hpl Hmem Hhole Hother Hp q ty. rewrite Hmem. destruct (decide (q = p)) as [->|Hne].
  - rewrite Hp, lookup_insert_eq. split; [intros [? ->]; eauto|]. intros (? & t & [= <-] & <-). done.
  - rewrite (Hother q ty Hne), (Hpl q ty), lookup_insert_ne by done. by rewrite (Hhole q Hne).
Qed.

Lemma not_hole hole m h p ty : placed hole m h → hole = Some p → ¬ at_place m h ty p.
Proof. intros Hpl -> [H _]%Hpl. done. Qed.

(** The thread that is nowhere is in none of the containers. *)
Lemma hole_nowhere m h p : placed (Some p) m h →
  (∀ n, rd m !! n ≠ Some (Some p)) ∧ (∀ n, wr m !! n ≠ Some (Some p)) ∧ (p ∉ h) ∧ (p ∉ event m) ∧ (p ∉ ready m) ∧ p ∉ unuse m.
Proof.
  intros Hpl. pose proof (λ ty, not_hole _ m h p ty Hpl eq_refl) as H. split_and!.
  - intros n Hn. apply (H THREAD_READ). by eapply list_elem_of_lookup_2.
  - intros n Hn. apply (H THREAD_WRITE). by eapply list_elem_of_lookup_2.
  - apply (H THREAD_TIMER).
  - apply (H THREAD_EVENT).
  - apply (H THREAD_READY).
  - apply (H THREAD_UNUSED).
Qed.

(** Changing the thread that is nowhere, without its reference. *)
Lemma hole_change m h p t t' : inv (Some p) m h → mem m !! p = Some t → ref t' = ref t → (type t' = THREAD_UNUSED → ref t' = None) →
  inv (Some p) (set_mem (<[p := t']> (mem m)) m) h.
Proof.
  intros Hi Hp Href Hun. destruct (hole_nowhere m h p (i_at _ _ _ Hi)) as (Nr & Nw & Nh & _).
  destruct Hi as [Hat Hfd Hnd Htm Hix Hrf Hu Hal Hde Hfr Har Hca]. split; cbn; try done.
  - eapply placed_step; [exact Hat|reflexivity|done|done|]. intros ty. split; [|by intros []]. intros []%(not_hole _ m h p ty Hat eq_refl).
  - intros q n Hq. assert (q ≠ p) by (intros ->; destruct Hq; [by eapply Nr|by eapply Nw]). rewrite lookup_insert_ne by done. by apply Hfd.
  - eapply valid_times; [exact Htm|]. intros q Hq. unfold time_of. rewrite lookup_insert_ne; [done|]. by intros ->.
  - intros q r. rewrite <- Hrf. destruct (decide (p = q)) as [<-|Hne]; [|by rewrite lookup_insert_ne].
    rewrite lookup_insert_eq, Hp. split; intros (? & [= <-] & <-); eauto.
  - intros q t0. destruct (decide (p = q)) as [<-|Hne]; [|rewrite lookup_insert_ne by done; apply Hu].
    rewrite lookup_insert_eq. intros [= <-]. apply Hun.
  - by rewrite map_size_insert_Some by eauto.
  - intros q. destruct (decide (p = q)) as [<-|Hne]; [intros _; apply Hfr; eauto|]. rewrite lookup_insert_ne by done. apply Hfr.
  - destruct Har. by split.
Qed.

(** The index of a thread that is not queued does not matter. *)
Lemma index_change hole m h p z : inv hole m h → p ∉ h → inv hole (set_tindex (<[p := z]> (tindex m)) m) h.
Proof.
  intros [Hat Hfd Hnd Htm Hix Hrf Hu Hal Hde Hfr Har Hca] Hp. split; try done; [|destruct Har; by split].
  intros k q Hk. cbn. rewrite lookup_insert_ne; [by apply Hix|]. intros <-. apply Hp. by eapply list_elem_of_lookup_2.
Qed.

(** A thread that is got is nowhere yet. *)
Lemma thread_get_spec m h ty f a : inv None m h → ty ≠ THREAD_UNUSED →
  inv (Some (thread_get m ty f a).1) (thread_get m ty f a).2 h
  ∧ mem (thread_get m ty f a).2 !! (thread_get m ty f a).1 = Some (Thread ty ty None f a U_none)
  ∧ (thread_get m ty f a).2 = Master (fd_limit m) (rd m) (wr m) (timer m) (event m) (ready m) (unuse (thread_get m ty f a).2) (alloc (thread_get m ty f a).2)
      (pfds m) (pfdcount m) (copy m) (copycount m) (cancel_reqs m) (canceled m) (spin m) (selectpoll_timeout m)
      (mem (thread_get m ty f a).2) (tindex (thread_get m ty f a).2) (refs m) (fresh (thread_get m ty f a).2).
Proof.
  intros Hi Hty. set (t' := Thread ty ty None f a U_none). unfold thread_get. fold t'.
  destruct Hi as [Hat Hfd Hnd Htm Hix Hrf Hu Hal Hde Hfr Har Hca].
  destruct (unuse m) as [|p rest] eqn:Eun; cbn [fst snd]; (split; [|split; [cbn; by rewrite lookup_insert_eq|done]]).
  - set (p := fresh m). assert (mem m !! p = None) as Hp.
    { apply eq_None_not_Some. intros H%Hfr. subst p. lia. }
    assert (∀ ty0, ¬ at_place m h ty0 p) as Hnp by (intros ty0 (_ & t & E & _)%Hat; congruence).
    assert (∀ q, q ∈ h → q ≠ p) as Hh by (intros q Hq ->; by apply (Hnp THREAD_TIMER)).
    split; cbn; try done.
    + eapply (placed_step None _ m); [exact Hat|reflexivity|split; congruence|done|].
      intros ty0. split; [intros []%(Hnp ty0)|by intros []].
    + intros q n Hq. pose proof (Hfd q n Hq) as E. rewrite lookup_insert_ne; [done|]. intros <-. by rewrite Hp in E.
    + eapply valid_times; [exact Htm|]. intros q Hq. unfold time_of. rewrite lookup_insert_ne; [done|]. intros ->. by apply (Hh q).
    + intros k q Hk. rewrite lookup_insert_ne; [by apply Hix|]. intros <-. by apply (Hh p); [eapply list_elem_of_lookup_2|].
    + intros q r. rewrite <- Hrf. destruct (decide (p = q)) as [<-|Hne]; [|by rewrite lookup_insert_ne].
      rewrite lookup_insert_eq, Hp. split; [by intros (? & [= <-] & ?)|by intros (? & ? & _)].
    + intros q t0. destruct (decide (p = q)) as [<-|Hne]; [|rewrite lookup_insert_ne by done; apply Hu].
      rewrite lookup_insert_eq. by intros [= <-].
    + rewrite map_size_insert_None by done. lia.
    + rewrite Eun. cbn. lia.
    + intros q. destruct (decide (p = q)) as [<-|Hne]; [lia|]. rewrite lookup_insert_ne by done. intros H%Hfr. lia.
    + keep_arrays.
  - assert (∃ t0, mem m !! p = Some t0 ∧ type t0 = THREAD_UNUSED) as (t0 & Hp & Ht0).
    { assert (at_place m h THREAD_UNUSED p) as (_ & ?)%Hat by (cbn; rewrite Eun; left). done. }
    assert (∀ ty0, ty0 ≠ THREAD_UNUSED → ¬ at_place m h ty0 p) as Hnp by (intros ty0 Hne (_ & t & E & <-)%Hat; congruence).
    assert (p ∉ h) as Hh by (by apply (Hnp THREAD_TIMER)).
    assert (NoDup (p :: rest)) as [Hpr Hrest]%NoDup_cons by (rewrite <- Eun; apply Hnd).
    split; cbn; try done.
    + eapply (placed_step None _ m); [exact Hat|reflexivity|split; congruence| |].
      * intros q [] Hq; cbn; try done. rewrite Eun, elem_of_cons. tauto.
      * intros ty0. split; [|by intros []]. destruct (decide (ty0 = THREAD_UNUSED)) as [->|Hne]; [by intros ?%Hpr|].
        intros Hx. exfalso. apply (Hnp ty0 Hne). by destruct ty0.
    + intros q n Hq. pose proof (Hfd q n Hq) as E. rewrite lookup_insert_ne; [done|]. intros <-.
      destruct Hq as [Hq|Hq]; [apply (Hnp THREAD_READ)|apply (Hnp THREAD_WRITE)]; try done; by eapply list_elem_of_lookup_2.
    + unfold lists_nodup in *. cbn. rewrite Eun in *. by destruct Hnd as (? & ? & ? & _).
    + eapply valid_times; [exact Htm|]. intros q Hq. unfold time_of. rewrite lookup_insert_ne; [done|]. by intros ->.
    + intros k q Hk. rewrite lookup_insert_ne; [by apply Hix|]. intros <-. apply Hh. by eapply list_elem_of_lookup_2.
    + intros q r. rewrite <- Hrf. destruct (decide (p = q)) as [<-|Hne]; [|by rewrite lookup_insert_ne].
      rewrite lookup_insert_eq, Hp. split; [by intros (? & [= <-] & ?)|]. intros (? & [= <-] & E). by rewrite (Hu _ _ Hp Ht0) in E.
    + intros q t1. destruct (decide (p = q)) as [<-|Hne]; [|rewrite lookup_insert_ne by done; apply Hu].
      rewrite lookup_insert_eq. by intros [= <-].
    + by rewrite map_size_insert_Some by eauto.
    + cbn in Hde. lia.
    + intros q. destruct (decide (p = q)) as [<-|Hne]; [intros _; apply Hfr; eauto|]. rewrite lookup_insert_ne by done. apply Hfr.
    + keep_arrays.
Qed.

(** Tying a thread to the caller's variable. *)
Lemma tie_spec hole m h p t t_ptr : inv hole m h → mem m !! p = Some t → ref t = None → type t ≠ THREAD_UNUSED →
  (∀ r, t_ptr = Some r → refs m !! r = Some None) →
  ∃ m', tie p t_ptr m = Some m' ∧ inv hole m' h
    ∧ m' = set_refs (refs m') (set_mem (<[p := Thread (type t) (add_type t) t_ptr (func t) (arg t) (u t)]> (mem m)) m).
Proof.
  intros Hi Hp Href Hun Hr. destruct t_ptr as [r|]; cbn [tie].
  2:{ exists m. split; [done|]. split; [done|]. destruct t; cbn in *. rewrite Href in Hp. rewrite insert_id by done. by destruct m. }
  specialize (Hr r eq_refl). unfold set_ref. rewrite Hr. do 2 ostep. cbn [mem set_refs]. rewrite Hp. ostep.
  eexists. split; [reflexivity|]. split; [|done]. set (t' := Thread _ _ _ _ _ _).
  destruct Hi as [Hat Hfd Hnd Htm Hix Hrf Hu Hal Hde Hfr Har Hca]. split; cbn; try done.
  - assert (∀ q ty, (∃ t0, <[p := t']> (mem m) !! q = Some t0 ∧ type t0 = ty) ↔ ∃ t0, mem m !! q = Some t0 ∧ type t0 = ty) as E.
    { intros q ty. destruct (decide (p = q)) as [<-|Hne]; [|by rewrite lookup_insert_ne].
      rewrite lookup_insert_eq, Hp. split; intros (? & [= <-] & <-); eauto. }
    intros q ty. cbn. rewrite E. apply Hat.
  - intros q n Hq%Hfd. destruct (decide (p = q)) as [<-|Hne]; [|by rewrite lookup_insert_ne].
    rewrite lookup_insert_eq. rewrite Hp in Hq. done.
  - eapply valid_times; [exact Htm|]. intros q _. unfold time_of.
    destruct (decide (p = q)) as [<-|Hne]; [by rewrite lookup_insert_eq, Hp|by rewrite lookup_insert_ne].
  - intros q s. destruct (decide (r = s)) as [<-|Hrs].
    + rewrite lookup_insert_eq. destruct (decide (p = q)) as [<-|Hne].
      * rewrite lookup_insert_eq. split; [done|]. intros _. by eexists.
      * rewrite lookup_insert_ne by done. split; [|by intros [= ->]]. intros H%Hrf. congruence.
    + rewrite (lookup_insert_ne _ r) by done. rewrite <- Hrf. destruct (decide (p = q)) as [<-|Hne]; [|by rewrite lookup_insert_ne].
      rewrite lookup_insert_eq, Hp. split; [intros (? & [= <-] & [= ->]); done|]. intros (? & [= <-] & E). congruence.
  - intros q t0. destruct (decide (p = q)) as [<-|Hne]; [|rewrite lookup_insert_ne by done; apply Hu].
    rewrite lookup_insert_eq. by intros [= <-].
  - by rewrite map_size_insert_Some by eauto.
  - intros q. destruct (decide (p = q)) as [<-|Hne]; [intros _; apply Hfr; eauto|]. rewrite lookup_insert_ne by done. apply Hfr.
  - keep_arrays.
Qed.

(** Clearing the reference of a thread that is nowhere and giving it back. *)
Definition detached (m : thread_master) (p : tptr) (t : thread) : thread_master :=
  match ref t with Some r => set_refs (<[r := None]> (refs m)) m | None => m end.

Lemma clear_ref_spec hole m h p t : inv hole m h → mem m !! p = Some t → clear_ref t m = Some (detached m p t).
Proof.
  intros Hi Hp. unfold clear_ref, detached, set_ref. destruct (ref t) as [r|] eqn:E; [|done].
  assert (refs m !! r = Some (Some p)) as Hr by (apply (i_ref _ _ _ Hi); eauto). by rewrite Hr.
Qed.

(** A thread given back is unused or freed, and no variable points to it. *)
Lemma give_back_spec m h p t : inv (Some p) m h → mem m !! p = Some t →
  ∃ m', (m ← clear_ref t m; thread_add_unuse m p) = Some m' ∧ inv None m' h
    ∧ m' = Master (fd_limit m) (rd m) (wr m) (timer m) (event m) (ready m) (unuse m') (alloc m')
      (pfds m) (pfdcount m) (copy m) (copycount m) (cancel_reqs m) (canceled m) (spin m) (selectpoll_timeout m)
      (mem m') (tindex m') (refs (detached m p t)) (fresh m)
    ∧ (∀ q, q ≠ p → mem m' !! q = mem m !! q).
Proof.
  intros Hi Hp. rewrite (clear_ref_spec _ _ _ _ _ Hi Hp). ostep.
  destruct (hole_nowhere m h p (i_at _ _ _ Hi)) as (Nr & Nw & Nh & Ne & Ny & Nu).
  destruct Hi as [Hat Hfd Hnd Htm Hix Hrf Hu Hal Hde Hfr Har Hca].
  set (m1 := detached m p t). assert (mem m1 = mem m ∧ unuse m1 = unuse m ∧ alloc m1 = alloc m ∧ tindex m1 = tindex m) as (Em & Eu & Ea & Et)
    by (unfold m1, detached; by destruct (ref t)).
  assert (m1 = set_refs (refs m1) m) as Em1 by (unfold m1, detached; destruct (ref t); by destruct m).
  assert (∀ q r, q ≠ p → (∃ t0, mem m !! q = Some t0 ∧ ref t0 = Some r) ↔ refs m1 !! r = Some (Some q)) as Hrf1.
  { intros q r Hq. unfold m1, detached. destruct (ref t) as [s|] eqn:E; [|apply Hrf]. cbn.
    destruct (decide (s = r)) as [<-|Hne]; [|by rewrite lookup_insert_ne].
    rewrite lookup_insert_eq. split; [|done]. intros H%Hrf. assert (refs m !! s = Some (Some p)) by (apply Hrf; eauto). congruence. }
  assert (∀ r, refs m1 !! r ≠ Some (Some p)) as Hrfp.
  { intros r. unfold m1, detached. destruct (ref t) as [s|] eqn:E; cbn.
    - destruct (decide (s = r)) as [<-|Hne]; [by rewrite lookup_insert_eq|]. rewrite lookup_insert_ne by done.
      intros (t0 & ? & ?)%Hrf. congruence.
    - intros (t0 & ? & ?)%Hrf. congruence. }
  unfold thread_add_unuse. rewrite Em, Hp. ostep. cbn [unuse set_tindex set_mem]. rewrite Eu.
  assert (∀ q, q ∈ h → q ≠ p) as Hh by (by intros q Hq ->).
  assert (∀ q n, rd m !! n = Some (Some q) ∨ wr m !! n = Some (Some q) → q ≠ p) as Hio.
  { intros q n Hq ->. destruct Hq; [by eapply Nr|by eapply Nw]. }
  destruct (decide (length (unuse m) < THREAD_UNUSED_DEPTH)) as [Hlt|Hge].
  - eexists. split; [reflexivity|]. rewrite Em1. cbn. split; [|split; [done|intros q Hq; by rewrite lookup_insert_ne]].
    split; cbn; try done.
    + eapply (placed_step (Some p) _ m); [exact Hat|reflexivity|split; congruence| |].
      * intros q [] Hq; cbn; try done. rewrite elem_of_app, list_elem_of_singleton. tauto.
      * intros ty0. split.
        -- destruct (decide (ty0 = THREAD_UNUSED)) as [->|Hne]; [intros _; by split|]. intros Hx. exfalso.
           apply (not_hole _ m h p ty0 Hat eq_refl). by destruct ty0.
        -- intros [_ ->]. cbn. apply elem_of_app. right. left.
    + intros q n Hq. rewrite lookup_insert_ne by (symmetry; by eapply Hio). by apply Hfd.
    + destruct Hnd as (? & ? & ? & ?). unfold lists_nodup. cbn. split_and!; try done. apply NoDup_app. split_and!; [done| |apply NoDup_singleton].
      intros q Hq ->%list_elem_of_singleton. done.
    + eapply valid_times; [exact Htm|]. intros q Hq. unfold time_of. rewrite lookup_insert_ne; [done|]. intros ->. by apply (Hh q).
    + intros k q Hk. rewrite lookup_insert_ne; [by apply Hix|]. intros <-. by apply (Hh p); [eapply list_elem_of_lookup_2|].
    + intros q r. destruct (decide (p = q)) as [<-|Hne]; [|rewrite lookup_insert_ne by done; by apply Hrf1].
      rewrite lookup_insert_eq. split; [by intros (? & [= <-] & ?)|]. by intros ?%Hrfp.
    + intros q t1. destruct (decide (p = q)) as [<-|Hne]; [|rewrite lookup_insert_ne by done; apply Hu].
      rewrite lookup_insert_eq. by intros [= <-].
    + by rewrite map_size_insert_Some by eauto.
    + rewrite length_app. cbn. lia.
    + intros q. destruct (decide (p = q)) as [<-|Hne]; [intros _; apply Hfr; eauto|]. rewrite lookup_insert_ne by done. apply Hfr.
    + keep_arrays.
  - unfold thread_free. cbn [mem alloc set_tindex set_mem]. rewrite lookup_insert_eq. ostep. rewrite Ea.
    assert (stdpp.base.size (mem m) ≠ 0) as Hsz by (apply map_size_ne_0_lookup; exists p; eauto).
    rewrite decide_True by lia. eexists. split; [reflexivity|]. rewrite Em1. cbn.
    split; [|split; [done|intros q Hq; by rewrite lookup_delete_ne, lookup_insert_ne by done]].
    rewrite !delete_insert_eq. split; cbn; try done.
    + intros q ty. cbn. split.
      * intros Hx. assert (at_place m h ty q) as Hy by (by destruct ty). apply Hat in Hy as (Hq & t0 & E & <-).
        split; [done|]. exists t0. split; [|done]. rewrite lookup_delete_ne; [done|]. congruence.
      * intros (_ & t0 & E & <-). apply lookup_delete_Some in E as [Hne E].
        assert (at_place m h (type t0) q) as Hy by (apply Hat; split; [congruence|eauto]). by destruct (type t0).
    + intros q n Hq. rewrite lookup_delete_ne by (symmetry; by eapply Hio). by apply Hfd.
    + eapply valid_times; [exact Htm|]. intros q Hq. unfold time_of. rewrite lookup_delete_ne; [done|]. intros ->. by apply (Hh q).
    + intros k q Hk. rewrite lookup_delete_ne; [by apply Hix|]. intros <-. by apply (Hh p); [eapply list_elem_of_lookup_2|].
    + intros q r. destruct (decide (p = q)) as [<-|Hne]; [|rewrite lookup_delete_ne by done; by apply Hrf1].
      rewrite lookup_delete_eq. split; [by intros (? & ? & ?)|]. by intros ?%Hrfp.
    + intros q t1. rewrite lookup_delete_Some. intros [_ E]. exact (Hu q t1 E).
    + rewrite map_size_delete_Some by eauto. lia.
    + intros q. rewrite lookup_delete_is_Some. intros [_ E]. by apply Hfr.
    + keep_arrays.
Qed.

(** ** From nowhere into a place, and out of it *)

Lemma placed_move hole hole' m m' h h' p t : placed hole m h → mem m' = mem m → mem m !! p = Some t →
  (∀ q, q ≠ p → hole = Some q ↔ hole' = Some q) →
  (∀ q ty, q ≠ p → at_place m' h' ty q ↔ at_place m h ty q) →
  (∀ ty, at_place m' h' ty p ↔ hole' ≠ Some p ∧ ty = type t) →
  placed hole' m' h'.
Proof. intros Hat Hm Hp. apply placed_step; [done|]. by rewrite insert_id. Qed.

Ltac other_places p := let q := fresh "q" in intros q [] Hq; cbn; try done.
(** What is known of the place of [p] itself. *)
Ltac own_place Hat :=
  let ty := fresh "ty" in
  intros ty; destruct ty; cbn; first
    [ split; [let Hx := fresh in intros Hx; exfalso; first
        [ by apply (not_hole _ _ _ _ THREAD_READ Hat eq_refl) | by apply (not_hole _ _ _ _ THREAD_WRITE Hat eq_refl)
        | by apply (not_hole _ _ _ _ THREAD_TIMER Hat eq_refl) | by apply (not_hole _ _ _ _ THREAD_EVENT Hat eq_refl)
        | by apply (not_hole _ _ _ _ THREAD_READY Hat eq_refl) | by apply (not_hole _ _ _ _ THREAD_UNUSED Hat eq_refl) | done ]
      | by intros [_ ?]]
    | idtac ].

Lemma NoDup_snoc {A} (l : list A) x : NoDup l → x ∉ l → NoDup (l ++ [x]).
Proof.
  intros Hl Hx. apply NoDup_app. split_and!; [done| |apply NoDup_singleton]. by intros y Hy ->%list_elem_of_singleton.
Qed.

Lemma place_event m h p t : inv (Some p) m h → mem m !! p = Some t → type t = THREAD_EVENT →
  inv None (set_event (event m ++ [p]) m) h.
Proof.
  intros Hi Hp Ht. destruct (hole_nowhere m h p (i_at _ _ _ Hi)) as (_ & _ & _ & Ne & _).
  destruct Hi as [Hat Hfd Hnd Htm Hix Hrf Hu Hal Hde Hfr Har Hca]. split; cbn; try done; [| |keep_arrays].
  - eapply placed_move; [exact Hat|done|exact Hp|split; congruence| |].
    + other_places p. rewrite elem_of_app, list_elem_of_singleton. tauto.
    + rewrite Ht. own_place Hat. split; [done|]. intros _. apply elem_of_app. right. left.
  - destruct Hnd as (? & ? & ? & ?). unfold lists_nodup. cbn. split_and!; try done. by apply NoDup_snoc.
Qed.

Lemma place_ready m h p t : inv (Some p) m h → mem m !! p = Some t → type t = THREAD_READY →
  inv None (set_ready (ready m ++ [p]) m) h.
Proof.
  intros Hi Hp Ht. destruct (hole_nowhere m h p (i_at _ _ _ Hi)) as (_ & _ & _ & _ & Ny & _).
  destruct Hi as [Hat Hfd Hnd Htm Hix Hrf Hu Hal Hde Hfr Har Hca]. split; cbn; try done; [| |keep_arrays].
  - eapply placed_move; [exact Hat|done|exact Hp|split; congruence| |].
    + other_places p. rewrite elem_of_app, list_elem_of_singleton. tauto.
    + rewrite Ht. own_place Hat. split; [done|]. intros _. apply elem_of_app. right. left.
  - destruct Hnd as (? & ? & ? & ?). unfold lists_nodup. cbn. split_and!; try done. by apply NoDup_snoc.
Qed.

Lemma make_ready_spec m h p t : inv (Some p) m h → mem m !! p = Some t →
  ∃ m', make_ready m p = Some m' ∧ inv None m' h
    ∧ m' = set_ready (ready m ++ [p]) (set_mem (<[p := ready_type t]> (mem m)) m).
Proof.
  intros Hi Hp. unfold make_ready. rewrite Hp. ostep. eexists. split; [reflexivity|]. split; [|done].
  apply (place_ready (set_mem (<[p := ready_type t]> (mem m)) m) h p (ready_type t)); [|cbn; by rewrite lookup_insert_eq|done].
  by apply (hole_change m h p t).
Qed.

(** The two arrays of descriptors, alike. *)
Lemma insert_member {A} (l : list (option A)) n p q : l !! n = Some None → q ≠ p → Some q ∈ <[n := Some p]> l ↔ Some q ∈ l.
Proof.
  intros Hn Hq. rewrite !list_elem_of_lookup. split; intros [i Hi].
  - destruct (decide (n = i)) as [<-|Hne]; [rewrite list_lookup_insert_eq in Hi by (by eapply lookup_lt_Some); congruence|].
    rewrite list_lookup_insert_ne in Hi by done. eauto.
  - exists i. rewrite list_lookup_insert_ne; [done|]. intros ->. congruence.
Qed.

Lemma remove_member {A} (l : list (option A)) n p q : l !! n = Some (Some p) → q ≠ p → Some q ∈ <[n := None]> l ↔ Some q ∈ l.
Proof.
  intros Hn Hq. rewrite !list_elem_of_lookup. split; intros [i Hi].
  - destruct (decide (n = i)) as [<-|Hne]; [rewrite list_lookup_insert_eq in Hi by (by eapply lookup_lt_Some); congruence|].
    rewrite list_lookup_insert_ne in Hi by done. eauto.
  - exists i. rewrite list_lookup_insert_ne; [done|]. intros ->. congruence.
Qed.

Lemma insert_Some_inv {A} (l : list A) n i x y : <[n := x]> l !! i = Some y → i = n ∧ y = x ∨ l !! i = Some y ∧ i ≠ n.
Proof.
  destruct (decide (n = i)) as [<-|Hne]; [|rewrite list_lookup_insert_ne by done; eauto].
  intros H. pose proof (lookup_lt_Some _ _ _ H) as Hl. rewrite length_insert in Hl.
  rewrite list_lookup_insert_eq in H by done. left. split; congruence.
Qed.

Lemma place_io (w : bool) m h p t n : inv (Some p) m h → mem m !! p = Some t →
  type t = (if w then THREAD_WRITE else THREAD_READ) → u t = U_fd n →
  (if w then wr m else rd m) !! n = Some None →
  inv None (if w then set_wr (<[n := Some p]> (wr m)) m else set_rd (<[n := Some p]> (rd m)) m) h.
Proof.
  intros Hi Hp Ht Hu0 Hn. destruct Hi as [Hat Hfd Hnd Htm Hix Hrf Hu Hal Hde Hfr Har Hca].
  assert (∀ l : list (option tptr), l !! n = Some None → Some p ∈ <[n := Some p]> l) as Hin.
  { intros l Hl. apply list_elem_of_lookup. exists n. apply list_lookup_insert_eq. by eapply lookup_lt_Some. }
  destruct w; (split; cbn; try done; [| |destruct Har; split; try done; cbn; by rewrite length_insert]).
  - eapply placed_move; [exact Hat|done|exact Hp|split; congruence| |].
    + other_places p. by apply insert_member.
    + rewrite Ht. own_place Hat. split; [done|]. intros _. by apply Hin.
  - intros q i [Hq|[[-> [= ->]]|[Hq _]]%insert_Some_inv]; [by apply Hfd; left|rewrite Hp; cbn; by rewrite Hu0|by apply Hfd; right].
  - eapply placed_move; [exact Hat|done|exact Hp|split; congruence| |].
    + other_places p. by apply insert_member.
    + rewrite Ht. own_place Hat. split; [done|]. intros _. by apply Hin.
  - intros q i [[[-> [= ->]]|[Hq _]]%insert_Some_inv|Hq]; [rewrite Hp; cbn; by rewrite Hu0|by apply Hfd; left|by apply Hfd; right].
Qed.

Lemma place_timer m h p t : inv (Some p) m h → mem m !! p = Some t → type t = THREAD_TIMER →
  (array_size (timer m) ≤ size (timer m) + 2 → (Z.of_nat (array_size (timer m)) * 2 ≤ INT_MAX)%Z) →
  ∃ q ix h', pqueue_enqueue (thread_timer_cmp (mem m)) (Some thread_timer_update) p (timer m) (tindex m) = Some (q, ix)
    ∧ h' ≡ₚ p :: h ∧ inv None (set_timer q ix m) h'.
Proof.
  intros Hi Hp Ht Hsz. destruct (hole_nowhere m h p (i_at _ _ _ Hi)) as (_ & _ & Nh & _).
  destruct Hi as [Hat Hfd Hnd Htm Hix Hrf Hu Hal Hde Hfr Har Hca]. destruct Hnd as (Hh & ? & ? & ?).
  destruct (pqueue_enqueue_spec (thread_timer_cmp (mem m)) (Some thread_timer_update) p (timer m) h (tindex m) Htm Hsz)
    as (q & h' & ix & E & Hv & Hperm & _ & Htr).
  exists q, ix, h'. split; [exact E|]. split; [done|]. assert (NoDup (p :: h)) as Hnd by (by constructor).
  split; cbn; try done; [| | |keep_arrays].
  - eapply placed_move; [exact Hat|done|exact Hp|split; congruence| |].
    + other_places p. rewrite Hperm, elem_of_cons. tauto.
    + rewrite Ht. own_place Hat. split; [done|]. intros _. rewrite Hperm. left.
  - unfold lists_nodup. cbn. split_and!; try done. by rewrite Hperm.
  - apply indexed_tracked in Hix as [T0 T1]. apply indexed_tracked. split; by apply (Htr _ _ Hnd).
Qed.

Lemma filter_del (l : list tptr) p q : q ∈ filter (.≠ p) l ↔ q ≠ p ∧ q ∈ l.
Proof. by rewrite list_elem_of_filter. Qed.

(** A thread is taken out of the list of events or of ready threads. *)
Lemma unplace_event m h p t : inv None m h → mem m !! p = Some t → type t = THREAD_EVENT →
  thread_list_del (event m) p = Some (filter (.≠ p) (event m)) ∧ inv (Some p) (set_event (filter (.≠ p) (event m)) m) h.
Proof.
  intros Hi Hp Ht. destruct Hi as [Hat Hfd Hnd Htm Hix Hrf Hu Hal Hde Hfr Har Hca].
  split. { unfold thread_list_del. rewrite decide_True; [done|]. apply (Hat p THREAD_EVENT). eauto. }
  split; cbn; try done; [| |keep_arrays].
  - eapply (placed_move None); [exact Hat|done|exact Hp|split; congruence| |].
    + other_places p. rewrite filter_del. tauto.
    + intros ty. split; [|by intros []]. intros Hx. exfalso.
      assert (ty ≠ THREAD_EVENT) as Hne by (intros ->; by apply filter_del in Hx as []).
      assert (at_place m h ty p) as (_ & t0 & E & <-)%Hat by (by destruct ty). congruence.
  - destruct Hnd as (? & ? & ? & ?). unfold lists_nodup. cbn. split_and!; try done. by apply NoDup_filter.
Qed.

Lemma unplace_ready m h p t : inv None m h → mem m !! p = Some t → type t = THREAD_READY →
  thread_list_del (ready m) p = Some (filter (.≠ p) (ready m)) ∧ inv (Some p) (set_ready (filter (.≠ p) (ready m)) m) h.
Proof.
  intros Hi Hp Ht. destruct Hi as [Hat Hfd Hnd Htm Hix Hrf Hu Hal Hde Hfr Har Hca].
  split. { unfold thread_list_del. rewrite decide_True; [done|]. apply (Hat p THREAD_READY). eauto. }
  split; cbn; try done; [| |keep_arrays].
  - eapply (placed_move None); [exact Hat|done|exact Hp|split; congruence| |].
    + other_places p. rewrite filter_del. tauto.
    + intros ty. split; [|by intros []]. intros Hx. exfalso.
      assert (ty ≠ THREAD_READY) as Hne by (intros ->; by apply filter_del in Hx as []).
      assert (at_place m h ty p) as (_ & t0 & E & <-)%Hat by (by destruct ty). congruence.
  - destruct Hnd as (? & ? & ? & ?). unfold lists_nodup. cbn. split_and!; try done. by apply NoDup_filter.
Qed.

(** The slot of a thread that reads or writes. *)
Lemma io_slot m h p t (w : bool) n : inv None m h → mem m !! p = Some t →
  type t = (if w then THREAD_WRITE else THREAD_READ) → u t = U_fd n → (if w then wr m else rd m) !! n = Some (Some p).
Proof.
  intros Hi Hp Ht Hu0. destruct Hi as [Hat Hfd _ _ _ _ _ _ _ _ _ _].
  assert (at_place m h (type t) p) as Hpl by (apply Hat; eauto). rewrite Ht in Hpl.
  destruct w; cbn in Hpl; apply list_elem_of_lookup in Hpl as [i Hi]; [pose proof (Hfd p i (or_intror Hi)) as E|pose proof (Hfd p i (or_introl Hi)) as E];
    rewrite Hp in E; cbn in E; rewrite Hu0 in E; by injection E as ->.
Qed.

Lemma unplace_io (w : bool) m h p t n : inv None m h → mem m !! p = Some t →
  type t = (if w then THREAD_WRITE else THREAD_READ) → u t = U_fd n →
  Prelude.write (if w then wr m else rd m) n None = Some (<[n := None]> (if w then wr m else rd m))
  ∧ inv (Some p) (if w then set_wr (<[n := None]> (wr m)) m else set_rd (<[n := None]> (rd m)) m) h.
Proof.
  intros Hi Hp Ht Hu0. pose proof (io_slot m h p t w n Hi Hp Ht Hu0) as Hn.
  split. { apply write_Some. by eapply lookup_lt_Some. }
  destruct Hi as [Hat Hfd Hnd Htm Hix Hrf Hu Hal Hde Hfr Har Hca].
  assert (∀ l : list (option tptr), l !! n = Some (Some p) → (∀ i, l !! i = Some (Some p) → i = n) → Some p ∉ <[n := None]> l) as Hout.
  { intros l Hl Huniq [i [[-> [=]]|[Hi Hne]]%insert_Some_inv]%list_elem_of_lookup. by apply Hne, Huniq. }
  assert (∀ i, rd m !! i = Some (Some p) ∨ wr m !! i = Some (Some p) → i = n) as Huniq.
  { intros i H%Hfd. rewrite Hp in H. cbn in H. rewrite Hu0 in H. by injection H as ->. }
  destruct w; (split; cbn; try done; [| |destruct Har; split; try done; cbn; by rewrite length_insert]).
  - eapply (placed_move None); [exact Hat|done|exact Hp|split; congruence| |].
    + other_places p. by apply (remove_member _ _ p).
    + intros ty. split; [|by intros []]. intros Hx. exfalso.
      assert (ty ≠ THREAD_WRITE) as Hne by (intros ->; apply (Hout _ Hn) in Hx; [done|eauto]).
      assert (at_place m h ty p) as (_ & t0 & E & <-)%Hat by (by destruct ty). congruence.
  - intros q i [Hq|[[-> [=]]|[Hq _]]%insert_Some_inv]; [by apply Hfd; left|by apply Hfd; right].
  - eapply (placed_move None); [exact Hat|done|exact Hp|split; congruence| |].
    + other_places p. by apply (remove_member _ _ p).
    + intros ty. split; [|by intros []]. intros Hx. exfalso.
      assert (ty ≠ THREAD_READ) as Hne by (intros ->; apply (Hout _ Hn) in Hx; [done|eauto]).
      assert (at_place m h ty p) as (_ & t0 & E & <-)%Hat by (by destruct ty). congruence.
  - intros q i [[[-> [=]]|[Hq _]]%insert_Some_inv|Hq]; [by apply Hfd; left|by apply Hfd; right].
Qed.

Lemma unplace_timer m h p k : inv None m h → h !! k = Some p →
  ∃ q ix h', pqueue_remove_at (thread_timer_cmp (mem m)) (Some thread_timer_update) k (timer m) (tindex m) = Some (q, ix)
    ∧ h ≡ₚ p :: h' ∧ inv (Some p) (set_timer q ix m) h'
    ∧ (k = 0 → pqueue_dequeue (thread_timer_cmp (mem m)) (Some thread_timer_update) (timer m) (tindex m) = Some (Some p, q, ix)).
Proof.
  intros Hi Hk. destruct Hi as [Hat Hfd Hnd Htm Hix Hrf Hu Hal Hde Hfr Har Hca]. destruct Hnd as (Hh & ? & ? & ?).
  assert (∃ t, mem m !! p = Some t ∧ type t = THREAD_TIMER) as (t & Hp & Ht).
  { assert (at_place m h THREAD_TIMER p) as (_ & ?)%Hat by (cbn; by eapply list_elem_of_lookup_2). done. }
  destruct (pqueue_remove_at_spec (thread_timer_cmp (mem m)) (Some thread_timer_update) k (timer m) h (tindex m) p Htm Hk)
    as (q & h' & ix & E & Hv & Hperm & Htr & Hdeq).
  exists q, ix, h'. split; [exact E|]. split; [done|]. split; [|exact Hdeq].
  assert (NoDup (p :: h')) as [Hnp Hnd']%NoDup_cons by (by rewrite <- Hperm).
  split; cbn; try done; [| |keep_arrays].
  - eapply (placed_move None); [exact Hat|done|exact Hp|split; congruence| |].
    + other_places p. rewrite Hperm, elem_of_cons. tauto.
    + intros ty. split; [|by intros []]. intros Hx. exfalso.
      assert (ty ≠ THREAD_TIMER) as Hne by (by intros ->).
      assert (at_place m h ty p) as (_ & t0 & E0 & <-)%Hat by (by destruct ty). congruence.
  - apply indexed_tracked in Hix as [T0 T1]. apply indexed_tracked. split; by apply (Htr _ _ Hh).
Qed.

(** ** Adding *)

Definition var_ok (m : thread_master) (t_ptr : option nat) : Prop := ∀ r, t_ptr = Some r → is_Some (refs m !! r).

Lemma scheduled_spec m t_ptr : var_ok m t_ptr →
  ∃ b, scheduled m t_ptr = Some b ∧ (b = false → ∀ r, t_ptr = Some r → refs m !! r = Some None).
Proof.
  intros Hv. destruct t_ptr as [r|]; [|by exists false]. destruct (Hv r eq_refl) as [v Hr]. cbn. rewrite Hr. cbn.
  eexists. split; [reflexivity|]. intros Hb s [= <-]. rewrite Hr. apply bool_decide_eq_false in Hb.
  destruct v; [|done]. exfalso. by apply Hb.
Qed.

Lemma set_u_spec m h p t uv : inv (Some p) m h → mem m !! p = Some t → type t ≠ THREAD_UNUSED →
  ∃ m', set_u p uv m = Some m' ∧ inv (Some p) m' h
    ∧ m' = set_mem (<[p := Thread (type t) (add_type t) (ref t) (func t) (arg t) uv]> (mem m)) m.
Proof.
  intros Hi Hp Ht. unfold set_u. rewrite Hp. ostep. eexists. split; [reflexivity|]. split; [|done].
  by apply (hole_change m h p t).
Qed.

Lemma add_event_spec m h f a val t_ptr : inv None m h → var_ok m t_ptr →
  ∃ r m', funcname_thread_add_event m f a val t_ptr = Some (r, m') ∧ inv None m' h.
Proof.
  intros Hi Hv. unfold funcname_thread_add_event. destruct (scheduled_spec m t_ptr Hv) as (b & -> & Hb). ostep.
  destruct b; [by exists None, m|]. destruct (thread_get_spec m h THREAD_EVENT f a Hi ltac:(done)) as (Hg & Hm & E).
  destruct (thread_get m THREAD_EVENT f a) as [p m1]. cbn [fst snd] in *.
  destruct (set_u_spec m1 h p _ (U_val val) Hg Hm ltac:(done)) as (m2 & -> & Hi2 & E2). ostep.
  assert (mem m2 !! p = Some (Thread THREAD_EVENT THREAD_EVENT None f a (U_val val))) as Hm2 by (rewrite E2; cbn; by rewrite lookup_insert_eq).
  pose proof (place_event m2 h p _ Hi2 Hm2 eq_refl) as Hi3.
  destruct (tie_spec None (set_event (event m2 ++ [p]) m2) h p _ t_ptr Hi3 Hm2 eq_refl ltac:(done)) as (m3 & -> & Hi4 & _).
  { intros r Hr. rewrite E2, E. cbn. by apply Hb. }
  ostep. by eexists _, _.
Qed.

Lemma add_timer_spec now m h f a rel t_ptr : inv None m h → var_ok m t_ptr →
  (array_size (timer m) ≤ size (timer m) + 2 → (Z.of_nat (array_size (timer m)) * 2 ≤ INT_MAX)%Z) →
  ∃ r m' h', funcname_thread_add_timer_timeval now m f a rel t_ptr = Some (r, m') ∧ inv None m' h'.
Proof.
  intros Hi Hv Hsz. unfold funcname_thread_add_timer_timeval. destruct (scheduled_spec m t_ptr Hv) as (b & -> & Hb). ostep.
  destruct b; [by exists None, m, h|]. destruct (thread_get_spec m h THREAD_TIMER f a Hi ltac:(done)) as (Hg & Hm & E).
  destruct (thread_get m THREAD_TIMER f a) as [p m1]. cbn [fst snd] in *.
  destruct (set_u_spec m1 h p _ (U_sands (timeradd now rel)) Hg Hm ltac:(done)) as (m2 & -> & Hi2 & E2). ostep.
  assert (mem m2 !! p = Some (Thread THREAD_TIMER THREAD_TIMER None f a (U_sands (timeradd now rel)))) as Hm2 by (rewrite E2; cbn; by rewrite lookup_insert_eq).
  destruct (place_timer m2 h p _ Hi2 Hm2 eq_refl) as (q & ix & h' & -> & _ & Hi3); [by rewrite E2, E|]. ostep.
  destruct (tie_spec None (set_timer q ix m2) h' p _ t_ptr Hi3 Hm2 eq_refl ltac:(done)) as (m3 & -> & Hi4 & _).
  { intros r Hr. rewrite E2, E. cbn. by apply Hb. }
  ostep. by eexists _, _, _.
Qed.

Lemma find_pollfd_spec l n i f : let j := find_pollfd l n i f in
  i ≤ j ≤ i + n ∧ (j < i + n → j < i + length l → ∃ pf, l !! (j - i) = Some pf ∧ fd pf = f) ∧ (n ≤ length l → j ≤ i + length l).
Proof.
  revert n i. induction l as [|pf l IH]; intros [|n] i; cbn; [split_and!; lia..|].
  destruct (decide (fd pf = f)) as [Hf|Hf].
  - split_and!; [lia|lia| |lia]. intros _ _. rewrite Nat.sub_diag. eauto.
  - destruct (IH n (S i)) as (H1 & H2 & H3). split_and!; [lia|lia| |lia]. intros Ha Hb.
    destruct H2 as (pf' & Hl & Hfd); [lia|lia|]. exists pf'. split; [|done].
    replace (find_pollfd l n (S i) f - i) with (S (find_pollfd l n (S i) f - S i)) by lia. exact Hl.
Qed.

(** The pollfds may change as long as they stay in range. *)
Lemma pfds_change hole m h l c : inv hole m h → length l = fd_limit m → c ≤ fd_limit m →
  Forall (λ pf, fd pf < fd_limit m) (take c l) → inv hole (set_pfds l c m) h.
Proof. intros [Hat Hfd Hnd Htm Hix Hrf Hu Hal Hde Hfr Har Hca] Hl Hc Hr. split; try done. destruct Har. by split. Qed.

Lemma copy_change hole m h l c : inv hole m h → length l = fd_limit m → c ≤ fd_limit m → inv hole (set_copy l c m) h.
Proof. intros [Hat Hfd Hnd Htm Hix Hrf Hu Hal Hde Hfr Har Hca] Hl Hc. split; try done. destruct Har. by split. Qed.

Lemma add_rw_spec (w : bool) m h f a n t_ptr : inv None m h → var_ok m t_ptr → n < fd_limit m →
  (if w then wr m else rd m) !! n = Some None → find_pollfd (pfds m) (pfdcount m) 0 n + 1 < length (pfds m) →
  ∃ r m', funcname_thread_add_read_write w m f a (Z.of_nat n) t_ptr = Some (r, m') ∧ inv None m' h.
Proof.
  intros Hi Hv Hn Hslot Hroom. unfold funcname_thread_add_read_write. rewrite decide_True, Nat2Z.id by lia.
  destruct (scheduled_spec m t_ptr Hv) as (b & -> & Hb). ostep. destruct b; [by exists None, m|]. rewrite decide_True by done.
  set (ty := if w then THREAD_WRITE else THREAD_READ). assert (ty ≠ THREAD_UNUSED) as Hty by (by destruct w).
  destruct (thread_get_spec m h ty f a Hi Hty) as (Hg & Hm & E).
  destruct (thread_get m ty f a) as [p m1]. cbn [fst snd] in *. set (pos := find_pollfd (pfds m) (pfdcount m) 0 n) in *.
  assert (pfds m1 = pfds m ∧ pfdcount m1 = pfdcount m) as [Ep Ec] by (by rewrite E). rewrite Ep, Ec.
  destruct (lookup_lt_is_Some_2 (pfds m) pos ltac:(lia)) as [pf Hpf]. rewrite Hpf. ostep.
  destruct (find_pollfd_spec (pfds m) (pfdcount m) 0 n) as (Hj & Hjf & _). fold pos in Hj, Hjf. destruct (i_arrays _ _ _ Hi) as [Lr Lw Lp Lc Hc Hcc Hrange].
  set (c' := if decide (pos = pfdcount m) then S (pfdcount m) else pfdcount m).
  set (l' := <[pos := _]> (pfds m)).
  assert (inv (Some p) (set_pfds l' c' m1) h) as Hi1.
  { assert (fd_limit m1 = fd_limit m) as El by (by rewrite E). apply pfds_change; [done|rewrite El; subst l'; by rewrite length_insert| |].
    - rewrite El. subst c'. destruct (decide (pos = pfdcount m)); lia.
    - rewrite El. apply Forall_lookup. intros i x Hx. apply lookup_take_Some in Hx as [Hx Hic].
      apply insert_Some_inv in Hx as [[-> ->]|[Hx Hne]]; [done|]. rewrite Forall_lookup in Hrange. apply (Hrange i).
      apply lookup_take_Some. split; [done|]. subst c'. destruct (decide (pos = pfdcount m)); lia. }
  destruct (set_u_spec (set_pfds l' c' m1) h p _ (U_fd n) Hi1 Hm Hty) as (m2 & -> & Hi2 & E2). ostep.
  assert (mem m2 !! p = Some (Thread ty ty None f a (U_fd n))) as Hm2 by (rewrite E2; cbn; by rewrite lookup_insert_eq).
  assert (rd m2 = rd m ∧ wr m2 = wr m ∧ refs m2 = refs m) as (Er & Ew & Ef) by (by rewrite E2, E).
  pose proof (place_io w m2 h p _ n Hi2 Hm2 eq_refl eq_refl ltac:(by rewrite Er, Ew)) as Hi3.
  rewrite Er, Ew in *.
  set (m3 := if w then set_wr (<[n := Some p]> (wr m)) m2 else set_rd (<[n := Some p]> (rd m)) m2) in *.
  assert ((if w then a0 ← Prelude.write (wr m) n (Some p); Some (set_wr a0 m2) else a0 ← Prelude.write (rd m) n (Some p); Some (set_rd a0 m2)) = Some m3) as ->.
  { subst m3. destruct w; rewrite write_Some by (by eapply lookup_lt_Some); done. }
  ostep. destruct (tie_spec None m3 h p _ t_ptr Hi3 ltac:(subst m3; by destruct w) eq_refl Hty) as (m4 & -> & Hi4 & _).
  { intros r Hr. assert (refs m3 = refs m) as -> by (subst m3; by destruct w). by apply Hb. }
  ostep. by eexists _, _.
Qed.

(** ** Cancelling *)

Lemma delete_pollfd_length l i c : i < c → c ≤ length l → length (delete_pollfd l i c) = length l.
Proof. intros. unfold delete_pollfd. rewrite !length_app, !length_take, !length_drop. lia. Qed.

Lemma delete_pollfd_range (P : pollfd → Prop) l i c : i < c → c ≤ length l → Forall P (take c l) → Forall P (take (c - 1) (delete_pollfd l i c)).
Proof.
  intros Hi Hc HP. assert (take (c - 1) (delete_pollfd l i c) = take i l ++ take (c - i - 1) (drop (S i) l)) as ->.
  { unfold delete_pollfd. rewrite app_assoc, take_app_length'; [done|]. rewrite length_app, !length_take, length_drop. lia. }
  rewrite Forall_lookup in HP. apply Forall_app. split; apply Forall_lookup; intros j x Hx; apply lookup_take_Some in Hx as [Hx Hj].
  - apply (HP j). apply lookup_take_Some. split; [done|lia].
  - rewrite lookup_drop in Hx. apply (HP (S i + j)). apply lookup_take_Some. split; [done|lia].
Qed.

Lemma drop_events_range (P : nat → Prop) l i c pf state : l !! i = Some pf → Forall (λ x, P (fd x)) (take c l) →
  Forall (λ x, P (fd x)) (take c (<[i := drop_events state pf]> l)).
Proof.
  intros Hi HP. rewrite Forall_lookup in HP |- *. intros j x Hx. apply lookup_take_Some in Hx as [Hx Hj].
  apply insert_Some_inv in Hx as [[-> ->]|[Hx _]]; [apply (HP i pf)|apply (HP j x)]; apply lookup_take_Some; split; done || lia.
Qed.

(** Only the pollfds change. *)
Definition pollfds_changed (m m' : thread_master) : Prop :=
  ∃ l c l2 c2, m' = set_copy l2 c2 (set_pfds l c m).

Lemma thread_cancel_rw_spec hole m h n state : inv hole m h →
  ∃ m', thread_cancel_rw m n state = Some m' ∧ inv hole m' h ∧ pollfds_changed m m'.
Proof.
  intros Hi. pose proof (i_arrays _ _ _ Hi) as [Lr Lw Lp Lc Hc Hcc Hrange]. unfold thread_cancel_rw.
  destruct (find_pollfd_spec (pfds m) (pfdcount m) 0 n) as (Hj & _ & _). set (i := find_pollfd (pfds m) (pfdcount m) 0 n) in *. clearbody i.
  destruct (decide (i = pfdcount m)) as [->|Hne].
  { exists m. split; [done|]. split; [done|]. exists (pfds m), (pfdcount m), (copy m), (copycount m). by destruct m. }
  destruct (lookup_lt_is_Some_2 (pfds m) i ltac:(lia)) as [pf Hpf]. rewrite Hpf. ostep.
  set (st := Z.lor state POLLHUP). set (l := <[i := drop_events st pf]> (pfds m)).
  assert (length l = fd_limit m) as Ll by (subst l; by rewrite length_insert).
  assert (Forall (λ x, fd x < fd_limit m) (take (pfdcount m) l)) as Hl by (by apply (drop_events_range (λ x, x < fd_limit m))).
  set (m1 := if (events (drop_events st pf) =? 0)%Z then _ else _).
  assert (inv hole m1 h ∧ ∃ l1 c1, m1 = set_pfds l1 c1 m) as [Hi1 (l1 & c1 & E1)].
  { subst m1. destruct (events _ =? 0)%Z; (split; [|eauto]); apply pfds_change; try done; try lia.
    - rewrite delete_pollfd_length; lia.
    - apply delete_pollfd_range; [lia|lia|done]. }
  assert (copycount m1 = copycount m ∧ copy m1 = copy m) as [Ec Ey] by (by rewrite E1). rewrite Ec, Ey.
  destruct (decide (copycount m ≤ i)) as [|Hlt].
  { exists m1. split; [done|]. split; [done|]. exists l1, c1, (copy m), (copycount m). rewrite E1. by destruct m. }
  destruct (lookup_lt_is_Some_2 (copy m) i ltac:(lia)) as [cf Hcf]. rewrite Hcf. ostep.
  assert (fd_limit m1 = fd_limit m) as El by (by rewrite E1).
  destruct (events (drop_events st cf) =? 0)%Z; eexists; (split; [reflexivity|]); (split; [|rewrite E1; by eexists _, _, _, _]);
    apply copy_change; try done; rewrite El; rewrite ?delete_pollfd_length by (rewrite ?length_insert; lia); rewrite ?length_insert; lia.
Qed.

Lemma live_types m h p t : inv None m h → mem m !! p = Some t → type t ≠ THREAD_UNUSED →
  type t = THREAD_READ ∨ type t = THREAD_WRITE ∨ type t = THREAD_TIMER ∨ type t = THREAD_EVENT ∨ type t = THREAD_READY.
Proof.
  intros Hi Hp Ht. assert (at_place m h (type t) p) as Hpl by (apply (i_at _ _ _ Hi); eauto).
  destruct (type t); auto; done.
Qed.

Lemma io_has_fd m h p t (w : bool) : inv None m h → mem m !! p = Some t → type t = (if w then THREAD_WRITE else THREAD_READ) →
  ∃ n, u t = U_fd n.
Proof.
  intros Hi Hp Ht. assert (at_place m h (type t) p) as Hpl by (apply (i_at _ _ _ Hi); eauto). rewrite Ht in Hpl.
  destruct w; cbn in Hpl; apply list_elem_of_lookup in Hpl as [n Hn]; exists n;
    [pose proof (i_fd _ _ _ Hi p n (or_intror Hn)) as E|pose proof (i_fd _ _ _ Hi p n (or_introl Hn)) as E]; rewrite Hp in E; by injection E.
Qed.

(** One thread is taken out of its place: where it was the queue choice is made,
    and all other threads keep their record. *)
Definition withdrawn (m m' : thread_master) (p : tptr) : Prop :=
  mem m' = mem m ∧ refs m' = refs m ∧ event m' = filter (.≠ p) (event m) ∧ ready m' = filter (.≠ p) (ready m)
  ∧ cancel_reqs m' = cancel_reqs m ∧ spin m' = spin m ∧ fd_limit m' = fd_limit m ∧ canceled m' = canceled m.

Lemma filter_absent (l : list tptr) p : p ∉ l → filter (.≠ p) l = l.
Proof. intros H. apply filter_all. intros q Hq ->. done. Qed.

Lemma elsewhere m h p t ty : inv None m h → mem m !! p = Some t → type t ≠ ty → ¬ at_place m h ty p.
Proof. intros Hi Hp Ht (_ & t0 & E & <-)%(i_at _ _ _ Hi). congruence. Qed.

Lemma cancel_thread_spec m h p t : inv None m h → mem m !! p = Some t → type t ≠ THREAD_UNUSED →
  ∃ c m' h', cancel_thread (Chosen None false None) p m = Some (c, m') ∧ inv None m' h'
    ∧ (∀ q, q ≠ p → mem m' !! q = mem m !! q) ∧ refs m' = refs (detached m p t)
    ∧ event m' = filter (.≠ p) (event m) ∧ ready m' = filter (.≠ p) (ready m)
    ∧ from_option (λ t, type t = THREAD_UNUSED) True (mem m' !! p).
Proof.
  intros Hi Hp Ht. unfold cancel_thread. rewrite Hp. ostep.
  assert (∀ m1 h1 (c : chosen), inv (Some p) m1 h1 → withdrawn m m1 p → ∃ c' m' h',
    (m ← clear_ref t m1; m ← thread_add_unuse m p; Some (c, m)) = Some (c', m') ∧ inv None m' h'
    ∧ (∀ q, q ≠ p → mem m' !! q = mem m !! q) ∧ refs m' = refs (detached m p t)
    ∧ event m' = filter (.≠ p) (event m) ∧ ready m' = filter (.≠ p) (ready m)
    ∧ from_option (λ t, type t = THREAD_UNUSED) True (mem m' !! p)) as Hend.
  { intros m1 h1 c Hi1 (Wm & Wr & We & Wy & _). destruct (give_back_spec m1 h1 p t Hi1 ltac:(by rewrite Wm)) as (m' & E & Hi' & Em' & Hoth).
    destruct (clear_ref t m1) as [m2|]; [|done]. rewrite obind_Some in E. ostep. rewrite E. ostep.
    eexists _, m', h1. split; [reflexivity|]. split; [done|].
    split. { intros q Hq. rewrite (Hoth q Hq). by rewrite Wm. }
    split. { rewrite Em'. cbn. unfold detached. rewrite Wr. by destruct (ref t). }
    split; [by rewrite Em'|]. split; [by rewrite Em'|].
    destruct (mem m' !! p) as [t0|] eqn:E0; [|done]. cbn.
    assert (at_place m' h1 (type t0) p) as Hpl by (apply (i_at _ _ _ Hi'); eauto).
    destruct (decide (type t0 = THREAD_UNUSED)) as [|Hne]; [done|exfalso]. apply (not_hole _ m1 h1 p (type t0) (i_at _ _ _ Hi1) eq_refl).
    rewrite Em' in Hpl. by destruct (type t0). }
  assert (type t ≠ THREAD_EVENT → filter (.≠ p) (event m) = event m) as Fe
    by (intros H; apply filter_absent, (elsewhere m h p t THREAD_EVENT Hi Hp H)).
  assert (type t ≠ THREAD_READY → filter (.≠ p) (ready m) = ready m) as Fr
    by (intros H; apply filter_absent, (elsewhere m h p t THREAD_READY Hi Hp H)).
  assert (∀ (w : bool), type t = (if w then THREAD_WRITE else THREAD_READ) → ∃ n m1, u t = U_fd n
    ∧ thread_cancel_rw m n (if w then POLLOUT else POLLIN) = Some m1
    ∧ (if w then a ← Prelude.write (wr m1) n None; Some (set_wr a m1) else a ← Prelude.write (rd m1) n None; Some (set_rd a m1))
        = Some (if w then set_wr (<[n := None]> (wr m1)) m1 else set_rd (<[n := None]> (rd m1)) m1)
    ∧ inv (Some p) (if w then set_wr (<[n := None]> (wr m1)) m1 else set_rd (<[n := None]> (rd m1)) m1) h
    ∧ withdrawn m (if w then set_wr (<[n := None]> (wr m1)) m1 else set_rd (<[n := None]> (rd m1)) m1) p) as Hio.
  { intros w Hw. destruct (io_has_fd m h p t w Hi Hp Hw) as [n Hn].
    destruct (thread_cancel_rw_spec None m h n (if w then POLLOUT else POLLIN) Hi) as (m1 & E1 & Hi1 & (l & c & l2 & c2 & Em1)).
    exists n, m1. destruct (unplace_io w m1 h p t n Hi1 ltac:(by rewrite Em1) Hw Hn) as [E2 Hi2].
    split; [done|]. split; [done|]. split; [destruct w; by rewrite E2|]. split; [done|].
    unfold withdrawn. rewrite Fe, Fr by (rewrite Hw; by destruct w). rewrite Em1. by destruct w. }
  destruct (live_types m h p t Hi Hp Ht) as [E|[E|[E|[E|E]]]]; rewrite E in *.
  - destruct (Hio false eq_refl) as (n & m1 & Hn & E1 & E2 & Hi2 & Hw). rewrite Hn, E1. do 2 ostep. cbn [c_queue c_list c_array]. rewrite E2. ostep.
    exact (Hend _ h _ Hi2 Hw).
  - destruct (Hio true eq_refl) as (n & m1 & Hn & E1 & E2 & Hi2 & Hw). rewrite Hn, E1. do 2 ostep. cbn [c_queue c_list c_array]. rewrite E2. ostep.
    exact (Hend _ h _ Hi2 Hw).
  - ostep. cbn [c_queue]. assert (p ∈ h) as Hph by (apply (i_at _ _ _ Hi p THREAD_TIMER); eauto).
    apply list_elem_of_lookup in Hph as [k Hk]. rewrite (i_index _ _ _ Hi k p Hk). ostep.
    rewrite (proj2 (Z.leb_le 0 (Z.of_nat k))), Nat2Z.id by lia.
    destruct (valid_inv _ _ _ (i_timer _ _ _ Hi)) as (junk & n & Eq & _). 
    assert (array (timer m) !! k = Some (Some p)) as -> by (rewrite Eq; cbn [array]; by apply block_lookup). ostep.
    rewrite decide_True by done. destruct (unplace_timer m h p k Hi Hk) as (q & ix & h' & -> & _ & Hi2 & _). do 2 ostep.
    apply (Hend _ h' _ Hi2). unfold withdrawn. by rewrite Fe, Fr.
  - ostep. cbn [c_queue c_list c_array]. destruct (unplace_event m h p t Hi Hp E) as [-> Hi2]. do 2 ostep.
    apply (Hend _ h _ Hi2). unfold withdrawn. by rewrite Fr.
  - ostep. cbn [c_queue c_list c_array]. destruct (unplace_ready m h p t Hi Hp E) as [-> Hi2]. do 2 ostep.
    apply (Hend _ h _ Hi2). unfold withdrawn. by rewrite Fe.
Qed.

(** [p] is one of [l] and was scheduled with the argument [obj]. *)
Definition victim (m : thread_master) (obj : nat) (l : list tptr) (p : tptr) : Prop := p ∈ l ∧ arg <$> mem m !! p = Some obj.
#[export] Instance victim_dec m obj l p : Decision (victim m obj l p).
Proof. unfold victim. apply _. Defined.

Definition queue_of (which : bool) (m : thread_master) : list tptr := if which then ready m else event m.

Lemma queue_type (which : bool) m h p : inv None m h → p ∈ queue_of which m →
  ∃ t, mem m !! p = Some t ∧ type t = (if which then THREAD_READY else THREAD_EVENT).
Proof.
  intros Hi Hp. assert (at_place m h (if which then THREAD_READY else THREAD_EVENT) p) as (_ & ?)%(i_at _ _ _ Hi) by (by destruct which).
  done.
Qed.

Lemma cancel_events_spec (which : bool) obj l : ∀ m h, inv None m h → NoDup l → (∀ p, p ∈ l → p ∈ queue_of which m) →
  ∃ m', cancel_events which l obj m = Some m' ∧ inv None m' h
    ∧ queue_of which m' = filter (λ q, ¬ victim m obj l q) (queue_of which m) ∧ queue_of (negb which) m' = queue_of (negb which) m
    ∧ (∀ q, ¬ victim m obj l q → mem m' !! q = mem m !! q).
Proof.
  induction l as [|p l IH]; intros m h Hi Hnd Hl; cbn [cancel_events].
  { exists m. split_and!; try done. rewrite filter_all; [done|]. intros q _ [Hq _]. by apply elem_of_nil in Hq. }
  apply NoDup_cons in Hnd as [Hpl Hnd]. destruct (queue_type which m h p Hi ltac:(apply Hl; left)) as (t & Hp & Ht). rewrite Hp. ostep.
  destruct (decide (arg t = obj)) as [Ha|Ha].
  - assert (∃ m1, (if which then l' ← thread_list_del (ready m) p; Some (set_ready l' m) else l' ← thread_list_del (event m) p; Some (set_event l' m)) = Some m1
      ∧ inv (Some p) m1 h ∧ queue_of which m1 = filter (.≠ p) (queue_of which m) ∧ queue_of (negb which) m1 = queue_of (negb which) m ∧ mem m1 = mem m) as (m1 & -> & Hi1 & Eq1 & En1 & Em1).
    { destruct which; [destruct (unplace_ready m h p t Hi Hp Ht) as [-> Hi1]|destruct (unplace_event m h p t Hi Hp Ht) as [-> Hi1]];
        eexists; (split; [reflexivity|]); by split_and!. }
    ostep. destruct (give_back_spec m1 h p t Hi1 ltac:(by rewrite Em1)) as (m2 & E2 & Hi2 & Es2 & Hoth).
    destruct (clear_ref t m1) as [m3|]; [|done]. rewrite obind_Some in E2. ostep. rewrite E2. ostep.
    assert (queue_of which m2 = filter (.≠ p) (queue_of which m) ∧ queue_of (negb which) m2 = queue_of (negb which) m) as [Eq2 En2]
      by (rewrite Es2; rewrite <- Eq1, <- En1; by destruct which).
    destruct (IH m2 h Hi2 Hnd) as (m' & -> & Hi' & Eq' & En' & Hm').
    { intros q Hq. rewrite Eq2. apply filter_del. split; [by intros ->|]. apply Hl. by right. }
    assert (∀ q, q ≠ p → victim m2 obj l q ↔ victim m obj (p :: l) q) as Hv.
    { intros q Hq. unfold victim. rewrite (Hoth q Hq), Em1, elem_of_cons. tauto. }
    exists m'. split; [done|]. split; [done|]. split; [|split; [congruence|]].
    + rewrite Eq', Eq2, list_filter_filter. apply filter_in_iff. intros q _. split.
      * intros [Hq1 Hq2] Hq. apply Hq1. by apply Hv.
      * intros Hq. assert (q ≠ p) as Hne by (intros ->; apply Hq; split; [left|by rewrite Hp; cbn; rewrite Ha]). split; [by rewrite Hv|done].
    + intros q Hq. assert (q ≠ p) as Hne by (intros ->; apply Hq; split; [left|by rewrite Hp; cbn; rewrite Ha]).
      rewrite Hm' by (by rewrite Hv). by rewrite (Hoth q Hne), Em1.
  - destruct (IH m h Hi Hnd) as (m' & -> & Hi' & Eq' & En' & Hm'); [intros q Hq; apply Hl; by right|].
    assert (∀ q, victim m obj l q ↔ victim m obj (p :: l) q) as Hv.
    { intros q. unfold victim. rewrite elem_of_cons. split; [tauto|]. intros [[->|Hq] E]; [|done]. rewrite Hp in E. cbn in E. congruence. }
    exists m'. split; [done|]. split; [done|]. split; [|split; [done|]].
    + rewrite Eq'. apply filter_in_iff. intros q _. by rewrite Hv.
    + intros q Hq. apply Hm'. by rewrite Hv.
Qed.

End places.

Lemma requests_change R R' hole m h b : inv (R := R) hole m h → inv (R := R') hole (set_cancel R' b m) h.
Proof. intros [Hat Hfd Hnd Htm Hix Hrf Hu Hal Hde Hfr Har Hca]. split; try done. keep_arrays. Qed.

Abbreviation inv0 := (inv (R := [])).

(** ** What the two cancellations do *)

Lemma thread_cancel_spec m h p t : inv0 None m h → mem m !! p = Some t → type t ≠ THREAD_UNUSED →
  ∃ m' h', thread_cancel m p = Some m' ∧ inv0 None m' h'
    ∧ (∀ q, q ≠ p → mem m' !! q = mem m !! q) ∧ refs m' = refs (detached m p t)
    ∧ event m' = filter (.≠ p) (event m) ∧ ready m' = filter (.≠ p) (ready m)
    ∧ from_option (λ t, type t = THREAD_UNUSED) True (mem m' !! p).
Proof.
  intros Hi Hp Ht. unfold thread_cancel, do_thread_cancel, post. rewrite (i_cancel _ _ _ Hi). cbn [cancel_reqs set_cancel app cancel_loop].
  set (cr := CancelReq (Some p) 0 None). set (m0 := set_cancel [cr] (canceled m) m).
  rewrite decide_False by (cbn; by intros H; apply H). cbn [cr_thread cr]. ostep.
  destruct (cancel_thread_spec m0 h p t (requests_change _ [cr] _ _ _ _ Hi) Hp Ht) as (c & m1 & h1 & -> & Hi1 & H). do 2 ostep.
  eexists _, h1. split; [reflexivity|]. split; [by apply (requests_change [cr])|]. unfold detached in *. by destruct (ref t).
Qed.

Lemma thread_cancel_event_spec m h a : inv0 None m h → a ≠ 0 →
  ∃ m', thread_cancel_event m a = Some m' ∧ inv0 None m' h
    ∧ event m' = filter (λ q, arg <$> mem m !! q ≠ Some a) (event m) ∧ ready m' = filter (λ q, arg <$> mem m !! q ≠ Some a) (ready m)
    ∧ (∀ q, q ∈ event m ∨ q ∈ ready m → arg <$> mem m !! q ≠ Some a → mem m' !! q = mem m !! q)
    ∧ (∀ q, (q ∉ event m) → (q ∉ ready m) → mem m' !! q = mem m !! q).
Proof.
  intros Hi Ha. unfold thread_cancel_event, do_thread_cancel, post. rewrite (i_cancel _ _ _ Hi). cbn [cancel_reqs set_cancel app cancel_loop].
  set (cr := CancelReq None a None). set (m0 := set_cancel [cr] (canceled m) m). cbn [cr_eventobj cr]. rewrite decide_True by done.
  pose proof (requests_change _ [cr] _ _ _ (canceled m) Hi : inv None m0 h) as Hi0.
  destruct (i_nodup _ _ _ Hi) as (_ & Hne & Hnr & _).
  destruct (cancel_events_spec false a (event m0) m0 h Hi0 Hne ltac:(done)) as (m1 & -> & Hi1 & E1 & F1 & M1). cbn [queue_of negb] in E1, F1. ostep.
  destruct (cancel_events_spec true a (ready m1) m1 h Hi1 ltac:(rewrite F1; exact Hnr) ltac:(done)) as (m2 & -> & Hi2 & E2 & F2 & M2). cbn [queue_of negb] in E2, F2. do 2 ostep.
  assert (∀ q, q ∈ ready m → mem m1 !! q = mem m !! q) as Hr.
  { intros q Hq. apply M1. intros [He _]. destruct (queue_type true m0 h q Hi0 Hq) as (t & E & Ht).
    destruct (queue_type false m0 h q Hi0 He) as (t' & E' & Ht'). congruence. }
  assert (∀ q, victim m1 a (ready m1) q ↔ q ∈ ready m ∧ arg <$> mem m !! q = Some a) as Hv.
  { intros q. unfold victim. rewrite F1. split; intros [Hq E]; (split; [done|]); by rewrite Hr in * by done. }
  eexists. split; [reflexivity|]. split; [by apply (requests_change [cr])|]. cbn [event ready mem set_cancel]. split_and!.
  - rewrite F2, E1. apply filter_in_iff. intros q Hq. unfold victim. cbn in Hq |- *. tauto.
  - rewrite E2, F1. apply filter_in_iff. intros q Hq. unfold victim. cbn in Hq |- *. rewrite (Hr q Hq). tauto.
  - intros q Hq Hna. rewrite M2 by (rewrite Hv; tauto). apply M1. intros [_ ?]. done.
  - intros q H1 H2. rewrite M2 by (rewrite Hv; tauto). apply M1. intros [? _]. done.
Qed.

(** ** One turn of the loop *)

(** Changing the type of a thread does not change its time. *)
Definition same_times (mem mem' : gmap tptr thread) : Prop := ∀ q, time_of mem' q = time_of mem q.

Lemma ready_same_times mem p t : mem !! p = Some t → same_times mem (<[p := ready_type t]> mem).
Proof. intros Hp q. unfold time_of. destruct (decide (p = q)) as [<-|Hne]; [by rewrite lookup_insert_eq, Hp|by rewrite lookup_insert_ne]. Qed.

Lemma same_times_trans mem1 mem2 mem3 : same_times mem1 mem2 → same_times mem2 mem3 → same_times mem1 mem3.
Proof. intros H1 H2 q. by rewrite H2, H1. Qed.

Lemma sorted_mono {A} (P Q : A → A → Prop) l : (∀ x y, P x y → Q x y) → StronglySorted P l → StronglySorted Q l.
Proof. intros H. induction 1 as [|x l _ IH Hx]; constructor; [done|]. eapply Forall_impl; [exact Hx|]. intros y. apply H. Qed.

Section turn.
Context {R : list cancel_req}.
Implicit Types (m : thread_master) (h : list tptr).

Lemma process_loop_spec l : ∀ m h, inv (R := R) None m h → event m = l →
  ∃ m' mem', process_loop l m = Some m' ∧ inv (R := R) None m' h ∧ same_times (mem m) mem'
    ∧ m' = set_ready (ready m ++ l) (set_mem mem' (set_event [] m)).
Proof.
  induction l as [|p l IH]; intros m h Hi He; cbn [process_loop].
  { exists m, (mem m). split; [done|]. split; [done|]. split; [done|]. rewrite app_nil_r. destruct m. cbn in *. by subst. }
  destruct (queue_type false m h p Hi) as (t & Hp & Ht); [cbn; rewrite He; left|].
  destruct (unplace_event m h p t Hi Hp Ht) as [_ Hi1].
  assert (filter (.≠ p) (event m) = l) as Ef.
  { destruct (i_nodup _ _ _ Hi) as (_ & Hnd & _). rewrite He in Hnd |- *. apply NoDup_cons in Hnd as [Hpl _].
    rewrite filter_cons_False by (intros H; by apply H). by apply filter_absent. }
  rewrite Ef in Hi1. destruct (make_ready_spec (set_event l m) h p t Hi1 Hp) as (m1 & -> & Hi2 & E1). ostep.
  destruct (IH m1 h Hi2 ltac:(by rewrite E1)) as (m' & mem' & -> & Hi' & Hs & E').
  exists m', mem'. split; [done|]. split; [done|]. split.
  - eapply same_times_trans; [|exact Hs]. rewrite E1. cbn. by apply ready_same_times.
  - rewrite E', E1. cbn. by rewrite <- app_assoc.
Qed.

Lemma first_timer m h : inv (R := R) None m h → size (timer m) = length h ∧
  ∀ p r, h = p :: r → node_at (array (timer m)) 0 = Some p ∧ (∃ t, mem m !! p = Some t ∧ type t = THREAD_TIMER ∧ sands t = time_of (mem m) p)
    ∧ ∀ q, q ∈ h → time_le (time_of (mem m) p) (time_of (mem m) q).
Proof.
  intros Hi. destruct (valid_inv _ _ _ (i_timer _ _ _ Hi)) as (junk & n & Eq & _ & _ & Hheap). split; [by rewrite Eq|].
  intros p r ->. split; [rewrite Eq; cbn [array]; by apply node_at_block|]. split.
  - assert (at_place m (p :: r) THREAD_TIMER p) as (_ & t & E & Ht)%(i_at _ _ _ Hi) by (cbn; left).
    exists t. split; [done|]. split; [done|]. unfold time_of. by rewrite E.
  - intros q Hq. apply cmp_le. by apply (heap_root_min _ _ _ _ Hheap).
Qed.

(** Timers that are due, in the order of their times. *)
Definition timers_run (now : timeval) m h (m' : thread_master) (h' due : list tptr) : Prop :=
  h ≡ₚ due ++ h' ∧ StronglySorted (λ a b, time_le (time_of (mem m) a) (time_of (mem m) b)) due
  ∧ Forall (λ p, time_le (time_of (mem m) p) now) due ∧ Forall (λ p, ¬ time_le (time_of (mem m) p) now) h'
  ∧ ∃ q ix mem', m' = set_timer q ix (set_ready (ready m ++ due) (set_mem mem' m)) ∧ same_times (mem m) mem'.

Lemma process_timers_loop_spec now fuel : ∀ m h, inv (R := R) None m h → length h ≤ fuel →
  ∃ m' h' due, process_timers_loop fuel now m = Some m' ∧ inv (R := R) None m' h' ∧ timers_run now m h m' h' due.
Proof.
  assert (∀ m h, inv (R := R) None m h → Forall (λ p, ¬ time_le (time_of (mem m) p) now) h → timers_run now m h m h []) as Hstop.
  { intros m h Hi Hf. split; [done|]. split; [constructor|]. split; [constructor|]. split; [done|].
    exists (timer m), (tindex m), (mem m). split; [|done]. rewrite app_nil_r. by destruct m. }
  induction fuel as [|fuel IH]; intros m h Hi Hf; cbn [process_timers_loop].
  { destruct h; [|cbn in Hf; lia]. exists m, [], []. split; [done|]. split; [done|]. by apply Hstop. }
  destruct (first_timer m h Hi) as [Hsz Hfirst]. rewrite Hsz. destruct h as [|p r].
  { exists m, [], []. split; [by rewrite decide_True|]. split; [done|]. by apply Hstop. }
  rewrite decide_False by (cbn; lia). destruct (Hfirst p r eq_refl) as (-> & (t & Hp & Ht & Hs) & Hmin). ostep. rewrite Hp. ostep. rewrite Hs.
  destruct (timer_lt now (time_of (mem m) p)) eqn:Elt.
  { exists m, (p :: r), []. split; [done|]. split; [done|]. apply Hstop; [done|]. apply Forall_forall. intros q Hq.
    specialize (Hmin q Hq). apply timer_lt_spec in Elt. unfold time_le in *. lia. }
  destruct (unplace_timer m (p :: r) p 0 Hi eq_refl) as (q & ix & h1 & _ & Hperm & Hi1 & Hdeq). rewrite (Hdeq eq_refl). ostep.
  destruct (make_ready_spec (set_timer q ix m) h1 p t Hi1 Hp) as (m1 & -> & Hi2 & E1). ostep.
  assert (same_times (mem m) (mem m1)) as Hst by (rewrite E1; cbn; by apply ready_same_times).
  pose proof (Permutation_length Hperm) as Hlen. cbn [length] in Hlen, Hf.
  destruct (IH m1 h1 Hi2 ltac:(lia)) as (m' & h' & due & E & Hi' & Hp' & Hs' & Hd' & Hn' & (q' & ix' & mem' & Em' & Hst')).
  exists m', h', (p :: due). split; [exact E|]. split; [done|].
  assert (∀ x, time_of (mem m1) x = time_of (mem m) x) as Ht1 by exact Hst.
  split; [rewrite Hperm, Hp'; done|]. split; [|split; [|split]].
  - constructor.
    + eapply sorted_mono; [|exact Hs']. intros x y. cbv beta. by rewrite !Ht1.
    + apply Forall_forall. intros x Hx. apply Hmin. rewrite Hperm, Hp'. right. apply elem_of_app. by left.
  - constructor; [by apply timer_ge|]. eapply Forall_impl; [exact Hd'|]. intros x. cbv beta. by rewrite Ht1.
  - eapply Forall_impl; [exact Hn'|]. intros x. cbv beta. by rewrite Ht1.
  - exists q', ix', mem'. split; [|by eapply same_times_trans]. rewrite Em', E1. cbn. by rewrite <- app_assoc.
Qed.

(** The tasks of a descriptor that poll reports. *)
Definition hit m (cf : pollfd) (p : tptr) : Prop :=
  (Z.land (revents cf) (Z.lor POLLIN POLLHUP) ≠ 0%Z ∧ rd m !! fd cf = Some (Some p))
  ∨ (Z.land (revents cf) POLLOUT ≠ 0%Z ∧ wr m !! fd cf = Some (Some p)).

(** [helper] on one slot of one array: the task in it, if any, becomes ready. *)
Lemma io_helper_spec (w : bool) m h state pos n o : inv (R := R) None m h → pos < pfdcount m → (if w then wr m else rd m) !! n = Some o →
  ∃ m' mem' l, thread_process_io_helper m o state pos = Some m' ∧ inv (R := R) None m' h ∧ same_times (mem m) mem'
    ∧ length l = length (pfds m)
    ∧ m' = set_ready (ready m ++ option_list o) (set_mem mem' (set_pfds l (pfdcount m)
        (if w then set_wr (<[n := None]> (wr m)) m else set_rd (<[n := None]> (rd m)) m))).
Proof.
  intros Hi Hpos Ho. destruct (i_arrays _ _ _ Hi) as [Lr Lw Lp Lc Hc Hcc Hrange]. unfold thread_process_io_helper.
  destruct (lookup_lt_is_Some_2 (pfds m) pos ltac:(lia)) as [pf Hpf]. rewrite Hpf. ostep.
  set (l := <[pos := drop_events state pf]> (pfds m)). assert (length l = length (pfds m)) as Ll by (subst l; by rewrite length_insert).
  assert (inv (R := R) None (set_pfds l (pfdcount m) m) h) as Hi1.
  { apply pfds_change; [done|lia|done|]. by apply (drop_events_range (λ x, x < fd_limit m)). }
  destruct o as [p|].
  - assert (at_place m h (if w then THREAD_WRITE else THREAD_READ) p) as Hpl by (destruct w; by eapply list_elem_of_lookup_2).
    apply (i_at _ _ _ Hi) in Hpl as (_ & t & Hp & Ht). cbn [mem set_pfds]. rewrite Hp. ostep.
    assert (u t = U_fd n) as Hu.
    { pose proof (i_fd _ _ _ Hi p n) as E. rewrite Hp in E. cbn in E. destruct w; [specialize (E (or_intror Ho))|specialize (E (or_introl Ho))]; by injection E. }
    rewrite Hu. ostep. destruct (unplace_io w (set_pfds l (pfdcount m) m) h p t n Hi1 Hp Ht Hu) as [Ew Hi2].
    set (m2 := if w then set_wr (<[n := None]> (wr m)) (set_pfds l (pfdcount m) m) else set_rd (<[n := None]> (rd m)) (set_pfds l (pfdcount m) m)) in *.
    assert ((if decide (type t = THREAD_READ) then a ← Prelude.write (rd (set_pfds l (pfdcount m) m)) n None; Some (set_rd a (set_pfds l (pfdcount m) m))
             else a ← Prelude.write (wr (set_pfds l (pfdcount m) m)) n None; Some (set_wr a (set_pfds l (pfdcount m) m))) = Some m2) as ->.
    { subst m2. rewrite Ht. destruct w; [rewrite decide_False by done|rewrite decide_True by done]; by rewrite Ew. }
    ostep. destruct (make_ready_spec m2 h p t Hi2 ltac:(subst m2; by destruct w)) as (m' & -> & Hi' & E').
    exists m', (<[p := ready_type t]> (mem m)), l. split; [done|]. split; [done|]. split; [by apply ready_same_times|]. split; [done|].
    rewrite E'. subst m2. by destruct w.
  - eexists _, (mem m), l. split; [reflexivity|]. split; [done|]. split; [done|]. split; [done|].
    rewrite app_nil_r. destruct w; [rewrite (list_insert_id (wr m) n None Ho)|rewrite (list_insert_id (rd m) n None Ho)]; by destruct m.
Qed.

(** What the walk over the polled descriptors changes besides the ready list. *)
Definition io_frame m (m' : thread_master) : Prop :=
  timer m' = timer m ∧ event m' = event m ∧ cancel_reqs m' = cancel_reqs m ∧ refs m' = refs m ∧ spin m' = spin m
  ∧ fd_limit m' = fd_limit m ∧ same_times (mem m) (mem m') ∧ pfdcount m' ≤ pfdcount m ∧ length (pfds m') = length (pfds m).

Lemma io_frame_trans m1 m2 m3 : io_frame m1 m2 → io_frame m2 m3 → io_frame m1 m3.
Proof.
  intros (A1 & A2 & A3 & A4 & A5 & A6 & A7 & A8 & A9) (B1 & B2 & B3 & B4 & B5 & B6 & B7 & B8 & B9).
  split_and!; congruence || lia || by eapply same_times_trans.
Qed.

Lemma io_frame_refl m : io_frame m m.
Proof. by split_and!. Qed.

(** One polled descriptor: its reader, then its writer. *)
Lemma io_step_spec m h pos cf : inv (R := R) None m h → pos < pfdcount m → fd cf < fd_limit m →
  ∃ m' io, (m ← (if (Z.land (revents cf) (Z.lor POLLIN POLLHUP) =? 0)%Z then Some m
                 else p ← rd m !! fd cf; thread_process_io_helper m p POLLIN pos);
            (if (Z.land (revents cf) POLLOUT =? 0)%Z then Some m else p ← wr m !! fd cf; thread_process_io_helper m p POLLOUT pos)) = Some m'
    ∧ inv (R := R) None m' h ∧ io_frame m m' ∧ ready m' = ready m ++ io ∧ pfdcount m' = pfdcount m ∧ copycount m' = copycount m ∧ copy m' = copy m
    ∧ (∀ p, p ∈ io ↔ hit m cf p)
    ∧ (∀ n p, rd m' !! n = Some (Some p) → rd m !! n = Some (Some p)) ∧ (∀ n p, rd m !! n = Some (Some p) → rd m' !! n = Some (Some p) ∨ p ∈ io)
    ∧ (∀ n p, wr m' !! n = Some (Some p) → wr m !! n = Some (Some p)) ∧ (∀ n p, wr m !! n = Some (Some p) → wr m' !! n = Some (Some p) ∨ p ∈ io).
Proof.
  intros Hi Hpos Hfd. destruct (i_arrays _ _ _ Hi) as [Lr Lw Lp Lc Hc Hcc Hrange].
  destruct (lookup_lt_is_Some_2 (rd m) (fd cf) ltac:(lia)) as [o1 Ho1]. destruct (lookup_lt_is_Some_2 (wr m) (fd cf) ltac:(lia)) as [o2 Ho2].
  assert (∀ (l : list (option tptr)) n o i p, l !! n = Some o → (<[n := None]> l !! i = Some (Some p) → l !! i = Some (Some p))
    ∧ (l !! i = Some (Some p) → <[n := None]> l !! i = Some (Some p) ∨ p ∈ option_list o)) as Harr.
  { intros l n o i p Hn. split; [intros [[-> [=]]|[? _]]%insert_Some_inv; done|]. intros Hl.
    destruct (decide (n = i)) as [->|Hne]; [right; rewrite Hn in Hl; injection Hl as ->; left|left; by rewrite list_lookup_insert_ne]. }
  assert (∃ m1 io1, (if (Z.land (revents cf) (Z.lor POLLIN POLLHUP) =? 0)%Z then Some m
                 else p ← rd m !! fd cf; thread_process_io_helper m p POLLIN pos) = Some m1 ∧ inv (R := R) None m1 h ∧ io_frame m m1
    ∧ ready m1 = ready m ++ io1 ∧ pfdcount m1 = pfdcount m ∧ copycount m1 = copycount m ∧ copy m1 = copy m ∧ wr m1 = wr m
    ∧ (∀ p, p ∈ io1 ↔ Z.land (revents cf) (Z.lor POLLIN POLLHUP) ≠ 0%Z ∧ rd m !! fd cf = Some (Some p))
    ∧ (∀ n p, rd m1 !! n = Some (Some p) → rd m !! n = Some (Some p)) ∧ (∀ n p, rd m !! n = Some (Some p) → rd m1 !! n = Some (Some p) ∨ p ∈ io1))
    as (m1 & io1 & -> & Hi1 & Hf1 & Hr1 & Hp1 & Hc1 & Hy1 & Hw1 & Hio1 & Ha1 & Hb1).
  { destruct (Z.eqb_spec (Z.land (revents cf) (Z.lor POLLIN POLLHUP)) 0) as [E0|E0].
    - exists m, []. rewrite app_nil_r. split_and!; try done; [|auto]. intros p. rewrite elem_of_nil. tauto.
    - rewrite Ho1. ostep. destruct (io_helper_spec false m h POLLIN pos (fd cf) o1 Hi Hpos Ho1) as (m1 & mem1 & l1 & -> & Hi1 & Hs & Ll & E).
      exists m1, (option_list o1). split; [done|]. split; [done|]. rewrite E. cbn. split_and!; try done.
      + intros p. split; [intros Hp; split; [done|]; by destruct o1 as [x|]; [apply list_elem_of_singleton in Hp as ->|apply elem_of_nil in Hp]|].
        intros (_ & [= ->]). left.
      + intros n p. by apply (Harr (rd m) (fd cf) o1).
      + intros n p. by apply (Harr (rd m) (fd cf) o1). }
  ostep. destruct (Z.eqb_spec (Z.land (revents cf) POLLOUT) 0) as [E0|E0].
  - exists m1, io1. split_and!; try done; [|by rewrite Hw1|rewrite Hw1; auto]. intros p. rewrite Hio1. unfold hit. tauto.
  - rewrite Hw1, Ho2. ostep.
    destruct (io_helper_spec true m1 h POLLOUT pos (fd cf) o2 Hi1 ltac:(lia) ltac:(by rewrite Hw1)) as (m2 & mem2 & l2 & -> & Hi2 & Hs & Ll & E).
    exists m2, (io1 ++ option_list o2). split; [done|]. split; [done|].
    assert (io_frame m1 m2) as Hf2 by (rewrite E; split_and!; done).
    split; [by eapply io_frame_trans|]. rewrite E. cbn. split; [rewrite Hr1; by rewrite <- app_assoc|]. split_and!; try done.
    + intros p. rewrite elem_of_app, Hio1. unfold hit. rewrite Ho2. split; (intros [?|Hp]; [by left|right]).
      * split; [done|]. by destruct o2 as [x|]; [apply list_elem_of_singleton in Hp as ->|apply elem_of_nil in Hp].
      * destruct Hp as [_ [= ->]]. left.
    + intros n p H. rewrite elem_of_app. destruct (Hb1 n p H); tauto.
    + intros n p. rewrite Hw1. by apply (Harr (wr m) (fd cf) o2).
    + intros n p H. rewrite elem_of_app. rewrite Hw1. destruct (proj2 (Harr (wr m) (fd cf) o2 n p Ho2) H); tauto.
Qed.

Definition polled m (i : nat) : list pollfd := drop i (take (copycount m) (copy m)).
Definition nonzero (l : list pollfd) : nat := length (filter (λ pf, revents pf ≠ 0%Z) l).

Lemma polled_cons m i cf : copy m !! i = Some cf → i < copycount m → polled m i = cf :: polled m (S i).
Proof. intros Hcf Hi. unfold polled. apply drop_S. by apply lookup_take_Some. Qed.

Lemma polled_delete l c i : i < c → c ≤ length l → drop i (take (c - 1) (delete_pollfd l i c)) = drop (S i) (take c l).
Proof.
  intros Hi Hc. unfold delete_pollfd. rewrite app_assoc, take_app_length' by (rewrite length_app, !length_take, length_drop; lia).
  rewrite drop_app_length' by (rewrite length_take; lia). rewrite take_drop_commute. do 2 f_equal. lia.
Qed.

(** The walk stops when nothing that was reported is left. *)
Lemma io_stop m num i nready : ¬ (i < copycount m ∧ nready < num) → num = nready + nonzero (polled m i) →
  ∀ p, p ∈ [] ↔ ∃ cf, cf ∈ polled m i ∧ hit m cf p.
Proof.
  intros Hstop Hnum p. rewrite elem_of_nil. split; [done|]. intros (cf & Hcf & Hh).
  assert (copycount m ≤ i ∨ nonzero (polled m i) = 0) as [Hge|Hz] by lia.
  - unfold polled in Hcf. rewrite drop_ge in Hcf by (rewrite length_take; lia). by apply elem_of_nil in Hcf.
  - unfold nonzero in Hz. destruct (decide (revents cf = 0%Z)) as [E|E].
    + unfold hit in Hh. rewrite E, !Z.land_0_l in Hh. tauto.
    + pose proof (filter_member (λ pf, revents pf ≠ 0%Z) _ cf Hcf E). lia.
Qed.

Lemma process_io_loop_spec num fuel : ∀ m h i nready, inv (R := R) None m h → copycount m = pfdcount m →
  Forall (λ pf, fd pf < fd_limit m) (take (copycount m) (copy m)) → copycount m - i ≤ fuel →
  num = nready + nonzero (polled m i) →
  ∃ m' io, process_io_loop fuel m num i nready = Some m' ∧ inv (R := R) None m' h ∧ io_frame m m' ∧ ready m' = ready m ++ io
    ∧ ∀ p, p ∈ io ↔ ∃ cf, cf ∈ polled m i ∧ hit m cf p.
Proof.
  induction fuel as [|fuel IH]; intros m h i nready Hi Hcc Hrange Hf Hnum; cbn [process_io_loop];
    (destruct (decide (i < copycount m ∧ nready < num)) as [[Hic Hnr]|Hstop];
     [|exists m, []; rewrite app_nil_r; split; [done|]; split; [done|]; split; [apply io_frame_refl|]; split; [done|by apply (io_stop m num i nready)]]);
    [lia|].
  destruct (i_arrays _ _ _ Hi) as [Lr Lw Lp Lc Hc Hc2 _].
  destruct (lookup_lt_is_Some_2 (copy m) i ltac:(lia)) as [cf Hcf]. rewrite Hcf. ostep.
  pose proof (polled_cons m i cf Hcf Hic) as Hcons. rewrite Hcons in Hnum |- *. unfold nonzero in Hnum.
  assert (fd cf < fd_limit m) as Hfd.
  { rewrite Forall_lookup in Hrange. apply (Hrange i). by apply lookup_take_Some. }
  destruct (Z.eqb_spec (revents cf) 0) as [E0|E0].
  - rewrite filter_cons_False in Hnum by (intros H; by apply H).
    destruct (IH m h (S i) nready Hi Hcc Hrange ltac:(lia) Hnum) as (m' & io & E & Hi' & Hfr & Hr & Hio).
    exists m', io. split_and!; try done. intros p. rewrite Hio. split; [intros (x & Hx & Hh); exists x; split; [by right|done]|].
    intros (x & [->|Hx]%elem_of_cons & Hh); [|by exists x]. unfold hit in Hh. rewrite E0, !Z.land_0_l in Hh. tauto.
  - rewrite filter_cons_True in Hnum by done. cbn [length] in Hnum.
    destruct (io_step_spec m h i cf Hi ltac:(lia) Hfd) as (m1 & io1 & E1 & Hi1 & Hf1 & Hr1 & Hp1 & Hc1 & Hy1 & Hio1 & Ra & Rb & Wa & Wb).
    set (x1 := if (Z.land (revents cf) (Z.lor POLLIN POLLHUP) =? 0)%Z then _ else _) in *. clearbody x1.
    destruct x1 as [x|]; [|done]. rewrite obind_Some in E1. ostep. rewrite E1. ostep.
    pose proof Hf1 as (_ & _ & _ & _ & _ & El & _ & _ & Elp).
    assert (∀ m2, inv (R := R) None m2 h → copycount m2 = pfdcount m2 → rd m2 = rd m1 → wr m2 = wr m1 → ready m2 = ready m1 → io_frame m1 m2 →
      Forall (λ pf, fd pf < fd_limit m2) (take (copycount m2) (copy m2)) → ∀ j, copycount m2 - j ≤ fuel → polled m2 j = polled m (S i) →
      ∃ m' io, process_io_loop fuel m2 num j (S nready) = Some m' ∧ inv (R := R) None m' h ∧ io_frame m m' ∧ ready m' = ready m ++ io
        ∧ ∀ p, p ∈ io ↔ ∃ cf0, cf0 ∈ cf :: polled m (S i) ∧ hit m cf0 p) as Hnext.
    { intros m2 Hi2 Hcc2 Er Ew Ey Hf2 Hrange2 j Hj Hpol.
      destruct (IH m2 h j (S nready) Hi2 Hcc2 Hrange2 Hj) as (m' & io & E & Hi' & Hfr & Hr & Hio); [rewrite Hpol; unfold nonzero; lia|].
      exists m', (io1 ++ io). split; [done|]. split; [done|]. split; [eapply io_frame_trans; [exact Hf1|by eapply io_frame_trans]|].
      split; [rewrite Hr, Ey, Hr1; by rewrite app_assoc|]. intros p. rewrite elem_of_app, Hio1, Hio, Hpol. split.
      - intros [Hh|(x0 & Hx & Hh)]; [exists cf; split; [left|done]|]. exists x0. split; [by right|].
        unfold hit in *. rewrite Er, Ew in Hh. destruct Hh as [[? ?%Ra]|[? ?%Wa]]; tauto.
      - intros (x0 & [->|Hx]%elem_of_cons & Hh); [by left|].
        destruct Hh as [[Hz Hq]|[Hz Hq]]; [destruct (Rb _ _ Hq) as [Hq'|?]|destruct (Wb _ _ Hq) as [Hq'|?]]; try (left; by apply Hio1);
          right; exists x0; (split; [done|]); unfold hit; rewrite Er, Ew; tauto. }
    destruct (Z.land (revents cf) POLLNVAL =? 0)%Z.
    + apply (Hnext m1); try done; [congruence|by rewrite El, Hc1, Hy1|lia|]. unfold polled. by rewrite Hc1, Hy1.
    + destruct (i_arrays _ _ _ Hi1) as [_ _ Lp1 Lc1 Hcp1 Hcc1 Hrange1].
      apply Hnext; try done; cbn [copycount pfdcount set_copy set_pfds copy fd_limit].
      * apply copy_change; cbn; [|rewrite delete_pollfd_length; lia|lia]. apply pfds_change; [done|rewrite delete_pollfd_length; lia|lia|].
        apply delete_pollfd_range; [lia|lia|done].
      * congruence.
      * split_and!; try done; cbn; [lia|]. rewrite delete_pollfd_length; lia.
      * rewrite El, Hc1, Hy1. apply delete_pollfd_range; [lia|lia|done].
      * lia.
      * unfold polled. cbn. rewrite Hc1, Hy1. apply polled_delete; lia.
Qed.

End turn.

(** ** Fetching *)

(** Tasks become ready, otherwise they stay as they are. *)
Definition readied (t t' : thread) : Prop := t' = t ∨ t' = ready_type t.
Definition mem_ready (m m' : thread_master) : Prop := ∀ q, option_Forall2 readied (mem m !! q) (mem m' !! q).

Lemma mem_ready_same m m' : mem m' = mem m → mem_ready m m'.
Proof. intros E q. rewrite E. destruct (mem m !! q); constructor. by left. Qed.

Lemma mem_ready_trans m1 m2 m3 : mem_ready m1 m2 → mem_ready m2 m3 → mem_ready m1 m3.
Proof.
  intros H1 H2 q. specialize (H1 q). specialize (H2 q). destruct H1 as [t1 t2 Ha|]; inversion H2 as [? t3 Hb|]; subst; constructor.
  destruct Ha as [->| ->], Hb as [->| ->]; [by left|by right..].
Qed.

Lemma make_ready_mem m p m' : make_ready m p = Some m' → mem_ready m m'.
Proof.
  unfold make_ready. intros (t & Hp & [= <-])%bind_Some q. cbn. destruct (decide (p = q)) as [<-|Hne].
  - rewrite Hp, lookup_insert_eq. constructor. by right.
  - rewrite lookup_insert_ne by done. destruct (mem m !! q); constructor. by left.
Qed.

Lemma process_loop_mem l : ∀ m m', process_loop l m = Some m' → mem_ready m m'.
Proof.
  induction l as [|p l IH]; intros m m' E; cbn [process_loop] in E; [injection E as <-; by apply mem_ready_same|].
  apply bind_Some in E as (m1 & E1 & E). apply make_ready_mem in E1. eapply mem_ready_trans; [exact E1|by apply IH].
Qed.

Lemma process_timers_mem now fuel : ∀ m m', process_timers_loop fuel now m = Some m' → mem_ready m m'.
Proof.
  induction fuel as [|fuel IH]; intros m m' E; cbn [process_timers_loop] in E; [injection E as <-; by apply mem_ready_same|].
  destruct (decide _); [injection E as <-; by apply mem_ready_same|]. apply bind_Some in E as (p & _ & E). apply bind_Some in E as (t & _ & E).
  destruct (timer_lt now (sands t)); [injection E as <-; by apply mem_ready_same|]. apply bind_Some in E as ([[? q] ix] & _ & E).
  apply bind_Some in E as (m1 & E1 & E). apply make_ready_mem in E1. eapply mem_ready_trans; [exact E1|by apply IH].
Qed.

Lemma io_helper_mem m p state pos m' : thread_process_io_helper m p state pos = Some m' → mem_ready m m'.
Proof.
  unfold thread_process_io_helper. intros E. apply bind_Some in E as (pf & _ & E). destruct p as [p|]; [|injection E as <-; by apply mem_ready_same].
  apply bind_Some in E as (t & _ & E). apply bind_Some in E as (n & _ & E). apply bind_Some in E as (m1 & E1 & E%make_ready_mem).
  eapply mem_ready_trans; [|exact E]. apply mem_ready_same. destruct (decide _); apply bind_Some in E1 as (? & _ & [= <-]); done.
Qed.

Lemma process_io_mem fuel : ∀ m num i nready m', process_io_loop fuel m num i nready = Some m' → mem_ready m m'.
Proof.
  induction fuel as [|fuel IH]; intros m num i nready m' E; cbn [process_io_loop] in E; (destruct (decide _); [|injection E as <-; by apply mem_ready_same]); [done|].
  apply bind_Some in E as (cf & _ & E). destruct (revents cf =? 0)%Z; [by apply IH in E|].
  apply bind_Some in E as (m1 & E1 & E). apply bind_Some in E as (m2 & E2 & E).
  assert (mem_ready m m1) as H1 by (destruct (_ =? 0)%Z; [injection E1 as <-; by apply mem_ready_same|apply bind_Some in E1 as (? & _ & E1); by eapply io_helper_mem]).
  assert (mem_ready m1 m2) as H2 by (destruct (Z.land (revents cf) POLLOUT =? 0)%Z; [injection E2 as <-; by apply mem_ready_same|apply bind_Some in E2 as (? & _ & E2); by eapply io_helper_mem]).
  eapply mem_ready_trans; [exact H1|]. eapply mem_ready_trans; [exact H2|]. destruct (Z.land (revents cf) POLLNVAL =? 0)%Z; apply IH in E; exact E.
Qed.

(** Giving back before clearing the reference is the same. *)
Lemma run_give_back m p t : mem m !! p = Some t → (∀ r, ref t = Some r → is_Some (refs m !! r)) →
  ('(t, m) ← thread_run m p; m ← clear_ref t m; Some (Task t, m)) = (m ← (m ← clear_ref t m; thread_add_unuse m p); Some (Task t, m)).
Proof.
  intros Hp Hr. unfold thread_run. rewrite Hp. ostep. unfold clear_ref, set_ref, thread_add_unuse.
  destruct (ref t) as [r|] eqn:E; [destruct (Hr r eq_refl) as [v Hv]; rewrite Hv; do 2 ostep; cbn [mem set_refs]|ostep];
    rewrite Hp; ostep; cbn [unuse set_refs set_tindex set_mem].
  - destruct (decide (length (unuse m) < THREAD_UNUSED_DEPTH)).
    + repeat ostep. rewrite E. cbn [refs set_unuse set_tindex set_mem]. rewrite Hv. by repeat ostep.
    + unfold thread_free. cbn [mem alloc set_refs set_tindex set_mem]. rewrite lookup_insert_eq. repeat ostep. destruct (decide (0 < alloc m)%Z); [|done].
      repeat ostep. rewrite E. cbn [refs set_alloc set_tindex set_mem]. rewrite Hv. by repeat ostep.
  - destruct (decide (length (unuse m) < THREAD_UNUSED_DEPTH)); [repeat ostep; by rewrite E|].
    unfold thread_free. cbn [mem alloc set_tindex set_mem]. rewrite lookup_insert_eq. ostep. destruct (decide (0 < alloc m)%Z); [|done]. repeat ostep. by rewrite E.
Qed.

Lemma idle_cancel m h : inv0 None m h → do_thread_cancel m = Some (set_cancel [] true m) ∧ inv0 None (set_cancel [] true m) h.
Proof.
  intros Hi. unfold do_thread_cancel. rewrite (i_cancel _ _ _ Hi). cbn [cancel_loop]. ostep. split; [done|]. by apply (requests_change []).
Qed.

(** A ready task is handed out at once. *)
Lemma fetch_ready env m h p rest : inv0 None m h → ready m = p :: rest →
  ∃ t m', thread_fetch env m = Some (Task t, m') ∧ mem m !! p = Some t ∧ type t = THREAD_READY ∧ inv0 None m' h
    ∧ ready m' = rest ∧ event m' = event m ∧ (∀ q, q ≠ p → mem m' !! q = mem m !! q) ∧ refs m' = refs (detached m p t)
    ∧ pfdcount m' = pfdcount m ∧ spin m' = spin m ∧ fd_limit m' = fd_limit m.
Proof.
  intros Hi Hr. destruct (idle_cancel m h Hi) as [E0 Hi0]. set (m0 := set_cancel [] true m) in *.
  destruct (queue_type true m0 h p Hi0 ltac:(cbn; rewrite Hr; left)) as (t & Hp & Ht).
  destruct (unplace_ready m0 h p t Hi0 Hp Ht) as [_ Hi1].
  assert (filter (.≠ p) (ready m0) = rest) as Ef.
  { destruct (i_nodup _ _ _ Hi) as (_ & _ & Hnd & _). cbn. rewrite Hr in Hnd |- *. apply NoDup_cons in Hnd as [Hpl _].
    rewrite filter_cons_False by (intros H; by apply H). by apply filter_absent. }
  rewrite Ef in Hi1. destruct (give_back_spec (set_ready rest m0) h p t Hi1 Hp) as (m' & E' & Hi' & Em' & Hoth).
  exists t, m'. split.
  - assert (('(t0, m1) ← thread_run (set_ready rest m0) p; m1 ← clear_ref t0 m1; Some (Task t0, m1)) = Some (Task t, m')) as Hrun.
    { rewrite (run_give_back (set_ready rest m0) p t Hp); [by rewrite E'|].
      intros r Hr0. exists (Some p). apply (i_ref _ _ _ Hi1). eauto. }
    destruct env; cbn [thread_fetch]; rewrite E0; ostep; cbn [ready m0 set_cancel]; rewrite Hr; exact Hrun.
  - split; [done|]. split; [done|]. split; [done|]. rewrite Em'. cbn. split_and!; try done. unfold detached. by destruct (ref t).
Qed.

Lemma wait_time_spec now m h : inv0 None m h → ∃ tw, wait_time now m = Some tw ∧ (tw = None ↔ ready m = [] ∧ h = []).
Proof.
  intros Hi. unfold wait_time, thread_timer_wait. destruct (first_timer m h Hi) as [Hsz Hfirst]. destruct (decide (ready m = [])) as [Hr|Hr].
  - rewrite Hsz. destruct h as [|p r].
    + rewrite decide_True by done. ostep. eexists. split; [reflexivity|]. rewrite decide_False by (intros H; by apply H). done.
    + rewrite decide_False by (cbn; lia). destruct (Hfirst p r eq_refl) as (-> & (t & Hp & _) & _). ostep. rewrite Hp. do 2 ostep.
      eexists. split; [reflexivity|]. rewrite (decide_False (P := ready m ≠ [])) by (intros H; by apply H).
      destruct (timer_lt _ _); (split; [done|by intros [_ ?]]).
  - ostep. eexists. split; [reflexivity|]. rewrite decide_True by done. split; [done|]. by intros [? _].
Qed.

(** One turn with nothing ready: events first, then the timers that are due, then
    the tasks of the descriptors that poll reports. *)
Definition turn (m : thread_master) (h : list tptr) (kernel : nat → Z) (now : timeval) (m1 : thread_master) (h1 due io : list tptr) : Prop :=
  inv0 None m1 h1 ∧ ready m1 = event m ++ due ++ io ∧ event m1 = [] ∧ refs m1 = refs m ∧ spin m1 = spin m
  ∧ fd_limit m1 = fd_limit m ∧ pfdcount m1 ≤ pfdcount m
  ∧ h ≡ₚ due ++ h1 ∧ StronglySorted (λ a b, time_le (time_of (mem m) a) (time_of (mem m) b)) due
  ∧ Forall (λ p, time_le (time_of (mem m) p) now) due ∧ Forall (λ p, ¬ time_le (time_of (mem m) p) now) h1
  ∧ (∀ p, p ∈ io ↔ ∃ pf, pf ∈ take (pfdcount m) (pfds m) ∧ hit m (set_revents kernel pf) p) ∧ mem_ready m m1.

Lemma fetch_turn e env m h kernel : inv0 None m h → ready m = [] → outcome e = inr kernel → pfdcount m + 1 < fd_limit m →
  ¬ (event m = [] ∧ h = [] ∧ pfdcount m = 0) →
  ∃ m1 h1 due io, thread_fetch (e :: env) m = (if spin m then thread_fetch env m1 else Some (Untouched, m1)) ∧ turn m h kernel (after e) m1 h1 due io.
Proof.
  intros Hi Hr Ho Hroom Hlive. destruct (idle_cancel m h Hi) as [E0 Hi0]. set (m0 := set_cancel [] true m) in *.
  cbn [thread_fetch]. rewrite E0. ostep. replace (ready m0) with (@nil tptr) by (by rewrite <- Hr).
  destruct (process_loop_spec (event m0) m0 h Hi0 eq_refl) as (ma & mema & Ea & Hia & Hsa & Ema). unfold thread_process. rewrite Ea. ostep.
  destruct (wait_time_spec (before e) ma h Hia) as (tw & -> & Htw). ostep.
  assert (ready ma = event m) as Hra by (rewrite Ema; cbn; by rewrite Hr).
  rewrite decide_False.
  2:{ intros [E Hp]. apply Htw in E as [E ->]. apply Hlive. rewrite Hra in E. rewrite Ema in Hp. done. }
  rewrite Ho. destruct (i_arrays _ _ _ Hia) as [Lr Lw Lp Lc Hc Hcc Hrange].
  set (mb := set_copy (take (pfdcount ma) (pfds ma) ++ drop (pfdcount ma) (copy ma)) (pfdcount ma) ma).
  assert (length (take (pfdcount ma) (pfds ma) ++ drop (pfdcount ma) (copy ma)) = fd_limit ma) as Lcopy
    by (rewrite length_app, length_take, length_drop; lia).
  assert (fd_limit ma = fd_limit m ∧ pfdcount ma = pfdcount m ∧ pfds ma = pfds m) as (Elim & Ecnt & Epf) by (by rewrite Ema).
  unfold fd_poll. rewrite decide_True by (cbn; rewrite Lcopy; lia). ostep.
  set (pl := map (set_revents kernel) (take (copycount mb) (copy mb))).
  assert (pl = map (set_revents kernel) (take (pfdcount m) (pfds m))) as Epl.
  { subst pl. change (copycount mb) with (pfdcount ma). change (copy mb) with (take (pfdcount ma) (pfds ma) ++ drop (pfdcount ma) (copy ma)).
    rewrite take_app_length' by (rewrite length_take; lia). by rewrite Ecnt, Epf. }
  assert (length pl = pfdcount m) as Lpl by (rewrite Epl, length_map, length_take, <- Epf; lia).
  set (mc := set_copy (pl ++ drop (copycount mb) (copy mb)) (copycount mb) mb).
  assert (length (pl ++ drop (copycount mb) (copy mb)) = fd_limit ma) as Lcopy2.
  { rewrite length_app, length_drop, Lpl. change (copycount mb) with (pfdcount ma).
    change (copy mb) with (take (pfdcount ma) (pfds ma) ++ drop (pfdcount ma) (copy ma)). rewrite Lcopy. lia. }
  assert (inv0 None mc h) as Hic by (apply copy_change; [apply copy_change; [done|done|lia]|done|cbn; lia]).
  destruct (first_timer mc h Hic) as [Hsz _]. unfold thread_process_timers. rewrite Hsz.
  destruct (process_timers_loop_spec (R := []) (after e) (length h) mc h Hic ltac:(done)) as (md & h1 & due & Etm & Hid & Hperm & Hsort & Hdue & Hlate & (q & ix & memd & Emd & Hsd)). rewrite Etm. ostep.
  assert (take (copycount md) (copy md) = pl) as Epd.
  { assert (copycount md = pfdcount m ∧ copy md = pl ++ drop (copycount mb) (copy mb)) as [-> ->] by (rewrite Emd, <- Ecnt; done).
    by apply take_app_length'. }
  assert (∃ me io, (if decide (0 < nonzero pl) then thread_process_io md (nonzero pl) else Some md) = Some me
    ∧ inv0 None me h1 ∧ io_frame md me ∧ ready me = ready md ++ io ∧ ∀ p, p ∈ io ↔ ∃ cf, cf ∈ pl ∧ hit md cf p) as (me & io & Eme & Hie & Hfe & Hre & Hio).
  { destruct (decide (0 < nonzero pl)) as [Hpos|Hz].
    - destruct (process_io_loop_spec (R := []) (nonzero pl) (copycount md) md h1 0 0 Hid) as (me & io & E & Hie & Hfe & Hre & Hio).
      + rewrite Emd. done.
      + rewrite Epd. assert (fd_limit md = fd_limit m) as -> by (by rewrite Emd). rewrite Epl. apply Forall_map.
        rewrite Ecnt, Epf, Elim in Hrange. exact Hrange.
      + lia.
      + unfold polled. by rewrite Epd.
      + exists me, io. split_and!; try done. intros p. rewrite Hio. unfold polled. by rewrite Epd.
    - exists md, []. rewrite app_nil_r. split; [done|]. split; [done|]. split; [apply io_frame_refl|]. split; [done|].
      intros p. rewrite elem_of_nil. split; [done|]. intros (cf & Hcf & Hh). apply Hz. unfold nonzero.
      destruct (decide (revents cf = 0%Z)) as [E|E]; [unfold hit in Hh; rewrite E, !Z.land_0_l in Hh; tauto|].
      pose proof (filter_member (λ pf, revents pf ≠ 0%Z) _ cf Hcf E). lia. }
  unfold nonzero in Eme. rewrite Eme. ostep. destruct Hfe as (Ft & Fe & Fc & Fr & Fs & Fl & Fm & Fp & _).
  assert (spin md = spin m) as Hsm by (rewrite Emd; cbn; by rewrite Ema). rewrite Fs, Hsm.
  exists me, h1, due, io. split; [done|]. split; [done|].
  assert (∀ p, time_of (mem mc) p = time_of (mem m) p) as Htimes by (intros p; cbn; rewrite Ema; cbn; apply Hsa).
  split_and!.
  - rewrite Hre, Emd. cbn. rewrite Hra. by rewrite <- app_assoc.
  - rewrite Fe, Emd. cbn. by rewrite Ema.
  - rewrite Fr, Emd. cbn. by rewrite Ema.
  - by rewrite Fs, Hsm.
  - rewrite Fl, Emd. cbn. by rewrite Ema.
  - etrans; [exact Fp|]. rewrite Emd. cbn. lia.
  - done.
  - eapply sorted_mono; [|exact Hsort]. intros x y. cbv beta. by rewrite !Htimes.
  - eapply Forall_impl; [exact Hdue|]. intros x. cbv beta. by rewrite !Htimes.
  - eapply Forall_impl; [exact Hlate|]. intros x. cbv beta. by rewrite !Htimes.
  - intros p. rewrite Hio, Epl. assert (rd md = rd m ∧ wr md = wr m) as [Erd Ewr] by (rewrite Emd; cbn; by rewrite Ema).
    split.
    + intros (cf & Hcf & Hh). apply list_elem_of_In, in_map_iff in Hcf as (pf & <- & Hpf). exists pf. split; [by apply list_elem_of_In|].
      unfold hit in *. by rewrite Erd, Ewr in Hh.
    + intros (pf & Hpf & Hh). exists (set_revents kernel pf). split; [apply list_elem_of_In, in_map; by apply list_elem_of_In|].
      unfold hit in *. by rewrite Erd, Ewr.
  - eapply mem_ready_trans; [exact (process_loop_mem _ m0 ma Ea)|]. eapply mem_ready_trans; [exact (process_timers_mem _ _ mc md Etm)|].
    destruct (decide _); [by eapply process_io_mem|injection Eme as <-; by apply mem_ready_same].
Qed.

(** Nothing is scheduled any more. *)
Lemma fetch_die e env m h : inv0 None m h → ready m = [] → event m = [] → h = [] → pfdcount m = 0 →
  thread_fetch (e :: env) m = Some (Nothing, set_cancel [] true m).
Proof.
  intros Hi Hr He -> Hp. destruct (idle_cancel m [] Hi) as [E0 Hi0]. cbn [thread_fetch]. rewrite E0. ostep.
  replace (ready (set_cancel [] true m)) with (@nil tptr) by (by rewrite <- Hr). unfold thread_process. cbn [event set_cancel]. rewrite He. cbn [process_loop]. ostep.
  destruct (wait_time_spec (before e) _ [] Hi0) as (tw & -> & Htw). ostep. rewrite decide_True; [done|]. split; [by apply Htw|done].
Qed.

(** Poll fails or is interrupted: events have become ready, nothing else. *)
Lemma fetch_interrupted e env m h b : inv0 None m h → ready m = [] → outcome e = inl b → pfdcount m + 1 < fd_limit m → ¬ (event m = [] ∧ h = [] ∧ pfdcount m = 0) →
  ∃ m1, thread_fetch (e :: env) m = (if b then if spin m then thread_fetch env m1 else Some (Untouched, m1) else Some (Nothing, m1))
    ∧ inv0 None m1 h ∧ ready m1 = event m ∧ event m1 = [] ∧ pfdcount m1 = pfdcount m ∧ fd_limit m1 = fd_limit m ∧ spin m1 = spin m
    ∧ refs m1 = refs m ∧ mem_ready m m1.
Proof.
  intros Hi Hr Ho Hroom Hlive. destruct (idle_cancel m h Hi) as [E0 Hi0]. set (m0 := set_cancel [] true m) in *.
  cbn [thread_fetch]. rewrite E0. ostep. replace (ready m0) with (@nil tptr) by (by rewrite <- Hr).
  destruct (process_loop_spec (event m0) m0 h Hi0 eq_refl) as (ma & mema & Ea & Hia & Hsa & Ema). unfold thread_process. rewrite Ea. ostep.
  destruct (wait_time_spec (before e) ma h Hia) as (tw & -> & Htw). ostep.
  assert (ready ma = event m) as Hra by (rewrite Ema; cbn; by rewrite Hr).
  rewrite decide_False.
  2:{ intros [E Hp]. apply Htw in E as [E ->]. apply Hlive. rewrite Hra in E. rewrite Ema in Hp. done. }
  rewrite Ho. destruct (i_arrays _ _ _ Hia) as [Lr Lw Lp Lc Hc Hcc Hrange].
  set (mb := set_copy (take (pfdcount ma) (pfds ma) ++ drop (pfdcount ma) (copy ma)) (pfdcount ma) ma).
  assert (inv0 None mb h) as Hib by (apply copy_change; [done|rewrite length_app, length_take, length_drop; lia|lia]).
  assert (fd_limit ma = fd_limit m ∧ pfdcount ma = pfdcount m) as (Elim & Ecnt) by (by rewrite Ema).
  unfold fd_poll. rewrite decide_True by (cbn; rewrite length_app, length_take, length_drop; lia). ostep.
  assert (spin mb = spin m) as Hsp by (cbn; by rewrite Ema). exists mb. rewrite Hsp.
  split; [by destruct b|]. split; [done|]. split; [exact Hra|]. split_and!; [by cbn; rewrite ?Ema..|exact (process_loop_mem _ m0 ma Ea)].
Qed.

(** [thread_fetch] always answers, whatever poll does, and keeps everything in
    place. *)
Lemma thread_fetch_total env : ∀ m h, inv0 None m h → pfdcount m + 1 < fd_limit m →
  ∃ r m' h', thread_fetch env m = Some (r, m') ∧ inv0 None m' h'.
Proof.
  induction env as [|e env IH]; intros m h Hi Hroom;
    (destruct (ready m) as [|p rest] eqn:Hr; [|match goal with |- context [thread_fetch ?env0 m] =>
       destruct (fetch_ready env0 m h p rest Hi Hr) as (t & m' & -> & _ & _ & Hi' & _); by exists (Task t), m', h end]).
  { destruct (idle_cancel m h Hi) as [E0 Hi0]. cbn [thread_fetch]. rewrite E0. ostep.
    replace (ready (set_cancel [] true m)) with (@nil tptr) by (by rewrite <- Hr). by eexists _, _, h. }
  destruct (decide (event m = [] ∧ h = [] ∧ pfdcount m = 0)) as [(He & Hh & Hp)|Hlive].
  { rewrite (fetch_die e env m h) by done. destruct (idle_cancel m h Hi) as [_ Hi0]. by eexists _, _, h. }
  destruct (outcome e) as [b|kernel] eqn:Ho.
  - destruct (fetch_interrupted e env m h b Hi Hr Ho Hroom Hlive) as (m1 & -> & Hi1 & _ & _ & Hp1 & Hl1 & _).
    destruct b; [|by eexists _, _, h]. destruct (spin m); [|by eexists _, _, h]. apply (IH m1 h Hi1). lia.
  - destruct (fetch_turn e env m h kernel Hi Hr Ho Hroom Hlive) as (m1 & h1 & due & io & -> & Hi1 & _ & _ & _ & _ & Hl1 & Hp1 & _).
    destruct (spin m); [|by eexists _, _, h1]. apply (IH m1 h1 Hi1). lia.
Qed.

(** ** Histories *)

Inductive top :=
  | AddIO (w : bool) (f a n : nat) (t_ptr : option nat)
  | AddTimer (now : timeval) (f a : nat) (rel : timeval) (t_ptr : option nat)
  | AddEvent (f a : nat) (val : Z) (t_ptr : option nat)
  | Cancel (p : tptr)
  | CancelEvent (a : nat)
  | Fetch (env : list poll_result).

Definition trun (m : thread_master) (o : top) : option thread_master :=
  match o with
  | AddIO w f a n t_ptr => snd <$> funcname_thread_add_read_write w m f a (Z.of_nat n) t_ptr
  | AddTimer now f a rel t_ptr => snd <$> funcname_thread_add_timer_timeval now m f a rel t_ptr
  | AddEvent f a val t_ptr => snd <$> funcname_thread_add_event m f a val t_ptr
  | Cancel p => thread_cancel m p
  | CancelEvent a => thread_cancel_event m a
  | Fetch env => snd <$> thread_fetch env m
  end.

(** What callers have to see to: variables exist, the descriptor is below the
    limit and has no such task yet, a task that is cancelled is scheduled, the
    argument of cancelled events is not null, there is room in the arrays. *)
Definition top_ok (m : thread_master) (o : top) : Prop :=
  match o with
  | AddIO w _ _ n t_ptr => var_ok m t_ptr ∧ n < fd_limit m ∧ (if w then wr m else rd m) !! n = Some None
      ∧ find_pollfd (pfds m) (pfdcount m) 0 n + 1 < length (pfds m)
  | AddTimer _ _ _ _ t_ptr => var_ok m t_ptr ∧ (Z.of_nat (array_size (timer m)) * 2 ≤ INT_MAX)%Z
  | AddEvent _ _ _ t_ptr => var_ok m t_ptr
  | Cancel p => ∃ t, mem m !! p = Some t ∧ type t ≠ THREAD_UNUSED
  | CancelEvent a => a ≠ 0
  | Fetch _ => pfdcount m + 1 < fd_limit m
  end.

Inductive reachable (limit : nat) (vars : gmap nat (option tptr)) : thread_master → Prop :=
  | reach_create : reachable limit vars (thread_master_create limit vars)
  | reach_step m o m' : reachable limit vars m → top_ok m o → trun m o = Some m' → reachable limit vars m'.

Lemma create_inv limit vars : (∀ r v, vars !! r = Some v → v = None) → inv0 None (thread_master_create limit vars) [].
Proof.
  intros Hv. assert (∀ p, Some p ∉ replicate limit (@None tptr)) as Hrep by (intros p [[=] _]%elem_of_replicate).
  split; cbn; try done.
  - intros q ty. split; [destruct ty; cbn; by intros ?%elem_of_nil || by intros ?%Hrep || done|].
    intros (_ & t & E & _). cbn in E. by rewrite lookup_empty in E.
  - intros q n [E|E]; apply lookup_replicate in E as [[=] _].
  - unfold lists_nodup. cbn. split_and!; constructor.
  - apply pqueue_create_valid.
  - intros q r. split; [intros (t & E & _); by rewrite lookup_empty in E|]. intros E. by apply Hv in E.
  - lia.
  - intros q [t E]. by rewrite lookup_empty in E.
  - split; cbn; rewrite ?length_replicate; try done; lia.
Qed.

Lemma trun_inv m h o : inv0 None m h → top_ok m o → ∃ m' h', trun m o = Some m' ∧ inv0 None m' h'.
Proof.
  intros Hi Ho. destruct o as [w f a n t_ptr|now f a rel t_ptr|f a val t_ptr|p|a|env]; cbn [trun top_ok] in *.
  - destruct Ho as (Hv & Hn & Hs & Hf). destruct (add_rw_spec w m h f a n t_ptr Hi Hv Hn Hs Hf) as (r & m' & -> & Hi'). by exists m', h.
  - destruct Ho as (Hv & Hs). destruct (add_timer_spec now m h f a rel t_ptr Hi Hv (λ _, Hs)) as (r & m' & h' & -> & Hi'). by exists m', h'.
  - destruct (add_event_spec m h f a val t_ptr Hi Ho) as (r & m' & -> & Hi'). by exists m', h.
  - destruct Ho as (t & Hp & Ht). destruct (thread_cancel_spec m h p t Hi Hp Ht) as (m' & h' & -> & Hi' & _). by exists m', h'.
  - destruct (thread_cancel_event_spec m h a Hi Ho) as (m' & -> & Hi' & _). by exists m', h.
  - destruct (thread_fetch_total env m h Hi Ho) as (r & m' & h' & -> & Hi'). by exists m', h'.
Qed.

Lemma reachable_inv limit vars m : (∀ r v, vars !! r = Some v → v = None) → reachable limit vars m → ∃ h, inv0 None m h.
Proof.
  intros Hv Hr. induction Hr as [|m o m' _ [h Hi] Ho E]; [exists []; by apply create_inv|].
  destruct (trun_inv m h o Hi Ho) as (m1 & h1 & E1 & Hi1). rewrite E in E1. injection E1 as <-. by exists h1.
Qed.

(** C28: along every history of adding, cancelling and fetching in which callers
    see to [top_ok] (variables exist; the descriptor is below the limit, has no such
    task yet and there is room for it in the array of poll; the timer queue can
    grow; a task that is cancelled is scheduled; the argument of cancelled events is
    not null; poll's array has a place left for the wake-up pipe), each operation
    succeeds (no assertion fails, nothing dangling is followed), every thread is in
    exactly the place its type says (the slot of its descriptor, the timer queue at
    the index it records, the list of events, of ready or of unused threads) and
    nowhere else, the timer queue is a heap, a caller's variable points to a thread
    exactly when that thread's reference is the variable, and the number of
    allocated threads is right.  The limit and the room for a descriptor are
    assertions of the code: without them adding fails. *)
Theorem thread_places (limit : nat) (vars : gmap nat (option tptr)) (m : thread_master) :
  (∀ r v, vars !! r = Some v → v = None) → reachable limit vars m →
  (∃ h, inv0 None m h) ∧ (∀ o, top_ok m o → ∃ m', trun m o = Some m' ∧ reachable limit vars m')
  ∧ ∀ w f a n t_ptr, (fd_limit m ≤ n → trun m (AddIO w f a n t_ptr) = None)
      ∧ (scheduled m t_ptr = Some false → length (pfds m) ≤ find_pollfd (pfds m) (pfdcount m) 0 n + 1 → trun m (AddIO w f a n t_ptr) = None).
Proof.
  intros Hv Hr. destruct (reachable_inv limit vars m Hv Hr) as [h Hi].
  split; [by exists h|]. split; [intros o Ho; destruct (trun_inv m h o Hi Ho) as (m' & h' & E & _); exists m'; split; [done|by eapply reach_step]|].
  intros w f a n t_ptr. cbn [trun]. unfold funcname_thread_add_read_write. split.
  - intros Hn. by rewrite decide_False by lia.
  - intros Hs Hroom. destruct (decide _); [|done]. rewrite Nat2Z.id, Hs, obind_Some. by rewrite decide_False by lia.
Qed.

(** cancelling a task takes out exactly that task: every other thread keeps its
    record, the order of the events and of the ready tasks stays, no caller's
    variable points to the task any more and the others are as they were, and the
    thread is unused or freed. *)
Theorem thread_cancel_exact (limit : nat) (vars : gmap nat (option tptr)) (m : thread_master) (p : tptr) (t : thread) :
  (∀ r v, vars !! r = Some v → v = None) → reachable limit vars m → mem m !! p = Some t → type t ≠ THREAD_UNUSED →
  ∃ m', thread_cancel m p = Some m' ∧ (∀ q, q ≠ p → mem m' !! q = mem m !! q)
    ∧ event m' = filter (.≠ p) (event m) ∧ ready m' = filter (.≠ p) (ready m)
    ∧ (Some p ∉ rd m') ∧ (Some p ∉ wr m') ∧ (Some p ∉ take (size (timer m')) (array (timer m')))
    ∧ (∀ r, refs m' !! r = if decide (ref t = Some r) then Some None else refs m !! r)
    ∧ from_option (λ t, type t = THREAD_UNUSED) True (mem m' !! p).
Proof.
  intros Hv Hr Hp Ht. destruct (reachable_inv limit vars m Hv Hr) as [h Hi].
  destruct (thread_cancel_spec m h p t Hi Hp Ht) as (m' & h' & E & Hi' & Hoth & Href & He & Hy & Hun).
  assert (∀ ty, ty ≠ THREAD_UNUSED → ¬ at_place m' h' ty p) as Hno.
  { intros ty Hty (_ & t' & Ep & <-)%(i_at _ _ _ Hi'). rewrite Ep in Hun. by apply Hty. }
  exists m'. split_and!; try done; [by apply (Hno THREAD_READ)|by apply (Hno THREAD_WRITE)| |].
  - rewrite (holds_elems _ h') by apply (i_timer _ _ _ Hi'). intros (? & [= <-] & H)%list_elem_of_fmap. by apply (Hno THREAD_TIMER).
  - intros r. rewrite Href. unfold detached. destruct (ref t) as [s|]; [|by rewrite decide_False]. cbn.
    destruct (decide (s = r)) as [->|Hne]; [by rewrite lookup_insert_eq, decide_True|]. rewrite lookup_insert_ne, decide_False by congruence. done.
Qed.

(** [h] are the timers that are set. *)
Definition timers (m : thread_master) (h : list tptr) : Prop :=
  NoDup h ∧ ∀ p, p ∈ h ↔ ∃ t, mem m !! p = Some t ∧ type t = THREAD_TIMER.

Lemma inv_timers m h : inv0 None m h → timers m h.
Proof. intros Hi. split; [apply (i_nodup _ _ _ Hi)|]. intros p. pose proof (i_at _ _ _ Hi p THREAD_TIMER) as H.
  cbn in H. rewrite H. split; [by intros [_ ?]|by intros ?]. Qed.

(** C29: [thread_fetch] hands out ready tasks first come first served, without
    waiting; it returns nothing exactly when nothing is scheduled; otherwise,
    after one successful poll, the events are ready in the order they were added,
    then exactly the timers that are due in the order of their times, then exactly
    the tasks of the descriptors that poll reported, and the first of all these
    is what it returns. *)
Theorem thread_fetch_order (limit : nat) (vars : gmap nat (option tptr)) (m : thread_master) :
  (∀ r v, vars !! r = Some v → v = None) → reachable limit vars m → spin m = true → pfdcount m + 1 < fd_limit m →
  (∀ env p rest, ready m = p :: rest → ∃ t m', thread_fetch env m = Some (Task t, m') ∧ mem m !! p = Some t ∧ ready m' = rest ∧ event m' = event m)
  ∧ (ready m = [] → ∃ h, timers m h ∧ ∀ e env kernel, outcome e = inr kernel →
      (event m = [] → h = [] → pfdcount m = 0 → ∃ m', thread_fetch (e :: env) m = Some (Nothing, m'))
      ∧ (¬ (event m = [] ∧ h = [] ∧ pfdcount m = 0) → ∃ m1 h1 due io, turn m h kernel (after e) m1 h1 due io ∧
          thread_fetch (e :: env) m = thread_fetch env m1 ∧
          ∀ p rest, event m ++ due ++ io = p :: rest → ∃ t m', thread_fetch (e :: env) m = Some (Task t, m') ∧ mem m1 !! p = Some t ∧ ready m' = rest)).
Proof.
  intros Hv Hr Hspin Hroom. destruct (reachable_inv limit vars m Hv Hr) as [h Hi]. split.
  { intros env p rest Hy. destruct (fetch_ready env m h p rest Hi Hy) as (t & m' & E & Hp & _ & _ & Hy' & He & _). by exists t, m'. }
  intros Hy. exists h. split; [by apply inv_timers|]. intros e env kernel Ho. split.
  { intros He Hh Hp. eexists. by apply (fetch_die e env m h). }
  intros Hlive. destruct (fetch_turn e env m h kernel Hi Hy Ho Hroom Hlive) as (m1 & h1 & due & io & E & Ht). rewrite Hspin in E.
  exists m1, h1, due, io. split; [done|]. split; [done|]. intros p rest Hfirst. destruct Ht as (Hi1 & Hy1 & _). rewrite Hfirst in Hy1.
  destruct (fetch_ready env m1 h1 p rest Hi1 Hy1) as (t & m' & E' & Hp & _ & _ & Hy' & _). exists t, m'. by rewrite E, E'.
Qed.

(** ** Tearing down frees everything *)

Lemma free_all_app l1 l2 m : free_all (l1 ++ l2) m = (m ← free_all l1 m; free_all l2 m).
Proof. revert m. induction l1 as [|p l1 IH]; intros m; cbn; [done|]. destruct (thread_free m p) as [m1|]; [ostep; apply IH|done]. Qed.

Lemma array_free_all a : ∀ m, array_free (length a) a m = free_all (omap id a) m.
Proof.
  induction a as [|[p|] a IH]; intros m; cbn; [done| |apply IH].
  destruct (thread_free m p) as [m1|]; [apply IH|done].
Qed.

(** What freeing leaves alone. *)
Definition freed (m m' : thread_master) : Prop := m' = set_alloc (alloc m') (set_tindex (tindex m') (set_mem (mem m') m)).

Lemma free_all_spec l : ∀ m, NoDup l → (∀ p, p ∈ l → is_Some (mem m !! p)) → alloc m = Z.of_nat (stdpp.base.size (mem m)) →
  ∃ m', free_all l m = Some m' ∧ freed m m' ∧ (∀ q, mem m' !! q = if decide (q ∈ l) then None else mem m !! q)
    ∧ alloc m' = Z.of_nat (stdpp.base.size (mem m')).
Proof.
  induction l as [|p l IH]; intros m Hnd Hin Ha; cbn [free_all].
  { exists m. split; [done|]. split; [by destruct m|]. split; [|done]. intros q. by rewrite decide_False by (by intros ?%elem_of_nil). }
  apply NoDup_cons in Hnd as [Hp Hnd]. destruct (Hin p ltac:(left)) as [t Ht]. unfold thread_free. rewrite Ht. ostep.
  assert (stdpp.base.size (mem m) ≠ 0) as Hsz by (apply map_size_ne_0_lookup; exists p; eauto). rewrite decide_True by lia. ostep.
  edestruct IH as (m' & -> & Hfr & Hm & Ha'); [done| | |].
  { intros q Hq. cbn. rewrite lookup_delete_ne; [apply Hin; by right|]. intros ->. done. }
  { cbn. rewrite map_size_delete_Some by eauto. lia. }
  exists m'. split; [done|]. split; [by rewrite Hfr|]. split; [|done]. intros q. rewrite Hm. cbn.
  destruct (decide (q = p)) as [->|Hne].
  - rewrite lookup_delete_eq, (decide_True (P := p ∈ p :: l)) by left. by destruct (decide (p ∈ l)).
  - rewrite lookup_delete_ne by done. destruct (decide (q ∈ l)); [rewrite decide_True by (by right)|rewrite decide_False by (by intros [->|?]%elem_of_cons)]; done.
Qed.

(** The queue's nodes are freed from the first to the last. *)
Lemma queue_free_all m q h : holds q h → thread_queue_free m q = free_all h m.
Proof.
  intros Hq. unfold thread_queue_free. rewrite (holds_size _ _ Hq).
  assert (∀ k l o, (∀ i x, l !! i = Some x → node_at (array q) (k + i) = Some x) →
    foldl (λ m i, m ← m; p ← node_at (array q) i; thread_free m p) o (seq k (length l)) = (m ← o; free_all l m)) as H.
  { intros k l. revert k. induction l as [|x l IH]; intros k o Hl; cbn; [by destruct o|]. rewrite IH.
    - destruct o as [m0|]; [|done]. ostep. pose proof (Hl 0 x eq_refl) as Hx. rewrite Nat.add_0_r in Hx. rewrite Hx. ostep. done.
    - intros i y Hy. replace (S k + i) with (k + S i) by lia. by apply Hl. }
  rewrite (H 0 h (Some m)); [done|]. intros i x Hx. destruct (holds_block _ _ Hq) as [junk ->]. by apply node_at_block.
Qed.

Lemma NoDup_omap_slots {A} (l : list (option A)) : (∀ i j p, l !! i = Some (Some p) → l !! j = Some (Some p) → i = j) → NoDup (omap id l).
Proof.
  induction l as [|[p|] l IH]; intros H; cbn; [constructor| |].
  - constructor.
    + intros (o & Ho & E)%list_elem_of_omap. cbn in E. subst o. apply list_elem_of_lookup in Ho as [j Hj]. by specialize (H 0 (S j) p eq_refl Hj).
    + apply IH. intros i j q Hi Hj. by injection (H (S i) (S j) q Hi Hj).
  - apply IH. intros i j q Hi Hj. by injection (H (S i) (S j) q Hi Hj).
Qed.

(** All threads, in the order they are freed. *)
Definition everything (m : thread_master) (h : list tptr) : list tptr :=
  omap id (rd m) ++ omap id (wr m) ++ h ++ event m ++ ready m ++ unuse m.

Lemma everything_spec m h : inv0 None m h → NoDup (everything m h) ∧ ∀ p, p ∈ everything m h ↔ is_Some (mem m !! p).
Proof.
  intros Hi. pose proof (i_nodup _ _ _ Hi) as (Nh & Ne & Ny & Nu).
  assert (∀ l p, p ∈ omap id l ↔ Some p ∈ (l : list (option tptr))) as Hom.
  { intros l p. rewrite list_elem_of_omap. split; [|intros Ho; by exists (Some p)].
    intros (o & Ho & E). cbn in E. by subst o. }
  assert (∀ p ty ty', at_place m h ty p → at_place m h ty' p → ty = ty') as Huniq.
  { intros p ty ty' (_ & t & E & <-)%(i_at _ _ _ Hi) (_ & t' & E' & <-)%(i_at _ _ _ Hi). congruence. }
  assert (∀ l, (∀ n q, l !! n = Some (Some q) → u <$> mem m !! q = Some (U_fd n)) → NoDup (omap id l)) as Hslots.
  { intros l Hl. apply NoDup_omap_slots. intros i j p H1%Hl H2%Hl. congruence. }
  split.
  - assert (∀ p ty, at_place m h ty p → ∀ ty', ty ≠ ty' → ¬ at_place m h ty' p) as Hdis by (intros p ty H1 ty' Hne H2; by apply Hne, (Huniq p)).
    unfold everything. rewrite !NoDup_app. split_and!; try done; try (apply Hslots; intros n q Hq; apply (i_fd _ _ _ Hi); auto);
      (intros p Hp; rewrite ?elem_of_app, ?Hom in * ).
    + pose proof (Hdis p THREAD_READ Hp) as H. intros [Hq|[Hq|[Hq|[Hq|Hq]]]];
        [by apply (H THREAD_WRITE)|by apply (H THREAD_TIMER)|by apply (H THREAD_EVENT)|by apply (H THREAD_READY)|by apply (H THREAD_UNUSED)].
    + pose proof (Hdis p THREAD_WRITE Hp) as H. intros [Hq|[Hq|[Hq|Hq]]];
        [by apply (H THREAD_TIMER)|by apply (H THREAD_EVENT)|by apply (H THREAD_READY)|by apply (H THREAD_UNUSED)].
    + pose proof (Hdis p THREAD_TIMER Hp) as H. intros [Hq|[Hq|Hq]]; [by apply (H THREAD_EVENT)|by apply (H THREAD_READY)|by apply (H THREAD_UNUSED)].
    + pose proof (Hdis p THREAD_EVENT Hp) as H. intros [Hq|Hq]; [by apply (H THREAD_READY)|by apply (H THREAD_UNUSED)].
    + pose proof (Hdis p THREAD_READY Hp) as H. intros Hq. by apply (H THREAD_UNUSED).
  - intros p. unfold everything. rewrite !elem_of_app, !Hom.
    assert (is_Some (mem m !! p) ↔ ∃ ty, at_place m h ty p) as ->.
    { split; [intros [t E]; exists (type t); apply (i_at _ _ _ Hi); eauto|]. intros (ty & (_ & t & E & _)%(i_at _ _ _ Hi)). eauto. }
    split.
    + intros [H|[H|[H|[H|[H|H]]]]];
        [exists THREAD_READ|exists THREAD_WRITE|exists THREAD_TIMER|exists THREAD_EVENT|exists THREAD_READY|exists THREAD_UNUSED]; exact H.
    + intros ([] & H); cbn in H; tauto.
Qed.

Lemma master_free_all m h : inv0 None m h → thread_master_free m = free_all (everything m h) m.
Proof.
  intros Hi. destruct (i_arrays _ _ _ Hi) as [Lr Lw _ _ _ _ _]. destruct (everything_spec m h Hi) as [Hnd Hin].
  assert (∀ l1 l2, everything m h = l1 ++ l2 → ∃ m', free_all l1 m = Some m' ∧ freed m m') as Hpre.
  { intros l1 l2 E. rewrite E in Hnd, Hin. apply NoDup_app in Hnd as (Hnd & _).
    destruct (free_all_spec l1 m Hnd) as (m' & E' & Hfr & _); [intros p Hp; apply Hin, elem_of_app; by left|apply (i_alloc _ _ _ Hi)|eauto]. }
  unfold thread_master_free, thread_array_free. rewrite <- Lr, array_free_all. unfold everything in *.
  destruct (Hpre (omap id (rd m)) _ eq_refl) as (m1 & E1 & F1). rewrite free_all_app, E1. do 2 ostep.
  assert (fd_limit m1 = length (wr m) ∧ wr m1 = wr m) as [-> ->] by (rewrite F1; cbn; by rewrite Lw). rewrite array_free_all.
  destruct (Hpre (omap id (rd m) ++ omap id (wr m)) _ (app_assoc _ _ _)) as (m2 & E2 & F2).
  rewrite free_all_app, E1 in E2. rewrite obind_Some in E2. rewrite free_all_app, E2. do 2 ostep.
  rewrite (queue_free_all m2 (timer m2) h) by (rewrite F2; apply (i_timer _ _ _ Hi)).
  destruct (Hpre ((omap id (rd m) ++ omap id (wr m)) ++ h) (event m ++ ready m ++ unuse m)) as (m3 & E3 & F3); [by rewrite <- !app_assoc|].
  rewrite !free_all_app, E1 in E3. rewrite obind_Some, E2, obind_Some in E3. rewrite free_all_app, E3. do 2 ostep.
  assert (event m3 = event m) as -> by (by rewrite F3).
  destruct (Hpre (((omap id (rd m) ++ omap id (wr m)) ++ h) ++ event m) (ready m ++ unuse m)) as (m4 & E4 & F4); [by rewrite <- !app_assoc|].
  rewrite !free_all_app, E1 in E4. rewrite obind_Some, E2, obind_Some, E3, obind_Some in E4. rewrite free_all_app, E4. do 2 ostep.
  assert (ready m4 = ready m) as -> by (by rewrite F4). rewrite free_all_app.
  destruct (Hpre ((((omap id (rd m) ++ omap id (wr m)) ++ h) ++ event m) ++ ready m) (unuse m)) as (m5 & E5 & F5); [by rewrite <- !app_assoc|].
  rewrite !free_all_app, E1 in E5. rewrite obind_Some, E2, obind_Some, E3, obind_Some, E4, obind_Some in E5. rewrite E5. do 2 ostep. by rewrite F5.
Qed.

(** C30: tearing a master down frees every thread exactly once and leaves none
    allocated, whatever was scheduled. *)
Theorem thread_master_free_all (limit : nat) (vars : gmap nat (option tptr)) (m : thread_master) :
  (∀ r v, vars !! r = Some v → v = None) → reachable limit vars m →
  ∃ m', thread_master_free m = Some m' ∧ mem m' = ∅ ∧ alloc m' = 0%Z.
Proof.
  intros Hv Hr. destruct (reachable_inv limit vars m Hv Hr) as [h Hi]. destruct (everything_spec m h Hi) as [Hnd Hin].
  destruct (free_all_spec (everything m h) m Hnd (λ p, proj1 (Hin p)) (i_alloc _ _ _ Hi)) as (m' & E & _ & Hm & Ha).
  exists m'. rewrite (master_free_all m h Hi). assert (mem m' = ∅) as Em.
  { apply map_eq. intros q. rewrite Hm, lookup_empty. destruct (decide (q ∈ everything m h)) as [_|Hq]; [done|].
    apply eq_None_not_Some. by rewrite <- Hin. }
  split_and!; try done. rewrite Ha, Em. by rewrite map_size_empty.
Qed.

(** ** A history *)

Definition vars0 : gmap nat (option tptr) := {[ 0 := None; 1 := None ]}.
Definition history : list top :=
  [AddIO false 100 1 3 None; AddTimer (TV 10 0) 200 2 (TV 5 0) (Some 0); AddTimer (TV 10 0) 201 2 (TV 1 500000) None;
   AddEvent 300 7 42 (Some 1)].
Definition play (m : thread_master) (l : list top) : option thread_master := foldl (λ m o, m ← m; trun m o) (Some m) l.
Definition sample : thread_master := default (thread_master_create 8 vars0) (play (thread_master_create 8 vars0) history).

Lemma vars0_free r v : vars0 !! r = Some v → v = None.
Proof. unfold vars0. rewrite lookup_insert_Some. intros [[_ <-]|[_ [_ <-]%lookup_singleton_Some]]; done. Qed.

Lemma var_ok_some m r v : refs m !! r = Some v → var_ok m (Some r).
Proof. intros H s [= <-]. by exists v. Qed.

Lemma sample_reachable : reachable 8 vars0 sample.
Proof.
  eapply (reach_step _ _ _ (AddEvent 300 7 42 (Some 1))); [eapply (reach_step _ _ _ (AddTimer (TV 10 0) 201 2 (TV 1 500000) None));
    [eapply (reach_step _ _ _ (AddTimer (TV 10 0) 200 2 (TV 5 0) (Some 0))); [eapply (reach_step _ _ _ (AddIO false 100 1 3 None)); [apply reach_create|..]|..]|..]|..];
    try (vm_compute; reflexivity).
  - split_and!; [done|cbn; lia|done|cbn; lia].
  - split; [by apply (var_ok_some _ 0 None)|done].
  - split; [done|done].
  - by apply (var_ok_some _ 1 None).
Qed.

Lemma thread_places_witness : (∃ h, inv0 None sample h) ∧ ∃ m', trun sample (Cancel 1) = Some m' ∧ reachable 8 vars0 m'.
Proof.
  destruct (thread_places 8 vars0 sample vars0_free sample_reachable) as [H1 H2]. split; [exact H1|].
  apply H2. eexists. split; [vm_compute; reflexivity|done].
Defined.

Lemma thread_cancel_exact_witness : ∃ m', thread_cancel sample 1 = Some m' ∧ event m' = [3] ∧ refs m' !! 0 = Some None ∧ mem m' !! 2 = mem sample !! 2.
Proof.
  destruct (thread_cancel_exact 8 vars0 sample 1 (Thread THREAD_TIMER THREAD_TIMER (Some 0) 200 2 (U_sands (TV 15 0)))
    vars0_free sample_reachable ltac:(vm_compute; reflexivity) ltac:(done)) as (m' & E & Ho & He & _ & _ & _ & _ & Hr & _).
  exists m'. split; [exact E|]. split; [rewrite He; vm_compute; reflexivity|]. split; [rewrite Hr; vm_compute; reflexivity|by apply Ho].
Defined.

Lemma thread_master_free_all_witness : ∃ m', thread_master_free sample = Some m' ∧ alloc sample = 4%Z ∧ alloc m' = 0%Z.
Proof.
  destruct (thread_master_free_all 8 vars0 sample vars0_free sample_reachable) as (m' & E & _ & Ha).
  exists m'. split; [exact E|]. split; [vm_compute; reflexivity|exact Ha].
Defined.

(** The descriptor 3 is readable and both timers are due: first the event, then
    the timer set later for an earlier time, the other one, the reader. *)
Definition quiet : poll_result := Poll (TV 12 0) (inr (λ n, if decide (n = 3) then POLLIN else 0%Z)) (TV 16 0).

Lemma thread_fetch_order_witness : ∃ t m', thread_fetch [quiet] sample = Some (Task t, m') ∧ func t = 300 ∧ ready m' = [2; 1; 0].
Proof.
  destruct (thread_fetch_order 8 vars0 sample vars0_free sample_reachable eq_refl ltac:(apply (bool_decide_unpack _); vm_compute; reflexivity)) as [_ H].
  destruct (H eq_refl) as (h & _ & Hf). destruct (Hf quiet [] _ eq_refl) as [_ Ht].
  destruct Ht as (m1 & h1 & due & io & _ & _ & Hfirst); [intros (He & _); vm_compute in He; done|].
  destruct (Hfirst 3 (due ++ io) eq_refl) as (t & m' & E & _ & _). exists t, m'. split; [exact E|].
  vm_compute in E. injection E as <- <-. split; reflexivity.
Defined.

(** ** What goes wrong *)

(** [list], [queue] and [thread_array] are set outside the loop over the requests
    and never reset: after a request for a timer, one for an event looks for the
    event in the timer queue, and the assertion there fails. *)
Example cancel_two_requests : ∃ m1 m2, thread_cancel_async sample (Some 0) 0 = Some m1 ∧ thread_cancel_async m1 (Some 1) 0 = Some m2
  ∧ is_Some (do_thread_cancel m1) ∧ do_thread_cancel m2 = None.
Proof. eexists _, _. split; [reflexivity|]. split; [reflexivity|]. split; [vm_compute; eauto|vm_compute; reflexivity]. Qed.

(** The slot after the last pollfd keeps its flags when pollfds move down, and the
    next descriptor adds its own to them: a task that only writes is polled for
    reading, too. *)
Example stale_events : ∃ m, play (thread_master_create 8 vars0) [AddIO false 100 1 3 None; AddIO false 101 1 4 None; Cancel 0; AddIO true 102 1 5 None] = Some m
  ∧ pfds m !! 1 = Some (PollFd 5 (Z.lor POLLIN POLLOUT) 0) ∧ rd m !! 5 = Some None.
Proof. eexists. split; [vm_compute; reflexivity|]. split; reflexivity. Qed.

(** A descriptor is taken that fills the array up to one slot, and then the next
    poll, which needs that slot and one more, fails its assertion. *)
Example full_pollfds : ∃ m, play (thread_master_create 2 vars0) [AddIO false 100 1 0 None] = Some m
  ∧ thread_fetch [quiet] m = None.
Proof. eexists. split; [vm_compute; reflexivity|]. vm_compute. reflexivity. Qed.

(** A null argument to [thread_cancel_event] is taken for a request by reference,
    and the null reference is followed. *)
Example cancel_null_event : thread_cancel_event sample 0 = None.
Proof. vm_compute. reflexivity. Qed.

(** An invalid descriptor is dropped from the pollfds, and its task stays in the
    array of readers for ever; no task for the descriptor is polled any more. *)
Example invalid_descriptor : ∃ m, play (thread_master_create 8 vars0) [AddIO false 100 1 3 None; AddEvent 300 7 42 None] = Some m
  ∧ ∃ m', thread_fetch [Poll (TV 12 0) (inr (λ _, POLLNVAL)) (TV 12 0)] m = Some (Task (Thread THREAD_READY THREAD_EVENT None 300 7 (U_val 42)), m')
    ∧ pfdcount m' = 0 ∧ rd m' !! 3 = Some (Some 0) ∧ ready m' = [].
Proof. eexists. split; [vm_compute; reflexivity|]. eexists. split; [vm_compute; reflexivity|]. split_and!; reflexivity. Qed.
