(* ===== verification/ThreadStats.v ===== *)
(** * Run-time statistics of tasks: lib/thread.c, lib/thread.h

    Each function run as a task has a record of its calls ([cpu_thread_history]).
    Several pthreads may update one record at a time, and a printer may read it
    meanwhile, all by atomic accesses without a lock.  The model has one step for
    each atomic access: a writer is the tail of [thread_call], a reader is
    [cpu_record_hash_print].  A schedule names the actor of each step and, for a
    weak compare-and-exchange, whether it may succeed ([false] is a spurious
    failure).  All counters are 64 bits wide.

    Theorems: whatever the interleaving, when all writers are through the record
    is what one gets by accounting for the calls one after the other
    ([stats_linearize]); a filter has exactly the bits of its letters
    ([parse_filter_spec]).  A printer that is interleaved with the first call can
    divide by zero ([print_races]). *)
From stdpp Require Import prelude list.
From Stdlib Require Import Ascii String.
From S2P Require Import Prelude.
From S2P Require Import Thread.
Set Default Goal Selector "!".

Definition u64 (z : Z) : Z := (z mod 2 ^ 64)%Z.

Definition type_bit (ty : ttype) : Z :=
  match ty with
  | THREAD_READ => 0 | THREAD_WRITE => 1 | THREAD_TIMER => 2 | THREAD_EVENT => 3
  | THREAD_READY => 4 | THREAD_UNUSED => 5 | THREAD_EXECUTE => 6
  end.

Record time_stats := Stats { total : Z; max : Z }.

(** Without [func] and [funcname], which stay. *)
Record cpu_thread_history := History {
  total_calls : Z;
  total_active : Z;
  real : time_stats;
  cpu : time_stats;
  types : Z;
}.

(** [cpu_record_hash_alloc]: the memory is zeroed. *)
Definition cpu_record_hash_alloc : cpu_thread_history := History 0 0 (Stats 0 0) (Stats 0 0) 0.

(** ** Times *)

Record rusage_t := Rusage { ru_utime : timeval; ru_stime : timeval; ru_real : timeval }.

Definition timeval_elapsed (a b : timeval) : Z :=
  u64 ((tv_sec a - tv_sec b) * 1000000 + (tv_usec a - tv_usec b)).

(** The real time and, by reference, the cpu time. *)
Definition thread_consumed_time (now start : rusage_t) : Z * Z :=
  (timeval_elapsed (ru_real now) (ru_real start),
   u64 (timeval_elapsed (ru_utime now) (ru_utime start) + timeval_elapsed (ru_stime now) (ru_stime start))).

(** ** One call after the other *)

(** What a call adds. *)
Record usage := Usage { realtime : Z; cputime : Z; kind : ttype }.

Definition usage_of (before after : rusage_t) (t : thread) : usage :=
  let '(r, c) := thread_consumed_time after before in Usage r c (add_type t).

Definition raise (s : time_stats) (v : Z) : time_stats := Stats (u64 (total s + v)) (if (max s <? v)%Z then v else max s).

(** The end of [thread_call] when nobody interferes. *)
Definition account (c : usage) (h : cpu_thread_history) : cpu_thread_history :=
  History (u64 (total_calls h + 1)) (total_active h) (raise (real h) (realtime c)) (raise (cpu h) (cputime c))
    (Z.lor (types h) (Z.shiftl 1 (type_bit (kind c)))).

(** ** Atomic steps *)

(** Where a writer is in [thread_call]; in the two loops with the value [exp]. *)
Inductive stage :=
  | Add_real | Load_real | Cas_real (exp : Z)
  | Add_cpu | Load_cpu | Cas_cpu (exp : Z)
  | Inc_calls | Or_types | Finished.

Definition set_real (s : time_stats) (h : cpu_thread_history) := History (total_calls h) (total_active h) s (cpu h) (types h).
Definition set_cpu (s : time_stats) (h : cpu_thread_history) := History (total_calls h) (total_active h) (real h) s (types h).

(** One step of the loop that raises a maximum: the new maximum and [exp], [None]
    when the loop is over. *)
Definition cas_max (ok : bool) (v exp m : Z) : option Z * Z :=
  if (exp <? v)%Z then
    if ok && (m =? exp)%Z then (None, v) else (Some m, m)
  else (None, m).

Definition writer_step (ok : bool) (c : usage) (st : stage) (h : cpu_thread_history) : stage * cpu_thread_history :=
  match st with
  | Add_real => (Load_real, set_real (Stats (u64 (total (real h) + realtime c)) (max (real h))) h)
  | Load_real => (Cas_real (max (real h)), h)
  | Cas_real exp =>
      let '(e, m) := cas_max ok (realtime c) exp (max (real h)) in
      (match e with Some e => Cas_real e | None => Add_cpu end, set_real (Stats (total (real h)) m) h)
  | Add_cpu => (Load_cpu, set_cpu (Stats (u64 (total (cpu h) + cputime c)) (max (cpu h))) h)
  | Load_cpu => (Cas_cpu (max (cpu h)), h)
  | Cas_cpu exp =>
      let '(e, m) := cas_max ok (cputime c) exp (max (cpu h)) in
      (match e with Some e => Cas_cpu e | None => Inc_calls end, set_cpu (Stats (total (cpu h)) m) h)
  | Inc_calls => (Or_types, History (u64 (total_calls h + 1)) (total_active h) (real h) (cpu h) (types h))
  | Or_types => (Finished, History (total_calls h) (total_active h) (real h) (cpu h) (Z.lor (types h) (Z.shiftl 1 (type_bit (kind c)))))
  | Finished => (Finished, h)
  end.

Abbreviation writer := (usage * stage)%type.

Definition schedule_step (s : cpu_thread_history * list writer) (a : nat * bool) : cpu_thread_history * list writer :=
  match s.2 !! a.1 with
  | Some (c, st) => let '(st', h') := writer_step a.2 c st s.1 in (h', <[a.1 := (c, st')]> s.2)
  | None => s
  end.

Definition run (h : cpu_thread_history) (calls : list usage) (sched : list (nat * bool)) : cpu_thread_history * list writer :=
  foldl schedule_step (h, map (λ c, (c, Add_real)) calls) sched.

(** ** The printer *)

(** The columns of a line of [show thread cpu]. *)
Record line := Line {
  l_active : Z; l_cpu_ms : Z; l_cpu_frac : Z; l_calls : Z; l_cpu_avg : Z; l_cpu_max : Z; l_real_avg : Z; l_real_max : Z;
  l_types : list bool }.

(** [None] is a division by zero. *)
Definition vty_out_cpu_thread_history (a : cpu_thread_history) : option line :=
  if decide (total_calls a = 0%Z) then None
  else Some (Line (total_active a) (total (cpu a) / 1000) (total (cpu a) mod 1000) (total_calls a)
    (total (cpu a) / total_calls a) (max (cpu a)) (total (real a) / total_calls a) (max (real a))
    (map (λ ty, Z.testbit (types a) (type_bit ty)) [THREAD_READ; THREAD_WRITE; THREAD_TIMER; THREAD_EVENT; THREAD_EXECUTE])).

(** The loads of [cpu_record_hash_print], in their order. *)
Inductive field := F_active | F_calls | F_cpu_total | F_cpu_max | F_real_total | F_real_max | F_types.
Definition loads : list field := [F_active; F_calls; F_cpu_total; F_cpu_max; F_real_total; F_real_max; F_types].

Definition load (f : field) (a copy : cpu_thread_history) : cpu_thread_history :=
  match f with
  | F_active => History (total_calls copy) (total_active a) (real copy) (cpu copy) (types copy)
  | F_calls => History (total_calls a) (total_active copy) (real copy) (cpu copy) (types copy)
  | F_cpu_total => set_cpu (Stats (total (cpu a)) (max (cpu copy))) copy
  | F_cpu_max => set_cpu (Stats (total (cpu copy)) (max (cpu a))) copy
  | F_real_total => set_real (Stats (total (real a)) (max (real copy))) copy
  | F_real_max => set_real (Stats (total (real copy)) (max (real a))) copy
  | F_types => History (total_calls copy) (total_active copy) (real copy) (cpu copy) (types a)
  end.

(** After the loads; nothing is printed when the types do not match. *)
Definition add_stats (a b : time_stats) : time_stats :=
  Stats (u64 (total a + total b)) (if (max a <? max b)%Z then max b else max a).
Definition print_copy (filter : Z) (copy totals : cpu_thread_history) : option (option line * cpu_thread_history) :=
  if (Z.land (types copy) filter =? 0)%Z then Some (None, totals)
  else
    l ← vty_out_cpu_thread_history copy;
    Some (Some l, History (u64 (total_calls totals + total_calls copy)) (u64 (total_active totals + total_active copy))
                    (add_stats (real totals) (real copy)) (add_stats (cpu totals) (cpu copy)) (types totals)).

(** [segments] are the steps of the writers before each load. *)
Definition cpu_record_hash_print (filter : Z) (s : cpu_thread_history * list writer) (segments : list (list (nat * bool)))
    (garbage totals : cpu_thread_history) : option (option line * cpu_thread_history) * (cpu_thread_history * list writer) :=
  let '(copy, s) := foldl (λ '(copy, s) '(seg, f), let s := foldl schedule_step s seg in (load f s.1 copy, s)) (garbage, s) (zip segments loads) in
  (print_copy filter copy totals, s).

(** The records of one master, at rest. *)
Fixpoint print_records (filter : Z) (l : list cpu_thread_history) (totals : cpu_thread_history) : option (list line * cpu_thread_history) :=
  match l with
  | [] => Some ([], totals)
  | a :: l =>
      '(o, totals) ← (cpu_record_hash_print filter (a, []) (replicate 7 []) cpu_record_hash_alloc totals).1;
      '(ls, totals) ← print_records filter l totals;
      Some (option_list o ++ ls, totals)
  end.

(** The lines of each master and the line of the totals. *)
Fixpoint print_masters (filter : Z) (ms : list (list cpu_thread_history)) (totals : cpu_thread_history) : option (list (list line) * cpu_thread_history) :=
  match ms with
  | [] => Some ([], totals)
  | m :: ms =>
      '(ls, totals) ← print_records filter m totals;
      '(rest, totals) ← print_masters filter ms totals;
      Some (ls :: rest, totals)
  end.
Definition cpu_record_print (filter : Z) (ms : list (list cpu_thread_history)) : option (list (list line) * option line) :=
  '(ls, tmp) ← print_masters filter ms (History 0 0 (Stats 0 0) (Stats 0 0) filter);
  if (0 <? total_calls tmp)%Z then l ← vty_out_cpu_thread_history tmp; Some (ls, Some l) else Some (ls, None).

(** ** Filters *)

Definition letter_types (c : ascii) : option ttype :=
  if decide (c = "r"%char ∨ c = "R"%char) then Some THREAD_READ
  else if decide (c = "w"%char ∨ c = "W"%char) then Some THREAD_WRITE
  else if decide (c = "t"%char ∨ c = "T"%char) then Some THREAD_TIMER
  else if decide (c = "e"%char ∨ c = "E"%char) then Some THREAD_EVENT
  else if decide (c = "x"%char ∨ c = "X"%char) then Some THREAD_EXECUTE
  else None.

Definition parse_filter (filterstr : list ascii) : Z :=
  u8 (foldl (λ filter c, match letter_types c with Some ty => Z.lor filter (Z.shiftl 1 (type_bit ty)) | None => filter end) 0%Z filterstr).

(** ** Any interleaving accounts for every call *)

Definition rank (st : stage) : nat :=
  match st with
  | Add_real => 0 | Load_real => 1 | Cas_real _ => 2 | Add_cpu => 3 | Load_cpu => 4 | Cas_cpu _ => 5
  | Inc_calls => 6 | Or_types => 7 | Finished => 8
  end.

(** Folding [op] over the values of the writers beyond stage [k]. *)
Fixpoint beyond (op : Z → Z → Z) (val : usage → Z) (k : nat) (b : Z) (ws : list writer) : Z :=
  match ws with
  | [] => b
  | w :: ws => let acc := beyond op val k b ws in if decide (k < rank w.2) then op (val w.1) acc else acc
  end.

Section beyond.
Context (op : Z → Z → Z) (Hop : ∀ x y z, op x (op y z) = op y (op x z)) (val : usage → Z) (k : nat) (b : Z).

Lemma beyond_same ws i c st st' : ws !! i = Some (c, st) → (k < rank st ↔ k < rank st') → beyond op val k b (<[i := (c, st')]> ws) = beyond op val k b ws.
Proof.
  revert i. induction ws as [|w ws IH]; intros [|i] Hi Hk; try done; cbn in *.
  - injection Hi as ->. cbn. destruct (decide (k < rank st)), (decide (k < rank st')); tauto.
  - by rewrite IH.
Qed.

Lemma beyond_next ws i c st st' : ws !! i = Some (c, st) → ¬ k < rank st → k < rank st' →
  beyond op val k b (<[i := (c, st')]> ws) = op (val c) (beyond op val k b ws).
Proof.
  revert i. induction ws as [|w ws IH]; intros [|i] Hi Hk Hk'; try done.
  - injection Hi as ->. cbn. by rewrite decide_True, decide_False.
  - change (<[S i := (c, st')]> (w :: ws)) with (w :: <[i := (c, st')]> ws). cbn [beyond]. rewrite (IH i) by done. cbv zeta. destruct (decide (k < rank w.2)); [apply Hop|done].
Qed.

Lemma beyond_start calls : beyond op val k b (map (λ c, (c, Add_real)) calls) = b.
Proof. induction calls as [|c calls IH]; cbn; [done|]. rewrite decide_False by lia. done. Qed.

Lemma beyond_finished ws : k < 8 → Forall (λ w, w.2 = Finished) ws → beyond op val k b ws = foldr (λ w acc, op (val w.1) acc) b ws.
Proof. intros Hk. induction 1 as [|w ws Hw _ IH]; cbn; [done|]. rewrite Hw, decide_True by (cbn; lia). by rewrite IH. Qed.
End beyond.

Definition one (c : usage) : Z := 1.
Definition bit (c : usage) : Z := Z.shiftl 1 (type_bit (kind c)).

(** The record is determined by how far the writers are, and what a writer in a
    loop expects is at most the maximum. *)
Record stats_inv (h0 : cpu_thread_history) (s : cpu_thread_history * list writer) : Prop := StatsInv {
  s_real : real s.1 = Stats (u64 (beyond Z.add realtime 0 (total (real h0)) s.2)) (beyond Z.max realtime 2 (max (real h0)) s.2);
  s_cpu : cpu s.1 = Stats (u64 (beyond Z.add cputime 3 (total (cpu h0)) s.2)) (beyond Z.max cputime 5 (max (cpu h0)) s.2);
  s_calls : total_calls s.1 = u64 (beyond Z.add one 6 (total_calls h0) s.2);
  s_types : types s.1 = beyond Z.lor bit 7 (types h0) s.2;
  s_active : total_active s.1 = total_active h0;
  s_exp : ∀ i c exp, (s.2 !! i = Some (c, Cas_real exp) → (exp ≤ max (real s.1))%Z) ∧ (s.2 !! i = Some (c, Cas_cpu exp) → (exp ≤ max (cpu s.1))%Z) }.

Lemma u64_add x y : u64 (u64 x + y) = u64 (y + x).
Proof. unfold u64. rewrite Z.add_mod_idemp_l by lia. f_equal. lia. Qed.

Lemma add_swap (x y z : Z) : (x + (y + z) = y + (x + z))%Z.
Proof. lia. Qed.
Lemma max_swap (x y z : Z) : (Z.max x (Z.max y z) = Z.max y (Z.max x z))%Z.
Proof. lia. Qed.
Lemma lor_swap (x y z : Z) : Z.lor x (Z.lor y z) = Z.lor y (Z.lor x z).
Proof. by rewrite !Z.lor_assoc, (Z.lor_comm x y). Qed.

(** A writer at stage [st] moves on to [st']: only the counters whose stage is
    passed change. *)
Ltac moved Hi := repeat first
  [ rewrite (beyond_next Z.add add_swap _ _ _ _ _ _ _ _ Hi) by (cbn; lia)
  | rewrite (beyond_next Z.max max_swap _ _ _ _ _ _ _ _ Hi) by (cbn; lia)
  | rewrite (beyond_next Z.lor lor_swap _ _ _ _ _ _ _ _ Hi) by (cbn; lia)
  | rewrite (beyond_same _ _ _ _ _ _ _ _ _ Hi) by (cbn; lia) ].

Lemma cas_max_spec ok v exp m : (exp ≤ m)%Z →
  match cas_max ok v exp m with (Some e, m') => m' = m ∧ e = m | (None, m') => m' = Z.max v m end.
Proof. intros Hle. unfold cas_max. destruct (Z.ltb_spec exp v); [|lia]. destruct ok; [|done]. destruct (Z.eqb_spec m exp); [cbn; lia|done]. Qed.

(** What the other writers expect stays below maxima that only grow. *)
Lemma exp_mono (s : cpu_thread_history * list writer) (h' : cpu_thread_history) i c st' :
  (∀ i c exp, (s.2 !! i = Some (c, Cas_real exp) → (exp ≤ max (real s.1))%Z) ∧ (s.2 !! i = Some (c, Cas_cpu exp) → (exp ≤ max (cpu s.1))%Z)) →
  (max (real s.1) ≤ max (real h'))%Z → (max (cpu s.1) ≤ max (cpu h'))%Z →
  match st' with Cas_real e => (e ≤ max (real h'))%Z | Cas_cpu e => (e ≤ max (cpu h'))%Z | _ => True end →
  ∀ j d exp, (<[i := (c, st')]> s.2 !! j = Some (d, Cas_real exp) → (exp ≤ max (real h'))%Z) ∧ (<[i := (c, st')]> s.2 !! j = Some (d, Cas_cpu exp) → (exp ≤ max (cpu h'))%Z).
Proof.
  intros Hold Hr Hc Hst j d exp. destruct (Hold j d exp) as [H1 H2].
  split; (intros [[-> [= <- <-]]|[H _]]%insert_Some_inv; [done|]); [specialize (H1 H)|specialize (H2 H)]; lia.
Qed.

Lemma writer_step_inv h0 s a : stats_inv h0 s → stats_inv h0 (schedule_step s a).
Proof.
  intros Hs. unfold schedule_step. destruct (s.2 !! a.1) as [[c st]|] eqn:Hi; [|done].
  destruct Hs as [Hr Hc Hn Ht Ha He]. destruct s as [h ws], a as [i ok]. cbn [fst snd] in *.
  pose proof (λ st' h', exp_mono (h, ws) h' i c st' He) as Hexp. cbn [fst snd] in Hexp.
  destruct st as [| |exp| | |exp| | |]; cbn [writer_step];
    [| |destruct (cas_max ok (realtime c) exp (max (real h))) as [[e|] m] eqn:E;
        pose proof (cas_max_spec ok (realtime c) exp (max (real h)) (proj1 (He i c exp) Hi)) as Hm; rewrite E in Hm
       | | |destruct (cas_max ok (cputime c) exp (max (cpu h))) as [[e|] m] eqn:E;
        pose proof (cas_max_spec ok (cputime c) exp (max (cpu h)) (proj2 (He i c exp) Hi)) as Hm; rewrite E in Hm| | |].
  all: split; [..|refine (Hexp _ _ _ _ _); cbn; lia]; cbn [fst snd real cpu total_calls types total_active set_real set_cpu];
    [rewrite ?Hr in *; cbn [total max] in *; moved Hi; rewrite ?u64_add; try match type of Hm with _ ∧ _ => destruct Hm as [-> _] end; congruence
    |rewrite ?Hc in *; cbn [total max] in *; moved Hi; rewrite ?u64_add; try match type of Hm with _ ∧ _ => destruct Hm as [-> _] end; congruence
    |rewrite ?Hn; moved Hi; rewrite ?u64_add; done
    |rewrite ?Ht; moved Hi; rewrite 1?Z.lor_comm; done
    |done].
Qed.

(** The counters fit their width. *)
Definition wide (h : cpu_thread_history) : Prop :=
  u64 (total (real h)) = total (real h) ∧ u64 (total (cpu h)) = total (cpu h) ∧ u64 (total_calls h) = total_calls h.

Lemma run_inv h0 calls sched : wide h0 → stats_inv h0 (run h0 calls sched).
Proof.
  intros (W1 & W2 & W3). unfold run. assert (∀ s, stats_inv h0 s → stats_inv h0 (foldl schedule_step s sched)) as H.
  { induction sched as [|a sched IH]; intros s Hs; [done|]. cbn. apply IH. by apply writer_step_inv. }
  apply H. split; cbn [fst snd]; rewrite ?beyond_start, ?W1, ?W2, ?W3; [by destruct (real h0)|by destruct (cpu h0)|done..|].
  intros i c exp. split; intros E%list_elem_of_lookup_2%list_elem_of_In%in_map_iff; by destruct E as (? & ? & _).
Qed.

(** The calls of the writers never change. *)
Lemma run_calls h0 calls sched : map fst (run h0 calls sched).2 = calls.
Proof.
  unfold run. assert (∀ s, map fst (foldl schedule_step s sched).2 = map fst s.2) as ->.
  - induction sched as [|a sched IH]; intros s; [done|]. cbn. rewrite IH. unfold schedule_step.
    destruct (s.2 !! a.1) as [[c st]|] eqn:E; [|done]. destruct (writer_step a.2 c st s.1) as [st' h']. cbn.
    change (map fst) with (fmap (M := list) (@fst usage stage)). rewrite list_fmap_insert. apply list_insert_id. by rewrite list_lookup_fmap, E.
  - cbn. rewrite map_map. apply map_id.
Qed.

Lemma raise_max s v : max (raise s v) = Z.max v (max s).
Proof. cbn. destruct (Z.ltb_spec (max s) v); lia. Qed.

(** The sequential account, counter by counter. *)
Lemma account_all h0 ws : wide h0 → foldr account h0 (map fst ws) =
  let f {op} (val : usage → Z) b := foldr (λ (w : writer) acc, op (val w.1) acc : Z) b ws in
  History (u64 (f (op := Z.add) one (total_calls h0))) (total_active h0)
    (Stats (u64 (f (op := Z.add) realtime (total (real h0)))) (f (op := Z.max) realtime (max (real h0))))
    (Stats (u64 (f (op := Z.add) cputime (total (cpu h0)))) (f (op := Z.max) cputime (max (cpu h0))))
    (f (op := Z.lor) bit (types h0)).
Proof.
  intros (W1 & W2 & W3). induction ws as [|[c st] ws IH]; cbn.
  - rewrite W1, W2, W3. destruct h0 as [? ? [] [] ?]. done.
  - cbn in IH. rewrite IH. unfold account, raise. cbn. rewrite !u64_add, Z.lor_comm. f_equal; f_equal.
    + destruct (Z.ltb_spec (foldr (λ w acc, Z.max (realtime w.1) acc) (max (real h0)) ws) (realtime c)); lia.
    + destruct (Z.ltb_spec (foldr (λ w acc, Z.max (cputime w.1) acc) (max (cpu h0)) ws) (cputime c)); lia.
Qed.

(** C31: when all pthreads that run a function at the same time are through
    [thread_call], then in whatever order their atomic accesses came and however
    often the exchanges failed, the record is what accounting for the calls one
    after the other gives: no call is lost, the totals are the sums and the maxima
    are the maxima. *)
Theorem stats_linearize (h0 : cpu_thread_history) (calls : list usage) (sched : list (nat * bool)) :
  wide h0 → Forall (λ w, w.2 = Finished) (run h0 calls sched).2 →
  (run h0 calls sched).1 = foldr account h0 calls.
Proof.
  intros Hw Hf. pose proof (run_inv h0 calls sched Hw) as [Hr Hc Hn Ht Ha _]. pose proof (run_calls h0 calls sched) as Hcalls.
  destruct (run h0 calls sched) as [h ws]. cbn in *. rewrite <- Hcalls, account_all by done.
  pose proof (λ op val k b H, beyond_finished op val k b ws H Hf) as Hb. rewrite !Hb in Hr by lia. rewrite !Hb in Hc by lia.
  rewrite !Hb in Hn by lia. rewrite !Hb in Ht by lia. destruct h. cbn in *. by rewrite Hr, Hc, Hn, Ht, Ha.
Qed.

(** Two calls at a time; the second raises the maximum between the load and the
    exchange of the first, which then fails and is tried again. *)
Definition two_calls : list usage := [Usage 5 3 THREAD_READ; Usage 7 2 THREAD_TIMER].
Definition two_schedule : list (nat * bool) :=
  [(0, true); (0, true); (1, true); (1, true); (1, false); (1, true); (0, true)] ++ replicate 8 (0, true) ++ replicate 8 (1, true).

Lemma stats_linearize_witness : (run cpu_record_hash_alloc two_calls two_schedule).1 = History 2 0 (Stats 12 7) (Stats 5 3) 5.
Proof.
  rewrite (stats_linearize cpu_record_hash_alloc two_calls two_schedule); [vm_compute; reflexivity|done|].
  vm_compute. repeat constructor.
Defined.

(** ** Filters *)

Lemma parse_filter_spec (s : list ascii) (ty : ttype) :
  Z.testbit (parse_filter s) (type_bit ty) = bool_decide (Exists (λ c, letter_types c = Some ty) s).
Proof.
  unfold parse_filter. rewrite u8_bit by (by destruct ty).
  assert (∀ acc, Z.testbit (foldl (λ filter c, match letter_types c with Some ty => Z.lor filter (Z.shiftl 1 (type_bit ty)) | None => filter end) acc s) (type_bit ty)
    = Z.testbit acc (type_bit ty) || bool_decide (Exists (λ c, letter_types c = Some ty) s)) as ->; [|by rewrite Z.testbit_0_l].
  induction s as [|c s IH]; intros acc; cbn [foldl].
  { rewrite bool_decide_eq_false_2 by (intros H; inversion H). by rewrite orb_false_r. }
  rewrite IH. rewrite (bool_decide_ext (Exists (λ c, letter_types c = Some ty) (c :: s)) (letter_types c = Some ty ∨ Exists (λ c, letter_types c = Some ty) s)) by apply Exists_cons.
  rewrite bool_decide_or. destruct (letter_types c) as [ty'|]; [|done].
  rewrite Z.lor_spec, <- orb_assoc. f_equal. f_equal. by destruct ty, ty'.
Qed.

(** ** The printer *)

(** While nobody calls the function the printer sees the record itself and
    divides by zero only if a record has types but no calls. *)
Lemma print_quiet filter h totals g : cpu_record_hash_print filter (h, []) (replicate 7 []) g totals = (print_copy filter h totals, (h, [])).
Proof. unfold cpu_record_hash_print. cbn. by destruct h as [? ? [] [] ?]. Qed.

Lemma print_after h0 calls sched filter totals : wide h0 → (types h0 ≠ 0%Z → total_calls h0 ≠ 0%Z) → (0 ≤ total_calls h0)%Z →
  (total_calls h0 + Z.of_nat (length calls) < 2 ^ 64)%Z → is_Some (print_copy filter (run h0 calls sched).1 totals).
Proof.
  intros Hw H0 Hpos Hlt. pose proof (run_inv h0 calls sched Hw) as [_ _ Hn Ht _ _]. pose proof (run_calls h0 calls sched) as Hcalls.
  destruct (run h0 calls sched) as [h ws]. cbn [fst snd] in *.
  assert (length calls = length ws) as Hlen by (rewrite <- Hcalls; apply length_map).
  unfold print_copy, vty_out_cpu_thread_history. destruct (Z.eqb_spec (Z.land (types h) filter) 0) as [E|E]; [eauto|].
  rewrite decide_False; [ostep; eauto|]. intros Hz. apply E. assert (types h = 0%Z) as ->; [|by rewrite Z.land_0_l].
  assert (∀ ws : list writer, (total_calls h0 ≤ beyond Z.add one 6 (total_calls h0) ws ≤ total_calls h0 + Z.of_nat (length ws))%Z
    ∧ (beyond Z.add one 6 (total_calls h0) ws = 0 → beyond Z.lor bit 7 (types h0) ws = 0)%Z) as Hb.
  { clear -H0 Hpos. induction ws as [|w ws [IH1 IH2]]; cbn [beyond length]; [split; [lia|]; intros E; by destruct (decide (types h0 = 0%Z)) as [|?%H0]|].
    destruct (decide (6 < rank w.2)) as [Hr|Hr]; [split; [unfold one at 1 3; lia|intros E; exfalso; unfold one at 1 in E; lia]|].
    rewrite decide_False by lia. split; [lia|done]. }
  destruct (Hb ws) as [H1 H2]. rewrite Ht. apply H2. rewrite Hn in Hz. unfold u64 in Hz. rewrite Z.mod_small in Hz by lia. done.
Qed.

(** The printer loads the number of calls before the types, a writer sets them in
    the opposite order: when the first call ends in between, the printer sees no
    calls but a type, and divides by zero. *)
Example print_races : (cpu_record_hash_print 255 (cpu_record_hash_alloc, [(Usage 5 3 THREAD_READ, Inc_calls)])
    [[]; []; []; []; []; []; [(0, true); (0, true)]] cpu_record_hash_alloc cpu_record_hash_alloc).1 = None.
Proof. reflexivity. Qed.

Example print_two : cpu_record_print 255 [[History 2 0 (Stats 12 7) (Stats 5 3) 5; cpu_record_hash_alloc]]
  = Some ([[Line 0 0 5 2 2 3 6 7 [true; false; true; false; false]]], Some (Line 0 0 5 2 2 3 6 7 [true; true; true; true; true])).
Proof. vm_compute. reflexivity. Qed.
