(* ===== verification/ThreadFrame.v ===== *)
(** * What the operations of the event loop do to the tasks of one owner

    [Thread] shows that the containers of a master stay in order.  Here is what
    adding, cancelling and fetching do to the tasks and to the variables that
    hold them, for the components that schedule tasks: one task and one variable
    change, all others stay.  Variables come and go with the objects they are in. *)
From stdpp Require Import prelude gmap list.
From S2P Require Import Prelude PQueue Thread.
Set Default Goal Selector "!".

(** The task is scheduled. *)
Definition scheduled_task (m : thread_master) (q : tptr) (t : thread) : Prop := mem m !! q = Some t ∧ type t ≠ THREAD_UNUSED.

(** A new task [p] is got, put into its place and tied to the variable. *)
Record added (m m' : thread_master) (p : tptr) (t : thread) (t_ptr : option nat) : Prop := Added {
  ad_new : ∀ t0, ¬ scheduled_task m p t0;
  ad_mem : mem m' = <[p := t]> (mem m);
  ad_refs : refs m' = match t_ptr with Some r => <[r := Some p]> (refs m) | None => refs m end;
  ad_limit : fd_limit m' = fd_limit m }.

Lemma get_new m h ty f a t0 : inv0 None m h → ¬ scheduled_task m (thread_get m ty f a).1 t0.
Proof.
  intros Hi [Hm Ht]. unfold thread_get in Hm. destruct (unuse m) as [|p rest] eqn:Eu; cbn in Hm.
  - assert (fresh m < fresh m); [|lia]. apply (i_fresh _ _ _ Hi). eauto.
  - destruct (proj1 (i_at _ _ _ Hi p THREAD_UNUSED)) as (_ & t & Hp & E); [cbn; rewrite Eu; by left|]. congruence.
Qed.

Lemma get_mem m ty f a : mem (thread_get m ty f a).2 = <[(thread_get m ty f a).1 := Thread ty ty None f a U_none]> (mem m)
  ∧ refs (thread_get m ty f a).2 = refs m ∧ fd_limit (thread_get m ty f a).2 = fd_limit m.
Proof. unfold thread_get. by destruct (unuse m). Qed.

Lemma set_u_effect m p t uv m' : mem m !! p = Some t → set_u p uv m = Some m' →
  mem m' = <[p := Thread (type t) (add_type t) (ref t) (func t) (arg t) uv]> (mem m) ∧ refs m' = refs m ∧ fd_limit m' = fd_limit m.
Proof. intros Hp E. unfold set_u in E. rewrite Hp in E. cbn in E. by injection E as <-. Qed.

Lemma tie_effect m p t t_ptr m' : mem m !! p = Some t → ref t = None → tie p t_ptr m = Some m' →
  mem m' = <[p := Thread (type t) (add_type t) t_ptr (func t) (arg t) (u t)]> (mem m)
  ∧ refs m' = match t_ptr with Some r => <[r := Some p]> (refs m) | None => refs m end ∧ fd_limit m' = fd_limit m.
Proof.
  intros Hp Hr E. destruct t_ptr as [r|]; cbn [tie] in E.
  - unfold set_ref in E. destruct (refs m !! r); [|done]. cbn in E. rewrite Hp in E. cbn in E. by injection E as <-.
  - injection E as <-. split_and!; try done. rewrite insert_id; [done|]. rewrite Hp. destruct t. cbn in *. by rewrite Hr.
Qed.

Definition io_type (w : bool) : ttype := if w then THREAD_WRITE else THREAD_READ.

Lemma add_rw_added (w : bool) m h f a zfd t_ptr r m' : inv0 None m h → (∀ r, t_ptr = Some r → refs m !! r = Some None) →
  funcname_thread_add_read_write w m f a zfd t_ptr = Some (r, m') →
  ∃ p, r = Some p ∧ added m m' p (Thread (io_type w) (io_type w) t_ptr f a (U_fd (Z.to_nat zfd))) t_ptr.
Proof.
  intros Hi Hv E. unfold funcname_thread_add_read_write in E. destruct (decide _); [|done].
  assert (scheduled m t_ptr = Some false) as Hs.
  { destruct t_ptr as [r0|]; [|done]. cbn. rewrite (Hv r0 eq_refl). done. }
  rewrite Hs in E. cbn [mbind option_bind] in E. destruct (decide (_ + 1 < _)); [|done].
  pose proof (get_new m h (io_type w) f a) as Hnew. pose proof (get_mem m (io_type w) f a) as Hget. fold (io_type w) in E.
  destruct (thread_get m (io_type w) f a) as [p m1]. cbn [fst snd] in *. destruct Hget as (M1 & R1 & L1).
  apply bind_Some in E as (pf & _ & E). apply bind_Some in E as (m2 & E2 & E). apply bind_Some in E as (m3 & E3 & E). apply bind_Some in E as (m4 & E4 & [= <- <-]).
  eapply set_u_effect in E2 as (M2 & R2 & L2); [|cbn; rewrite M1; apply lookup_insert_eq]. cbn in M2, R2, L2. rewrite M1, insert_insert_eq in M2.
  assert (mem m3 = mem m2 ∧ refs m3 = refs m2 ∧ fd_limit m3 = fd_limit m2) as (M3 & R3 & L3)
    by (destruct w; apply bind_Some in E3 as (? & _ & [= <-]); done).
  eapply tie_effect in E4 as (M4 & R4 & L4); [|rewrite M3, M2; apply lookup_insert_eq|done]. cbn in M4.
  exists p. split; [done|]. split; [by intros t0; apply (Hnew t0)|rewrite M4, M3, M2, insert_insert_eq; done|by rewrite R4, R3, R2, R1|congruence].
Qed.

Lemma add_timer_added now m h f a rel t_ptr r m' : inv0 None m h → (∀ r, t_ptr = Some r → refs m !! r = Some None) →
  funcname_thread_add_timer_timeval now m f a rel t_ptr = Some (r, m') →
  ∃ p, r = Some p ∧ added m m' p (Thread THREAD_TIMER THREAD_TIMER t_ptr f a (U_sands (timeradd now rel))) t_ptr.
Proof.
  intros Hi Hv E. unfold funcname_thread_add_timer_timeval in E.
  assert (scheduled m t_ptr = Some false) as Hs by (destruct t_ptr as [r0|]; [|done]; cbn; by rewrite (Hv r0 eq_refl)).
  rewrite Hs in E. cbn [mbind option_bind] in E.
  pose proof (get_new m h THREAD_TIMER f a) as Hnew. pose proof (get_mem m THREAD_TIMER f a) as Hget.
  destruct (thread_get m THREAD_TIMER f a) as [p m1]. cbn [fst snd] in *. destruct Hget as (M1 & R1 & L1).
  apply bind_Some in E as (m2 & E2 & E). apply bind_Some in E as ([q ix] & _ & E). apply bind_Some in E as (m4 & E4 & [= <- <-]).
  eapply set_u_effect in E2 as (M2 & R2 & L2); [|rewrite M1; apply lookup_insert_eq]. cbn in M2. rewrite M1, insert_insert_eq in M2.
  eapply tie_effect in E4 as (M4 & R4 & L4); [|cbn; rewrite M2; apply lookup_insert_eq|done]. cbn in M4, R4, L4.
  exists p. split; [done|]. split; [by intros t0; apply (Hnew t0)|rewrite M4, M2, insert_insert_eq; done|by rewrite R4, R2, R1|congruence].
Qed.

(** ** Fetching *)

(** The tasks of [m'] are those of [m] but for [gone]; some have become ready. *)
Record tasks_kept (gone : option tptr) (m m' : thread_master) : Prop := TasksKept {
  tk_from q t' : scheduled_task m' q t' → gone ≠ Some q ∧ ∃ t, scheduled_task m q t ∧ readied t t';
  tk_to q t : scheduled_task m q t → gone ≠ Some q → ∃ t', scheduled_task m' q t' ∧ readied t t' }.

Lemma readied_trans t1 t2 t3 : readied t1 t2 → readied t2 t3 → readied t1 t3.
Proof. intros [->| ->] [->| ->]; [by left|by right..]. Qed.

Lemma readied_used t t' : readied t t' → type t ≠ THREAD_UNUSED → type t' ≠ THREAD_UNUSED.
Proof. by intros [->| ->]. Qed.

Lemma turn_keeps m h m1 h1 : inv0 None m h → inv0 None m1 h1 → mem_ready m m1 → (∀ q, q ∈ ready m1 → ∃ t, scheduled_task m q t) → tasks_kept None m m1.
Proof.
  intros Hi Hi1 Hm Hr. split.
  - intros q t' [Hq Ht]. split; [done|]. specialize (Hm q). rewrite Hq in Hm. inversion Hm as [t ? Hrd E1 E2|]; subst. exists t. split; [|done].
    split; [done|]. intros Hun. destruct Hrd as [->| ->]; [done|].
    destruct (Hr q) as (t0 & E & ?); [|congruence]. apply (i_at _ _ _ Hi1 q THREAD_READY). split; [done|]. by eexists.
  - intros q t [Hq Ht] _. specialize (Hm q). rewrite Hq in Hm. inversion Hm as [? t' Hrd E1 E2|]; subst. exists t'.
    split; [|done]. split; [done|]. by eapply readied_used.
Qed.

Lemma kept_trans gone m m1 m2 : tasks_kept None m m1 → tasks_kept gone m1 m2 → tasks_kept gone m m2.
Proof.
  intros [F1 T1] [F2 T2]. split.
  - intros q t2 (Hg & t1 & (_ & t & Ht & Hr)%F1 & Hr1)%F2. split; [done|]. exists t. split; [done|]. by eapply readied_trans.
  - intros q t Ht Hg. destruct (T1 q t Ht) as (t1 & Ht1 & Hr1); [done|]. destruct (T2 q t1 Ht1 Hg) as (t2 & Ht2 & Hr2). exists t2.
    split; [done|]. by eapply readied_trans.
Qed.

(** All tasks but one are as they were. *)
Lemma kept_others p m m' : (∀ q, q ≠ p → mem m' !! q = mem m !! q) → (∀ t, ¬ scheduled_task m' p t) → tasks_kept (Some p) m m'.
Proof.
  intros Ho Hp. split.
  - intros q t' Hq. assert (q ≠ p) as Hne by (intros ->; by apply (Hp t')). split; [congruence|]. exists t'. split; [|by left].
    unfold scheduled_task in *. by rewrite <- Ho.
  - intros q t Hq Hne. exists t. split; [|by left]. unfold scheduled_task in *. rewrite Ho; [done|]. congruence.
Qed.

Lemma at_scheduled m h ty q : inv0 None m h → at_place m h ty q → ty ≠ THREAD_UNUSED → ∃ t, scheduled_task m q t ∧ type t = ty.
Proof. intros Hi Ha Hty. apply (i_at _ _ _ Hi) in Ha as (_ & t & Hq & <-). by exists t. Qed.

(** What fetching hands out: a task, which is given back and whose variable is
    cleared, or nothing. *)
Definition fetch_effect (m m' : thread_master) (r : fetched) : Prop :=
  match r with
  | Task t => ∃ p t0, scheduled_task m p t0 ∧ readied t0 t ∧ tasks_kept (Some p) m m'
       ∧ refs m' = match ref t with Some v => <[v := None]> (refs m) | None => refs m end
  | _ => refs m' = refs m ∧ tasks_kept None m m'
  end.

Lemma effect_after m m1 m' r : tasks_kept None m m1 → refs m1 = refs m → fetch_effect m1 m' r → fetch_effect m m' r.
Proof.
  intros Hk Hr He. destruct r as [t| | |]; cbn [fetch_effect] in *; [|destruct He as [H1 H2]; (split; [congruence|by eapply kept_trans])..].
  destruct He as (p & t1 & Ht1 & Hrd & Hk1 & Hrf). destruct (tk_from _ _ _ Hk p t1 Ht1) as (_ & t0 & Ht0 & Hrd0). exists p, t0.
  split; [done|]. split; [by eapply readied_trans|]. split; [by eapply kept_trans|by rewrite Hrf, Hr].
Qed.

Lemma add_unuse_gone m p m' t : thread_add_unuse m p = Some m' → ¬ scheduled_task m' p t.
Proof.
  unfold thread_add_unuse. intros (t0 & _ & E)%bind_Some [Hp Ht]. cbv zeta in E. destruct (decide _).
  - injection E as <-. cbn in Hp. rewrite lookup_insert_eq in Hp. by injection Hp as <-.
  - unfold thread_free in E. apply bind_Some in E as (? & _ & E). destruct (decide _); [|done]. injection E as <-. cbn in Hp. by rewrite lookup_delete_eq in Hp.
Qed.

Lemma clear_ref_mem t m m' : clear_ref t m = Some m' → mem m' = mem m.
Proof. unfold clear_ref, set_ref. destruct (ref t); [intros (? & _ & [= <-])%bind_Some; done|by intros [= <-]]. Qed.

Lemma fetch_ready_keeps env m h p rest r m' : inv0 None m h → ready m = p :: rest → thread_fetch env m = Some (r, m') →
  inv0 None m' h ∧ fd_limit m' = fd_limit m ∧ pfdcount m' ≤ pfdcount m ∧ fetch_effect m m' r.
Proof.
  intros Hi Hr E. destruct (fetch_ready env m h p rest Hi Hr) as (t & m1 & E1 & Hp & Hty & Hi1 & Hr1 & _ & Ho & Hrf & Hpf & _ & Hl).
  rewrite E in E1. injection E1 as -> <-. split; [done|]. split; [done|]. split; [by rewrite Hpf|]. exists p, t.
  split; [by split; [|rewrite Hty]|]. split; [by left|]. split; [|by rewrite Hrf; unfold detached; destruct (ref t)].
  apply kept_others; [done|]. intros t' Hs. destruct (idle_cancel m h Hi) as [E0 _].
  assert (('(t, m) ← thread_run (set_ready rest (set_cancel [] true m)) p; m ← clear_ref t m; Some (Task t, m)) = Some (Task t, m')) as Er.
  { destruct env; cbn [thread_fetch] in E; rewrite E0 in E; cbn [mbind option_bind] in E; cbn [ready set_cancel] in E; rewrite Hr in E; exact E. }
  apply bind_Some in Er as ([t1 m1] & E1 & Er). apply bind_Some in Er as (m2 & E2 & [= -> ->]). unfold thread_run in E1.
  apply bind_Some in E1 as (t2 & _ & E1). apply bind_Some in E1 as (m3 & E3 & [= -> ->]). apply (add_unuse_gone _ _ _ t' E3).
  unfold scheduled_task in *. by rewrite <- (clear_ref_mem _ _ _ E2).
Qed.

Lemma fetch_keeps env : ∀ m h r m', inv0 None m h → pfdcount m + 1 < fd_limit m → thread_fetch env m = Some (r, m') →
  ∃ h', inv0 None m' h' ∧ fd_limit m' = fd_limit m ∧ pfdcount m' ≤ pfdcount m ∧ fetch_effect m m' r.
Proof.
  assert (∀ m h, inv0 None m h → ready m = [] → tasks_kept None m (set_cancel [] true m)) as Hidle.
  { intros m h Hi Hr. destruct (idle_cancel m h Hi) as [_ Hi0]. apply (turn_keeps m h _ h); [done|done|by apply mem_ready_same|].
    intros q Hq. cbn in Hq. rewrite Hr in Hq. by apply elem_of_nil in Hq. }
  induction env as [|e env IH]; intros m h r m' Hi Hroom E;
    (destruct (ready m) as [|p rest] eqn:Hr; [|exists h; by eapply fetch_ready_keeps]); destruct (idle_cancel m h Hi) as [E0 Hi0].
  { cbn [thread_fetch] in E. rewrite E0 in E. cbn [mbind option_bind] in E.
    replace (ready (set_cancel [] true m)) with (@nil tptr) in E by (by rewrite <- Hr). injection E as <- <-. exists h. split_and!; try done. split; [done|by eapply Hidle]. }
  destruct (decide (event m = [] ∧ h = [] ∧ pfdcount m = 0)) as [(He & Hh & Hp)|Hlive].
  { rewrite (fetch_die e env m h) in E by done. injection E as <- <-. exists h. split_and!; try done. split; [done|by eapply Hidle]. }
  assert (∀ m1 h1, inv0 None m1 h1 → fd_limit m1 = fd_limit m → pfdcount m1 ≤ pfdcount m → refs m1 = refs m → tasks_kept None m m1 →
    thread_fetch env m1 = Some (r, m') → ∃ h', inv0 None m' h' ∧ fd_limit m' = fd_limit m ∧ pfdcount m' ≤ pfdcount m ∧ fetch_effect m m' r) as Hgo.
  { intros m1 h1 Hi1 Hl1 Hp1 Hrf Hk E1. destruct (IH m1 h1 r m' Hi1 ltac:(lia) E1) as (h' & Hi' & Hl' & Hp' & Hx). exists h'.
    split; [done|]. split; [congruence|]. split; [lia|]. by eapply effect_after. }
  destruct (outcome e) as [b|kernel] eqn:Ho.
  - destruct (fetch_interrupted e env m h b Hi Hr Ho Hroom Hlive) as (m1 & E1 & Hi1 & Hr1 & _ & Hp1 & Hl1 & _ & Hrf & Hmr). rewrite E1 in E.
    assert (tasks_kept None m m1) as Hk.
    { apply (turn_keeps m h m1 h); [done..|]. intros q Hq. rewrite Hr1 in Hq. destruct (at_scheduled m h THREAD_EVENT q Hi Hq) as (t & ? & _); [done|]. by exists t. }
    destruct b; [destruct (spin m); [apply (Hgo m1 h); try done; lia|]|]; (injection E as <- <-; exists h; split_and!; try done; lia).
  - destruct (fetch_turn e env m h kernel Hi Hr Ho Hroom Hlive) as (m1 & h1 & due & io & E1 & Hi1 & Hr1 & _ & Hrf & _ & Hl1 & Hp1 & Hh & _ & _ & _ & Hio & Hmr). rewrite E1 in E.
    assert (tasks_kept None m m1) as Hk.
    { apply (turn_keeps m h m1 h1); [done..|]. intros q Hq. rewrite Hr1, !elem_of_app in Hq. assert (∃ ty, at_place m h ty q ∧ ty ≠ THREAD_UNUSED) as (ty & Ha & Hty).
      { destruct Hq as [Hq|[Hq|Hq]]; [by exists THREAD_EVENT|exists THREAD_TIMER; split; [|done]; cbn; rewrite Hh; apply elem_of_app; by left|].
        apply Hio in Hq as (pf & _ & [[_ Hs]|[_ Hs]]); [exists THREAD_READ|exists THREAD_WRITE]; (split; [|done]); by eapply list_elem_of_lookup_2. }
      destruct (at_scheduled m h ty q Hi Ha Hty) as (t & ? & _). by exists t. }
    destruct (spin m); [by apply (Hgo m1 h1)|]. injection E as <- <-. by exists h1.
Qed.

(** An addition that succeeds keeps the containers in order. *)
Lemma add_rw_kept (w : bool) m h f a n t_ptr r m' : inv0 None m h → (∀ r, t_ptr = Some r → refs m !! r = Some None) →
  (∀ q t, scheduled_task m q t → type t = io_type w → u t ≠ U_fd n) →
  funcname_thread_add_read_write w m f a (Z.of_nat n) t_ptr = Some (r, m') →
  inv0 None m' h ∧ ∃ p, r = Some p ∧ added m m' p (Thread (io_type w) (io_type w) t_ptr f a (U_fd n)) t_ptr.
Proof.
  intros Hi Hv Hslot E. destruct (add_rw_added w m h f a (Z.of_nat n) t_ptr r m' Hi Hv E) as (p & Hp & Ha). rewrite Nat2Z.id in Ha.
  split; [|by exists p]. destruct (i_arrays _ _ _ Hi) as [Lr Lw _ _ _ _ _]. assert (Hfd := i_fd _ _ _ Hi).
  assert (n < fd_limit m ∧ find_pollfd (pfds m) (pfdcount m) 0 n + 1 < length (pfds m)) as [Hn Hroom].
  { revert E. unfold funcname_thread_add_read_write. rewrite Nat2Z.id. destruct (decide _); [|done].
    destruct (scheduled m t_ptr) as [[]|] eqn:Es; cbn [mbind option_bind]; [|by destruct (decide _); [split; [lia|]|done]|done].
    destruct t_ptr as [v|]; [|done]. cbn in Es. by rewrite (Hv v eq_refl) in Es. }
  assert ((if w then wr m else rd m) !! n = Some None) as Hs.
  { destruct ((if w then wr m else rd m) !! n) as [[q|]|] eqn:Eq; [|done|apply lookup_ge_None in Eq; destruct w; lia]. exfalso.
    destruct (at_scheduled m h (io_type w) q Hi) as (t & Hq & Ht); [by destruct w; apply list_elem_of_lookup_2 in Eq|by destruct w|].
    apply (Hslot q t Hq Ht). destruct Hq as [Hq _]. specialize (Hfd q n). rewrite Hq in Hfd. destruct w; cbn in Hfd; naive_solver. }
  destruct (add_rw_spec w m h f a n t_ptr Hi) as (r1 & m1 & E1 & Hi1); [|done..|congruence].
  intros v Hr. rewrite (Hv v Hr). by eexists.
Qed.

Lemma add_timer_kept now m h f a rel t_ptr r m' : inv0 None m h → (∀ r, t_ptr = Some r → refs m !! r = Some None) →
  funcname_thread_add_timer_timeval now m f a rel t_ptr = Some (r, m') →
  (∃ h', inv0 None m' h') ∧ ∃ p, r = Some p ∧ added m m' p (Thread THREAD_TIMER THREAD_TIMER t_ptr f a (U_sands (timeradd now rel))) t_ptr.
Proof.
  intros Hi Hv E. split; [|by eapply add_timer_added]. destruct (add_timer_spec now m h f a rel t_ptr Hi) as (r1 & m1 & h1 & E1 & Hi1).
  - intros v Hr. rewrite (Hv v Hr). by eexists.
  - assert (scheduled m t_ptr = Some false) as Hs by (destruct t_ptr as [r0|]; [|done]; cbn; by rewrite (Hv r0 eq_refl)).
    unfold funcname_thread_add_timer_timeval in E. rewrite Hs in E. cbn [mbind option_bind] in E.
    assert (timer (thread_get m THREAD_TIMER f a).2 = timer m) as Ht by (unfold thread_get; by destruct (unuse m)).
    destruct (thread_get m THREAD_TIMER f a) as [p m1]. cbn [snd] in Ht. apply bind_Some in E as (m2 & E2 & E). apply bind_Some in E as (x & E3 & _).
    unfold set_u in E2. apply bind_Some in E2 as (? & _ & [= <-]). cbn in E3. rewrite Ht in E3. exact (pqueue_enqueue_room _ _ _ _ _ _ E3).
  - exists h1. congruence.
Qed.

(** ** Cancelling *)

Lemma cancel_keeps m h p t m' : inv0 None m h → scheduled_task m p t → thread_cancel m p = Some m' →
  ∃ h', inv0 None m' h' ∧ tasks_kept (Some p) m m' ∧ (∀ q, q ≠ p → mem m' !! q = mem m !! q)
    ∧ refs m' = match ref t with Some v => <[v := None]> (refs m) | None => refs m end.
Proof.
  intros Hi [Hp Ht] E. destruct (thread_cancel_spec m h p t Hi Hp Ht) as (m1 & h1 & E1 & Hi1 & Ho & Hr & _ & _ & Hun). rewrite E in E1. injection E1 as <-.
  exists h1. split; [done|]. split; [|split; [done|by rewrite Hr; unfold detached; destruct (ref t)]]. apply kept_others; [done|].
  intros t' [Hp' Ht']. rewrite Hp' in Hun. done.
Qed.

(** ** Variables *)

Definition add_vars (vs : list nat) (m : thread_master) : thread_master := set_refs (foldr (λ v r, <[v := None]> r) (refs m) vs) m.
Definition drop_vars (vs : list nat) (m : thread_master) : thread_master := set_refs (foldr (λ v r, delete v r) (refs m) vs) m.

Lemma refs_change m h r : inv0 None m h → (∀ v q, r !! v = Some (Some q) ↔ refs m !! v = Some (Some q)) → inv0 None (set_refs r m) h.
Proof. intros [Hat Hfd Hnd Htm Hix Hrf Hu Hal Hde Hfr Har Hca] Hr. split; try done; [|destruct Har; by split]. intros q v. cbn. by rewrite Hr, Hrf. Qed.

Lemma add_vars_ok vs m h : inv0 None m h → (∀ v, v ∈ vs → refs m !! v = None) →
  inv0 None (add_vars vs m) h ∧ ∀ v, refs (add_vars vs m) !! v = if decide (v ∈ vs) then Some None else refs m !! v.
Proof.
  intros Hi Hv. assert (∀ v, refs (add_vars vs m) !! v = if decide (v ∈ vs) then Some None else refs m !! v) as Hl.
  { intros v. unfold add_vars. cbn. clear Hv. induction vs as [|w vs IH]; cbn; [by rewrite decide_False by (by intros ?%elem_of_nil)|].
    destruct (decide (w = v)) as [->|Hne]; [rewrite lookup_insert_eq, decide_True by (by left); done|]. rewrite lookup_insert_ne, IH by done.
    destruct (decide (v ∈ vs)); [rewrite decide_True by (by right); done|]. rewrite decide_False; [done|]. by intros [?|?]%elem_of_cons. }
  split; [|done]. apply refs_change; [done|]. intros v q. rewrite Hl. case_decide as Hin; [rewrite (Hv v Hin); done|done].
Qed.

Lemma drop_vars_ok vs m h : inv0 None m h → (∀ v q, v ∈ vs → refs m !! v ≠ Some (Some q)) →
  inv0 None (drop_vars vs m) h ∧ ∀ v, refs (drop_vars vs m) !! v = if decide (v ∈ vs) then None else refs m !! v.
Proof.
  intros Hi Hv. assert (∀ v, refs (drop_vars vs m) !! v = if decide (v ∈ vs) then None else refs m !! v) as Hl.
  { intros v. unfold drop_vars. cbn. clear Hv. induction vs as [|w vs IH]; cbn; [by rewrite decide_False by (by intros ?%elem_of_nil)|].
    destruct (decide (w = v)) as [->|Hne]; [rewrite lookup_delete_eq, decide_True by (by left); done|]. rewrite lookup_delete_ne, IH by done.
    destruct (decide (v ∈ vs)); [rewrite decide_True by (by right); done|]. rewrite decide_False; [done|]. by intros [?|?]%elem_of_cons. }
  split; [|done]. apply refs_change; [done|]. intros v q. rewrite Hl. case_decide as Hin; [|done]. split; [done|]. by intros ?%Hv.
Qed.
