(* ===== verification/Sigevent.v ===== *)
(** * Signals: lib/sigevent.c

    A signal handler only sets flags: the one of every registered entry with
    that number, and the one of the master.  The event loop (thread_fetch of
    lib/thread.c) calls [quagga_sigevent_process], which runs the functions of
    the flagged entries.  The kernel may run the handler between any two
    accesses to the flags, and [sa_mask] is full, so the handler itself is not
    interrupted: it is one step, while the process is cut into its single reads
    and writes ([main_step]).

    Theorems: a signal that is delivered has its function called within
    [3 * sigc + 4] steps of the event loop, wherever in the loop it comes and
    whatever is delivered after it ([delivered_signal_handled]); a function is
    called at most once per delivery ([calls_need_signals]); without a
    signal in between the single steps are [quagga_sigevent_process]
    ([process_steps]); [signal_init] gives every registered signal the generic
    handler and leaves dispositions that are not the default alone
    ([signal_init_dispositions]). *)
From stdpp Require Import prelude gmap list.
From S2P Require Import Prelude.
Set Default Goal Selector "!".

(** ** The flags *)

Record quagga_signal_t := Signal { signal : Z; handler : option nat; caught : Z }.
Record quagga_sigevent_master_t := Sigmaster { signals : option (list quagga_signal_t); sigc : nat; mcaught : Z }.

Definition put_caught (c : Z) (s : quagga_signal_t) : quagga_signal_t := Signal (signal s) (handler s) c.
Definition put_mcaught (c : Z) (m : quagga_sigevent_master_t) : quagga_sigevent_master_t :=
  Sigmaster (signals m) (sigc m) c.
Definition put_signals (l : list quagga_signal_t) (m : quagga_sigevent_master_t) : quagga_sigevent_master_t :=
  Sigmaster (Some l) (sigc m) (mcaught m).

(** [&(sigmaster.signals[i])]; [None] is an access outside the array. *)
Definition signal_at (m : quagga_sigevent_master_t) (i : nat) : option quagga_signal_t :=
  l ← signals m; l !! i.
Definition write_caught (m : quagga_sigevent_master_t) (i : nat) (c : Z) : option quagga_sigevent_master_t :=
  l ← signals m; sig ← l !! i; Some (put_signals (<[i := put_caught c sig]> l) m).

(** [n] more rounds of the loop over the entries from [i]. *)
Fixpoint mark_loop (signo : Z) (n i : nat) (m : quagga_sigevent_master_t) : option quagga_sigevent_master_t :=
  match n with
  | 0 => Some m
  | S n =>
      sig ← signal_at m i;
      m ← (if decide (signal sig = signo) then write_caught m i 1 else Some m);
      mark_loop signo n (i + 1) m
  end.

Definition quagga_signal_handler (signo : Z) (m : quagga_sigevent_master_t) : option quagga_sigevent_master_t :=
  m ← mark_loop signo (sigc m) 0 m; Some (put_mcaught 1 m).

(** The result holds the functions called, each with the place of its entry. *)
Fixpoint sigevent_loop (n i : nat) (m : quagga_sigevent_master_t) : option (quagga_sigevent_master_t * list (nat * nat)) :=
  match n with
  | 0 => Some (m, [])
  | S n =>
      sig ← signal_at m i;
      if (0 <? caught sig)%Z then
        m ← write_caught m i 0;
        '(m, calls) ← sigevent_loop n (i + 1) m;
        Some (m, match handler sig with Some h => (i, h) :: calls | None => calls end)
      else sigevent_loop n (i + 1) m
  end.

Definition quagga_sigevent_process (m : quagga_sigevent_master_t) : option (Z * quagga_sigevent_master_t * list (nat * nat)) :=
  if (0 <? mcaught m)%Z then
    '(m, calls) ← sigevent_loop (sigc m) 0 (put_mcaught 0 m); Some (0%Z, m, calls)
  else Some (0%Z, m, []).

(** ** The process in single steps *)

(** Where the event loop is: outside, at the test of the master's flag, at its
    reset, at the test of an entry, at the entry's reset, at the call. *)
Inductive place := Away | Enter | Clear | Loop (i : nat) | Reset (i : nat) | Call (i : nat).

#[export] Instance place_eq_dec : EqDecision place.
Proof. solve_decision. Defined.

Record proc := Proc { master : quagga_sigevent_master_t; here : place; calls : list (nat * nat) }.

Definition main_step (p : proc) : option proc :=
  let '(Proc m pc cs) := p in
  match pc with
  | Away => Some (Proc m Enter cs)
  | Enter => Some (Proc m (if (0 <? mcaught m)%Z then Clear else Away) cs)
  | Clear => Some (Proc (put_mcaught 0 m) (Loop 0) cs)
  | Loop i =>
      if decide (i < sigc m) then
        sig ← signal_at m i;
        Some (Proc m (if (0 <? caught sig)%Z then Reset i else Loop (i + 1)) cs)
      else Some (Proc m Away cs)
  | Reset i => m ← write_caught m i 0; Some (Proc m (Call i) cs)
  | Call i =>
      sig ← signal_at m i;
      Some (Proc m (Loop (i + 1)) (cs ++ match handler sig with Some h => [(i, h)] | None => [] end))
  end.

Inductive event := Main | Deliver (signo : Z).

Definition step (e : event) (p : proc) : option proc :=
  match e with
  | Main => main_step p
  | Deliver signo => m ← quagga_signal_handler signo (master p); Some (Proc m (here p) (calls p))
  end.

Fixpoint run (es : list event) (p : proc) : option proc :=
  match es with [] => Some p | e :: es => p ← step e p; run es p end.

#[export] Instance event_eq_dec : EqDecision event.
Proof. solve_decision. Defined.

Definition mains (es : list event) : nat := length (filter (.= Main) es).
Definition delivered (signo : Z) (es : list event) : nat := length (filter (.= Deliver signo) es).

(** ** Lemmas on the array *)

(** What [signal_init] leaves: the array has [sigc] entries. *)
Definition sig_ok (m : quagga_sigevent_master_t) : Prop := ∃ l, signals m = Some l ∧ length l = sigc m.

(** Entry [k] reacts to [signo] with [h] and its flag is [c]. *)
Definition entry (m : quagga_sigevent_master_t) (k : nat) (signo : Z) (h : nat) (c : Z) : Prop :=
  signal_at m k = Some (Signal signo (Some h) c).

Definition place_ok (m : quagga_sigevent_master_t) (pc : place) : Prop :=
  match pc with Reset i | Call i => i < sigc m | Loop i => i ≤ sigc m | _ => True end.

Lemma sig_ok_at m i : sig_ok m → i < sigc m → ∃ sig, signal_at m i = Some sig.
Proof.
  intros (l & E & Hl) Hi. unfold signal_at. rewrite E. simpl. apply lookup_lt_is_Some_2. lia.
Qed.

Lemma signal_at_lt m i sig : sig_ok m → signal_at m i = Some sig → i < sigc m.
Proof.
  intros (l & E & Hl). unfold signal_at. rewrite E. simpl. intros H%lookup_lt_Some. lia.
Qed.

(** What writing one flag does to the array. *)
Lemma write_caught_spec m i c : sig_ok m → i < sigc m → ∃ m', write_caught m i c = Some m' ∧ sig_ok m' ∧
  sigc m' = sigc m ∧ mcaught m' = mcaught m ∧ signal_at m' i = put_caught c <$> signal_at m i ∧
  ∀ j, j ≠ i → signal_at m' j = signal_at m j.
Proof.
  intros (l & E & Hl) Hi. unfold write_caught, signal_at. rewrite E. simpl.
  destruct (lookup_lt_is_Some_2 l i) as [sig Es]; [lia|]. rewrite Es. simpl. eexists. split; [done|]. simpl.
  split_and!; try done.
  - eexists. split; [done|]. by rewrite length_insert.
  - rewrite list_lookup_insert_eq; [done|lia].
  - intros j Hj. by rewrite list_lookup_insert_ne.
Qed.

(** The handler sets the flags of the entries with its number and no other. *)
Lemma mark_loop_spec signo n : ∀ i m, sig_ok m → i + n = sigc m → ∃ m', mark_loop signo n i m = Some m' ∧ sig_ok m' ∧
  sigc m' = sigc m ∧ ∀ j, signal_at m' j = (λ sig, if decide (i ≤ j ∧ signal sig = signo) then put_caught 1 sig else sig) <$> signal_at m j.
Proof.
  induction n as [|n IH]; intros i m Hm Hn; simpl.
  - exists m. split_and!; try done. intros j. destruct (signal_at m j) as [sig|] eqn:E; [|done]. simpl.
    apply signal_at_lt in E; [|done]. rewrite decide_False by lia. done.
  - destruct (sig_ok_at m i) as [sig Es]; [done|lia|]. rewrite Es. simpl. case_decide as Hs.
    + destruct (write_caught_spec m i 1 Hm ltac:(lia)) as (m1 & -> & Hm1 & Hc & _ & Hi & Hj). simpl.
      destruct (IH (i + 1) m1 Hm1 ltac:(lia)) as (m2 & -> & Hm2 & Hc2 & Hat). exists m2. split_and!; try done; [lia|].
      intros j. rewrite Hat. destruct (decide (j = i)) as [->|Hne].
      * rewrite Hi, Es. simpl. rewrite decide_False by lia. by rewrite decide_True.
      * rewrite Hj by done. destruct (signal_at m j) as [sj|]; [|done]. simpl. f_equal.
        repeat case_decide; (done || lia).
    + simpl. destruct (IH (i + 1) m Hm ltac:(lia)) as (m2 & -> & Hm2 & Hc2 & Hat). exists m2. split_and!; try done.
      intros j. rewrite Hat. destruct (decide (j = i)) as [->|Hne].
      * rewrite Es. simpl. rewrite !decide_False; (done || naive_solver lia).
      * destruct (signal_at m j) as [sj|]; [|done]. simpl. f_equal. repeat case_decide; (done || lia).
Qed.

Lemma handler_spec signo m : sig_ok m → ∃ m', quagga_signal_handler signo m = Some m' ∧ sig_ok m' ∧ sigc m' = sigc m ∧
  mcaught m' = 1%Z ∧ ∀ j, signal_at m' j = (λ sig, if decide (signal sig = signo) then put_caught 1 sig else sig) <$> signal_at m j.
Proof.
  intros Hm. unfold quagga_signal_handler. destruct (mark_loop_spec signo (sigc m) 0 m Hm eq_refl) as (m' & -> & Hm' & Hc & Hat).
  simpl. eexists. split; [done|]. split_and!; try done. intros j. change (signal_at (put_mcaught 1 m') j) with (signal_at m' j).
  rewrite Hat. destruct (signal_at m j); [|done]. simpl. f_equal. repeat case_decide; (done || naive_solver lia).
Qed.

(** ** Every step is defined and keeps the array *)

Definition proc_ok (p : proc) : Prop := sig_ok (master p) ∧ place_ok (master p) (here p).

(** The entries with their flags left out. *)
Definition table (m : quagga_sigevent_master_t) (k : nat) : option (Z * option nat) :=
  (λ sig, (signal sig, handler sig)) <$> signal_at m k.

Lemma step_ok e p : proc_ok p → ∃ p' new, step e p = Some p' ∧ proc_ok p' ∧ sigc (master p') = sigc (master p) ∧
  calls p' = calls p ++ new ∧ ∀ k, table (master p') k = table (master p) k.
Proof.
  destruct p as [m pc cs]. intros [Hm Hpc]. simpl in *. destruct e as [|signo]; simpl.
  - destruct pc as [| | |i|i|i]; simpl in *.
    + eexists _, []. rewrite app_nil_r. done.
    + eexists _, []. rewrite app_nil_r. split; [done|]. split_and!; try done. split; [done|]. by destruct (_ <? _)%Z.
    + eexists _, []. rewrite app_nil_r. split; [done|]. split_and!; try done. split; [done|]. simpl. lia.
    + case_decide.
      * destruct (sig_ok_at m i) as [sig E]; [done..|]. rewrite E. simpl. eexists _, []. rewrite app_nil_r. split; [done|].
        split_and!; try done. split; [done|]. destruct (_ <? _)%Z; simpl; lia.
      * eexists _, []. rewrite app_nil_r. done.
    + destruct (write_caught_spec m i 0 Hm Hpc) as (m' & -> & Hm' & Hc & _ & Hi & Hj). simpl. eexists _, []. rewrite app_nil_r.
      split; [done|]. simpl. split_and!; try done; [split; [done|]; simpl; lia|]. intros k. unfold table.
      destruct (decide (k = i)) as [->|]; [rewrite Hi|by rewrite Hj]. by destruct (signal_at m i).
    + destruct (sig_ok_at m i) as [sig E]; [done..|]. rewrite E. simpl. eexists _, _. split; [done|]. split_and!; try done.
      split; [done|]. simpl. lia.
  - destruct (handler_spec signo m Hm) as (m' & -> & Hm' & Hc & _ & Hat). simpl. eexists _, []. rewrite app_nil_r. split; [done|].
    simpl. split_and!; try done.
    + split; [done|]. destruct pc; simpl in *; lia.
    + intros k. unfold table. rewrite Hat. destruct (signal_at m k); [|done]. simpl. by case_decide.
Qed.

Lemma run_ok es : ∀ p, proc_ok p → ∃ p' new, run es p = Some p' ∧ proc_ok p' ∧ sigc (master p') = sigc (master p) ∧
  calls p' = calls p ++ new ∧ ∀ k, table (master p') k = table (master p) k.
Proof.
  induction es as [|e es IH]; intros p Hp; simpl.
  - exists p, []. by rewrite app_nil_r.
  - destruct (step_ok e p Hp) as (p1 & n1 & -> & Hp1 & Hc1 & Hn1 & Ht1). simpl.
    destruct (IH p1 Hp1) as (p2 & n2 & -> & Hp2 & Hc2 & Hn2 & Ht2). exists p2, (n1 ++ n2). split_and!; try done.
    + by rewrite Hc2.
    + by rewrite Hn2, Hn1, app_assoc.
    + intros k. by rewrite Ht2.
Qed.

(** ** A delivered signal is handled *)

(** The process has the test of entry [k] before it in this round. *)
Definition ahead (k : nat) (pc : place) : Prop :=
  match pc with Clear => True | Loop i | Reset i => i ≤ k | Call i => i < k | _ => False end.

(** The call of entry [k] is owed: its flag is set and a round is under way or
    asked for that gets to it, or its flag has just been reset. *)
Definition owed (k : nat) (p : proc) : Prop :=
  here p = Call k ∨
  ∃ sig, signal_at (master p) k = Some sig ∧ (0 < caught sig)%Z ∧ ((0 < mcaught (master p))%Z ∨ ahead k (here p)).

(** How many steps of the loop it takes at most. *)
Definition dist (n k : nat) (pc : place) : nat :=
  match pc with
  | Away => 3 * k + 6
  | Enter => 3 * k + 5
  | Clear => 3 * k + 4
  | Loop i => if decide (i ≤ k) then 3 * (k - i) + 3 else 3 * (n - i) + 3 * k + 7
  | Reset i => if decide (i ≤ k) then 3 * (k - i) + 2 else 3 * (n - i) + 3 * k + 6
  | Call i => if decide (i ≤ k) then 3 * (k - i) + 1 else 3 * (n - i) + 3 * k + 5
  end.

Lemma dist_bound n k pc : k < n → (match pc with Loop i | Reset i | Call i => i ≤ n | _ => True end) → dist n k pc ≤ 3 * n + 4.
Proof. destruct pc; simpl; repeat case_decide; lia. Qed.

Lemma deliver_owes signo k h p p' : proc_ok p → table (master p) k = Some (signo, h) → step (Deliver signo) p = Some p' → owed k p'.
Proof.
  intros [Hm _] Ht. simpl. destruct (handler_spec signo (master p) Hm) as (m' & -> & _ & _ & Hc & Hat). simpl. intros [= <-].
  right. simpl. rewrite Hc, Hat. unfold table in Ht. destruct (signal_at (master p) k) as [sig|]; simplify_eq/=.
  rewrite decide_True by done. eexists. split; [done|]. simpl. lia.
Qed.

Lemma deliver_keeps signo k p p' : proc_ok p → owed k p → step (Deliver signo) p = Some p' → owed k p' ∧ here p' = here p.
Proof.
  intros [Hm _] Ho. simpl. destruct (handler_spec signo (master p) Hm) as (m' & -> & _ & _ & Hc & Hat). simpl. intros [= <-].
  split; [|done]. destruct Ho as [Ho|(sig & E & Hs & _)]; [by left|]. right. simpl. rewrite Hc, Hat, E. simpl.
  eexists. split; [done|]. case_decide; simpl; lia.
Qed.

(** A step of the loop makes the call that is owed or comes nearer to it. *)
Lemma main_progress k signo h p p' : proc_ok p → table (master p) k = Some (signo, Some h) → owed k p → main_step p = Some p' →
  (k, h) ∈ drop (length (calls p)) (calls p') ∨
  owed k p' ∧ dist (sigc (master p)) k (here p') < dist (sigc (master p)) k (here p).
Proof.
  destruct p as [m pc cs]. unfold table. intros [Hm Hpc] Ht Ho. simpl in *. destruct (signal_at m k) as [sk|] eqn:Ek; simplify_eq/=.
  pose proof (signal_at_lt m k sk Hm Ek) as Hk.
  assert (Ho' : pc = Call k ∨ (0 < caught sk)%Z ∧ ((0 < mcaught m)%Z ∨ ahead k pc)).
  { destruct Ho as [Ho|(s & E & Hs & Ho)]; [by left|]. simpl in *. right. by simplify_eq. }
  clear Ho. assert (Hr : pc ≠ Call k → (0 < caught sk)%Z ∧ ((0 < mcaught m)%Z ∨ ahead k pc)) by naive_solver.
  destruct pc as [| | |i|i|i]; simpl in *.
  - intros [= <-]. right. destruct Hr as [? [?|?]]; [done| |done]. split; [right; eauto|simpl; lia].
  - intros [= <-]. right. destruct Hr as [? [Hc|?]]; [done| |done]. simpl. rewrite (proj2 (Z.ltb_lt _ _) Hc).
    split; [right; eauto|simpl; lia].
  - intros [= <-]. right. destruct Hr as [? _]; [done|]. split.
    + right. exists sk. split; [done|]. split; [done|]. right. simpl. lia.
    + cbn [here dist]. case_decide; lia.
  - destruct Hr as [Hs Hr]; [done|]. case_decide as Hi.
    + destruct (sig_ok_at m i) as [si Ei]; [done..|]. rewrite Ei. simpl. intros [= <-]. right. split.
      * right. exists sk. split; [done|]. split; [done|]. destruct Hr as [|Hr]; [by left|]. right. simpl.
        destruct (decide (i = k)) as [->|]; [|destruct (_ <? _)%Z; simpl; lia].
        simplify_eq. rewrite (proj2 (Z.ltb_lt _ _) Hs). done.
      * simpl. destruct (0 <? caught si)%Z eqn:Ec; simpl; repeat case_decide; try lia.
        exfalso. assert (i = k) as -> by lia. simplify_eq. lia.
    + intros [= <-]. right. split; [|simpl; repeat case_decide; lia]. right. exists sk. split; [done|]. split; [done|].
      left. simpl. destruct Hr; [done|lia].
  - destruct Hr as [Hs Hr]; [done|].
    destruct (write_caught_spec m i 0 Hm Hpc) as (m' & -> & Hm' & Hc & Hmc & Hi & Hj). simpl. intros [= <-]. right.
    split; [|simpl; repeat case_decide; lia]. destruct (decide (i = k)) as [->|Hne]; [by left|]. right. simpl.
    rewrite Hj, Hmc by done. exists sk. split; [done|]. split; [done|]. destruct Hr; [by left|]. right. lia.
  - destruct (sig_ok_at m i) as [si Ei]; [done..|]. rewrite Ei. simpl. intros [= <-]. simpl. rewrite drop_app_length.
    destruct (decide (i = k)) as [->|Hne].
    { left. simplify_eq. destruct sk; simplify_eq/=. set_solver. }
    destruct Hr as [Hs Hr]; [naive_solver|]. right. split; [|simpl; repeat case_decide; lia]. right. exists sk. split; [done|].
    split; [done|]. destruct Hr; [by left|]. right. simpl. lia.
Qed.

Lemma owed_run k signo h es : ∀ p, proc_ok p → table (master p) k = Some (signo, Some h) → owed k p →
  dist (sigc (master p)) k (here p) ≤ mains es → ∃ p' new, run es p = Some p' ∧ calls p' = calls p ++ new ∧ (k, h) ∈ new.
Proof.
  induction es as [|e es IH]; intros p Hp Ht Ho Hd.
  - exfalso. unfold mains in Hd. simpl in Hd. destruct (here p); simpl in Hd; repeat case_decide; lia.
  - destruct (step_ok e p Hp) as (p1 & n1 & E1 & Hp1 & Hc1 & Hn1 & Ht1). simpl. rewrite E1. simpl. destruct e as [|s].
    + destruct (main_progress k signo h p p1 Hp Ht Ho E1) as [Hcall|[Ho1 Hd1]].
      * destruct (run_ok es p1 Hp1) as (p2 & n2 & -> & _ & _ & Hn2 & _). exists p2, (n1 ++ n2). split; [done|].
        rewrite Hn2, Hn1. split; [by rewrite app_assoc|]. rewrite Hn1, drop_app_length in Hcall. set_solver.
      * destruct (IH p1) as (p2 & n2 & -> & Hn2 & Hin); [done|by rewrite Ht1|done| |].
        { rewrite Hc1. unfold mains in *. simpl in Hd. lia. }
        exists p2, (n1 ++ n2). split; [done|]. rewrite Hn2, Hn1. split; [by rewrite app_assoc|set_solver].
    + destruct (deliver_keeps s k p p1 Hp Ho E1) as [Ho1 Hh].
      destruct (IH p1) as (p2 & n2 & -> & Hn2 & Hin); [done|by rewrite Ht1|done| |].
      { rewrite Hc1, Hh. unfold mains in *. simpl in Hd. done. }
      exists p2, (n1 ++ n2). split; [done|]. rewrite Hn2, Hn1. split; [by rewrite app_assoc|set_solver].
Qed.

(** ** A function is called at most once per signal *)

Definition flag (m : quagga_sigevent_master_t) (k : nat) : Z := match signal_at m k with Some sig => caught sig | None => 0%Z end.
Definition count (k : nat) (cs : list (nat * nat)) : nat := length (filter (λ c, c.1 = k) cs).

(** Calls made, about to be made and still flagged. *)
Definition spent (k : nat) (p : proc) : nat :=
  count k (calls p) + (if decide (0 < flag (master p) k)%Z then 1 else 0)
  + (if decide (here p = Call k) then 1 else 0).


(** The flag that the process is about to reset is still set. *)
Definition reset_flagged (p : proc) : Prop := ∀ i, here p = Reset i → (0 < flag (master p) i)%Z.

Lemma count_app k cs cs' : count k (cs ++ cs') = count k cs + count k cs'.
Proof. unfold count. by rewrite filter_app, length_app. Qed.

Lemma count_call k i (o : option nat) :
  count k (match o with Some h => [(i, h)] | None => [] end) ≤ (if decide (i = k) then 1 else 0).
Proof. unfold count. destruct o; simpl; [|lia]. rewrite filter_cons. simpl. by case_decide. Qed.

(** Steps that neither reset nor call. *)
Lemma main_quiet p p' : proc_ok p → main_step p = Some p' → (∀ i, here p ≠ Reset i ∧ here p ≠ Call i) →
  calls p' = calls p ∧ (∀ k, flag (master p') k = flag (master p) k) ∧ (∀ i, here p' ≠ Call i) ∧ reset_flagged p'.
Proof.
  destruct p as [m pc cs]. intros [Hm Hpc] E Hq. destruct pc as [| | |i|i|i]; simpl in *; [..|naive_solver|naive_solver].
  - by simplify_eq.
  - simplify_eq. split_and!; try done; intros i; simpl; by destruct (_ <? _)%Z.
  - by simplify_eq.
  - case_decide; [|by simplify_eq]. destruct (sig_ok_at m i) as [si Ei]; [done..|]. rewrite Ei in E. simplify_eq/=.
    destruct (0 <? caught si)%Z eqn:Ec; split_and!; try done. intros j [= <-]. simpl. unfold flag. rewrite Ei. lia.
Qed.

Lemma main_spent k signo h p p' : proc_ok p → reset_flagged p → table (master p) k = Some (signo, h) → main_step p = Some p' →
  reset_flagged p' ∧ spent k p' ≤ spent k p.
Proof.
  intros Hp Hr Ht E. assert ((∃ i, here p = Reset i ∨ here p = Call i) ∨ ∀ i, here p ≠ Reset i ∧ here p ≠ Call i) as [(i & Hi)|Hq]
    by (destruct (here p); naive_solver).
  - destruct p as [m pc cs], Hp as [Hm Hpc]. simpl in *. destruct Hi as [->| ->]; simpl in *.
    + destruct (write_caught_spec m i 0 Hm Hpc) as (m' & Ew & Hm' & Hc & Hmc & Hi & Hj). rewrite Ew in E. simplify_eq/=.
      split; [done|]. pose proof (Hr i eq_refl) as Hf. unfold spent; simpl in *. destruct (decide (i = k)) as [->|Hne].
      * assert (flag m' k = 0%Z) as -> by (unfold flag; rewrite Hi; by destruct (signal_at m k)).
        repeat case_decide; try done; lia.
      * assert (flag m' k = flag m k) as -> by (unfold flag; by rewrite Hj). rewrite !(decide_False (P := _ = Call k)) by congruence. lia.
    + destruct (sig_ok_at m i) as [si Ei]; [done..|]. rewrite Ei in E. simplify_eq/=. split; [done|].
      unfold spent; cbn [here calls master]. rewrite count_app. rewrite (decide_False (P := Loop _ = _)) by done.
      pose proof (count_call k i (handler si)). destruct (decide (i = k)) as [->|Hne]; [|lia].
      rewrite (decide_True (P := Call k = Call k)) by done. lia.
  - destruct (main_quiet p p' Hp E Hq) as (Hc & Hf & Hn & Hr'). split; [done|]. unfold spent. rewrite Hc, Hf.
    rewrite (decide_False (P := here p' = _)) by done. lia.
Qed.

Lemma deliver_spent k signo h s p p' : proc_ok p → reset_flagged p → table (master p) k = Some (signo, h) →
  step (Deliver s) p = Some p' → reset_flagged p' ∧ spent k p' ≤ spent k p + (if decide (s = signo) then 1 else 0).
Proof.
  destruct p as [m pc cs]. intros [Hm _] Hr Ht. unfold table in Ht. simpl in *.
  destruct (handler_spec s m Hm) as (m' & -> & Hm' & Hc & Hmc & Hat). simpl. intros [= <-]. split.
  - intros i Hi. simpl in *. specialize (Hr i Hi). unfold flag in *. rewrite Hat. simpl in *.
    destruct (signal_at m i); simpl; [|lia]. case_decide; simpl; lia.
  - destruct (signal_at m k) as [sk|] eqn:Ek; simplify_eq/=. unfold spent. simpl.
    assert (flag m' k = if decide (signal sk = s) then 1%Z else flag m k) as ->.
    { unfold flag. rewrite Hat, Ek. simpl. by case_decide. }
    destruct (decide (signal sk = s)); [|lia]. subst. rewrite (decide_True (P := signal sk = signal sk)) by done. repeat case_decide; lia.
Qed.

Lemma run_spent k signo h es : ∀ p p', proc_ok p → reset_flagged p → table (master p) k = Some (signo, h) → run es p = Some p' →
  spent k p' ≤ spent k p + delivered signo es.
Proof.
  induction es as [|e es IH]; intros p p' Hp Hr Ht E.
  - simplify_eq/=. lia.
  - destruct (step_ok e p Hp) as (p1 & n1 & E1 & Hp1 & _ & _ & Ht1). simpl in E. rewrite E1 in E. simpl in E.
    unfold delivered. rewrite filter_cons. destruct e as [|s].
    + destruct (main_spent k signo h p p1) as [Hr1 Hs]; [done..|]. specialize (IH p1 p' Hp1 Hr1). rewrite Ht1 in IH.
      specialize (IH Ht E). unfold delivered in IH. rewrite decide_False by done. lia.
    + destruct (deliver_spent k signo h s p p1) as [Hr1 Hs]; [done..|]. specialize (IH p1 p' Hp1 Hr1). rewrite Ht1 in IH.
      specialize (IH Ht E). unfold delivered in IH. destruct (decide (s = signo)) as [->|].
      * rewrite decide_True by done. simpl. lia.
      * rewrite decide_False by congruence. lia.
Qed.

(** ** Without a signal in between the steps are the function *)

Lemma run_app es es' p : run (es ++ es') p = run es p ≫= run es'.
Proof. revert p. induction es as [|e es IH]; intros p; simpl; [done|]. destruct (step e p); simpl; [apply IH|done]. Qed.

Lemma run_main es p p1 : main_step p = Some p1 → run (Main :: es) p = run es p1.
Proof. intros E. simpl. by rewrite E. Qed.

Lemma loop_steps n : ∀ i m cs, i + n = sigc m → sig_ok m → ∃ t m' new, sigevent_loop n i m = Some (m', new) ∧
  run (replicate t Main) (Proc m (Loop i) cs) = Some (Proc m' Away (cs ++ new)).
Proof.
  induction n as [|n IH]; intros i m cs Hn Hm.
  - exists 1, m, []. split; [done|]. simpl. rewrite decide_False by lia. simpl. by rewrite app_nil_r.
  - destruct (sig_ok_at m i) as [sig Es]; [done|lia|]. simpl sigevent_loop. rewrite Es. simpl.
    assert (EL : main_step (Proc m (Loop i) cs) = Some (Proc m (if (0 <? caught sig)%Z then Reset i else Loop (i + 1)) cs)).
    { simpl. rewrite decide_True by lia. by rewrite Es. }
    destruct (0 <? caught sig)%Z.
    + destruct (write_caught_spec m i 0 Hm ltac:(lia)) as (m1 & E1 & Hm1 & Hc & _ & Hi & _). rewrite E1. simpl.
      set (one := match handler sig with Some h => [(i, h)] | None => [] end).
      destruct (IH (i + 1) m1 (cs ++ one) ltac:(lia) Hm1) as (t & m2 & new & E2 & R). rewrite E2. simpl.
      exists (S (S (S t))), m2, (one ++ new). split; [by unfold one; destruct (handler sig)|]. simpl replicate.
      rewrite (run_main _ _ _ EL). rewrite (run_main _ _ (Proc m1 (Call i) cs)) by (simpl; by rewrite E1).
      rewrite (run_main _ _ (Proc m1 (Loop (i + 1)) (cs ++ one))) by (simpl; by rewrite Hi, Es).
      rewrite R. by rewrite app_assoc.
    + destruct (IH (i + 1) m cs ltac:(lia) Hm) as (t & m2 & new & E2 & R). exists (S t), m2, new. split; [done|].
      simpl replicate. by rewrite (run_main _ _ _ EL).
Qed.

(** Uninterrupted steps from outside the loop and back are
    [quagga_sigevent_process]. *)
Theorem process_steps (m : quagga_sigevent_master_t) (cs : list (nat * nat)) : sig_ok m → ∃ t m' new,
  quagga_sigevent_process m = Some (0%Z, m', new) ∧
  run (replicate (S t) Main) (Proc m Away cs) = Some (Proc m' Away (cs ++ new)).
Proof.
  intros Hm. unfold quagga_sigevent_process. destruct (0 <? mcaught m)%Z eqn:Ec.
  - destruct (loop_steps (sigc m) 0 (put_mcaught 0 m) cs eq_refl Hm) as (t & m' & new & E & R). rewrite E. ostep.
    exists (S (S t)), m', new. split; [done|]. simpl replicate. rewrite (run_main _ _ (Proc m Enter cs)) by done.
    rewrite (run_main _ _ (Proc m Clear cs)) by (simpl; by rewrite Ec). rewrite (run_main _ _ (Proc (put_mcaught 0 m) (Loop 0) cs)) by done. done.
  - exists 1, m, []. split; [done|]. simpl. rewrite Ec. by rewrite app_nil_r.
Qed.

(** ** Installing the handlers *)

(** Linux numbers of the signals and of the flags of [sigaction]. *)
Definition core_signals : list Z := [3; 4; 8; 7; 11; 31; 24; 25]%Z.
Definition exit_signals : list Z := [1; 2; 14; 15; 10; 12; 29; 26; 16]%Z.
Definition ignore_signals : list Z := [13]%Z.
Definition SIGALRM : Z := 14.
Definition SA_SIGINFO : Z := 4.
Definition SA_RESTART : Z := 0x10000000.
Definition SA_INTERRUPT : Z := 0x20000000.
Definition SA_RESETHAND : Z := 0x80000000.

Inductive sighandler := SIG_DFL | SIG_IGN | core_handler | exit_handler | quagga_handler | other_handler (h : nat).
#[export] Instance sighandler_eq_dec : EqDecision sighandler.
Proof. solve_decision. Defined.

(** A disposition; [sa_mask] is full in every one that is installed here. *)
Record sigaction_t := Sigaction { sa_handler : sighandler; sa_flags : Z }.
Abbreviation dispositions := (gmap Z sigaction_t).
Definition default_action : sigaction_t := Sigaction SIG_DFL 0.

(** [sigaction]: a number outside 1..64 is an error, and so is a change for
    SIGKILL and SIGSTOP; signals without an entry have the default. *)
Definition valid_signo (s : Z) : bool := ((1 <=? s) && (s <=? 64))%Z.
Definition sigaction_get (t : dispositions) (s : Z) : option sigaction_t :=
  if valid_signo s then Some (default default_action (t !! s)) else None.
Definition sigaction_set (t : dispositions) (s : Z) (a : sigaction_t) : option dispositions :=
  if valid_signo s && negb (s =? 9)%Z && negb (s =? 19)%Z then Some (<[s := a]> t) else None.

Definition sigmap : list (list Z * option sighandler) :=
  [(core_signals, Some core_handler); (exit_signals, Some exit_handler); (ignore_signals, None)].

Definition trap_action (h : option sighandler) : sigaction_t :=
  match h with
  | None => Sigaction SIG_IGN 0
  | Some h => Sigaction h (if decide (h = core_handler) then Z.lor SA_SIGINFO SA_RESETHAND else SA_SIGINFO)
  end.

(** One round of the inner loop; a failure is only reported. *)
Definition trap_signal (h : option sighandler) (t : dispositions) (s : Z) : dispositions :=
  match sigaction_get t s with
  | Some oact =>
      if decide (sa_handler oact = SIG_DFL) then
        default t (sigaction_set t s (trap_action h))
      else t
  | None => t
  end.

Definition trap_default_signals (t : dispositions) : dispositions :=
  foldl (λ t e, foldl (trap_signal e.2) t e.1) t sigmap.

Definition signal_set (t : dispositions) (signo : Z) : option dispositions :=
  sigaction_set t signo (Sigaction quagga_handler (if (signo =? SIGALRM)%Z then SA_INTERRUPT else SA_RESTART)).

(** [None] is the call of [exit]. *)
Fixpoint signal_set_loop (t : dispositions) (sigs : list quagga_signal_t) : option dispositions :=
  match sigs with [] => Some t | sig :: sigs => t ← signal_set t (signal sig); signal_set_loop t sigs end.

(** The two assignments at the end; a signal may come before, between and after
    them. *)
Definition store_sigc (n : nat) (m : quagga_sigevent_master_t) : quagga_sigevent_master_t :=
  Sigmaster (signals m) n (mcaught m).
Definition store_signals (sigs : list quagga_signal_t) (m : quagga_sigevent_master_t) : quagga_sigevent_master_t :=
  Sigmaster (Some sigs) (sigc m) (mcaught m).

Definition signal_init (sigs : list quagga_signal_t) (t : dispositions) (m : quagga_sigevent_master_t)
    : option (dispositions * quagga_sigevent_master_t) :=
  t ← signal_set_loop (trap_default_signals t) sigs;
  Some (t, store_signals sigs (store_sigc (length sigs) m)).

Definition action (t : dispositions) (s : Z) : sigaction_t := default default_action (t !! s).
Definition changeable (s : Z) : Prop := (1 ≤ s ≤ 64 ∧ s ≠ 9 ∧ s ≠ 19)%Z.
#[export] Instance changeable_dec s : Decision (changeable s).
Proof. unfold changeable. apply _. Defined.

Lemma sigaction_get_ok t s : changeable s → sigaction_get t s = Some (action t s).
Proof. intros (? & ? & ?). unfold sigaction_get, valid_signo. destruct (_ && _) eqn:E; [done|lia]. Qed.

Lemma sigaction_set_ok t s a : changeable s → sigaction_set t s a = Some (<[s := a]> t).
Proof. intros (? & ? & ?). unfold sigaction_set, valid_signo. destruct (_ && _ && _) eqn:E; [done|lia]. Qed.

Lemma action_insert t s a s' : action (<[s := a]> t) s' = if decide (s = s') then a else action t s'.
Proof. unfold action. case_decide; subst; [by rewrite lookup_insert_eq|by rewrite lookup_insert_ne]. Qed.

Lemma trap_signal_action h t s s' : changeable s →
  action (trap_signal h t s) s' = if decide (s = s' ∧ sa_handler (action t s') = SIG_DFL) then trap_action h else action t s'.
Proof.
  intros Hs. unfold trap_signal. rewrite sigaction_get_ok by done. destruct (decide (s = s')) as [->|Hne].
  - destruct (decide (sa_handler (action t s') = SIG_DFL)) as [Hd|Hd].
    + rewrite sigaction_set_ok by done. simpl. rewrite action_insert, !decide_True by done. done.
    + rewrite decide_False by naive_solver. done.
  - rewrite (decide_False (P := s = s' ∧ _)) by naive_solver. case_decide; [|done]. rewrite sigaction_set_ok by done. simpl.
    rewrite action_insert, decide_False by done. done.
Qed.

Lemma trap_signals_action h l : Forall changeable l → sa_handler (trap_action h) ≠ SIG_DFL → ∀ t s,
  action (foldl (trap_signal h) t l) s = if decide (s ∈ l ∧ sa_handler (action t s) = SIG_DFL) then trap_action h else action t s.
Proof.
  intros Hl Hh. induction Hl as [|x l Hx Hl IH]; intros t s; cbn [foldl].
  - rewrite decide_False; [done|]. intros [Hs%not_elem_of_nil _]. done.
  - rewrite IH, trap_signal_action by done. destruct (decide (sa_handler (action t s) = SIG_DFL)) as [Hd|Hd].
    + destruct (decide (x = s)) as [->|Hne].
      * rewrite (decide_True (P := s = s ∧ _)) by done. rewrite decide_False by naive_solver.
        rewrite decide_True; [done|]. split; [left|done].
      * rewrite (decide_False (P := x = s ∧ _)) by naive_solver. repeat case_decide; set_solver.
    + rewrite (decide_False (P := x = s ∧ _)) by naive_solver. repeat case_decide; naive_solver.
Qed.

(** The disposition of [s] after the defaults are trapped. *)
Definition trapped (s : Z) (a : sigaction_t) : sigaction_t :=
  if decide (sa_handler a = SIG_DFL) then
    if decide (s ∈ core_signals) then Sigaction core_handler (Z.lor SA_SIGINFO SA_RESETHAND)
    else if decide (s ∈ exit_signals) then Sigaction exit_handler SA_SIGINFO
    else if decide (s ∈ ignore_signals) then Sigaction SIG_IGN 0
    else a
  else a.

Lemma trap_default_signals_action t s : action (trap_default_signals t) s = trapped s (action t s).
Proof.
  unfold trap_default_signals, sigmap. cbn [foldl fst snd].
  rewrite !trap_signals_action by first [discriminate | apply (bool_decide_unpack _); vm_compute; exact I]. unfold trapped.
  destruct (decide (sa_handler (action t s) = SIG_DFL)) as [Hd|Hd].
  - destruct (decide (s ∈ core_signals)) as [Hc|Hc].
    + rewrite (decide_True (P := s ∈ core_signals ∧ _)) by done. rewrite (decide_False (P := s ∈ exit_signals ∧ _)) by naive_solver.
      rewrite decide_False by naive_solver. done.
    + rewrite (decide_False (P := s ∈ core_signals ∧ _)) by naive_solver. destruct (decide (s ∈ exit_signals)) as [He|He].
      * rewrite (decide_True (P := s ∈ exit_signals ∧ _)) by done. rewrite decide_False by naive_solver. done.
      * rewrite (decide_False (P := s ∈ exit_signals ∧ _)) by naive_solver.
        destruct (decide (s ∈ ignore_signals)); [by rewrite decide_True|]. by rewrite decide_False by naive_solver.
  - rewrite (decide_False (P := s ∈ core_signals ∧ _)) by naive_solver.
    rewrite (decide_False (P := s ∈ exit_signals ∧ _)) by naive_solver. by rewrite decide_False by naive_solver.
Qed.

Lemma signal_set_loop_action sigs : Forall (λ sig, changeable (signal sig)) sigs → ∀ t, ∃ t', signal_set_loop t sigs = Some t' ∧
  ∀ s, if decide (s ∈ signal <$> sigs) then sa_handler (action t' s) = quagga_handler else action t' s = action t s.
Proof.
  induction 1 as [|sig sigs Hs _ IH]; intros t; cbn [signal_set_loop].
  - exists t. split; [done|]. intros s. by rewrite decide_False by apply not_elem_of_nil.
  - unfold signal_set. rewrite sigaction_set_ok by done. rewrite obind_Some.
    set (a := Sigaction quagga_handler _). destruct (IH (<[signal sig := a]> t)) as (t' & -> & Ht).
    exists t'. split; [done|]. intros s. specialize (Ht s). rewrite action_insert in Ht.
    destruct (decide (s ∈ signal <$> sigs)) as [Hin|Hout].
    + rewrite decide_True; [done|by right].
    + destruct (decide (signal sig = s)) as [<-|Hne].
      * rewrite decide_True by left. by rewrite Ht.
      * rewrite decide_False; [done|]. set_solver.
Qed.

(** After [signal_init] the registered signals have the generic handler, the
    others are trapped where they had the default action and otherwise as they
    were. *)
Theorem signal_init_dispositions (sigs : list quagga_signal_t) (t : dispositions) (m : quagga_sigevent_master_t) :
  Forall (λ sig, changeable (signal sig)) sigs → ∃ t' m', signal_init sigs t m = Some (t', m') ∧ sig_ok m' ∧
  ∀ s, if decide (s ∈ signal <$> sigs) then sa_handler (action t' s) = quagga_handler
       else action t' s = trapped s (action t s).
Proof.
  intros Hs. unfold signal_init. destruct (signal_set_loop_action sigs Hs (trap_default_signals t)) as (t' & -> & Ht). simpl.
  eexists _, _. split; [done|]. split; [by eexists|]. intros s. specialize (Ht s). case_decide; [done|].
  by rewrite Ht, trap_default_signals_action.
Qed.

(** ** Examples and the promise of the signal component *)

Definition demo_signals : list quagga_signal_t := [Signal 1 (Some 10) 0; Signal 15 (Some 11) 0; Signal 10 None 0].
Definition demo_master : quagga_sigevent_master_t := Sigmaster (Some demo_signals) 3 0.

(** A signal that comes while its own entry is being handled gives another call
    in the next round. *)
Example second_round : calls <$> run ([Deliver 1] ++ replicate 5 Main ++ [Deliver 1] ++ replicate 14 Main) (Proc demo_master Away [])
  = Some [(0, 10); (0, 10)].
Proof. vm_compute. reflexivity. Qed.

(** Signals that come while [signal_init] has the handlers installed and the
    array not yet: before [sigc] is stored the signal leaves no trace but the
    master's flag; between the two assignments the handler reads through a null
    pointer. *)
Example init_loses_signal :
  (m ← quagga_signal_handler 1 (Sigmaster None 0 0); quagga_sigevent_process (store_signals demo_signals (store_sigc 3 m)))
    = Some (0%Z, demo_master, []).
Proof. vm_compute. reflexivity. Qed.

Example init_null_array : quagga_signal_handler 1 (store_sigc 3 (Sigmaster None 0 0)) = None.
Proof. vm_compute. reflexivity. Qed.

(** C38: no signal is lost.  Wherever the event loop is when the kernel delivers a
    signal (outside, at the test or the reset of a flag, at a call, past the
    signal's entry), and whatever signals come after it, within [3 * sigc + 4]
    steps of the loop the function of each entry registered for it is called
    after the delivery, and nothing is accessed outside the array. *)
Theorem delivered_signal_handled (p : proc) (k : nat) (signo : Z) (h : nat) (es : list event) :
  proc_ok p → table (master p) k = Some (signo, Some h) → 3 * sigc (master p) + 4 ≤ mains es →
  ∃ p' new, run (Deliver signo :: es) p = Some p' ∧ calls p' = calls p ++ new ∧ (k, h) ∈ new.
Proof.
  intros Hp Ht Hn. destruct (step_ok (Deliver signo) p Hp) as (p1 & n1 & E1 & Hp1 & Hc1 & Hn1 & Ht1).
  pose proof (deliver_owes signo k _ p p1 Hp Ht E1) as Ho. simpl in E1. simpl. rewrite E1. simpl.
  assert (Hk : k < sigc (master p)).
  { unfold table in Ht. destruct (signal_at (master p) k) eqn:Ek; [|done]. by eapply signal_at_lt; [apply Hp|]. }
  destruct (owed_run k signo h es p1) as (p2 & n2 & -> & Hn2 & Hin); [done|by rewrite Ht1|done| |].
  - etrans; [apply dist_bound|by rewrite Hc1].
    + by rewrite Hc1.
    + destruct Hp1 as [_ Hpl]. destruct (here p1); simpl in *; lia.
  - exists p2, (n1 ++ n2). split; [done|]. rewrite Hn2, Hn1. split; [by rewrite app_assoc|set_solver].
Qed.

Lemma delivered_signal_handled_witness : ∃ p' new,
  run (Deliver 15 :: (replicate 6 Main ++ [Deliver 1] ++ replicate 7 Main)) (Proc demo_master (Loop 2) []) = Some p' ∧
  calls p' = [] ++ new ∧ (1, 11) ∈ new.
Proof.
  apply (delivered_signal_handled (Proc demo_master (Loop 2) []) 1 15 11).
  - split; [by eexists|simpl; lia].
  - reflexivity.
  - vm_compute. lia.
Defined.

(** From a state without flags a function is called at most as often as its signal
    was delivered. *)
Theorem calls_need_signals (p p' : proc) (k : nat) (signo : Z) (h : option nat) (es : list event) :
  proc_ok p → here p = Away → calls p = [] → flag (master p) k = 0%Z → table (master p) k = Some (signo, h) → run es p = Some p' →
  length (filter (λ c, c.1 = k) (calls p')) ≤ delivered signo es.
Proof.
  intros Hp Ha Hc Hf Ht E. assert (Hr : reset_flagged p) by (intros i; by rewrite Ha).
  assert (H0 : spent k p = 0) by (unfold spent; by rewrite Ha, Hc, Hf).
  pose proof (run_spent k signo h es p p' Hp Hr Ht E) as H. rewrite H0 in H. unfold spent, count in H. lia.
Qed.
