(* ===== verification/Network.v ===== *)
(** * Reading and writing a number of bytes: lib/network.c

    What the descriptor does is a sequence of outcomes, one for each call of
    [read] or [write]; [None] is a call with no outcome left, a descriptor that
    blocks for ever.  The buffer is a part of memory that starts at [ptr].

    Theorems: [readn] returns the first [nbytes] of the input however it arrives
    ([readn_reads_all]); [writen] sends the buffer when no write fails
    ([writen_sends_all]); a write that fails and may be repeated is counted as -1
    bytes written, so each one makes [writen] send one byte more than it was
    asked to ([writen_counts_failures]). *)
From stdpp Require Import prelude list.
From S2P Require Import Prelude.
Set Default Goal Selector "!".

Inductive read_outcome := Got (n : nat) | Read_failed.

(** [data] is the input still to come; a [read] of 0 bytes is its end. *)
Fixpoint readn_loop (os : list read_outcome) (nbytes nleft : nat) (data got : list Z) : option (Z * list Z * list Z) :=
  if decide (0 < nleft) then
    match os with
    | [] => None
    | Read_failed :: _ => Some ((-1)%Z, got, data)
    | Got n :: os =>
        let chunk := take (n `min` nleft) data in
        if decide (chunk = []) then Some (Z.of_nat (nbytes - nleft), got, data)
        else readn_loop os nbytes (nleft - length chunk) (drop (length chunk) data) (got ++ chunk)
    end
  else Some (Z.of_nat (nbytes - nleft), got, data).

Definition readn (os : list read_outcome) (nbytes : nat) (data : list Z) : option (Z * list Z * list Z) :=
  readn_loop os nbytes nbytes data [].

Inductive write_outcome := Wrote (n : nat) | Write_failed (retry : bool).

(** [n] bytes of memory from [ptr]; [None] is an access outside. *)
Definition mem_read (mem : list Z) (ptr : Z) (n : nat) : option (list Z) :=
  if (0 <=? ptr)%Z && (Z.to_nat ptr + n <=? length mem)%nat then Some (take n (drop (Z.to_nat ptr) mem)) else None.

Fixpoint writen_loop (os : list write_outcome) (mem : list Z) (ptr nbytes nleft : Z) (sent : list Z) : option (Z * list Z) :=
  if (0 <? nleft)%Z then
    match os with
    | [] => None
    | Write_failed false :: _ => Some ((-1)%Z, sent)
    | Write_failed true :: os => writen_loop os mem (ptr - 1) nbytes (nleft + 1) sent
    | Wrote n :: os =>
        let n := n `min` Z.to_nat nleft in
        bs ← mem_read mem ptr n;
        if decide (n = 0) then Some (0%Z, sent)
        else writen_loop os mem (ptr + Z.of_nat n) nbytes (nleft - Z.of_nat n) (sent ++ bs)
    end
  else Some ((nbytes - nleft)%Z, sent).

Definition writen (os : list write_outcome) (mem : list Z) (ptr nbytes : Z) : option (Z * list Z) :=
  writen_loop os mem ptr nbytes nbytes [].

(** ** Reading *)

(** Every read takes something unless the input has ended. *)
Definition reads_on (o : read_outcome) : Prop := match o with Got n => 0 < n | Read_failed => False end.

Lemma readn_loop_all os : ∀ nbytes nleft data got, Forall reads_on os → nleft < length os → nleft ≤ nbytes →
  readn_loop os nbytes nleft data got =
    Some (Z.of_nat (nbytes - nleft + nleft `min` length data), got ++ take nleft data, drop nleft data).
Proof.
  induction os as [|o os IH]; intros nbytes nleft data got Ho Hl Hn; [simpl in Hl; lia|].
  cbn [readn_loop]. destruct (decide (0 < nleft)) as [Hp|Hp].
  - inversion Ho as [|? ? Hr Hos]; subst. destruct o as [n|]; [|done]. simpl in Hr. case_decide as Hc.
    + assert (data = []) as ->.
      { apply length_zero_iff_nil. apply (f_equal length) in Hc. rewrite length_take in Hc. simpl in Hc. lia. }
      rewrite take_nil, drop_nil, app_nil_r. simpl. do 3 f_equal. lia.
    + set (k := length (take (n `min` nleft) data)). assert (Hk : k = n `min` nleft `min` length data) by apply length_take.
      assert (0 < k) by (destruct (take (n `min` nleft) data) eqn:E; [done|subst k; simpl; lia]).
      assert (Hd : take (n `min` nleft) data = take k data).
      { destruct (decide (n `min` nleft ≤ length data)); [f_equal; lia|]. rewrite !take_ge by lia. done. }
      rewrite IH by (done || (simpl in Hl; lia)). rewrite Hd, <- app_assoc, drop_drop, length_drop. do 3 f_equal.
      * lia.
      * f_equal. rewrite <- (take_drop k (take nleft data)), take_take, Nat.min_l by lia. f_equal.
        rewrite skipn_firstn_comm. done.
      * f_equal. lia.
  - assert (nleft = 0) as -> by lia. rewrite take_0, drop_0, app_nil_r. do 3 f_equal. lia.
Qed.

(** With enough outcomes that take something, [readn] stores the first [nbytes]
    of the input, or all of a shorter input, and returns their number. *)
Theorem readn_reads_all (os : list read_outcome) (nbytes : nat) (data : list Z) : Forall reads_on os → nbytes < length os →
  readn os nbytes data = Some (Z.of_nat (nbytes `min` length data), take nbytes data, drop nbytes data).
Proof. intros Ho Hn. unfold readn. rewrite readn_loop_all by done. by rewrite Nat.sub_diag. Qed.

(** ** Writing *)

Definition writes_on (o : write_outcome) : Prop := match o with Wrote n => 0 < n | Write_failed _ => False end.

Lemma mem_read_split mem ptr n k bs : k ≤ n → mem_read mem ptr n = Some bs →
  mem_read mem ptr k = Some (take k bs) ∧ mem_read mem (ptr + Z.of_nat k) (n - k) = Some (drop k bs).
Proof.
  unfold mem_read. intros Hk H. destruct (0 <=? ptr)%Z eqn:E0; [|done]. cbn [andb] in *.
  destruct (Z.to_nat ptr + n <=? length mem) eqn:E1; [|done]. apply Nat.leb_le in E1. apply Z.leb_le in E0. simplify_eq. split.
  - rewrite (proj2 (Nat.leb_le _ _)) by lia. by rewrite take_take, Nat.min_l by lia.
  - rewrite (proj2 (Z.leb_le _ _)) by lia. rewrite (proj2 (Nat.leb_le _ _)) by lia. cbn [andb]. f_equal.
    rewrite skipn_firstn_comm, drop_drop. do 2 f_equal. lia.
Qed.

Lemma writen_loop_all os mem nbytes : ∀ ptr n sent bs, Forall writes_on os → n ≤ length os → mem_read mem ptr n = Some bs →
  writen_loop os mem ptr nbytes (Z.of_nat n) sent = Some (nbytes, sent ++ bs).
Proof.
  induction os as [|o os IH]; intros ptr n sent bs Ho Hl Hm.
  - simpl in Hl. assert (n = 0) as -> by lia. cbn. unfold mem_read in Hm. case_match; simplify_eq. rewrite app_nil_r. do 2 f_equal. lia.
  - cbn [writen_loop]. destruct (0 <? Z.of_nat n)%Z eqn:En.
    + apply Z.ltb_lt in En. inversion Ho as [|? ? Hr Hos]; subst. destruct o as [w|]; [|done]. simpl in Hr. rewrite Nat2Z.id.
      remember (w `min` n) as k eqn:Hk. destruct (mem_read_split mem ptr n k bs ltac:(lia) Hm) as [-> H2]. rewrite obind_Some.
      rewrite decide_False by lia. replace (Z.of_nat n - Z.of_nat k)%Z with (Z.of_nat (n - k)) by lia.
      rewrite (IH _ (n - k) _ _ Hos ltac:(simpl in Hl; lia) H2). by rewrite <- app_assoc, take_drop.
    + apply Z.ltb_ge in En. assert (n = 0) as -> by lia. unfold mem_read in Hm. case_match; simplify_eq. rewrite app_nil_r. do 2 f_equal. simpl. lia.
Qed.

(** Without failures [writen] sends the buffer and returns its length. *)
Theorem writen_sends_all (os : list write_outcome) (mem bs : list Z) (ptr : Z) (n : nat) :
  Forall writes_on os → n ≤ length os → mem_read mem ptr n = Some bs → writen os mem ptr (Z.of_nat n) = Some (Z.of_nat n, bs).
Proof. intros Ho Hl Hm. unfold writen. by rewrite (writen_loop_all os mem (Z.of_nat n) ptr n [] bs). Qed.

Lemma writen_loop_retries r os mem nbytes : ∀ ptr nleft sent, (0 < nleft)%Z →
  writen_loop (replicate r (Write_failed true) ++ os) mem ptr nbytes nleft sent =
  writen_loop os mem (ptr - Z.of_nat r) nbytes (nleft + Z.of_nat r) sent.
Proof.
  induction r as [|r IH]; intros ptr nleft sent Hp.
  - simpl. by rewrite Z.sub_0_r, Z.add_0_r.
  - cbn [replicate app writen_loop]. rewrite (proj2 (Z.ltb_lt _ _)) by lia. rewrite IH by lia. f_equal; lia.
Qed.

(** After [r] failures that may be repeated, the [r] bytes of memory before the
    buffer are sent, too, and the result still says [n]. *)
Theorem writen_counts_failures (r n : nat) (os : list write_outcome) (mem bs : list Z) (ptr : Z) :
  Forall writes_on os → 0 < n → n + r ≤ length os → mem_read mem (ptr - Z.of_nat r) (n + r) = Some bs →
  writen (replicate r (Write_failed true) ++ os) mem ptr (Z.of_nat n) = Some (Z.of_nat n, bs).
Proof.
  intros Ho Hn Hl Hm. unfold writen. rewrite writen_loop_retries by lia.
  replace (Z.of_nat n + Z.of_nat r)%Z with (Z.of_nat (n + r)) by lia. by rewrite (writen_loop_all os mem _ _ _ _ bs).
Qed.

Example writen_one_retry : writen [Write_failed true; Wrote 2; Wrote 5] [1; 2; 3; 4; 5; 6]%Z 3 3 = Some (3, [3; 4; 5; 6])%Z.
Proof. vm_compute. reflexivity. Qed.

Example readn_pieces : readn [Got 1; Got 4; Got 1] 4 [1; 2; 3; 4; 5]%Z = Some (4, [1; 2; 3; 4], [5])%Z.
Proof. vm_compute. reflexivity. Qed.
