(* ===== verification/CString.v ===== *)
(** * C strings and the parts of the C library the code uses on them

    A character is an [ascii]; a C string is the list of its characters without
    the terminating NUL ([cstring]); a character buffer is a list of characters
    in which the first NUL ends the string ([strnlen], [cstr]).  The functions
    here belong to the C library ([strchr], [atoi], the conversions of
    [sscanf] and [snprintf] that the sources use); the code of the repository
    is modelled in the files that import this one. *)
From Stdlib Require Import Ascii String.
From stdpp Require Import prelude strings list.
From S2P Require Import Prelude.
Set Default Goal Selector "!".

Abbreviation cstring := (list ascii).
Definition str (s : string) : cstring := list_ascii_of_string s.

Definition NUL : ascii := "000"%char.
Definition code (c : ascii) : Z := Z.of_N (N_of_ascii c).
Definition chr (z : Z) : ascii := ascii_of_N (Z.to_N z).

Definition isdigit (c : ascii) : bool := ((48 <=? code c) && (code c <=? 57))%Z.
Definition isspace (c : ascii) : bool := ((9 <=? code c) && (code c <=? 13) || (code c =? 32))%Z.

(** Value of a hexadecimal digit. *)
Definition hexval (c : ascii) : option Z :=
  let z := code c in
  (if (48 <=? z) && (z <=? 57) then Some (z - 48)
   else if (97 <=? z) && (z <=? 102) then Some (z - 87)
   else if (65 <=? z) && (z <=? 70) then Some (z - 55)
   else None)%Z.

Definition hexdigit (d : Z) : ascii :=
  (if d <? 10 then chr (48 + d) else chr (87 + d))%Z.

(** [strnlen]: number of characters before the first NUL, at most [n]; [None]
    when the scan leaves the buffer. *)
Fixpoint strnlen (buf : list ascii) (n : nat) : option nat :=
  match n, buf with
  | 0, _ => Some 0
  | S _, [] => None
  | S n, c :: buf => if decide (c = NUL) then Some 0 else S <$> strnlen buf n
  end.

(** The C string stored in a buffer. *)
Fixpoint cstr (buf : list ascii) : option cstring :=
  match buf with
  | [] => None
  | c :: buf => if decide (c = NUL) then Some [] else cons c <$> cstr buf
  end.

(** [strchr]: the characters before the first [c], and what follows it. *)
Fixpoint strchr (s : cstring) (c : ascii) : option (cstring * cstring) :=
  match s with
  | [] => None
  | x :: s =>
      if decide (x = c) then Some ([], s)
      else '(a, b) ← strchr s c; Some (x :: a, b)
  end.

(** [strncmp(a, b, n) == 0]. *)
Fixpoint strncmp_eq (a b : cstring) (n : nat) : bool :=
  match n, a, b with
  | 0, _, _ => true
  | S _, [], [] => true
  | S n, x :: a, y :: b => bool_decide (x = y) && strncmp_eq a b n
  | _, _, _ => false
  end.

(** [strstr]: the characters before the first occurrence of [find] in [s] and
    those from it on. *)
Fixpoint strstr (s find : cstring) : option (cstring * cstring) :=
  if strncmp_eq s find (length find) then Some ([], s)
  else match s with
       | [] => None
       | x :: s => '(a, b) ← strstr s find; Some (x :: a, b)
       end.

(** Decimal digits: value read by [atoi]/[strtol], most significant first. *)
Fixpoint dec_value (acc : Z) (s : cstring) : Z :=
  match s with
  | [] => acc
  | c :: s => if isdigit c then dec_value (10 * acc + (code c - 48))%Z s else acc
  end.

Fixpoint skip_space (s : cstring) : cstring :=
  match s with
  | c :: s' => if isspace c then skip_space s' else s
  | [] => []
  end.

(** [atoi]; [None] when the value does not fit an [int], where the C library
    gives no result. *)
Definition atoi (s : cstring) : option Z :=
  let s := skip_space s in
  let '(sign, s) := match s with
                    | "-"%char :: s => ((-1)%Z, s)
                    | "+"%char :: s => (1%Z, s)
                    | s => (1%Z, s)
                    end in
  let v := (sign * dec_value 0 s)%Z in
  if ((- INT_MAX - 1 <=? v) && (v <=? INT_MAX))%Z then Some v else None.

(** [strtol(s, NULL, 0)]: the prefix selects the base; digits are read while
    they are below it; the value is clamped to a [long]. *)
Fixpoint base_value (base acc : Z) (s : cstring) : Z :=
  match s with
  | [] => acc
  | c :: s' =>
      match hexval c with
      | Some d => if (d <? base)%Z then base_value base (base * acc + d)%Z s' else acc
      | None => acc
      end
  end.

Definition LONG_MAX : Z := (2 ^ 63 - 1)%Z.

Definition strtol0 (s : cstring) : Z :=
  let s := skip_space s in
  let '(sign, s) := match s with
                    | "-"%char :: s => ((-1)%Z, s)
                    | "+"%char :: s => (1%Z, s)
                    | s => (1%Z, s)
                    end in
  let v := match s with
           | "0"%char :: ("x"%char | "X"%char) :: (c :: _) as t =>
               if hexval c is Some _ then base_value 16 0 t else 0%Z
           | "0"%char :: s => base_value 8 0 s
           | s => base_value 10 0 s
           end in
  Z.max (- LONG_MAX - 1) (Z.min LONG_MAX (sign * v)).

(** [%d] of a non-negative value. *)
Fixpoint dec_loop (fuel : nat) (n : Z) (acc : cstring) : cstring :=
  match fuel with
  | 0 => acc
  | S fuel =>
      let acc := chr (48 + n mod 10)%Z :: acc in
      if (n <? 10)%Z then acc else dec_loop fuel (n / 10)%Z acc
  end.
Definition dec (n : Z) : cstring := dec_loop 20 n [].

(** [%02x] of a byte. *)
Definition hex2 (b : Z) : cstring := [hexdigit (b / 16)%Z; hexdigit (b mod 16)%Z].

(** One [%2x] conversion of [sscanf]: white space is skipped, then at most two
    characters are consumed: an optional sign and hexadecimal digits. The
    characters [0x] fill the field without a digit after them, which is a
    matching failure. *)
Definition scan_2x (s : cstring) : option (Z * cstring) :=
  let s := skip_space s in
  let one (sg : Z) (s : cstring) : option (Z * cstring) :=
    match s with
    | c :: s => d ← hexval c; Some ((sg * d) mod 2 ^ 32, s)%Z
    | [] => None
    end in
  match s with
  | "-"%char :: s => one (-1)%Z s
  | "+"%char :: s => one 1%Z s
  | "0"%char :: ("x"%char | "X"%char) :: _ => None
  | c :: c' :: s' =>
      d ← hexval c;
      match hexval c' with
      | Some d' => Some ((16 * d + d')%Z, s')
      | None => Some (d, c' :: s')
      end
  | [c] => d ← hexval c; Some (d, [])
  | [] => None
  end.

(** [sscanf] with [n] conversions [%2x] separated by colons: the values that
    were converted; their number is the result of the call. *)
Fixpoint scan_hex_colon (n : nat) (s : cstring) : list Z :=
  match n with
  | 0 => []
  | S n =>
      match scan_2x s with
      | None => []
      | Some (v, s) =>
          v :: match s with
               | ":"%char :: s => scan_hex_colon n s
               | _ => []
               end
      end
  end.

(** [n] bytes printed with [%02x] and separated by colons. *)
Fixpoint hex_colon (l : list Z) : cstring :=
  match l with
  | [] => []
  | [b] => hex2 b
  | b :: l => hex2 b ++ ":"%char :: hex_colon l
  end.

(** ** Facts *)

Lemma code_chr z : is_byte z → code (chr z) = z.
Proof.
  intros Hz. unfold code, chr. unfold is_byte in Hz.
  rewrite N_ascii_embedding by lia. lia.
Qed.

Lemma strchr_app s c t : c ∉ s → strchr (s ++ c :: t) c = Some (s, t).
Proof.
  induction s as [|x s IH]; intros Hc; simpl.
  - by rewrite decide_True.
  - apply not_elem_of_cons in Hc as [Hx Hs]. rewrite decide_False by done. by rewrite IH.
Qed.

Lemma strchr_None s c : c ∉ s → strchr s c = None.
Proof.
  induction s as [|x s IH]; intros Hc; [done|]. simpl.
  apply not_elem_of_cons in Hc as [Hx Hs]. rewrite decide_False by done. by rewrite IH.
Qed.

Lemma cstr_app s t : NUL ∉ s → cstr (s ++ NUL :: t) = Some s.
Proof.
  induction s as [|x s IH]; intros Hc; simpl; [done|].
  apply not_elem_of_cons in Hc as [Hx Hs]. rewrite decide_False by done. by rewrite IH.
Qed.

Lemma dec_value_app acc s t : forallb isdigit s = true →
  dec_value acc (s ++ t) = dec_value (dec_value acc s) t.
Proof.
  revert acc. induction s as [|c s IH]; intros acc Hs; [done|]. simpl in *.
  apply andb_true_iff in Hs as [Hc Hs]. rewrite Hc. by apply IH.
Qed.

Lemma digit_chr d : (0 ≤ d < 10)%Z → isdigit (chr (48 + d)%Z) = true ∧ code (chr (48 + d)%Z) = (48 + d)%Z.
Proof.
  intros Hd. assert (code (chr (48 + d)%Z) = (48 + d)%Z) as E by (apply code_chr; red; lia).
  split; [|done]. unfold isdigit. rewrite E. apply andb_true_iff; split; apply Z.leb_le; lia.
Qed.

(** The decimal digits of a value below [10 ^ fuel] read back as that value. *)
Lemma dec_loop_value fuel n acc : (0 ≤ n < 10 ^ Z.of_nat fuel)%Z → fuel ≠ 0 →
  dec_value 0 (dec_loop fuel n acc) = dec_value n acc.
Proof.
  revert n acc. induction fuel as [|fuel IH]; intros n acc Hn Hf; [done|].
  destruct (digit_chr (n mod 10)) as [Hd Hc]; [apply Z.mod_pos_bound; lia|].
  cbn [dec_loop]. destruct (Z.ltb_spec n 10) as [Hlt|Hge].
  - cbn [dec_value]. rewrite Hd, Hc, Z.mod_small by lia. f_equal. lia.
  - assert (fuel ≠ 0) as Hf' by (intros ->; lia).
    rewrite IH; [|split; [apply Z.div_pos; lia|]|done].
    + cbn [dec_value]. rewrite Hd, Hc. f_equal. pose proof (Z_div_mod_eq_full n 10). lia.
    + apply Z.div_lt_upper_bound; [lia|]. rewrite Nat2Z.inj_succ, Z.pow_succ_r in Hn by lia. lia.
Qed.

Lemma dec_loop_head fuel n acc : (0 ≤ n < 10 ^ Z.of_nat fuel)%Z → fuel ≠ 0 →
  ∃ d s, dec_loop fuel n acc = chr (48 + d)%Z :: s ∧ (0 ≤ d < 10)%Z.
Proof.
  revert n acc. induction fuel as [|fuel IH]; intros n acc Hn Hf; [done|].
  cbn [dec_loop]. destruct (Z.ltb_spec n 10) as [Hlt|Hge].
  - eexists _, _. split; [done|]. apply Z.mod_pos_bound. lia.
  - apply IH; [|intros ->; lia]. split; [apply Z.div_pos; lia|].
    apply Z.div_lt_upper_bound; [lia|]. rewrite Nat2Z.inj_succ, Z.pow_succ_r in Hn by lia. lia.
Qed.

Lemma atoi_digit d s : (0 ≤ d < 10)%Z → (dec_value 0 (chr (48 + d)%Z :: s) ≤ INT_MAX)%Z →
  (0 ≤ dec_value 0 (chr (48 + d)%Z :: s))%Z →
  atoi (chr (48 + d)%Z :: s) = Some (dec_value 0 (chr (48 + d)%Z :: s)).
Proof.
  intros Hd. assert (d ∈ [0;1;2;3;4;5;6;7;8;9]%Z) as Hin.
  { rewrite !elem_of_cons. lia. }
  intros H1 H2. repeat (apply elem_of_cons in Hin as [->|Hin]); [..|by apply elem_of_nil in Hin].
  all: match type of H1 with context [chr ?z] =>
         let c := eval vm_compute in (chr z) in change (chr z) with c in * end.
  all: unfold atoi; simpl skip_space; cbv iota beta zeta; rewrite Z.mul_1_l.
  all: rewrite (proj2 (Z.leb_le _ _) H1), (proj2 (Z.leb_le _ _)) by (unfold INT_MAX in *; lia).
  all: done.
Qed.

(** [atoi] reads back what [%d] wrote. *)
Lemma atoi_dec n : (0 ≤ n ≤ INT_MAX)%Z → atoi (dec n) = Some n.
Proof.
  intros Hn. assert (0 ≤ n < 10 ^ Z.of_nat 20)%Z as Hb by (unfold INT_MAX in Hn; lia).
  assert (dec_value 0 (dec n) = n) as Hv by (by apply (dec_loop_value 20)).
  destruct (dec_loop_head 20 n [] Hb) as (d & s & E & Hd); [done|].
  fold (dec n) in E. rewrite E in *. rewrite atoi_digit, Hv by (rewrite ?Hv; lia). done.
Qed.

(** A property of all values below a bound, checked by enumeration. *)
Lemma Forall_seqZ_below (P : Z → Prop) n :
  Forall P (seqZ 0 n) → ∀ z, (0 ≤ z < n)%Z → P z.
Proof. intros H z Hz. eapply Forall_forall in H; [done|]. apply elem_of_seqZ. lia. Qed.

Lemma scan_hex2 b t : is_byte b → scan_2x (hex2 b ++ t) = Some (b, t).
Proof.
  intros Hb. revert b Hb. apply (Forall_seqZ_below (λ b, scan_2x (hex2 b ++ t) = Some (b, t)) 256).
  let l := eval vm_compute in (seqZ 0 256) in replace (seqZ 0 256) with l by reflexivity.
  repeat (apply Forall_cons; split; [reflexivity|]). apply Forall_nil_2.
Qed.

(** [sscanf] reads back the bytes that [%02x:%02x:...] wrote, whatever follows. *)
Lemma scan_hex_colon_app l t n : bytes l → n = length l → l ≠ [] →
  scan_hex_colon n (hex_colon l ++ t) = l.
Proof.
  intros Hl. revert n. induction Hl as [|b l Hb Hl IH]; intros n -> Hne; [done|].
  destruct l as [|b' l]; cbn [length scan_hex_colon].
  - cbn [hex_colon]. rewrite scan_hex2 by done. f_equal. destruct t as [|[] t]; [done|]. by repeat case_match.
  - change (hex_colon (b :: b' :: l)) with (hex2 b ++ ":"%char :: hex_colon (b' :: l)).
    rewrite <- app_assoc, scan_hex2 by done. f_equal. exact (IH (S (length l)) eq_refl ltac:(done)).
Qed.

Lemma scan_hex_colon_print l n : bytes l → n = length l → l ≠ [] → scan_hex_colon n (hex_colon l) = l.
Proof. intros. rewrite <- (app_nil_r (hex_colon l)). by apply scan_hex_colon_app. Qed.
