(* ===== verification/Memory.v ===== *)
(** * Memory accounting: lib/memory.c

    Every allocation names a [memtype], whose counters say how many blocks it
    has, the most it ever had, and the size of its blocks if they all have one.
    [malloc] and the like are the C library's: what they answer is part of a
    call, and the blocks that exist ([blocks], with the type each was allocated
    for) are kept beside the counters so that the two can be compared.  The
    counters are atomic; calls are taken one after the other.  The total sizes
    are compiled only with HAVE_MALLOC_USABLE_SIZE, which the build does not
    define.

    Theorems: whatever is allocated, resized and freed, a type's [n_alloc] is
    the number of its blocks, [n_max] is not above the most it ever had, and
    [size] is its blocks' size unless it is [SIZE_VAR]; and [log_memstats] returns the number
    of types that still have blocks ([memory_accounting]). *)
From stdpp Require Import prelude gmap list fin_maps strings.
From S2P Require Import Prelude.
From S2P Require Import CString.
Set Default Goal Selector "!".

Definition u64 (z : Z) : Z := (z mod 2 ^ 64)%Z.
Definition SIZE_VAR : Z := (2 ^ 64 - 1)%Z.

Record memtype := Memtype { mt_name : cstring; n_alloc : Z; n_max : Z; msize : Z }.
Record memgroup := Memgroup { mg_name : cstring; mg_types : list nat }.

(** The types by number; the groups in the order of [mg_first]; the blocks. *)
Record memory := Memory { mtypes : gmap nat memtype; groups : list memgroup; blocks : gmap nat (nat * Z) }.

(** The weak compare-exchange on [n_max] may fail even without another thread:
    [cas] says whether it succeeds. *)
Definition mt_count_alloc (cas : bool) (mt : memtype) (size : Z) : memtype :=
  let current := u64 (1 + n_alloc mt) in
  let max := if (n_max mt <? current)%Z && cas then current else n_max mt in
  let sz := if (msize mt =? 0)%Z then size
            else if negb (msize mt =? size)%Z && negb (msize mt =? SIZE_VAR)%Z then SIZE_VAR
            else msize mt in
  Memtype (mt_name mt) current max sz.

(** [None] is the assertion. *)
Definition mt_count_free (mt : memtype) : option memtype :=
  if (n_alloc mt =? 0)%Z then None else Some (Memtype (mt_name mt) (u64 (n_alloc mt - 1)) (n_max mt) (msize mt)).

(** [None] is [memory_oom], which aborts. *)
Definition mt_checkalloc (cas : bool) (mt : memtype) (ptr : option nat) (size : Z) : option (memtype * option nat) :=
  match ptr with
  | None => if (size =? 0)%Z then Some (mt, None) else None
  | Some p => Some (mt_count_alloc cas mt size, Some p)
  end.

(** Changing one type. *)
Definition with_type {A} (k : nat) (f : memtype → option (memtype * A)) (m : memory) : option (memory * A) :=
  mt ← mtypes m !! k; '(mt, a) ← f mt; Some (Memory (<[k := mt]> (mtypes m)) (groups m) (blocks m), a).

Definition add_block (k : nat) (size : Z) (p : option nat) (m : memory) : memory :=
  match p with Some p => Memory (mtypes m) (groups m) (<[p := (k, size)]> (blocks m)) | None => m end.
Definition drop_block (p : nat) (m : memory) : memory := Memory (mtypes m) (groups m) (delete p (blocks m)).

(** [mt_checkalloc] and [mt_count_free] on a type of the program, with the
    block that comes or goes. *)
Definition checkalloc_block (cas : bool) (k : nat) (answer : option nat) (size : Z) (m : memory) : option (memory * option nat) :=
  '(m, p) ← with_type k (λ mt, mt_checkalloc cas mt answer size) m; Some (add_block k size p m, p).
Definition count_free_block (k : nat) (p : nat) (m : memory) : option memory :=
  '(m, _) ← with_type k (λ mt, mt ← mt_count_free mt; Some (mt, tt)) m; Some (drop_block p m).

(** [answer] is what [malloc] returns; [qcalloc] differs in the content only. *)
Definition qmalloc (cas : bool) (k : nat) (size : Z) (answer : option nat) (m : memory) : option (memory * option nat) :=
  checkalloc_block cas k answer size m.
Definition qcalloc (cas : bool) (k : nat) (size : Z) (answer : option nat) (m : memory) : option (memory * option nat) :=
  checkalloc_block cas k answer size m.

Definition qstrdup (cas : bool) (k : nat) (s : option cstring) (answer : option nat) (m : memory) : option (memory * option nat) :=
  match s with
  | Some s => checkalloc_block cas k answer (Z.of_nat (length s + 1)) m
  | None => Some (m, None)
  end.

(** [realloc] frees the old block unless it fails; a failure aborts. *)
Definition qrealloc (cas : bool) (k : nat) (ptr : option nat) (size : Z) (answer : option nat) (m : memory) : option (memory * option nat) :=
  m ← match ptr with Some p => count_free_block k p m | None => Some m end;
  checkalloc_block cas k answer size m.

Definition qfree (k : nat) (ptr : option nat) (m : memory) : option memory :=
  match ptr with Some p => count_free_block k p m | None => Some m end.

(** ** Walking the types *)

(** [func] gets the group alone and then with each of its types; a result other
    than 0 ends the walk. *)
Section walk.
Context {A : Type} (func : A → memgroup → option memtype → Z * A) (types : gmap nat memtype).

Fixpoint walk_types (mg : memgroup) (ks : list nat) (arg : A) : option (Z * A) :=
  match ks with
  | [] => Some (0%Z, arg)
  | k :: ks =>
      mt ← types !! k;
      let '(rv, arg) := func arg mg (Some mt) in
      if (rv =? 0)%Z then walk_types mg ks arg else Some (rv, arg)
  end.

Fixpoint qmem_walk (mgs : list memgroup) (arg : A) : option (Z * A) :=
  match mgs with
  | [] => Some (0%Z, arg)
  | mg :: mgs =>
      let '(rv, arg) := func arg mg None in
      if (rv =? 0)%Z then
        '(rv, arg) ← walk_types mg (mg_types mg) arg;
        if (rv =? 0)%Z then qmem_walk mgs arg else Some (rv, arg)
      else Some (rv, arg)
  end.
End walk.

(** What [qmem_exit_walker] prints, as values, and its count of errors. *)
Inductive memstat := in_group (name : cstring) | in_use (name : cstring) (n : Z) (size : option Z).

Definition qmem_exit_walker (eda : Z * list memstat) (mg : memgroup) (mt : option memtype) : Z * (Z * list memstat) :=
  let '(error, out) := eda in
  match mt with
  | None => (0%Z, (error, out ++ [in_group (mg_name mg)]))
  | Some mt =>
      if negb (n_alloc mt =? 0)%Z then
        (0%Z, ((error + 1)%Z, out ++ [in_use (mt_name mt) (n_alloc mt) (if (msize mt =? SIZE_VAR)%Z then None else Some (msize mt))]))
      else (0%Z, (error, out))
  end.

Definition log_memstats (m : memory) : option (Z * list memstat) :=
  '(_, eda) ← qmem_walk qmem_exit_walker (mtypes m) (groups m) (0%Z, []); Some eda.

(** ** Calls of a program *)

Inductive call :=
  | Alloc (zero : bool) (k : nat) (size : Z) (answer : option nat) (cas : bool)
  | Strdup (k : nat) (s : option cstring) (answer : option nat) (cas : bool)
  | Realloc (k : nat) (ptr : option nat) (size : Z) (answer : option nat) (cas : bool)
  | Free (k : nat) (ptr : option nat).

Definition exec (c : call) (m : memory) : option memory :=
  match c with
  | Alloc zero k size answer cas => fst <$> (if zero then qcalloc cas k size answer m else qmalloc cas k size answer m)
  | Strdup k s answer cas => fst <$> qstrdup cas k s answer m
  | Realloc k ptr size answer cas => fst <$> qrealloc cas k ptr size answer m
  | Free k ptr => qfree k ptr m
  end.

Fixpoint exec_all (cs : list call) (m : memory) : option memory :=
  match cs with [] => Some m | c :: cs => m ← exec c m; exec_all cs m end.

(** The C library answers with a block that is not in use, or with null only
    for size 0; there are fewer than [2 ^ 64] blocks. *)
Definition answer_ok (n : Z) (answer : option nat) (b : gmap nat (nat * Z)) : Prop :=
  (Z.of_nat (size b) + 1 < 2 ^ 64)%Z ∧ match answer with Some p => b !! p = None | None => n = 0%Z end.

(** The program passes a block it has, with the type it was allocated for. *)
Definition block_ok (k : nat) (ptr : option nat) (b : gmap nat (nat * Z)) : Prop :=
  match ptr with Some p => ∃ size, b !! p = Some (k, size) | None => True end.

Definition without (ptr : option nat) (b : gmap nat (nat * Z)) : gmap nat (nat * Z) :=
  match ptr with Some p => delete p b | None => b end.

Definition legal (c : call) (m : memory) : Prop :=
  match c with
  | Alloc _ k size answer _ => is_Some (mtypes m !! k) ∧ answer_ok size answer (blocks m)
  | Strdup k (Some s) answer _ => is_Some (mtypes m !! k) ∧ answer_ok (Z.of_nat (length s + 1)) answer (blocks m)
  | Strdup k None answer _ => True
  | Realloc k ptr size answer _ =>
      is_Some (mtypes m !! k) ∧ block_ok k ptr (blocks m) ∧ answer_ok size answer (without ptr (blocks m))
  | Free k ptr => block_ok k ptr (blocks m)
  end.

Fixpoint legal_all (cs : list call) (m : memory) : Prop :=
  match cs with [] => True | c :: cs => legal c m ∧ ∀ m', exec c m = Some m' → legal_all cs m' end.

(** ** The counters tell the truth *)

Definition live (k : nat) (b : gmap nat (nat * Z)) : nat := size (filter (λ x, x.2.1 = k) b).

Definition counted (k : nat) (mt : memtype) (b : gmap nat (nat * Z)) : Prop :=
  n_alloc mt = Z.of_nat (live k b) ∧
  ∀ p sz, b !! p = Some (k, sz) → sz ≠ 0%Z → msize mt = SIZE_VAR ∨ msize mt = sz.

Record accounted (m : memory) : Prop := {
  acc_counted k mt : mtypes m !! k = Some mt → counted k mt (blocks m);
  acc_typed p k sz : blocks m !! p = Some (k, sz) → is_Some (mtypes m !! k);
  acc_groups k : is_Some (mtypes m !! k) ↔ k ∈ concat (mg_types <$> groups m);
  acc_nodup : NoDup (concat (mg_types <$> groups m));
  acc_few : (Z.of_nat (size (blocks m)) < 2 ^ 64)%Z;
}.

Lemma live_insert k k' p sz b : b !! p = None → live k' (<[p := (k, sz)]> b) = live k' b + (if decide (k = k') then 1 else 0).
Proof.
  intros Hp. unfold live. destruct (decide (k = k')) as [->|Hne].
  - rewrite map_filter_insert_True by done. rewrite map_size_insert_None; [lia|]. apply map_lookup_filter_None. by left.
  - rewrite map_filter_insert_False by done. rewrite delete_id by done. lia.
Qed.

Lemma live_delete k k' p sz b : b !! p = Some (k, sz) → live k' b = live k' (delete p b) + (if decide (k = k') then 1 else 0).
Proof.
  intros Hp. rewrite <- (insert_delete_id b p (k, sz)) at 1 by done. apply live_insert, lookup_delete_eq.
Qed.

Lemma live_le k b : live k b ≤ size b.
Proof. apply map_subseteq_size, map_filter_subseteq. Qed.

Lemma u64_small z : (0 ≤ z < 2 ^ 64)%Z → u64 z = z.
Proof. intros Hz. by apply Z.mod_small. Qed.

(** One more block of a type. *)
Lemma counted_alloc cas k mt p n b : (Z.of_nat (size b) + 1 < 2 ^ 64)%Z → counted k mt b → b !! p = None →
  counted k (mt_count_alloc cas mt n) (<[p := (k, n)]> b).
Proof.
  intros Hf (Hn & Hs) Hp. pose proof (live_le k b) as Hl. unfold counted, mt_count_alloc. cbn [n_alloc n_max msize].
  rewrite u64_small by lia. rewrite live_insert, decide_True by done. split_and!.
  - lia.
  - intros q sz Hq Hz. destruct (msize mt =? 0)%Z eqn:E0; [|destruct (msize mt =? n)%Z eqn:E1, (msize mt =? SIZE_VAR)%Z eqn:E2]; cbn [negb andb];
      rewrite ?Z.eqb_eq, ?Z.eqb_neq in *; try (left; done); destruct (decide (p = q)) as [->|Hne];
      rewrite ?lookup_insert_eq, ?lookup_insert_ne in Hq by done; simplify_eq; try (by right); try (by apply (Hs q)).
    destruct (Hs q sz Hq Hz) as [E|E]; rewrite E0 in E; [discriminate E|congruence].
Qed.

(** A block of another type comes or goes. *)
Lemma counted_other k k' mt p n b : k ≠ k' → counted k' mt b → b !! p = None → counted k' mt (<[p := (k, n)]> b).
Proof.
  intros Hne (Hn & Hs) Hp. unfold counted. rewrite live_insert, decide_False by done. split; [lia|].
  intros q sz Hq. destruct (decide (p = q)) as [->|]; [rewrite lookup_insert_eq in Hq|rewrite lookup_insert_ne in Hq by done]; naive_solver.
Qed.

Lemma counted_free k k' mt p n b : b !! p = Some (k, n) → counted k' mt b → (Z.of_nat (size b) < 2 ^ 64)%Z →
  if decide (k = k') then ∃ mt', mt_count_free mt = Some mt' ∧ counted k' mt' (delete p b) else counted k' mt (delete p b).
Proof.
  intros Hp (Hn & Hs) Hf. pose proof (live_le k' b) as Hl. pose proof (live_delete k k' p n b Hp) as Hd.
  assert (Hs' : ∀ q sz, delete p b !! q = Some (k', sz) → sz ≠ 0%Z → msize mt = SIZE_VAR ∨ msize mt = sz).
  { intros q sz [_ Hq]%lookup_delete_Some. by apply (Hs q). }
  case_decide; [|by split; [lia|]]. unfold mt_count_free. destruct (n_alloc mt =? 0)%Z eqn:E; [lia|].
  eexists. split; [done|]. unfold counted. cbn [n_alloc n_max msize]. rewrite u64_small by lia. split; [lia|done].
Qed.

Lemma groups_insert k mt mt' (t : gmap nat memtype) k' : t !! k = Some mt → is_Some (<[k := mt']> t !! k') ↔ is_Some (t !! k').
Proof. intros E. destruct (decide (k = k')) as [->|]; [rewrite lookup_insert_eq, E|rewrite lookup_insert_ne by done]; done. Qed.

Lemma checkalloc_accounted cas k answer n m : accounted m → is_Some (mtypes m !! k) → answer_ok n answer (blocks m) →
  ∃ m', checkalloc_block cas k answer n m = Some (m', answer) ∧ accounted m' ∧ groups m' = groups m.
Proof.
  intros [Hc Ht Hg Hd Hw] [mt Emt] [Hf Ha]. unfold checkalloc_block, with_type. rewrite Emt, obind_Some. destruct answer as [p|]; simpl.
  - eexists. split; [done|]. split; [|done]. split; simpl.
    + intros k' mt' E. destruct (decide (k = k')) as [->|Hne].
      * rewrite lookup_insert_eq in E. simplify_eq. apply counted_alloc; auto.
      * rewrite lookup_insert_ne in E by done. apply counted_other; auto.
    + intros q k' sz Hq. apply (groups_insert k mt); [done|]. destruct (decide (p = q)) as [->|].
      * rewrite lookup_insert_eq in Hq. by simplify_eq.
      * rewrite lookup_insert_ne in Hq by done. eauto.
    + intros k'. rewrite <- Hg. by apply (groups_insert k mt).
    + done.
    + rewrite map_size_insert_None by done. lia.
  - subst n. simpl. rewrite insert_id by done. eexists. split; [done|]. destruct m. by split.
Qed.

Lemma count_free_accounted k p m : accounted m → block_ok k (Some p) (blocks m) →
  ∃ m', count_free_block k p m = Some m' ∧ accounted m' ∧ groups m' = groups m ∧ blocks m' = delete p (blocks m) ∧
  ∀ k', is_Some (mtypes m' !! k') ↔ is_Some (mtypes m !! k').
Proof.
  intros [Hc Ht Hg Hd Hw] [n Hp]. unfold count_free_block, with_type. destruct (Ht _ _ _ Hp) as [mt Emt]. rewrite Emt, obind_Some.
  pose proof (counted_free k k mt p n (blocks m) Hp (Hc k mt Emt) Hw) as H. rewrite decide_True in H by done.
  destruct H as (mt' & -> & Hmt'). simpl. eexists. split; [done|]. split_and!; simpl; try done; [|intros k'; by apply (groups_insert k mt)].
  split; simpl.
  - intros k' mt1 E. destruct (decide (k = k')) as [->|Hne].
    + rewrite lookup_insert_eq in E. by simplify_eq.
    + rewrite lookup_insert_ne in E by done. pose proof (counted_free k k' mt1 p n (blocks m) Hp (Hc k' mt1 E) Hw) as H.
      by rewrite decide_False in H by done.
  - intros q k' sz [_ Hq]%lookup_delete_Some. apply (groups_insert k mt); eauto.
  - intros k'. rewrite <- Hg. by apply (groups_insert k mt).
  - done.
  - pose proof (map_size_delete p (blocks m)) as E. rewrite Hp in E. lia.
Qed.

Lemma exec_accounted c m : accounted m → legal c m → ∃ m', exec c m = Some m' ∧ accounted m' ∧ groups m' = groups m.
Proof.
  intros Hm Hl. destruct c as [zero k n ans cas|k [s|] ans cas|k ptr n ans cas|k ptr]; simpl in *.
  - destruct Hl as [Hk Ha]. destruct (checkalloc_accounted cas k ans n m Hm Hk Ha) as (m' & E & H).
    exists m'. unfold qcalloc, qmalloc. by destruct zero; rewrite E.
  - destruct Hl as [Hk Ha]. destruct (checkalloc_accounted cas k ans _ m Hm Hk Ha) as (m' & E & H). exists m'. by rewrite E.
  - eauto.
  - destruct Hl as (Hk & Hb & Ha). destruct ptr as [p|]; unfold qrealloc.
    + destruct (count_free_accounted k p m Hm Hb) as (m1 & -> & Hm1 & Hg1 & Eb & Ek). rewrite obind_Some.
      destruct (checkalloc_accounted cas k ans n m1 Hm1) as (m' & -> & Hm' & Hg'); [by apply Ek|by rewrite Eb|].
      exists m'. split_and!; [done|done|congruence].
    + rewrite obind_Some. destruct (checkalloc_accounted cas k ans n m Hm Hk Ha) as (m' & -> & H). by exists m'.
  - destruct ptr as [p|]; simpl; [|eauto]. destruct (count_free_accounted k p m Hm Hl) as (m1 & -> & Hm1 & Hg1 & _). eauto.
Qed.

(** ** The highest number of blocks *)

(** No compare-exchange of the call fails. *)
Definition exchanged (c : call) : bool :=
  match c with Alloc _ _ _ _ cas | Strdup _ _ _ cas | Realloc _ _ _ _ cas => cas | Free _ _ => true end.

(** How a type's counters may move: [n_max] stays or is set to the new number of
    blocks; it covers that number if no exchange fails. *)
Definition moves (cas : bool) (mt mt' : memtype) : Prop :=
  (n_max mt' = n_max mt ∨ n_max mt' = n_alloc mt') ∧ (cas = true → (n_alloc mt ≤ n_max mt)%Z → (n_alloc mt' ≤ n_max mt')%Z).
Definition types_move (cas : bool) (m m' : memory) : Prop :=
  ∀ k mt', mtypes m' !! k = Some mt' → ∃ mt, mtypes m !! k = Some mt ∧ moves cas mt mt'.

Lemma types_same cas m : types_move cas m m.
Proof. intros k mt E. exists mt. split; [done|]. by split; [left|]. Qed.

Lemma checkalloc_moves cas k answer n m m' p : checkalloc_block cas k answer n m = Some (m', p) → types_move cas m m'.
Proof.
  unfold checkalloc_block, with_type. destruct (mtypes m !! k) as [mt|] eqn:Emt; [|done]. rewrite obind_Some. unfold mt_checkalloc.
  destruct answer as [q|]; [|case_match; [|done]]; simpl; intros [= <- <-] k' mt'; simpl.
  - destruct (decide (k = k')) as [->|]; [rewrite lookup_insert_eq|rewrite lookup_insert_ne by done; intros E; exists mt'; split; [done|by split; [left|]]].
    intros [= <-]. exists mt. split; [done|]. unfold moves, mt_count_alloc. cbn [n_max n_alloc].
    destruct (_ <? _)%Z eqn:E, cas; cbn [andb]; split; try (by left); try (by right); try done; lia.
  - rewrite insert_id by done. intros E. exists mt'. split; [done|]. by split; [left|].
Qed.

Lemma count_free_max k p m m' : accounted m → count_free_block k p m = Some m' → ∀ k' mt', mtypes m' !! k' = Some mt' →
  ∃ mt, mtypes m !! k' = Some mt ∧ n_max mt' = n_max mt ∧ ((n_alloc mt ≤ n_max mt)%Z → (n_alloc mt' ≤ n_max mt')%Z).
Proof.
  intros Hm. unfold count_free_block, with_type. destruct (mtypes m !! k) as [mt|] eqn:Emt; [|done]. rewrite obind_Some. unfold mt_count_free.
  destruct (acc_counted m Hm k mt Emt) as [Hn _]. pose proof (live_le k (blocks m)) as Hl. pose proof (acc_few m Hm) as Hf.
  destruct (n_alloc mt =? 0)%Z eqn:E0; [done|]. simpl. intros [= <-] k' mt'. simpl.
  destruct (decide (k = k')) as [->|]; [rewrite lookup_insert_eq|rewrite lookup_insert_ne by done; eauto].
  intros [= <-]. exists mt. split; [done|]. simpl. rewrite u64_small by lia. split; [done|lia].
Qed.

Lemma exec_moves c m m' : accounted m → legal c m → exec c m = Some m' → types_move (exchanged c) m m'.
Proof.
  intros Hm Hl. destruct c as [zero k n ans cas|k [s|] ans cas|k ptr n ans cas|k ptr]; simpl in *.
  - unfold qcalloc, qmalloc. destruct (checkalloc_block cas k ans n m) as [[m1 p]|] eqn:E; destruct zero; intros [= <-]; by eapply checkalloc_moves.
  - destruct (checkalloc_block cas k ans _ m) as [[m1 p]|] eqn:E; intros [= <-]. by eapply checkalloc_moves.
  - intros [= <-]. apply types_same.
  - destruct Hl as (Hk & Hb & Ha). unfold qrealloc. destruct ptr as [p|]; [destruct (count_free_block k p m) as [m1|] eqn:E1|]; [|done|].
    + rewrite obind_Some. destruct (checkalloc_block cas k ans n m1) as [[m2 q]|] eqn:E2; intros [= <-]. intros k' mt' E.
      destruct (checkalloc_moves _ _ _ _ _ _ _ E2 k' mt' E) as (mt1 & Em1 & H1 & H1').
      destruct (count_free_max k p m m1 Hm E1 k' mt1 Em1) as (mt & Em & H0 & H0').
      exists mt. split; [done|]. rewrite H0 in *. split; [done|auto].
    + rewrite obind_Some. destruct (checkalloc_block cas k ans n m) as [[m2 q]|] eqn:E2; intros [= <-]. by eapply checkalloc_moves.
  - destruct ptr as [p|]; simpl; [|intros [= <-]; apply types_same]. intros E k' mt' E'.
    destruct (count_free_max k p m m' Hm E k' mt' E') as (mt & ? & ? & ?). exists mt. split; [done|]. by split; [left|].
Qed.

(** ** The report *)

Definition in_use_type (m : memory) (k : nat) : Prop := 0 < live k (blocks m).
#[export] Instance in_use_type_dec m k : Decision (in_use_type m k).
Proof. unfold in_use_type. apply _. Defined.

Lemma walk_types_report m mg ks e out : (∀ k, k ∈ ks → is_Some (mtypes m !! k)) → accounted m →
  ∃ out', walk_types qmem_exit_walker (mtypes m) mg ks (e, out) =
    Some (0%Z, ((e + Z.of_nat (length (filter (in_use_type m) ks)))%Z, out')).
Proof.
  intros Hk Hm. revert e out. induction ks as [|k ks IH]; intros e out; cbn [walk_types].
  - exists out. by rewrite filter_nil, Z.add_0_r.
  - destruct (Hk k) as [mt Emt]; [left|]. rewrite Emt, obind_Some. destruct (acc_counted m Hm k mt Emt) as (Hn & _).
    rewrite filter_cons. unfold qmem_exit_walker at 1. destruct (n_alloc mt =? 0)%Z eqn:E; cbn [negb].
    + rewrite decide_False by (unfold in_use_type; lia). apply IH. intros. apply Hk. by right.
    + rewrite decide_True by (unfold in_use_type; lia). cbn [length]. edestruct IH as [out' ->]; [intros; apply Hk; by right|]. exists out'. do 3 f_equal. lia.
Qed.

Lemma qmem_walk_report m mgs e out : (∀ k, k ∈ concat (mg_types <$> mgs) → is_Some (mtypes m !! k)) → accounted m →
  ∃ out', qmem_walk qmem_exit_walker (mtypes m) mgs (e, out) =
    Some (0%Z, ((e + Z.of_nat (length (filter (in_use_type m) (concat (mg_types <$> mgs)))))%Z, out')).
Proof.
  intros Hk Hm. revert e out. induction mgs as [|mg mgs IH]; intros e out; cbn [qmem_walk].
  - exists out. by rewrite fmap_nil, concat_nil, filter_nil, Z.add_0_r.
  - cbn [qmem_exit_walker]. change (0 =? 0)%Z with true. cbn iota.
    destruct (walk_types_report m mg (mg_types mg) e (out ++ [in_group (mg_name mg)])) as [out1 ->]; [|done|].
    { intros k H. apply Hk. simpl. apply elem_of_app. by left. }
    rewrite obind_Some. change (0 =? 0)%Z with true. cbn iota.
    edestruct IH as [out2 ->]; [intros k H; apply Hk; simpl; apply elem_of_app; by right|]. exists out2. do 3 f_equal.
    rewrite fmap_cons, concat_cons, filter_app, length_app. lia.
Qed.

(** An example: two types, one of them with blocks of two sizes. *)
Definition demo_memory : memory :=
  Memory {[ 0 := Memtype (str "Temporary memory") 0 0 0; 1 := Memtype (str "Socket union") 0 0 0 ]}
    [Memgroup (str "libfrr") [0; 1]] ∅.
Definition demo_calls : list call :=
  [Alloc true 1 28 (Some 100) true; Strdup 0 (Some (str "abc")) (Some 200) false; Realloc 0 (Some 200) 40 (Some 300) true; Free 1 (Some 100)].

Lemma demo_accounted : accounted demo_memory.
Proof.
  assert (Ht : ∀ k mt, mtypes demo_memory !! k = Some mt → (k = 0 ∨ k = 1) ∧ n_alloc mt = 0%Z ∧ n_max mt = 0%Z).
  { intros k mt. cbn [mtypes demo_memory]. intros [[<- <-]|[? [<- <-]%lookup_singleton_Some]]%lookup_insert_Some; auto. }
  split.
  - intros k mt (_ & E1 & E2)%Ht. split.
    + unfold live. cbn [blocks demo_memory]. rewrite map_filter_empty, map_size_empty. done.
    + intros p sz E. change (blocks demo_memory) with (∅ : gmap nat (nat * Z)) in E. by rewrite lookup_empty in E.
  - intros p k' sz E. change (blocks demo_memory) with (∅ : gmap nat (nat * Z)) in E. by rewrite lookup_empty in E.
  - intros k. split.
    + intros [mt ([-> | ->] & _)%Ht]; simpl; set_solver.
    + intros Hk. cbn in Hk. assert (k = 0 ∨ k = 1) as [-> | ->] by set_solver; by eexists.
  - apply (bool_decide_unpack _). vm_compute. exact I.
  - vm_compute. done.
Qed.

(** What the calls do to [n_max]: it never gets beyond a number that bounds the
    blocks held at any time, and covers [n_alloc] if no exchange fails. *)
Lemma exec_all_max cs : ∀ m m', accounted m → legal_all cs m → exec_all cs m = Some m' → ∀ k mt', mtypes m' !! k = Some mt' →
  ∃ mt, mtypes m !! k = Some mt
  ∧ (∀ top, (n_max mt ≤ top)%Z → (∀ cs1 cs2 m1, cs = cs1 ++ cs2 → exec_all cs1 m = Some m1 → (Z.of_nat (live k (blocks m1)) ≤ top)%Z) → (n_max mt' ≤ top)%Z)
  ∧ (forallb exchanged cs = true → (n_alloc mt ≤ n_max mt)%Z → (n_alloc mt' ≤ n_max mt')%Z).
Proof.
  induction cs as [|c cs IH]; intros m m' Hm Hl E k mt' Ek; cbn [exec_all] in E; [simplify_eq; eauto|].
  destruct Hl as [Hc Hl]. destruct (exec_accounted c m Hm Hc) as (m1 & E1 & Hm1 & _). rewrite E1, obind_Some in E.
  destruct (IH m1 m' Hm1 (Hl m1 E1) E k mt' Ek) as (mt1 & Ek1 & Htop & Hs).
  destruct (exec_moves c m m1 Hm Hc E1 k mt1 Ek1) as (mt & Ek0 & Hmv & Hs'). exists mt. split; [done|]. split.
  - intros top H0 Hall. apply Htop.
    + destruct Hmv as [->|Hmv]; [done|]. rewrite Hmv. destruct (acc_counted m1 Hm1 k mt1 Ek1) as [-> _]. apply (Hall [c] cs); [done|]. simpl. by rewrite E1.
    + intros cs1 cs2 m2 -> E2. apply (Hall (c :: cs1) cs2); [done|]. cbn [exec_all]. by rewrite E1.
  - cbn [forallb]. intros [? ?]%andb_prop ?. auto.
Qed.

(** C39: the statistics are right.  Along every sequence of allocations, string
    copies, resizings and releases in which blocks are given back with the type
    they were allocated for, no assertion fails, and at the end [n_alloc] of every
    type is the number of its blocks, every block that is not empty has the
    recorded size unless that is [SIZE_VAR], and [log_memstats] returns the number
    of types that still have blocks.  [n_max] is an approximation, since its
    compare-exchange may fail: it is never above the number of blocks the type
    ever had at a time, and not below [n_alloc] when no exchange fails. *)
Theorem memory_accounting (m : memory) (cs : list call) : accounted m → legal_all cs m →
  ∃ m' out, exec_all cs m = Some m' ∧
  (∀ k mt', mtypes m' !! k = Some mt' → n_alloc mt' = Z.of_nat (live k (blocks m')) ∧
     (∀ p sz, blocks m' !! p = Some (k, sz) → sz ≠ 0%Z → msize mt' = SIZE_VAR ∨ msize mt' = sz) ∧
     ∃ mt, mtypes m !! k = Some mt
     ∧ (∀ top, (n_max mt ≤ top)%Z →
          (∀ cs1 cs2 m1, cs = cs1 ++ cs2 → exec_all cs1 m = Some m1 → (Z.of_nat (live k (blocks m1)) ≤ top)%Z) → (n_max mt' ≤ top)%Z)
     ∧ (forallb exchanged cs = true → (n_alloc mt ≤ n_max mt)%Z → (n_alloc mt' ≤ n_max mt')%Z)) ∧
  log_memstats m' = Some (Z.of_nat (length (filter (in_use_type m') (concat (mg_types <$> groups m')))), out).
Proof.
  intros Hm Hl. assert (∃ m', exec_all cs m = Some m' ∧ accounted m') as (m' & E & Hm').
  { revert m Hm Hl. induction cs as [|c cs IH]; intros m Hm Hl; cbn [exec_all]; [eauto|]. destruct Hl as [Hc Hl].
    destruct (exec_accounted c m Hm Hc) as (m1 & E & Hm1 & _). rewrite E, obind_Some. apply IH; auto. }
  destruct (qmem_walk_report m' (groups m') 0 []) as [out Eo]; [apply (acc_groups m' Hm')|done|]. exists m', out. split; [done|]. split.
  - intros k mt' Ek. destruct (acc_counted m' Hm' k mt' Ek) as [Hn Hs]. split; [done|]. split; [done|]. by eapply exec_all_max.
  - unfold log_memstats. by rewrite Eo, obind_Some.
Qed.

(** With a string copy whose exchange fails. *)
Lemma memory_accounting_witness : ∃ m' out, exec_all demo_calls demo_memory = Some m' ∧
  (∀ k mt', mtypes m' !! k = Some mt' → n_alloc mt' = Z.of_nat (live k (blocks m'))) ∧
  log_memstats m' = Some (Z.of_nat (length (filter (in_use_type m') (concat (mg_types <$> groups m')))), out).
Proof.
  destruct (memory_accounting demo_memory demo_calls) as (m' & out & E & Hk & Ho); [apply demo_accounted| |].
  - split; [split; [by eexists|by split]|]. intros m1 E1. vm_compute in E1. injection E1 as <-.
    split; [split; [by eexists|by split]|]. intros m2 E2. vm_compute in E2. injection E2 as <-.
    split; [split; [by eexists|split; [by eexists|by split]]|]. intros m3 E3. vm_compute in E3. injection E3 as <-.
    split; [by eexists|]. intros m4 E4. exact I.
  - exists m', out. split; [exact E|]. split; [|exact Ho]. intros k mt' Hm. exact (proj1 (Hk k mt' Hm)).
Defined.

(** When the exchange of the only allocation fails, [n_max] stays behind. *)
Example max_behind : (λ m, (λ mt, (n_alloc mt, n_max mt)) <$> mtypes m !! 0) <$> exec_all [Strdup 0 (Some (str "abc")) (Some 200) false] demo_memory
  = Some (Some (1, 0)%Z).
Proof. vm_compute. reflexivity. Qed.
