(* ===== verification/Hash.v ===== *)
(** * Hash tables: lib/hash.c, lib/hash.h

    A table is an array of chains; a chain is a singly linked list of buckets,
    kept here as the list of its buckets from the head on.  The length of a chain
    is stored in its first bucket, the number of empty chains and the sum of the
    squared lengths in the statistics.  The key function and the comparison are
    the table's parameters; the allocation callback is an argument of [hash_get].

    [None] as a result of an operation is an access outside the array of chains
    or a failed assertion.  The statistics are [uint_fast32_t], 64 bits wide on
    the target.  The list of all tables (for statistics) and the names are left
    out; callbacks of the iterators may not change the table.

    Theorem: under every history of calls the table is a set of data items that
    the comparison keeps apart, whatever the limit on its size
    ([hash_refines_set]). *)
From Stdlib Require Import Ascii.
From stdpp Require Import prelude list sorting.
From S2P Require Import Prelude.
From S2P Require Import CString.
From S2P Require Import LinkList.
Set Default Goal Selector "!".

Definition u64 (z : Z) : Z := (z mod 2 ^ 64)%Z.

Section hash.
Context {D : Type}.
Context (hash_key : D → Z) (hash_cmp : D → D → bool).

Record hash_bucket := Bucket { hb_len : Z; hb_key : Z; hb_data : D }.

Record hash := Hash {
  index : list (list hash_bucket);
  hsize : Z;                    (* unsigned int *)
  max_size : Z;                 (* unsigned int; 0 is no limit *)
  hcount : Z;                   (* unsigned long *)
  empty : Z;                    (* stats.empty *)
  ssq : Z;                      (* stats.ssq *)
}.

Definition HASH_INITIAL_SIZE : Z := 256.
Definition HASH_THRESHOLD (used sz : Z) : bool := (sz <? used)%Z.

Definition hash_create_size (sz : Z) : option hash :=
  if (Z.land sz (u32 (sz - 1)) =? 0)%Z
  then Some (Hash (replicate (Z.to_nat sz) []) sz 0 0 sz 0)
  else None.

Definition hash_create : option hash := hash_create_size HASH_INITIAL_SIZE.

Definition hash_alloc_intern (arg : D) : option D := Some arg.

Definition hash_update_ssq (q old new : Z) : Z := u64 (q + (new + old) * (new - old)).

Definition set_len (n : Z) (b : hash_bucket) : hash_bucket := Bucket n (hb_key b) (hb_data b).

(** A bucket [(key, d)] is put in front of chain [h] of [idx] and takes over its
    length; used alike by [hash_expand] and [hash_get]. *)
Definition push (idx : list (list hash_bucket)) (e q h key : Z) (d : D) :
    option (list (list hash_bucket) * Z * Z) :=
  next ← idx !! Z.to_nat h;
  let oldlen := match next with [] => 0%Z | b :: _ => hb_len b end in
  let newlen := (oldlen + 1)%Z in
  let '(e, next) :=
    if (newlen =? 1)%Z then (u64 (e - 1), next)
    else (e, match next with [] => [] | b :: bs => set_len 0 b :: bs end) in
  Some (<[Z.to_nat h := Bucket newlen key d :: next]> idx, e, hash_update_ssq q oldlen newlen).

(** The inner and the outer loop of [hash_expand]. *)
Fixpoint expand_chain (new_size : Z) (hb : list hash_bucket) (new_index : list (list hash_bucket)) (e q : Z) :
    option (list (list hash_bucket) * Z * Z) :=
  match hb with
  | [] => Some (new_index, e, q)
  | b :: hbnext =>
      let h := Z.land (hb_key b) (u32 (new_size - 1)) in
      '(new_index, e, q) ← push new_index e q h (hb_key b) (hb_data b);
      expand_chain new_size hbnext new_index e q
  end.

Fixpoint expand_loop (new_size : Z) (old : list (list hash_bucket)) (new_index : list (list hash_bucket)) (e q : Z) :
    option (list (list hash_bucket) * Z * Z) :=
  match old with
  | [] => Some (new_index, e, q)
  | hb :: old =>
      '(new_index, e, q) ← expand_chain new_size hb new_index e q;
      expand_loop new_size old new_index e q
  end.

Definition hash_expand (t : hash) : option hash :=
  let new_size := u32 (hsize t * 2) in
  if negb (max_size t =? 0)%Z && (max_size t <? new_size)%Z then Some t
  else
    '(new_index, e, q) ←
      expand_loop new_size (index t) (replicate (Z.to_nat new_size) []) new_size (ssq t);
    Some (Hash new_index new_size (max_size t) (hcount t) e q).

Definition found (key : Z) (d : D) (b : hash_bucket) : bool := (hb_key b =? key)%Z && hash_cmp (hb_data b) d.

(** The walk along a chain that [hash_get] makes. *)
Fixpoint chain_find (key : Z) (d : D) (bucket : list hash_bucket) : option D :=
  match bucket with
  | [] => None
  | b :: next => if found key d b then Some (hb_data b) else chain_find key d next
  end.

Definition hash_get (t : hash) (d : D) (alloc_func : option (D → option D)) : option (option D * hash) :=
  if bool_decide (alloc_func = None) && (hcount t =? 0)%Z then Some (None, t)
  else
    let key := hash_key d in
    chain ← index t !! Z.to_nat (Z.land key (u32 (hsize t - 1)));
    match chain_find key d chain, alloc_func with
    | Some x, _ => Some (Some x, t)
    | None, None => Some (None, t)
    | None, Some alloc =>
        match alloc d with
        | None => Some (None, t)
        | Some newdata =>
            t ← (if HASH_THRESHOLD (u64 (hcount t + 1)) (hsize t) then hash_expand t else Some t);
            '(idx, e, q) ← push (index t) (empty t) (ssq t) (Z.land key (u32 (hsize t - 1))) key newdata;
            Some (Some newdata, Hash idx (hsize t) (max_size t) (u64 (hcount t + 1)) e q)
        end
    end.

Definition hash_lookup (t : hash) (d : D) : option (option D * hash) := hash_get t d None.

(** The walk of [hash_release]: the bucket found and the chain without it. *)
Fixpoint chain_unlink (key : Z) (d : D) (bucket : list hash_bucket) : option (hash_bucket * list hash_bucket) :=
  match bucket with
  | [] => None
  | b :: next =>
      if found key d b then Some (b, next)
      else '(r, next) ← chain_unlink key d next; Some (r, b :: next)
  end.

Definition hash_release (t : hash) (d : D) : option (option D * hash) :=
  let key := hash_key d in
  let i := Z.to_nat (Z.land key (u32 (hsize t - 1))) in
  chain ← index t !! i;
  match chain_unlink key d chain with
  | None => Some (None, t)
  | Some (bucket, rest) =>
      let oldlen := match chain with [] => 0%Z | b :: _ => hb_len b end in
      let newlen := (oldlen - 1)%Z in
      let '(rest, e) :=
        match rest with
        | [] => ([], u64 (empty t + 1))
        | b :: bs => (set_len newlen b :: bs, empty t)
        end in
      Some (Some (hb_data bucket),
            Hash (<[i := rest]> (index t)) (hsize t) (max_size t) (u64 (hcount t - 1)) e
                 (hash_update_ssq (ssq t) oldlen newlen))
  end.

(** [func] is given the state of its argument [arg]. *)
Definition hash_iterate {A} (func : hash_bucket → A → A) (t : hash) (arg : A) : A :=
  foldl (λ arg hb, foldl (λ arg b, func b arg) arg hb) arg (index t).

(** [func] also says whether it returned [HASHWALK_ABORT]. *)
Fixpoint walk_chain {A} (func : hash_bucket → A → bool * A) (hb : list hash_bucket) (arg : A) : bool * A :=
  match hb with
  | [] => (false, arg)
  | b :: hbnext =>
      match func b arg with
      | (true, arg) => (true, arg)
      | (false, arg) => walk_chain func hbnext arg
      end
  end.
Fixpoint walk_index {A} (func : hash_bucket → A → bool * A) (idx : list (list hash_bucket)) (arg : A) : A :=
  match idx with
  | [] => arg
  | hb :: idx =>
      match walk_chain func hb arg with
      | (true, arg) => arg
      | (false, arg) => walk_index func idx arg
      end
  end.
Definition hash_walk {A} (func : hash_bucket → A → bool * A) (t : hash) (arg : A) : A := walk_index func (index t) arg.

(** The items handed to [free_func], in order, and the emptied table. *)
Definition hash_clean (t : hash) : list D * hash :=
  let gone := concat (map (map hb_data) (index t)) in
  (gone, Hash (map (λ _, []) (index t)) (hsize t) (max_size t) (u64 (hcount t - Z.of_nat (length gone))) (hsize t) 0).

Definition hash_to_list_iter (b : hash_bucket) (l : option (llist D)) : option (llist D) :=
  l ← l; snd <$> listnode_add l (Some (hb_data b)).

Definition hash_to_list (t : hash) : option (llist D) := hash_iterate hash_to_list_iter t (Some list_new).

End hash.

Arguments hash_bucket : clear implicits.
Arguments hash : clear implicits.

(** [char] is signed. *)
Definition schar (c : ascii) : Z := (if code c <? 128 then code c else code c - 256)%Z.

Fixpoint string_hash_loop (s : cstring) (h : Z) : Z :=
  match s with
  | [] => h
  | c :: s => string_hash_loop s (Z.lxor (u32 (h * 33)) (u32 (schar c)))
  end.
Definition string_hash_make (s : cstring) : Z := string_hash_loop s 0.

(** ** The representation *)

Section correct.
Context {D : Type}.
Context (hash_key : D → Z) (hash_cmp : D → D → bool).
Implicit Types (idx : list (list (hash_bucket D))) (c : list (hash_bucket D)) (t : hash D) (d x : D).

Definition place (n : Z) (key : Z) : nat := Z.to_nat (Z.land key (u32 (n - 1))).

(** Bucket [b] belongs to chain [i] of a table of [n] chains. *)
Definition placed (n : Z) (i : nat) (b : hash_bucket D) : Prop :=
  hb_key b = hash_key (hb_data b) ∧ place n (hb_key b) = i.

Definition headlen c : Prop := match c with [] => True | b :: _ => hb_len b = Z.of_nat (length c) end.

Definition chain_ok (n : Z) (i : nat) c : Prop := Forall (placed n i) c ∧ headlen c.

Definition empties idx : nat := length (filter (λ c, c = []) idx).

Record chains_ok (n : Z) idx (e : Z) : Prop := ChainsOk {
  co_length : length idx = Z.to_nat n;
  co_chain i c : idx !! i = Some c → chain_ok n i c;
  co_empty : e = Z.of_nat (empties idx) }.

Definition items idx : list D := concat (map (map hb_data) idx).

(** Changing one chain. *)
Lemma empties_insert idx i c c' : idx !! i = Some c →
  empties (<[i := c']> idx) + (if c is [] then 1 else 0) = empties idx + (if c' is [] then 1 else 0).
Proof.
  intros Hi. rewrite <- (take_drop_middle idx i c Hi) at 2.
  rewrite insert_take_drop by (by eapply lookup_lt_Some).
  unfold empties. rewrite !filter_app, !length_app, !filter_cons.
  destruct c, c'; repeat (rewrite decide_True by done || rewrite decide_False by done); simpl; lia.
Qed.

Lemma items_insert idx i c c' : idx !! i = Some c →
  ∃ rest, items idx ≡ₚ map hb_data c ++ rest ∧ items (<[i := c']> idx) ≡ₚ map hb_data c' ++ rest.
Proof.
  intros Hi. exists (items (take i idx) ++ items (drop (S i) idx)). split.
  - rewrite <- (take_drop_middle idx i c Hi) at 1. unfold items. rewrite map_app, concat_app. simpl.
    by rewrite Permutation_app_swap_app.
  - rewrite insert_take_drop by (by eapply lookup_lt_Some).
    unfold items. rewrite map_app, concat_app. simpl. by rewrite Permutation_app_swap_app.
Qed.

Lemma chains_insert n idx e e' i c c' : chains_ok n idx e → idx !! i = Some c → chain_ok n i c' →
  (e' + (if c is [] then 1 else 0) = e + (if c' is [] then 1 else 0))%Z →
  chains_ok n (<[i := c']> idx) e'.
Proof.
  intros [HL HC HE] Hi Hc' He. split.
  - by rewrite length_insert.
  - intros j c0. destruct (decide (i = j)) as [<-|Hne].
    + rewrite list_lookup_insert_eq by (by eapply lookup_lt_Some). by intros [= <-].
    + rewrite list_lookup_insert_ne by done. apply HC.
  - pose proof (empties_insert idx i c c' Hi). subst e. destruct c, c'; lia.
Qed.

Lemma empties_le n idx e : chains_ok n idx e → (0 ≤ e ≤ Z.of_nat (length idx))%Z.
Proof. intros [_ _ ->]. unfold empties. pose proof (length_filter (λ c, c = []) idx). lia. Qed.

Lemma empties_pos n idx e i : chains_ok n idx e → idx !! i = Some [] → (1 ≤ e)%Z.
Proof.
  intros [_ _ ->] Hi. unfold empties.
  pose proof (filter_member (λ c, c = []) idx [] (list_elem_of_lookup_2 _ _ _ Hi) eq_refl). lia.
Qed.

(** [key & (size - 1)] is inside a table whose size is a power of two. *)
Lemma place_lt n key k : n = (2 ^ k)%Z → (0 ≤ k ≤ 31)%Z → place n key < Z.to_nat n.
Proof.
  intros -> Hk. unfold place. pose proof (Z.pow_pos_nonneg 2 k ltac:(lia) ltac:(lia)).
  pose proof (Z.pow_le_mono_r 2 k 31 ltac:(lia) ltac:(lia)).
  rewrite u32_small by lia. replace (2 ^ k - 1)%Z with (Z.ones k) by (rewrite Z.ones_equiv; lia).
  rewrite Z.land_ones by lia. pose proof (Z.mod_pos_bound key (2 ^ k)). lia.
Qed.

Lemma push_spec n idx e q key d k : chains_ok n idx e → n = (2 ^ k)%Z → (0 ≤ k ≤ 31)%Z →
  key = hash_key d →
  ∃ idx' e' q', push idx e q (Z.land key (u32 (n - 1))) key d = Some (idx', e', q')
    ∧ chains_ok n idx' e' ∧ items idx' ≡ₚ d :: items idx.
Proof.
  intros Hok Hn Hk Hkey. pose proof (place_lt n key k Hn Hk) as Hlt.
  rewrite <- (co_length _ _ _ Hok) in Hlt. destruct (lookup_lt_is_Some_2 _ _ Hlt) as [c Hc].
  assert (Z.of_nat (length idx) < 2 ^ 64)%Z as Hlen.
  { rewrite (co_length _ _ _ Hok), Hn, Z2Nat.id by lia.
    pose proof (Z.pow_le_mono_r 2 k 31 ltac:(lia) ltac:(lia)). lia. }
  pose proof (empties_le _ _ _ Hok) as He.
  unfold push. fold (place n key). rewrite Hc. obind.
  destruct (co_chain _ _ _ Hok _ _ Hc) as [Hpl Hhd].
  set (c' := match c with [] => [Bucket 1 key d] | b :: bs => Bucket (Z.of_nat (length c) + 1) key d :: set_len 0 b :: bs end).
  set (e' := if c is [] then (e - 1)%Z else e).
  assert (chains_ok n (<[place n key := c']> idx) e') as Hok'.
  { apply (chains_insert n idx e e' _ c); [done..| |].
    - split.
      + destruct c as [|b bs]; subst c'; [by constructor|]. apply Forall_cons in Hpl as [Hb Hbs].
        constructor; [done|]. by constructor.
      + subst c'. destruct c; cbn [headlen hb_len length]; lia.
    - subst c' e'. destruct c; lia. }
  assert (items (<[place n key := c']> idx) ≡ₚ d :: items idx) as Hit.
  { destruct (items_insert idx _ c c' Hc) as (rest & -> & ->). subst c'. by destruct c. }
  destruct c as [|b bs]; subst c' e'; cbn [headlen] in Hhd.
  - pose proof (empties_pos _ _ _ _ Hok Hc). cbn [Z.add Z.eqb Pos.eqb].
    assert (u64 (e - 1) = (e - 1))%Z as -> by (apply Z.mod_small; lia). eexists _, _, _. by split.
  - rewrite Hhd. destruct (Z.eqb_spec (Z.of_nat (length (b :: bs)) + 1) 1); [cbn [length] in *; lia|]. eexists _, _, _. by split.
Qed.

(** The table is the multiset of its items. *)
Record hash_wf t : Prop := HashWf {
  wf_size : ∃ k, hsize t = (2 ^ k)%Z ∧ (0 ≤ k ≤ 31)%Z;
  wf_chains : chains_ok (hsize t) (index t) (empty t);
  wf_count : hcount t = Z.of_nat (length (items (index t))) }.

Lemma items_empty n : items (replicate n []) = [].
Proof. induction n as [|n IH]; [done|exact IH]. Qed.

Lemma chains_empty n : (0 ≤ n)%Z → chains_ok n (replicate (Z.to_nat n) []) n.
Proof.
  intros Hn. split.
  - apply length_replicate.
  - intros i c [-> _]%lookup_replicate. by split.
  - unfold empties. enough (∀ m, length (filter (λ c, c = []) (replicate m ([] : list (hash_bucket D)))) = m) as -> by lia.
    induction m as [|m IH]; [done|]. cbn [replicate]. rewrite filter_cons_True by done. cbn [length]. lia.
Qed.

Lemma expand_chain_spec n k c : n = (2 ^ k)%Z → (0 ≤ k ≤ 31)%Z → Forall (λ b, hb_key b = hash_key (hb_data b)) c →
  ∀ idx e q, chains_ok n idx e → ∃ idx' e' q', expand_chain n c idx e q = Some (idx', e', q')
    ∧ chains_ok n idx' e' ∧ items idx' ≡ₚ map hb_data c ++ items idx.
Proof.
  intros Hn Hk. induction 1 as [|b c Hb _ IH]; intros idx e q Hok; [by eexists _, _, _|]. simpl expand_chain.
  destruct (push_spec n idx e q (hb_key b) (hb_data b) k Hok Hn Hk Hb) as (idx1 & e1 & q1 & -> & Hok1 & Hi1). ostep.
  destruct (IH idx1 e1 q1 Hok1) as (idx' & e' & q' & E & Hok' & Hi').
  eexists _, _, _. split; [exact E|]. split; [done|]. rewrite Hi', Hi1. simpl. by rewrite Permutation_middle.
Qed.

Lemma expand_loop_spec n k old : n = (2 ^ k)%Z → (0 ≤ k ≤ 31)%Z →
  Forall (Forall (λ b, hb_key b = hash_key (hb_data b))) old →
  ∀ idx e q, chains_ok n idx e → ∃ idx' e' q', expand_loop n old idx e q = Some (idx', e', q')
    ∧ chains_ok n idx' e' ∧ items idx' ≡ₚ items old ++ items idx.
Proof.
  intros Hn Hk. induction 1 as [|c old Hc _ IH]; intros idx e q Hok; [by eexists _, _, _|]. simpl expand_loop.
  destruct (expand_chain_spec n k c Hn Hk Hc idx e q Hok) as (idx1 & e1 & q1 & -> & Hok1 & Hi1). ostep.
  destruct (IH idx1 e1 q1 Hok1) as (idx' & e' & q' & E & Hok' & Hi').
  eexists _, _, _. split; [exact E|]. split; [done|]. rewrite Hi', Hi1. unfold items. simpl.
  by rewrite Permutation_app_swap_app, app_assoc.
Qed.

Lemma chains_keys n idx e : chains_ok n idx e → Forall (Forall (λ b, hb_key b = hash_key (hb_data b))) idx.
Proof.
  intros Hok. apply Forall_lookup. intros i c Hc. destruct (co_chain _ _ _ Hok _ _ Hc) as [Hp _].
  eapply Forall_impl; [exact Hp|]. by intros b [].
Qed.

(** Expanding keeps the items, as long as the doubled size is a machine size. *)
Lemma hash_expand_spec t : hash_wf t → (hsize t < 2 ^ 31)%Z →
  ∃ t', hash_expand t = Some t' ∧ hash_wf t' ∧ items (index t') ≡ₚ items (index t) ∧ hcount t' = hcount t.
Proof.
  intros Hwf Hlt. pose proof Hwf as [(k & Hs & Hk) Hok Hc]. unfold hash_expand.
  assert (k < 31)%Z as Hk'. { rewrite Hs in Hlt. by apply (Z.pow_lt_mono_r_iff 2) in Hlt; lia. }
  assert (u32 (hsize t * 2) = 2 ^ (k + 1))%Z as Hn.
  { rewrite Hs, Z.pow_add_r by lia. rewrite u32_small; [lia|].
    pose proof (Z.pow_le_mono_r 2 k 30 ltac:(lia) ltac:(lia)). lia. }
  destruct (_ && _); [by exists t|].
  destruct (expand_loop_spec (u32 (hsize t * 2)) (k + 1) (index t) Hn ltac:(lia) (chains_keys _ _ _ Hok)
    (replicate (Z.to_nat (u32 (hsize t * 2))) []) (u32 (hsize t * 2)) (ssq t)) as (idx' & e' & q' & -> & Hok' & Hi').
  { apply chains_empty. rewrite Hn. lia. }
  ostep. rewrite items_empty, app_nil_r in Hi'. eexists. split; [reflexivity|].
  split; [|by split]. split; [exists (k + 1)%Z; split; [exact Hn|lia]|done|]. cbn [hcount index]. by rewrite Hi', Hc.
Qed.

(** ** Finding and unlinking in a chain *)

Hypothesis cmp_key : ∀ x y, hash_cmp x y = true → hash_key x = hash_key y.
Hypothesis cmp_refl : ∀ x, hash_cmp x x = true.
Hypothesis cmp_sym : ∀ x y, hash_cmp x y = true → hash_cmp y x = true.
Hypothesis cmp_trans : ∀ x y z, hash_cmp x y = true → hash_cmp y z = true → hash_cmp x z = true.

(** The items of a set are different for the comparison. *)
Abbreviation apart := (ForallOrdPairs (λ x y, hash_cmp x y = false)).

Lemma cmp_sym_false x y : hash_cmp x y = false → hash_cmp y x = false.
Proof. intros H. destruct (hash_cmp y x) eqn:E; [|done]. apply cmp_sym in E. congruence. Qed.

Lemma apart_perm l l' : l ≡ₚ l' → apart l → apart l'.
Proof.
  induction 1 as [|x l l' Hp IH|x y l|l1 l2 l3 _ IH1 _ IH2]; intros Ha; [done| | |by auto].
  - inversion Ha; subst. constructor; [|by auto]. by rewrite <- Hp.
  - inversion Ha as [|? ? Hy Ha']; subst. inversion Ha' as [|? ? Hx Ha'']; subst.
    apply Forall_cons in Hy as [Hyx Hy]. constructor; [constructor; [by apply cmp_sym_false|done]|by constructor].
Qed.

Definition afind d (l : list D) : option D := List.find (λ x, hash_cmp x d) l.

Lemma afind_Some d l x : apart l → afind d l = Some x ↔ x ∈ l ∧ hash_cmp x d = true.
Proof.
  intros Ha. split; [intros [? ?]%List.find_some; by rewrite list_elem_of_In|].
  intros [Hx Hc]. induction Ha as [|y l Hy Ha IH]; [by apply elem_of_nil in Hx|]. cbn.
  apply elem_of_cons in Hx as [->|Hx]; [by rewrite Hc|].
  destruct (hash_cmp y d) eqn:E; [|by apply IH].
  rewrite Forall_forall in Hy. specialize (Hy x Hx). apply cmp_sym in Hc. by rewrite (cmp_trans _ _ _ E Hc) in Hy.
Qed.

Lemma afind_None d l : afind d l = None ↔ ∀ x, x ∈ l → hash_cmp x d = false.
Proof.
  unfold afind. induction l as [|y l IH]; cbn; [split; [intros _ x Hx; by apply elem_of_nil in Hx|done]|].
  destruct (hash_cmp y d) eqn:E.
  - split; [done|]. intros H. specialize (H y ltac:(left)). congruence.
  - rewrite IH. split; [intros H x [->|?]%elem_of_cons; auto|]. intros H x Hx. apply H. by right.
Qed.

Lemma afind_perm d l l' : l ≡ₚ l' → apart l → afind d l = afind d l'.
Proof.
  intros Hp Ha. destruct (afind d l') as [x|] eqn:E.
  - apply afind_Some in E as [? ?]; [|by eapply apart_perm]. apply afind_Some; [done|]. by rewrite Hp.
  - rewrite afind_None in E |- *. intros x Hx. apply E. by rewrite <- Hp.
Qed.

Lemma found_cmp n i d b : placed n i b → found hash_cmp (hash_key d) d b = hash_cmp (hb_data b) d.
Proof.
  intros [Hk _]. unfold found. destruct (hash_cmp (hb_data b) d) eqn:E; [|by rewrite andb_false_r].
  rewrite Hk, (cmp_key _ _ E), Z.eqb_refl. done.
Qed.

Lemma chain_find_spec n i d c : Forall (placed n i) c →
  chain_find hash_cmp (hash_key d) d c = afind d (map hb_data c).
Proof.
  induction 1 as [|b c Hb _ IH]; [done|]. cbn. rewrite (found_cmp _ _ _ _ Hb).
  destruct (hash_cmp _ _); [done|exact IH].
Qed.

Lemma chain_unlink_spec n i d c : Forall (placed n i) c →
  match chain_unlink hash_cmp (hash_key d) d c with
  | None => afind d (map hb_data c) = None
  | Some (b, c') => afind d (map hb_data c) = Some (hb_data b) ∧ Forall (placed n i) c' ∧ c ≡ₚ b :: c'
  end.
Proof.
  induction 1 as [|b c Hb Hc IH]; [done|]. cbn. rewrite (found_cmp _ _ _ _ Hb).
  destruct (hash_cmp (hb_data b) d) eqn:E; [done|].
  destruct (chain_unlink _ _ _ c) as [[r c']|]; cbn; [|exact IH].
  destruct IH as (Hf & Hc' & Hp). split; [exact Hf|]. split; [by constructor|]. rewrite Hp. constructor.
Qed.

(** Items the comparison equates with [d] are all in the chain of [d]. *)
Lemma find_in_place t d c : hash_wf t → index t !! place (hsize t) (hash_key d) = Some c →
  apart (items (index t)) → afind d (map hb_data c) = afind d (items (index t)).
Proof.
  intros [_ Hok _] Hc Ha. destruct (items_insert (index t) _ c c Hc) as (rest & Hi & _).
  destruct (afind d (map hb_data c)) as [x|] eqn:E.
  - symmetry. apply List.find_some in E as [Hx Hd]. apply afind_Some; [done|]. split; [|done].
    rewrite Hi. apply elem_of_app. left. by apply list_elem_of_In.
  - symmetry. rewrite afind_None in E |- *. intros x Hx. destruct (hash_cmp x d) eqn:Ex; [|done].
    rewrite <- Ex. apply E. unfold items in Hx. apply list_elem_of_In, in_concat in Hx as (ds & Hds & Hx).
    apply in_map_iff in Hds as (c0 & <- & Hc0). apply in_map_iff in Hx as (b & <- & Hb).
    apply list_elem_of_In, list_elem_of_lookup in Hc0 as [j Hj].
    destruct (co_chain _ _ _ Hok _ _ Hj) as [Hp _]. rewrite Forall_forall in Hp.
    destruct (Hp b) as [Hkey Hj']; [by apply list_elem_of_In|]. subst j.
    rewrite Hkey, (cmp_key _ _ Ex), Hc in Hj. injection Hj as <-. apply list_elem_of_In, in_map_iff. eauto.
Qed.

Lemma place_lookup t d : hash_wf t → ∃ c, index t !! place (hsize t) (hash_key d) = Some c.
Proof.
  intros [(k & Hs & Hk) Hok _]. apply lookup_lt_is_Some_2. rewrite (co_length _ _ _ Hok). by eapply place_lt.
Qed.

(** ** The operations on the set of items *)

(** An allocation callback makes an item that equals its template. *)
Definition alloc_ok (f : D → option D) : Prop := ∀ d y, f d = Some y → hash_cmp y d = true.

Definition aget (l : list D) d (alloc : option (D → option D)) : option D * list D :=
  match afind d l, alloc with
  | Some x, _ => (Some x, l)
  | None, None => (None, l)
  | None, Some f => match f d with None => (None, l) | Some y => (Some y, y :: l) end
  end.

Definition arelease (l : list D) d : option D * list D :=
  (afind d l, filter (λ x, hash_cmp x d = false) l).

Lemma aget_apart l d alloc : apart l → from_option alloc_ok True alloc → apart (aget l d alloc).2.
Proof.
  intros Ha Hf. unfold aget. destruct (afind d l) eqn:E; [done|]. destruct alloc as [f|]; [|done].
  destruct (f d) as [y|] eqn:Ey; [|done]. constructor; [|done]. apply Forall_forall. intros x Hx.
  rewrite afind_None in E. specialize (E x Hx). specialize (Hf _ _ Ey).
  destruct (hash_cmp y x) eqn:Eyx; [|done]. apply cmp_sym in Eyx. by rewrite (cmp_trans _ _ _ Eyx Hf) in E.
Qed.

Lemma hash_get_spec t l d alloc : hash_wf t → items (index t) ≡ₚ l → apart l →
  from_option alloc_ok True alloc → (hcount t + 1 < 2 ^ 31)%Z →
  ∃ t', hash_get hash_key hash_cmp t d alloc = Some ((aget l d alloc).1, t') ∧ hash_wf t'
    ∧ items (index t') ≡ₚ (aget l d alloc).2 ∧ (hcount t' ≤ hcount t + 1)%Z.
Proof.
  intros Hwf Hl Ha Halloc Hn. unfold hash_get.
  assert (apart (items (index t))) as Ha' by (by apply (apart_perm l)).
  destruct (bool_decide_reflect (alloc = None)) as [->|Hal]; cbn [andb]; [destruct (Z.eqb_spec (hcount t) 0) as [H0|_]|].
  { rewrite (wf_count _ Hwf) in H0. rewrite (Permutation_length Hl) in H0. destruct l; [|cbn in H0; lia].
    exists t. split_and!; [done..|lia]. }
  all: destruct (place_lookup t d Hwf) as [c Hc]; fold (place (hsize t) (hash_key d)); rewrite Hc; obind;
    destruct (co_chain _ _ _ (wf_chains _ Hwf) _ _ Hc) as [Hpl _];
    rewrite (chain_find_spec _ _ d c Hpl), (find_in_place t d c Hwf Hc Ha'), (afind_perm d _ l Hl Ha').
  { unfold aget. destruct (afind d l); exists t; split_and!; done || lia. }
  unfold aget. destruct (afind d l) as [x|]; [exists t; split_and!; done || lia|].
  destruct alloc as [f|]; [|done]. destruct (f d) as [y|] eqn:Ey; [|exists t; split_and!; done || lia].
  assert (0 ≤ hcount t)%Z as Hpos by (rewrite (wf_count _ Hwf); lia).
  assert (u64 (hcount t + 1) = hcount t + 1)%Z as -> by (apply Z.mod_small; lia).
  assert (∃ t1, (if HASH_THRESHOLD (hcount t + 1) (hsize t) then hash_expand t else Some t) = Some t1 ∧ hash_wf t1
    ∧ items (index t1) ≡ₚ items (index t) ∧ hcount t1 = hcount t) as (t1 & -> & Hwf1 & Hi1 & Hc1).
  { unfold HASH_THRESHOLD. destruct (Z.ltb_spec (hsize t) (hcount t + 1)); [apply hash_expand_spec; [done|lia]|by exists t]. }
  ostep. destruct Hwf1 as [(k & Hs & Hk) Hok1 Hcnt1].
  assert (hash_key d = hash_key y) as Hkey by (symmetry; apply cmp_key, (Halloc d y Ey)).
  destruct (push_spec _ _ _ (ssq t1) (hash_key d) y k Hok1 Hs Hk Hkey) as (idx' & e' & q' & -> & Hok' & Hi').
  ostep. rewrite Hc1. assert (u64 (hcount t + 1) = hcount t + 1)%Z as -> by (apply Z.mod_small; lia).
  eexists. split; [reflexivity|]. cbn [index hcount fst snd]. split; [|split; [by rewrite Hi', Hi1, Hl|lia]].
  split; [by exists k|done|]. cbn [hcount index]. rewrite Hi', Hi1. rewrite (wf_count _ Hwf). cbn [length]. lia.
Qed.

(** What remains when the item equal to [d] is taken out of a set. *)
Lemma take_out_one l l' x d : l ≡ₚ x :: l' → apart l → hash_cmp x d = true →
  l' ≡ₚ filter (λ y, hash_cmp y d = false) l.
Proof.
  intros Hl Ha Hx. rewrite Hl, filter_cons_False by congruence.
  apply (apart_perm _ _ Hl) in Ha. inversion Ha as [|? ? Hd _]; subst.
  rewrite filter_all; [done|]. intros y Hy. rewrite Forall_forall in Hd.
  specialize (Hd y Hy). destruct (hash_cmp y d) eqn:E; [|done]. apply cmp_sym in E. by rewrite (cmp_trans _ _ _ Hx E) in Hd.
Qed.

Lemma keep_all l d : afind d l = None → filter (λ y, hash_cmp y d = false) l = l.
Proof. intros H. apply filter_all. intros y Hy. rewrite afind_None in H. auto. Qed.

Lemma hash_release_spec t l d : hash_wf t → items (index t) ≡ₚ l → apart l → (hcount t < 2 ^ 31)%Z →
  ∃ t', hash_release hash_key hash_cmp t d = Some ((arelease l d).1, t') ∧ hash_wf t'
    ∧ items (index t') ≡ₚ (arelease l d).2 ∧ (hcount t' ≤ hcount t)%Z.
Proof.
  intros Hwf Hl Ha Hn. unfold hash_release, arelease.
  assert (apart (items (index t))) as Ha' by (by apply (apart_perm l)).
  destruct (place_lookup t d Hwf) as [c Hc]. fold (place (hsize t) (hash_key d)). rewrite Hc. obind.
  destruct Hwf as [(k & Hs & Hk) Hok Hcnt]. destruct (co_chain _ _ _ Hok _ _ Hc) as [Hpl Hhd].
  pose proof (chain_unlink_spec _ _ d c Hpl) as Hun. pose proof (find_in_place t d c ltac:(split; eauto) Hc Ha') as Hf.
  rewrite (afind_perm d _ l Hl Ha') in Hf. cbn [fst snd].
  destruct (chain_unlink _ _ _ c) as [[b c']|]; [|rewrite Hf in Hun; exists t; rewrite Hun, (keep_all _ _ Hun); split_and!; [done| |done|lia]; split; eauto].
  destruct Hun as (Hb & Hpl' & Hp). rewrite Hf in Hb. rewrite Hb.
  set (c2 := match c' with [] => [] | b' :: bs => set_len (Z.of_nat (length c) - 1) b' :: bs end).
  destruct (items_insert (index t) _ c c2 Hc) as (rest & Hit & Hit2).
  assert (map hb_data c2 = map hb_data c') as Hsame by (by destruct c').
  assert (items (index t) ≡ₚ hb_data b :: items (<[place (hsize t) (hash_key d) := c2]> (index t))) as Hout.
  { rewrite Hit, Hit2, Hsame, Hp. done. }
  pose proof (Permutation_length Hp) as Hlen. cbn [length] in Hlen.
  assert (0 < hcount t)%Z by (rewrite Hcnt, (Permutation_length Hout); cbn [length]; lia).
  set (e' := if c' is [] then (empty t + 1)%Z else empty t).
  assert (chains_ok (hsize t) (<[place (hsize t) (hash_key d) := c2]> (index t)) e') as Hok'.
  { apply (chains_insert _ _ (empty t) _ _ c); [done..| |].
    - split; [subst c2; destruct c'; [done|by inversion Hpl'; constructor]|]. subst c2.
      destruct c'; cbn [headlen set_len hb_len length] in *; [done|lia].
    - subst c2 e'. destruct c, c'; cbn [length] in *; lia. }
  assert (match c with [] => 0%Z | b0 :: _ => hb_len b0 end = Z.of_nat (length c)) as Hold by (destruct c; [done|exact Hhd]).
  assert (empty t + 1 < 2 ^ 64)%Z.
  { pose proof (empties_le _ _ _ Hok) as He. rewrite (co_length _ _ _ Hok), Hs, Z2Nat.id in He by lia.
    pose proof (Z.pow_le_mono_r 2 k 31 ltac:(lia) ltac:(lia)). lia. }
  assert (u64 (hcount t - 1) = hcount t - 1)%Z as -> by (apply Z.mod_small; lia).
  assert (u64 (empty t + 1) = empty t + 1)%Z as -> by (apply Z.mod_small; pose proof (empties_le _ _ _ Hok); lia).
  rewrite Hold. apply afind_Some in Hb as [_ Hbd]; [|done].
  assert (items (<[place (hsize t) (hash_key d) := c2]> (index t)) ≡ₚ filter (λ x, hash_cmp x d = false) l) as Hres.
  { eapply take_out_one; [|done|exact Hbd]. by rewrite <- Hl, Hout. }
  assert (hcount t - 1 = Z.of_nat (length (items (<[place (hsize t) (hash_key d) := c2]> (index t)))))%Z as Hcount.
  { rewrite Hcnt, Hout. cbn [length]. lia. }
  destruct c' as [|b' bs]; subst c2 e'; eexists; (split; [reflexivity|]); cbn [index hcount];
    (split; [split; [by exists k|done|exact Hcount]|split; [exact Hres|lia]]).
Qed.

Lemma hash_clean_spec t : hash_wf t → (hcount t < 2 ^ 31)%Z →
  (hash_clean t).1 = items (index t) ∧ hash_wf (hash_clean t).2 ∧ items (index (hash_clean t).2) = [] ∧ hcount (hash_clean t).2 = 0%Z.
Proof.
  intros [(k & Hs & Hk) Hok Hcnt] Hn. unfold hash_clean. fold (items (index t)). cbn [fst snd index].
  assert (map (λ _, []) (index t) = replicate (Z.to_nat (hsize t)) ([] : list (hash_bucket D))) as ->.
  { rewrite <- (co_length _ _ _ Hok). clear. induction (index t) as [|c idx IH]; [done|]. cbn. by rewrite IH. }
  assert (u64 (hcount t - Z.of_nat (length (items (index t)))) = 0)%Z as -> by (rewrite Hcnt, Z.sub_diag; done).
  split; [done|]. split; [|by rewrite items_empty]. split; [by exists k|apply chains_empty; cbn; lia|].
  cbn [index hcount]. by rewrite items_empty.
Qed.

Lemma to_list_fold (bs : list (hash_bucket D)) : ∀ l ps, dll l ps →
  ∃ l' ps', foldl (λ arg b, hash_to_list_iter b arg) (Some l) bs = Some l' ∧ dll l' ps' ∧ ps'.*2 = ps.*2 ++ map hb_data bs.
Proof.
  induction bs as [|b bs IH]; intros l ps Hd; cbn [foldl map].
  - exists l, ps. by rewrite app_nil_r.
  - unfold hash_to_list_iter at 2. obind.
    destruct (listnode_add_spec l ps (hb_data b) Hd) as (l1 & E & Hd1 & _). rewrite E. cbn [fmap option_fmap option_map snd].
    destruct (IH l1 _ Hd1) as (l' & ps' & E' & Hd' & Hps). exists l', ps'. split; [exact E'|]. split; [done|].
    rewrite Hps, fmap_app, <- app_assoc. done.
Qed.

Lemma to_list_loop idx : ∀ l ps, dll l ps →
  ∃ l' ps', foldl (λ arg hb, foldl (λ arg b, hash_to_list_iter b arg) arg hb) (Some l) idx = Some l' ∧ dll l' ps'
    ∧ ps'.*2 = ps.*2 ++ items idx.
Proof.
  induction idx as [|c idx IH]; intros l ps Hd; cbn [foldl].
  - exists l, ps. by rewrite app_nil_r.
  - destruct (to_list_fold c l ps Hd) as (l1 & ps1 & -> & Hd1 & E1).
    destruct (IH l1 ps1 Hd1) as (l' & ps' & E' & Hd' & E2). exists l', ps'. split; [exact E'|]. split; [done|].
    by rewrite E2, E1, <- app_assoc.
Qed.

(** The list of a table holds its items. *)
Lemma hash_to_list_spec t : (l ← hash_to_list t; elements l) = Some (items (index t)).
Proof.
  destruct (to_list_loop (index t) list_new [] dll_new) as (l & ps & E & Hd & Eps).
  unfold hash_to_list, hash_iterate. rewrite E. ostep. by rewrite (elements_spec _ _ Hd), Eps.
Qed.

(** ** Histories *)

Inductive hop := Get (d : D) (alloc : option (D → option D)) | Release (d : D) | Clean | ToList.
Inductive hout := One (r : option D) | All (ds : list D).

Definition hrun t (o : hop) : option (hout * hash D) :=
  match o with
  | Get d None => '(r, t) ← hash_lookup hash_key hash_cmp t d; Some (One r, t)
  | Get d alloc => '(r, t) ← hash_get hash_key hash_cmp t d alloc; Some (One r, t)
  | Release d => '(r, t) ← hash_release hash_key hash_cmp t d; Some (One r, t)
  | Clean => Some (All (hash_clean t).1, (hash_clean t).2)
  | ToList => l ← hash_to_list t; ds ← elements l; Some (All ds, t)
  end.

Definition arun (l : list D) (o : hop) : hout * list D :=
  match o with
  | Get d alloc => (One (aget l d alloc).1, (aget l d alloc).2)
  | Release d => (One (arelease l d).1, (arelease l d).2)
  | Clean => (All l, [])
  | ToList => (All l, l)
  end.

Fixpoint hruns t (os : list hop) : option (list hout * hash D) :=
  match os with
  | [] => Some ([], t)
  | o :: os => '(r, t) ← hrun t o; '(rs, t) ← hruns t os; Some (r :: rs, t)
  end.
Fixpoint aruns (l : list D) (os : list hop) : list hout * list D :=
  match os with
  | [] => ([], l)
  | o :: os => let '(r, l) := arun l o in let '(rs, l) := aruns l os in (r :: rs, l)
  end.

Definition hop_ok (o : hop) : Prop := match o with Get _ (Some f) => alloc_ok f | _ => True end.

(** Lists of items come in some order. *)
Inductive hout_eq : hout → hout → Prop :=
  | One_eq r : hout_eq (One r) (One r)
  | All_eq ds ds' : ds ≡ₚ ds' → hout_eq (All ds) (All ds').

Lemma hrun_spec t l o : hash_wf t → items (index t) ≡ₚ l → apart l → hop_ok o → (hcount t + 1 < 2 ^ 31)%Z →
  ∃ r t', hrun t o = Some (r, t') ∧ hout_eq r (arun l o).1 ∧ hash_wf t' ∧ items (index t') ≡ₚ (arun l o).2
    ∧ apart (arun l o).2 ∧ (hcount t' ≤ hcount t + 1)%Z.
Proof.
  intros Hwf Hl Ha Ho Hn. destruct o as [d alloc|d| |]; cbn [hrun arun fst snd].
  - destruct (hash_get_spec t l d alloc Hwf Hl Ha ltac:(by destruct alloc) Hn) as (t' & E & Hwf' & Hi' & Hc').
    exists (One (aget l d alloc).1), t'. split.
    { unfold hash_lookup. by destruct alloc; rewrite E. }
    split_and!; [constructor|done|done| |done]. apply aget_apart; [done|by destruct alloc].
  - destruct (hash_release_spec t l d Hwf Hl Ha ltac:(lia)) as (t' & -> & Hwf' & Hi' & Hc').
    eexists _, t'. split; [reflexivity|]. split_and!; [constructor|done|done| |lia].
    clear - Ha. cbn [arelease snd]. induction Ha as [|x l Hx Ha IH]; [constructor|].
    rewrite filter_cons. destruct (decide _); [|done]. constructor; [|done].
    apply Forall_forall. intros y [_ Hy]%list_elem_of_filter. rewrite Forall_forall in Hx. auto.
  - destruct (hash_clean_spec t Hwf ltac:(lia)) as (E & Hwf' & Hi' & Hc').
    eexists _, _. split; [reflexivity|]. rewrite E, Hi', Hc'. split_and!; [by constructor|done|done|constructor|].
    rewrite (wf_count _ Hwf). lia.
  - pose proof (hash_to_list_spec t) as E. destruct (hash_to_list t) as [ll|]; [|done]. rewrite obind_Some in E. ostep. rewrite E. ostep.
    eexists _, t. split; [reflexivity|]. split_and!; [by constructor|done..|lia].
Qed.

Lemma hruns_spec os : ∀ t l, hash_wf t → items (index t) ≡ₚ l → apart l → Forall hop_ok os →
  (hcount t + Z.of_nat (length os) < 2 ^ 31)%Z →
  ∃ rs t', hruns t os = Some (rs, t') ∧ Forall2 hout_eq rs (aruns l os).1 ∧ hash_wf t'
    ∧ items (index t') ≡ₚ (aruns l os).2 ∧ apart (aruns l os).2.
Proof.
  induction os as [|o os IH]; intros t l Hwf Hl Ha Hok Hn; cbn [hruns aruns].
  { exists [], t. cbn [fst snd]. by split_and!; [|constructor|..]. }
  apply Forall_cons in Hok as [Ho Hos]. cbn [length] in Hn.
  destruct (hrun_spec t l o Hwf Hl Ha Ho ltac:(lia)) as (r & t1 & -> & Hr & Hwf1 & Hl1 & Ha1 & Hc1). ostep.
  destruct (arun l o) as [r0 l1]. cbn [fst snd] in *.
  destruct (IH t1 l1 Hwf1 Hl1 Ha1 Hos ltac:(lia)) as (rs & t' & -> & Hrs & Hwf' & Hl' & Ha'). ostep.
  destruct (aruns l1 os) as [rs0 l']. cbn [fst snd] in *. exists (r :: rs), t'. by split_and!; [|constructor|..].
Qed.

(** The limit on the size is set by assigning to the field. *)
Definition set_max_size (m : Z) t : hash D := Hash (index t) (hsize t) m (hcount t) (empty t) (ssq t).

(** C26: a hash table is a set of data items, no two of which the comparison
    equates.  Whatever the initial size (a power of two of an unsigned int) and
    the limit on the size, every history of up to 2^31 - 1 calls returns, each
    call answers as on the set: [hash_get] and [hash_lookup] find the one item
    equal to the template, [hash_get] with an allocator adds the new item when
    there is none, [hash_release] takes the equal item out, [hash_clean] and
    [hash_to_list] give all items in some order.  Along the way the table grows;
    at the end the number of items and of empty chains recorded are right, each
    bucket is in the chain of its key and the head of each chain has its length.
    The key function must respect the comparison, an equivalence. *)
Theorem hash_refines_set (k m : Z) (os : list hop) : (0 ≤ k ≤ 31)%Z → (Z.of_nat (length os) < 2 ^ 31)%Z →
  Forall hop_ok os →
  ∃ t0 rs t, hash_create_size (2 ^ k) = Some t0 ∧ hruns (set_max_size m t0) os = Some (rs, t)
    ∧ Forall2 hout_eq rs (aruns [] os).1 ∧ items (index t) ≡ₚ (aruns [] os).2 ∧ apart (aruns [] os).2 ∧ hash_wf t.
Proof.
  intros Hk Hn Hos. unfold hash_create_size.
  assert (Z.land (2 ^ k) (u32 (2 ^ k - 1)) = 0)%Z as ->.
  { pose proof (Z.pow_pos_nonneg 2 k ltac:(lia) ltac:(lia)). pose proof (Z.pow_le_mono_r 2 k 31 ltac:(lia) ltac:(lia)).
    rewrite u32_small by lia. replace (2 ^ k - 1)%Z with (Z.ones k) by (rewrite Z.ones_equiv; lia).
    rewrite Z.land_ones by lia. apply Z.mod_same. lia. }
  cbn [Z.eqb]. eexists. edestruct (hruns_spec os (set_max_size m (Hash (replicate (Z.to_nat (2 ^ k)) []) (2 ^ k) 0 0 (2 ^ k) 0)) [])
    as (rs & t & E & Hrs & Hwf & Hl & Ha).
  - split; cbn [set_max_size index hsize empty hcount]; [eauto|apply chains_empty; lia|by rewrite items_empty].
  - cbn [set_max_size index]. by rewrite items_empty.
  - constructor.
  - done.
  - cbn [set_max_size hcount]. lia.
  - exists rs, t. by split_and!.
Qed.

End correct.

(** A table of one chain with items compared by their value modulo 10: it grows,
    finds, releases and lists. *)
Lemma hash_refines_set_witness :
  let key := (λ z : Z, z mod 10)%Z in
  let cmp := (λ x y : Z, x mod 10 =? y mod 10)%Z in
  let os := [Get 3 (Some hash_alloc_intern); Get 14 (Some hash_alloc_intern); Get 25 (Some hash_alloc_intern); Get 33 (Some hash_alloc_intern);
             Get 5 None; Release 4; Get 4 None; ToList]%Z in
  ∃ t0 rs t, hash_create_size (2 ^ 0) = Some t0 ∧ hruns key cmp (set_max_size 0 t0) os = Some (rs, t)
    ∧ Forall2 hout_eq rs [One (Some 3); One (Some 14); One (Some 25); One (Some 3); One (Some 25); One (Some 14); One None; All [25; 3]]%Z
    ∧ items (index t) ≡ₚ [25; 3]%Z.
Proof.
  intros key cmp os.
  destruct (hash_refines_set key cmp ltac:(subst key cmp; cbv beta; intros x y ?%Z.eqb_eq; done)
    ltac:(subst cmp; cbv beta; intros x y ?%Z.eqb_eq; by apply Z.eqb_eq)
    ltac:(subst cmp; cbv beta; intros x y z ?%Z.eqb_eq ?%Z.eqb_eq; apply Z.eqb_eq; congruence) 0 0 os)
    as (t0 & rs & t & E0 & E & Hrs & Hi & _ & _).
  - lia.
  - done.
  - subst cmp. assert (alloc_ok (λ x y : Z, (x mod 10 =? y mod 10)%Z) hash_alloc_intern) as Ha.
    { intros d y [= ->]. apply Z.eqb_refl. }
    repeat constructor; exact Ha.
  - exists t0, rs, t. split; [exact E0|]. split; [exact E|]. split; [exact Hrs|exact Hi].
Defined.

(** Expanding adds the squares of the new chain lengths to those of the old
    ones: two items in chains of their own are recorded with 3, not 2. *)
Example expand_keeps_ssq :
  (t0 ← hash_create_size 1; '(_, t1) ← hash_get id Z.eqb t0 0%Z (Some hash_alloc_intern);
   '(_, t2) ← hash_get id Z.eqb t1 1%Z (Some hash_alloc_intern); Some (map (map hb_data) (index t2), ssq t2))
  = Some ([[0]; [1]]%Z, 3%Z).
Proof. vm_compute. reflexivity. Qed.

(** Size zero passes the assertion, and every access is outside the array. *)
Example size_zero_fails : (t ← hash_create_size 0; hash_get id Z.eqb t 7%Z (Some hash_alloc_intern)) = None.
Proof. reflexivity. Qed.
