(* ===== verification/FrrStr.v ===== *)
(** * String helpers: lib/frrstr.c, lib/strlcpy.c, lib/strlcat.c

    Strings are [cstring]s, without their terminating NUL; a destination buffer
    is a list of characters.  [None] as a result is an access outside a buffer or
    through a null pointer, or (for [frrstr_replace]) fuel that ran out.  POSIX's
    [regexec] is the argument [regexec] of [frrstr_filter_vec], true where it
    reports no match.

    Theorems: splitting and joining are inverse ([split_join], [join_split]);
    the bounded copies never leave the buffer, terminate the string and tell
    whether it was cut ([strlcpy_strlcat_bounded]); replacing stops when the
    replacement is shorter than the pattern, and never when it contains the
    pattern ([frrstr_replace_terminates], [frrstr_replace_diverges]). *)
From Stdlib Require Import Ascii String.
From stdpp Require Import prelude strings list.
From S2P Require Import Prelude.
From S2P Require Import Vector.
From S2P Require Import CString.
Set Default Goal Selector "!".

(** [strsep]: the token up to the first delimiter, and what follows it. *)
Fixpoint strsep (delimiter s : cstring) : cstring * option cstring :=
  match s with
  | [] => ([], None)
  | c :: s =>
      if decide (c ∈ delimiter) then ([], Some s)
      else let '(tok, rest) := strsep delimiter s in (c :: tok, rest)
  end.

(** [while (copy)]: the array [result] has [sz] slots and [idx] tokens. *)
Fixpoint split_loop (fuel : nat) (delimiter : cstring) (copy : option cstring) (result : list cstring) (sz : Z) :
    option (list cstring) :=
  match copy with
  | None => Some result
  | Some s =>
      match fuel with
      | 0 => None
      | S fuel =>
          let '(tok, copy) := strsep delimiter s in
          if (Z.of_nat (length result) <? sz)%Z then
            let result := result ++ [tok] in
            let sz := (if Z.of_nat (length result) =? sz then u32 (sz * 2) else sz)%Z in
            split_loop fuel delimiter copy result sz
          else None
      end
  end.

Definition frrstr_split (s delimiter : cstring) : option (list cstring) :=
  split_loop (S (length s)) delimiter (Some s) [] 4.

Definition frrstr_split_vec (s : option cstring) (delimiter : cstring) : option (option (vector cstring)) :=
  match s with
  | None => Some None
  | Some s => result ← frrstr_split s delimiter; v ← array_to_vector (Some <$> result); Some (Some v)
  end.

(** [memcpy] to the end of what is written of a block of [len] bytes. *)
Definition put (len : nat) (out bs : list ascii) : option (list ascii) :=
  if decide (length out + length bs ≤ len) then Some (out ++ bs) else None.

Fixpoint join_loop (len : nat) (parts : list (option cstring)) (sep : option cstring) (p : list ascii) : option (list ascii) :=
  match parts with
  | [] => Some p
  | part :: parts =>
      part ← part;
      p ← put len p part;
      p ← match parts, sep with _ :: _, Some sep => put len p sep | _, _ => Some p end;
      join_loop len parts sep p
  end.

Definition frrstr_join (parts : list (option cstring)) (sep : option cstring) : option (option cstring) :=
  let joinlen := match sep with Some sep => length sep | None => 0 end in
  match parts with
  | [] => Some None
  | _ =>
      parts' ← mapM id parts;
      let len := sum_list_with length parts' + length parts * joinlen + 1 in
      p ← join_loop len parts sep [];
      p ← put len p [NUL];
      s ← cstr p;
      Some (Some s)
  end.

Definition frrstr_join_vec (v : vector cstring) (sep : option cstring) : option (option cstring) :=
  frrstr_join (vector_to_array v).1 sep.

Fixpoint filter_vec_loop (fuel : nat) (regexec : cstring → bool) (v : vector cstring) (i : nat) : option (vector cstring) :=
  if decide (i < vector_active v) then
    match fuel with
    | 0 => None
    | S fuel =>
        s ← vector_slot v i; s ← s;
        v ← (if regexec s then vector_unset v i else Some v);
        filter_vec_loop fuel regexec v (i + 1)
    end
  else Some v.

Definition frrstr_filter_vec (regexec : cstring → bool) (v : vector cstring) : option (vector cstring) :=
  filter_vec_loop (vector_active v) regexec v 0.

(** [while ((ch = strstr(nustr, find)))]; [cap] is the size of the block. *)
Fixpoint replace_loop (fuel : nat) (find replace nustr : cstring) (cap : nat) : option cstring :=
  match strstr nustr find with
  | None => Some nustr
  | Some (before, ch) =>
      match fuel with
      | 0 => None
      | S fuel =>
          let cap := if length find <? length replace then length nustr + length replace - length find + 1 else cap in
          let tail := drop (length find) ch in
          if decide (length before + length replace + length tail + 1 ≤ cap) then
            replace_loop fuel find replace (before ++ replace ++ tail) cap
          else None
      end
  end.

Definition frrstr_replace (fuel : nat) (s find replace : cstring) : option cstring :=
  replace_loop fuel find replace s (length s + 1).

Definition frrstr_startswith (s prefix : option cstring) : bool :=
  match s, prefix with
  | Some s, Some prefix =>
      if length s <? length prefix then false else strncmp_eq s prefix (length prefix)
  | _, _ => false
  end.

Definition frrstr_endswith (s suffix : option cstring) : bool :=
  match s, suffix with
  | Some s, Some suffix =>
      if length s <? length suffix then false
      else strncmp_eq (drop (length s - length suffix) s) suffix (length suffix)
  | _, _ => false
  end.

Fixpoint all_digit (s : cstring) : bool :=
  match s with [] => true | c :: s => if isdigit c then all_digit s else false end.

(** ** Bounded copies *)

(** [memcpy(dest + off, bs, n)]. *)
Definition memcpy (dest : list ascii) (off : nat) (bs : list ascii) : option (list ascii) :=
  if decide (off + length bs ≤ length dest) then Some (take off dest ++ bs ++ drop (off + length bs) dest) else None.

Definition strlcpy (dest : list ascii) (src : cstring) (destsize : nat) : option (nat * list ascii) :=
  let src_length := length src in
  dest ← (if decide (destsize ≤ src_length) then
            if decide (0 < destsize) then
              dest ← memcpy dest 0 (take destsize (src ++ [NUL]));
              write dest (destsize - 1) NUL
            else Some dest
          else memcpy dest 0 (src ++ [NUL]));
  Some (src_length, dest).

Definition strlcat (dest : list ascii) (src : cstring) (destsize : nat) : option (nat * list ascii) :=
  let src_length := length src in
  if decide (destsize = 0) then Some (src_length, dest)
  else
    dest_length ← strnlen dest destsize;
    dest ← (if decide (dest_length = destsize) then Some dest
            else
              let to_copy := destsize - dest_length - 1 in
              let to_copy := if decide (src_length < to_copy) then src_length else to_copy in
              dest ← memcpy dest dest_length (take to_copy src);
              write dest (dest_length + to_copy) NUL);
    Some (dest_length + src_length, dest).

(** ** Splitting and joining *)

(** The fields of a string. *)
Fixpoint fields (delimiter s : cstring) : list cstring :=
  match s with
  | [] => [[]]
  | c :: s =>
      if decide (c ∈ delimiter) then [] :: fields delimiter s
      else match fields delimiter s with f :: fs => (c :: f) :: fs | [] => [[c]] end
  end.

Fixpoint intercalate (sep : cstring) (parts : list cstring) : cstring :=
  match parts with
  | [] => []
  | [p] => p
  | p :: parts => p ++ sep ++ intercalate sep parts
  end.

Lemma fields_strsep d s : fields d s = (strsep d s).1 :: from_option (fields d) [] (strsep d s).2
  ∧ from_option length 0 (strsep d s).2 ≤ length s ∧ from_option (λ r, length r < length s) True (strsep d s).2.
Proof.
  induction s as [|c s (IH1 & IH2 & IH3)]; cbn [fields strsep]; [done|].
  destruct (decide (c ∈ d)); [cbn; split; [done|lia]|]. rewrite IH1.
  destruct (strsep d s) as [tok [r|]]; cbn in *; (split; [done|]); lia.
Qed.

Lemma fields_length d s : length (fields d s) ≤ S (length s).
Proof.
  induction s as [|c s IH]; cbn [fields length]; [done|]. destruct (decide (c ∈ d)); [cbn [length]; lia|].
  destruct (fields d s); cbn [length] in *; lia.
Qed.

Lemma split_loop_spec d fuel : ∀ s result sz, length s < fuel →
  (Z.of_nat (length result) < sz)%Z → (Z.of_nat (length result) + Z.of_nat (length s) < 2 ^ 31 - 1)%Z →
  split_loop fuel d (Some s) result sz = Some (result ++ fields d s).
Proof.
  induction fuel as [|fuel IH]; intros s result sz Hf Hsz Hn; [lia|]. cbn [split_loop].
  destruct (fields_strsep d s) as (E & _ & Hlt). rewrite E. destruct (strsep d s) as [tok [r|]]; cbn [fst snd from_option] in *.
  - rewrite (proj2 (Z.ltb_lt _ _) Hsz), length_app. cbn [length].
    rewrite IH; [by rewrite <- app_assoc|lia| |rewrite length_app; cbn [length]; lia].
    rewrite length_app. cbn [length].
    destruct (Z.eqb_spec (Z.of_nat (length result + 1)) sz) as [<-|]; [rewrite u32_small|]; lia.
  - rewrite (proj2 (Z.ltb_lt _ _) Hsz). by destruct fuel.
Qed.

Lemma frrstr_split_spec s d : (Z.of_nat (length s) < 2 ^ 31 - 1)%Z → frrstr_split s d = Some (fields d s).
Proof. intros H. unfold frrstr_split. rewrite split_loop_spec; [done|lia|done|cbn; lia]. Qed.

Lemma mapM_Some_all {A} (l : list A) : mapM id (Some <$> l) = Some l.
Proof. induction l as [|x l IH]; [done|]. cbn. by rewrite IH. Qed.

Lemma put_spec len out bs : length out + length bs ≤ len → put len out bs = Some (out ++ bs).
Proof. intros H. unfold put. by rewrite decide_True. Qed.

Lemma intercalate_cons sep p ps : ps ≠ [] → intercalate sep (p :: ps) = p ++ sep ++ intercalate sep ps.
Proof. by destruct ps. Qed.

Lemma join_loop_spec sep len ps : ∀ out, ps ≠ [] →
  length out + sum_list_with length ps + length ps * length sep ≤ len →
  join_loop len (Some <$> ps) (Some sep) out = Some (out ++ intercalate sep ps).
Proof.
  induction ps as [|p ps IH]; intros out Hne Hlen; [done|]. cbn [fmap list_fmap join_loop sum_list_with length] in *. obind.
  rewrite put_spec by lia. ostep. destruct (decide (ps = [])) as [->|Hps]; [done|].
  destruct ps as [|p' ps]; [done|]. cbn [list_fmap list_fmap]. rewrite put_spec by (rewrite length_app; cbn [length] in *; nia). rewrite fmap_cons. ostep.
  rewrite <- (fmap_cons Some p' ps).
  rewrite IH; [|done|rewrite !length_app; cbn [length fmap list_fmap sum_list_with] in *; nia].
  rewrite (intercalate_cons sep p) by done. by rewrite <- !app_assoc.
Qed.

Lemma intercalate_length sep ps : length (intercalate sep ps) ≤ sum_list_with length ps + length ps * length sep.
Proof.
  induction ps as [|p ps IH]; [done|]. destruct (decide (ps = [])) as [->|Hps]; [cbn; lia|].
  rewrite intercalate_cons by done. rewrite !length_app. cbn [length sum_list_with]. lia.
Qed.

Lemma intercalate_no_nul sep ps : NUL ∉ sep → Forall (λ p, NUL ∉ p) ps → NUL ∉ intercalate sep ps.
Proof.
  intros Hs. induction 1 as [|p ps Hp Hps IH]; [apply not_elem_of_nil|].
  destruct (decide (ps = [])) as [->|Hne]; [done|]. rewrite intercalate_cons by done. rewrite !elem_of_app. tauto.
Qed.

(** Joining writes exactly inside the block it allocates. *)
Lemma frrstr_join_spec ps sep : ps ≠ [] → NUL ∉ sep → Forall (λ p, NUL ∉ p) ps →
  frrstr_join (Some <$> ps) (Some sep) = Some (Some (intercalate sep ps)).
Proof.
  intros Hne Hs Hps. unfold frrstr_join. rewrite mapM_Some_all, length_fmap.
  destruct (Some <$> ps) as [|x xs] eqn:E; [by destruct ps|]. rewrite <- E. ostep.
  rewrite join_loop_spec by (done || cbn [length]; lia). ostep. cbn [app].
  pose proof (intercalate_length sep ps). rewrite put_spec by (cbn [length]; lia). ostep.
  by rewrite cstr_app by (by apply intercalate_no_nul).
Qed.

Lemma fields_intercalate c s : intercalate [c] (fields [c] s) = s.
Proof.
  induction s as [|x s IH]; [done|]. cbn [fields]. destruct (decide (x ∈ [c])) as [->%list_elem_of_singleton|].
  - rewrite intercalate_cons; [cbn; by rewrite IH|]. destruct (fields_strsep [c] s) as (-> & _). done.
  - destruct (fields_strsep [c] s) as (E & _). rewrite E in *. destruct (from_option _ _ _) as [|f fs]; cbn in *; by rewrite IH.
Qed.

Lemma fields_app c p s : c ∉ p → fields [c] (p ++ c :: s) = p :: fields [c] s.
Proof.
  induction p as [|x p IH]; intros Hp; cbn [app fields].
  - by rewrite decide_True by (by apply list_elem_of_singleton).
  - apply not_elem_of_cons in Hp as [Hx Hp]. rewrite decide_False by (rewrite list_elem_of_singleton; congruence). by rewrite IH.
Qed.

Lemma fields_single c p : c ∉ p → fields [c] p = [p].
Proof.
  induction p as [|x p IH]; intros Hp; [done|]. apply not_elem_of_cons in Hp as [Hx Hp]. cbn [fields].
  rewrite decide_False by (rewrite list_elem_of_singleton; congruence). by rewrite IH.
Qed.

Lemma intercalate_fields c ps : ps ≠ [] → Forall (λ p, c ∉ p) ps → fields [c] (intercalate [c] ps) = ps.
Proof.
  intros Hne Hps. induction Hps as [|p ps Hp Hps IH]; [done|]. destruct (decide (ps = [])) as [->|Hps'].
  - by apply fields_single.
  - rewrite intercalate_cons by done. cbn [app]. by rewrite fields_app, IH.
Qed.

Lemma fields_no_nul d s : NUL ∉ s → Forall (λ p, NUL ∉ p) (fields d s).
Proof.
  induction s as [|c s IH]; intros Hs; cbn [fields]; [repeat constructor; apply not_elem_of_nil|].
  apply not_elem_of_cons in Hs as [Hc Hs]. specialize (IH Hs). destruct (decide (c ∈ d)).
  - by constructor; [apply not_elem_of_nil|].
  - destruct (fields d s) as [|f fs].
    + constructor; [|done]. by apply not_elem_of_cons; split; [|apply not_elem_of_nil].
    + apply Forall_cons in IH as [Hf Hfs]. constructor; [|done]. by apply not_elem_of_cons.
Qed.

(** splitting at a character and joining with it are inverse.  Every string
    is split into fields, put into a vector, and joined back to itself; every
    non-empty list of parts that do not contain the character is joined to a
    string that splits into the same parts.  (Shorter than the width of the
    token counter.) *)
Theorem split_join_roundtrip (c : ascii) (s : cstring) (parts : list cstring) :
  c ≠ NUL → NUL ∉ s → (Z.of_nat (length s) < 2 ^ 31 - 2)%Z →
  parts ≠ [] → Forall (λ p, (c ∉ p) ∧ NUL ∉ p) parts → (Z.of_nat (length (intercalate [c] parts)) < 2 ^ 31 - 1)%Z →
  (v ← frrstr_split_vec (Some s) [c]; v ← v; frrstr_join_vec v (Some [c])) = Some (Some s)
  ∧ (j ← frrstr_join (Some <$> parts) (Some [c]); j ← j; frrstr_split j [c]) = Some parts.
Proof.
  intros Hc Hs Hlen Hne Hparts Hlen'. assert (NUL ∉ [c]) as Hsep by (rewrite list_elem_of_singleton; congruence). split.
  - unfold frrstr_split_vec. rewrite frrstr_split_spec by lia. ostep.
    destruct (array_to_vector_loop_spec (A := cstring) [] 1 (Some <$> fields [c] s)) as (n & E & Hf).
    { unfold fits. cbn [length]. lia. }
    { rewrite length_fmap. pose proof (fields_length [c] s). cbn [length]. lia. }
    assert (array_to_vector (Some <$> fields [c] s) = Some (mkv (Some <$> fields [c] s) n)) as -> by exact E. do 3 ostep.
    unfold frrstr_join_vec. change (vector_to_array ?v).1 with (contents v). rewrite contents_mkv.
    rewrite frrstr_join_spec; [by rewrite fields_intercalate| |done|by apply fields_no_nul].
    destruct (fields_strsep [c] s) as (-> & _). done.
  - rewrite frrstr_join_spec; [|done..|eapply Forall_impl; [exact Hparts|]; by intros p []]. do 2 ostep.
    rewrite frrstr_split_spec by done. f_equal. apply intercalate_fields; [done|].
    eapply Forall_impl; [exact Hparts|]. by intros p [].
Qed.

Lemma split_join_roundtrip_witness :
  (v ← frrstr_split_vec (Some (str "show ip route")) [" "%char]; v ← v; frrstr_join_vec v (Some [" "%char])) = Some (Some (str "show ip route"))
  ∧ (j ← frrstr_join (Some <$> [str "a"; str ""; str "b"]) (Some [" "%char]); j ← j; frrstr_split j [" "%char]) = Some [str "a"; str ""; str "b"].
Proof.
  apply split_join_roundtrip; [done|by apply (bool_decide_unpack _); vm_compute|done|done
    |by apply (bool_decide_unpack _); vm_compute|done].
Defined.

(** ** Bounded copies *)

(** [memcpy] followed by the terminator. *)
Lemma copy_terminate dest off bs : off + length bs < length dest →
  (dest ← memcpy dest off bs; write dest (off + length bs) NUL)
  = Some (take off dest ++ bs ++ NUL :: drop (off + length bs + 1) dest).
Proof.
  intros H. unfold memcpy. rewrite decide_True by lia. ostep. rewrite write_Some by len. f_equal.
  rewrite app_assoc, insert_app_r_alt by len.
  replace (off + length bs - length (take off dest ++ bs)) with 0 by len.
  destruct (drop (off + length bs) dest) as [|x r] eqn:E.
  - apply (f_equal length) in E. rewrite length_drop in E. cbn in E. lia.
  - cbn. rewrite <- drop_drop, E, <- app_assoc. done.
Qed.

Lemma strlcpy_spec dest src destsize : 0 < destsize ≤ length dest →
  strlcpy dest src destsize =
  Some (length src, take (destsize - 1) src ++ NUL :: drop (Nat.min (length src) (destsize - 1) + 1) dest).
Proof.
  intros H. unfold strlcpy. destruct (decide (destsize ≤ length src)) as [Hle|Hgt].
  - assert (∃ k, destsize = k + 1) as [k ->] by (exists (destsize - 1); lia).
    rewrite decide_True, take_app_le, Nat.min_r by lia. replace (k + 1 - 1) with k by lia.
    unfold memcpy. rewrite decide_True by len. ostep. rewrite write_Some by len. ostep.
    do 2 f_equal. rewrite take_0, app_nil_l, insert_take_drop by len. rewrite take_app_le by len. rewrite take_take, Nat.min_l by len. do 2 f_equal.
    rewrite drop_app_length' by len. f_equal. len.
  - rewrite Nat.min_l, (take_ge src) by lia.
    unfold memcpy. rewrite decide_True by len. ostep. rewrite take_0, app_nil_l, <- app_assoc. cbn [app]. do 5 f_equal. len.
Qed.

(** A buffer whose first [k] characters are overwritten. *)
Lemma drop_overlay (a l : list ascii) k n : length a = k → k ≤ n → drop n (a ++ drop k l) = drop n l.
Proof. intros Ha Hn. rewrite drop_app_ge, drop_drop by lia. f_equal. lia. Qed.
Lemma length_overlay (a l : list ascii) k : length a = k → k ≤ length l → length (a ++ drop k l) = length l.
Proof. intros. rewrite length_app, length_drop. lia. Qed.

Lemma strnlen_cstr (d r : list ascii) n : NUL ∉ d → length d < n → strnlen (d ++ NUL :: r) n = Some (length d).
Proof.
  revert n. induction d as [|x d IH]; intros [|n] Hd Hn; cbn in *; [lia|done|lia|].
  apply not_elem_of_cons in Hd as [Hx Hd]. rewrite decide_False by done. by rewrite IH by (done || lia).
Qed.

Lemma strlcat_spec d r src destsize : NUL ∉ d → length d < destsize ≤ length (d ++ NUL :: r) →
  strlcat (d ++ NUL :: r) src destsize =
  Some (length d + length src,
        d ++ take (destsize - length d - 1) src ++ NUL :: drop (length d + Nat.min (length src) (destsize - length d - 1) + 1) (d ++ NUL :: r)).
Proof.
  intros Hd H. unfold strlcat. rewrite decide_False by lia. rewrite strnlen_cstr by (done || lia). ostep.
  rewrite (decide_False (P := length d = destsize)) by lia.
  set (n := if decide (length src < destsize - length d - 1) then length src else destsize - length d - 1).
  assert (n = Nat.min (length src) (destsize - length d - 1)) as Hn by (subst n; case_decide; lia).
  assert (length (take n src) = n) as Hl by len.
  assert (take n src = take (destsize - length d - 1) src) as Ht.
  { subst n. destruct (decide (length src < destsize - length d - 1)); [by rewrite !take_ge by lia|done]. }
  clearbody n. pose proof (copy_terminate (d ++ NUL :: r) (length d) (take n src) ltac:(lia)) as E.
  rewrite Hl in E. rewrite E. ostep. rewrite take_app_length, Ht, Hn. done.
Qed.

(** Copying with [strlcpy] and appending with [strlcat] to a buffer of
    [destsize] characters: both calls stay inside the buffer and touch nothing
    after its first [destsize] characters, the buffer then holds as much of the
    two strings as fits, terminated; the results are the lengths of the strings
    they tried to make, so a result of [destsize] or more tells that the string
    was cut. *)
Theorem strlcpy_strlcat_bounded (dest : list ascii) (s1 s2 : cstring) (destsize : nat) :
  0 < destsize ≤ length dest → NUL ∉ s1 → NUL ∉ s2 →
  ∃ n1 n2 d1 d2, strlcpy dest s1 destsize = Some (n1, d1) ∧ strlcat d1 s2 destsize = Some (n2, d2)
    ∧ cstr d1 = Some (take (destsize - 1) s1) ∧ cstr d2 = Some (take (destsize - 1) (s1 ++ s2))
    ∧ drop destsize d2 = drop destsize dest ∧ length d2 = length dest
    ∧ (n1 < destsize ↔ cstr d1 = Some s1)
    ∧ (n1 < destsize → (n2 < destsize ↔ cstr d2 = Some (s1 ++ s2))).
Proof.
  intros H H1 H2. rewrite strlcpy_spec by done.
  set (m := Nat.min (length s1) (destsize - 1)). set (t1 := take (destsize - 1) s1). set (r := drop (m + 1) dest).
  assert (length t1 = m) as Lt1 by (subst t1 m; len).
  assert (NUL ∉ t1) as Ht1. { intros Hin. apply H1. by apply (subseteq_take (destsize - 1)). }
  assert (length (t1 ++ NUL :: r) = length dest) as Ld by (subst r m; len).
  do 4 eexists. split; [reflexivity|]. rewrite strlcat_spec by (done || lia). split; [reflexivity|].
  set (t2 := take (destsize - length t1 - 1) s2). set (k := length t1 + Nat.min (length s2) (destsize - length t1 - 1) + 1).
  assert (NUL ∉ t1 ++ t2) as Ht2 by (rewrite elem_of_app; intros [?|Hin]; [done|by apply (subseteq_take (destsize - length t1 - 1)) in Hin]).
  assert (t1 ++ t2 = take (destsize - 1) (s1 ++ s2)) as Hcat.
  { rewrite take_app. subst t1 t2. do 2 f_equal. rewrite Lt1. subst m. lia. }
  assert (length t1 + length t2 + 1 = k) as Hk by (subst k t2; len).
  rewrite (app_assoc t1 t2), !cstr_app, <- Hcat by done. split_and!; [done|done| | | |].
  - rewrite (cons_middle NUL), app_assoc, drop_overlay by (rewrite ?length_app; cbn [length]; lia).
    rewrite (cons_middle NUL), app_assoc. subst r. apply drop_overlay; rewrite ?length_app; cbn [length]; lia.
  - rewrite (cons_middle NUL), app_assoc, length_overlay; [done|rewrite !length_app; cbn [length]; lia|rewrite Ld; subst k; lia].
  - split; [intros Hlt; subst t1; by rewrite take_ge by lia|]. intros [= E]. rewrite E in Lt1. subst m. lia.
  - intros Hlt. assert (t1 = s1) as E1 by (subst t1; by rewrite take_ge by lia). split.
    + intros Hn. assert (t2 = s2) as -> by (subst t2; apply take_ge; lia). by rewrite E1.
    + intros [= E]. apply (f_equal length) in E. rewrite !length_app in E. subst k. lia.
Qed.

Lemma strlcpy_strlcat_bounded_witness :
  ∃ n1 n2 d1 d2, strlcpy (replicate 9 "z"%char) (str "route") 8 = Some (n1, d1) ∧ strlcat d1 (str "-map") 8 = Some (n2, d2)
    ∧ cstr d1 = Some (str "route") ∧ cstr d2 = Some (str "route-m").
Proof.
  destruct (strlcpy_strlcat_bounded (replicate 9 "z"%char) (str "route") (str "-map") 8) as (n1 & n2 & d1 & d2 & E1 & E2 & C1 & C2 & _).
  - cbn. lia.
  - by apply (bool_decide_unpack _); vm_compute.
  - by apply (bool_decide_unpack _); vm_compute.
  - exists n1, n2, d1, d2. split; [exact E1|]. split; [exact E2|]. split; [exact C1|exact C2].
Defined.

(** ** Replacing *)

Lemma strncmp_take a b : strncmp_eq a b (length b) = true ↔ take (length b) a = b.
Proof.
  revert a. induction b as [|y b IH]; intros [|x a]; cbn; [done..|].
  rewrite andb_true_iff, bool_decide_eq_true, IH. split; [by intros [-> ->]|]. by intros [= -> ->].
Qed.

Lemma strstr_Some s find a b : strstr s find = Some (a, b) → s = a ++ b ∧ take (length find) b = find.
Proof.
  revert a b. induction s as [|x s IH]; intros a b; cbn [strstr].
  - destruct (strncmp_eq [] find (length find)) eqn:E; [|done]. intros [= <- <-]. by apply strncmp_take in E.
  - destruct (strncmp_eq (x :: s) find (length find)) eqn:E; [intros [= <- <-]; by apply strncmp_take in E|].
    destruct (strstr s find) as [[a' b']|]; [|done]. cbn. intros [= <- <-]. destruct (IH _ _ eq_refl) as [-> H]. done.
Qed.

Lemma strstr_occurs s find : is_Some (strstr s find) ↔ ∃ a b, s = a ++ find ++ b.
Proof.
  split.
  - intros [[a b] (-> & <-)%strstr_Some]. exists a, (drop (length find) b). by rewrite take_drop.
  - intros (a & b & ->). induction a as [|x a IH]; cbn [app].
    + assert (strncmp_eq (find ++ b) find (length find) = true) as E by (apply strncmp_take, take_app_length).
      destruct (find ++ b); cbn [strstr]; rewrite E; eauto.
    + cbn [strstr]. destruct (strncmp_eq _ _ _); [eauto|]. destruct IH as [[c d] ->]. cbn. eauto.
Qed.

(** One turn of the loop. *)
Lemma replace_turn fuel find replace s a b cap : strstr s find = Some (a, b) → length s + 1 ≤ cap →
  replace_loop (S fuel) find replace s cap =
  replace_loop fuel find replace (a ++ replace ++ drop (length find) b)
    (if length find <? length replace then length s + length replace - length find + 1 else cap)
  ∧ length (a ++ replace ++ drop (length find) b) + length find = length s + length replace.
Proof.
  intros E Hcap. destruct (strstr_Some _ _ _ _ E) as [-> Hf]. cbn [replace_loop]. rewrite E.
  apply (f_equal length) in Hf. rewrite length_take in Hf. rewrite length_app in Hcap.
  rewrite decide_True.
  - split; [done|]. rewrite !length_app, length_drop. lia.
  - rewrite !length_app, length_drop. destruct (Nat.ltb_spec (length find) (length replace)); lia.
Qed.

Definition subst_char (c : ascii) (replace s : cstring) : cstring :=
  concat (map (λ x, if decide (x = c) then replace else [x]) s).

Lemma strstr_char c s : c ∉ s → strstr s [c] = None.
Proof.
  intros H. apply eq_None_not_Some. intros (a & b & ->)%strstr_occurs. apply H. rewrite !elem_of_app. right. left. left.
Qed.

Lemma strstr_char_first c a b : c ∉ a → strstr (a ++ c :: b) [c] = Some (a, c :: b).
Proof.
  induction a as [|x a IH]; intros Ha; cbn [app].
  - assert (strncmp_eq (c :: b) [c] (length [c]) = true) as E by (by apply strncmp_take). cbn [strstr]. by rewrite E.
  - apply not_elem_of_cons in Ha as [Hx Ha]. cbn. rewrite bool_decide_eq_false_2 by congruence. cbn. by rewrite IH.
Qed.

Lemma subst_char_id c r s : c ∉ s → subst_char c r s = s.
Proof.
  induction s as [|x s IH]; intros H; [done|]. apply not_elem_of_cons in H as [Hx H].
  unfold subst_char. cbn. rewrite decide_False by congruence. cbn. f_equal. by apply IH.
Qed.

Lemma subst_char_app c r s t : subst_char c r (s ++ t) = subst_char c r s ++ subst_char c r t.
Proof. unfold subst_char. by rewrite map_app, concat_app. Qed.

Lemma first_char (c : ascii) (s : cstring) : c ∈ s → ∃ a b, s = a ++ c :: b ∧ c ∉ a.
Proof. intros (a & b & -> & H)%list_elem_of_split_l. by exists a, b. Qed.

(** Replacing a character: the text before the first occurrence is final. *)
Lemma replace_char_loop c r fuel : c ∉ r → ∀ s cap, length (filter (λ x, x = c) s) ≤ fuel → length s + 1 ≤ cap →
  replace_loop fuel [c] r s cap = Some (subst_char c r s).
Proof.
  intros Hr. induction fuel as [|fuel IH]; intros s cap Hf Hcap; (destruct (decide (c ∈ s)) as [Hin|Hout];
    [|by cbn [replace_loop]; rewrite (strstr_char c s Hout), (subst_char_id c r s Hout)]).
  { pose proof (filter_member (λ x, x = c) s c Hin eq_refl). lia. }
  destruct (first_char c s Hin) as (a & b & -> & Ha).
  destruct (replace_turn fuel [c] r (a ++ c :: b) a (c :: b) cap (strstr_char_first c a b Ha) Hcap) as [-> Hlen]. cbn [length] in *. change (drop 1 (c :: b)) with b in *.
  rewrite filter_app, filter_cons_True, length_app in Hf by done. cbn [length] in Hf.
  assert (filter (λ x, x = c) r = []) as Hr0 by (apply filter_none; intros x Hx ->; done).
  rewrite IH.
  - rewrite !subst_char_app, (subst_char_id c r r Hr), (subst_char_id c r a Ha). do 2 f_equal.
    unfold subst_char. cbn. by rewrite decide_True.
  - rewrite !filter_app, !length_app, Hr0. cbn [length]. lia.
  - destruct (Nat.ltb_spec 1 (length r)); lia.
Qed.

(** C27: [frrstr_replace] and its loop.  When a character is replaced by a text
    without it, the result has every occurrence replaced.  When the
    replacement is shorter than the pattern, the loop stops and the result does
    not contain the pattern.  When the replacement contains the pattern and the
    string has an occurrence, the loop never ends. *)
Theorem frrstr_replace_outcome (s find replace : cstring) :
  (∀ c fuel, find = [c] → c ∉ replace → length s ≤ fuel → frrstr_replace fuel s find replace = Some (subst_char c replace s))
  ∧ (∀ fuel, length replace < length find → length s ≤ fuel →
       ∃ r, frrstr_replace fuel s find replace = Some r ∧ strstr r find = None)
  ∧ (∀ fuel, is_Some (strstr replace find) → is_Some (strstr s find) → frrstr_replace fuel s find replace = None).
Proof.
  split_and!.
  - intros c fuel -> Hc Hf. apply replace_char_loop; [done| |done]. pose proof (length_filter (λ x, x = c) s). lia.
  - intros fuel Hr. unfold frrstr_replace.
    enough (∀ s cap, length s ≤ fuel → length s + 1 ≤ cap → ∃ r, replace_loop fuel find replace s cap = Some r ∧ strstr r find = None) as H by auto.
    clear s. induction fuel as [|fuel IH]; intros s cap Hs Hcap; (destruct (strstr s find) as [[a b]|] eqn:E;
      [|exists s; cbn [replace_loop]; by rewrite E]).
    + apply strstr_Some in E as [-> Hb]. destruct a, b; cbn in Hs; [|lia..]. rewrite firstn_nil in Hb. subst find. cbn in Hr. lia.
    + destruct (replace_turn fuel find replace s a b cap E Hcap) as [-> Hlen].
      apply IH; [lia|]. destruct (Nat.ltb_spec (length find) (length replace)); lia.
  - intros fuel Hr. unfold frrstr_replace. generalize (length s + 1). revert s.
    apply strstr_occurs in Hr as (u & v & ->).
    induction fuel as [|fuel IH]; intros s cap [[a b] E]; cbn [replace_loop]; rewrite E; [done|].
    destruct (decide _); [|done]. apply IH. apply strstr_occurs. exists (a ++ u), (v ++ drop (length find) b). by rewrite <- !app_assoc.
Qed.

(** ** Filtering *)

Lemma filter_vec_loop_spec (regexec : cstring → bool) n (q : list cstring) :
  let f := λ s : cstring, if regexec s then None else Some s in
  ∀ (p : list (option cstring)) fuel, fits (p ++ (Some <$> q)) n → length q ≤ fuel →
  filter_vec_loop fuel regexec (mkv (p ++ (Some <$> q)) n) (length p)
  = Some (mkv (if q is [] then p else rstrip (p ++ map f q)) n).
Proof.
  intros f. induction q as [|s q IH]; intros p fuel Hfit Hf.
  { assert (∀ v : vector cstring, vector_active v ≤ length p → filter_vec_loop fuel regexec v (length p) = Some v) as Hend.
    { intros v Hv. destruct fuel; cbn [filter_vec_loop]; by rewrite decide_False by lia. }
    rewrite Hend; [by rewrite app_nil_r|]. cbn. rewrite app_nil_r. done. }
  destruct fuel as [|fuel]; [cbn in Hf; lia|]. cbn [length] in Hf. cbn [filter_vec_loop].
  rewrite decide_True by (cbn; rewrite length_app; cbn [length fmap list_fmap]; lia).
  assert (vector_slot (mkv (p ++ (Some <$> s :: q)) n) (length p) = Some (Some s)) as Hs.
  { unfold vector_slot, mkv, pad. cbn [index]. rewrite <- app_assoc, lookup_app_r, Nat.sub_diag by lia. done. }
  rewrite Hs. do 2 ostep.
  assert (∀ v, length (p ++ [v]) = length p + 1) as Hl by (intros v; rewrite length_app; done).
  assert (f s = if regexec s then None else Some s) as Hfs by done. clearbody f. destruct (regexec s) eqn:Er.
  - destruct (vector_unset_spec (p ++ (Some <$> s :: q)) n (length p) Hfit) as [-> Hfit']. ostep. unfold unset_at in *.
    destruct q as [|s' q].
    + rewrite (proj2 (Nat.eqb_eq _ _)) by (rewrite length_app; done). rewrite take_app_length. cbn [map]. rewrite Hfs, rstrip_snoc_None.
      assert (vector_active (mkv (rstrip p) n) ≤ length p) by (cbn; apply rstrip_length).
      destruct fuel; cbn [filter_vec_loop]; by rewrite decide_False by lia.
    + rewrite (proj2 (Nat.eqb_neq _ _)) in Hfit' |- * by (rewrite length_app; cbn [length fmap list_fmap]; lia).
      assert (<[length p := None]> (p ++ (Some <$> s :: s' :: q)) = (p ++ [None]) ++ (Some <$> s' :: q)) as E.
      { rewrite insert_app_r_alt, Nat.sub_diag by done. by rewrite <- app_assoc. }
      rewrite E in Hfit' |- *. rewrite <- (Hl None), IH by (done || lia). cbn [map]. rewrite Hfs, <- app_assoc. done.
  - ostep. assert (p ++ (Some <$> s :: q) = (p ++ [Some s]) ++ (Some <$> q)) as E by (by rewrite <- app_assoc). rewrite E in Hfit |- *.
    rewrite <- (Hl (Some s)), IH by (done || lia). destruct q as [|s' q].
    + cbn [map]. by rewrite Hfs, rstrip_snoc_Some.
    + cbn [map]. by rewrite Hfs, <- app_assoc.
Qed.

(** [frrstr_filter_vec] on a vector of strings: the strings that do not
    match become null slots, the others stay where they are, and the vector ends
    at its last string that matches. *)
Theorem frrstr_filter_vec_correct (regexec : cstring → bool) (v : vector cstring) (l : list cstring) :
  wf v → contents v = Some <$> l →
  ∃ v', frrstr_filter_vec regexec v = Some v' ∧ wf v'
    ∧ contents v' = rstrip (map (λ s, if regexec s then None else Some s) l).
Proof.
  intros Hwf Hc. destruct (wf_inv v Hwf) as (l' & n & -> & Hfit). rewrite contents_mkv in Hc. subst l'.
  pose proof (filter_vec_loop_spec regexec n l [] (length l) Hfit ltac:(done)) as E. cbn [app length] in E.
  unfold frrstr_filter_vec. replace (vector_active (mkv (Some <$> l) n)) with (length l) by (cbn; by rewrite length_fmap).
  eexists. split; [exact E|]. rewrite contents_mkv.
  assert ((match l with [] => [] | _ => rstrip (map (λ s, if regexec s then None else Some s) l) end)
    = rstrip (map (λ s, if regexec s then None else Some s) l)) as -> by (by destruct l).
  split; [|done]. apply wf_mkv. eapply fits_shrink; [exact Hfit|]. etrans; [apply rstrip_length|]. by rewrite length_map, length_fmap.
Qed.

Lemma frrstr_filter_vec_correct_witness :
  let v := mkv [Some (str "a"); Some (str "b"); Some (str "c")] 4 in
  ∃ v', frrstr_filter_vec (λ s, bool_decide (s ≠ str "b")) v = Some v' ∧ contents v' = [None; Some (str "b")].
Proof.
  destruct (frrstr_filter_vec_correct (λ s, bool_decide (s ≠ str "b")) (mkv [Some (str "a"); Some (str "b"); Some (str "c")] 4)
    [str "a"; str "b"; str "c"]) as (v' & E & _ & Hc).
  - apply wf_mkv. unfold fits. cbn. lia.
  - reflexivity.
  - exists v'. split; [exact E|]. rewrite Hc. reflexivity.
Defined.

(** ** Beginnings and ends *)

Theorem startswith_endswith (s p : cstring) :
  (frrstr_startswith (Some s) (Some p) = true ↔ ∃ r, s = p ++ r)
  ∧ (frrstr_endswith (Some s) (Some p) = true ↔ ∃ r, s = r ++ p).
Proof.
  unfold frrstr_startswith, frrstr_endswith. split; destruct (Nat.ltb_spec (length s) (length p)) as [Hlt|Hge].
  - split; [done|]. intros [r ->]. rewrite length_app in Hlt. lia.
  - rewrite strncmp_take. split; [intros <-; exists (drop (length p) s); by rewrite take_drop|]. intros [r ->]. apply take_app_length.
  - split; [done|]. intros [r ->]. rewrite length_app in Hlt. lia.
  - rewrite strncmp_take, take_ge by (rewrite length_drop; lia). split.
    + intros <-. exists (take (length s - length p) s). by rewrite take_drop.
    + intros [r ->]. rewrite length_app. replace (length r + length p - length p) with (length r) by lia. apply drop_app_length.
Qed.

Lemma all_digit_spec s : all_digit s = true ↔ Forall (λ c, isdigit c = true) s.
Proof.
  induction s as [|c s IH]; cbn; [done|]. rewrite Forall_cons. destruct (isdigit c); [rewrite IH; tauto|]. split; [done|by intros []].
Qed.
