(* ===== verification/Buffer.v ===== *)
(** * The output buffer of a VTY: lib/buffer.c

    A buffer is a list of chunks of [size] bytes.  A chunk keeps the bytes that
    were stored in it, [data] up to [cp], and the position [sp] of the first
    byte not flushed yet.  Chunks are told apart by an identity, as the code
    compares pointers.  A store past the end of a chunk is [None].

    The file descriptor is a world of its own: what the next calls of [write]
    and [writev] will do, the bytes accepted so far and [errno]. *)
From Stdlib Require Import Ascii String.
From stdpp Require Import prelude list.
From S2P Require Import Prelude CString.
Set Default Goal Selector "!".

Record buffer_data := Chunk { ident : nat; sp : nat; data : list Z }.
Definition cp (d : buffer_data) : nat := length (data d).

Record buffer := Buffer { chunks : list buffer_data; size : nat; fresh : nat }.

Inductive buffer_status := BUFFER_ERROR | BUFFER_EMPTY | BUFFER_PENDING.

#[export] Instance buffer_status_eq_dec : EqDecision buffer_status.
Proof. solve_decision. Defined.

(** ** Building up *)

Definition BUFFER_SIZE_DEFAULT : Z := 4096.

(** [pgsz] is the system's page size. *)
Definition buffer_new (pgsz : Z) (size : nat) : buffer :=
  Buffer [] (if decide (size = 0) then Z.to_nat (((BUFFER_SIZE_DEFAULT - 1) / pgsz + 1) * pgsz) else size) 0.

(** The bytes not flushed yet. *)
Definition pending (d : buffer_data) : list Z := drop (sp d) (data d).

(** The copy and the terminating NUL. *)
Definition buffer_getstr (b : buffer) : list Z := concat (pending <$> chunks b) ++ [0%Z].

Definition buffer_empty (b : buffer) : bool := match chunks b with [] => true | _ => false end.

Definition buffer_reset (b : buffer) : buffer := Buffer [] (size b) (fresh b).

Definition buffer_add (b : buffer) : buffer :=
  Buffer (chunks b ++ [Chunk (fresh b) 0 []]) (size b) (S (fresh b)).

(** The last chunk, changed. *)
Fixpoint on_last {A} (f : A → A) (l : list A) : list A :=
  match l with
  | [] => []
  | [x] => [f x]
  | x :: l => x :: on_last f l
  end.

(** [memcpy(data->data + data->cp, ptr, chunk); data->cp += chunk] on the last
    chunk. *)
Definition append (b : buffer) (bs : list Z) : option buffer :=
  match last (chunks b) with
  | Some d =>
      if decide (cp d + length bs ≤ size b) then
        Some (Buffer (on_last (λ d, Chunk (ident d) (sp d) (data d ++ bs)) (chunks b)) (size b) (fresh b))
      else None
  | None => None
  end.

(** [if (data == NULL || data->cp == b->size) data = buffer_add(b)]; the
    variable [data] is the last chunk throughout. *)
Definition make_room (b : buffer) : buffer :=
  match last (chunks b) with
  | Some d => if decide (cp d = size b) then buffer_add b else b
  | None => buffer_add b
  end.

(** [b->size - data->cp] of the last chunk. *)
Definition avail (b : buffer) : nat :=
  match last (chunks b) with Some d => size b - cp d | None => 0 end.

Fixpoint buffer_put_loop (fuel : nat) (b : buffer) (p : list Z) : option buffer :=
  match p with
  | [] => Some b
  | _ =>
      match fuel with
      | 0 => None
      | S fuel =>
          let b := make_room b in
          let chunk := if decide (length p ≤ avail b) then length p else avail b in
          b ← append b (take chunk p);
          buffer_put_loop fuel b (drop chunk p)
      end
  end.

(** Every round stores at least one byte. *)
Definition buffer_put (b : buffer) (p : list Z) : option buffer := buffer_put_loop (length p) b p.

Definition buffer_putc (b : buffer) (c : Z) : option buffer := buffer_put b [u8 c].

Definition buffer_putstr (b : buffer) (c : cstring) : option buffer := buffer_put b (code <$> c).

Definition LF : Z := 10.
Definition CR : Z := 13.

(** [memchr(p, '\n', end - p)] *)
Fixpoint memchr_lf (p : list Z) : option nat :=
  match p with
  | [] => None
  | c :: p => if decide (c = LF) then Some 0 else S <$> memchr_lf p
  end.

(** [if (data->cp == b->size) data = buffer_add(b); data->data[data->cp++] = c] *)
Definition append_char (b : buffer) (c : Z) : option buffer := append (make_room b) [c].

Fixpoint put_crlf_loop (fuel : nat) (b : buffer) (p : list Z) : option buffer :=
  match p with
  | [] => Some b
  | _ =>
      match fuel with
      | 0 => None
      | S fuel =>
          let lf := memchr_lf p in
          let b := make_room b in
          let size := match lf with Some n => n | None => length p end in
          let avail := avail b in
          let chunk := if decide (size ≤ avail) then size else avail in
          b ← append b (take chunk p);
          let p := drop chunk p in
          if decide (is_Some lf ∧ size ≤ avail) then
            b ← append_char b CR;
            b ← append_char b LF;
            put_crlf_loop fuel b (drop 1 p)
          else put_crlf_loop fuel b p
      end
  end.

(** A line feed consumes a byte, and so does every other round. *)
Definition buffer_put_crlf (b : buffer) (origp : list Z) : option buffer := put_crlf_loop (length origp) b origp.

(** ** Flushing *)

Inductive errno := EAGAIN | EINTR | EOTHER.

(** [ERRNO_IO_RETRY] *)
Definition io_retry (e : errno) : bool := match e with EOTHER => false | _ => true end.

Record fd_state := Fd {
  outcomes : list (nat + errno);   (* how many bytes the next calls accept, or their error *)
  out : list Z;                    (* the bytes accepted *)
  last_errno : errno;
}.

(** [write]/[writev] of [bs]: the number of bytes accepted, never more than
    there are, or an error. Without further outcomes the call would block. *)
Definition writev (f : fd_state) (bs : list Z) : (nat + errno) * fd_state :=
  match outcomes f with
  | [] => (inr EAGAIN, Fd [] (out f) EAGAIN)
  | inr e :: rest => (inr e, Fd rest (out f) e)
  | inl n :: rest =>
      let n := n `min` length bs in
      (inl n, Fd rest (out f ++ take n bs) (last_errno f))
  end.

Definition MAX_CHUNKS : nat := 16.
Definition MAX_FLUSH : Z := 131072.

(** The chunks that one call writes. *)
Fixpoint gather (l : list buffer_data) (iovcnt nbyte : nat) : list (list Z) :=
  match l with
  | [] => []
  | d :: l =>
      if decide ((iovcnt < MAX_CHUNKS)%nat ∧ Z.of_nat nbyte < MAX_FLUSH)%Z
      then pending d :: gather l (S iovcnt) (nbyte + (cp d - sp d))
      else []
  end.

(** [while (written > 0)]: drop written bytes from the front. The flag says
    that the loop returned from inside a chunk. *)
Fixpoint consume (written : nat) (l : list buffer_data) : bool * list buffer_data :=
  match written, l with
  | 0, _ => (false, l)
  | _, [] => (false, [])
  | _, d :: l' =>
      if decide (written < cp d - sp d)
      then (true, Chunk (ident d) (sp d + written) (data d) :: l')
      else consume (written - (cp d - sp d)) l'
  end.

Definition state_of (l : list buffer_data) : buffer_status := match l with [] => BUFFER_EMPTY | _ => BUFFER_PENDING end.

Definition buffer_flush_available (b : buffer) (fd : Z) (f : fd_state) : buffer_status * buffer * fd_state :=
  if (fd <? 0)%Z then (BUFFER_ERROR, b, f)
  else
    let bs := concat (gather (chunks b) 0 0) in
    match bs with
    | [] => (BUFFER_EMPTY, b, f)
    | _ =>
        match writev f bs with
        | (inr e, f) => (if io_retry e then BUFFER_PENDING else BUFFER_ERROR, b, f)
        | (inl written, f) =>
            let '(inside, l) := consume written (chunks b) in
            (if inside then BUFFER_PENDING else state_of l, Buffer l (size b) (fresh b), f)
        end
    end.

(** Identity and position of the first chunk. *)
Definition head_pos (b : buffer) : option (nat * nat) := d ← head (chunks b); Some (ident d, sp d).

Fixpoint flush_all_loop (fuel : nat) (b : buffer) (fd : Z) (f : fd_state) (pos : option (nat * nat)) :
    option (buffer_status * buffer * fd_state) :=
  match fuel with
  | 0 => None
  | S fuel =>
      let '(ret, b, f) := buffer_flush_available b fd f in
      if decide (ret = BUFFER_PENDING) then
        if decide (head_pos b = pos) then
          match last_errno f with
          | EINTR => flush_all_loop fuel b fd f (head_pos b)
          | _ => Some (ret, b, f)
          end
        else flush_all_loop fuel b fd f (head_pos b)
      else Some (ret, b, f)
  end.

(** The fuel covers every outcome the descriptor still has. *)
Definition buffer_flush_all (b : buffer) (fd : Z) (f : fd_state) : option (buffer_status * buffer * fd_state) :=
  match chunks b with
  | [] => Some (BUFFER_EMPTY, b, f)
  | _ => flush_all_loop (S (S (length (outcomes f)))) b fd f (head_pos b)
  end.

Definition buffer_write (b : buffer) (f : fd_state) (p : list Z) : option (buffer_status * buffer * fd_state) :=
  match chunks b with
  | _ :: _ => b ← buffer_put b p; Some (state_of (chunks b), b, f)
  | [] =>
      match writev f p with
      | (inr e, f) =>
          if io_retry e then b ← buffer_put b p; Some (state_of (chunks b), b, f)
          else Some (BUFFER_ERROR, b, f)
      | (inl written, f) => b ← buffer_put b (drop written p); Some (state_of (chunks b), b, f)
      end
  end.

(** ** Flushing a window *)

Definition more : list Z := (code <$> str " --More-- ") ++ [0%Z].
Definition erase : list Z := replicate 10 8%Z ++ replicate 10 32%Z ++ replicate 10 8%Z.

(** [while ((cp < data->cp) && (height > 0))]: how many bytes are shown, and
    the column and the lines left after them. *)
Fixpoint show (width : Z) (column height : Z) (bs : list Z) : nat * Z * Z :=
  match bs with
  | [] => (0, column, height)
  | c :: bs =>
      if (0 <? height)%Z then
        let '(column, height) :=
          if decide (c = CR) then (1, height)%Z
          else if decide (c = LF ∨ column = width) then (1, height - 1)%Z
          else (column + 1, height)%Z in
        let '(n, column, height) := show width column height bs in (S n, column, height)
      else (0, column, height)
  end.

(** The loop over the chunks: the pieces to write and the chunks after it. *)
Fixpoint window_loop (width column height : Z) (l : list buffer_data) : list (list Z) * list buffer_data :=
  match l with
  | [] => ([], [])
  | d :: l =>
      if (0 <? height)%Z then
        let '(n, column, height) := show width column height (pending d) in
        let '(iov, l) := window_loop width column height l in
        (take n (pending d) :: iov, Chunk (ident d) (sp d + n) (data d) :: l)
      else ([], d :: l)
  end.

Definition IOV_MAX : nat := 1024.

(** [while (iov_index > 0)]: write in groups of [IOV_MAX] pieces; how many
    bytes a call accepted is not looked at. *)
Fixpoint write_groups (fuel : nat) (f : fd_state) (iov : list (list Z)) : bool * fd_state :=
  match fuel, iov with
  | 0, _ | _, [] => (true, f)
  | S fuel, _ =>
      match writev f (concat (take IOV_MAX iov)) with
      | (inr _, f) => (false, f)
      | (inl _, f) => write_groups fuel f (drop IOV_MAX iov)
      end
  end.

(** [while (b->head && (b->head->sp == b->head->cp))] *)
Fixpoint drop_flushed (l : list buffer_data) : list buffer_data :=
  match l with
  | [] => []
  | d :: l' => if decide (sp d = cp d) then drop_flushed l' else l
  end.

Definition buffer_flush_window (b : buffer) (width height : Z) (erase_flag no_more_flag : bool) (f : fd_state) :
    buffer_status * buffer * fd_state :=
  match chunks b with
  | [] => (BUFFER_EMPTY, b, f)
  | _ =>
      let height := (if height <? 1 then 1 else if 2 <=? height then height - 1 else height)%Z in
      let width := (if width <? 1 then 1 else width)%Z in
      let '(iov, l) := window_loop width 1 height (chunks b) in
      let iov := (if erase_flag then [erase] else []) ++ iov in
      let iov := iov ++
        match last l with
        | Some d => if decide (sp d < cp d ∧ no_more_flag = false) then [more] else []
        | None => []
        end in
      let '(ok, f) := write_groups (length iov) f iov in
      let l := drop_flushed l in
      (if ok then state_of l else BUFFER_ERROR, Buffer l (size b) (fresh b), f)
  end.

(** ** The buffer as a queue of bytes *)

Definition contents (b : buffer) : list Z := concat (pending <$> chunks b).

(** "It should always be true that: 0 <= sp <= cp <= size"; moreover every
    chunk has something to flush. *)
Definition chunk_ok (n : nat) (d : buffer_data) : Prop := sp d < cp d ≤ n.
Definition buffer_ok (b : buffer) : Prop := 0 < size b ∧ Forall (chunk_ok (size b)) (chunks b).

(** While a byte is being added the last chunk may be empty. *)
Definition filling (b : buffer) : Prop :=
  0 < size b ∧ ∃ l d, chunks b = l ++ [d] ∧ Forall (chunk_ok (size b)) l ∧ sp d ≤ cp d ≤ size b.

Lemma on_last_snoc {A} (f : A → A) l x : on_last f (l ++ [x]) = l ++ [f x].
Proof. induction l as [|y l IH]; [done|]. cbn. rewrite IH. by destruct l. Qed.

Lemma pending_length d : length (pending d) = cp d - sp d.
Proof. unfold pending. apply length_drop. Qed.

Lemma append_spec b bs : filling b → length bs ≤ avail b →
  ∃ b', append b bs = Some b' ∧ filling b' ∧ size b' = size b ∧ contents b' = contents b ++ bs
    ∧ avail b' = avail b - length bs ∧ (bs ≠ [] → buffer_ok b').
Proof.
  intros (Hs & l & d & Hl & Hok & Hd) Hbs. unfold append, avail in *. rewrite Hl, last_snoc in *.
  unfold cp in *. rewrite decide_True by lia. eexists. split; [done|]. cbn. rewrite on_last_snoc.
  assert (contents (Buffer (l ++ [Chunk (ident d) (sp d) (data d ++ bs)]) (size b) (fresh b)) = contents b ++ bs) as Ec.
  { unfold contents. rewrite Hl. cbn [chunks]. rewrite !fmap_app, !concat_app. cbn. rewrite !app_nil_r, <- app_assoc.
    f_equal. unfold pending. cbn. by rewrite drop_app_le by lia. }
  split_and!.
  - split; [done|]. exists l, (Chunk (ident d) (sp d) (data d ++ bs)). split; [done|]. split; [done|].
    unfold cp. cbn. rewrite length_app. lia.
  - done.
  - exact Ec.
  - rewrite last_snoc. cbn. rewrite length_app. lia.
  - intros Hne. split; [done|]. cbn. apply Forall_app. split; [done|]. constructor; [|constructor].
    unfold chunk_ok, cp. cbn. rewrite length_app. destruct bs; [done|]. cbn [length] in *. lia.
Qed.

(** Room for at least one byte, the same contents. *)
Lemma make_room_spec b : buffer_ok b ∨ filling b → avail b ≠ 0 ∨ buffer_ok b →
  filling (make_room b) ∧ size (make_room b) = size b ∧ contents (make_room b) = contents b
  ∧ 0 < avail (make_room b).
Proof.
  intros Hb Ha.
  assert (buffer_ok b → filling (buffer_add b) ∧ contents (buffer_add b) = contents b ∧ avail (buffer_add b) = size b) as Hadd.
  { intros [Hs Hok]. split_and!.
    - split; [done|]. exists (chunks b), (Chunk (fresh b) 0 []). split; [done|]. split; [done|]. cbn. lia.
    - unfold contents, buffer_add. cbn. rewrite fmap_app, concat_app. cbn. by rewrite app_nil_r.
    - unfold avail, buffer_add. cbn. rewrite last_snoc. cbn. lia. }
  unfold make_room. destruct (last (chunks b)) as [d|] eqn:El.
  - case_decide as Hd.
    + destruct Ha as [Ha|Ha]; [unfold avail in Ha; rewrite El in Ha; lia|].
      destruct (Hadd Ha) as (H1 & H2 & H3). split_and!; [done|done|done|]. rewrite H3. apply Ha.
    + assert (filling b) as Hf.
      { destruct Hb as [[Hs Hok]|?]; [|done]. apply last_Some in El as [l El]. split; [done|]. exists l, d.
        rewrite El in Hok. apply Forall_app in Hok as [Hok Hd']. split; [done|]. split; [done|].
        rewrite Forall_singleton in Hd'. unfold chunk_ok in Hd'. lia. }
      split_and!; [done|done|done|]. destruct Hf as (_ & l & d' & E & _ & Hd'). unfold avail.
      rewrite E, last_snoc in *. injection El as ->. lia.
  - apply last_None in El. assert (buffer_ok b) as Hok.
    { destruct Hb as [?|(? & l & d & E & _)]; [done|]. rewrite El in E. by destruct l. }
    destruct (Hadd Hok) as (H1 & H2 & H3). split_and!; [done|done|done|]. rewrite H3. apply Hok.
Qed.

Lemma buffer_put_loop_spec fuel b p : buffer_ok b → length p ≤ fuel →
  ∃ b', buffer_put_loop fuel b p = Some b' ∧ buffer_ok b' ∧ size b' = size b ∧ contents b' = contents b ++ p.
Proof.
  revert b p. induction fuel as [|fuel IH]; intros b p Hb Hp.
  { destruct p; [|cbn in Hp; lia]. exists b. by rewrite app_nil_r. }
  destruct p as [|c p]; [exists b; by rewrite app_nil_r|]. cbn [buffer_put_loop]. cbv zeta.
  destruct (make_room_spec b) as (Hf & Hs & Hc & Hav); [by left|by right|].
  set (n := if decide _ then _ else _). set (p' := c :: p) in *. assert (length p' = S (length p)) as Lp by done.
  assert (0 < n ≤ avail (make_room b) ∧ n ≤ length p') as Hn by (unfold n; case_decide; lia).
  destruct (append_spec (make_room b) (take n p')) as (b1 & E1 & _ & Hs1 & Hc1 & _ & Hok1); [done|rewrite length_take; lia|].
  rewrite E1. obind.
  destruct (IH b1 (drop n p')) as (b' & E & Hok & Hs' & Hc'); [|rewrite length_drop; lia|].
  { apply Hok1. intros Ht. apply (f_equal length) in Ht. rewrite length_take in Ht. cbn [length] in Ht. lia. }
  exists b'. split; [done|]. split; [done|]. split; [congruence|]. rewrite Hc', Hc1, Hc, <- app_assoc. f_equal. apply take_drop.
Qed.

Lemma buffer_put_spec b p : buffer_ok b →
  ∃ b', buffer_put b p = Some b' ∧ buffer_ok b' ∧ size b' = size b ∧ contents b' = contents b ++ p.
Proof. intros. by apply buffer_put_loop_spec. Qed.

(** *** Line ends *)

(** Every line feed becomes a carriage return and a line feed. *)
Definition crlf (p : list Z) : list Z := p ≫= λ c, if decide (c = LF) then [CR; LF] else [c].

Lemma memchr_lf_None p : memchr_lf p = None → crlf p = p.
Proof.
  induction p as [|c p IH]; [done|]. cbn. case_decide; [done|]. destruct (memchr_lf p); [done|].
  intros _. cbn. f_equal. by apply IH.
Qed.

Lemma memchr_lf_Some p n : memchr_lf p = Some n →
  n < length p ∧ crlf p = take n p ++ [CR; LF] ++ crlf (drop (S n) p).
Proof.
  revert n. induction p as [|c p IH]; intros n; [done|]. cbn. case_decide as Hc.
  - intros [= <-]. cbn. rewrite ?drop_0. split; [lia|done].
  - destruct (memchr_lf p) as [m|]; [|done]. intros [= <-]. destruct (IH m eq_refl) as [H1 H2].
    split; [lia|]. cbn. f_equal. exact H2.
Qed.

(** A line break found at [n] is still found after dropping bytes before it. *)
Lemma crlf_drop p n k : memchr_lf p = Some n → k ≤ n → crlf p = take k p ++ crlf (drop k p).
Proof.
  revert n k. induction p as [|c p IH]; intros n [|k]; [done..|]. cbn. case_decide as Hc.
  - intros [= <-] Hk. lia.
  - destruct (memchr_lf p) as [m|]; [|done]. intros [= <-] Hk. cbn. f_equal. apply (IH m); [done|lia].
Qed.

Lemma memchr_lf_drop p k : memchr_lf p = None → memchr_lf (drop k p) = None.
Proof.
  revert k. induction p as [|c p IH]; intros [|k]; [done..|]. cbn. case_decide; [done|].
  destruct (memchr_lf p); [done|]. intros _. by apply IH.
Qed.

Lemma append_char_spec b c : filling b ∨ buffer_ok b → avail b ≠ 0 ∨ buffer_ok b →
  ∃ b', append_char b c = Some b' ∧ buffer_ok b' ∧ size b' = size b ∧ contents b' = contents b ++ [c].
Proof.
  intros Hf Ha. destruct (make_room_spec b) as (Hf' & Hs & Hc & Hav); [tauto|done|].
  destruct (append_spec (make_room b) [c]) as (b' & E & _ & Hs' & Hc' & _ & Hok); [done|cbn; lia|].
  exists b'. unfold append_char. rewrite E, Hc', Hc, Hs', Hs. split; [done|]. by split; [apply Hok|].
Qed.

(** Storing up to a line break: either something was stored, or there is room
    left for the line end. *)
Lemma store_spec b q : buffer_ok b → length q ≤ avail (make_room b) →
  ∃ b', append (make_room b) q = Some b' ∧ (filling b' ∨ buffer_ok b') ∧ (avail b' ≠ 0 ∨ buffer_ok b')
    ∧ (q ≠ [] → buffer_ok b') ∧ size b' = size b ∧ contents b' = contents b ++ q.
Proof.
  intros Hb Hq. destruct (make_room_spec b) as (Hf & Hs & Hc & Hav); [by left|by right|].
  destruct (append_spec (make_room b) q) as (b' & E & Hf' & Hs' & Hc' & Ha' & Hok); [done|done|].
  exists b'. split; [done|]. split; [by left|]. split; [|split; [done|split; congruence]].
  destruct q as [|c q]; [left; cbn in Ha'; lia|right; by apply Hok].
Qed.

Lemma put_crlf_loop_spec fuel b p : buffer_ok b → length p ≤ fuel →
  ∃ b', put_crlf_loop fuel b p = Some b' ∧ buffer_ok b' ∧ size b' = size b ∧ contents b' = contents b ++ crlf p.
Proof.
  revert b p. induction fuel as [|fuel IH]; intros b p Hb Hp.
  { destruct p; [|cbn in Hp; lia]. exists b. by rewrite app_nil_r. }
  destruct p as [|c p]; [exists b; by rewrite app_nil_r|]. cbn [put_crlf_loop]. cbv zeta. set (p' := c :: p) in *.
  assert (length p' = S (length p)) as Lp by done.
  destruct (make_room_spec b) as (_ & _ & _ & Hav); [by left|by right|].
  set (sz := match memchr_lf p' with Some n => n | None => length p' end).
  assert (sz ≤ length p') as Hsz by (unfold sz; destruct (memchr_lf p') eqn:E; [apply memchr_lf_Some in E|]; lia).
  set (n := if decide _ then _ else _).
  assert (n ≤ avail (make_room b) ∧ n ≤ sz) as Hn by (unfold n; case_decide; lia).
  destruct (store_spec b (take n p')) as (b1 & E1 & F1 & A1 & O1 & S1 & C1); [done|rewrite length_take; lia|].
  rewrite E1. obind. case_decide as Hlf.
  - destruct Hlf as [[k Hk] Hle]. assert (n = k) as -> by (unfold n, sz in *; rewrite Hk in *; by rewrite decide_True).
    destruct (append_char_spec b1 CR) as (b2 & E2 & O2 & S2 & C2); [tauto|done|]. rewrite E2. obind.
    destruct (append_char_spec b2 LF) as (b3 & E3 & O3 & S3 & C3); [by right|by right|]. rewrite E3. obind.
    destruct (memchr_lf_Some _ _ Hk) as [Hlt Hcr].
    destruct (IH b3 (drop 1 (drop k p'))) as (b' & E & Hok & Hs & Hc); [done|rewrite !length_drop; lia|].
    exists b'. split; [done|]. split; [done|]. split; [congruence|].
    rewrite Hc, C3, C2, C1, Hcr, <- !app_assoc, drop_drop. by rewrite Nat.add_1_r.
  - assert (0 < n) as Hn0.
    { unfold n. case_decide as Hd; [|lia]. unfold sz in *. destruct (memchr_lf p') as [k|]; [|lia].
      exfalso. apply Hlf. split; [by eexists|done]. }
    destruct (IH b1 (drop n p')) as (b' & E & Hok & Hs & Hc); [|rewrite length_drop; lia|].
    { apply O1. intros Ht. apply (f_equal length) in Ht. rewrite length_take in Ht. cbn [length] in Ht. lia. }
    exists b'. split; [done|]. split; [done|]. split; [congruence|]. rewrite Hc, C1, <- app_assoc. f_equal.
    unfold sz in Hn. destruct (memchr_lf p') as [k|] eqn:Ek; [symmetry; apply (crlf_drop _ k); [done|lia]|].
    rewrite !memchr_lf_None by (done || by apply memchr_lf_drop). apply take_drop.
Qed.

(** *** Flushing keeps the order and loses nothing *)

Definition queued (l : list buffer_data) : list Z := concat (pending <$> l).

Lemma queued_cons d l : queued (d :: l) = pending d ++ queued l.
Proof. done. Qed.

Lemma gather_prefix l i n : ∃ rest, queued l = concat (gather l i n) ++ rest.
Proof.
  revert i n. induction l as [|d l IH]; intros i n; [by exists []|]. cbn [gather]. case_decide.
  - destruct (IH (S i) (n + (cp d - sp d))) as [rest E]. exists rest. unfold queued in *. cbn. by rewrite E, app_assoc.
  - by exists (queued (d :: l)).
Qed.

Lemma queued_nil n l : Forall (chunk_ok n) l → queued l = [] → l = [].
Proof.
  intros Hl. destruct Hl as [|d l Hd Hl]; [done|]. unfold queued. cbn. intros E. apply app_eq_nil in E as [E _].
  apply (f_equal length) in E. rewrite pending_length in E. unfold chunk_ok in Hd. cbn in E. lia.
Qed.

(** Something to flush is gathered when there is something. *)
Lemma gather_nil n l : Forall (chunk_ok n) l → concat (gather l 0 0) = [] → l = [].
Proof.
  intros Hl. destruct Hl as [|d l Hd Hl]; [done|]. cbn [gather].
  rewrite decide_True by (split; [unfold MAX_CHUNKS; lia|done]). cbn. intros E. apply app_eq_nil in E as [E _].
  apply (f_equal length) in E. rewrite pending_length in E. unfold chunk_ok in Hd. cbn in E. lia.
Qed.

Lemma consume_spec n w l : Forall (chunk_ok n) l → w ≤ length (queued l) →
  queued (consume w l).2 = drop w (queued l) ∧ Forall (chunk_ok n) (consume w l).2
  ∧ ((consume w l).1 = true → (consume w l).2 ≠ []).
Proof.
  intros Hl. revert w. induction Hl as [|d l Hd Hl IH]; intros w Hw.
  { cbn in *. destruct w; [|lia]. by rewrite drop_nil. }
  destruct w as [|w].
  { cbn. split; [done|]. split; [by constructor|done]. }
  cbn [consume]. unfold queued in *. cbn in Hw |- *. rewrite length_app, pending_length in Hw.
  unfold chunk_ok in Hd. case_decide as Hlt.
  - cbn. split_and!; [|constructor; [unfold chunk_ok, cp in *; cbn; lia|done]|done].
    rewrite drop_app_le by (rewrite pending_length; lia). unfold pending. cbn. by rewrite drop_drop.
  - destruct (IH (S w - (cp d - sp d))) as (H1 & H2 & H3); [lia|]. split_and!; [|done|done].
    rewrite H1, drop_app_ge by (rewrite pending_length; lia). by rewrite pending_length.
Qed.

Lemma writev_spec f bs : ∃ r f', writev f bs = (r, f') ∧
  match r with
  | inl n => n ≤ length bs ∧ out f' = out f ++ take n bs
  | inr e => out f' = out f ∧ last_errno f' = e
  end ∧ length (outcomes f') = length (outcomes f) - 1.
Proof.
  unfold writev. destruct (outcomes f) as [|[n|e] rest]; do 2 eexists; (split; [reflexivity|]); cbn.
  - done.
  - split; [split; [lia|done]|lia].
  - split; [done|lia].
Qed.

Lemma flush_available_spec b fd f : buffer_ok b → (0 ≤ fd)%Z →
  ∃ ret b' f', buffer_flush_available b fd f = (ret, b', f') ∧ buffer_ok b' ∧ size b' = size b
    ∧ out f' ++ contents b' = out f ++ contents b
    ∧ (ret = BUFFER_EMPTY → contents b' = []) ∧ (ret = BUFFER_PENDING → contents b' ≠ [])
    ∧ length (outcomes f') ≤ length (outcomes f)
    ∧ (ret = BUFFER_PENDING → outcomes f = [] → b' = b ∧ last_errno f' = EAGAIN)
    ∧ (ret = BUFFER_PENDING → outcomes f ≠ [] → length (outcomes f') < length (outcomes f)).
Proof.
  intros Hb Hfd. pose proof Hb as [Hs Hok]. unfold buffer_flush_available. destruct (Z.ltb_spec fd 0); [lia|].
  destruct (gather_prefix (chunks b) 0 0) as [rest Er].
  destruct (concat (gather (chunks b) 0 0)) as [|c bs] eqn:Eg.
  { apply (gather_nil _ _ Hok) in Eg. do 3 eexists. split; [reflexivity|]. unfold contents. rewrite Eg.
    split_and!; done || lia. }
  assert (concat (gather (chunks b) 0 0) ≠ []) as Hbs by (by rewrite Eg).
  rewrite <- Eg in *. clear Eg c bs. set (bs := concat _) in *.
  assert (contents b = queued (chunks b)) as Ecq by done.
  assert (contents b ≠ []) as Hne.
  { rewrite Ecq. intros Hn. pose proof (queued_nil _ _ Hok Hn) as Hc. unfold bs in Hbs. by rewrite Hc in Hbs. }
  destruct (writev_spec f bs) as (r & f' & Ew & Hr & Ho). rewrite Ew. destruct r as [w|e].
  - destruct Hr as [Hw Hout]. destruct (consume_spec (size b) w (chunks b) Hok) as (C1 & C2 & C3).
    { unfold queued in *. rewrite Er, length_app. lia. }
    destruct (consume w (chunks b)) as [ins l]. cbn in *.
    do 3 eexists. split; [reflexivity|]. assert (queued l = drop w (contents b)) as El by done. split_and!.
    + done.
    + done.
    + unfold contents at 1. cbn [chunks]. fold (queued l). rewrite Hout, El, Ecq, Er, <- app_assoc. f_equal.
      rewrite drop_app_le by done. rewrite app_assoc. by rewrite take_drop.
    + unfold contents. cbn [chunks]. destruct ins; [done|]. by destruct l.
    + unfold contents. cbn [chunks]. intros Hp Hn. apply (queued_nil _ _ C2) in Hn. destruct ins; [by apply C3|].
      by rewrite Hn in Hp.
    + lia.
    + intros _ Hn. unfold writev in Ew. by rewrite Hn in Ew.
    + intros _ Hn. destruct (outcomes f); [done|]. cbn in *. lia.
  - destruct Hr as [Hout He]. do 3 eexists. split; [reflexivity|]. split_and!; [done|done|by rewrite Hout| | |lia| |].
    + by destruct (io_retry e).
    + done.
    + intros _ Hn. unfold writev in Ew. rewrite Hn in Ew. by injection Ew as <- <-.
    + intros _ Hn. destruct (outcomes f); [done|]. cbn in *. lia.
Qed.

(** Flushing everything ends: every round uses up an outcome of the
    descriptor, and without outcomes the descriptor would block. *)
Lemma flush_all_loop_spec fuel b fd f : buffer_ok b → (0 ≤ fd)%Z → S (length (outcomes f)) < fuel →
  ∃ ret b' f', flush_all_loop fuel b fd f (head_pos b) = Some (ret, b', f') ∧ buffer_ok b' ∧ size b' = size b
    ∧ out f' ++ contents b' = out f ++ contents b
    ∧ (ret = BUFFER_EMPTY → contents b' = []) ∧ (ret = BUFFER_PENDING → contents b' ≠ []).
Proof.
  revert b f. induction fuel as [|fuel IH]; intros b f Hok Hfd Hf; [lia|]. cbn [flush_all_loop].
  destruct (flush_available_spec b fd f Hok Hfd) as (ret & b1 & f1 & E & Hok1 & Hs1 & Hq & He & Hp & Hle & Hend & Hdec).
  rewrite E. destruct (decide (ret = BUFFER_PENDING)) as [Hpend|Hn].
  - destruct (outcomes f) as [|o os] eqn:Eo.
    + destruct (Hend Hpend eq_refl) as [-> HA]. rewrite decide_True by done. rewrite HA. by do 3 eexists.
    + assert (length (outcomes f1) < S (length os)) as Hlt by (by apply Hdec).
      destruct (IH b1 f1 Hok1 Hfd) as (r2 & b2 & f2 & E2 & Ok2 & S2 & Q2 & He2 & Hp2); [cbn in Hf; lia|].
      assert (∃ r b' f', flush_all_loop fuel b1 fd f1 (head_pos b1) = Some (r, b', f') ∧ buffer_ok b' ∧ size b' = size b
        ∧ out f' ++ contents b' = out f ++ contents b ∧ (r = BUFFER_EMPTY → contents b' = []) ∧ (r = BUFFER_PENDING → contents b' ≠ []))
        as Hrec.
      { do 3 eexists. split; [exact E2|]. split; [done|]. split; [congruence|]. split; [congruence|]. done. }
      case_decide; [|exact Hrec]. destruct (last_errno f1); [|exact Hrec|]; by do 3 eexists.
  - do 3 eexists. by split; [reflexivity|].
Qed.

(** ** Histories *)

Inductive op :=
  | Put (p : list Z) | Putc (c : Z) | Putstr (s : cstring) | Put_crlf (p : list Z)
  | Write (p : list Z) | Flush (fd : Z) | Flush_all (fd : Z).

(** What an operation hands to the buffer. *)
Definition input (o : op) : list Z :=
  match o with
  | Put p | Write p => p
  | Putc c => [u8 c]
  | Putstr s => code <$> s
  | Put_crlf p => crlf p
  | Flush _ | Flush_all _ => []
  end.

Definition valid (o : op) : Prop := match o with Flush fd | Flush_all fd => (0 ≤ fd)%Z | _ => True end.

(** The status of an operation without one is that of the buffer. *)
Definition run (o : op) (b : buffer) (f : fd_state) : option (buffer_status * buffer * fd_state) :=
  match o with
  | Put p => b ← buffer_put b p; Some (state_of (chunks b), b, f)
  | Putc c => b ← buffer_putc b c; Some (state_of (chunks b), b, f)
  | Putstr s => b ← buffer_putstr b s; Some (state_of (chunks b), b, f)
  | Put_crlf p => b ← buffer_put_crlf b p; Some (state_of (chunks b), b, f)
  | Write p => buffer_write b f p
  | Flush fd => Some (buffer_flush_available b fd f)
  | Flush_all fd => buffer_flush_all b fd f
  end.

Lemma state_of_spec n l : Forall (chunk_ok n) l →
  (state_of l = BUFFER_EMPTY → queued l = []) ∧ (state_of l = BUFFER_PENDING → queued l ≠ []).
Proof.
  intros Hl. destruct l as [|d l]; [done|]. split; [done|]. intros _ E. by apply (queued_nil _ _ Hl) in E.
Qed.

(** One operation: it returns, keeps the invariant and, unless it reports an
    error, appends its input to the queue of bytes. *)
Lemma run_spec o b f : buffer_ok b → valid o →
  ∃ ret b' f', run o b f = Some (ret, b', f') ∧ buffer_ok b'
    ∧ (ret ≠ BUFFER_ERROR → out f' ++ contents b' = out f ++ contents b ++ input o)
    ∧ (ret = BUFFER_EMPTY → contents b' = []) ∧ (ret = BUFFER_PENDING → contents b' ≠ []).
Proof.
  intros Hok Hv.
  assert (∀ p f0 q, out f0 ++ contents b ++ p = out f ++ contents b ++ q → ∃ ret b' f',
    (b ← buffer_put b p; Some (state_of (chunks b), b, f0)) = Some (ret, b', f') ∧ buffer_ok b'
    ∧ (ret ≠ BUFFER_ERROR → out f' ++ contents b' = out f ++ contents b ++ q)
    ∧ (ret = BUFFER_EMPTY → contents b' = []) ∧ (ret = BUFFER_PENDING → contents b' ≠ [])) as Hput.
  { intros p f0 q E. destruct (buffer_put_spec b p Hok) as (b' & -> & Hb' & _ & Hc). obind.
    do 3 eexists. split; [reflexivity|]. split; [done|]. split; [intros _; by rewrite Hc|].
    destruct Hb' as [_ Hb']. by apply (state_of_spec _ _ Hb'). }
  destruct o as [p|c|s|p|p|fd|fd]; cbn [run input valid] in *; [by apply Hput..| | | |].
  - destruct (put_crlf_loop_spec (length p) b p Hok) as (b' & E & Hb' & _ & Hc); [done|]. unfold buffer_put_crlf.
    rewrite E. obind. do 3 eexists. split; [reflexivity|]. split; [done|]. split; [intros _; by rewrite Hc|].
    destruct Hb' as [_ Hb']. by apply (state_of_spec _ _ Hb').
  - unfold buffer_write. destruct (chunks b) as [|d l] eqn:Ec; [|by apply Hput].
    assert (contents b = []) as Hc by (unfold contents; by rewrite Ec).
    destruct (writev_spec f p) as (r & f' & Ew & Hr & _). rewrite Ew. destruct r as [w|e].
    + destruct Hr as [Hw Hout]. apply Hput. rewrite Hc, Hout. cbn. by rewrite <- app_assoc, take_drop.
    + destruct Hr as [Hout _]. destruct (io_retry e); [apply Hput; by rewrite Hout|].
      do 3 eexists. split; [reflexivity|]. split; [done|]. by split.
  - destruct (flush_available_spec b fd f Hok Hv) as (ret & b' & f' & E & Hok' & _ & Hq & He & Hp & _).
    rewrite E. do 3 eexists. split; [reflexivity|]. split; [done|]. split; [intros _; by rewrite app_nil_r|done].
  - unfold buffer_flush_all. destruct (chunks b) as [|d l] eqn:Ec.
    + do 3 eexists. split; [reflexivity|]. split; [done|]. split; [intros _; by rewrite app_nil_r|].
      split; [intros _; unfold contents; by rewrite Ec|done].
    + destruct (flush_all_loop_spec (S (S (length (outcomes f)))) b fd f Hok Hv) as (ret & b' & f' & E & Hok' & _ & Hq & He & Hp); [lia|].
      rewrite E. do 3 eexists. split; [reflexivity|]. split; [done|]. split; [intros _; by rewrite app_nil_r|done].
Qed.

(** A history: the statuses, the buffer and the descriptor at its end. *)
Fixpoint run_all (os : list op) (b : buffer) (f : fd_state) : option (list buffer_status * buffer * fd_state) :=
  match os with
  | [] => Some ([], b, f)
  | o :: os =>
      '(ret, b, f) ← run o b f;
      '(rets, b, f) ← run_all os b f;
      Some (ret :: rets, b, f)
  end.

(** C20 The output buffer is a queue: along every history of puts, writes and
    flushes on a descriptor that accepts bytes as it likes, every operation
    returns, the documented invariant of the chunks holds, and, as long as no
    operation reports an error, the bytes the descriptor accepted followed by
    the bytes still buffered are exactly the bytes that were handed in, in
    order, with line ends expanded where asked. *)
Theorem buffer_fifo (os : list op) (b : buffer) (f : fd_state) :
  buffer_ok b → Forall valid os →
  ∃ rets b' f', run_all os b f = Some (rets, b', f') ∧ buffer_ok b'
    ∧ (BUFFER_ERROR ∉ rets → out f' ++ contents b' = out f ++ contents b ++ concat (input <$> os)).
Proof.
  intros Hok Hv. revert b f Hok. induction Hv as [|o os Hvo Hv IH]; intros b f Hok; cbn [run_all].
  { do 3 eexists. split; [reflexivity|]. split; [done|]. intros _. cbn. by rewrite app_nil_r. }
  destruct (run_spec o b f Hok Hvo) as (ret & b1 & f1 & E1 & Ok1 & Q1 & _). rewrite E1. obind.
  destruct (IH b1 f1 Ok1) as (rets & b' & f' & E & Ok' & Q). rewrite E. obind.
  do 3 eexists. split; [reflexivity|]. split; [done|]. intros Hne. apply not_elem_of_cons in Hne as [Hr Hrs].
  rewrite Q by done. cbn. rewrite app_assoc, Q1 by done. by rewrite <- !app_assoc.
Qed.

Definition fd_example : fd_state := Fd [inl 3; inr EINTR; inl 100] [] EOTHER.

Lemma buffer_fifo_witness :
  ∃ rets b' f', run_all [Put_crlf [104; 105; 10]%Z; Flush 1; Putstr (str "abcdef"); Flush_all 1] (buffer_new 4096 4) fd_example =
      Some (rets, b', f') ∧ (BUFFER_ERROR ∉ rets) ∧ out f' ++ contents b' = ([104; 105; 13; 10; 97; 98; 99; 100; 101; 102]%Z).
Proof.
  destruct (buffer_fifo [Put_crlf [104; 105; 10]%Z; Flush 1; Putstr (str "abcdef"); Flush_all 1] (buffer_new 4096 4) fd_example)
    as (rets & b' & f' & E & _ & Q); [split; [by apply (bool_decide_unpack _); vm_compute|constructor]|repeat constructor; done|].
  exists rets, b', f'. split; [exact E|].
  assert (BUFFER_ERROR ∉ rets) as Hne.
  { apply (f_equal (fmap (λ x, x.1.1))) in E. vm_compute in E. injection E as <-.
    by apply (bool_decide_unpack _); vm_compute. }
  split; [exact Hne|exact (Q Hne)].
Defined.

(** ** A window shows one page *)

Lemma show_stop w c h bs : (h ≤ 0)%Z → show w c h bs = (0, c, h).
Proof. intros Hh. destruct bs as [|x bs]; [done|]. cbn. by destruct (Z.ltb_spec 0 h); [lia|]. Qed.

(** The page does not depend on how the bytes are split into chunks. *)
Lemma show_app w xs ys : ∀ c h,
  show w c h (xs ++ ys) =
  let '(n1, c1, h1) := show w c h xs in let '(n2, c2, h2) := show w c1 h1 ys in (n1 + n2, c2, h2).
Proof.
  induction xs as [|x xs IH]; intros c h; cbn.
  - by destruct (show w c h ys) as [[n2 c2] h2].
  - destruct (Z.ltb_spec 0 h); [|by rewrite show_stop by lia].
    destruct (if decide (x = CR) then _ else _) as [c' h']. rewrite IH.
    destruct (show w c' h' xs) as [[n1 c1] h1]. by destruct (show w c1 h1 ys) as [[n2 c2] h2].
Qed.

Lemma show_length w bs : ∀ c h, (show w c h bs).1.1 ≤ length bs ∧
  ((show w c h bs).1.1 < length bs → ((show w c h bs).2 ≤ 0)%Z).
Proof.
  induction bs as [|x bs IH]; intros c h; cbn; [lia|]. destruct (Z.ltb_spec 0 h); cbn; [|lia].
  destruct (if decide (x = CR) then _ else _) as [c' h']. specialize (IH c' h').
  destruct (show w c' h' bs) as [[n1 c1] h1]. cbn in *. split; [lia|]. intros. apply IH. lia.
Qed.

(** Column and number of line ends after displaying bytes, and the lines a
    text takes on a terminal of width [w]. *)
Definition display (w : Z) (s : Z * Z) (c : Z) : Z * Z :=
  if decide (c = CR) then (1, s.2)%Z
  else if decide (c = LF ∨ s.1 = w) then (1, s.2 + 1)%Z else (s.1 + 1, s.2)%Z.
Definition rows (w : Z) (bs : list Z) : Z := (foldl (display w) (1, 0)%Z bs).2.

Lemma show_rows w bs : ∀ c h r, (0 ≤ h)%Z → let '(n, c1, h1) := show w c h bs in
  foldl (display w) (c, r) (take n bs) = (c1, r + (h - h1))%Z ∧ (0 ≤ h1)%Z.
Proof.
  induction bs as [|x bs IH]; intros c h r Hh; cbn; [split; [f_equal; lia|done]|].
  destruct (Z.ltb_spec 0 h) as [Hpos|?]; [|cbn; split; [f_equal; lia|done]].
  destruct (if decide (x = CR) then _ else _) as [c' h'] eqn:E.
  assert (display w (c, r) x = (c', r + (h - h'))%Z ∧ (0 ≤ h')%Z) as [Ed Hh'].
  { unfold display. cbn [fst snd]. repeat case_decide; injection E as <- <-; (split; [f_equal; lia|lia]). }
  specialize (IH c' h' (r + (h - h'))%Z Hh'). destruct (show w c' h' bs) as [[n c1] h1]. cbn. rewrite Ed.
  destruct IH as [-> IH]. split; [f_equal; lia|done].
Qed.

(** What the loop over the chunks does: it shows [n] bytes of the queue. *)
Lemma window_loop_spec sz w l : Forall (chunk_ok sz) l → ∀ c h,
  let n := (show w c h (queued l)).1.1 in
  let '(iov, l') := window_loop w c h l in
  concat iov = take n (queued l) ∧ queued l' = drop n (queued l) ∧ length iov ≤ length l ∧
  ∃ pre post, l' = pre ++ post ∧ Forall (λ d, sp d = cp d) pre ∧ Forall (chunk_ok sz) post.
Proof.
  intros Hl. induction Hl as [|d l Hd Hl IH]; intros c h n.
  { unfold n. cbn. split_and!; [done..|]. by exists [], []. }
  unfold n. clear n. cbn [window_loop]. destruct (Z.ltb_spec 0 h) as [Hh|Hh].
  2: { rewrite show_stop by lia. cbn. split_and!; [done|done|lia|]. exists [], (d :: l). by split_and!; [..|constructor]. }
  rewrite queued_cons, show_app.
  pose proof (show_length w (pending d) c h) as [Hn1 Hn1'].
  destruct (show w c h (pending d)) as [[n1 c1] h1]. cbn [fst snd] in *. specialize (IH c1 h1).
  pose proof (show_stop w c1 h1 (queued l)) as Hstop.
  destruct (show w c1 h1 (queued l)) as [[n2 c2] h2]. destruct (window_loop w c1 h1 l) as [iov l'] eqn:Ew.
  cbn [fst snd] in *. destruct IH as (I1 & I2 & I3 & pre & post & E' & Hpre & Hpost).
  rewrite pending_length in *. unfold chunk_ok in Hd.
  assert (pending (Chunk (ident d) (sp d + n1) (data d)) = drop n1 (pending d)) as Ep
    by (unfold pending; cbn; by rewrite drop_drop).
  destruct (decide (n1 = cp d - sp d)) as [Hfull|Hpart].
  - split_and!.
    + cbn. rewrite I1, Hfull, take_app_add' by (by rewrite pending_length). rewrite take_ge by (rewrite pending_length; lia). done.
    + rewrite queued_cons, Ep, I2, Hfull, drop_app_add' by (by rewrite pending_length).
      by rewrite drop_ge by (rewrite pending_length; lia).
    + cbn. lia.
    + exists (Chunk (ident d) (sp d + n1) (data d) :: pre), post. split_and!; [by rewrite E'|constructor; [|done]|done].
      unfold cp in *. cbn. lia.
  - assert (h1 ≤ 0)%Z as Hh1 by (apply Hn1'; lia). injection (Hstop Hh1) as -> -> ->. rewrite take_0, drop_0 in *.
    rewrite Nat.add_0_r. split_and!.
    + cbn. rewrite I1, app_nil_r. by rewrite take_app_le by (rewrite pending_length; lia).
    + rewrite queued_cons, Ep, I2. by rewrite drop_app_le by (rewrite pending_length; lia).
    + cbn. lia.
    + assert (l' = l) as -> by (destruct l; cbn in Ew; [by injection Ew|]; destruct (Z.ltb_spec 0 h1); [lia|by injection Ew]).
      exists [], (Chunk (ident d) (sp d + n1) (data d) :: l). split_and!; [done..|]. constructor; [|done].
      unfold chunk_ok, cp in *. cbn. lia.
Qed.

Lemma drop_flushed_spec sz pre post : Forall (λ d, sp d = cp d) pre → Forall (chunk_ok sz) post →
  drop_flushed (pre ++ post) = post ∧ queued (pre ++ post) = queued post.
Proof.
  intros Hpre Hpost. induction Hpre as [|d pre Hd Hpre [IH1 IH2]]; cbn.
  - split; [|done]. destruct Hpost as [|d post Hd _]; [done|]. cbn. unfold chunk_ok in Hd. by rewrite decide_False by lia.
  - rewrite decide_True by done. split; [done|]. unfold queued in *. cbn. rewrite IH2. unfold pending.
    by rewrite drop_ge by (unfold cp in Hd; lia).
Qed.

(** The descriptor takes everything of the next [k] calls. *)
Definition accepts (n k : nat) (f : fd_state) : Prop :=
  k ≤ length (outcomes f) ∧ Forall (λ o, match o with inl m => n ≤ m | inr _ => False end) (outcomes f).

Lemma write_groups_spec n fuel : ∀ f iov, length iov ≤ fuel → accepts n (length iov) f → length (concat iov) ≤ n →
  ∃ f', write_groups fuel f iov = (true, f') ∧ out f' = out f ++ concat iov.
Proof.
  induction fuel as [|fuel IH]; intros f iov Hl [Hk Ha] Hn.
  { destruct iov; [|cbn in Hl; lia]. exists f. by rewrite app_nil_r. }
  destruct iov as [|x iov]; [exists f; by rewrite app_nil_r|]. cbn [write_groups]. set (v := x :: iov) in *.
  assert (length v = S (length iov)) as Lv by done.
  assert (concat v = concat (take IOV_MAX v) ++ concat (drop IOV_MAX v)) as Ec by (by rewrite <- concat_app, take_drop).
  rewrite Ec, length_app in Hn. unfold writev. destruct (outcomes f) as [|[m|e] os] eqn:Eo; [cbn in Hk; lia| |by inversion Ha].
  apply Forall_cons in Ha as [Hm Ha]. cbn zeta. rewrite Nat.min_r by lia.
  edestruct (IH (Fd os (out f ++ take (length (concat (take IOV_MAX v))) (concat (take IOV_MAX v))) (last_errno f)) (drop IOV_MAX v))
    as (f' & E & Ho); [rewrite length_drop; unfold IOV_MAX; lia| |lia|].
  { split; [|done]. rewrite length_drop. cbn in *. unfold IOV_MAX. lia. }
  exists f'. split; [exact E|]. rewrite Ho, take_ge by done. cbn [out]. rewrite <- app_assoc. f_equal. symmetry. exact Ec.
Qed.

Lemma rows_take w bs h : (0 ≤ h)%Z → let '(n, _, h1) := show w 1 h bs in
  (rows w (take n bs) ≤ h)%Z ∧ (n < length bs → rows w (take n bs) = h).
Proof.
  intros Hh. pose proof (show_rows w bs 1 h 0 Hh) as R. pose proof (show_length w bs 1 h) as [_ L].
  destruct (show w 1 h bs) as [[n c1] h1]. destruct R as [R H1]. unfold rows. rewrite R. cbn in *.
  split; [lia|]. intros Hn. apply L in Hn. lia.
Qed.

(** Flushing a window to a descriptor that takes everything writes the
    erase sequence if asked, then one page of the buffer, then the prompt if
    something is left and it is wanted.  The page is a prefix of the buffer,
    the rest stays buffered; it takes at most the lines of the window (its
    height less one line for the prompt) and exactly that many when something
    is left. *)
Theorem buffer_flush_window_page (b : buffer) (width height : Z) (erase_flag no_more : bool) (f : fd_state) (k : nat) :
  buffer_ok b → chunks b ≠ [] → length (chunks b) + 2 ≤ k → accepts (length (contents b) + 41) k f →
  let h := (if height <? 1 then 1 else if 2 <=? height then height - 1 else height)%Z in
  let w := (if width <? 1 then 1 else width)%Z in
  ∃ n b' f', buffer_flush_window b width height erase_flag no_more f =
      (if decide (n < length (contents b)) then BUFFER_PENDING else BUFFER_EMPTY, b', f')
    ∧ n ≤ length (contents b) ∧ contents b' = drop n (contents b) ∧ buffer_ok b'
    ∧ out f' = out f ++ (if erase_flag then erase else []) ++ take n (contents b) ++
        (if decide (n < length (contents b) ∧ no_more = false) then more else [])
    ∧ (rows w (take n (contents b)) ≤ h)%Z ∧ (n < length (contents b) → rows w (take n (contents b)) = h).
Proof.
  intros [Hs Hok] Hne Hk [Ha1 Ha2] h w. assert (1 ≤ h)%Z as Hh.
  { unfold h. destruct (Z.ltb_spec height 1); [lia|]. destruct (Z.leb_spec 2 height); lia. }
  unfold buffer_flush_window. destruct (chunks b) as [|d0 l0] eqn:Ec; [done|]. rewrite <- Ec in *. clear Hne.
  fold h w. pose proof (window_loop_spec _ w _ Hok 1 h) as W. pose proof (rows_take w (queued (chunks b)) h ltac:(lia)) as R.
  pose proof (show_length w (queued (chunks b)) 1 h) as [L _]. cbv zeta in W.
  destruct (show w 1 h (queued (chunks b))) as [[n c1] h1]. cbn [fst snd] in *.
  destruct (window_loop w 1 h (chunks b)) as [iov l']. destruct W as (W1 & W2 & W3 & pre & post & -> & Hpre & Hpost).
  destruct (drop_flushed_spec _ _ _ Hpre Hpost) as [D1 D2]. change (queued (chunks b)) with (contents b) in *.
  rewrite D2 in W2. exists n.
  assert (post = [] ↔ ¬ n < length (contents b)) as Hp.
  { split.
    - intros ->. apply (f_equal length) in W2. rewrite length_drop in W2. cbn in W2. lia.
    - intros Hn. apply (queued_nil _ _ Hpost). rewrite W2. apply drop_ge. lia. }
  set (m := match last (pre ++ post) with Some d => _ | None => _ end).
  assert (m = if decide (n < length (contents b) ∧ no_more = false) then [more] else []) as Em.
  { unfold m. destruct (decide (n < length (contents b))) as [Hn|Hn].
    - destruct post as [|x post _] using rev_ind; [tauto|]. rewrite app_assoc, last_snoc.
      apply Forall_app in Hpost as [_ Hx]. rewrite Forall_singleton in Hx. unfold chunk_ok in Hx.
      do 2 case_decide; try done; tauto || lia.
    - rewrite (proj2 Hp Hn), app_nil_r. rewrite (decide_False (P := _ ∧ no_more = false)) by tauto.
      destruct pre as [|x pre _] using rev_ind; [done|]. rewrite last_snoc. apply Forall_app in Hpre as [_ Hx].
      rewrite Forall_singleton in Hx. by rewrite decide_False by lia. }
  set (v := (if erase_flag then [erase] else []) ++ iov).
  assert (length (concat (v ++ m)) ≤ length (contents b) + 41) as Hlen.
  { rewrite Em. unfold v. rewrite !concat_app, !length_app, W1, length_take.
    assert (length (concat (if erase_flag then [erase] else [])) ≤ 30) by (by destruct erase_flag; vm_compute; lia).
    assert (length (concat (if decide (n < length (contents b) ∧ no_more = false) then [more] else [])) ≤ 11) by (case_decide; vm_compute; lia).
    lia. }
  destruct (write_groups_spec (length (contents b) + 41) (length (v ++ m)) f (v ++ m)) as (f' & Ef & Ho); [done| |done|].
  { split; [|done]. rewrite Em. unfold v. rewrite !length_app. destruct erase_flag; case_decide; cbn; lia. }
  rewrite Ef, D1. do 2 eexists. split; [|split_and!].
  - f_equal. f_equal. destruct (decide (n < length (contents b))) as [Hn|Hn], post; [by destruct (proj1 Hp eq_refl Hn)|reflexivity|reflexivity|by apply Hp in Hn].
  - done.
  - exact W2.
  - by split.
  - rewrite Ho, Em. unfold v. rewrite !concat_app, W1, <- !app_assoc. f_equal. f_equal; [by destruct erase_flag; rewrite ?app_nil_r|].
    f_equal. by case_decide; rewrite ?app_nil_r.
  - apply R.
  - apply R.
Qed.

Definition text_example : option buffer := buffer_put (buffer_new 4096 4) [97; 10; 98; 99; 10; 100]%Z.

Lemma buffer_flush_window_page_witness :
  ∃ b n b' f', text_example = Some b
    ∧ buffer_flush_window b 80 2 false false (Fd (replicate 4 (inl 100)) [] EOTHER) =
        (if decide (n < 6) then BUFFER_PENDING else BUFFER_EMPTY, b', f')
    ∧ (rows 80 (take n [97; 10; 98; 99; 10; 100]) ≤ 1)%Z.
Proof.
  destruct text_example as [b|] eqn:E; [|discriminate].
  assert (Some b = Some (Buffer [Chunk 0 0 [97; 10; 98; 99]%Z; Chunk 1 0 [10; 100]%Z] 4 2)) as Eb by (rewrite <- E; reflexivity).
  injection Eb as ->.
  destruct (buffer_flush_window_page (Buffer [Chunk 0 0 [97; 10; 98; 99]%Z; Chunk 1 0 [10; 100]%Z] 4 2) 80 2 false false
    (Fd (replicate 4 (inl 100)) [] EOTHER) 4) as (n & b' & f' & Ew & _ & _ & _ & _ & Hr & _).
  - split; [cbn; lia|]. repeat constructor; unfold cp; cbn; lia.
  - discriminate.
  - cbn; lia.
  - split; [cbn; lia|]. repeat constructor; cbn; lia.
  - exists (Buffer [Chunk 0 0 [97; 10; 98; 99]%Z; Chunk 1 0 [10; 100]%Z] 4 2), n, b', f'.
    split; [reflexivity|]. split; [exact Ew|exact Hr].
Defined.
