(* ===== verification/Vty.v ===== *)
(** * The terminal: output, line editor and history of lib/vty.c

    A [vty] is a session at a terminal.  Its structure is split into the output
    side ([outs]), the command line ([edit]), the history ([hists]), the state of
    the session ([sess]) and of the telnet protocol ([telnet]).  Bytes are
    integers; the command line is an array of [VTY_BUFSIZ] bytes with a NUL after
    its end.  [None] as a result is an access outside an array or through a null
    pointer, or a loop that has not ended.

    The output buffer is used through the interface [OutBuffer]: a queue of bytes.
    [Buffer]'s chunked buffers implement it ([buffer_out]), and the theorems here
    are proved against the interface.  POSIX's [regexec] is a parameter (the
    filter), as are the tables of the host: prompts of the nodes, names, passwords.

    Theorems: the editor is a zipper, and a terminal that displays the line and
    the cursor displays them after every editing key ([editor_refines]); the
    history is the list of the last twenty different lines
    ([history_refines]); a filter passes exactly the matching lines
    ([vty_out_filters]). *)
From Stdlib Require Import Ascii String.
From stdpp Require Import prelude list.
From S2P Require Import Prelude.
From S2P Require Import Vector.
From S2P Require Import CString.
From S2P Require Import FrrStr.
From S2P Require Import Buffer.
Set Default Goal Selector "!".

(** ** The output buffer as an interface *)

Class OutBuffer (B : Type) := {
  ob_ok : B → Prop;
  ob_contents : B → list Z;
  ob_put : B → list Z → option B;
  ob_put_crlf : B → list Z → option B;
  ob_reset : B → B;
  ob_put_spec b p : ob_ok b → ∃ b', ob_put b p = Some b' ∧ ob_ok b' ∧ ob_contents b' = ob_contents b ++ p;
  ob_put_crlf_spec b p : ob_ok b → ∃ b', ob_put_crlf b p = Some b' ∧ ob_ok b' ∧ ob_contents b' = ob_contents b ++ crlf p;
  ob_reset_spec b : ob_ok b → ob_ok (ob_reset b) ∧ ob_contents (ob_reset b) = [] }.

(** ** Data *)

Inductive vty_type := VTY_TERM | VTY_FILE | VTY_SHELL | VTY_SHELL_SERV.
Inductive vty_status := VTY_NORMAL | VTY_CLOSE | VTY_MORE | VTY_MORELINE.
#[export] Instance vty_type_eq_dec : EqDecision vty_type.
Proof. solve_decision. Defined.
#[export] Instance vty_status_eq_dec : EqDecision vty_status.
Proof. solve_decision. Defined.

Definition AUTH_NODE : Z := 0.
Definition VIEW_NODE : Z := 1.
Definition AUTH_ENABLE_NODE : Z := 2.
Definition ENABLE_NODE : Z := 3.
Definition CONFIG_NODE : Z := 4.
Definition DEBUG_NODE : Z := 5.
Definition VTY_NODE : Z := 6.

Definition VTY_BUFSIZ : nat := 4096.
Definition VTY_MAXHIST : nat := 20.
Definition TELNET_NAWS_SB_LEN : nat := 5.
(** [sizeof(vty->frame)] *)
Definition FRAME_SIZE : nat := 1024.

(** Output: [filter] is the compiled expression (true where it does not match),
    [ofile] what was printed to the file of a shell. *)
Record outs (B : Type) := Outs {
  vtype : vty_type;
  filter_re : option (cstring → bool);
  lbuf : B;
  obuf : B;
  ofile : list Z;
  frame : cstring;
  frame_pos : nat;
}.
Arguments Outs {B}.
Arguments vtype {B}.
Arguments filter_re {B}.
Arguments lbuf {B}.
Arguments obuf {B}.
Arguments ofile {B}.
Arguments frame {B}.
Arguments frame_pos {B}.

Record edit := Edit { buf : list Z; cp : nat; len : nat }.

Record hists := Hists { hist : list (option (list Z)); hp : nat; hindex : nat }.

Record sess := Sess {
  node : Z;
  fail : Z;
  config : bool;
  private_config : bool;
  xpath_index : Z;
  status : vty_status;
}.

Record telnet := Telnet {
  escape : Z;
  iac : bool;
  iac_sb_in_progress : bool;
  sb_buf : list Z;
  sb_len : Z;
  width : Z;
  height : Z;
  lines : Z;
}.

Record vty (B : Type) := Vty { out : outs B; ed : edit; hs : hists; ss : sess; tn : telnet }.
Arguments Vty {B}.
Arguments out {B}.
Arguments ed {B}.
Arguments hs {B}.
Arguments ss {B}.
Arguments tn {B}.

(** The host: prompts by node ([cmdvec]) and the parents of nodes. *)
Record host := Host {
  name : cstring;
  prompts : list (option cstring);
  node_parents : list Z;
  password : option cstring;
  password_encrypt : option cstring;
  enable_pw : option cstring;
  enable_encrypt : option cstring;
  advanced : bool;
  encrypt : bool;
  host_lines : Z;
  motd : option cstring;
  motdfile : option cstring;
}.

Definition set_out {B} (o : outs B) (v : vty B) : vty B := Vty o (ed v) (hs v) (ss v) (tn v).
Definition set_ed {B} (e : edit) (v : vty B) : vty B := Vty (out v) e (hs v) (ss v) (tn v).
Definition set_hs {B} (h : hists) (v : vty B) : vty B := Vty (out v) (ed v) h (ss v) (tn v).
Definition set_ss {B} (s : sess) (v : vty B) : vty B := Vty (out v) (ed v) (hs v) s (tn v).
Definition set_tn {B} (t : telnet) (v : vty B) : vty B := Vty (out v) (ed v) (hs v) (ss v) t.
Definition set_node (n : Z) (s : sess) : sess := Sess n (fail s) (config s) (private_config s) (xpath_index s) (status s).
Definition set_status (st : vty_status) (s : sess) : sess := Sess (node s) (fail s) (config s) (private_config s) (xpath_index s) st.
Definition set_config (c : bool) (s : sess) : sess := Sess (node s) (fail s) c (private_config s) (xpath_index s) (status s).
Definition set_fail (f : Z) (s : sess) : sess := Sess (node s) f (config s) (private_config s) (xpath_index s) (status s).

(** ** Arrays *)

(** [a - b] where a negative result would be used as a size. *)
Definition minus (a b : nat) : option nat := if decide (b ≤ a) then Some (a - b) else None.
(** [n] bytes from [off] on. *)
Definition slice (l : list Z) (off n : nat) : option (list Z) :=
  if decide (off + n ≤ length l) then Some (take n (drop off l)) else None.
(** [memcpy(l + off, bs, length bs)] *)
Definition blit (l : list Z) (off : nat) (bs : list Z) : option (list Z) :=
  if decide (off + length bs ≤ length l) then Some (take off l ++ bs ++ drop (off + length bs) l) else None.
(** The string in a buffer, up to its NUL. *)
Fixpoint zstr (l : list Z) : option (list Z) :=
  match l with
  | [] => None
  | c :: l => if (c =? 0)%Z then Some [] else s ← zstr l; Some (c :: s)
  end.

Section vty.
Context {B : Type} `{OutBuffer B}.
Implicit Types (v : vty B) (o : outs B).

(** ** Output *)

Definition newline : cstring := ["010"%char].

Definition put_obuf (o : outs B) (b : B) : outs B := Outs (vtype o) (filter_re o) (lbuf o) b (ofile o) (frame o) (frame_pos o).
Definition put_lbuf (o : outs B) (b : B) : outs B := Outs (vtype o) (filter_re o) b (obuf o) (ofile o) (frame o) (frame_pos o).
Definition put_of (o : outs B) (f : list Z) : outs B := Outs (vtype o) (filter_re o) (lbuf o) (obuf o) f (frame o) (frame_pos o).
Definition put_frame (o : outs B) (f : cstring) (p : nat) : outs B := Outs (vtype o) (filter_re o) (lbuf o) (obuf o) (ofile o) f p.

(** The filter: the first line goes to the line buffer; with a line break the
    lines that match are joined again.  [None] is that there is nothing to print
    yet. *)
Definition filter_out (regexec : cstring → bool) (o : outs B) (p : cstring) : option (option cstring * outs B) :=
  ls ← frrstr_split_vec (Some p) newline;
  ls ← (ls : option (vector cstring));
  firstline ← vector_slot ls 0;
  firstline ← (firstline : option cstring);
  lb ← ob_put (lbuf o) (code <$> firstline);
  let o := put_lbuf o lb in
  if decide (1 < vector_active ls) then
    bstr ← cstr ((chr <$> ob_contents (lbuf o)) ++ [NUL]);
    let o := put_lbuf o (ob_reset (lbuf o)) in
    '(ls, _) ← vector_set_index ls 0 (Some bstr);
    ls ← frrstr_filter_vec regexec ls;
    ls ← vector_compact ls;
    lastc ← last p;
    ls ← (if decide (lastc = "010"%char ∧ 0 < vector_active ls) then
            x ← vector_slot ls (vector_active ls - 1);
            x ← (x : option cstring);
            if decide (x = []) then Some ls else '(ls, _) ← vector_set ls (Some []); Some ls
          else Some ls);
    filtered ← frrstr_join_vec ls (Some newline);
    Some (filtered, o)
  else Some (None, o).

(** What is printed of [p] goes to the buffer or the file. *)
Definition print_out (o : outs B) (p : cstring) : option (outs B) :=
  match vtype o with
  | VTY_TERM => b ← ob_put_crlf (obuf o) (code <$> p); Some (put_obuf o b)
  | VTY_SHELL => Some (put_of o (ofile o ++ (code <$> p)))
  | VTY_SHELL_SERV | VTY_FILE => b ← ob_put (obuf o) (code <$> p); Some (put_obuf o b)
  end.

(** The body of [vty_out] after the frame; [p] is the formatted text. *)
Definition out_body (o : outs B) (p : cstring) : option (outs B) :=
  '(filtered, o) ← match filter_re o with
                   | Some regexec => filter_out regexec o p
                   | None => Some (Some p, o)
                   end;
  match filtered with Some p => print_out o p | None => Some o end.

Definition vty_out_o (o : outs B) (p : cstring) : option (outs B) :=
  o ← (if decide (frame_pos o ≠ 0) then out_body (put_frame o (frame o) 0) (frame o) else Some o);
  out_body o p.

Definition vty_out v (p : cstring) : option (vty B) := o ← vty_out_o (out v) p; Some (set_out o v).

(** [vsnprintf] keeps what fits before the NUL. *)
Definition vty_frame v (p : cstring) : vty B :=
  let f := take (frame_pos (out v)) (frame (out v)) ++ take (FRAME_SIZE - 1 - frame_pos (out v)) p in
  set_out (put_frame (out v) f (length f)) v.

Definition vty_endframe v (endtext : option cstring) : option (vty B) :=
  v ← match endtext with
      | Some t => if decide (frame_pos (out v) = 0) then vty_out v t else Some v
      | None => Some v
      end;
  Some (set_out (put_frame (out v) (frame (out v)) 0) v).

Definition hidden (s : sess) : bool := ((node s =? AUTH_NODE) || (node s =? AUTH_ENABLE_NODE))%Z.

Definition vty_write v (bs : list Z) : option (vty B) :=
  if hidden (ss v) then Some v else b ← ob_put (obuf (out v)) bs; Some (set_out (put_obuf (out v) b) v).

(** [for (i = 0; i < n; i++) vty_write(vty, &c, 1)] *)
Fixpoint write_n (n : nat) (c : Z) v : option (vty B) :=
  match n with 0 => Some v | S n => v ← vty_write v [c]; write_n n c v end.

Definition BS : Z := 8.
Definition SP : Z := 32.

(** ** The command line *)

Definition vty_self_insert v (c : Z) : option (vty B) :=
  let e := ed v in
  if decide (VTY_BUFSIZ ≤ len e + 1) then Some v
  else
    n ← minus (len e) (cp e);
    b ← memmove_cells (buf e) (cp e + 1) (cp e) n;
    b ← write b (cp e) c;
    bs ← slice b (cp e) (n + 1);
    v ← vty_write v bs;
    v ← write_n n BS v;
    b ← write b (len e + 1) 0%Z;
    Some (set_ed (Edit b (cp e + 1) (len e + 1)) v).

Definition vty_self_insert_overwrite v (c : Z) : option (vty B) :=
  let e := ed v in
  if decide (cp e = len e) then vty_self_insert v c
  else
    b ← write (buf e) (cp e) c;
    vty_write (set_ed (Edit b (cp e + 1) (len e)) v) [c].

Definition vty_insert_word_overwrite v (s : list Z) : option (vty B) :=
  let e := ed v in
  if decide (cp e = VTY_BUFSIZ) then Some v
  else
    room ← minus VTY_BUFSIZ (cp e + 1);
    let nwrite := Nat.min (length s) room in
    b ← blit (buf e) (cp e) (take nwrite s);
    let cp' := cp e + nwrite in
    let len' := Nat.max cp' (len e) in
    b ← write b len' 0%Z;
    vty_write (set_ed (Edit b cp' len') v) (take nwrite s).

Definition vty_forward_char v : option (vty B) :=
  let e := ed v in
  if decide (cp e < len e) then
    c ← buf e !! cp e;
    v ← vty_write v [c];
    Some (set_ed (Edit (buf e) (cp e + 1) (len e)) v)
  else Some v.

Definition vty_backward_char v : option (vty B) :=
  let e := ed v in
  if decide (0 < cp e) then vty_write (set_ed (Edit (buf e) (cp e - 1) (len e)) v) [BS]
  else Some v.

(** [while (cond) body] *)
Fixpoint while (fuel : nat) (cond : vty B → option bool) (body : vty B → option (vty B)) v : option (vty B) :=
  c ← cond v;
  if (c : bool) then match fuel with 0 => None | S fuel => v ← body v; while fuel cond body v end
  else Some v.

Definition vty_beginning_of_line v : option (vty B) :=
  while (cp (ed v)) (λ v, Some (bool_decide (cp (ed v) ≠ 0))) vty_backward_char v.
Definition vty_end_of_line v : option (vty B) :=
  while (len (ed v)) (λ v, Some (bool_decide (cp (ed v) < len (ed v)))) vty_forward_char v.

(** Is the character at (or before) the cursor a space, and is there one? *)
Definition at_cursor (space : bool) v : option bool :=
  if decide (cp (ed v) = len (ed v)) then Some false
  else c ← buf (ed v) !! cp (ed v); Some (bool_decide ((c = SP) ↔ space = true)).
Definition before_cursor (space : bool) v : option bool :=
  if decide (0 < cp (ed v)) then c ← buf (ed v) !! (cp (ed v) - 1); Some (bool_decide ((c = SP) ↔ space = true))
  else Some false.

Definition vty_forward_word v : option (vty B) :=
  v ← while (len (ed v)) (at_cursor false) vty_forward_char v;
  while (len (ed v)) (at_cursor true) vty_forward_char v.
Definition vty_backward_pure_word v : option (vty B) :=
  while (cp (ed v)) (before_cursor false) vty_backward_char v.
Definition vty_backward_word v : option (vty B) :=
  v ← while (cp (ed v)) (before_cursor true) vty_backward_char v;
  while (cp (ed v)) (before_cursor false) vty_backward_char v.

Definition vty_redraw_line v : option (vty B) :=
  bs ← slice (buf (ed v)) 0 (len (ed v));
  v ← vty_write v bs;
  Some (set_ed (Edit (buf (ed v)) (len (ed v)) (len (ed v))) v).

(** *** Leaving a node *)

Context (h : host).

(** [vty_out(vty, cmd_prompt(node), hostname)]: the format holds one [%s] or none. *)
Fixpoint format_s (fmt arg : cstring) : cstring :=
  match fmt with
  | "%"%char :: "s"%char :: fmt => arg ++ fmt
  | c :: fmt => c :: format_s fmt arg
  | [] => []
  end.
Definition cmd_prompt (n : Z) : option cstring :=
  if (0 <=? n)%Z then p ← prompts h !! Z.to_nat n; p else None.
Definition vty_prompt v : option (vty B) :=
  if decide (vtype (out v) = VTY_TERM) then p ← cmd_prompt (node (ss v)); vty_out v (format_s p (name h)) else Some v.

Definition node_parent (n : Z) : option Z := if (0 <=? n)%Z then node_parents h !! Z.to_nat n else None.

(** For all but a [VTY_SHELL], where leaving the outer nodes ends the process. *)
Definition cmd_exit (s : sess) : option sess :=
  s ← (if ((node s =? VIEW_NODE) || (node s =? ENABLE_NODE))%Z then Some (set_status VTY_CLOSE s)
       else if (node s =? CONFIG_NODE)%Z then Some (set_config false (set_node ENABLE_NODE s))
       else if (node s =? VTY_NODE)%Z then Some (set_node CONFIG_NODE s)
       else p ← node_parent (node s); Some (set_node p s));
  Some (if (0 <? xpath_index s)%Z
        then Sess (node s) (fail s) (config s) (private_config s) (xpath_index s - 1) (status s) else s).

Definition vty_down_level v : option (vty B) :=
  v ← vty_out v newline;
  s ← cmd_exit (ss v);
  v ← vty_prompt (set_ss s v);
  Some (set_ed (Edit (buf (ed v)) 0 (len (ed v))) v).

(** [vty_config_exit] and back to the enable node. *)
Definition leave_config (s : sess) : sess := if config s then set_node ENABLE_NODE (set_config false s) else s.

Definition vty_end_config v : option (vty B) :=
  v ← vty_out v newline;
  v ← vty_prompt (set_ss (leave_config (ss v)) v);
  Some (set_ed (Edit (buf (ed v)) 0 (len (ed v))) v).

(** *** Deleting *)

Definition vty_delete_char v : option (vty B) :=
  let e := ed v in
  if decide (len e = 0) then vty_down_level v
  else if decide (cp e = len e) then Some v
  else
    sz ← minus (len e) (cp e);
    b ← memmove_cells (buf e) (cp e) (cp e + 1) (sz - 1);
    b ← write b (len e - 1) 0%Z;
    let v := set_ed (Edit b (cp e) (len e - 1)) v in
    if hidden (ss v) then Some v
    else
      bs ← slice b (cp e) (sz - 1);
      v ← vty_write v bs;
      v ← vty_write v [SP];
      write_n sz BS v.

Definition vty_delete_backward_char v : option (vty B) :=
  if decide (cp (ed v) = 0) then Some v else v ← vty_backward_char v; vty_delete_char v.

Definition vty_kill_line v : option (vty B) :=
  let e := ed v in
  sz ← minus (len e) (cp e);
  if decide (sz = 0) then Some v
  else
    v ← write_n sz SP v;
    v ← write_n sz BS v;
    b ← blit (buf e) (cp e) (replicate sz 0%Z);
    Some (set_ed (Edit b (cp e) (cp e)) v).

Definition vty_kill_line_from_beginning v : option (vty B) := v ← vty_beginning_of_line v; vty_kill_line v.

Definition vty_forward_kill_word v : option (vty B) :=
  v ← while (len (ed v)) (at_cursor true) vty_delete_char v;
  while (len (ed v)) (at_cursor false) vty_delete_char v.
Definition vty_backward_kill_word v : option (vty B) :=
  v ← while (cp (ed v)) (before_cursor true) vty_delete_backward_char v;
  while (cp (ed v)) (before_cursor false) vty_delete_backward_char v.

Definition vty_transpose_chars v : option (vty B) :=
  let e := ed v in
  if decide (len e < 2 ∨ cp e < 1) then Some v
  else if decide (cp e = len e) then
    c1 ← buf e !! (cp e - 1);
    c2 ← buf e !! (cp e - 2);
    v ← vty_backward_char v;
    v ← vty_backward_char v;
    v ← vty_self_insert_overwrite v c1;
    vty_self_insert_overwrite v c2
  else
    c1 ← buf e !! cp e;
    c2 ← buf e !! (cp e - 1);
    v ← vty_backward_char v;
    v ← vty_self_insert_overwrite v c1;
    vty_self_insert_overwrite v c2.

(** ** History *)

Definition vty_history_print v : option (vty B) :=
  v ← vty_kill_line_from_beginning v;
  s ← hist (hs v) !! hp (hs v);
  s ← s;
  b ← blit (buf (ed v)) 0 s;
  b ← write b (length s) 0%Z;
  vty_redraw_line (set_ed (Edit b (length s) (length s)) v).

(** The index one line further back, and one less far. *)
Definition try_prev (hp : nat) : nat := if decide (hp = 0) then VTY_MAXHIST - 1 else hp - 1.
Definition try_next (hp : nat) : nat := if decide (hp = VTY_MAXHIST - 1) then 0 else hp + 1.

Definition set_hp (i : nat) (h : hists) : hists := Hists (hist h) i (hindex h).

Definition vty_next_line v : option (vty B) :=
  if decide (hp (hs v) = hindex (hs v)) then Some v
  else
    let try_index := try_next (hp (hs v)) in
    x ← hist (hs v) !! try_index;
    match x with
    | None => Some v
    | Some _ => vty_history_print (set_hs (set_hp try_index (hs v)) v)
    end.

Definition vty_previous_line v : option (vty B) :=
  let try_index := try_prev (hp (hs v)) in
  x ← hist (hs v) !! try_index;
  match x with
  | None => Some v
  | Some _ => vty_history_print (set_hs (set_hp try_index (hs v)) v)
  end.

Definition vty_hist_add v : option (vty B) :=
  if decide (len (ed v) = 0) then Some v
  else
    let h := hs v in
    let index := if decide (hindex h ≠ 0) then hindex h - 1 else VTY_MAXHIST - 1 in
    x ← hist h !! index;
    s ← zstr (buf (ed v));
    if decide (x = Some s) then Some (set_hs (set_hp (hindex h) h) v)
    else
      l ← write (hist h) (hindex h) (Some s);
      let i := if decide (hindex h + 1 = VTY_MAXHIST) then 0 else hindex h + 1 in
      Some (set_hs (Hists l i i) v).

Definition vty_clear_buf v : option (vty B) :=
  b ← blit (buf (ed v)) 0 (replicate VTY_BUFSIZ 0%Z); Some (set_ed (Edit b (cp (ed v)) (len (ed v))) v).

Definition vty_stop_input v : option (vty B) :=
  v ← vty_clear_buf (set_ed (Edit (buf (ed v)) 0 0) v);
  v ← vty_out v newline;
  v ← vty_prompt (set_ss (leave_config (ss v)) v);
  Some (set_hs (set_hp (hindex (hs v)) (hs v)) v).

(** *** Arrays in pieces *)

Lemma write_mid {A} (l t : list A) x c n : n = length l → write (l ++ x :: t) n c = Some (l ++ c :: t).
Proof. intros ->. rewrite write_Some by (rewrite length_app; cbn; lia). f_equal. by rewrite insert_app_r_alt, Nat.sub_diag by lia. Qed.

Lemma slice_mid (l m t : list Z) n k : n = length l → k = length m → slice (l ++ m ++ t) n k = Some m.
Proof.
  intros -> ->. unfold slice. rewrite decide_True by (rewrite !length_app; lia). by rewrite drop_app_length, take_app_length.
Qed.

Lemma blit_mid (l m m' t : list Z) n : n = length l → length m' = length m → blit (l ++ m ++ t) n m' = Some (l ++ m' ++ t).
Proof.
  intros -> E. unfold blit. rewrite decide_True by (rewrite !length_app; lia). rewrite take_app_length. do 2 f_equal.
  rewrite app_assoc, drop_app_length' by (rewrite length_app; lia). done.
Qed.

Lemma shift_up {A} (l r t : list A) z n k : n = length l → k = length r →
  ∃ x, memmove_cells (l ++ r ++ z :: t) (n + 1) n k = Some (l ++ x :: r ++ t).
Proof.
  intros -> ->. unfold memmove_cells. rewrite decide_True by (rewrite !length_app; cbn; lia).
  rewrite drop_app_length, take_app_length. destruct r as [|x r].
  - exists z. cbn [app length]. rewrite Nat.add_0_r. rewrite (take_app_add l _ 1). cbn [take]. rewrite take_0, <- app_assoc. cbn. do 2 f_equal.
    rewrite drop_app_ge by lia. replace (length l + 1 - length l) with 1 by lia. done.
  - exists x. rewrite (take_app_add l _ 1). cbn [take app]. rewrite take_0, <- app_assoc. cbn [app]. do 5 f_equal.
    rewrite drop_app_ge by lia. replace (length l + 1 + length (x :: r) - length l) with (S (length (x :: r))) by lia.
    cbn [drop length]. rewrite drop_app_ge by lia. by replace (S (length r) - length r) with 1 by lia.
Qed.

Lemma shift_down {A} (l r t : list A) c n k : n = length l → k = length r →
  ∃ x, memmove_cells (l ++ c :: r ++ t) n (n + 1) k = Some (l ++ r ++ x :: t).
Proof.
  intros -> ->. unfold memmove_cells. rewrite decide_True by (rewrite !length_app; cbn; rewrite length_app; lia).
  rewrite take_app_length. assert (drop (length l + 1) (l ++ c :: r ++ t) = r ++ t) as ->.
  { rewrite drop_app_ge by lia. by replace (length l + 1 - length l) with 1 by lia. }
  rewrite take_app_length. assert (drop (length l + length r) (l ++ c :: r ++ t) = drop (length r) (c :: r) ++ t) as ->.
  { rewrite drop_app_ge by lia. replace (length l + length r - length l) with (length r) by lia.
    change (c :: r ++ t) with ((c :: r) ++ t). rewrite drop_app_le by (cbn; lia). done. }
  assert (length (drop (length r) (c :: r)) = 1) as E by (rewrite length_drop; cbn; lia).
  destruct (drop (length r) (c :: r)) as [|x [|]]; try done. by exists x.
Qed.

(** ** The line as a zipper *)

(** The line is [l] before and [r] after the cursor. *)
Definition line_ok (s : list Z) : Prop := Forall (λ c, c ≠ 0 ∧ c ≠ BS)%Z s.
Definition rep (e : edit) (l r : list Z) : Prop :=
  ∃ junk, buf e = l ++ r ++ 0%Z :: junk ∧ length (buf e) = VTY_BUFSIZ ∧ cp e = length l ∧ len e = length l + length r ∧ line_ok (l ++ r).

(** [v'] is [v] with the line [l], [r] and the echo [bs], unless it is hidden. *)
Definition edits v v' (l r bs : list Z) : Prop :=
  rep (ed v') l r ∧ ob_ok (obuf (out v')) ∧
  ob_contents (obuf (out v')) = ob_contents (obuf (out v)) ++ (if hidden (ss v) then [] else bs) ∧
  v' = set_out (put_obuf (out v) (obuf (out v'))) (set_ed (ed v') v).

Definition shown v (l r : list Z) : Prop := rep (ed v) l r ∧ ob_ok (obuf (out v)).

Lemma edits_refl v l r : shown v l r → edits v v l r [].
Proof. intros [Hr Ho]. split_and!; try done; [destruct (hidden (ss v)); by rewrite app_nil_r|]. by destruct v as [[] ? ? ? ?]. Qed.

Lemma edits_trans v1 v2 v3 l2 r2 l3 r3 b2 b3 : edits v1 v2 l2 r2 b2 → edits v2 v3 l3 r3 b3 → edits v1 v3 l3 r3 (b2 ++ b3).
Proof.
  intros (H1 & H2 & H3 & H4) (H5 & H6 & H7 & H8). split; [done|]. split; [done|].
  assert (ss v2 = ss v1) as E by (by rewrite H4). rewrite E in H7. split.
  - rewrite H7, H3. destruct (hidden (ss v1)); by rewrite ?app_nil_r, ?app_assoc.
  - rewrite H8, H4. done.
Qed.

Lemma edits_shown v v' l r bs : edits v v' l r bs → shown v' l r.
Proof. by intros (? & ? & _). Qed.

Lemma vty_write_spec v bs : ob_ok (obuf (out v)) → ∃ v', vty_write v bs = Some v' ∧ ob_ok (obuf (out v')) ∧
  ob_contents (obuf (out v')) = ob_contents (obuf (out v)) ++ (if hidden (ss v) then [] else bs) ∧ v' = set_out (put_obuf (out v) (obuf (out v'))) v.
Proof.
  intros Ho. unfold vty_write. destruct (hidden (ss v)).
  - exists v. rewrite app_nil_r. split_and!; try done. by destruct v as [[] ? ? ? ?].
  - destruct (ob_put_spec (obuf (out v)) bs Ho) as (b & -> & Hb & Hc). ostep. eexists. split; [reflexivity|]. done.
Qed.

(** Writing without changing the line. *)
Lemma write_edits v l r bs : shown v l r → ∃ v', vty_write v bs = Some v' ∧ edits v v' l r bs.
Proof.
  intros [Hr Ho]. destruct (vty_write_spec v bs Ho) as (v' & E & Ho' & Hc & Ev). exists v'. split; [done|].
  assert (ed v' = ed v) as Ee by (by rewrite Ev). unfold edits. rewrite Ee. by split_and!.
Qed.

Lemma write_n_edits n c v l r : shown v l r → ∃ v', write_n n c v = Some v' ∧ edits v v' l r (replicate n c).
Proof.
  revert v. induction n as [|n IH]; intros v Hs; cbn [write_n]; [exists v; split; [done|by apply edits_refl]|].
  destruct (write_edits v l r [c] Hs) as (v1 & -> & H1). ostep. destruct (IH v1 (edits_shown _ _ _ _ _ H1)) as (v2 & -> & H2).
  exists v2. split; [done|]. exact (edits_trans _ _ _ _ _ _ _ _ _ H1 H2).
Qed.

(** Changing the line after writing. *)
Lemma edits_set v v' l r l' r' bs e : edits v v' l r bs → rep e l' r' → edits v (set_ed e v') l' r' bs.
Proof. intros (_ & Ho & Hc & E) Hr. split_and!; try done. cbn. rewrite E. done. Qed.

(** Writing after changing the line. *)
Lemma set_write_edits v e l r bs : rep e l r → ob_ok (obuf (out v)) → ∃ v', vty_write (set_ed e v) bs = Some v' ∧ edits v v' l r bs.
Proof.
  intros Hr Ho. destruct (write_edits (set_ed e v) l r bs) as (v' & E & H1); [done|]. exists v'. split; [done|].
  destruct H1 as (? & ? & ? & E1). by split_and!.
Qed.

Lemma line_ok_app s t : line_ok (s ++ t) ↔ line_ok s ∧ line_ok t.
Proof. apply Forall_app. Qed.

(** Lengths of pieced lists. *)
Ltac lens := cbn [buf cp len] in *; repeat first [rewrite length_app in * | rewrite length_replicate in * | progress cbn [length] in *]; lia.

(** *** Basic steps *)

Lemma insert_step v l r c : shown v l r → c ≠ 0%Z → c ≠ BS → length l + length r + 1 < VTY_BUFSIZ →
  ∃ v', vty_self_insert v c = Some v' ∧ edits v v' (l ++ [c]) r (c :: r ++ replicate (length r) BS).
Proof.
  intros Hs Hc0 Hc8 Hroom. pose proof Hs as [(junk & Hb & Hlen & Hcp & Hl & Hok) Ho]. unfold vty_self_insert. rewrite decide_False by lia.
  unfold minus. rewrite decide_True by lia. ostep. replace (len (ed v) - cp (ed v)) with (length r) by lia. rewrite Hb.
  destruct (shift_up l r junk 0%Z (cp (ed v)) (length r) Hcp eq_refl) as [x ->]. ostep. rewrite write_mid by done. ostep.
  assert (slice (l ++ c :: r ++ junk) (cp (ed v)) (length r + 1) = Some (c :: r)) as ->.
  { apply (slice_mid l (c :: r) junk); [done|cbn; lia]. }
  ostep. destruct (write_edits v l r (c :: r) Hs) as (v1 & -> & H1). ostep.
  destruct (write_n_edits (length r) BS v1 l r (edits_shown _ _ _ _ _ H1)) as (v2 & -> & H2). ostep.
  destruct junk as [|j junk]; [rewrite Hb in Hlen; lens|].
  assert (l ++ c :: r ++ j :: junk = (l ++ c :: r) ++ j :: junk) as -> by (by rewrite <- app_assoc).
  rewrite write_mid by (rewrite length_app; cbn; lia). ostep. eexists. split; [reflexivity|].
  eapply edits_set; [exact (edits_trans _ _ _ _ _ _ _ _ _ H1 H2)|]. exists junk. cbn [buf cp len]. split_and!.
  - by rewrite <- !app_assoc.
  - rewrite Hb in Hlen. lens.
  - rewrite length_app. cbn. lia.
  - rewrite length_app. cbn. lia.
  - rewrite !line_ok_app in *. split; [|tauto]. split; [tauto|]. by constructor.
Qed.

Lemma over_step v l r c d : shown v l (c :: r) → d ≠ 0%Z → d ≠ BS →
  ∃ v', vty_self_insert_overwrite v d = Some v' ∧ edits v v' (l ++ [d]) r [d].
Proof.
  intros Hs Hd0 Hd8. pose proof Hs as [(junk & Hb & Hlen & Hcp & Hl & Hok) Ho]. unfold vty_self_insert_overwrite.
  rewrite decide_False by (cbn in Hl; lia). rewrite Hb. cbn [app]. rewrite write_mid by done. ostep. apply set_write_edits; [|done].
  exists junk. cbn [buf cp len]. split_and!.
  - by rewrite <- !app_assoc.
  - rewrite Hb in Hlen. lens.
  - rewrite length_app. cbn. lia.
  - rewrite length_app. cbn in *. lia.
  - rewrite line_ok_app in Hok. destruct Hok as [? [? ?]%Forall_cons]. rewrite !line_ok_app. split; [|done]. split; [done|]. by constructor.
Qed.

(** The cursor moves inside the line. *)
Lemma rep_move e l r l' r' : rep e l r → l' ++ r' = l ++ r → rep (Edit (buf e) (length l') (len e)) l' r'.
Proof.
  intros (junk & Hb & Hlen & Hcp & Hl & Hok) E. exists junk. cbn. split_and!; try done.
  - by rewrite Hb, !app_assoc, E.
  - rewrite Hl, <- !length_app. by rewrite E.
  - by rewrite E.
Qed.

Lemma forward_step v l r c : shown v l (c :: r) → ∃ v', vty_forward_char v = Some v' ∧ edits v v' (l ++ [c]) r [c].
Proof.
  intros Hs. pose proof Hs as [Hr Ho]. pose proof Hr as (junk & Hb & Hlen & Hcp & Hl & Hok). unfold vty_forward_char.
  cbn in Hl. rewrite decide_True by lia. assert (buf (ed v) !! cp (ed v) = Some c) as -> by (rewrite Hb, Hcp; by apply list_lookup_middle). ostep.
  destruct (write_edits v l (c :: r) [c] Hs) as (v1 & -> & H1). ostep. eexists. split; [reflexivity|]. eapply edits_set; [exact H1|].
  replace (cp (ed v) + 1) with (length (l ++ [c])) by (rewrite length_app; cbn; lia). apply (rep_move _ l (c :: r)); [done|by rewrite <- app_assoc].
Qed.

Lemma backward_step v l r c : shown v (l ++ [c]) r → ∃ v', vty_backward_char v = Some v' ∧ edits v v' l (c :: r) [BS].
Proof.
  intros [Hr Ho]. pose proof Hr as (junk & Hb & Hlen & Hcp & Hl & Hok). unfold vty_backward_char. rewrite length_app in Hcp. cbn in Hcp.
  rewrite decide_True by lia. apply set_write_edits; [|done]. replace (cp (ed v) - 1) with (length l) by lia.
  apply (rep_move _ (l ++ [c]) r); [done|by rewrite <- app_assoc].
Qed.

Lemma delete_step v l r c : shown v l (c :: r) →
  ∃ v', vty_delete_char v = Some v' ∧ edits v v' l r (r ++ SP :: replicate (S (length r)) BS).
Proof.
  intros Hs. pose proof Hs as [(junk & Hb & Hlen & Hcp & Hl & Hok) Ho]. unfold vty_delete_char. cbn in Hl.
  rewrite decide_False by lia. rewrite decide_False by lia. unfold minus. rewrite decide_True by lia. ostep.
  replace (len (ed v) - cp (ed v)) with (S (length r)) by lia. cbn [Nat.sub]. rewrite Nat.sub_0_r. rewrite Hb. cbn [app].
  destruct (shift_down l r (0%Z :: junk) c (cp (ed v)) (length r) Hcp eq_refl) as [x ->]. ostep.
  rewrite app_assoc, write_mid by (rewrite length_app; lia). ostep.
  assert (rep (Edit ((l ++ r) ++ 0%Z :: 0%Z :: junk) (cp (ed v)) (len (ed v) - 1)) l r) as Hr.
  { exists (0%Z :: junk). cbn [buf cp len]. split_and!; [by rewrite <- app_assoc| |done|lia|].
    - rewrite Hb in Hlen. lens.
    - rewrite line_ok_app in *. destruct Hok as [? [? ?]%Forall_cons]. done. }
  change (ss (set_ed (Edit ((l ++ r) ++ 0%Z :: 0%Z :: junk) (cp (ed v)) (len (ed v) - 1)) v)) with (ss v).
  set (v1 := set_ed (Edit ((l ++ r) ++ 0%Z :: 0%Z :: junk) (cp (ed v)) (len (ed v) - 1)) v) in *.
  destruct (hidden (ss v)) eqn:Hh.
  { exists v1. split; [done|]. split_and!; try done; [rewrite Hh; by rewrite app_nil_r|]. by destruct v as [[] ? ? ? ?]. }
  rewrite <- app_assoc, (slice_mid l r) by done. ostep.
  destruct (set_write_edits v (ed v1) l r r Hr Ho) as (v2 & E2 & H2). change (set_ed (ed v1) v) with v1 in E2. rewrite E2. ostep.
  destruct (write_edits v2 l r [SP] (edits_shown _ _ _ _ _ H2)) as (v3 & -> & H3). ostep.
  destruct (write_n_edits (S (length r)) BS v3 l r (edits_shown _ _ _ _ _ H3)) as (v4 & -> & H4). exists v4. split; [done|].
  pose proof (edits_trans _ _ _ _ _ _ _ _ _ (edits_trans _ _ _ _ _ _ _ _ _ H2 H3) H4) as H'. by rewrite <- app_assoc in H'.
Qed.

Lemma kill_step v l r : shown v l r → ∃ v', vty_kill_line v = Some v' ∧ edits v v' l [] (replicate (length r) SP ++ replicate (length r) BS).
Proof.
  intros Hs. pose proof Hs as [(junk & Hb & Hlen & Hcp & Hl & Hok) Ho]. unfold vty_kill_line, minus. rewrite decide_True by lia. ostep.
  replace (len (ed v) - cp (ed v)) with (length r) by lia. destruct (decide (length r = 0)) as [E|E].
  { destruct r; [|done]. exists v. split; [done|]. by apply edits_refl. }
  destruct (write_n_edits (length r) SP v l r Hs) as (v1 & -> & H1). ostep.
  destruct (write_n_edits (length r) BS v1 l r (edits_shown _ _ _ _ _ H1)) as (v2 & -> & H2). ostep.
  rewrite Hb, (blit_mid l r) by (done || apply length_replicate). ostep. eexists. split; [reflexivity|].
  eapply edits_set; [exact (edits_trans _ _ _ _ _ _ _ _ _ H1 H2)|]. destruct (length r) as [|k] eqn:Ek; [done|]. cbn [replicate].
  exists (replicate k 0%Z ++ 0%Z :: junk). cbn [buf cp len app]. split_and!; try done.
  - rewrite Hb in Hlen. lens.
  - cbn. lia.
  - rewrite app_nil_r. rewrite line_ok_app in Hok. tauto.
Qed.

(** What a sequence of basic steps makes of the line and what it echoes. *)
Inductive bsteps : list Z * list Z → list Z → list Z * list Z → Prop :=
  | b_refl z : bsteps z [] z
  | b_trans z1 b1 z2 b2 z3 : bsteps z1 b1 z2 → bsteps z2 b2 z3 → bsteps z1 (b1 ++ b2) z3
  | b_type l r s : line_ok s → bsteps (l, r) s (l ++ s, drop (length s) r)
  | b_back l c r : bsteps (l ++ [c], r) [BS] (l, c :: r)
  | b_insert l c r : c ≠ BS → line_ok r → bsteps (l, r) (c :: r ++ replicate (length r) BS) (l ++ [c], r)
  | b_delete l c r : line_ok r → bsteps (l, c :: r) (r ++ SP :: replicate (S (length r)) BS) (l, r)
  | b_kill l r : bsteps (l, r) (replicate (length r) SP ++ replicate (length r) BS) (l, []).

(** The operation takes the line from [z] to [z']. *)
Definition does (op : vty B → option (vty B)) v (z z' : list Z * list Z) : Prop :=
  ∃ v' bs, op v = Some v' ∧ edits v v' z'.1 z'.2 bs ∧ bsteps z bs z'.

Definition at_line v (z : list Z * list Z) : Prop := shown v z.1 z.2.

Lemma does_refl v z : at_line v z → does Some v z z.
Proof. intros Hs. exists v, []. split; [done|]. split; [by apply edits_refl|constructor]. Qed.

Lemma does_bind op1 op2 v z1 z2 z3 : does op1 v z1 z2 → (∀ v1 bs, edits v v1 z2.1 z2.2 bs → does op2 v1 z2 z3) →
  does (λ v, v ← op1 v; op2 v) v z1 z3.
Proof.
  intros (v1 & b1 & E1 & H1 & S1) H2. destruct (H2 v1 b1 H1) as (v2 & b2 & E2 & H2' & S2).
  exists v2, (b1 ++ b2). rewrite E1. ostep. split; [done|]. split; [by eapply edits_trans|]. by econstructor.
Qed.

Lemma line_ok_r v l r : shown v l r → line_ok l ∧ line_ok r.
Proof. intros [(? & _ & _ & _ & _ & H')%id _]. by apply line_ok_app. Qed.

Lemma does_insert v l r c : shown v l r → c ≠ 0%Z → c ≠ BS → length l + length r + 1 < VTY_BUFSIZ →
  does (λ v, vty_self_insert v c) v (l, r) (l ++ [c], r).
Proof.
  intros Hs H0 H8 Hroom. destruct (insert_step v l r c Hs H0 H8 Hroom) as (v' & E & He). exists v', (c :: r ++ replicate (length r) BS).
  split; [done|]. split; [done|]. constructor; [done|]. by apply (line_ok_r v l r).
Qed.

Lemma does_forward v l r c : shown v l (c :: r) → does vty_forward_char v (l, c :: r) (l ++ [c], r).
Proof.
  intros Hs. destruct (forward_step v l r c Hs) as (v' & E & He). exists v', [c]. split; [done|]. split; [done|].
  apply (b_type l (c :: r) [c]). destruct (line_ok_r v _ _ Hs) as [_ [? _]%Forall_cons]. by constructor.
Qed.

Lemma does_over v l r c d : shown v l (c :: r) → d ≠ 0%Z → d ≠ BS → does (λ v, vty_self_insert_overwrite v d) v (l, c :: r) (l ++ [d], r).
Proof.
  intros Hs H0 H8. destruct (over_step v l r c d Hs H0 H8) as (v' & E & He). exists v', [d]. split; [done|]. split; [done|].
  apply (b_type l (c :: r) [d]). by constructor.
Qed.

Lemma does_backward v l r c : shown v (l ++ [c]) r → does vty_backward_char v (l ++ [c], r) (l, c :: r).
Proof. intros Hs. destruct (backward_step v l r c Hs) as (v' & E & He). exists v', [BS]. split; [done|]. split; [done|]. constructor. Qed.

Lemma does_delete v l r c : shown v l (c :: r) → does vty_delete_char v (l, c :: r) (l, r).
Proof.
  intros Hs. destruct (delete_step v l r c Hs) as (v' & E & He). eexists v', _. split; [done|]. split; [exact He|]. constructor.
  by destruct (line_ok_r v _ _ Hs) as [_ [_ ?]%Forall_cons].
Qed.

Lemma does_kill v l r : shown v l r → does vty_kill_line v (l, r) (l, []).
Proof. intros Hs. destruct (kill_step v l r Hs) as (v' & E & He). eexists v', _. split; [done|]. split; [exact He|]. constructor. Qed.

Lemma does_back_delete v l r c : shown v (l ++ [c]) r → does vty_delete_backward_char v (l ++ [c], r) (l, r).
Proof.
  intros Hs. destruct (does_bind vty_backward_char vty_delete_char v (l ++ [c], r) (l, c :: r) (l, r)) as (v' & bs & E & He & Hb).
  - by apply does_backward.
  - intros v1 bs H1. apply does_delete. by eapply edits_shown.
  - exists v', bs. split; [|done]. unfold vty_delete_backward_char.
    destruct Hs as [(_ & _ & _ & Hcp & _)%id _]. rewrite length_app in Hcp. cbn in Hcp. rewrite decide_False by lia. done.
Qed.

(** *** Loops over the line *)

Fixpoint takew (P : Z → bool) (l : list Z) : list Z := match l with c :: l => if P c then c :: takew P l else [] | [] => [] end.
Fixpoint dropw (P : Z → bool) (l : list Z) : list Z := match l with c :: l' => if P c then dropw P l' else l | [] => [] end.
(** The longest end of [l] in [P], and the rest. *)
Definition sufw (P : Z → bool) (l : list Z) : list Z := reverse (takew P (reverse l)).
Definition prew (P : Z → bool) (l : list Z) : list Z := reverse (dropw P (reverse l)).

Lemma sufw_snoc P l c : sufw P (l ++ [c]) = if P c then sufw P l ++ [c] else [].
Proof. unfold sufw. rewrite reverse_snoc. cbn [takew]. destruct (P c); [by rewrite reverse_cons|done]. Qed.
Lemma prew_snoc P l c : prew P (l ++ [c]) = if P c then prew P l else l ++ [c].
Proof. unfold prew. rewrite reverse_snoc. cbn [dropw]. destruct (P c); [done|]. by rewrite reverse_cons, reverse_involutive. Qed.

(** A loop that looks at the character at the cursor; [left] is whether the body
    leaves the character before the cursor or deletes it. *)
Lemma forward_loop (P : Z → bool) (keep : bool) cond body fuel : ∀ v l r,
  (∀ v l r, shown v l r → cond v = Some (match r with c :: _ => P c | [] => false end)) →
  (∀ v l r c, shown v l (c :: r) → does body v (l, c :: r) (if keep then l ++ [c] else l, r)) →
  shown v l r → length r ≤ fuel →
  does (while fuel cond body) v (l, r) (if keep then l ++ takew P r else l, dropw P r).
Proof.
  intros v l r Hc Hb. revert v l r. induction fuel as [|fuel IH]; intros v l r Hs Hf.
  - destruct r; [|cbn in Hf; lia]. exists v, []. cbn [while]. rewrite (Hc v l [] Hs). ostep. split; [done|].
    cbn. rewrite app_nil_r. replace (if keep then l else l) with l by (by destruct keep). split; [by apply edits_refl|constructor].
  - destruct r as [|c r].
    { exists v, []. cbn [while]. rewrite (Hc v l [] Hs). ostep. split; [done|].
      cbn. rewrite app_nil_r. replace (if keep then l else l) with l by (by destruct keep). split; [by apply edits_refl|constructor]. }
    destruct (P c) eqn:Ep.
    + destruct (does_bind body (while fuel cond body) v (l, c :: r) (if keep then l ++ [c] else l, r)
        (if keep then l ++ takew P (c :: r) else l, dropw P (c :: r))) as (v' & bs & E & H').
      * by apply Hb.
      * intros v1 b1 H1. destruct (IH v1 _ r (edits_shown _ _ _ _ _ H1)) as (v2 & b2 & ? & ? & ?); [cbn in Hf; lia|].
        exists v2, b2. cbn [takew dropw]. rewrite Ep. destruct keep; [rewrite (cons_middle c l), app_assoc|]; done.
      * exists v', bs. cbn [while]. rewrite (Hc v l _ Hs), Ep. ostep. done.
    + exists v, []. cbn [while]. rewrite (Hc v l _ Hs), Ep. ostep. split; [done|]. cbn. rewrite Ep, app_nil_r.
      replace (if keep then l else l) with l by (by destruct keep). split; [by apply edits_refl|constructor].
Qed.

Lemma backward_loop (P : Z → bool) (keep : bool) cond body fuel : ∀ v l r,
  (∀ v l r, shown v l r → cond v = Some (match last l with Some c => P c | None => false end)) →
  (∀ v l r c, shown v (l ++ [c]) r → does body v (l ++ [c], r) (l, if keep then c :: r else r)) →
  shown v l r → length l ≤ fuel →
  does (while fuel cond body) v (l, r) (prew P l, if keep then sufw P l ++ r else r).
Proof.
  intros v l r Hc Hb. revert v r fuel. induction l as [|c l IH] using rev_ind; intros v r fuel Hs Hf.
  - exists v, []. assert (while fuel cond body v = Some v) as -> by (destruct fuel; cbn [while]; rewrite (Hc v [] r Hs); done).
    split; [done|]. cbn. replace (if keep then r else r) with r by (by destruct keep). split; [by apply edits_refl|constructor].
  - rewrite sufw_snoc, prew_snoc. pose proof (Hc v _ _ Hs) as Hcv. rewrite last_snoc in Hcv. destruct (P c) eqn:Ep.
    + destruct fuel as [|fuel]; [rewrite length_app in Hf; cbn in Hf; lia|].
      destruct (does_bind body (while fuel cond body) v (l ++ [c], r) (l, if keep then c :: r else r)
        (prew P l, if keep then (sufw P l ++ [c]) ++ r else r)) as (v' & bs & E & H').
      * by apply Hb.
      * intros v1 b1 H1. destruct (IH v1 _ fuel (edits_shown _ _ _ _ _ H1)) as (v2 & b2 & ? & ? & ?); [rewrite length_app in Hf; cbn in Hf; lia|].
        exists v2, b2. destruct keep; [rewrite <- app_assoc|]; done.
      * exists v', bs. cbn [while]. rewrite Hcv. ostep. done.
    + exists v, []. assert (while fuel cond body v = Some v) as -> by (destruct fuel; cbn [while]; rewrite Hcv; done).
      split; [done|]. replace (if keep then [] ++ r else r) with r by (by destruct keep). split; [by apply edits_refl|constructor].
Qed.

(** *** Editing keys *)

Inductive key :=
  | KInsert (c : Z) | KForward | KBackward | KHome | KEnd | KForwardWord | KBackwardWord
  | KDelete | KDeleteBackward | KKill | KKillAll | KForwardKillWord | KBackwardKillWord | KTranspose.

Definition key_op (k : key) : vty B → option (vty B) :=
  match k with
  | KInsert c => λ v, vty_self_insert v c
  | KForward => vty_forward_char
  | KBackward => vty_backward_char
  | KHome => vty_beginning_of_line
  | KEnd => vty_end_of_line
  | KForwardWord => vty_forward_word
  | KBackwardWord => vty_backward_word
  | KDelete => vty_delete_char
  | KDeleteBackward => vty_delete_backward_char
  | KKill => vty_kill_line
  | KKillAll => vty_kill_line_from_beginning
  | KForwardKillWord => vty_forward_kill_word
  | KBackwardKillWord => vty_backward_kill_word
  | KTranspose => vty_transpose_chars
  end.

Definition spaces (space : bool) (c : Z) : bool := bool_decide ((c = SP) ↔ space = true).

(** What a key means: on a list with a cursor. *)
Definition apply_key (k : key) (z : list Z * list Z) : list Z * list Z :=
  let '(l, r) := z in
  match k with
  | KInsert c => if decide (VTY_BUFSIZ ≤ length l + length r + 1) then z else (l ++ [c], r)
  | KForward => match r with c :: r => (l ++ [c], r) | [] => z end
  | KBackward => match reverse l with c :: l => (reverse l, c :: r) | [] => z end
  | KHome => ([], l ++ r)
  | KEnd => (l ++ r, [])
  | KForwardWord => (l ++ takew (spaces false) r ++ takew (spaces true) (dropw (spaces false) r), dropw (spaces true) (dropw (spaces false) r))
  | KBackwardWord => (prew (spaces false) (prew (spaces true) l), sufw (spaces false) (prew (spaces true) l) ++ sufw (spaces true) l ++ r)
  | KDelete => match r with _ :: r => (l, r) | [] => z end
  | KDeleteBackward => match reverse l with _ :: l => (reverse l, r) | [] => z end
  | KKill => (l, [])
  | KKillAll => ([], [])
  | KForwardKillWord => (l, dropw (spaces false) (dropw (spaces true) r))
  | KBackwardKillWord => (prew (spaces false) (prew (spaces true) l), r)
  | KTranspose =>
      match r, reverse l with
      | [], c1 :: c2 :: l => (reverse l ++ [c1; c2], [])
      | c1 :: r, c2 :: l => (reverse l ++ [c1; c2], r)
      | _, _ => z
      end
  end.

Definition key_ok (k : key) (z : list Z * list Z) : Prop :=
  match k with KInsert c => c ≠ 0%Z ∧ c ≠ BS | KDelete => z ≠ ([], []) | _ => True end.

Lemma does_ext op op' v z z' : op v = op' v → does op' v z z' → does op v z z'.
Proof. intros E (v' & bs & ? & ?). exists v', bs. by rewrite E. Qed.

Lemma shown_cp v l r : shown v l r → cp (ed v) = length l ∧ len (ed v) = length l + length r.
Proof. by intros [(_ & _ & _ & ? & ? & _) _]. Qed.

Lemma shown_at v l r : shown v l r → ∀ i, i < length l + length r → buf (ed v) !! i = (l ++ r) !! i.
Proof. intros [(junk & -> & _) _] i Hi. rewrite app_assoc, lookup_app_l; [done|]. rewrite length_app. lia. Qed.

Lemma at_cursor_spec space v l r : shown v l r → at_cursor space v = Some (match r with c :: _ => spaces space c | [] => false end).
Proof.
  intros Hs. destruct (shown_cp v l r Hs) as [Hc Hl]. unfold at_cursor. rewrite Hc, Hl. destruct r as [|c r]; [by rewrite decide_True by (cbn; lia)|].
  rewrite decide_False by (cbn; lia). rewrite (shown_at v l (c :: r) Hs) by (cbn; lia). by rewrite list_lookup_middle.
Qed.

Lemma before_cursor_spec space v l r : shown v l r → before_cursor space v = Some (match last l with Some c => spaces space c | None => false end).
Proof.
  intros Hs. destruct (shown_cp v l r Hs) as [Hc Hl]. unfold before_cursor. rewrite Hc. destruct l as [|c l _] using rev_ind; [by rewrite decide_False by (cbn; lia)|].
  rewrite last_snoc, length_app. cbn [length]. rewrite decide_True by lia. rewrite (shown_at v (l ++ [c]) r Hs) by (rewrite length_app; cbn; lia).
  replace (length l + 1 - 1) with (length l) by lia. rewrite <- app_assoc. cbn [app]. by rewrite list_lookup_middle.
Qed.

Lemma takew_all l : takew (λ _, true) l = l.
Proof. induction l; cbn; congruence. Qed.
Lemma dropw_all l : dropw (λ _, true) l = [].
Proof. by induction l. Qed.
Lemma sufw_all l : sufw (λ _, true) l = l.
Proof. unfold sufw. by rewrite takew_all, reverse_involutive. Qed.
Lemma prew_all l : prew (λ _, true) l = [].
Proof. unfold prew. by rewrite dropw_all. Qed.

Lemma does_home v l r : shown v l r → does vty_beginning_of_line v (l, r) ([], l ++ r).
Proof.
  intros Hs. pose proof (backward_loop (λ _, true) true (λ v, Some (bool_decide (cp (ed v) ≠ 0))) vty_backward_char (cp (ed v)) v l r) as Hd.
  rewrite prew_all, sufw_all in Hd. apply Hd; [|intros; by apply does_backward|done|destruct (shown_cp v l r Hs); lia].
  clear. intros v l r Hs. destruct (shown_cp v l r Hs) as [-> _]. destruct l as [|c l _] using rev_ind; [done|].
  rewrite last_snoc. rewrite bool_decide_eq_true_2; [done|]. rewrite length_app. cbn. lia.
Qed.

Lemma does_end v l r : shown v l r → does vty_end_of_line v (l, r) (l ++ r, []).
Proof.
  intros Hs. pose proof (forward_loop (λ _, true) true (λ v, Some (bool_decide (cp (ed v) < len (ed v)))) vty_forward_char (len (ed v)) v l r) as Hd.
  rewrite dropw_all, takew_all in Hd. apply Hd; [|intros; by apply does_forward|done|destruct (shown_cp v l r Hs); lia].
  clear. intros v l r Hs. destruct (shown_cp v l r Hs) as [-> ->]. destruct r; cbn; [by rewrite bool_decide_eq_false_2 by lia|by rewrite bool_decide_eq_true_2 by lia].
Qed.

(** The four loops over words, at any line. *)
Lemma forward_over space v l r : shown v l r →
  does (λ v, while (len (ed v)) (at_cursor space) vty_forward_char v) v (l, r) (l ++ takew (spaces space) r, dropw (spaces space) r).
Proof.
  intros Hs. apply (does_ext _ (while (len (ed v)) (at_cursor space) vty_forward_char)); [done|].
  apply (forward_loop (spaces space) true); [intros; by eapply at_cursor_spec|intros; by apply does_forward|done|destruct (shown_cp v l r Hs); lia].
Qed.
Lemma forward_kill space v l r : shown v l r →
  does (λ v, while (len (ed v)) (at_cursor space) vty_delete_char v) v (l, r) (l, dropw (spaces space) r).
Proof.
  intros Hs. apply (does_ext _ (while (len (ed v)) (at_cursor space) vty_delete_char)); [done|].
  apply (forward_loop (spaces space) false); [intros; by eapply at_cursor_spec|intros; by apply does_delete|done|destruct (shown_cp v l r Hs); lia].
Qed.
Lemma backward_over space v l r : shown v l r →
  does (λ v, while (cp (ed v)) (before_cursor space) vty_backward_char v) v (l, r) (prew (spaces space) l, sufw (spaces space) l ++ r).
Proof.
  intros Hs. apply (does_ext _ (while (cp (ed v)) (before_cursor space) vty_backward_char)); [done|].
  apply (backward_loop (spaces space) true); [intros; by eapply before_cursor_spec|intros; by apply does_backward|done|destruct (shown_cp v l r Hs); lia].
Qed.
Lemma backward_kill space v l r : shown v l r →
  does (λ v, while (cp (ed v)) (before_cursor space) vty_delete_backward_char v) v (l, r) (prew (spaces space) l, r).
Proof.
  intros Hs. apply (does_ext _ (while (cp (ed v)) (before_cursor space) vty_delete_backward_char)); [done|].
  apply (backward_loop (spaces space) false); [intros; by eapply before_cursor_spec|intros; by apply does_back_delete|done|destruct (shown_cp v l r Hs); lia].
Qed.

Lemma does_transpose v l r c1 c2 : shown v (l ++ [c2]) (c1 :: r) → does vty_transpose_chars v (l ++ [c2], c1 :: r) (l ++ [c1; c2], r).
Proof.
  intros Hs. destruct (shown_cp _ _ _ Hs) as [Hc Hl]. pose proof (shown_at _ _ _ Hs) as Hat. rewrite length_app in *. cbn [length] in *.
  destruct (line_ok_r v _ _ Hs) as [[_ [[P1 P2] _]%Forall_cons]%Forall_app [[P3 P4] _]%Forall_cons].
  destruct (does_bind vty_backward_char (λ v, v ← vty_self_insert_overwrite v c1; vty_self_insert_overwrite v c2) v (l ++ [c2], c1 :: r) (l, c2 :: c1 :: r) (l ++ [c1; c2], r))
    as (v' & bs & E & H').
  - by apply does_backward.
  - intros v1 b1 H1. apply (does_bind (λ v, vty_self_insert_overwrite v c1) (λ v, vty_self_insert_overwrite v c2) v1 _ (l ++ [c1], c1 :: r)).
    + by apply does_over; [eapply edits_shown|..].
    + intros v2 b2 H2. replace (l ++ [c1; c2]) with ((l ++ [c1]) ++ [c2]) by (by rewrite <- app_assoc). by eapply does_over; [eapply edits_shown|..].
  - exists v', bs. split; [|done]. unfold vty_transpose_chars. rewrite decide_False by lia. rewrite decide_False by lia.
    assert (buf (ed v) !! cp (ed v) = Some c1) as ->.
    { rewrite Hat by lia. rewrite Hc. apply list_lookup_middle. rewrite length_app. cbn. lia. }
    ostep. assert (buf (ed v) !! (cp (ed v) - 1) = Some c2) as ->; [|by ostep].
    rewrite Hat by lia. rewrite Hc, <- app_assoc. apply list_lookup_middle. lia.
Qed.

Lemma does_transpose_end v l c1 c2 : shown v (l ++ [c2; c1]) [] → does vty_transpose_chars v (l ++ [c2; c1], []) (l ++ [c1; c2], []).
Proof.
  intros Hs. destruct (shown_cp _ _ _ Hs) as [Hc Hl]. pose proof (shown_at _ _ _ Hs) as Hat. rewrite length_app in *. cbn [length] in *.
  destruct (line_ok_r v _ _ Hs) as [[_ [[P1 P2] [[P3 P4] _]%Forall_cons]%Forall_cons]%Forall_app _].
  destruct (does_bind vty_backward_char (λ v, v ← vty_backward_char v; v ← vty_self_insert_overwrite v c1; vty_self_insert_overwrite v c2) v
    (l ++ [c2; c1], []) (l ++ [c2], [c1]) (l ++ [c1; c2], [])) as (v' & bs & E & H').
  - replace (l ++ [c2; c1]) with ((l ++ [c2]) ++ [c1]) in * by (by rewrite <- app_assoc). by apply does_backward.
  - intros v1 b1 H1. apply (does_bind vty_backward_char (λ v, v ← vty_self_insert_overwrite v c1; vty_self_insert_overwrite v c2) v1 _ (l, [c2; c1])).
    + apply does_backward. by eapply edits_shown.
    + intros v2 b2 H2. apply (does_bind (λ v, vty_self_insert_overwrite v c1) (λ v, vty_self_insert_overwrite v c2) v2 _ (l ++ [c1], [c1])).
      * by apply does_over; [eapply edits_shown|..].
      * intros v3 b3 H3. replace (l ++ [c1; c2]) with ((l ++ [c1]) ++ [c2]) by (by rewrite <- app_assoc). by eapply does_over; [eapply edits_shown|..].
  - exists v', bs. split; [|done]. unfold vty_transpose_chars. rewrite decide_False by lia. rewrite decide_True by lia.
    assert (buf (ed v) !! (cp (ed v) - 1) = Some c1) as ->.
    { rewrite Hat by lia. rewrite Hc, app_nil_r. replace (l ++ [c2; c1]) with ((l ++ [c2]) ++ [c1]) by (by rewrite <- app_assoc).
      apply list_lookup_middle. rewrite length_app. cbn. lia. }
    ostep. assert (buf (ed v) !! (cp (ed v) - 2) = Some c2) as ->; [|by ostep].
    rewrite Hat by lia. rewrite Hc, app_nil_r. apply list_lookup_middle. lia.
Qed.

Lemma reverse_cons_inv {A} (l : list A) c l' : reverse l = c :: l' → l = reverse l' ++ [c].
Proof. intros E. rewrite <- (reverse_involutive l), E. apply reverse_cons. Qed.

Lemma key_does k v z : at_line v z → key_ok k z → does (key_op k) v z (apply_key k z).
Proof.
  intros Hs Hk. destruct z as [l r]. unfold at_line in Hs. cbn [fst snd] in Hs. destruct (shown_cp v l r Hs) as [Hc Hl].
  assert (does Some v (l, r) (l, r)) as Hid by (by apply does_refl).
  destruct k as [c| | | | | | | | | | | | | ]; cbn [key_op apply_key].
  - destruct Hk as [H0 H8]. destruct (decide (VTY_BUFSIZ ≤ length l + length r + 1)) as [Hfull|Hroom]; [|apply does_insert; [done|done|done|lia]].
    apply (does_ext _ Some); [|done]. unfold vty_self_insert. by rewrite decide_True by lia.
  - destruct r as [|c r]; [|by apply does_forward]. apply (does_ext _ Some); [|done]. unfold vty_forward_char. by rewrite decide_False by (cbn in *; lia).
  - destruct (reverse l) as [|c l'] eqn:E; [|rewrite (reverse_cons_inv l c l' E) in *; by apply does_backward].
    apply (does_ext _ Some); [|done]. unfold vty_backward_char. apply (f_equal length) in E. rewrite length_reverse in E. cbn in E. by rewrite decide_False by lia.
  - by apply does_home.
  - by apply does_end.
  - eapply does_bind; [by apply forward_over|]. intros v1 bs H1. rewrite (app_assoc l). apply forward_over. by eapply edits_shown.
  - eapply does_bind; [by apply backward_over|]. intros v1 bs H1. apply backward_over. by eapply edits_shown.
  - destruct r as [|c r]; [|by apply does_delete]. apply (does_ext _ Some); [|done]. unfold vty_delete_char.
    rewrite decide_False; [by rewrite decide_True by (cbn in *; lia)|]. intros E. apply Hk. destruct l; [done|cbn in *; lia].
  - destruct (reverse l) as [|c l'] eqn:E; [|rewrite (reverse_cons_inv l c l' E) in *; by apply does_back_delete].
    apply (does_ext _ Some); [|done]. unfold vty_delete_backward_char. apply (f_equal length) in E. rewrite length_reverse in E. cbn in E. by rewrite decide_True by lia.
  - by apply does_kill.
  - eapply does_bind; [by apply does_home|]. intros v1 bs H1. apply does_kill. by eapply edits_shown.
  - eapply does_bind; [by apply forward_kill|]. intros v1 bs H1. apply forward_kill. by eapply edits_shown.
  - eapply does_bind; [by apply backward_kill|]. intros v1 bs H1. apply backward_kill. by eapply edits_shown.
  - destruct r as [|c1 r].
    + destruct (reverse l) as [|c1 [|c2 l']] eqn:E.
      1,2: apply (does_ext _ Some); [|done]; unfold vty_transpose_chars; apply (f_equal length) in E; rewrite length_reverse in E; cbn in *; by rewrite decide_True by lia.
      apply reverse_cons_inv in E. rewrite reverse_cons, <- app_assoc in E. cbn in E. rewrite E in *. by apply does_transpose_end.
    + destruct (reverse l) as [|c2 l'] eqn:E.
      { apply (does_ext _ Some); [|done]. unfold vty_transpose_chars. apply (f_equal length) in E. rewrite length_reverse in E. cbn in *. by rewrite decide_True by lia. }
      rewrite (reverse_cons_inv l c2 l' E) in *. by apply does_transpose.
Qed.

(** ** What the user sees *)

(** A row of a terminal: its cells, blank at first, and the cursor.  A backspace
    moves the cursor, any other byte here is displayed at the cursor. *)
Record term := Term { cell : nat → Z; cur : nat }.
Definition feed1 (t : term) (b : Z) : term :=
  if decide (b = BS) then Term (cell t) (cur t - 1)
  else Term (λ i, if decide (i = cur t) then b else cell t i) (cur t + 1).
Definition feed (t : term) (bs : list Z) : term := foldl feed1 t bs.

(** The row shows the prompt and the line, and the cursor is where it should be. *)
Definition displays (t : term) (prompt : list Z) (z : list Z * list Z) : Prop :=
  cur t = length prompt + length z.1 ∧ ∀ i, cell t i = default SP ((prompt ++ z.1 ++ z.2) !! i).

Lemma feed_app t a b : feed t (a ++ b) = feed (feed t a) b.
Proof. apply foldl_app. Qed.

Lemma feed_text s : ∀ t, Forall (λ c, c ≠ BS) s → cur (feed t s) = cur t + length s ∧
  ∀ i, cell (feed t s) i = if decide (cur t ≤ i < cur t + length s) then default SP (s !! (i - cur t)) else cell t i.
Proof.
  induction s as [|c s IH]; intros t Hs.
  { cbn. split; [lia|]. intros i. by rewrite decide_False by lia. }
  apply Forall_cons in Hs as [Hc Hs]. destruct (IH (feed1 t c) Hs) as [E1 E2]. change (feed t (c :: s)) with (feed (feed1 t c) s).
  unfold feed1 in *. rewrite decide_False in * by done. cbn [cur cell] in *. split; [cbn; lia|]. intros i. rewrite E2. cbn [length].
  destruct (decide (i = cur t)) as [->|Hne].
  - rewrite decide_False by lia. rewrite decide_True by lia. by rewrite Nat.sub_diag.
  - destruct (decide (cur t + 1 ≤ i < cur t + 1 + length s)) as [Hin|Hout].
    + rewrite decide_True by lia. replace (i - cur t) with (S (i - (cur t + 1))) by lia. done.
    + by rewrite decide_False by lia.
Qed.

Lemma feed_back n t : feed t (replicate n BS) = Term (cell t) (cur t - n).
Proof.
  revert t. induction n as [|n IH]; intros t; [rewrite Nat.sub_0_r; by destruct t|]. cbn [replicate]. change (feed t (BS :: replicate n BS)) with (feed (feed1 t BS) (replicate n BS)).
  rewrite IH. unfold feed1. rewrite decide_True by done. cbn. f_equal. lia.
Qed.

Lemma line_text s : line_ok s → Forall (λ c, c ≠ BS) s.
Proof. intros Hs. eapply Forall_impl; [exact Hs|]. by intros c []. Qed.

(** Displaying [s] at the cursor and going back [n] cells. *)
Lemma redisplay t b r s n x : cur t = length b → (∀ i, cell t i = default SP ((b ++ r) !! i)) → Forall (λ c, c ≠ BS) s →
  (∀ j, default SP (x !! j) = if decide (j < length s) then default SP (s !! j) else default SP (r !! j)) →
  cur (feed t (s ++ replicate n BS)) = length b + length s - n ∧ ∀ i, cell (feed t (s ++ replicate n BS)) i = default SP ((b ++ x) !! i).
Proof.
  intros Hcur Hcell Hs Hx. destruct (feed_text s t Hs) as [E1 E2]. rewrite feed_app, feed_back. cbn. split; [lia|].
  intros i. rewrite E2, Hcell, Hcur. destruct (decide (i < length b)) as [Hi|Hi].
  - rewrite decide_False by lia. by rewrite !lookup_app_l.
  - rewrite !lookup_app_r by lia. rewrite Hx. destruct (decide (i - length b < length s)); [by rewrite decide_True by lia|by rewrite decide_False by lia].
Qed.

Lemma lookup_beyond (s : list Z) j : length s ≤ j → s !! j = None.
Proof. apply lookup_ge_None_2. Qed.

Lemma bsteps_display z bs z' : bsteps z bs z' → ∀ t prompt, displays t prompt z → displays (feed t bs) prompt z'.
Proof.
  induction 1 as [z|z1 b1 z2 b2 z3 _ IH1 _ IH2|l r s Hs|l c r|l c r Hc Hr|l c r Hr|l r]; intros t prompt Hd;
    [done|rewrite feed_app; by apply IH2, IH1|..]; destruct Hd as [Hcur Hcell]; unfold displays; cbn [fst snd] in *;
    setoid_rewrite app_assoc in Hcell; rewrite <- length_app in Hcur; rewrite <- ?length_app; setoid_rewrite app_assoc.
  - destruct (redisplay t (prompt ++ l) r s 0 (s ++ drop (length s) r) Hcur Hcell (line_text s Hs)) as [E1 E2].
    + intros j. destruct (decide (j < length s)); [by rewrite lookup_app_l|]. rewrite lookup_app_r, lookup_drop by lia. do 2 f_equal. lia.
    + rewrite app_nil_r in E1, E2. split; [rewrite E1; lens|]. intros i. rewrite E2. by rewrite !app_assoc.
  - pose proof (feed_back 1 t) as E. cbn [replicate] in E. rewrite E. cbn. split; [rewrite Hcur; lens|]. intros i. rewrite Hcell. by rewrite <- !app_assoc.
  - destruct (redisplay t (prompt ++ l) r (c :: r) (length r) (c :: r) Hcur Hcell) as [E1 E2].
    + constructor; [done|by apply line_text].
    + intros j. destruct (decide (j < length (c :: r))); [done|]. rewrite !lookup_beyond by (cbn in *; lia). done.
    + cbn [app] in E1, E2. split; [rewrite E1; lens|]. intros i. rewrite E2. by rewrite <- !app_assoc.
  - destruct (redisplay t (prompt ++ l) (c :: r) (r ++ [SP]) (S (length r)) r Hcur Hcell) as [E1 E2].
    + apply Forall_app. split; [by apply line_text|by repeat constructor].
    + intros j. rewrite length_app. cbn [length]. destruct (decide (j < length r)).
      * rewrite decide_True by lia. by rewrite lookup_app_l.
      * rewrite (lookup_beyond r) by lia. destruct (decide (j < length r + 1)).
        -- rewrite lookup_app_r by lia. by replace (j - length r) with 0 by lia.
        -- by rewrite lookup_beyond by (cbn; lia).
    + assert ((r ++ [SP]) ++ replicate (S (length r)) BS = r ++ SP :: replicate (S (length r)) BS) as Er by (by rewrite <- app_assoc).
      rewrite Er in E1, E2. split; [rewrite E1; lens|exact E2].
  - destruct (redisplay t (prompt ++ l) r (replicate (length r) SP) (length r) [] Hcur Hcell) as [E1 E2].
    + by apply Forall_replicate.
    + intros j. rewrite length_replicate. destruct (decide (j < length r)); [by rewrite lookup_replicate_2|]. by rewrite !lookup_beyond by (cbn; lia).
    + split; [rewrite E1; lens|exact E2].
Qed.

(** ** Sequences of keys *)

Fixpoint keys_ok (ks : list key) (z : list Z * list Z) : Prop :=
  match ks with [] => True | k :: ks => key_ok k z ∧ keys_ok ks (apply_key k z) end.
Definition press (v : option (vty B)) (k : key) : option (vty B) := v ← v; key_op k v.
Definition press_all v (ks : list key) : option (vty B) := foldl press (Some v) ks.

(** C32: the line editor is a list of characters with a cursor: every sequence of
    editing keys acts on the buffer as the keys are meant, without an access
    outside the buffer, and leaves everything else of the session alone.  What is
    echoed makes a terminal that displayed the line and the cursor display the new
    line and the new cursor; at a password prompt nothing is echoed. *)
Theorem editor_refines v (z : list Z * list Z) (ks : list key) : at_line v z → keys_ok ks z →
  ∃ v' echo, press_all v ks = Some v' ∧ at_line v' (foldl (flip apply_key) z ks) ∧ hs v' = hs v ∧ ss v' = ss v ∧ tn v' = tn v
    ∧ ob_contents (obuf (out v')) = ob_contents (obuf (out v)) ++ (if hidden (ss v) then [] else echo)
    ∧ ∀ t prompt, displays t prompt z → displays (feed t echo) prompt (foldl (flip apply_key) z ks).
Proof.
  intros Hs Hk. assert (does (λ v, press_all v ks) v z (foldl (flip apply_key) z ks)) as (v' & bs & E & He & Hb).
  { revert v z Hs Hk. induction ks as [|k ks IH]; intros v z Hs Hk; [by apply does_refl|]. destruct Hk as [Hk Hks]. cbn [foldl].
    assert (∀ ov : option (vty B), foldl press ov ks = (v ← ov; press_all v ks)) as Hf.
    { intros [v0|]; [done|]. cbn. clear. by induction ks. }
    apply (does_ext _ (λ v, v ← key_op k v; press_all v ks)).
    { unfold press_all. cbn [foldl press]. rewrite Hf. done. }
    eapply does_bind; [by apply key_does|]. intros v1 b1 H1. apply IH; [by eapply edits_shown|done]. }
  exists v', bs. split; [done|]. split; [by eapply edits_shown|]. destruct He as (_ & _ & Hc & Ev).
  split_and!; try done; try (by rewrite Ev). intros t prompt Hd. by eapply bsteps_display.
Qed.

(** ** The history *)

Lemma zstr_app s t : line_ok s → zstr (s ++ 0%Z :: t) = Some s.
Proof.
  induction 1 as [|c s [Hc _] _ IH]; cbn; [done|]. rewrite (proj2 (Z.eqb_neq c 0) Hc), IH. done.
Qed.

Lemma redraw_does v l r : shown v l r → ∃ v', vty_redraw_line v = Some v' ∧ edits v v' (l ++ r) [] (l ++ r).
Proof.
  intros Hs. pose proof Hs as [Hr Ho]. pose proof Hr as (junk & Hb & Hlen & Hcp & Hl & Hok). unfold vty_redraw_line.
  assert (slice (buf (ed v)) 0 (len (ed v)) = Some (l ++ r)) as ->.
  { rewrite Hb, app_assoc. apply (slice_mid [] (l ++ r)); [done|]. by rewrite length_app. }
  ostep. destruct (write_edits v l r (l ++ r) Hs) as (v1 & -> & H1). ostep. eexists. split; [reflexivity|]. eapply edits_set; [exact H1|].
  destruct (edits_shown _ _ _ _ _ H1) as [Hr1 _]. assert (len (ed v1) = length (l ++ r)) as E by (rewrite length_app; by destruct Hr1 as (_ & _ & _ & _ & ? & _)).
  rewrite E at 1. apply (rep_move _ l r); [done|by rewrite app_nil_r].
Qed.

Lemma history_print_does v l r s : shown v l r → hist (hs v) !! hp (hs v) = Some (Some s) → line_ok s → length s < VTY_BUFSIZ →
  does vty_history_print v (l, r) (s, []).
Proof.
  intros Hs Hh Hok Hlen. apply (does_bind vty_kill_line_from_beginning (λ v, s ← hist (hs v) !! hp (hs v); s ← s; b ← blit (buf (ed v)) 0 s; b ← write b (length s) 0%Z;
    vty_redraw_line (set_ed (Edit b (length s) (length s)) v)) v (l, r) ([], [])); [by apply (key_does KKillAll)|].
  intros v1 b1 H1. unfold does. cbv beta. assert (hs v1 = hs v) as -> by (by destruct H1 as (_ & _ & _ & ->)). rewrite Hh.
  destruct (edits_shown _ _ _ _ _ H1) as [(junk & Hb & Hl & _) Ho]. cbn in Hb.
  assert (length (0%Z :: junk) = VTY_BUFSIZ) as Hj by (by rewrite <- Hb).
  assert (blit (buf (ed v1)) 0 s = Some (s ++ drop (length s) (0%Z :: junk))) as Eb.
  { rewrite Hb. rewrite <- (take_drop (length s) (0%Z :: junk)) at 1. apply (blit_mid []); [done|]. rewrite length_take. lia. }
  destruct (drop (length s) (0%Z :: junk)) as [|x t] eqn:Ed; [apply (f_equal length) in Ed; rewrite length_drop, Hj in Ed; cbn [length] in Ed; lia|].
  set (e := Edit (s ++ 0%Z :: t) (length s) (length s)). assert (rep e s []) as Hr.
  { exists t. split; [done|]. split_and!; [|done|by rewrite Nat.add_0_r|by rewrite app_nil_r].
    apply (f_equal length) in Ed. rewrite length_drop, Hj in Ed. cbn [length] in Ed. subst e. cbn [buf]. rewrite length_app. cbn [length]. lia. }
  destruct (redraw_does (set_ed e v1) s []) as (v2 & E2 & H2); [done|]. exists v2, s. ostep. ostep. rewrite Eb. ostep. rewrite write_mid by done. ostep.
  split; [exact E2|]. rewrite app_nil_r in H2. split; [|pose proof (b_type [] [] s Hok) as Hb'; by rewrite drop_nil in Hb']. destruct H2 as (? & ? & ? & E3). by split_and!.
Qed.

(** The ring: [recent] are the lines, the newest first, and [k] is how many lines
    back the user has gone. *)
Definition at_ring (i j : nat) : nat := (i + (2 * VTY_MAXHIST - 1) - j) mod VTY_MAXHIST.
Definition back_slot (i k : nat) : nat := (i + VTY_MAXHIST - k) mod VTY_MAXHIST.
Record ring (h : hists) (recent : list (list Z)) (k : nat) : Prop := Ring {
  r_len : length (hist h) = VTY_MAXHIST;
  r_index : hindex h < VTY_MAXHIST;
  r_back : k < VTY_MAXHIST;
  r_hp : hp h = back_slot (hindex h) k;
  r_recent : ∀ j, j < VTY_MAXHIST → hist h !! at_ring (hindex h) j = Some (recent !! j);
  r_size : length recent ≤ VTY_MAXHIST;
  r_lines : Forall (λ s, line_ok s ∧ s ≠ [] ∧ length s < VTY_BUFSIZ) recent }.

(** What adding a line and going back and forth mean. *)
Definition next_slot (i : nat) : nat := if decide (i + 1 = VTY_MAXHIST) then 0 else i + 1.
Definition newer (k : nat) : nat := if decide (k = 1) then VTY_MAXHIST - 1 else k - 2.
Definition hist_add (s : list Z) (recent : list (list Z)) : list (list Z) :=
  if decide (s = [] ∨ recent !! 0 = Some s) then recent else take VTY_MAXHIST (s :: recent).
Definition hist_prev (recent : list (list Z)) (k : nat) : option (list Z * nat) :=
  s ← recent !! k; Some (s, next_slot k).
Definition hist_next (recent : list (list Z)) (k : nat) : option (list Z * nat) :=
  if decide (k = 0) then None
  else s ← recent !! newer k; Some (s, k - 1).

(** Positions in the ring, case by case. *)
Lemma ring_cases (P : nat → nat → Prop) `{∀ i k, Decision (P i k)} :
  bool_decide (Forall (λ i, Forall (P i) (seq 0 VTY_MAXHIST)) (seq 0 VTY_MAXHIST)) = true → ∀ i k, i < VTY_MAXHIST → k < VTY_MAXHIST → P i k.
Proof.
  intros H1%bool_decide_eq_true i k Hi Hk. rewrite Forall_forall in H1. specialize (H1 i ltac:(apply elem_of_seq; lia)). rewrite Forall_forall in H1.
  apply H1. apply elem_of_seq. lia.
Qed.

Lemma ring_here i : i < VTY_MAXHIST → back_slot i 0 = i ∧ next_slot i < VTY_MAXHIST.
Proof. intros Hi. refine (ring_cases (λ i _, back_slot i 0 = i ∧ next_slot i < VTY_MAXHIST) _ i i Hi Hi); vm_compute; reflexivity. Qed.

Lemma last_slot i : i < VTY_MAXHIST → (if decide (i ≠ 0) then i - 1 else VTY_MAXHIST - 1) = at_ring i 0 ∧ at_ring (next_slot i) 0 = i.
Proof.
  intros Hi. refine (ring_cases (λ i _, (if decide (i ≠ 0) then i - 1 else VTY_MAXHIST - 1) = at_ring i 0 ∧ at_ring (next_slot i) 0 = i) _ i i Hi Hi); vm_compute; reflexivity.
Qed.

Lemma older_slot i j : i < VTY_MAXHIST → S j < VTY_MAXHIST → at_ring (next_slot i) (S j) = at_ring i j ∧ at_ring i j ≠ i.
Proof.
  intros Hi Hj. refine (ring_cases (λ i j, S j < VTY_MAXHIST → at_ring (next_slot i) (S j) = at_ring i j ∧ at_ring i j ≠ i) _ i j Hi ltac:(lia) Hj); vm_compute; reflexivity.
Qed.

Lemma hist_add_spec v l r recent k : shown v l r → ring (hs v) recent k → length l + length r < VTY_BUFSIZ →
  ∃ h', vty_hist_add v = Some (set_hs h' v) ∧ ring h' (hist_add (l ++ r) recent) (if decide (l ++ r = []) then k else 0).
Proof.
  intros Hs [Rl Ri Rb Rh Rr Rs Rf] Hlen. pose proof Hs as [(junk & Hb & _ & _ & Hl & Hok) _]. unfold vty_hist_add, hist_add.
  destruct (decide (len (ed v) = 0)) as [E|E].
  { assert (l ++ r = []) as -> by (apply nil_length_inv; rewrite length_app; lia). rewrite decide_True by (by left). rewrite decide_True by done.
    exists (hs v). split; [by destruct v|]. by split. }
  assert (l ++ r ≠ []) as Hne by (intros E'; apply (f_equal length) in E'; rewrite length_app in E'; cbn in E'; lia). rewrite (decide_False (P := l ++ r = [])) by done.
  destruct (last_slot _ Ri) as [-> Hlast]. destruct (ring_here _ Ri) as [Hhere Hnext].
  rewrite (Rr 0) by (unfold VTY_MAXHIST; lia). ostep.
  rewrite Hb, app_assoc, zstr_app by done. ostep. destruct (decide (recent !! 0 = Some (l ++ r))) as [Esame|Enew].
  - rewrite decide_True by (by right). eexists. split; [reflexivity|]. split; try done. unfold VTY_MAXHIST; lia.
  - rewrite (decide_False (P := l ++ r = [] ∨ _)) by (by intros [?|?]). rewrite write_Some by lia. ostep. eexists. split; [reflexivity|].
    fold (next_slot (hindex (hs v))).
    split; cbn [hist hp hindex]; try done; [by rewrite length_insert|unfold VTY_MAXHIST; lia| | | |].
    + by destruct (ring_here _ Hnext) as [-> _].
    + intros [|j] Hj; [rewrite Hlast, list_lookup_insert_eq by lia; done|]. destruct (older_slot _ j Ri Hj) as [-> Hne'].
      rewrite list_lookup_insert_ne by done. rewrite Rr by lia. by rewrite lookup_take_lt.
    + rewrite length_take. lia.
    + apply Forall_take. constructor; [|done]. split_and!; [done|done|]. rewrite length_app. lia.
Qed.

Lemma ring_line hi recent k j s : ring hi recent k → recent !! j = Some s → line_ok s ∧ length s < VTY_BUFSIZ ∧ j < VTY_MAXHIST.
Proof.
  intros [_ _ _ _ _ Rs Rf] Hj. rewrite Forall_lookup in Rf. destruct (Rf j s Hj) as (? & ? & ?). apply lookup_lt_Some in Hj. split_and!; [done|done|lia].
Qed.

(** Showing line [j] of the ring, at position [i]. *)
Lemma show_line v l r recent k i j k' : shown v l r → ring (hs v) recent k → i = at_ring (hindex (hs v)) j → j < VTY_MAXHIST →
  k' < VTY_MAXHIST → i = back_slot (hindex (hs v)) k' →
  match recent !! j with
  | Some s => ∃ v' bs, (x ← hist (hs v) !! i; match x with None => Some v | Some _ => vty_history_print (set_hs (set_hp i (hs v)) v) end) = Some v'
      ∧ edits (set_hs (set_hp i (hs v)) v) v' s [] bs ∧ bsteps (l, r) bs (s, []) ∧ ring (hs v') recent k'
  | None => (x ← hist (hs v) !! i; match x with None => Some v | Some _ => vty_history_print (set_hs (set_hp i (hs v)) v) end) = Some v
  end.
Proof.
  intros Hs Hr Hi Hj Hk' Hi'. pose proof Hr as [Rl Ri Rb Rh Rr Rs Rf]. assert (hist (hs v) !! i = Some (recent !! j)) as Hl by (rewrite Hi; by apply Rr).
  rewrite Hl. ostep. destruct (recent !! j) as [s|] eqn:E; [|done]. destruct (ring_line _ _ _ _ _ Hr E) as (Hok & Hlen & _).
  destruct (history_print_does (set_hs (set_hp i (hs v)) v) l r s Hs Hl Hok Hlen) as (v' & bs & E' & He & Hb).
  exists v', bs. split; [exact E'|]. split; [exact He|]. split; [exact Hb|].
  assert (hs v' = set_hp i (hs v)) as -> by (by destruct He as (_ & _ & _ & ->)). by split.
Qed.

(** The position of a line and of the pointer. *)

Lemma prev_index i k : i < VTY_MAXHIST → k < VTY_MAXHIST →
  try_prev (back_slot i k) = at_ring i k ∧ try_prev (back_slot i k) = back_slot i (next_slot k).
Proof. apply (ring_cases (λ i k, try_prev (back_slot i k) = at_ring i k ∧ try_prev (back_slot i k) = back_slot i (next_slot k))). vm_compute. reflexivity. Qed.

Lemma next_here i k : i < VTY_MAXHIST → k < VTY_MAXHIST → back_slot i k = i ↔ k = 0.
Proof. apply (ring_cases (λ i k, back_slot i k = i ↔ k = 0)). vm_compute. reflexivity. Qed.

Lemma next_index i k : i < VTY_MAXHIST → k < VTY_MAXHIST → k = 0 ∨
  try_next (back_slot i k) = at_ring i (newer k) ∧ try_next (back_slot i k) = back_slot i (k - 1).
Proof.
  apply (ring_cases (λ i k, k = 0 ∨ try_next (back_slot i k) = at_ring i (newer k) ∧ try_next (back_slot i k) = back_slot i (k - 1))).
  vm_compute. reflexivity.
Qed.

(** C33: the history is the list of the last twenty lines, the newest first, without
    a line that repeats the one before it: storing the line after a command adds
    it, and the keys for the previous and the next line show what is one line
    further back and one line less far back.  Going back beyond the oldest line
    of a full history starts again with the newest, and going forward beyond the
    newest shows the oldest. *)
Theorem history_refines v (z : list Z * list Z) (recent : list (list Z)) (k : nat) :
  at_line v z → ring (hs v) recent k → length z.1 + length z.2 < VTY_BUFSIZ →
  (∃ h', vty_hist_add v = Some (set_hs h' v) ∧ ring h' (hist_add (z.1 ++ z.2) recent) (if decide (z.1 ++ z.2 = []) then k else 0))
  ∧ match hist_prev recent k with
    | Some (s, k') => ∃ v', vty_previous_line v = Some v' ∧ at_line v' (s, []) ∧ ring (hs v') recent k'
    | None => vty_previous_line v = Some v
    end
  ∧ match hist_next recent k with
    | Some (s, k') => ∃ v', vty_next_line v = Some v' ∧ at_line v' (s, []) ∧ ring (hs v') recent k'
    | None => vty_next_line v = Some v
    end.
Proof.
  intros Hs Hr Hlen. destruct z as [l r]. cbn [fst snd] in *. split; [by apply hist_add_spec|]. pose proof Hr as [_ Ri Rb Rh _ _ _].
  destruct (prev_index _ _ Ri Rb) as [P1 P2]. assert (0 < VTY_MAXHIST) as Hpos by (unfold VTY_MAXHIST; lia). split.
  - unfold hist_prev, vty_previous_line. cbv zeta. rewrite Rh.
    pose proof (show_line v l r recent k _ k _ Hs Hr P1 Rb (proj2 (ring_here k Rb)) P2) as H1.
    destruct (recent !! k) as [s|]; [|exact H1]. destruct H1 as (v' & bs & E & He & _ & Hr'). exists v'. split; [exact E|]. split; [by eapply edits_shown|exact Hr'].
  - unfold hist_next, vty_next_line. rewrite Rh. destruct (decide (k = 0)) as [->|Hk]; [by rewrite decide_True by (by apply next_here)|].
    rewrite decide_False by (by rewrite next_here). destruct (next_index _ _ Ri Rb) as [?|[Q1 Q2]]; [done|]. cbv zeta.
    pose proof (show_line v l r recent k _ _ (k - 1) Hs Hr Q1 ltac:(unfold newer; destruct (decide (k = 1)); lia) ltac:(lia) Q2) as H1.
    destruct (recent !! newer k) as [s|]; [|exact H1].
    destruct H1 as (v' & bs & E & He & _ & Hr'). exists v'. split; [exact E|]. split; [by eapply edits_shown|exact Hr'].
Qed.
End vty.

(** ** Filtering output *)

Section filter.
Context {B : Type} `{OutBuffer B}.

Lemma chr_code (s : cstring) : chr <$> (code <$> s) = s.
Proof.
  rewrite <- list_fmap_compose. rewrite <- (list_fmap_id s) at 2. apply list_fmap_ext. intros _ c _. unfold chr, code. cbn.
  by rewrite N2Z.id, ascii_N_embedding.
Qed.

(** The lines of a text that are complete, and what follows the last line break. *)
Definition LFC : ascii := "010"%char.
Definition lines_of (t : cstring) : list cstring := removelast (fields newline t).
Definition rest_of (t : cstring) : cstring := List.last (fields newline t) [].
(** The lines that match, as they are printed. *)
Definition passed (regexec : cstring → bool) (ls : list cstring) : cstring :=
  concat (map (λ s, s ++ newline) (filter (λ s, regexec s = false) ls)).

Lemma fields_nonempty d t : fields d t ≠ [].
Proof. destruct (fields_strsep d t) as [-> _]. done. Qed.

Lemma fields_split t : fields newline t = lines_of t ++ [rest_of t].
Proof. apply app_removelast_last, fields_nonempty. Qed.

(** Two texts in a row: the second continues the last line of the first. *)
Lemma fields_cat a b : fields newline (a ++ b) = lines_of a ++ match fields newline b with f :: fs => (rest_of a ++ f) :: fs | [] => [] end.
Proof.
  unfold lines_of, rest_of. induction a as [|x a IH].
  - cbn [app]. destruct (fields newline b) as [|f fs] eqn:E; [by apply fields_nonempty in E|done].
  - cbn [app fields]. pose proof (fields_nonempty newline a) as Ha. destruct (decide (x ∈ newline)).
    + rewrite IH. destruct (fields newline a) as [|f fs]; [done|]. done.
    + rewrite IH. pose proof (fields_nonempty newline b) as Hb. destruct (fields newline a) as [|f [|f' fs]]; [done| |done].
      cbn. by destruct (fields newline b).
Qed.

Lemma cat_lines a b : lines_of (a ++ b) = lines_of a ++ match lines_of b with f :: fs => (rest_of a ++ f) :: fs | [] => [] end
  ∧ rest_of (a ++ b) = match lines_of b with [] => rest_of a ++ rest_of b | _ => rest_of b end.
Proof.
  pose proof (fields_cat a b) as E. rewrite (fields_split b), (fields_split (a ++ b)) in E. destruct (lines_of b) as [|f fs].
  - cbn in E. apply app_inj_tail in E as [-> ->]. by rewrite app_nil_r.
  - cbn in E. change ((rest_of a ++ f) :: fs ++ [rest_of b]) with (((rest_of a ++ f) :: fs) ++ [rest_of b]) in E. rewrite app_assoc in E.
    by apply app_inj_tail in E as [-> ->].
Qed.

Lemma filter_rstrip (l : list (option cstring)) : filter is_Some (rstrip l) = filter is_Some l.
Proof.
  induction l as [|x l IH]; [done|]. cbn [rstrip]. destruct x as [s|].
  - rewrite !filter_cons_True by eauto. by rewrite IH.
  - rewrite (filter_cons_False _ None) by (by intros []). destruct (rstrip l) as [|y r]; [by rewrite <- IH|].
    rewrite filter_cons_False by (by intros []). done.
Qed.

Lemma filter_kept (regexec : cstring → bool) l :
  filter is_Some (map (λ s, if regexec s then None else Some s) l) = Some <$> filter (λ s, regexec s = false) l.
Proof.
  induction l as [|s l IH]; [done|]. cbn [map]. destruct (regexec s) eqn:E.
  - rewrite (filter_cons_False is_Some None) by (by intros []). rewrite filter_cons_False by (by rewrite E). done.
  - rewrite !filter_cons_True by eauto. cbn. by rewrite IH.
Qed.

Lemma intercalate_lines ls : ls ≠ [] → intercalate newline (ls ++ [[]]) = concat (map (λ s, s ++ newline) ls).
Proof.
  induction ls as [|s ls IH]; [done|]. intros _. destruct ls as [|s' ls]; [cbn; by rewrite app_nil_r|].
  rewrite <- app_comm_cons. rewrite intercalate_cons by done. rewrite IH by done. cbn. by rewrite <- !app_assoc.
Qed.

Lemma set_at_head {A} (y : option A) l x : set_at (y :: l) 0 x = x :: l.
Proof. unfold set_at. cbn. by rewrite app_nil_r. Qed.

(** A text without a line break, or that ends with one. *)
Definition whole (p : cstring) : Prop := lines_of p = [] ∨ rest_of p = [].
Definition sane (p : cstring) : Prop := (NUL ∉ p) ∧ (Z.of_nat (length p) < 2 ^ 31 - 2)%Z.

Lemma rest_last p : rest_of p = [] → lines_of p ≠ [] → last p = Some LFC.
Proof.
  intros Hr Hl. pose proof (fields_intercalate LFC p) as E. change [LFC] with newline in E. rewrite fields_split, Hr in E.
  rewrite intercalate_lines in E by done. rewrite <- E. destruct (lines_of p) as [|s ls _] using rev_ind; [done|].
  rewrite map_app, concat_app. cbn. rewrite app_nil_r, app_assoc. apply last_snoc.
Qed.

(** The lines that are kept are joined, with a line break after the last one. *)
Lemma emit_kept (kept : list cstring) n (o : outs B) : fits (Some <$> kept) n → (Z.of_nat (length kept) < 2 ^ 31)%Z → (∀ s, s ∈ kept → (NUL ∉ s) ∧ s ≠ []) →
  (ls ← (if decide (LFC = "010"%char ∧ 0 < vector_active (mkv (Some <$> kept) n)) then
            x ← vector_slot (mkv (Some <$> kept) n) (vector_active (mkv (Some <$> kept) n) - 1);
            x ← (x : option cstring);
            if decide (x = []) then Some (mkv (Some <$> kept) n) else '(ls, _) ← vector_set (mkv (Some <$> kept) n) (Some []); Some ls
          else Some (mkv (Some <$> kept) n));
    filtered ← frrstr_join_vec ls (Some newline);
    Some (filtered, o)) = Some (match concat (map (λ s, s ++ newline) kept) with [] => None | ps => Some ps end, o).
Proof.
  intros Hf Hl Hk. destruct kept as [|x kept _] using rev_ind.
  { rewrite decide_False by (intros [_ H']; inversion H'). ostep. done. }
  change (vector_active (mkv (Some <$> kept ++ [x]) n)) with (length (Some <$> kept ++ [x])). rewrite length_fmap, length_app in *. cbn [length] in *.
  rewrite decide_True by (split; [done|lia]). replace (length kept + 1 - 1) with (length kept) by lia.
  assert (vector_slot (mkv (Some <$> kept ++ [x]) n) (length kept) = Some (Some x)) as ->.
  { unfold vector_slot, mkv, pad. cbn [index]. rewrite fmap_app, <- app_assoc, lookup_app_r, length_fmap, Nat.sub_diag by (rewrite length_fmap; lia). done. }
  do 2 ostep. destruct (Hk x) as [_ Hx]; [apply elem_of_app; right; left|]. rewrite decide_False by done.
  destruct (vector_set_spec (Some <$> kept ++ [x]) n (Some []) Hf) as (n' & -> & Hf'); [rewrite length_fmap, length_app; cbn; lia|]. do 2 ostep.
  rewrite first_empty_full. rewrite <- (length_fmap Some (kept ++ [x])), set_at_end.
  unfold frrstr_join_vec. match goal with |- context [(vector_to_array ?w).1] => change ((vector_to_array w).1) with (Vector.contents w) end. rewrite contents_mkv.
  change ((Some <$> kept ++ [x]) ++ [Some []]) with ((Some <$> kept ++ [x]) ++ (Some <$> [[]])). rewrite <- fmap_app.
  rewrite frrstr_join_spec; [ostep| | |].
  - rewrite intercalate_lines by (by destruct kept). destruct (concat _) eqn:E; [|done]. exfalso. rewrite map_app, concat_app in E. cbn in E.
    apply app_nil in E as [_ E]. destruct x; done.
  - by destruct kept.
  - intros Hn%list_elem_of_singleton. done.
  - apply Forall_app. split; [apply Forall_forall; intros s Hs; by apply Hk|]. constructor; [by intros ?%elem_of_nil|constructor].
Qed.

(** The filter: [c] is what was held back of the current line. *)
Lemma filter_out_spec regexec (o : outs B) c p : ob_ok (lbuf o) → ob_contents (lbuf o) = code <$> c → NUL ∉ c → sane p → whole p → regexec [] = true →
  ∃ lb, ob_ok lb ∧ ob_contents lb = code <$> (match lines_of p with [] => c ++ p | _ => [] end) ∧
    let ps := passed regexec (match lines_of p with [] => [] | s :: ls => (c ++ s) :: ls end) in
    filter_out regexec o p = Some (match ps with [] => None | _ => Some ps end, put_lbuf o lb).
Proof.
  intros Ho Hc Hnc [Hnp Hlen] Hw Hre. unfold filter_out, frrstr_split_vec. rewrite frrstr_split_spec by lia. ostep.
  pose proof (fields_length newline p) as Hfl. pose proof (fields_no_nul newline p Hnp) as Hfn. rewrite fields_split in *. set (ls := lines_of p) in *.
  destruct (array_to_vector_loop_spec [] 1 (Some <$> (ls ++ [rest_of p]))) as (n & E & Hfit); [unfold fits; cbn; lia|rewrite length_fmap; cbn; lia|].
  unfold array_to_vector. change (vector_init VECTOR_MIN_SIZE) with (mkv (A := cstring) [] 1). cbn [length app] in E. rewrite E. do 3 ostep.
  cbn [app] in Hfit. destruct ls as [|s ls'] eqn:Els.
  - assert (rest_of p = p) as Erp.
    { pose proof (fields_intercalate LFC p) as Ei. change [LFC] with newline in Ei. rewrite fields_split in Ei. fold ls in Ei. rewrite Els in Ei. exact Ei. }
    cbn [app]. rewrite Erp. change (vector_slot (mkv (Some <$> [p]) n) 0) with (Some (Some p)). do 2 ostep.
    destruct (ob_put_spec (lbuf o) (code <$> p) Ho) as (lb & -> & Hlb & Hcb). ostep. exists lb. split; [done|]. split; [by rewrite Hcb, Hc, fmap_app|].
    rewrite decide_False by (cbn; lia). done.
  - cbn [app fmap list_fmap] in Hfit |- *. change (vector_slot (mkv (Some s :: (Some <$> ls' ++ [rest_of p])) n) 0) with (Some (Some s)). do 2 ostep.
    destruct (ob_put_spec (lbuf o) (code <$> s) Ho) as (lb & -> & Hlb & Hcb). ostep. cbn [lbuf put_lbuf].
    rewrite decide_True by (cbn; rewrite length_fmap, length_app; cbn; lia). rewrite Hcb, Hc, <- fmap_app, chr_code.
    apply Forall_cons in Hfn as [Hns Hfn]. rewrite cstr_app by (rewrite elem_of_app; tauto). ostep.
    destruct (ob_reset_spec lb Hlb) as [Hrok Hrc]. exists (ob_reset lb). split; [done|]. split; [done|]. cbv zeta.
    destruct (vector_set_index_spec _ _ 0 (Some (c ++ s)) Hfit ltac:(done)) as (n1 & E1 & Hf1). rewrite E1. ostep. rewrite set_at_head in *. clear E1.
    assert (rest_of p = []) as Hr by (destruct Hw as [Hw|Hw]; [subst ls; congruence|exact Hw]).
    rewrite Hr in *. change (Some (c ++ s) :: (Some <$> ls' ++ [[]])) with (Some <$> ((c ++ s) :: ls') ++ [[]]) in *.
    set (all := (c ++ s) :: ls') in *.
    pose proof (filter_vec_loop_spec regexec n1 (all ++ [[]]) [] (vector_active (mkv (Some <$> all ++ [[]]) n1)) Hf1) as Ef. cbn [app length] in Ef.
    unfold frrstr_filter_vec. rewrite Ef by (cbn [vector_active mkv active]; by rewrite length_fmap). ostep. clear Ef.
    assert ((match all ++ [[]] with [] => [] | _ => rstrip (map (λ s0, if regexec s0 then None else Some s0) (all ++ [[]])) end)
      = rstrip (map (λ s0, if regexec s0 then None else Some s0) (all ++ [[]]))) as -> by done.
    assert (fits (rstrip (map (λ s0, if regexec s0 then None else Some s0) (all ++ [[]]))) n1) as Hf2.
    { eapply fits_shrink; [exact Hf1|]. etrans; [apply rstrip_length|]. by rewrite length_map, length_fmap. }
    destruct (vector_compact_spec _ _ Hf2) as [-> Hf3]. ostep. rewrite filter_rstrip, filter_kept in *.
    assert (filter (λ s0, regexec s0 = false) (all ++ [[]]) = filter (λ s0, regexec s0 = false) all) as Ek.
    { rewrite filter_app, (filter_cons_False _ []) by (by rewrite Hre). by rewrite app_nil_r. }
    rewrite Ek in *. set (kept := filter (λ s0, regexec s0 = false) all) in *.
    rewrite (rest_last p Hr) by (fold ls; by rewrite Els). ostep. unfold passed. fold kept.
    assert (∀ s0, s0 ∈ kept → (NUL ∉ s0) ∧ s0 ≠ []) as Hkept.
    { intros s0 [Hs0 Hin]%list_elem_of_filter. split; [|intros ->; congruence]. apply Forall_app in Hfn as [Hfn _]. rewrite Forall_forall in Hfn.
      apply elem_of_cons in Hin as [->|Hin]; [rewrite elem_of_app; tauto|by apply Hfn]. }
    assert (length kept ≤ length p + 1) as Hkl.
    { etrans; [apply length_filter|]. subst all. rewrite length_app in Hfl. cbn [length] in Hfl |- *. lia. }
    etrans; [apply (emit_kept kept n1); [done|lia|done]|]. by destruct (concat _).
Qed.

Lemma crlf_app a b : crlf (a ++ b) = crlf a ++ crlf b.
Proof. unfold crlf. apply bind_app. Qed.

Lemma passed_app regexec a b : passed regexec (a ++ b) = passed regexec a ++ passed regexec b.
Proof. unfold passed. by rewrite filter_app, map_app, concat_app. Qed.

Lemma rest_no_nul t : NUL ∉ t → NUL ∉ rest_of t.
Proof. intros Ht. pose proof (fields_no_nul newline t Ht) as Hf. rewrite fields_split in Hf. apply Forall_app in Hf as [_ Hf]. by apply Forall_cons in Hf as [? _]. Qed.

Lemma rest_whole p : lines_of p = [] → rest_of p = p.
Proof.
  intros E. pose proof (fields_intercalate LFC p) as Ei. change [LFC] with newline in Ei. rewrite fields_split, E in Ei. exact Ei.
Qed.

(** A terminal with a filter that has been sent the text [t]. *)
Record filtering (regexec : cstring → bool) (start : list Z) (t : cstring) (v : vty B) : Prop := Filtering {
  f_type : vtype (out v) = VTY_TERM;
  f_filter : filter_re (out v) = Some regexec;
  f_frame : frame_pos (out v) = 0;
  f_lok : ob_ok (lbuf (out v));
  f_ook : ob_ok (obuf (out v));
  f_held : ob_contents (lbuf (out v)) = code <$> rest_of t;
  f_sent : ob_contents (obuf (out v)) = start ++ crlf (code <$> passed regexec (lines_of t)) }.

Lemma filtering_step regexec start t v p : regexec [] = true → NUL ∉ t → sane p → whole p → filtering regexec start t v →
  ∃ v', vty_out v p = Some v' ∧ filtering regexec start (t ++ p) v'.
Proof.
  intros Hre Ht Hp Hw [F1 F2 F3 F4 F5 F6 F7]. unfold vty_out, vty_out_o. rewrite decide_False by lia. ostep. unfold out_body. rewrite F2.
  destruct (filter_out_spec regexec (out v) (rest_of t) p F4 F6 (rest_no_nul t Ht) Hp Hw Hre) as (lb & Hl1 & Hl2 & E). cbv zeta in E. rewrite E. ostep.
  destruct (cat_lines t p) as [C1 C2].
  set (new := match lines_of p with [] => [] | s :: ls => (rest_of t ++ s) :: ls end) in *.
  assert (lines_of (t ++ p) = lines_of t ++ new) as Cl by (rewrite C1; subst new; by destruct (lines_of p)).
  assert (ob_contents lb = code <$> rest_of (t ++ p)) as Cr.
  { rewrite Hl2, C2. destruct (lines_of p) as [|s ls] eqn:Ep; [by rewrite (rest_whole p Ep)|]. destruct Hw as [Hw|Hw]; [congruence|]. by rewrite Hw. }
  clear C1 C2 E. destruct (passed regexec new) as [|x xs] eqn:En.
  - eexists. split; [reflexivity|]. split; try done. cbn. by rewrite F7, Cl, passed_app, En, app_nil_r.
  - unfold print_out. cbn [vtype put_lbuf]. rewrite F1. destruct (ob_put_crlf_spec (obuf (out v)) (code <$> x :: xs) F5) as (ob & Eo & Ho1 & Ho2).
    cbn [obuf put_lbuf]. rewrite Eo. do 2 ostep. eexists. split; [reflexivity|]. split; try done. cbn [out set_out obuf put_obuf].
    by rewrite Ho2, F7, Cl, passed_app, En, fmap_app, crlf_app, app_assoc.
Qed.

(** With a filter set, a terminal that is sent texts that break off only at line
    ends prints exactly the lines that match, each with its line break and in
    order, however the lines were cut into texts before their ends. *)
Theorem vty_out_filters (v : vty B) (regexec : cstring → bool) (ps : list cstring) :
  regexec [] = true → filtering regexec (ob_contents (obuf (out v))) [] v → Forall (λ p, sane p ∧ whole p) ps →
  ∃ v', foldl (λ v p, v ← v; vty_out v p) (Some v) ps = Some v'
    ∧ ob_contents (obuf (out v')) = ob_contents (obuf (out v)) ++ crlf (code <$> passed regexec (lines_of (concat ps)))
    ∧ ob_contents (lbuf (out v')) = code <$> rest_of (concat ps).
Proof.
  intros Hre Hf Hps. assert (∃ v', foldl (λ v p, v ← v; vty_out v p) (Some v) ps = Some v' ∧ filtering regexec (ob_contents (obuf (out v))) (concat ps) v') as (v' & E & [_ _ _ _ _ H6 H7]).
  2:{ by exists v'. }
  induction ps as [|p ps IH] using rev_ind; [by exists v|]. apply Forall_app in Hps as [Hps [[Hp Hw] _]%Forall_cons].
  destruct (IH Hps) as (v1 & E1 & F1). rewrite foldl_app, E1, concat_app. cbn. rewrite app_nil_r.
  destruct (filtering_step regexec (ob_contents (obuf (out v))) (concat ps) v1 p) as (v2 & E2 & F2); [done| |done|done|done|by exists v2].
  clear -Hps. induction Hps as [|q qs [[Hq _] _] _ IH]; [by intros ?%elem_of_nil|]. cbn. by intros [?|?]%elem_of_app.
Qed.
End filter.

(** ** Chunked buffers as output buffers *)

#[export] Instance buffer_out : OutBuffer buffer.
Proof.
  refine {| ob_ok := buffer_ok; ob_contents := Buffer.contents; ob_put := buffer_put; ob_put_crlf := buffer_put_crlf; ob_reset := buffer_reset |}.
  - intros b p Hb. destruct (buffer_put_spec b p Hb) as (b' & ? & ? & _ & ?). by exists b'.
  - intros b p Hb. destruct (put_crlf_loop_spec (length p) b p Hb) as (b' & ? & ? & _ & ?); [done|]. by exists b'.
  - intros b [Hs _]. split; [|done]. split; [done|constructor].
Defined.

(** ** A new session *)

(** [vty_new] and [vty_new_init]; [pgsz] is the system's page size. *)
Definition vty_new_init (pgsz : Z) : vty buffer :=
  Vty (Outs VTY_TERM None (buffer_new pgsz 0) (buffer_new pgsz 0) [] [] 0)
    (Edit (replicate VTY_BUFSIZ 0%Z) 0 0) (Hists (replicate VTY_MAXHIST None) 0 0)
    (Sess AUTH_NODE 0 false false 0 VTY_NORMAL) (Telnet 0 false false (replicate TELNET_NAWS_SB_LEN 0%Z) 0 0 0 (-1)).

Definition host0 : host :=
  Host (str "r1") [Some (str "Password: "); Some (str "%s> "); Some (str "Password: "); Some (str "%s# "); Some (str "%s(config)# ")]
    [-1; -1; -1; -1; -1; 4; 4]%Z (Some (str "zebra")) None None None false false (-1) None None.

Definition session0 : vty buffer := set_ss (set_node VIEW_NODE (ss (vty_new_init 4096))) (vty_new_init 4096).

Lemma new_line : at_line session0 ([], []).
Proof.
  split; [|by split; [apply (bool_decide_unpack _); vm_compute; reflexivity|constructor]].
  exists (replicate 4095 0%Z). split; [reflexivity|]. split; [apply length_replicate|]. split; [done|]. split; [done|constructor].
Qed.

Lemma new_ring : ring (hs session0) [] 0.
Proof.
  split; try done; [cbn; unfold VTY_MAXHIST; lia..| |cbn; lia]. intros j Hj. cbn [hist hs session0 set_ss vty_new_init]. rewrite lookup_replicate_2; [done|]. unfold at_ring. apply Nat.mod_upper_bound. done.
Qed.

(** Type "ab", go back and insert "c", transpose. *)
Definition typing : list key := [KInsert 97; KInsert 98; KBackward; KInsert 99; KTranspose]%Z.

Lemma editor_refines_witness : ∃ v', press_all host0 session0 typing = Some v' ∧ at_line v' ([97; 98; 99], [])%Z.
Proof.
  destruct (editor_refines host0 session0 ([], []) typing new_line) as (v' & echo & E & Hl & _).
  - cbn. by split_and!.
  - exists v'. split; [exact E|]. assert (foldl (flip apply_key) ([], []) typing = ([97; 98; 99], [])%Z) as Ek by (vm_compute; reflexivity).
    rewrite Ek in Hl. exact Hl.
Defined.

Definition typed : vty buffer := set_ed (Edit ([97; 98] ++ replicate 4094 0)%Z 2 2) session0.
Lemma typed_line : at_line typed ([97; 98], [])%Z.
Proof.
  split; [|apply new_line]. exists (replicate 4093 0%Z). split; [reflexivity|]. split; [cbn [buf ed typed set_ed]; rewrite length_app, length_replicate; done|].
  split; [done|]. split; [done|]. by repeat constructor.
Qed.

Lemma history_refines_witness : ∃ h', vty_hist_add typed = Some (set_hs h' typed) ∧ ring h' [[97; 98]%Z] 0.
Proof.
  destruct (history_refines host0 typed ([97; 98], [])%Z [] 0 typed_line new_ring) as [(h' & E & Hr) _]; [apply Nat.ltb_lt; vm_compute; reflexivity|].
  exists h'. split; [exact E|exact Hr].
Defined.

(** Only lines with the letter a pass. *)
Definition has_a (s : cstring) : bool := bool_decide ("a"%char ∉ s).
Definition filtered : vty buffer := set_out (Outs VTY_TERM (Some has_a) (buffer_new 4096 0) (buffer_new 4096 0) [] [] 0) session0.

Lemma vty_out_filters_witness : ∃ v', foldl (λ v p, v ← v; vty_out v p) (Some filtered) [str "x"; str "a" ++ newline; str "b" ++ newline ++ str "ca" ++ newline] = Some v'
  ∧ Buffer.contents (obuf (out v')) = code <$> (str "xa" ++ ["013"; "010"]%char ++ str "ca" ++ ["013"; "010"]%char).
Proof.
  destruct (vty_out_filters filtered has_a [str "x"; str "a" ++ newline; str "b" ++ newline ++ str "ca" ++ newline]) as (v' & E & Hc & _).
  - reflexivity.
  - split; try reflexivity; apply new_line.
  - repeat (apply Forall_cons; split; [split; [split; [by apply (bool_decide_unpack _); vm_compute; reflexivity|done]|]|]);
      [left; reflexivity|right; reflexivity|right; reflexivity|constructor].
  - exists v'. split; [exact E|]. etrans; [exact Hc|]. vm_compute. reflexivity.
Defined.

(** ** What goes wrong *)

(** A text that ends inside a line: the end of the text is taken for a line, is
    filtered and printed, and the rest of the line is filtered on its own. *)
Example filter_partial : ∃ v', foldl (λ v p, v ← v; vty_out v p) (Some filtered) [str "x" ++ newline ++ str "a"; str "b" ++ newline] = Some v'
  ∧ Buffer.contents (obuf (out v')) = code <$> str "a".
Proof. eexists. split; [vm_compute; reflexivity|]. vm_compute. reflexivity. Qed.

(** End of file at the password prompt: the node has no parent, the session gets
    the node -1, and the prompt is looked up outside the table of nodes. *)
Example eof_at_password : vty_delete_char host0 (vty_new_init 4096) = None
  ∧ cmd_exit host0 (ss (vty_new_init 4096)) = Some (Sess (-1) 0 false false 0 VTY_NORMAL).
Proof. split; vm_compute; reflexivity. Qed.

(** Leaving the configuration with a line begun: the line stays in the buffer
    with the cursor at its beginning, though nothing of it is displayed, and what
    is typed next is inserted before it. *)
Example end_config_keeps_line : ∃ v', vty_end_config host0 typed = Some v' ∧ cp (ed v') = 0 ∧ len (ed v') = 2
  ∧ Buffer.contents (obuf (out v')) = code <$> (["013"; "010"]%char ++ str "r1> ").
Proof. eexists. split; [vm_compute; reflexivity|]. split_and!; vm_compute; reflexivity. Qed.
