(* ===== verification/Prefix.v ===== *)
(** * Network prefixes: libvui/src/vui/lib/prefix.c, prefix.h

    [struct prefix] is an address family, a prefix length and a union of 40
    bytes (the size of the largest member, [evpn_addr], rounded up to the
    alignment of 8).  The union is modelled as those bytes, so the casts between
    [struct prefix], [prefix_ipv4], [prefix_ipv6], [prefix_eth] (which share
    the layout) are the identity.  An [in_addr_t] is the number the
    little-endian host reads from the four bytes in network order.  A read
    outside the union or outside a table is [None], as is a failed [assert].

    Theorems: [prefix_match], [prefix_cmp] and [prefix_common_bits] decide the
    relations on address bits they are documented with, masking keeps the first
    [prefixlen] bits and clears the others, netmasks and mask lengths convert
    back and forth, the broadcast address has the documented bits, and copying
    keeps prefixes equal. *)
From stdpp Require Import prelude gmap list.
From S2P Require Import Prelude.
Set Default Goal Selector "!".

(** ** Constants *)

Definition AF_UNSPEC : Z := 0.
Definition AF_INET : Z := 2.
Definition AF_INET6 : Z := 10.
Definition AF_ETHERNET : Z := 17.
Definition AF_MAX : Z := 45.
Definition AF_EVPN : Z := AF_MAX + 1.
Definition AF_FLOWSPEC : Z := AF_MAX + 2.

Definition IPV4_MAX_BYTELEN : nat := 4.
Definition IPV4_MAX_BITLEN : nat := 32.
Definition IPV6_MAX_BYTELEN : nat := 16.
Definition IPV6_MAX_BITLEN : nat := 128.
Definition ETH_ALEN : nat := 6.
(** [sizeof(struct evpn_addr)] and the size of the union. *)
Definition EVPN_ADDR_SIZE : nat := 36.
Definition UNION_SIZE : nat := 40.
Definition PNBBY : nat := 8.

Definition maskbit : list Z := [0; 128; 192; 224; 240; 248; 252; 254; 255]%Z.

Definition maskbytes6 : list (list Z) :=
  ([ [0; 0; 0; 0; 0; 0; 0; 0; 0; 0; 0; 0; 0; 0; 0; 0];
     [128; 0; 0; 0; 0; 0; 0; 0; 0; 0; 0; 0; 0; 0; 0; 0];
     [192; 0; 0; 0; 0; 0; 0; 0; 0; 0; 0; 0; 0; 0; 0; 0];
     [224; 0; 0; 0; 0; 0; 0; 0; 0; 0; 0; 0; 0; 0; 0; 0];
     [240; 0; 0; 0; 0; 0; 0; 0; 0; 0; 0; 0; 0; 0; 0; 0];
     [248; 0; 0; 0; 0; 0; 0; 0; 0; 0; 0; 0; 0; 0; 0; 0];
     [252; 0; 0; 0; 0; 0; 0; 0; 0; 0; 0; 0; 0; 0; 0; 0];
     [254; 0; 0; 0; 0; 0; 0; 0; 0; 0; 0; 0; 0; 0; 0; 0];
     [255; 0; 0; 0; 0; 0; 0; 0; 0; 0; 0; 0; 0; 0; 0; 0];
     [255; 128; 0; 0; 0; 0; 0; 0; 0; 0; 0; 0; 0; 0; 0; 0];
     [255; 192; 0; 0; 0; 0; 0; 0; 0; 0; 0; 0; 0; 0; 0; 0];
     [255; 224; 0; 0; 0; 0; 0; 0; 0; 0; 0; 0; 0; 0; 0; 0];
     [255; 240; 0; 0; 0; 0; 0; 0; 0; 0; 0; 0; 0; 0; 0; 0];
     [255; 248; 0; 0; 0; 0; 0; 0; 0; 0; 0; 0; 0; 0; 0; 0];
     [255; 252; 0; 0; 0; 0; 0; 0; 0; 0; 0; 0; 0; 0; 0; 0];
     [255; 254; 0; 0; 0; 0; 0; 0; 0; 0; 0; 0; 0; 0; 0; 0];
     [255; 255; 0; 0; 0; 0; 0; 0; 0; 0; 0; 0; 0; 0; 0; 0];
     [255; 255; 128; 0; 0; 0; 0; 0; 0; 0; 0; 0; 0; 0; 0; 0];
     [255; 255; 192; 0; 0; 0; 0; 0; 0; 0; 0; 0; 0; 0; 0; 0];
     [255; 255; 224; 0; 0; 0; 0; 0; 0; 0; 0; 0; 0; 0; 0; 0];
     [255; 255; 240; 0; 0; 0; 0; 0; 0; 0; 0; 0; 0; 0; 0; 0];
     [255; 255; 248; 0; 0; 0; 0; 0; 0; 0; 0; 0; 0; 0; 0; 0];
     [255; 255; 252; 0; 0; 0; 0; 0; 0; 0; 0; 0; 0; 0; 0; 0];
     [255; 255; 254; 0; 0; 0; 0; 0; 0; 0; 0; 0; 0; 0; 0; 0];
     [255; 255; 255; 0; 0; 0; 0; 0; 0; 0; 0; 0; 0; 0; 0; 0];
     [255; 255; 255; 128; 0; 0; 0; 0; 0; 0; 0; 0; 0; 0; 0; 0];
     [255; 255; 255; 192; 0; 0; 0; 0; 0; 0; 0; 0; 0; 0; 0; 0];
     [255; 255; 255; 224; 0; 0; 0; 0; 0; 0; 0; 0; 0; 0; 0; 0];
     [255; 255; 255; 240; 0; 0; 0; 0; 0; 0; 0; 0; 0; 0; 0; 0];
     [255; 255; 255; 248; 0; 0; 0; 0; 0; 0; 0; 0; 0; 0; 0; 0];
     [255; 255; 255; 252; 0; 0; 0; 0; 0; 0; 0; 0; 0; 0; 0; 0];
     [255; 255; 255; 254; 0; 0; 0; 0; 0; 0; 0; 0; 0; 0; 0; 0];
     [255; 255; 255; 255; 0; 0; 0; 0; 0; 0; 0; 0; 0; 0; 0; 0];
     [255; 255; 255; 255; 128; 0; 0; 0; 0; 0; 0; 0; 0; 0; 0; 0];
     [255; 255; 255; 255; 192; 0; 0; 0; 0; 0; 0; 0; 0; 0; 0; 0];
     [255; 255; 255; 255; 224; 0; 0; 0; 0; 0; 0; 0; 0; 0; 0; 0];
     [255; 255; 255; 255; 240; 0; 0; 0; 0; 0; 0; 0; 0; 0; 0; 0];
     [255; 255; 255; 255; 248; 0; 0; 0; 0; 0; 0; 0; 0; 0; 0; 0];
     [255; 255; 255; 255; 252; 0; 0; 0; 0; 0; 0; 0; 0; 0; 0; 0];
     [255; 255; 255; 255; 254; 0; 0; 0; 0; 0; 0; 0; 0; 0; 0; 0];
     [255; 255; 255; 255; 255; 0; 0; 0; 0; 0; 0; 0; 0; 0; 0; 0];
     [255; 255; 255; 255; 255; 128; 0; 0; 0; 0; 0; 0; 0; 0; 0; 0];
     [255; 255; 255; 255; 255; 192; 0; 0; 0; 0; 0; 0; 0; 0; 0; 0];
     [255; 255; 255; 255; 255; 224; 0; 0; 0; 0; 0; 0; 0; 0; 0; 0];
     [255; 255; 255; 255; 255; 240; 0; 0; 0; 0; 0; 0; 0; 0; 0; 0];
     [255; 255; 255; 255; 255; 248; 0; 0; 0; 0; 0; 0; 0; 0; 0; 0];
     [255; 255; 255; 255; 255; 252; 0; 0; 0; 0; 0; 0; 0; 0; 0; 0];
     [255; 255; 255; 255; 255; 254; 0; 0; 0; 0; 0; 0; 0; 0; 0; 0];
     [255; 255; 255; 255; 255; 255; 0; 0; 0; 0; 0; 0; 0; 0; 0; 0];
     [255; 255; 255; 255; 255; 255; 128; 0; 0; 0; 0; 0; 0; 0; 0; 0];
     [255; 255; 255; 255; 255; 255; 192; 0; 0; 0; 0; 0; 0; 0; 0; 0];
     [255; 255; 255; 255; 255; 255; 224; 0; 0; 0; 0; 0; 0; 0; 0; 0];
     [255; 255; 255; 255; 255; 255; 240; 0; 0; 0; 0; 0; 0; 0; 0; 0];
     [255; 255; 255; 255; 255; 255; 248; 0; 0; 0; 0; 0; 0; 0; 0; 0];
     [255; 255; 255; 255; 255; 255; 252; 0; 0; 0; 0; 0; 0; 0; 0; 0];
     [255; 255; 255; 255; 255; 255; 254; 0; 0; 0; 0; 0; 0; 0; 0; 0];
     [255; 255; 255; 255; 255; 255; 255; 0; 0; 0; 0; 0; 0; 0; 0; 0];
     [255; 255; 255; 255; 255; 255; 255; 128; 0; 0; 0; 0; 0; 0; 0; 0];
     [255; 255; 255; 255; 255; 255; 255; 192; 0; 0; 0; 0; 0; 0; 0; 0];
     [255; 255; 255; 255; 255; 255; 255; 224; 0; 0; 0; 0; 0; 0; 0; 0];
     [255; 255; 255; 255; 255; 255; 255; 240; 0; 0; 0; 0; 0; 0; 0; 0];
     [255; 255; 255; 255; 255; 255; 255; 248; 0; 0; 0; 0; 0; 0; 0; 0];
     [255; 255; 255; 255; 255; 255; 255; 252; 0; 0; 0; 0; 0; 0; 0; 0];
     [255; 255; 255; 255; 255; 255; 255; 254; 0; 0; 0; 0; 0; 0; 0; 0];
     [255; 255; 255; 255; 255; 255; 255; 255; 0; 0; 0; 0; 0; 0; 0; 0];
     [255; 255; 255; 255; 255; 255; 255; 255; 128; 0; 0; 0; 0; 0; 0; 0];
     [255; 255; 255; 255; 255; 255; 255; 255; 192; 0; 0; 0; 0; 0; 0; 0];
     [255; 255; 255; 255; 255; 255; 255; 255; 224; 0; 0; 0; 0; 0; 0; 0];
     [255; 255; 255; 255; 255; 255; 255; 255; 240; 0; 0; 0; 0; 0; 0; 0];
     [255; 255; 255; 255; 255; 255; 255; 255; 248; 0; 0; 0; 0; 0; 0; 0];
     [255; 255; 255; 255; 255; 255; 255; 255; 252; 0; 0; 0; 0; 0; 0; 0];
     [255; 255; 255; 255; 255; 255; 255; 255; 254; 0; 0; 0; 0; 0; 0; 0];
     [255; 255; 255; 255; 255; 255; 255; 255; 255; 0; 0; 0; 0; 0; 0; 0];
     [255; 255; 255; 255; 255; 255; 255; 255; 255; 128; 0; 0; 0; 0; 0; 0];
     [255; 255; 255; 255; 255; 255; 255; 255; 255; 192; 0; 0; 0; 0; 0; 0];
     [255; 255; 255; 255; 255; 255; 255; 255; 255; 224; 0; 0; 0; 0; 0; 0];
     [255; 255; 255; 255; 255; 255; 255; 255; 255; 240; 0; 0; 0; 0; 0; 0];
     [255; 255; 255; 255; 255; 255; 255; 255; 255; 248; 0; 0; 0; 0; 0; 0];
     [255; 255; 255; 255; 255; 255; 255; 255; 255; 252; 0; 0; 0; 0; 0; 0];
     [255; 255; 255; 255; 255; 255; 255; 255; 255; 254; 0; 0; 0; 0; 0; 0];
     [255; 255; 255; 255; 255; 255; 255; 255; 255; 255; 0; 0; 0; 0; 0; 0];
     [255; 255; 255; 255; 255; 255; 255; 255; 255; 255; 128; 0; 0; 0; 0; 0];
     [255; 255; 255; 255; 255; 255; 255; 255; 255; 255; 192; 0; 0; 0; 0; 0];
     [255; 255; 255; 255; 255; 255; 255; 255; 255; 255; 224; 0; 0; 0; 0; 0];
     [255; 255; 255; 255; 255; 255; 255; 255; 255; 255; 240; 0; 0; 0; 0; 0];
     [255; 255; 255; 255; 255; 255; 255; 255; 255; 255; 248; 0; 0; 0; 0; 0];
     [255; 255; 255; 255; 255; 255; 255; 255; 255; 255; 252; 0; 0; 0; 0; 0];
     [255; 255; 255; 255; 255; 255; 255; 255; 255; 255; 254; 0; 0; 0; 0; 0];
     [255; 255; 255; 255; 255; 255; 255; 255; 255; 255; 255; 0; 0; 0; 0; 0];
     [255; 255; 255; 255; 255; 255; 255; 255; 255; 255; 255; 128; 0; 0; 0; 0];
     [255; 255; 255; 255; 255; 255; 255; 255; 255; 255; 255; 192; 0; 0; 0; 0];
     [255; 255; 255; 255; 255; 255; 255; 255; 255; 255; 255; 224; 0; 0; 0; 0];
     [255; 255; 255; 255; 255; 255; 255; 255; 255; 255; 255; 240; 0; 0; 0; 0];
     [255; 255; 255; 255; 255; 255; 255; 255; 255; 255; 255; 248; 0; 0; 0; 0];
     [255; 255; 255; 255; 255; 255; 255; 255; 255; 255; 255; 252; 0; 0; 0; 0];
     [255; 255; 255; 255; 255; 255; 255; 255; 255; 255; 255; 254; 0; 0; 0; 0];
     [255; 255; 255; 255; 255; 255; 255; 255; 255; 255; 255; 255; 0; 0; 0; 0];
     [255; 255; 255; 255; 255; 255; 255; 255; 255; 255; 255; 255; 128; 0; 0; 0];
     [255; 255; 255; 255; 255; 255; 255; 255; 255; 255; 255; 255; 192; 0; 0; 0];
     [255; 255; 255; 255; 255; 255; 255; 255; 255; 255; 255; 255; 224; 0; 0; 0];
     [255; 255; 255; 255; 255; 255; 255; 255; 255; 255; 255; 255; 240; 0; 0; 0];
     [255; 255; 255; 255; 255; 255; 255; 255; 255; 255; 255; 255; 248; 0; 0; 0];
     [255; 255; 255; 255; 255; 255; 255; 255; 255; 255; 255; 255; 252; 0; 0; 0];
     [255; 255; 255; 255; 255; 255; 255; 255; 255; 255; 255; 255; 254; 0; 0; 0];
     [255; 255; 255; 255; 255; 255; 255; 255; 255; 255; 255; 255; 255; 0; 0; 0];
     [255; 255; 255; 255; 255; 255; 255; 255; 255; 255; 255; 255; 255; 128; 0; 0];
     [255; 255; 255; 255; 255; 255; 255; 255; 255; 255; 255; 255; 255; 192; 0; 0];
     [255; 255; 255; 255; 255; 255; 255; 255; 255; 255; 255; 255; 255; 224; 0; 0];
     [255; 255; 255; 255; 255; 255; 255; 255; 255; 255; 255; 255; 255; 240; 0; 0];
     [255; 255; 255; 255; 255; 255; 255; 255; 255; 255; 255; 255; 255; 248; 0; 0];
     [255; 255; 255; 255; 255; 255; 255; 255; 255; 255; 255; 255; 255; 252; 0; 0];
     [255; 255; 255; 255; 255; 255; 255; 255; 255; 255; 255; 255; 255; 254; 0; 0];
     [255; 255; 255; 255; 255; 255; 255; 255; 255; 255; 255; 255; 255; 255; 0; 0];
     [255; 255; 255; 255; 255; 255; 255; 255; 255; 255; 255; 255; 255; 255; 128; 0];
     [255; 255; 255; 255; 255; 255; 255; 255; 255; 255; 255; 255; 255; 255; 192; 0];
     [255; 255; 255; 255; 255; 255; 255; 255; 255; 255; 255; 255; 255; 255; 224; 0];
     [255; 255; 255; 255; 255; 255; 255; 255; 255; 255; 255; 255; 255; 255; 240; 0];
     [255; 255; 255; 255; 255; 255; 255; 255; 255; 255; 255; 255; 255; 255; 248; 0];
     [255; 255; 255; 255; 255; 255; 255; 255; 255; 255; 255; 255; 255; 255; 252; 0];
     [255; 255; 255; 255; 255; 255; 255; 255; 255; 255; 255; 255; 255; 255; 254; 0];
     [255; 255; 255; 255; 255; 255; 255; 255; 255; 255; 255; 255; 255; 255; 255; 0];
     [255; 255; 255; 255; 255; 255; 255; 255; 255; 255; 255; 255; 255; 255; 255; 128];
     [255; 255; 255; 255; 255; 255; 255; 255; 255; 255; 255; 255; 255; 255; 255; 192];
     [255; 255; 255; 255; 255; 255; 255; 255; 255; 255; 255; 255; 255; 255; 255; 224];
     [255; 255; 255; 255; 255; 255; 255; 255; 255; 255; 255; 255; 255; 255; 255; 240];
     [255; 255; 255; 255; 255; 255; 255; 255; 255; 255; 255; 255; 255; 255; 255; 248];
     [255; 255; 255; 255; 255; 255; 255; 255; 255; 255; 255; 255; 255; 255; 255; 252];
     [255; 255; 255; 255; 255; 255; 255; 255; 255; 255; 255; 255; 255; 255; 255; 254];
     [255; 255; 255; 255; 255; 255; 255; 255; 255; 255; 255; 255; 255; 255; 255; 255] ])%Z.

(** ** The structure *)

Record prefix := mkPrefix {
  family : Z;
  prefixlen : nat;
  u : list Z;
}.

(** Overwrite part of the union. *)
Definition store (dst : list Z) (off : nat) (bs : list Z) : list Z :=
  take off dst ++ bs ++ drop (off + length bs) dst.

Definition prefix4 (p : prefix) : list Z := take IPV4_MAX_BYTELEN (u p).
Definition prefix6 (p : prefix) : list Z := take IPV6_MAX_BYTELEN (u p).
Definition prefix_eth (p : prefix) : list Z := take ETH_ALEN (u p).
Definition s_addr (p : prefix) : Z := le_read (prefix4 p).
Definition fs_prefixlen (p : prefix) : nat := Z.to_nat (le_read (take 2 (u p))).
Definition fs_ptr (p : prefix) : Z := le_read (take 8 (drop 8 (u p))).

Definition memcmp_eq (a b : list Z) (n : nat) : option bool :=
  if decide (n ≤ length a ∧ n ≤ length b) then Some (bool_decide (take n a = take n b)) else None.

(** ** Bits and families *)

Definition is_zero_mac (octet : list Z) : Z :=
  if forallb (λ b, b =? 0)%Z (take ETH_ALEN octet) then 1 else 0.

Definition prefix_bit (bs : list Z) (n : nat) : option Z :=
  let offset := n / 8 in
  let shift := (7 - n mod 8)%nat in
  b ← bs !! offset; Some (Z.land (Z.shiftr b (Z.of_nat shift)) 1).

Definition prefix6_bit (bs : list Z) (n : nat) : option Z := prefix_bit bs n.

Definition AFI_IP : Z := 1.
Definition AFI_IP6 : Z := 2.
Definition AFI_L2VPN : Z := 3.

Definition afi2family (afi : Z) : Z :=
  if decide (afi = AFI_IP) then AF_INET
  else if decide (afi = AFI_IP6) then AF_INET6
  else if decide (afi = AFI_L2VPN) then AF_ETHERNET
  else 0.

Definition family2afi (family : Z) : Z :=
  if decide (family = AF_INET) then AFI_IP
  else if decide (family = AF_INET6) then AFI_IP6
  else if decide (family = AF_ETHERNET ∨ family = AF_EVPN) then AFI_L2VPN
  else 0.

(** ** Comparison *)

(** [while (offset--) if (np[offset] != pp[offset]) return 0; return 1;] *)
Fixpoint same_bytes (np pp : list Z) (offset : nat) : option bool :=
  match offset with
  | 0 => Some true
  | S offset =>
      a ← np !! offset;
      b ← pp !! offset;
      if decide (a ≠ b) then Some false else same_bytes np pp offset
  end.

(** The comparison of [len] leading bits that [prefix_match],
    [prefix_match_network_statement] and [prefix_cmp] share: the partial byte
    first, then the whole bytes from the last to the first. *)
Definition same_head (np pp : list Z) (len : nat) : option bool :=
  let offset := len / PNBBY in
  let shift := len mod PNBBY in
  differs ← (if decide (shift = 0) then Some false
             else m ← maskbit !! shift;
                  a ← np !! offset;
                  b ← pp !! offset;
                  Some (negb (Z.land m (Z.lxor a b) =? 0)%Z) : option bool);
  if (differs : bool) then Some false else same_bytes np pp offset.

Definition prefix_match_network_statement (n p : prefix) : option Z :=
  r ← same_head (u n) (u p) (prefixlen n);
  Some (if (r : bool) then 1 else 0)%Z.

Definition prefix_match (n p : prefix) : option Z :=
  if decide (prefixlen p < prefixlen n) then Some 0%Z
  else if decide (family n = AF_FLOWSPEC) then
    if decide (fs_prefixlen p < fs_prefixlen n) then Some 0%Z
    else r ← same_bytes (drop 8 (u n)) (drop 8 (u p)) (fs_prefixlen n);
         Some (if (r : bool) then 1 else 0)%Z
  else
    r ← same_head (u n) (u p) (prefixlen n);
    Some (if (r : bool) then 1 else 0)%Z.

(** Heap blocks that flowspec prefixes point to. *)
Abbreviation heap := (gmap Z (list Z)).

Definition prefix_cmp (h : heap) (p1 p2 : prefix) : option Z :=
  if decide (family p1 ≠ family p2) then Some 1%Z
  else if decide (family p1 = AF_FLOWSPEC) then
    if decide (fs_prefixlen p1 ≠ fs_prefixlen p2) then Some 1%Z
    else if decide (fs_prefixlen p1 = 0) then Some 0%Z
    else
      pp1 ← h !! fs_ptr p1;
      pp2 ← h !! fs_ptr p2;
      r ← same_bytes pp1 pp2 (fs_prefixlen p1);
      Some (if (r : bool) then 0 else 1)%Z
  else if decide (prefixlen p1 ≠ prefixlen p2) then Some 1%Z
  else
    r ← same_head (u p1) (u p2) (prefixlen p1);
    Some (if (r : bool) then 0 else 1)%Z.

Definition prefix_same (p1 p2 : option prefix) : option Z :=
  match p1, p2 with
  | None, None => Some 1%Z
  | Some p1, Some p2 =>
      if decide (family p1 = family p2 ∧ prefixlen p1 = prefixlen p2) then
        r ← (if decide (family p1 = AF_INET) then
               Some (bool_decide (s_addr p1 = s_addr p2))
             else if decide (family p1 = AF_INET6) then
               memcmp_eq (prefix6 p1) (prefix6 p2) IPV6_MAX_BYTELEN
             else if decide (family p1 = AF_ETHERNET) then
               memcmp_eq (prefix_eth p1) (prefix_eth p2) ETH_ALEN
             else if decide (family p1 = AF_EVPN) then
               memcmp_eq (u p1) (u p2) EVPN_ADDR_SIZE
             else if decide (family p1 = AF_FLOWSPEC) then
               if decide (fs_prefixlen p1 ≠ fs_prefixlen p2) then Some false
               else memcmp_eq (drop 8 (u p1)) (drop 8 (u p2)) (fs_prefixlen p2)
             else Some false);
        Some (if (r : bool) then 1 else 0)%Z
      else Some 0%Z
  | _, _ => Some 0%Z
  end.

(** [XCALLOC] returns the block [fresh]. *)
Definition prefix_copy (h : heap) (fresh : Z) (dest src : prefix) : option (heap * prefix) :=
  let put off bs := Some (h, mkPrefix (family src) (prefixlen src) (store (u dest) off bs)) in
  if decide (family src = AF_INET) then put 0 (prefix4 src)
  else if decide (family src = AF_INET6) then put 0 (prefix6 src)
  else if decide (family src = AF_ETHERNET) then put 0 (prefix_eth src)
  else if decide (family src = AF_EVPN) then put 0 (take EVPN_ADDR_SIZE (u src))
  else if decide (family src = AF_UNSPEC) then
    Some (h, mkPrefix (family src) (prefixlen src)
               (store (store (u dest) 0 (take 4 (u src))) 4 (take 4 (drop 4 (u src)))))
  else if decide (family src = AF_FLOWSPEC) then
    let len := fs_prefixlen src in
    bs ← (if decide (len = 0) then Some [] else h !! fs_ptr src);
    if decide (len ≤ length bs) then
      Some (<[fresh := take len bs]> h,
            mkPrefix (family src) (prefixlen src)
              (store (store (u dest) 0 (take 2 (u src))) 8 (le_write 8 fresh)))
    else None
  else None.

(** [for (pos = 0; pos < length; pos++) if (pp1[pos] != pp2[pos]) break;] *)
Fixpoint common_pos (pp1 pp2 : list Z) (rest pos : nat) : option nat :=
  match rest with
  | 0 => Some pos
  | S rest =>
      a ← pp1 !! pos;
      b ← pp2 !! pos;
      if decide (a ≠ b) then Some pos else common_pos pp1 pp2 rest (S pos)
  end.

(** [for (bit = 0; bit < 8; bit++) if (xor & (1 << (7 - bit))) break;] *)
Fixpoint common_bit (x : Z) (rest bit : nat) : nat :=
  match rest with
  | 0 => bit
  | S rest =>
      if (Z.land x (Z.shiftl 1 (7 - Z.of_nat bit)) =? 0)%Z then common_bit x rest (S bit) else bit
  end.

Definition common_length (family : Z) : nat :=
  if decide (family = AF_INET) then IPV4_MAX_BYTELEN
  else if decide (family = AF_INET6) then IPV6_MAX_BYTELEN
  else if decide (family = AF_ETHERNET) then ETH_ALEN
  else if decide (family = AF_EVPN) then (8 * EVPN_ADDR_SIZE)%nat
  else 0.

Definition prefix_common_bits (p1 p2 : prefix) : option Z :=
  let length := common_length (family p1) in
  if decide (family p1 ≠ family p2 ∨ length = 0) then Some (-1)%Z
  else
    pos ← common_pos (u p1) (u p2) length 0;
    if decide (pos = length) then Some (Z.of_nat (pos * 8))
    else
      a ← u p1 !! pos;
      b ← u p2 !! pos;
      Some (Z.of_nat (pos * 8 + common_bit (Z.lxor a b) 8 0)).

(** ** Masks *)

Definition masklen2ip (masklen : Z) : option Z :=
  if decide (0 ≤ masklen ≤ 32)%Z
  then Some (htonl (u32 (Z.shiftl 0xffffffff (32 - masklen))))
  else None.

(** [__builtin_clz] of a non-zero 32-bit value. *)
Definition clz32 (x : Z) : Z := (31 - Z.log2 x)%Z.

Definition ip_masklen (netmask : Z) : Z :=
  let tmp := u32 (Z.lnot (htonl netmask)) in
  if decide (tmp ≠ 0)%Z then clz32 tmp else 32%Z.

Definition apply_mask_ipv4 (p : prefix) : option prefix :=
  mask ← masklen2ip (Z.of_nat (prefixlen p));
  Some (mkPrefix (family p) (prefixlen p)
          (store (u p) 0 (le_write 4 (Z.land (s_addr p) mask)))).

Definition prefix_ipv4_any (p : prefix) : Z :=
  if decide (s_addr p = 0%Z ∧ prefixlen p = 0) then 1 else 0.

(** [while (val) { len++; val <<= 1; }] on an [unsigned char]: eight shifts
    clear it. *)
Fixpoint shift_out (fuel : nat) (len val : Z) : option Z :=
  match fuel with
  | 0 => if (val =? 0)%Z then Some len else None
  | S fuel => if (val =? 0)%Z then Some len else shift_out fuel (len + 1)%Z (u8 (Z.shiftl val 1))
  end.

(** The loop over the [0xff] bytes of the mask: the byte is read before
    [len < IPV6_MAX_BITLEN] is tested. *)
Fixpoint mask_bytes_loop (fuel : nat) (netmask : list Z) (pnt : nat) (len : Z) : option (nat * Z) :=
  match fuel with
  | 0 => None
  | S fuel =>
      b ← netmask !! pnt;
      if decide (b = 255 ∧ len < 128)%Z
      then mask_bytes_loop fuel netmask (S pnt) (len + 8)%Z
      else Some (pnt, len)
  end.

Definition ip6_masklen (netmask : list Z) : option Z :=
  '(pnt, len) ← mask_bytes_loop 17 netmask 0 0%Z;
  if decide (len < 128)%Z then
    val ← netmask !! pnt;
    shift_out 8 len val
  else Some len.

Definition masklen2ip6 (masklen : Z) : option (list Z) :=
  if decide (0 ≤ masklen ≤ 128)%Z then maskbytes6 !! Z.to_nat masklen else None.

Definition apply_mask_ipv6 (p : prefix) : option prefix :=
  let index := prefixlen p / 8 in
  if decide (index < 16) then
    let offset := prefixlen p mod 8 in
    m ← maskbit !! offset;
    b ← u p !! index;
    let u' := <[index := Z.land b m]> (u p) in
    Some (mkPrefix (family p) (prefixlen p) (store u' (S index) (replicate (16 - S index) 0%Z)))
  else Some p.

Definition apply_mask (p : prefix) : option prefix :=
  if decide (family p = AF_INET) then apply_mask_ipv4 p
  else if decide (family p = AF_INET6) then apply_mask_ipv6 p
  else Some p.

Definition prefix_blen (p : prefix) : nat :=
  if decide (family p = AF_INET) then IPV4_MAX_BYTELEN
  else if decide (family p = AF_INET6) then IPV6_MAX_BYTELEN
  else if decide (family p = AF_ETHERNET) then ETH_ALEN
  else 0.

(** The class tests of <netinet/in.h> on a host-order address. *)
Definition IN_CLASSA (a : Z) : bool := (Z.land a 0x80000000 =? 0)%Z.
Definition IN_CLASSB (a : Z) : bool := (Z.land a 0xc0000000 =? 0x80000000)%Z.
Definition IN_CLASSC (a : Z) : bool := (Z.land a 0xe0000000 =? 0xc0000000)%Z.

Definition apply_classful_mask_ipv4 (p : prefix) : option prefix :=
  let destination := htonl (s_addr p) in
  if decide (prefixlen p = 32) then Some p
  else if IN_CLASSC destination then apply_mask_ipv4 (mkPrefix (family p) 24 (u p))
  else if IN_CLASSB destination then apply_mask_ipv4 (mkPrefix (family p) 16 (u p))
  else apply_mask_ipv4 (mkPrefix (family p) 8 (u p)).

Definition ipv4_network_addr (hostaddr masklen : Z) : option Z :=
  mask ← masklen2ip masklen; Some (Z.land hostaddr mask).

Definition ipv4_broadcast_addr (hostaddr masklen : Z) : option Z :=
  mask ← masklen2ip masklen;
  Some (if decide (masklen ≠ 31)%Z then Z.lor hostaddr (u32 (Z.lnot mask))
        else Z.lxor hostaddr (u32 (Z.lnot mask))).

(** ** Predicates of prefix.h *)

Definition ipv4_martian (a : Z) : Z :=
  let ip := htonl a in
  if (Z.land ip 0xff000000 =? 0)%Z || (Z.land ip 0xff000000 =? 0x7f000000)%Z
     || (Z.land ip 0xe0000000 =? 0xe0000000)%Z then 1 else 0.

Definition is_default_prefix (p : option prefix) : Z :=
  match p with
  | None => 0
  | Some p =>
      if decide (family p = AF_INET ∧ s_addr p = 0%Z ∧ prefixlen p = 0) then 1
      else if decide (family p = AF_INET6 ∧ prefixlen p = 0 ∧ prefix6 p = replicate 16 0%Z) then 1
      else 0
  end.

Definition is_host_route (p : prefix) : bool :=
  if decide (family p = AF_INET) then bool_decide (prefixlen p = IPV4_MAX_BITLEN)
  else if decide (family p = AF_INET6) then bool_decide (prefixlen p = IPV6_MAX_BITLEN)
  else false.

Definition is_default_host_route (p : prefix) : bool :=
  if decide (family p = AF_INET) then
    bool_decide (s_addr p = 0%Z) && bool_decide (prefixlen p = IPV4_MAX_BITLEN)
  else if decide (family p = AF_INET6) then
    bool_decide (prefix6 p = replicate 16 0%Z) && bool_decide (prefixlen p = IPV6_MAX_BITLEN)
  else false.

(** ** Sockets: [union sockunion] as family and address bytes *)

Record sockunion := mkSock { sa_family : Z; sin_addr : list Z; sin6_addr : list Z }.

Definition zero_prefix : prefix := mkPrefix 0 0 (replicate UNION_SIZE 0%Z).

Definition sockunion2prefix (dest mask : sockunion) : option (option prefix) :=
  if decide (sa_family dest = AF_INET) then
    Some (Some (mkPrefix AF_INET (Z.to_nat (ip_masklen (le_read (sin_addr mask))))
                  (store (u zero_prefix) 0 (sin_addr dest))))
  else if decide (sa_family dest = AF_INET6) then
    len ← ip6_masklen (sin6_addr mask);
    Some (Some (mkPrefix AF_INET6 (Z.to_nat len) (store (u zero_prefix) 0 (sin6_addr dest))))
  else Some None.

Definition sockunion2hostprefix (su : sockunion) (p : option prefix) : option prefix :=
  let base := default zero_prefix p in
  if decide (sa_family su = AF_INET) then
    Some (mkPrefix AF_INET IPV4_MAX_BITLEN (store (u base) 0 (sin_addr su)))
  else if decide (sa_family su = AF_INET6) then
    Some (mkPrefix AF_INET6 IPV6_MAX_BITLEN (store (u base) 0 (sin6_addr su)))
  else None.

Definition prefix2sockunion (p : prefix) : sockunion :=
  mkSock (family p)
    (if decide (family p = AF_INET) then prefix4 p else replicate 4 0%Z)
    (if decide (family p = AF_INET6) then prefix6 p else replicate 16 0%Z).

(** ** Address bits

    Bit [i] of an address, counted from the most significant bit of its first
    byte: the order in which prefix lengths count. *)
Definition abit (l : list Z) (i : nat) : bool :=
  Z.testbit (default 0%Z (l !! (i / 8))) (7 - Z.of_nat (i mod 8)).

Definition same_bits (l1 l2 : list Z) (n : nat) : Prop := ∀ i, i < n → abit l1 i = abit l2 i.

Lemma div_mod8 j k : k < 8 → (8 * j + k) / 8 = j ∧ (8 * j + k) mod 8 = k.
Proof.
  intros Hk. split; [symmetry; by apply (Nat.div_unique _ 8 j k)|].
  symmetry. by apply (Nat.mod_unique _ 8 j k).
Qed.

Lemma abit_at l j k : k < 8 → abit l (8 * j + k) = Z.testbit (default 0%Z (l !! j)) (7 - Z.of_nat k).
Proof.
  intros Hk. unfold abit. by destruct (div_mod8 j k Hk) as [-> ->].
Qed.

(** Every bit is bit [k] of byte [j]. *)
Lemma bit_pos i : ∃ j k, i = 8 * j + k ∧ k < 8.
Proof. exists (i / 8), (i mod 8). split; [apply Nat.div_mod_eq|apply Nat.mod_upper_bound; lia]. Qed.

Lemma default_byte l j : bytes l → is_byte (default 0%Z (l !! j)).
Proof.
  intros Hl. destruct (l !! j) as [b|] eqn:E; [|by vm_compute].
  by eapply Forall_lookup_1 in E.
Qed.

(** Byte [j] of two addresses agrees when its eight bits do. *)
Lemma same_byte l1 l2 j : bytes l1 → bytes l2 →
  (∀ k, k < 8 → abit l1 (8 * j + k) = abit l2 (8 * j + k)) →
  default 0%Z (l1 !! j) = default 0%Z (l2 !! j).
Proof.
  intros H1 H2 H. apply byte_ext; [by apply default_byte..|]. intros k Hk.
  specialize (H (7 - Z.to_nat k)). rewrite !abit_at in H by lia.
  replace (7 - Z.of_nat (7 - Z.to_nat k))%Z with k in H by lia. apply H. lia.
Qed.

Lemma same_bits_bytes l1 l2 n : bytes l1 → bytes l2 → n ≤ length l1 → n ≤ length l2 →
  same_bits l1 l2 (8 * n) ↔ take n l1 = take n l2.
Proof.
  intros H1 H2 Hn1 Hn2. split.
  - intros H. apply list_eq. intros j. destruct (decide (j < n)) as [Hj|Hj].
    2:{ rewrite !lookup_take_ge by lia. done. }
    rewrite !lookup_take_lt by lia.
    destruct (lookup_lt_is_Some_2 l1 j) as [a Ha]; [lia|].
    destruct (lookup_lt_is_Some_2 l2 j) as [b Hb]; [lia|].
    pose proof (same_byte l1 l2 j H1 H2) as E. rewrite Ha, Hb in E |- *. simpl in E.
    rewrite E; [done|]. intros k Hk. apply H. lia.
  - intros H i Hi. destruct (bit_pos i) as (j & k & -> & Hk).
    rewrite !abit_at by done. rewrite <- (lookup_take_lt l1 n), H, lookup_take_lt by lia. done.
Qed.

Lemma same_bytes_spec l1 l2 n : n ≤ length l1 → n ≤ length l2 →
  ∃ r, same_bytes l1 l2 n = Some r ∧ (r = true ↔ take n l1 = take n l2).
Proof.
  induction n as [|n IH]; intros H1 H2; [by exists true|]. cbn [same_bytes].
  destruct (lookup_lt_is_Some_2 l1 n) as [a Ha]; [lia|].
  destruct (lookup_lt_is_Some_2 l2 n) as [b Hb]; [lia|].
  destruct IH as (r & Hr & Hiff); [lia..|].
  rewrite Ha, Hb, (take_S_r l1 n a), (take_S_r l2 n b) by done. simpl.
  case_decide as Hab.
  - exists false. split; [done|]. split; [done|]. intros [_ [=]]%app_inj_2; done.
  - exists r. split; [done|]. rewrite Hiff, Hab. split; [by intros ->|].
    intros [? _]%app_inj_2; done.
Qed.

(** [maskbit[s]] selects the [s] most significant bits of a byte. *)
Lemma maskbit_bits s m k : maskbit !! s = Some m → k < 8 →
  Z.testbit m (7 - Z.of_nat k) = bool_decide (k < s).
Proof.
  intros Hs Hk. assert (s < 9) by (by apply lookup_lt_Some in Hs).
  do 9 (destruct s as [|s]; [injection Hs as <-; do 8 (destruct k as [|k]; [done|]); lia|]). lia.
Qed.

Lemma maskbit_Some s : s ≤ 8 → ∃ m, maskbit !! s = Some m ∧ is_byte m.
Proof.
  intros Hs. do 9 (destruct s as [|s]; [eexists; split; [done|by vm_compute]|]). lia.
Qed.

Lemma partial_byte_spec a b s m : is_byte a → is_byte b → maskbit !! s = Some m → is_byte m →
  (Z.land m (Z.lxor a b) =? 0)%Z = true ↔
  ∀ k, k < 8 → k < s → Z.testbit a (7 - Z.of_nat k) = Z.testbit b (7 - Z.of_nat k).
Proof.
  intros Ha Hb Hm Hmb. rewrite Z.eqb_eq. split.
  - intros E k Hk Hs. assert (Z.testbit (Z.land m (Z.lxor a b)) (7 - Z.of_nat k) = false) as Hx
      by (by rewrite E, Z.testbit_0_l).
    rewrite Z.land_spec, Z.lxor_spec, (maskbit_bits s), bool_decide_true in Hx by done.
    by destruct (Z.testbit a _), (Z.testbit b _).
  - intros H. apply Z.bits_inj'. intros k Hk. rewrite Z.land_spec, Z.lxor_spec, Z.testbit_0_l.
    destruct (Z_lt_le_dec k 8) as [Hlt|Hge]; [|by rewrite (byte_bits m)].
    replace k with (7 - Z.of_nat (7 - Z.to_nat k))%Z by lia.
    rewrite (maskbit_bits s) by (done || lia). case_bool_decide; [|done].
    rewrite H by lia. by rewrite xorb_nilpotent.
Qed.

(** The comparison loop decides equality of the leading [len] bits. *)
Lemma same_head_spec l1 l2 len : bytes l1 → bytes l2 →
  len ≤ 8 * length l1 → len ≤ 8 * length l2 →
  ∃ r, same_head l1 l2 len = Some r ∧ (r = true ↔ same_bits l1 l2 len).
Proof.
  intros B1 B2 H1 H2. destruct (bit_pos len) as (j & s & -> & Hs). unfold same_head, PNBBY.
  destruct (div_mod8 j s Hs) as [-> ->].
  destruct (same_bytes_spec l1 l2 j) as (r & Hr & Hiff); [lia..|].
  rewrite <- (same_bits_bytes l1 l2 j) in Hiff by (done || lia).
  rewrite Hr. case_decide as Hz.
  - exists r. subst s. rewrite Nat.add_0_r. done.
  - destruct (lookup_lt_is_Some_2 l1 j) as [a Ha]; [lia|].
    destruct (lookup_lt_is_Some_2 l2 j) as [b Hb]; [lia|].
    destruct (maskbit_Some s) as (m & Hm & Hmb); [lia|]. rewrite Hm, Ha, Hb. simpl.
    assert (is_byte a) as Ba by (by eapply Forall_lookup_1 in Ha).
    assert (is_byte b) as Bb by (by eapply Forall_lookup_1 in Hb).
    pose proof (partial_byte_spec a b s m Ba Bb Hm Hmb) as Hp.
    assert (same_bits l1 l2 (8 * j + s) ↔
      same_bits l1 l2 (8 * j) ∧ (Z.land m (Z.lxor a b) =? 0)%Z = true) as Hsplit.
    { rewrite Hp. split.
      - intros H. split; [intros i Hi; apply H; lia|]. intros k Hk Hks.
        specialize (H (8 * j + k)). rewrite !abit_at, Ha, Hb in H by done. apply H. lia.
      - intros [Hlo Hhi] i Hi. destruct (decide (i < 8 * j)); [auto|].
        replace i with (8 * j + (i - 8 * j)) by lia.
        rewrite !abit_at, Ha, Hb by lia. apply Hhi; lia. }
    destruct (Z.land m (Z.lxor a b) =? 0)%Z; simpl.
    + exists r. split; [done|]. rewrite Hsplit, Hiff. tauto.
    + exists false. split; [done|]. rewrite Hsplit. split; [done|by intros []].
Qed.

#[export] Instance same_bits_dec l1 l2 n : Decision (same_bits l1 l2 n).
Proof.
  refine (cast_if (decide (Forall (λ i, abit l1 i = abit l2 i) (seq 0 n)))).
  - intros i Hi. eapply Forall_forall in f; [done|]. apply elem_of_seq. lia.
  - intros H. apply n0, Forall_forall. intros i Hi. apply elem_of_seq in Hi. apply H. lia.
Defined.

Lemma same_head_decide l1 l2 len : bytes l1 → bytes l2 →
  len ≤ 8 * length l1 → len ≤ 8 * length l2 →
  same_head l1 l2 len = Some (bool_decide (same_bits l1 l2 len)).
Proof.
  intros B1 B2 H1 H2. destruct (same_head_spec l1 l2 len) as (r & -> & Hr); [done..|].
  f_equal. destruct r; case_bool_decide as Hd; [done|by destruct Hd; apply Hr|by apply Hr in Hd|done].
Qed.

Lemma same_bits_refl l n : same_bits l l n.
Proof. by intros i Hi. Qed.
Lemma same_bits_sym l1 l2 n : same_bits l1 l2 n → same_bits l2 l1 n.
Proof. intros H i Hi. symmetry. by apply H. Qed.
Lemma same_bits_trans l1 l2 l3 n m : n ≤ m →
  same_bits l1 l2 n → same_bits l2 l3 m → same_bits l1 l3 n.
Proof. intros Hn H1 H2 i Hi. rewrite H1 by done. apply H2. lia. Qed.

(** A prefix whose length stays inside the union. *)
Definition prefix_ok (p : prefix) : Prop :=
  bytes (u p) ∧ length (u p) = UNION_SIZE ∧ prefixlen p ≤ 8 * UNION_SIZE.

#[export] Instance prefix_ok_dec p : Decision (prefix_ok p).
Proof. unfold prefix_ok. apply _. Defined.

(** Same network: family, length and the bits the length covers. *)
Definition same_network (p q : prefix) : Prop :=
  family p = family q ∧ prefixlen p = prefixlen q ∧ same_bits (u p) (u q) (prefixlen p).

#[export] Instance same_network_dec p q : Decision (same_network p q).
Proof. unfold same_network. apply _. Defined.

#[export] Instance same_network_equiv : Equivalence same_network.
Proof.
  split.
  - intros p. repeat split.
  - intros p q (H1 & H2 & H3). repeat split; [done..|]. rewrite <- H2. by apply same_bits_sym.
  - intros p q r (H1 & H2 & H3) (H4 & H5 & H6). split; [by rewrite H1|]. split; [by rewrite H2|].
    eapply same_bits_trans; [|done..]. by rewrite H2.
Qed.

(** [n] covers [p]. *)
Definition covers (n p : prefix) : Prop :=
  prefixlen n ≤ prefixlen p ∧ same_bits (u n) (u p) (prefixlen n).

#[export] Instance covers_dec n p : Decision (covers n p).
Proof. unfold covers. apply _. Defined.

#[export] Instance covers_proper : Proper (same_network ==> same_network ==> iff) covers.
Proof.
  intros p p' (H1 & H2 & H3) q q' (H4 & H5 & H6). unfold covers. rewrite <- H2, <- H5.
  split; intros [Hle Hb]; (split; [done|]); intros i Hi.
  - rewrite <- H3, Hb, H6 by lia. done.
  - rewrite H3, Hb, H6 by lia. done.
Qed.

#[export] Instance covers_preorder : PreOrder covers.
Proof.
  split.
  - intros p. split; [done|]. apply same_bits_refl.
  - intros p q r [H1 H2] [H3 H4]. split; [lia|]. by eapply same_bits_trans.
Qed.

Lemma prefix_match_decide (n p : prefix) :
  prefix_ok n → prefix_ok p → family n ≠ AF_FLOWSPEC →
  prefix_match n p = Some (if decide (covers n p) then 1 else 0)%Z.
Proof.
  intros (Bn & Ln & Kn) (Bp & Lp & Kp) Hf. unfold prefix_match, covers.
  case_decide; [rewrite decide_False by lia; done|].
  rewrite (decide_False (P := family n = AF_FLOWSPEC)) by done.
  rewrite same_head_decide by (done || lia). simpl. f_equal.
  case_bool_decide; case_decide; naive_solver lia.
Qed.

Lemma prefix_match_1 (n p : prefix) :
  prefix_ok n → prefix_ok p → family n ≠ AF_FLOWSPEC →
  prefix_match n p = Some 1%Z ↔ covers n p.
Proof. intros. rewrite prefix_match_decide by done. by case_decide. Qed.

(** C8 For every family but flowspec, [prefix_match n p] reads only bytes of
    the two unions and answers 1 exactly when [n] is not longer than [p] and
    the first [prefixlen n] address bits agree (0 otherwise); so matching is
    reflexive and transitive. *)
Theorem prefix_match_covers (n p q : prefix) :
  prefix_ok n → prefix_ok p → prefix_ok q →
  family n ≠ AF_FLOWSPEC → family p ≠ AF_FLOWSPEC →
  prefix_match n p = Some (if decide (covers n p) then 1 else 0)%Z
  ∧ prefix_match n n = Some 1%Z
  ∧ (prefix_match n p = Some 1%Z → prefix_match p q = Some 1%Z → prefix_match n q = Some 1%Z).
Proof.
  intros Hn Hp Hq Fn Fp. split; [by apply prefix_match_decide|].
  rewrite !prefix_match_1 by done. split; [reflexivity|]. apply transitivity.
Qed.

Definition pfx4 (a b c d : Z) (len : nat) : prefix :=
  mkPrefix AF_INET len ([a; b; c; d] ++ replicate 36 0%Z).

Lemma prefix_match_covers_witness :
  prefix_match (pfx4 10 0 0 0 8) (pfx4 10 127 7 1 24) = Some 1%Z.
Proof.
  apply (prefix_match_covers (pfx4 10 0 0 0 8) (pfx4 10 127 0 0 12) (pfx4 10 127 7 1 24));
    by apply (bool_decide_unpack _); vm_compute.
Defined.

Lemma prefix_cmp_decide (h : heap) (p q : prefix) :
  prefix_ok p → prefix_ok q → family p ≠ AF_FLOWSPEC →
  prefix_cmp h p q = Some (if decide (same_network p q) then 0 else 1)%Z.
Proof.
  intros (Bp & Lp & Kp) (Bq & Lq & Kq) Fp. unfold prefix_cmp, same_network.
  case_decide; [rewrite decide_False by naive_solver; done|].
  rewrite (decide_False (P := family p = AF_FLOWSPEC)) by done.
  case_decide; [rewrite decide_False by naive_solver; done|].
  rewrite same_head_decide by (done || lia). simpl. f_equal.
  case_bool_decide; case_decide; naive_solver.
Qed.

(** [prefix_cmp] answers 0 exactly for two prefixes of the same network
    (same family, same length, same leading bits), which is an equivalence
    that ignores host bits, and replacing either argument of [prefix_match] by
    a prefix of the same network does not change its answer. *)
Theorem prefix_cmp_equivalence (h : heap) (p q r : prefix) :
  prefix_ok p → prefix_ok q → prefix_ok r →
  family p ≠ AF_FLOWSPEC → family q ≠ AF_FLOWSPEC →
  prefix_cmp h p q = Some (if decide (same_network p q) then 0 else 1)%Z
  ∧ (prefix_cmp h p q = Some 0%Z →
     prefix_match p r = prefix_match q r
     ∧ (family r ≠ AF_FLOWSPEC → prefix_match r p = prefix_match r q)).
Proof.
  intros Hp Hq Hr Fp Fq.
  pose proof (prefix_cmp_decide h p q Hp Hq Fp) as E.
  split; [done|]. rewrite E. intros H0. case_decide as Hn; [|done].
  rewrite !prefix_match_decide by done. split; [|intros Fr].
  - f_equal. do 2 case_decide; [done|..|done]; rewrite Hn in *; done.
  - rewrite !prefix_match_decide by done. f_equal.
    do 2 case_decide; [done|..|done]; rewrite Hn in *; done.
Qed.

Lemma prefix_cmp_equivalence_witness :
  prefix_match (pfx4 10 1 2 3 8) (pfx4 10 127 7 1 24) = prefix_match (pfx4 10 9 9 9 8) (pfx4 10 127 7 1 24).
Proof.
  apply (prefix_cmp_equivalence ∅ (pfx4 10 1 2 3 8) (pfx4 10 9 9 9 8) (pfx4 10 127 7 1 24));
    by apply (bool_decide_unpack _); vm_compute.
Defined.

(** ** Common bits *)

Lemma common_pos_spec l1 l2 n pos : n + pos ≤ length l1 → n + pos ≤ length l2 →
  take pos l1 = take pos l2 →
  ∃ k, common_pos l1 l2 n pos = Some k ∧ pos ≤ k ≤ n + pos ∧ take k l1 = take k l2
     ∧ (k < n + pos → l1 !! k ≠ l2 !! k).
Proof.
  revert pos. induction n as [|n IH]; intros pos H1 H2 Ht; cbn [common_pos].
  { exists pos. repeat split; [lia..|done|lia]. }
  destruct (lookup_lt_is_Some_2 l1 pos) as [a Ha]; [lia|].
  destruct (lookup_lt_is_Some_2 l2 pos) as [b Hb]; [lia|].
  rewrite Ha, Hb. simpl. case_decide as Hab.
  - exists pos. repeat split; [lia..|done|]. intros _. congruence.
  - subst b. destruct (IH (S pos)) as (k & Hk & Hb' & Ht' & Hd); [lia..| |].
    { by rewrite (take_S_r _ _ _ Ha), (take_S_r _ _ _ Hb), Ht. }
    exists k. repeat split; [done|lia..|done|]. intros Hlt. apply Hd. lia.
Qed.

Lemma land_pow2_eqb x n : (0 ≤ n)%Z → (Z.land x (Z.shiftl 1 n) =? 0)%Z = negb (Z.testbit x n).
Proof.
  intros Hn. destruct (Z.testbit x n) eqn:E; simpl.
  - apply Z.eqb_neq. intros H0. assert (Z.testbit (Z.land x (Z.shiftl 1 n)) n = true) as H1.
    { rewrite Z.land_spec, E, Z.shiftl_spec, Z.sub_diag by lia. done. }
    by rewrite H0, Z.testbit_0_l in H1.
  - apply Z.eqb_eq, Z.bits_inj'. intros k Hk. rewrite Z.land_spec, Z.testbit_0_l.
    destruct (Z.eq_dec k n) as [->|Hne]; [by rewrite E|].
    rewrite Z.shiftl_spec by done. destruct (Z_lt_le_dec k n).
    + rewrite (Z.testbit_neg_r 1) by lia. apply andb_false_r.
    + rewrite (testbit_above 1 1) by lia. apply andb_false_r.
Qed.

Lemma common_bit_spec x n bit : n + bit = 8 →
  (∀ k, k < bit → Z.testbit x (7 - Z.of_nat k) = false) →
  let r := common_bit x n bit in
  r ≤ 8 ∧ (∀ k, k < r → Z.testbit x (7 - Z.of_nat k) = false)
  ∧ (r < 8 → Z.testbit x (7 - Z.of_nat r) = true).
Proof.
  revert bit. induction n as [|n IH]; intros bit Hn Hb; cbn [common_bit].
  { repeat split; [lia|done|lia]. }
  rewrite land_pow2_eqb by lia. destruct (Z.testbit x (7 - Z.of_nat bit)) eqn:E; simpl.
  - repeat split; [lia|done|done].
  - apply IH; [lia|]. intros k Hk. destruct (decide (k = bit)) as [->|]; [done|]. apply Hb. lia.
Qed.

(** [prefix_common_bits] of two IPv4, IPv6 or Ethernet prefixes of one
    family is the exact number of leading bits the two addresses share: all of
    them agree, and the next one differs unless the whole address is shared.
    The prefix lengths play no role. *)
Theorem prefix_common_bits_exact (p q : prefix) :
  prefix_ok p → prefix_ok q → family p = family q →
  family p ∈ [AF_INET; AF_INET6; AF_ETHERNET] →
  ∃ k : nat, prefix_common_bits p q = Some (Z.of_nat k)
    ∧ k ≤ 8 * prefix_blen p ∧ same_bits (u p) (u q) k
    ∧ (k < 8 * prefix_blen p → abit (u p) k ≠ abit (u q) k).
Proof.
  intros (Bp & Lp & _) (Bq & Lq & _) Hf Hin.
  assert (common_length (family p) = prefix_blen p ∧ 0 < prefix_blen p ≤ 16) as [HL HLb].
  { unfold common_length, prefix_blen.
    repeat (apply elem_of_cons in Hin as [->|Hin]; [simpl; unfold IPV4_MAX_BYTELEN, IPV6_MAX_BYTELEN, ETH_ALEN; lia|]).
    by apply elem_of_nil in Hin. }
  unfold prefix_common_bits. rewrite HL, decide_False by (intros [?|?]; [done|lia]).
  unfold UNION_SIZE in *.
  destruct (common_pos_spec (u p) (u q) (prefix_blen p) 0) as (j & -> & Hj & Ht & Hd); [lia..|done|].
  simpl. apply same_bits_bytes in Ht; [|done..|lia|lia]. case_decide as Hjl.
  { exists (j * 8). replace (j * 8) with (8 * j) by lia. repeat split; [lia|done|lia]. }
  destruct (lookup_lt_is_Some_2 (u p) j) as [a Ha]; [lia|].
  destruct (lookup_lt_is_Some_2 (u q) j) as [b Hb]; [lia|].
  rewrite Ha, Hb in *. simpl. set (r := common_bit (Z.lxor a b) 8 0).
  destruct (common_bit_spec (Z.lxor a b) 8 0) as (Hr & Hlow & Hhi); [done|lia|]. fold r in Hr, Hlow, Hhi.
  assert (is_byte a) as Ba by (by eapply Forall_lookup_1 in Ha).
  assert (is_byte b) as Bb by (by eapply Forall_lookup_1 in Hb).
  assert (r < 8) as Hr8.
  { destruct (decide (r = 8)) as [E|]; [|lia]. destruct Hd; [lia|]. f_equal.
    apply byte_ext; [done..|]. intros k Hk. specialize (Hlow (7 - Z.to_nat k)).
    rewrite Z.lxor_spec in Hlow. replace (7 - Z.of_nat (7 - Z.to_nat k))%Z with k in Hlow by lia.
    apply xorb_eq, Hlow. lia. }
  exists (j * 8 + r). replace (j * 8) with (8 * j) by lia. repeat split; [lia| |].
  - intros i Hi. destruct (decide (i < 8 * j)); [by apply Ht|].
    replace i with (8 * j + (i - 8 * j)) by lia. rewrite !abit_at, Ha, Hb by lia. simpl.
    apply xorb_eq. rewrite <- Z.lxor_spec. apply Hlow. lia.
  - intros _ E. rewrite !abit_at, Ha, Hb in E by lia. simpl in E.
    specialize (Hhi Hr8). rewrite Z.lxor_spec, E, xorb_nilpotent in Hhi. done.
Qed.

Lemma prefix_common_bits_exact_witness :
  prefix_common_bits (pfx4 10 1 0 0 8) (pfx4 10 1 16 0 24) = Some 19%Z
  ∧ ∃ k : nat, prefix_common_bits (pfx4 10 1 0 0 8) (pfx4 10 1 16 0 24) = Some (Z.of_nat k)
      ∧ same_bits (u (pfx4 10 1 0 0 8)) (u (pfx4 10 1 16 0 24)) k.
Proof.
  split; [by vm_compute|].
  destruct (prefix_common_bits_exact (pfx4 10 1 0 0 8) (pfx4 10 1 16 0 24)) as (k & H & _ & H' & _);
    [by apply (bool_decide_unpack _); vm_compute..|by exists k].
Defined.

(** ** Masks *)

Lemma abit_le_write n z i : i < 8 * n →
  abit (le_write n z) i = Z.testbit z (8 * Z.of_nat (i / 8) + (7 - Z.of_nat (i mod 8))).
Proof.
  intros Hi. assert (i / 8 < n) by (apply Nat.Div0.div_lt_upper_bound; lia).
  pose proof (Nat.mod_upper_bound i 8).
  unfold abit. rewrite le_write_lookup by done. simpl.
  rewrite u8_bit by lia. rewrite Z.shiftr_spec by lia. f_equal. lia.
Qed.

Lemma abit_land n a b i : i < 8 * n →
  abit (le_write n (Z.land a b)) i = abit (le_write n a) i && abit (le_write n b) i.
Proof. intros Hi. by rewrite !abit_le_write, Z.land_spec by done. Qed.

Lemma abit_app_l l1 l2 i : i < 8 * length l1 → abit (l1 ++ l2) i = abit l1 i.
Proof.
  intros Hi. unfold abit. rewrite lookup_app_l; [done|]. apply Nat.Div0.div_lt_upper_bound. lia.
Qed.

Lemma abit_take l n i : i < 8 * n → abit (take n l) i = abit l i.
Proof.
  intros Hi. unfold abit. rewrite lookup_take_lt; [done|]. apply Nat.Div0.div_lt_upper_bound. lia.
Qed.

(** All positions below a bound, checked by evaluation. *)
Lemma forallb_seq (f : nat → bool) n : forallb f (seq 0 n) = true → ∀ i, i < n → f i = true.
Proof.
  intros H i Hi. rewrite forallb_forall in H. apply H. apply in_seq. lia.
Qed.

Lemma masklen2ip_bits (m : nat) : m ≤ 32 →
  ∃ z, masklen2ip (Z.of_nat m) = Some z ∧ (0 ≤ z < 2 ^ 32)%Z
     ∧ ∀ i, i < 32 → abit (le_write 4 z) i = bool_decide (i < m).
Proof.
  intros Hm. set (chk := λ m : nat,
    match masklen2ip (Z.of_nat m) with
    | Some z => ((0 <=? z) && (z <? 2 ^ 32))%Z &&
        forallb (λ i, Bool.eqb (abit (le_write 4 z) i) (bool_decide (i < m))) (seq 0 32)
    | None => false
    end).
  assert (chk m = true) as H.
  { apply (forallb_seq chk 33); [by vm_compute|lia]. }
  unfold chk in H. destruct (masklen2ip _) as [z|]; [|done]. exists z.
  apply andb_true_iff in H as [[H1%Z.leb_le H2%Z.ltb_lt]%andb_true_iff H3].
  repeat split; [done..|]. intros i Hi. apply Bool.eqb_prop. revert i Hi. by apply forallb_seq.
Qed.

Lemma masklen2ip6_bits (m : nat) : m ≤ 128 →
  ∃ l, masklen2ip6 (Z.of_nat m) = Some l ∧ length l = 16 ∧ bytes l
     ∧ ∀ i, i < 128 → abit l i = bool_decide (i < m).
Proof.
  intros Hm. set (chk := λ m : nat,
    match masklen2ip6 (Z.of_nat m) with
    | Some l => bool_decide (length l = 16) && bool_decide (bytes l) &&
        forallb (λ i, Bool.eqb (abit l i) (bool_decide (i < m))) (seq 0 128)
    | None => false
    end).
  assert (chk m = true) as H.
  { apply (forallb_seq chk 129); [by vm_compute|lia]. }
  unfold chk in H. destruct (masklen2ip6 _) as [z|]; [|done]. exists z.
  apply andb_true_iff in H as [[H1%bool_decide_eq_true_1 H2%bool_decide_eq_true_1]%andb_true_iff H3].
  repeat split; [done..|]. intros i Hi. apply Bool.eqb_prop. revert i Hi. by apply forallb_seq.
Qed.

(** [l'] is [l] with the bits from [n] on cleared in its first [L] bytes. *)
Definition masked (n L : nat) (l l' : list Z) : Prop :=
  length l' = length l ∧ bytes l' ∧ drop L l' = drop L l
  ∧ ∀ i, i < 8 * L → abit l' i = abit l i && bool_decide (i < n).

Lemma same_bits_app_eq l1 l2 L : bytes l1 → bytes l2 → length l1 = length l2 → L ≤ length l1 →
  drop L l1 = drop L l2 → same_bits l1 l2 (8 * L) → l1 = l2.
Proof.
  intros B1 B2 Hl HL Hd Hb. apply same_bits_bytes in Hb; [|done..|lia|lia].
  by rewrite <- (take_drop L l1), <- (take_drop L l2), Hb, Hd.
Qed.

Lemma masked_unique n L l1 l2 l1' l2' : bytes l1 → bytes l2 → L ≤ length l1 → length l1 = length l2 →
  drop L l1 = drop L l2 → same_bits l1 l2 n →
  masked n L l1 l1' → masked n L l2 l2' → l1' = l2'.
Proof.
  intros B1 B2 HL Hl Hd Hs (L1 & B1' & D1 & M1) (L2 & B2' & D2 & M2).
  apply (same_bits_app_eq l1' l2' L); [done|done|lia|lia|congruence|].
  intros i Hi. rewrite M1, M2 by done. case_bool_decide; [|by rewrite !andb_false_r].
  by rewrite Hs.
Qed.

Lemma masked_idem n L l l' : bytes l → L ≤ length l → masked n L l l' → masked n L l' l'.
Proof.
  intros B HL (L1 & B1' & D1 & M1). repeat split; [done..|]. intros i Hi.
  rewrite M1 by done. by rewrite <- andb_assoc, andb_diag.
Qed.

Lemma store_0 l bs : store l 0 bs = bs ++ drop (length bs) l.
Proof. done. Qed.

Lemma apply_mask_ipv4_masked p : prefix_ok p → prefixlen p ≤ 32 →
  ∃ u', apply_mask_ipv4 p = Some (mkPrefix (family p) (prefixlen p) u')
      ∧ masked (prefixlen p) 4 (u p) u'.
Proof.
  intros (B & L & _) Hm. unfold apply_mask_ipv4.
  destruct (masklen2ip_bits _ Hm) as (z & -> & Hz & Hb). simpl.
  eexists. split; [done|]. rewrite store_0, le_write_length. unfold UNION_SIZE in L.
  repeat split.
  - len.
  - auto with bytes.
  - intros i Hi. rewrite abit_app_l by (rewrite le_write_length; lia).
    rewrite abit_land by done. rewrite Hb by lia. f_equal.
    unfold s_addr, prefix4, IPV4_MAX_BYTELEN.
    assert (length (take 4 (u p)) = 4) as E by (rewrite length_take; lia).
    rewrite <- E at 1. rewrite le_write_read by (by apply Forall_take). by apply abit_take.
Qed.

Lemma apply_mask_ipv6_masked p : prefix_ok p → prefixlen p ≤ 128 →
  ∃ u', apply_mask_ipv6 p = Some (mkPrefix (family p) (prefixlen p) u')
      ∧ masked (prefixlen p) 16 (u p) u'.
Proof.
  intros (B & L & _) Hm. unfold apply_mask_ipv6, UNION_SIZE in *.
  destruct (bit_pos (prefixlen p)) as (j & s & E & Hs).
  assert (prefixlen p / 8 = j ∧ prefixlen p mod 8 = s) as [-> ->] by (rewrite E; by apply div_mod8).
  case_decide as Hj.
  2:{ exists (u p). split; [by destruct p|]. repeat split; [done..|]. intros i Hi.
      rewrite bool_decide_true by lia. by rewrite andb_true_r. }
  destruct (maskbit_Some s) as (m & Hm' & Hmb); [lia|].
  destruct (lookup_lt_is_Some_2 (u p) j) as [b Hb]; [lia|].
  rewrite Hm', Hb. obind. eexists. split; [done|].
  assert (is_byte b) as Bb by (by eapply Forall_lookup_1 in Hb).
  assert (is_byte (Z.land b m)) as Bl by (by apply land_byte).
  set (v := <[j:=Z.land b m]> (u p)). unfold store. rewrite length_replicate.
  replace (S j + (16 - S j)) with 16 by lia. repeat split.
  - unfold v. rewrite !length_app, length_take, length_drop, length_replicate, length_insert. lia.
  - assert (bytes v) by (by apply Forall_insert). auto 6 with bytes.
  - rewrite app_assoc, drop_app_length'; [unfold v; apply drop_insert_lt; lia|].
    unfold v. rewrite length_app, length_take, length_replicate, length_insert. lia.
  - intros i Hi. destruct (bit_pos i) as (j' & k & -> & Hk). rewrite !abit_at by done.
    unfold v. rewrite E. destruct (decide (j' < j)) as [?|?]; [|destruct (decide (j' = j)) as [->|?]].
    + rewrite bool_decide_true, andb_true_r by lia.
      rewrite lookup_app_l by (rewrite length_take, length_insert; lia).
      by rewrite lookup_take_lt, list_lookup_insert_ne by lia.
    + rewrite lookup_app_l by (rewrite length_take, length_insert; lia).
      rewrite lookup_take_lt, list_lookup_insert_eq, Hb by lia. simpl.
      rewrite Z.land_spec, (maskbit_bits s m) by done. f_equal. apply bool_decide_ext. lia.
    + rewrite bool_decide_false, andb_false_r by lia.
      rewrite lookup_app_r by (rewrite length_take, length_insert; lia).
      rewrite length_take, length_insert.
      rewrite lookup_app_l by (rewrite length_replicate; lia).
      rewrite lookup_replicate_2 by lia. apply Z.testbit_0_l.
Qed.

(** [apply_mask] on both address families. *)
Lemma apply_mask_masked p : prefix_ok p → family p = AF_INET ∨ family p = AF_INET6 →
  prefixlen p ≤ 8 * prefix_blen p →
  ∃ u', apply_mask p = Some (mkPrefix (family p) (prefixlen p) u')
      ∧ masked (prefixlen p) (prefix_blen p) (u p) u'.
Proof.
  intros Hp [Hf|Hf] Hl; unfold apply_mask, prefix_blen in *; rewrite Hf in *; simpl in *.
  - destruct (apply_mask_ipv4_masked p) as (u' & E & M); [done..|]. exists u'. by rewrite <- Hf.
  - destruct (apply_mask_ipv6_masked p) as (u' & E & M); [done..|]. exists u'. by rewrite <- Hf.
Qed.

(** [apply_mask] of an IPv4 or IPv6 prefix whose length fits its family
    keeps the family, the length and the first [prefixlen] address bits, clears
    every other address bit, leaves the rest of the union alone and is
    idempotent; the result is in the same network as the argument. *)
Theorem apply_mask_correct (p : prefix) :
  prefix_ok p → family p = AF_INET ∨ family p = AF_INET6 → prefixlen p ≤ 8 * prefix_blen p →
  ∃ p', apply_mask p = Some p' ∧ family p' = family p ∧ prefixlen p' = prefixlen p
    ∧ prefix_ok p' ∧ drop (prefix_blen p) (u p') = drop (prefix_blen p) (u p)
    ∧ (∀ i, i < 8 * prefix_blen p → abit (u p') i = abit (u p) i && bool_decide (i < prefixlen p))
    ∧ apply_mask p' = Some p' ∧ same_network p p'.
Proof.
  intros Hp Hf Hl. destruct (apply_mask_masked p) as (u' & E & M); [done..|].
  pose proof M as (L' & B' & D' & Hb). pose proof Hp as (B & L & K).
  assert (prefix_blen p ≤ length (u p)) as HbL.
  { rewrite L. unfold prefix_blen. repeat case_decide; unfold UNION_SIZE; cbv; lia. }
  set (p' := mkPrefix (family p) (prefixlen p) u'). exists p'.
  assert (prefix_ok p') as Hp' by (repeat split; [done|by rewrite <- L|done]).
  split_and!; try done.
  - destruct (apply_mask_masked p') as (u'' & -> & M'); [done..|]. unfold p'. simpl. do 2 f_equal.
    apply (masked_unique (prefixlen p) (prefix_blen p) u' u'); [done..|lia|done|done| |done|].
    + apply same_bits_refl.
    + by eapply masked_idem.
  - repeat split. intros i Hi. simpl. rewrite Hb, bool_decide_true by lia. by rewrite andb_true_r.
Qed.

Lemma apply_mask_correct_witness :
  ∃ p', apply_mask (pfx4 10 1 255 255 20) = Some p' ∧ apply_mask p' = Some p'
      ∧ u p' = [10; 1; 240; 0]%Z ++ replicate 36 0%Z.
Proof.
  destruct (apply_mask_correct (pfx4 10 1 255 255 20)) as (p' & E & _ & _ & _ & _ & _ & H & _);
    [by apply (bool_decide_unpack _); vm_compute..|].
  exists p'. split; [done|]. split; [done|]. vm_compute in E. by injection E as <-.
Defined.

Lemma prefix_same_decide p q : prefix_ok p → prefix_ok q →
  family p = AF_INET ∨ family p = AF_INET6 → family p = family q → prefixlen p = prefixlen q →
  prefix_same (Some p) (Some q) =
  Some (if decide (take (prefix_blen p) (u p) = take (prefix_blen p) (u q)) then 1 else 0)%Z.
Proof.
  intros (Bp & Lp & Kp) (Bq & Lq & Kq) Hf Hfq Hl. unfold UNION_SIZE in *.
  unfold prefix_same, prefix_blen. rewrite (decide_True (P := _ ∧ _)) by done.
  destruct Hf as [Hf|Hf]; rewrite Hf; simpl.
  - unfold s_addr, prefix4, IPV4_MAX_BYTELEN. f_equal.
    case_bool_decide as E; case_decide as E'; [done| |by rewrite E' in E|done].
    destruct E'. apply le_read_inj; [by apply Forall_take..|rewrite !length_take; lia|done].
  - unfold memcmp_eq, prefix6, IPV6_MAX_BYTELEN.
    rewrite decide_True by (rewrite !length_take; lia). simpl.
    rewrite !take_take. change (16 `min` 16) with 16. by case_bool_decide; case_decide.
Qed.

(** Masking gives a canonical form: two IPv4 (or two IPv6) prefixes are in
    the same network, i.e. [prefix_cmp] answers 0, exactly when [prefix_same]
    finds their masked forms identical. *)
Theorem apply_mask_canonical (h : heap) (p q p' q' : prefix) :
  prefix_ok p → prefix_ok q → family p = AF_INET ∨ family p = AF_INET6 → family q = family p →
  prefixlen p ≤ 8 * prefix_blen p → prefixlen q ≤ 8 * prefix_blen q →
  apply_mask p = Some p' → apply_mask q = Some q' →
  prefix_same (Some p') (Some q') = Some 1%Z ↔ prefix_cmp h p q = Some 0%Z.
Proof.
  intros Hp Hq Hf Hfq Hlp Hlq Ep Eq.
  assert (prefix_blen q = prefix_blen p) as HL by (unfold prefix_blen; by rewrite Hfq).
  destruct (apply_mask_masked p) as (up & Ep' & Lp & Bp & Dp & Mp); [done..|].
  destruct (apply_mask_masked q) as (uq & Eq' & Lq & Bq & Dq & Mq); [done|by rewrite Hfq|done|].
  rewrite Ep in Ep'. injection Ep' as ->. rewrite Eq in Eq'. injection Eq' as ->.
  pose proof Hp as (_ & Lp' & Kp). pose proof Hq as (_ & Lq' & Kq).
  rewrite prefix_cmp_decide by (try done; destruct Hf as [->| ->]; done).
  destruct (decide (prefixlen p = prefixlen q)) as [Hl|Hl].
  2:{ simpl. rewrite decide_False by (by intros []). by rewrite decide_False by (by intros (?&?&?)). }
  assert (prefix_ok (mkPrefix (family p) (prefixlen p) up)) as Op by (split_and!; simpl; [done|congruence|done]).
  assert (prefix_ok (mkPrefix (family q) (prefixlen q) uq)) as Oq by (split_and!; simpl; [done|congruence|done]).
  rewrite prefix_same_decide by done. simpl u.
  assert (prefix_blen p ≤ 16) as H16 by (destruct Hf as [E|E]; unfold prefix_blen; rewrite E; simpl; cbv; lia).
  assert (take (prefix_blen p) up = take (prefix_blen p) uq ↔ same_network p q) as Hiff.
  { unfold UNION_SIZE in *. rewrite <- same_bits_bytes by (done || lia).
    unfold same_network. rewrite HL in Mq. split.
    - intros Hs. split_and!; [done..|]. intros i Hi. specialize (Hs i).
      rewrite Mp, Mq, !bool_decide_true, !andb_true_r in Hs by lia. apply Hs. lia.
    - intros (_ & _ & Hs) i Hi. rewrite Mp, Mq by lia. rewrite <- Hl.
      case_bool_decide; [by rewrite Hs|by rewrite !andb_false_r]. }
  change (prefix_blen (mkPrefix (family p) (prefixlen p) up)) with (prefix_blen p).
  do 2 case_decide; tauto || naive_solver.
Qed.

Lemma apply_mask_canonical_witness :
  prefix_same (apply_mask (pfx4 10 1 2 3 15)) (apply_mask (pfx4 10 0 9 9 15)) = Some 1%Z.
Proof.
  assert (∃ p' q', apply_mask (pfx4 10 1 2 3 15) = Some p' ∧ apply_mask (pfx4 10 0 9 9 15) = Some q')
    as (p' & q' & E1 & E2) by (do 2 eexists; split; reflexivity).
  rewrite E1, E2. apply (apply_mask_canonical ∅ (pfx4 10 1 2 3 15) (pfx4 10 0 9 9 15) p' q');
    [by apply (bool_decide_unpack _); vm_compute..|done|done|].
  by vm_compute.
Defined.

(** [htonl]: bit [i] of the address in memory is bit [31 - i] of the host-order
    number. *)
Lemma htonl_abit z i : i < 32 → Z.testbit (htonl z) (31 - Z.of_nat i) = abit (le_write 4 z) i.
Proof.
  intros Hi. unfold htonl, bswap. rewrite le_read_bit by (apply Forall_reverse, le_write_bytes || lia).
  destruct (bit_pos i) as (j & k & -> & Hk). rewrite abit_at by done.
  replace (31 - Z.of_nat (8 * j + k))%Z with (7 - Z.of_nat k + (3 - Z.of_nat j) * 8)%Z by lia.
  rewrite Z.div_add, Z.mod_add, Z.div_small, Z.mod_small by lia.
  rewrite reverse_lookup, le_write_length by (rewrite le_write_length; lia).
  do 4 f_equal. lia.
Qed.

Lemma u32_bit z k : (0 ≤ k < 32)%Z → Z.testbit (u32 z) k = Z.testbit z k.
Proof. intros. unfold u32. apply Z.mod_pow2_bits_low. lia. Qed.

(** [ip_masklen] counts the leading one bits of the netmask. *)
Lemma ip_masklen_leading z : ∃ m : nat, ip_masklen z = Z.of_nat m ∧ m ≤ 32
  ∧ (∀ i, i < m → abit (le_write 4 z) i = true)
  ∧ (m < 32 → abit (le_write 4 z) m = false).
Proof.
  unfold ip_masklen. set (t := u32 (Z.lnot (htonl z))).
  assert (∀ i, i < 32 → Z.testbit t (31 - Z.of_nat i) = negb (abit (le_write 4 z) i)) as Ht.
  { intros i Hi. unfold t. rewrite u32_bit, Z.lnot_spec, htonl_abit by lia. done. }
  assert (0 ≤ t < 2 ^ 32)%Z as Hr by (apply Z.mod_pos_bound; lia).
  case_decide as H0.
  - assert (0 ≤ Z.log2 t < 32)%Z as Hl.
    { split; [apply Z.log2_nonneg|]. apply Z.log2_lt_pow2; lia. }
    exists (Z.to_nat (31 - Z.log2 t)). unfold clz32. split_and!; [lia|lia|..].
    + intros i Hi. apply negb_false_iff. rewrite <- Ht by lia. apply Z.bits_above_log2; lia.
    + intros Hi. apply negb_true_iff. rewrite <- Ht by lia.
      replace (31 - _)%Z with (Z.log2 t) by lia. apply Z.bit_log2. lia.
  - exists 32. split_and!; [done..| |lia]. intros i Hi. apply negb_false_iff.
    rewrite <- Ht, H0 by lia. apply Z.testbit_0_l.
Qed.

Lemma ip6_masklen_table (m : nat) : m < 128 →
  (l ← masklen2ip6 (Z.of_nat m); ip6_masklen l) = Some (Z.of_nat m).
Proof.
  intros Hm. set (chk := λ m : nat,
    bool_decide ((l ← masklen2ip6 (Z.of_nat m); ip6_masklen l) = Some (Z.of_nat m))).
  assert (chk m = true) as H by (apply (forallb_seq chk 128); [by vm_compute|lia]).
  by apply bool_decide_eq_true_1 in H.
Qed.

(** Netmasks and mask lengths convert back and forth: [ip_masklen] of any
    IPv4 netmask counts its leading one bits and undoes [masklen2ip] for the
    lengths 0 to 32; [ip6_masklen] undoes [masklen2ip6] for the lengths 0 to
    127. On the /128 mask [ip6_masklen] tests the byte after the address before
    it tests the length: a read outside the structure. *)
Theorem masklen_roundtrip (m : nat) (netmask : Z) :
  (∃ k : nat, ip_masklen netmask = Z.of_nat k ∧ k ≤ 32
     ∧ (∀ i, i < k → abit (le_write 4 netmask) i = true)
     ∧ (k < 32 → abit (le_write 4 netmask) k = false))
  ∧ (m ≤ 32 → (z ← masklen2ip (Z.of_nat m); Some (ip_masklen z)) = Some (Z.of_nat m))
  ∧ (m < 128 → (l ← masklen2ip6 (Z.of_nat m); ip6_masklen l) = Some (Z.of_nat m))
  ∧ (m = 128 → (l ← masklen2ip6 (Z.of_nat m); ip6_masklen l) = None).
Proof.
  split; [apply ip_masklen_leading|]. split; [|split; [apply ip6_masklen_table|by intros ->]].
  intros Hm. destruct (masklen2ip_bits m Hm) as (z & -> & _ & Hb). simpl.
  destruct (ip_masklen_leading z) as (k & -> & Hk & Hlow & Hhi). do 2 f_equal.
  destruct (decide (k = m)) as [|Hne]; [done|]. exfalso.
  destruct (decide (k < m)).
  - rewrite Hb, bool_decide_true in Hhi by lia. discriminate Hhi. lia.
  - specialize (Hlow m). rewrite Hb, bool_decide_false in Hlow by lia. discriminate Hlow. lia.
Qed.

Lemma masklen_roundtrip_witness :
  (z ← masklen2ip 21; Some (ip_masklen z)) = Some 21%Z
  ∧ (l ← masklen2ip6 21; ip6_masklen l) = Some 21%Z.
Proof. split; apply (masklen_roundtrip 21 0); lia. Defined.

(** [ipv4_network_addr] keeps the first [m] bits of a host address and
    clears the others; [ipv4_broadcast_addr] keeps them and sets the others,
    except that on a /31 it flips the one host bit, giving the other host. *)
Theorem ipv4_network_broadcast (host : Z) (m : nat) :
  (0 ≤ host < 2 ^ 32)%Z → m ≤ 32 →
  ∃ net brd,
    ipv4_network_addr host (Z.of_nat m) = Some net
    ∧ ipv4_broadcast_addr host (Z.of_nat m) = Some brd
    ∧ ∀ i, i < 32 →
      let bit z := abit (le_write 4 z) i in
      bit net = bit host && bool_decide (i < m)
      ∧ bit brd = (if decide (i < m) then bit host
                   else if decide (m = 31) then negb (bit host) else true).
Proof.
  intros Hh Hm. unfold ipv4_network_addr, ipv4_broadcast_addr.
  destruct (masklen2ip_bits m Hm) as (z & -> & Hz & Hb). obind. do 2 eexists.
  split; [done|]. split; [done|]. intros i Hi.
  assert (abit (le_write 4 (u32 (Z.lnot z))) i = negb (bool_decide (i < m))) as Hn.
  { rewrite <- Hb, !abit_le_write by lia.
    pose proof (Nat.mod_upper_bound i 8). pose proof (Nat.div_mod_eq i 8).
    rewrite u32_bit, Z.lnot_spec by lia. done. }
  split; [by rewrite abit_land, Hb by lia|].
  destruct (decide (Z.of_nat m ≠ 31%Z)) as [H31|H31%dec_stable];
    rewrite abit_le_write, ?Z.lor_spec, ?Z.lxor_spec, <- !(abit_le_write 4), Hn by lia.
  - destruct (decide (i < m)); [rewrite bool_decide_true by done; by rewrite orb_false_r|].
    rewrite bool_decide_false, decide_False by lia. apply orb_true_r.
  - destruct (decide (i < m)); [rewrite bool_decide_true by done; by rewrite xorb_false_r|].
    rewrite bool_decide_false, decide_True by lia. apply xorb_true_r.
Qed.

Lemma ipv4_network_broadcast_witness :
  ∃ net brd, ipv4_network_addr 0x0102a8c0 24 = Some net ∧ ipv4_broadcast_addr 0x0102a8c0 24 = Some brd
    ∧ brd = 0xff02a8c0%Z ∧ abit (le_write 4 brd) 31 = true.
Proof.
  destruct (ipv4_network_broadcast 0x0102a8c0 24) as (net & brd & H1 & H2 & H); [lia..|].
  exists net, brd. split_and!; [done..| |]; [by injection H2|]. destruct (H 31) as [_ ->]; [lia|done].
Defined.

(** ** Copies *)

Lemma store_length l off bs : off + length bs ≤ length l → length (store l off bs) = length l.
Proof. intros H. unfold store. rewrite !length_app, length_take, length_drop. lia. Qed.

Lemma store_bytes l off bs : bytes l → bytes bs → bytes (store l off bs).
Proof. intros Hl Hb. unfold store. auto with bytes. Qed.

(** A range that was stored reads back; a range before it is unchanged. *)
Lemma store_read l off bs n : off + length bs ≤ length l → n = length bs →
  take n (drop off (store l off bs)) = bs.
Proof.
  intros H ->. unfold store. rewrite drop_app_length' by (rewrite length_take; lia).
  by apply take_app_length'.
Qed.

Lemma store_take l off bs n : n ≤ off → off ≤ length l → take n (store l off bs) = take n l.
Proof.
  intros H Hl. unfold store. rewrite take_app_le by (rewrite length_take; lia).
  rewrite take_take. f_equal. lia.
Qed.

(** The bytes of the union that belong to an address of each family. *)
Definition addr_size (family : Z) : nat :=
  if decide (family = AF_EVPN) then EVPN_ADDR_SIZE else common_length family.

Lemma prefix_copy_bytes h fresh dest src : family src ∈ [AF_INET; AF_INET6; AF_ETHERNET; AF_EVPN] →
  prefix_copy h fresh dest src =
  Some (h, mkPrefix (family src) (prefixlen src)
             (store (u dest) 0 (take (addr_size (family src)) (u src)))).
Proof.
  intros Hin. unfold prefix_copy.
  repeat (apply elem_of_cons in Hin as [->|Hin]; [done|]). by apply elem_of_nil in Hin.
Qed.

Lemma memcmp_eq_true l1 l2 n : n ≤ length l1 → n ≤ length l2 → take n l1 = take n l2 →
  memcmp_eq l1 l2 n = Some true.
Proof. intros H1 H2 H. unfold memcmp_eq. by rewrite decide_True, bool_decide_true. Qed.

Lemma prefix_same_bytes p q : prefix_ok p → prefix_ok q →
  family p ∈ [AF_INET; AF_INET6; AF_ETHERNET; AF_EVPN] →
  family p = family q → prefixlen p = prefixlen q →
  take (addr_size (family p)) (u p) = take (addr_size (family p)) (u q) →
  prefix_same (Some p) (Some q) = Some 1%Z.
Proof.
  intros (_ & Lp & _) (_ & Lq & _) Hin Hf Hl Ht. unfold prefix_same.
  rewrite (decide_True (P := _ ∧ _)) by done.
  unfold s_addr, prefix4, prefix6, prefix_eth, UNION_SIZE in *.
  apply elem_of_cons in Hin as [E|Hin].
  { rewrite E in *. rewrite decide_True by done. obind. rewrite bool_decide_true; [done|].
    f_equal. exact Ht. }
  repeat (apply elem_of_cons in Hin as [E|Hin]; [rewrite E in *; repeat rewrite decide_False by done;
    rewrite decide_True by done; rewrite memcmp_eq_true;
      [done|unfold IPV6_MAX_BYTELEN, ETH_ALEN, EVPN_ADDR_SIZE; rewrite ?length_take; lia..
      |rewrite ?take_take; exact Ht]|]).
  by apply elem_of_nil in Hin.
Qed.

(** [prefix_copy] of an IPv4, IPv6, Ethernet or EVPN prefix leaves the heap
    alone, overwrites exactly the address bytes of the family in the
    destination, and the copy is the same as its source for [prefix_same] and
    [prefix_cmp] when the prefix length stays inside the address. *)
Theorem prefix_copy_same (h : heap) (fresh : Z) (dest src : prefix) :
  prefix_ok dest → prefix_ok src →
  family src ∈ [AF_INET; AF_INET6; AF_ETHERNET; AF_EVPN] →
  prefixlen src ≤ 8 * addr_size (family src) →
  ∃ p', prefix_copy h fresh dest src = Some (h, p')
    ∧ prefix_same (Some p') (Some src) = Some 1%Z
    ∧ prefix_cmp h p' src = Some 0%Z
    ∧ drop (addr_size (family src)) (u p') = drop (addr_size (family src)) (u dest).
Proof.
  intros (Bd & Ld & _) Hsrc Hin Hl. pose proof Hsrc as (Bs & Ls & Ks). unfold UNION_SIZE in *.
  set (n := addr_size (family src)) in *.
  assert (n ≤ 36) as Hn.
  { unfold n. repeat (apply elem_of_cons in Hin as [->|Hin]; [cbv; lia|]). by apply elem_of_nil in Hin. }
  set (p' := mkPrefix (family src) (prefixlen src) (store (u dest) 0 (take n (u src)))).
  assert (length (take n (u src)) = n) as Ln by (rewrite length_take; lia).
  assert (take n (u p') = take n (u src)) as Ht.
  { unfold p'. simpl. change (store (u dest) 0 (take n (u src)))
      with (drop 0 (store (u dest) 0 (take n (u src)))). apply store_read; lia. }
  assert (prefix_ok p') as Hp'.
  { split_and!; simpl; [by apply store_bytes; [|apply Forall_take]|rewrite store_length by lia; exact Ld|done]. }
  exists p'. split; [by apply prefix_copy_bytes|].
  split; [by apply prefix_same_bytes|]. split.
  - rewrite prefix_cmp_decide; [|done..|].
    + rewrite decide_True; [done|]. repeat split. intros i Hi. simpl in Hi.
      rewrite <- (abit_take _ n) by lia. rewrite Ht, abit_take by lia. done.
    + simpl. repeat (apply elem_of_cons in Hin as [->|Hin]; [done|]). by apply elem_of_nil in Hin.
  - unfold p'. simpl. rewrite store_0, Ln. by rewrite drop_app_length'.
Qed.

Lemma prefix_copy_same_witness :
  ∃ p', prefix_copy ∅ 0 zero_prefix (pfx4 192 168 0 1 24) = Some (∅, p')
      ∧ prefix_same (Some p') (Some (pfx4 192 168 0 1 24)) = Some 1%Z.
Proof.
  destruct (prefix_copy_same ∅ 0 zero_prefix (pfx4 192 168 0 1 24)) as (p' & H1 & H2 & _);
    [by apply (bool_decide_unpack _); vm_compute..|by exists p'].
Defined.

(** Copying a flowspec prefix gives a deep copy: the heap gains one block
    with the same contents, every other block is kept, and [prefix_cmp] finds
    copy and source equal. [prefix_same], which compares the bytes of the
    pointers instead of the blocks, tells them apart as soon as the prefix has
    eight bytes. *)
Theorem prefix_copy_flowspec (h : heap) (fresh : Z) (dest src : prefix) (block : list Z) :
  prefix_ok dest → prefix_ok src → family src = AF_FLOWSPEC →
  h !! fs_ptr src = Some block → fs_prefixlen src ≤ length block →
  h !! fresh = None → (0 ≤ fresh < 2 ^ 64)%Z →
  ∃ h' p', prefix_copy h fresh dest src = Some (h', p')
    ∧ fs_ptr p' = fresh ∧ fs_prefixlen p' = fs_prefixlen src
    ∧ h' !! fresh = Some (take (fs_prefixlen src) block)
    ∧ (∀ a, a ≠ fresh → h' !! a = h !! a)
    ∧ prefix_cmp h' p' src = Some 0%Z
    ∧ (8 ≤ fs_prefixlen src ≤ 32 → prefix_same (Some p') (Some src) = Some 0%Z).
Proof.
  intros (Bd & Ld & _) (Bs & Ls & _) Hf Hb Hlen Hfr Hr. unfold UNION_SIZE in *.
  set (n := fs_prefixlen src) in *.
  set (u' := store (store (u dest) 0 (take 2 (u src))) 8 (le_write 8 fresh)).
  set (p' := mkPrefix AF_FLOWSPEC (prefixlen src) u').
  assert (length (take 2 (u src)) = 2) as L2 by (rewrite length_take; lia).
  assert (length (store (u dest) 0 (take 2 (u src))) = 40) as L1 by (rewrite store_length; lia).
  assert (take 8 (drop 8 u') = le_write 8 fresh) as Hptr
    by (apply store_read; rewrite le_write_length; lia).
  assert (fs_ptr p' = fresh) as Hp by (unfold fs_ptr; simpl; rewrite Hptr; by apply le_read_write_small).
  assert (fs_prefixlen p' = n) as Hn.
  { unfold n, fs_prefixlen. simpl u. unfold u'. rewrite store_take by lia. do 2 f_equal.
    apply (store_read (u dest) 0); lia. }
  assert (fs_ptr src ≠ fresh) as Hne by congruence.
  exists (<[fresh := take n block]> h), p'.
  split_and!; [|done|done|by rewrite lookup_insert_eq|by intros a Ha; rewrite lookup_insert_ne| |].
  - unfold prefix_copy. rewrite Hf. fold n. simpl. case_decide as H0; simpl.
    + rewrite H0, decide_True by lia. done.
    + rewrite Hb. simpl. by rewrite decide_True.
  - unfold prefix_cmp. rewrite Hf, Hn, Hp. simpl. fold n.
    rewrite decide_False by (by intros ?). case_decide; [done|].
    rewrite lookup_insert_eq, lookup_insert_ne, Hb by done. simpl.
    destruct (same_bytes_spec (take n block) block n) as (r & -> & Hr'); [rewrite ?length_take; lia..|].
    simpl. rewrite take_take, Nat.min_id in Hr'. by rewrite (proj2 Hr' eq_refl).
  - intros H8. unfold prefix_same. rewrite Hn, Hf. simpl. fold n. rewrite decide_True by done.
    rewrite decide_False by (by intros ?). unfold memcmp_eq.
    assert (length u' = 40) as Lu by (unfold u'; rewrite store_length; rewrite ?le_write_length; lia).
    rewrite decide_True by (rewrite !length_drop; lia). simpl.
    rewrite bool_decide_false; [done|]. intros E. apply Hne. unfold fs_ptr.
    apply (f_equal (take 8)) in E. rewrite !take_take, Nat.min_l, Hptr in E by lia.
    rewrite <- E. by apply le_read_write_small.
Qed.

Definition flow_prefix (len : nat) (ptr : Z) : prefix :=
  mkPrefix AF_FLOWSPEC 0 (store (store (replicate 40 0%Z) 0 (le_write 2 (Z.of_nat len))) 8 (le_write 8 ptr)).

Lemma prefix_copy_flowspec_witness :
  let h : heap := {[ 4096%Z := [1; 2; 3; 4; 5; 6; 7; 8; 9]%Z ]} in
  ∃ h' p', prefix_copy h 8192 zero_prefix (flow_prefix 9 4096) = Some (h', p')
    ∧ prefix_cmp h' p' (flow_prefix 9 4096) = Some 0%Z
    ∧ prefix_same (Some p') (Some (flow_prefix 9 4096)) = Some 0%Z.
Proof.
  intros h.
  destruct (prefix_copy_flowspec h 8192 zero_prefix (flow_prefix 9 4096) [1; 2; 3; 4; 5; 6; 7; 8; 9]%Z)
    as (h' & p' & H1 & _ & _ & _ & _ & H2 & H3);
    [by apply (bool_decide_unpack _); vm_compute..|exists h', p'].
  split_and!; [done|done|]. apply H3. change (fs_prefixlen _) with 9. lia.
Defined.
