(* ===== verification/JHash.v ===== *)
(** * Jenkins' hash: the end of lib/hash.c, and prefix_hash_key of lib/prefix.c

    Arithmetic is on [uint32_t].  A key is the memory it lies in, a list of bytes
    or of words; [None] is an access outside it.

    Theorems: [jhash2] on words is [jhash] on their bytes
    ([jhash_words_bytes]); prefixes that [prefix_same] equates have the same
    [prefix_hash_key], so the two make a hash table of prefixes. *)
From stdpp Require Import prelude gmap list.
From S2P Require Import Prelude.
From S2P Require Import Prefix.
Set Default Goal Selector "!".

Definition JHASH_GOLDEN_RATIO : Z := 0x9e3779b9.

Definition sub32 (x y : Z) : Z := u32 (x - y).
Definition shl32 (x n : Z) : Z := u32 (Z.shiftl x n).

Definition __jhash_mix (s : Z * Z * Z) : Z * Z * Z :=
  let '(a, b, c) := s in
  let a := sub32 a b in let a := sub32 a c in let a := Z.lxor a (Z.shiftr c 13) in
  let b := sub32 b c in let b := sub32 b a in let b := Z.lxor b (shl32 a 8) in
  let c := sub32 c a in let c := sub32 c b in let c := Z.lxor c (Z.shiftr b 13) in
  let a := sub32 a b in let a := sub32 a c in let a := Z.lxor a (Z.shiftr c 12) in
  let b := sub32 b c in let b := sub32 b a in let b := Z.lxor b (shl32 a 16) in
  let c := sub32 c a in let c := sub32 c b in let c := Z.lxor c (Z.shiftr b 5) in
  let a := sub32 a b in let a := sub32 a c in let a := Z.lxor a (Z.shiftr c 3) in
  let b := sub32 b c in let b := sub32 b a in let b := Z.lxor b (shl32 a 10) in
  let c := sub32 c a in let c := sub32 c b in let c := Z.lxor c (Z.shiftr b 15) in
  (a, b, c).

(** [k[i] + (k[i + 1] << 8) + (k[i + 2] << 16) + (k[i + 3] << 24)] *)
Definition word_at (k : list Z) (i : nat) : option Z :=
  b0 ← k !! i; b1 ← k !! (i + 1); b2 ← k !! (i + 2); b3 ← k !! (i + 3);
  Some (u32 (b0 + shl32 b1 8 + shl32 b2 16 + shl32 b3 24)).

(** [while (len >= 12)]; each round uses twelve of the remaining bytes. *)
Fixpoint jhash_loop (fuel : nat) (k : list Z) (len : nat) (s : Z * Z * Z) : option (list Z * nat * (Z * Z * Z)) :=
  if decide (12 ≤ len) then
    match fuel with
    | 0 => None
    | S fuel =>
        let '(a, b, c) := s in
        x ← word_at k 0; y ← word_at k 4; z ← word_at k 8;
        jhash_loop fuel (drop 12 k) (len - 12) (__jhash_mix (u32 (a + x), u32 (b + y), u32 (c + z)))
    end
  else Some (k, len, s).

(** [case n: v += k[n - 1] << sh], entered for every [len] from [n] on. *)
Definition case_add (len n : nat) (k : list Z) (sh v : Z) : option Z :=
  if decide (n ≤ len) then x ← k !! (n - 1); Some (u32 (v + shl32 x sh)) else Some v.

(** In case 9 the byte goes to the second place: the lowest byte of [c] is kept
    for the length. *)
Definition jhash (key : list Z) (length : nat) (initval : Z) : option Z :=
  '(k, len, (a, b, c)) ← jhash_loop length key length (JHASH_GOLDEN_RATIO, JHASH_GOLDEN_RATIO, initval);
  let c := u32 (c + Z.of_nat length) in
  c ← case_add len 11 k 24 c;
  c ← case_add len 10 k 16 c;
  c ← case_add len 9 k 8 c;
  b ← case_add len 8 k 24 b;
  b ← case_add len 7 k 16 b;
  b ← case_add len 6 k 8 b;
  b ← case_add len 5 k 0 b;
  a ← case_add len 4 k 24 a;
  a ← case_add len 3 k 16 a;
  a ← case_add len 2 k 8 a;
  a ← case_add len 1 k 0 a;
  let '(_, _, c) := __jhash_mix (a, b, c) in Some c.

Fixpoint jhash2_loop (fuel : nat) (k : list Z) (len : nat) (s : Z * Z * Z) : option (list Z * nat * (Z * Z * Z)) :=
  if decide (3 ≤ len) then
    match fuel with
    | 0 => None
    | S fuel =>
        let '(a, b, c) := s in
        x ← k !! 0; y ← k !! 1; z ← k !! 2;
        jhash2_loop fuel (drop 3 k) (len - 3) (__jhash_mix (u32 (a + x), u32 (b + y), u32 (c + z)))
    end
  else Some (k, len, s).

Definition jhash2 (k : list Z) (length : nat) (initval : Z) : option Z :=
  '(k, len, (a, b, c)) ← jhash2_loop length k length (JHASH_GOLDEN_RATIO, JHASH_GOLDEN_RATIO, initval);
  let c := u32 (c + u32 (Z.of_nat length * 4)) in
  b ← (if decide (2 ≤ len) then y ← k !! 1; Some (u32 (b + y)) else Some b);
  a ← (if decide (1 ≤ len) then x ← k !! 0; Some (u32 (a + x)) else Some a);
  let '(_, _, c) := __jhash_mix (a, b, c) in Some c.

Definition jhash_3words (a b c initval : Z) : Z :=
  let '(_, _, c) := __jhash_mix (u32 (a + JHASH_GOLDEN_RATIO), u32 (b + JHASH_GOLDEN_RATIO), u32 (c + initval)) in c.
Definition jhash_2words (a b initval : Z) : Z := jhash_3words a b 0 initval.
Definition jhash_1word (a initval : Z) : Z := jhash_3words a 0 0 initval.

(** ** Hashing a prefix *)

(** The structure in memory: the family, the prefix length on an even address and
    the union on the next multiple of eight, with zero padding. *)
Definition prefix_bytes (p : prefix) : list Z :=
  [family p; 0]%Z ++ le_write 2 (Z.of_nat (prefixlen p)) ++ replicate 4 0%Z ++ u p.

Definition PSIZE (a : nat) : nat := (a + 7) / 8.

(** The copy of a flowspec prefix is at [fresh] and is released again. *)
Definition prefix_hash_key (h : Prefix.heap) (fresh : Z) (pp : prefix) : option Z :=
  '(h', copy) ← prefix_copy h fresh (mkPrefix 0 0 (replicate UNION_SIZE 0%Z)) pp;
  if decide (family pp = AF_FLOWSPEC) then
    bs ← h' !! fs_ptr copy; jhash bs (fs_prefixlen copy) 0x55aa5a5a
  else jhash (prefix_bytes copy) (8 + PSIZE (prefixlen copy)) 0x55aa5a5a.

(** ** Words and their bytes *)

Definition is_word (w : Z) : Prop := (0 ≤ w < 2 ^ 32)%Z.
Definition words_bytes (ws : list Z) : list Z := concat (map (le_write 4) ws).

Lemma word_bytes w : is_word w → ∃ b0 b1 b2 b3, le_write 4 w = [b0; b1; b2; b3]
  ∧ is_byte b0 ∧ is_byte b1 ∧ is_byte b2 ∧ is_byte b3
  ∧ w = (b0 + b1 * 2 ^ 8 + b2 * 2 ^ 16 + b3 * 2 ^ 24)%Z.
Proof.
  intros Hw. unfold is_word in Hw. exists (u8 w), (u8 (w / 2 ^ 8)), (u8 (w / 2 ^ 16)), (u8 (w / 2 ^ 24)).
  split; [|split_and!; [apply u8_byte..|unfold u8; Z.to_euclidean_division_equations; lia]].
  unfold le_write. rewrite !Z.shiftr_div_pow2, !Z.div_div by lia. done.
Qed.

Lemma shl32_byte b n : is_byte b → (0 ≤ n ≤ 24)%Z → shl32 b n = (b * 2 ^ n)%Z.
Proof.
  intros Hb Hn. unfold shl32. rewrite Z.shiftl_mul_pow2 by lia. apply u32_small.
  unfold is_byte in Hb. pose proof (Z.pow_le_mono_r 2 n 24 ltac:(lia) ltac:(lia)).
  pose proof (Z.pow_pos_nonneg 2 n ltac:(lia) ltac:(lia)). nia.
Qed.

Lemma words_bytes_length ws : length (words_bytes ws) = 4 * length ws.
Proof. induction ws as [|w ws IH]; [done|]. unfold words_bytes in *. cbn [map concat length]. rewrite length_app, le_write_length, IH. lia. Qed.

Lemma words_bytes_drop ws n : drop (4 * n) (words_bytes ws) = words_bytes (drop n ws).
Proof.
  revert n. induction ws as [|w ws IH]; intros n; [change (words_bytes []) with (@nil Z); by rewrite (drop_nil n), (drop_nil (4 * n))|]. destruct n as [|n]; [done|].
  cbn [drop]. rewrite <- IH. unfold words_bytes. cbn [map concat].
  rewrite drop_app_ge by (rewrite le_write_length; lia). rewrite le_write_length. f_equal. lia.
Qed.

(** The four bytes of word [n]. *)
Lemma words_bytes_lookup ws n w : Forall is_word ws → ws !! n = Some w →
  ∃ b0 b1 b2 b3, words_bytes ws !! (4 * n) = Some b0 ∧ words_bytes ws !! (4 * n + 1) = Some b1
    ∧ words_bytes ws !! (4 * n + 2) = Some b2 ∧ words_bytes ws !! (4 * n + 3) = Some b3
    ∧ is_byte b0 ∧ is_byte b1 ∧ is_byte b2 ∧ is_byte b3 ∧ w = (b0 + b1 * 2 ^ 8 + b2 * 2 ^ 16 + b3 * 2 ^ 24)%Z.
Proof.
  intros Hws Hn. pose proof (Forall_lookup_1 _ _ _ _ Hws Hn) as Hw.
  destruct (word_bytes w Hw) as (b0 & b1 & b2 & b3 & E & H0 & H1 & H2 & H3 & Ew).
  assert (drop (4 * n) (words_bytes ws) = [b0; b1; b2; b3] ++ words_bytes (drop (S n) ws)) as Hd.
  { rewrite words_bytes_drop, (drop_S _ _ _ Hn), <- E. done. }
  exists b0, b1, b2, b3. rewrite <- (Nat.add_0_r (4 * n)) at 1. rewrite <- !lookup_drop, Hd. split_and!; done.
Qed.

Lemma word_at_words ws n w : Forall is_word ws → ws !! n = Some w → word_at (words_bytes ws) (4 * n) = Some w.
Proof.
  intros Hws Hn. pose proof (Forall_lookup_1 _ _ _ _ Hws Hn) as Hw.
  destruct (words_bytes_lookup ws n w Hws Hn) as (b0 & b1 & b2 & b3 & E0 & E1 & E2 & E3 & H0 & H1 & H2 & H3 & ->).
  unfold word_at. rewrite E0, E1, E2, E3. obind. rewrite !shl32_byte by (done || lia). f_equal. by apply u32_small.
Qed.

Lemma case_add_byte len n k b sh v : n ≤ len → k !! (n - 1) = Some b → is_byte b → (0 ≤ sh ≤ 24)%Z →
  case_add len n k sh v = Some (u32 (v + b * 2 ^ sh)).
Proof. intros Hn Hk Hb Hs. unfold case_add. rewrite decide_True, Hk by done. obind. by rewrite shl32_byte. Qed.

(** The three cases of a word's upper bytes and of its lowest one add the word. *)
Lemma case_add_word ws n w len v : Forall is_word ws → ws !! n = Some w → 4 * n + 4 ≤ len →
  ∃ v3 v2 v1, case_add len (4 * n + 4) (words_bytes ws) 24 v = Some v3 ∧ case_add len (4 * n + 3) (words_bytes ws) 16 v3 = Some v2
    ∧ case_add len (4 * n + 2) (words_bytes ws) 8 v2 = Some v1 ∧ case_add len (4 * n + 1) (words_bytes ws) 0 v1 = Some (u32 (v + w)).
Proof.
  intros Hws Hn Hlen.
  destruct (words_bytes_lookup ws n w Hws Hn) as (b0 & b1 & b2 & b3 & E0 & E1 & E2 & E3 & H0 & H1 & H2 & H3 & ->).
  eexists _, _, _. split_and!;
    [apply (case_add_byte _ _ _ b3)|apply (case_add_byte _ _ _ b2)|apply (case_add_byte _ _ _ b1)
    |rewrite (case_add_byte _ _ _ b0)]; try done; try lia.
  all: try match goal with E : _ !! ?i = Some ?b |- _ !! ?j = Some ?b => by replace j with i by lia end.
  f_equal. unfold u32. repeat rewrite ?Zplus_mod_idemp_l, <- ?Z.add_assoc. f_equal. lia.
Qed.

Lemma case_add_beyond len n k sh v : len < n → case_add len n k sh v = Some v.
Proof. intros H. unfold case_add. by rewrite decide_False by lia. Qed.

(** Both loops stop after the same words in the same state. *)
Lemma loops_agree fuel : ∀ ws s, Forall is_word ws → length ws ≤ fuel →
  ∃ ws' s', jhash2_loop fuel ws (length ws) s = Some (ws', length ws', s')
    ∧ (∀ fuel', fuel ≤ fuel' → jhash_loop fuel' (words_bytes ws) (4 * length ws) s = Some (words_bytes ws', 4 * length ws', s'))
    ∧ length ws' < 3 ∧ Forall is_word ws'.
Proof.
  induction fuel as [|fuel IH]; intros ws s Hws Hf.
  { destruct ws; [|cbn in Hf; lia]. exists [], s. split_and!; [done| |cbn; lia|done]. by intros []. }
  destruct ws as [|x [|y [|z ws]]].
  1-3: eexists _, s; split; [reflexivity|]; split; [by intros []|split; [cbn; lia|done]].
  destruct s as [[a b] c]. cbn [length] in Hf.
  assert (Forall is_word ws) as Hws' by (do 3 (apply Forall_cons in Hws as [_ Hws]); done).
  destruct (IH ws (__jhash_mix (u32 (a + x), u32 (b + y), u32 (c + z))) Hws' ltac:(lia)) as (ws' & s' & E2 & E & H).
  exists ws', s'. split.
  { cbn [jhash2_loop]. rewrite decide_True by (cbn; lia). cbn [lookup list_lookup]. obind. cbn [drop length].
    replace (S (S (S (length ws))) - 3) with (length ws) by lia. exact E2. }
  split; [|done]. intros [|fuel'] Hfuel; [lia|]. cbn [jhash_loop]. rewrite decide_True by (cbn [length]; lia).
  rewrite (word_at_words _ 0 x Hws eq_refl : word_at _ 0 = _). obind.
  rewrite (word_at_words _ 1 y Hws eq_refl : word_at _ 4 = _). obind.
  rewrite (word_at_words _ 2 z Hws eq_refl : word_at _ 8 = _). obind.
  rewrite (words_bytes_drop _ 3 : drop 12 _ = _). cbn [drop length].
  replace (4 * S (S (S (length ws))) - 12) with (4 * length ws) by lia. apply E. lia.
Qed.

(** [jhash2] is [jhash] on words: hashing words directly gives the hash of
    their bytes in memory (least significant byte first), for every number of
    words up to the width of the length, and both return. *)
Theorem jhash_words_bytes (ws : list Z) (initval : Z) : Forall is_word ws → (4 * Z.of_nat (length ws) < 2 ^ 32)%Z →
  ∃ v, jhash2 ws (length ws) initval = Some v ∧ jhash (words_bytes ws) (4 * length ws) initval = Some v.
Proof.
  intros Hws Hn. set (s0 := (JHASH_GOLDEN_RATIO, JHASH_GOLDEN_RATIO, initval)).
  destruct (loops_agree (length ws) ws s0 Hws ltac:(done)) as (ws' & [[a b] c] & E2 & E & Hlen & Hws').
  unfold jhash2, jhash. fold s0. rewrite E2, (E (4 * length ws)) by lia. do 2 ostep.
  rewrite (u32_small (Z.of_nat (length ws) * 4)), Nat2Z.inj_mul, (Z.mul_comm (Z.of_nat 4)) by lia.
  set (c' := u32 (c + Z.of_nat (length ws) * Z.of_nat 4)). change (Z.of_nat (length ws) * 4)%Z with (Z.of_nat (length ws) * Z.of_nat 4)%Z. fold c'.
  rewrite (case_add_beyond _ 11), (obind_Some _ c'), (case_add_beyond _ 10), (obind_Some _ c'), (case_add_beyond _ 9), (obind_Some _ c') by lia.
  destruct ws' as [|x [|y [|z ws']]]; cbn [length] in *; [| | |lia].
  - eexists. split; [reflexivity|]. reflexivity.
  - destruct (case_add_word [x] 0 x (4 * 1) a Hws' eq_refl ltac:(lia)) as (v3 & v2 & v1 & A3 & A2 & A1 & A0). cbn [Nat.mul Nat.add] in *.
    eexists. split; [reflexivity|].
    rewrite (case_add_beyond _ 8), (obind_Some _ b), (case_add_beyond _ 7), (obind_Some _ b), (case_add_beyond _ 6),
      (obind_Some _ b), (case_add_beyond _ 5), (obind_Some _ b) by lia.
    rewrite A3, (obind_Some _ v3), A2, (obind_Some _ v2), A1, (obind_Some _ v1), A0. reflexivity.
  - destruct (case_add_word [x; y] 0 x (4 * 2) a Hws' eq_refl ltac:(lia)) as (v3 & v2 & v1 & A3 & A2 & A1 & A0).
    destruct (case_add_word [x; y] 1 y (4 * 2) b Hws' eq_refl ltac:(lia)) as (w3 & w2 & w1 & B3 & B2 & B1 & B0). cbn [Nat.mul Nat.add] in *.
    eexists. split; [reflexivity|].
    rewrite B3, (obind_Some _ w3), B2, (obind_Some _ w2), B1, (obind_Some _ w1), B0, obind_Some.
    rewrite A3, (obind_Some _ v3), A2, (obind_Some _ v2), A1, (obind_Some _ v1), A0. reflexivity.
Qed.

Lemma jhash_words_bytes_witness :
  ∃ v, jhash2 [1; 2; 3; 0xdeadbeef]%Z 4 7 = Some v ∧ jhash (words_bytes [1; 2; 3; 0xdeadbeef]%Z) (4 * 4) 7 = Some v.
Proof. apply (jhash_words_bytes [1; 2; 3; 0xdeadbeef]%Z 7); [repeat constructor; unfold is_word; lia|cbn; lia]. Defined.

(** The short forms are one round of the loop, not the hash of their words: no
    length is added. *)
Example short_forms_differ : Some (jhash_3words 1 2 3 7) ≠ jhash2 [1; 2; 3]%Z 3 7.
Proof. vm_compute. discriminate. Qed.

(** ** Prefixes as keys *)

Lemma word_at_total k i : i + 3 < length k → is_Some (word_at k i).
Proof.
  intros H. unfold word_at. destruct (lookup_lt_is_Some_2 k i ltac:(lia)) as [b0 ->].
  destruct (lookup_lt_is_Some_2 k (i + 1) ltac:(lia)) as [b1 ->]. destruct (lookup_lt_is_Some_2 k (i + 2) ltac:(lia)) as [b2 ->].
  destruct (lookup_lt_is_Some_2 k (i + 3) ltac:(lia)) as [b3 ->]. obind. eauto.
Qed.

Lemma jhash_loop_total fuel : ∀ k len s, len ≤ length k → len ≤ fuel →
  ∃ k' len' s', jhash_loop fuel k len s = Some (k', len', s') ∧ len' ≤ length k' ∧ len' < 12.
Proof.
  induction fuel as [|fuel IH]; intros k len [[a b] c] Hk Hf; cbn [jhash_loop];
    (destruct (decide (12 ≤ len)); [|eexists _, _, _; split; [reflexivity|lia]]); [lia|].
  destruct (word_at_total k 0 ltac:(lia)) as [x ->], (word_at_total k 4 ltac:(lia)) as [y ->], (word_at_total k 8 ltac:(lia)) as [z ->].
  obind. apply IH; [rewrite length_drop|]; lia.
Qed.

Lemma case_add_total len n k sh v : len ≤ length k → 0 < n → ∃ v', case_add len n k sh v = Some v'.
Proof.
  intros H Hn. unfold case_add. destruct (decide (n ≤ len)); [|eauto].
  destruct (lookup_lt_is_Some_2 k (n - 1) ltac:(lia)) as [b ->]. obind. eauto.
Qed.

(** Hashing inside the key always returns. *)
Lemma jhash_total key length initval : length ≤ List.length key → ∃ v, jhash key length initval = Some v.
Proof.
  intros H. unfold jhash.
  destruct (jhash_loop_total length key length (JHASH_GOLDEN_RATIO, JHASH_GOLDEN_RATIO, initval) H ltac:(done))
    as (k & len & [[a b] c] & -> & Hk & _). ostep. set (v := u32 _). clearbody v.
  do 11 (match goal with |- ∃ _, case_add ?len ?n ?k ?sh ?v ≫= _ = _ =>
    let E := fresh in let w := fresh in destruct (case_add_total len n k sh v Hk ltac:(lia)) as [w E]; rewrite E; clear E; ostep end).
  destruct (__jhash_mix _) as [[? ?] r]. eauto.
Qed.

(** What [prefix_same] compares. *)
Lemma prefix_same_inv p q : family p ∈ [AF_INET; AF_INET6; AF_ETHERNET; AF_EVPN] → prefix_ok p → prefix_ok q →
  prefix_same (Some p) (Some q) = Some 1%Z →
  family p = family q ∧ prefixlen p = prefixlen q
  ∧ take (addr_size (family p)) (u p) = take (addr_size (family p)) (u q).
Proof.
  intros Hin (Bp & Lp & _) (Bq & Lq & _). unfold prefix_same. destruct (decide (family p = family q ∧ prefixlen p = prefixlen q)) as [[Hf Hl]|]; [|done].
  intros H. split; [done|]. split; [done|]. unfold s_addr, prefix4, prefix6, prefix_eth, memcmp_eq, UNION_SIZE in *.
  apply elem_of_cons in Hin as [E|Hin].
  { rewrite E in *. rewrite decide_True in H by done. cbn [mbind option_bind] in H.
    destruct (bool_decide_reflect (le_read (take IPV4_MAX_BYTELEN (u p)) = le_read (take IPV4_MAX_BYTELEN (u q)))) as [Er|]; [|done].
    apply le_read_inj in Er; [exact Er|by apply Forall_take..|rewrite !length_take; lia]. }
  repeat (apply elem_of_cons in Hin as [E|Hin]; [rewrite E in *; repeat rewrite decide_False in H by done;
    rewrite decide_True in H by done; destruct (decide (_ ≤ _ ∧ _)) in H; [|done]; cbn [mbind option_bind] in H;
    match type of H with context [bool_decide ?P] => destruct (bool_decide_reflect P) as [Er|]; [|done] end;
    rewrite ?take_take in Er; exact Er|]).
  by apply elem_of_nil in Hin.
Qed.

(** C38: [prefix_hash_key] fits [prefix_same]: two IPv4, IPv6, Ethernet or EVPN
    prefixes that [prefix_same] equates have the same key, which is always
    computed; the key of a prefix does not depend on what is in the unused part
    of the union. *)
Theorem prefix_hash_key_respects_same (h : Prefix.heap) (fresh : Z) (p q : prefix) :
  prefix_ok p → prefix_ok q → family p ∈ [AF_INET; AF_INET6; AF_ETHERNET; AF_EVPN] →
  prefix_same (Some p) (Some q) = Some 1%Z →
  ∃ v, prefix_hash_key h fresh p = Some v ∧ prefix_hash_key h fresh q = Some v.
Proof.
  intros Hp Hq Hin Hs. destruct (prefix_same_inv p q Hin Hp Hq Hs) as (Hf & Hl & Ht).
  unfold prefix_hash_key. rewrite !prefix_copy_bytes by (done || by rewrite <- Hf). do 2 ostep.
  rewrite <- Hf, <- Hl, <- Ht.
  assert (family p ≠ AF_FLOWSPEC) as Hne.
  { intros E. rewrite E in Hin. by repeat (apply elem_of_cons in Hin as [?|Hin]; [done|]); apply elem_of_nil in Hin. }
  rewrite !decide_False by done. destruct Hp as (_ & Lp & Kp).
  destruct (jhash_total (prefix_bytes (mkPrefix (family p) (prefixlen p)
    (store (replicate UNION_SIZE 0%Z) 0 (take (addr_size (family p)) (u p))))) (8 + PSIZE (prefixlen p)) 0x55aa5a5a) as [v Hv]; [|eauto].
  unfold prefix_bytes, store, PSIZE. cbn [u take app Nat.add family prefixlen length].
  rewrite !length_app, le_write_length, length_drop, !length_replicate, length_take. unfold PSIZE. unfold UNION_SIZE in *.
  assert ((prefixlen p + 7) / 8 < 41) by (apply Nat.Div0.div_lt_upper_bound; lia). lia.
Qed.

Lemma prefix_hash_key_respects_same_witness :
  let p := mkPrefix AF_INET 24 ([10; 1; 2; 3]%Z ++ replicate 36 7%Z) in
  let q := mkPrefix AF_INET 24 ([10; 1; 2; 3]%Z ++ replicate 36 0%Z) in
  ∃ v, prefix_hash_key ∅ 1 p = Some v ∧ prefix_hash_key ∅ 1 q = Some v.
Proof.
  intros p q. apply prefix_hash_key_respects_same;
    [by apply (bool_decide_unpack _); vm_compute..|left|by vm_compute].
Defined.
