(* ===== verification/PrefixText.v ===== *)
(** * Prefixes as text: libvui/src/vui/lib/prefix.c

    The conversions between prefixes, MAC addresses, ESIs and strings.  The
    address conversions of the C library ([inet_pton], [inet_aton],
    [inet_ntop]) are the operations of the class [Inet]; [InetLaws] states what
    the code relies on, and [Inet_plain] is a concrete instance.  A function
    that fills a structure returns its C result together with the structure,
    which the C code may have written to even when it fails; [None] is the
    undefined result of [atoi] on a number that does not fit an [int]. *)
From Stdlib Require Import Ascii String.
From stdpp Require Import prelude gmap list.
From S2P Require Import Prelude CString Prefix.
Set Default Goal Selector "!".
Open Scope char_scope.

(** ** Interface to the address conversions of the C library *)

Class Inet := {
  inet_pton : Z → cstring → option (list Z);
  inet_aton : cstring → option (list Z);
  inet_ntop : Z → list Z → cstring;
}.

Definition inet_size (family : Z) : nat := if decide (family = AF_INET) then 4 else 16.
Definition inet_family (family : Z) : Prop := family = AF_INET ∨ family = AF_INET6.

Class InetLaws `{Inet} := {
  pton_ntop f l : inet_family f → bytes l → length l = inet_size f → inet_pton f (inet_ntop f l) = Some l;
  aton_ntop l : bytes l → length l = 4 → inet_aton (inet_ntop AF_INET l) = Some l;
  aton_ntop6 l : bytes l → length l = 16 → inet_aton (inet_ntop AF_INET6 l) = None;
  pton_size f s l : inet_family f → inet_pton f s = Some l → bytes l ∧ length l = inet_size f;
  aton_size s l : inet_aton s = Some l → bytes l ∧ length l = 4;
  ntop_chars f l : inet_family f → bytes l → length l = inet_size f →
    ("/" ∉ inet_ntop f l) ∧ (NUL ∉ inet_ntop f l) ∧ length (inet_ntop f l) ≤ 45;
}.

(** ** Names *)

Definition str2family (s : cstring) : Z :=
  if decide (s = str "ipv4") then AF_INET
  else if decide (s = str "ipv6") then AF_INET6
  else if decide (s = str "ethernet") then AF_ETHERNET
  else if decide (s = str "evpn") then AF_EVPN
  else -1.

Definition family2str (family : Z) : cstring :=
  if decide (family = AF_INET) then str "IPv4"
  else if decide (family = AF_INET6) then str "IPv6"
  else if decide (family = AF_ETHERNET) then str "Ethernet"
  else if decide (family = AF_EVPN) then str "Evpn"
  else str "?".

Definition afi2str (afi : Z) : option cstring :=
  if decide (afi = 1%Z) then Some (str "IPv4")
  else if decide (afi = 2%Z) then Some (str "IPv6")
  else if decide (afi = 3%Z) then Some (str "l2vpn")
  else if decide (afi = 4%Z) then Some (str "bad-value")
  else None.

Definition safi2str (safi : Z) : cstring :=
  if decide (safi = 1%Z) then str "unicast"
  else if decide (safi = 2%Z) then str "multicast"
  else if decide (safi = 3%Z) then str "vpn"
  else if decide (safi = 4%Z) then str "encap"
  else if decide (safi = 5%Z) then str "evpn"
  else if decide (safi = 6%Z) then str "labeled-unicast"
  else if decide (safi = 7%Z) then str "flowspec"
  else str "unknown".

Definition prefix_family_str (p : prefix) : cstring :=
  if decide (family p = AF_INET) then str "inet"
  else if decide (family p = AF_INET6) then str "inet6"
  else if decide (family p = AF_ETHERNET) then str "ether"
  else if decide (family p = AF_EVPN) then str "evpn"
  else str "unspec".

(** ** MAC addresses and ESIs *)

Definition ESI_BYTES : nat := 10.
Definition ETHER_ADDR_STRLEN : nat := 3 * ETH_ALEN.
Definition ESI_STR_LEN : nat := 3 * ESI_BYTES.

(** What [snprintf] or [strlcpy] leaves in a buffer of [size] > 0 bytes. *)
Definition truncate (size : nat) (s : cstring) : cstring := take (size - 1) s.

(** The [mac] pointer may be NULL (check only): [None] for the octets. *)
Definition prefix_str2mac (s : option cstring) (mac : option (list Z)) : Z * option (list Z) :=
  match s with
  | None => (0, mac)%Z
  | Some s =>
      let a := scan_hex_colon 6 s in
      if decide (length a ≠ 6) then (0, mac)%Z
      else match mac with
           | None => (1, None)%Z
           | Some _ => (1, Some ((λ v, Z.land v 0xff) <$> a))%Z
           end
  end.

(** [None]: the assertion on the buffer size fails. *)
Definition prefix_mac2str (mac : list Z) (size : nat) : option cstring :=
  if decide (ETHER_ADDR_STRLEN ≤ size)
  then Some (truncate ETHER_ADDR_STRLEN (hex_colon (take 6 mac))) else None.

Definition str_to_esi (s : option cstring) (esi : option (list Z)) : Z * option (list Z) :=
  match s with
  | None => (0, esi)%Z
  | Some s =>
      let a := scan_hex_colon ESI_BYTES s in
      if decide (length a ≠ ESI_BYTES) then (0, esi)%Z
      else match esi with
           | None => (1, None)%Z
           | Some _ => (1, Some ((λ v, Z.land v 0xff) <$> a))%Z
           end
  end.

Definition esi_to_str (esi : list Z) (size : nat) : option cstring :=
  if decide (ESI_STR_LEN ≤ size)
  then Some (truncate ESI_STR_LEN (hex_colon (take ESI_BYTES esi))) else None.

(** ** Parsing *)

Section parse.
Context `{Inet}.

Definition set_prefix (p : prefix) (bs : list Z) : prefix :=
  mkPrefix (family p) (prefixlen p) (store (u p) 0 bs).

Definition str2prefix_ipv4 (s : cstring) (p : prefix) : option (Z * prefix) :=
  match strchr s "/" with
  | None =>
      match inet_pton AF_INET s with
      | None => Some (0%Z, p)
      | Some a => Some (1%Z, mkPrefix AF_INET IPV4_MAX_BITLEN (store (u p) 0 a))
      end
  | Some (cp, pnt) =>
      let '(ret, p) := match inet_aton cp with
                       | None => (0%Z, p)
                       | Some a => (1%Z, set_prefix p a)
                       end in
      v ← atoi pnt;
      let plen := Z.to_nat (u8 v) in
      if decide (IPV4_MAX_BITLEN < plen) then Some (0%Z, p)
      else Some (ret, mkPrefix AF_INET plen (u p))
  end.

Definition str2prefix_ipv6 (s : cstring) (p : prefix) : option (Z * prefix) :=
  match strchr s "/" with
  | None =>
      match inet_pton AF_INET6 s with
      | None => Some (0%Z, p)
      | Some a => Some (1%Z, mkPrefix AF_INET6 IPV6_MAX_BITLEN (store (u p) 0 a))
      end
  | Some (cp, pnt) =>
      match inet_pton AF_INET6 cp with
      | None => Some (0%Z, p)
      | Some a =>
          let p := set_prefix p a in
          v ← atoi pnt;
          let plen := Z.to_nat (u8 v) in
          if decide (IPV6_MAX_BITLEN < plen) then Some (0%Z, p)
          else Some (1%Z, mkPrefix AF_INET6 plen (u p))
      end
  end.

(** [memset(p, 0, sizeof p)] clears the structure of [prefix_eth], whose
    address and padding are the first 8 bytes of the union. *)
Definition str2prefix_eth (s : cstring) (p : prefix) : option (Z * prefix) :=
  if decide (s = str "any") then
    Some (1%Z, mkPrefix AF_ETHERNET 0 (store (u p) 0 (replicate 8 0%Z)))
  else
    '(plen, str_addr, slash) ←
      match strchr s "/" with
      | None => Some (48, s, false)
      | Some (cp, pnt) =>
          v ← atoi pnt; Some (Z.to_nat (u8 v), (cp ++ ["/"])%list, true)
      end;
    if decide (48 < plen) then Some (0%Z, p)
    else
      let a := scan_hex_colon 6 str_addr in
      if decide (length a ≠ 6) then Some (0%Z, p)
      else
        let octet := (λ v, Z.land v 0xff) <$> a in
        let plen := if negb slash && (is_zero_mac octet =? 1)%Z then 0 else plen in
        Some (1%Z, mkPrefix AF_ETHERNET plen (store (u p) 0 octet)).

Definition str2prefix (s : option cstring) (p : prefix) : option (Z * prefix) :=
  match s with
  | None => Some (0%Z, p)
  | Some s =>
      '(ret, p) ← str2prefix_ipv4 s p;
      if decide (ret ≠ 0)%Z then Some (ret, p)
      else
        '(ret, p) ← str2prefix_ipv6 s p;
        if decide (ret ≠ 0)%Z then Some (ret, p)
        else
          '(ret, p) ← str2prefix_eth s p;
          if decide (ret ≠ 0)%Z then Some (ret, p) else Some (0%Z, p)
  end.

(** ** Printing *)

(** The length digits that [prefix2str] writes by hand. *)
Definition plen_digits (plen : nat) : cstring :=
  let tmp := (Z.of_nat plen - 100)%Z in
  let z := (0 <=? tmp)%Z in
  let byte := if z then tmp else Z.of_nat plen in
  let b := (byte mod 10)%Z in
  let a := (byte / 10)%Z in
  (if z then ["1"] else []) ++
  (if negb (a =? 0)%Z || z then [chr (u8 (48 + a))] else []) ++
  [chr (u8 (48 + b))].

(** Fields of [struct evpn_addr]: the route type, then the members of the
    union at offset 4 of the bytes. *)
Definition evpn_route_type (p : prefix) : Z := nth 0 (u p) 0%Z.

(** Offset of [struct ipaddr] for the route types that have one. *)
Definition evpn_ip_offset (rt : Z) : option nat :=
  if decide (rt = 2)%Z then Some 16
  else if decide (rt = 3)%Z then Some 12
  else if decide (rt = 4)%Z then Some 16
  else if decide (rt = 5)%Z then Some 12
  else None.

Definition evpn_ipa_type (p : prefix) : option Z :=
  off ← evpn_ip_offset (evpn_route_type p); Some (le_read (take 4 (drop off (u p)))).

Definition is_evpn_prefix_ipaddr_none (p : prefix) : bool :=
  if evpn_ipa_type p is Some t then bool_decide (t = 0%Z) else false.
Definition is_evpn_prefix_ipaddr_v4 (p : prefix) : bool :=
  if evpn_ipa_type p is Some t then bool_decide (t = 1%Z) else false.
Definition is_evpn_prefix_ipaddr_v6 (p : prefix) : bool :=
  if evpn_ipa_type p is Some t then bool_decide (t = 2%Z) else false.

Definition evpn_ip_str (p : prefix) (off : nat) : cstring :=
  let family := if is_evpn_prefix_ipaddr_v4 p then AF_INET else AF_INET6 in
  inet_ntop family (take (inet_size family) (drop (off + 4) (u p))).

Definition brackets (s : cstring) : cstring := str "[" ++ s ++ str "]".
Definition slash_len (p : prefix) : cstring := "/" :: dec (Z.of_nat (prefixlen p)).

(** [eth_tag] at 4, [ip_prefix_length] at 8, [mac] at 9, [ip] at 16. *)
Definition prefixevpn_macip2str (p : prefix) : cstring :=
  let mac := hex_colon (take 6 (drop 9 (u p))) in
  let rt := dec (evpn_route_type p) in
  if is_evpn_prefix_ipaddr_none p
  then brackets rt ++ ":" :: brackets mac ++ slash_len p
  else brackets rt ++ ":" :: brackets mac ++ ":" :: brackets (evpn_ip_str p 16) ++ slash_len p.

Definition prefixevpn_imet2str (p : prefix) : cstring :=
  brackets (dec (evpn_route_type p)) ++ ":" :: brackets (evpn_ip_str p 12) ++ slash_len p.

(** [esi] at 4, [ip_prefix_length] at 14, [ip] at 16, its address at 20. *)
Definition prefixevpn_es2str (p : prefix) : cstring :=
  brackets (dec (evpn_route_type p)) ++ ":" ::
  brackets (hex_colon (take ESI_BYTES (drop 4 (u p)))) ++ ":" ::
  brackets (inet_ntop AF_INET (take 4 (drop 20 (u p)))) ++ slash_len p.

Definition prefixevpn_prefix2str (p : prefix) : cstring :=
  brackets (dec (evpn_route_type p)) ++ ":" ::
  brackets (dec (le_read (take 4 (drop 4 (u p))))) ++
  brackets (evpn_ip_str p 12 ++ "/" :: dec (nth 8 (u p) 0%Z)) ++ slash_len p.

Definition prefixevpn2str (p : prefix) : cstring :=
  let rt := evpn_route_type p in
  if decide (rt = 2)%Z then prefixevpn_macip2str p
  else if decide (rt = 3)%Z then prefixevpn_imet2str p
  else if decide (rt = 4)%Z then prefixevpn_es2str p
  else if decide (rt = 5)%Z then prefixevpn_prefix2str p
  else str "Unsupported EVPN prefix".

Definition prefix2str (p : prefix) (size : nat) : cstring :=
  truncate size
    (if decide (family p = AF_INET ∨ family p = AF_INET6) then
       inet_ntop (family p) (take (inet_size (family p)) (u p)) ++ "/" :: plen_digits (prefixlen p)
     else if decide (family p = AF_ETHERNET) then
       hex_colon (prefix_eth p) ++ slash_len p
     else if decide (family p = AF_EVPN) then prefixevpn2str p
     else if decide (family p = AF_FLOWSPEC) then str "FS prefix"
     else str "UNK prefix").

Definition prefix_mcast_inet4_dump (addr : list Z) (size : nat) : cstring :=
  truncate size (if decide (le_read addr = 0%Z) then str "*" else inet_ntop AF_INET addr).

Definition PREFIX_SG_STR_LEN : nat := 34.

Definition prefix_sg2str (src grp : list Z) : cstring :=
  truncate PREFIX_SG_STR_LEN
    (str "(" ++ prefix_mcast_inet4_dump src 16 ++ str "," ++ prefix_mcast_inet4_dump grp 16 ++ str ")").

(** The string is written only on success. *)
Definition netmask_str2prefix_str (net_str : cstring) (mask_str : option cstring) : option cstring :=
  network ← inet_aton net_str;
  prefixlen ← match mask_str with
              | Some mask_str => mask ← inet_aton mask_str; Some (ip_masklen (le_read mask))
              | None =>
                  let destination := htonl (le_read network) in
                  if decide (le_read network = 0%Z) then Some 0%Z
                  else if IN_CLASSC destination then Some 24%Z
                  else if IN_CLASSB destination then Some 16%Z
                  else if IN_CLASSA destination then Some 8%Z
                  else None
              end;
  Some (net_str ++ "/" :: dec prefixlen).
End parse.

(** ** A concrete instance of the interface

    Dotted quads for IPv4; IPv6 addresses written without compression as eight
    groups of four digits. *)

(** A decimal octet at the head of a string. *)
Definition scan_octet (s : cstring) : option (Z * cstring) :=
  match s with
  | c :: s' =>
      if isdigit c then
        Some (dec_value 0 s,
              (fix skip s := match s with c :: s' => if isdigit c then skip s' else s | [] => [] end) s)
      else None
  | [] => None
  end.

(** [n + 1] numbers read by [scan], separated by [sep] and ending the string. *)
Fixpoint scan_sep (scan : cstring → option (Z * cstring)) (sep : ascii) (n : nat) (s : cstring)
    : option (list Z) :=
  '(v, s) ← scan s;
  match n, s with
  | 0, [] => Some [v]
  | S n, c :: s => if decide (c = sep) then cons v <$> scan_sep scan sep n s else None
  | _, _ => None
  end.

Fixpoint print_sep (print : Z → cstring) (sep : ascii) (l : list Z) : cstring :=
  match l with
  | [] => []
  | [b] => print b
  | b :: l => print b ++ sep :: print_sep print sep l
  end.

Definition checked (n : nat) (r : option (list Z)) : option (list Z) :=
  l ← r; if decide (bytes l ∧ length l = n) then Some l else None.

(** Bytes as 16-bit groups and back. *)
Fixpoint pairs (l : list Z) : list Z :=
  match l with a :: b :: l => (256 * a + b)%Z :: pairs l | _ => [] end.
Fixpoint unpairs (l : list Z) : list Z :=
  match l with g :: l => (g / 256)%Z :: (g mod 256)%Z :: unpairs l | [] => [] end.

Definition hex4 (g : Z) : cstring := hex2 (g / 256) ++ hex2 (g mod 256).
Definition scan_4x (s : cstring) : option (Z * cstring) :=
  '(a, s) ← scan_2x s; '(b, s) ← scan_2x s; Some ((256 * a + b)%Z, s).

#[export] Instance Inet_plain : Inet := {
  inet_pton f s := if decide (f = AF_INET) then checked 4 (scan_sep scan_octet "." 3 s)
                   else checked 16 (unpairs <$> scan_sep scan_4x ":" 7 s);
  inet_aton s := checked 4 (scan_sep scan_octet "." 3 s);
  inet_ntop f l := if decide (f = AF_INET) then print_sep dec "." l else print_sep hex4 ":" (pairs l);
}.

Section scan_print.
Context (ok : Z → Prop) (scan : cstring → option (Z * cstring)) (print : Z → cstring) (sep : ascii).
Context (scan_print : ∀ b t, ok b →
  scan (print b ++ sep :: t) = Some (b, sep :: t) ∧ scan (print b) = Some (b, [])).

Lemma scan_sep_print l b : Forall ok (b :: l) →
  scan_sep scan sep (length l) (print_sep print sep (b :: l)) = Some (b :: l).
Proof using scan_print.
  revert b. induction l as [|b' l IH]; intros b [Hb Hl]%Forall_cons.
  - cbn [length print_sep scan_sep]. destruct (scan_print b [] Hb) as [_ E]. by rewrite E.
  - destruct (scan_print b (print_sep print sep (b' :: l)) Hb) as [E _].
    specialize (IH b' Hl). cbn [length scan_sep].
    change (print_sep print sep (b :: b' :: l)) with (print b ++ sep :: print_sep print sep (b' :: l)).
    rewrite E. obind. by rewrite decide_True, IH.
Qed.

(** What the printed form consists of. *)
Lemma print_sep_chars (P : ascii → Prop) l : Forall ok l → P sep → (∀ b, ok b → Forall P (print b)) →
  Forall P (print_sep print sep l).
Proof.
  intros Hl Hs Hp. induction Hl as [|b l Hb Hl IH]; [constructor|].
  destruct l as [|b' l]; [by apply Hp|].
  change (print_sep print sep (b :: b' :: l)) with (print b ++ sep :: print_sep print sep (b' :: l)).
  apply Forall_app. split; [by apply Hp|]. by constructor.
Qed.

Lemma print_sep_length k l : Forall ok l → (∀ b, ok b → length (print b) ≤ k) →
  length (print_sep print sep l) ≤ S k * length l.
Proof.
  intros Hl Hp. induction Hl as [|b l Hb Hl IH]; [simpl; lia|].
  specialize (Hp b Hb). destruct l as [|b' l]; [cbn [print_sep length]; lia|].
  change (print_sep print sep (b :: b' :: l)) with (print b ++ sep :: print_sep print sep (b' :: l)).
  rewrite length_app. cbn [length] in *. lia.
Qed.
End scan_print.

Lemma scan_sep_sep scan sep n s l : scan_sep scan sep (S n) s = Some l →
  (∀ v s s', scan s = Some (v, s') → suffix s' s) → sep ∈ s.
Proof.
  intros E Hs. cbn [scan_sep] in E. destruct (scan s) as [[v s']|] eqn:Es; [|done]. cbn [mbind option_bind] in E.
  apply Hs in Es as [k ->]. destruct s' as [|c s']; [done|]. case_decide as Hc; [|done]. subst.
  apply elem_of_app. right. left.
Qed.

Lemma scan_octet_dec b t : is_byte b →
  scan_octet (dec b ++ "." :: t) = Some (b, "." :: t) ∧ scan_octet (dec b) = Some (b, []).
Proof.
  intros Hb. revert b Hb.
  apply (Forall_seqZ_below (λ b, scan_octet (dec b ++ "." :: t) = Some (b, "." :: t) ∧
                                 scan_octet (dec b) = Some (b, [])) 256).
  let l := eval vm_compute in (seqZ 0 256) in replace (seqZ 0 256) with l by reflexivity.
  repeat (apply Forall_cons; split; [split; reflexivity|]). apply Forall_nil_2.
Qed.

Lemma scan_octet_suffix v s s' : scan_octet s = Some (v, s') → suffix s' s.
Proof.
  unfold scan_octet. destruct s as [|c s]; [done|]. destruct (isdigit c) eqn:Ec; [|done].
  intros [= _ <-]. apply suffix_cons_r. induction s as [|d s IH]; [done|].
  destruct (isdigit d); [by apply suffix_cons_r|done].
Qed.

(** The characters printed for one byte, by enumeration. *)
Definition addr_char (c : ascii) : Prop := c ≠ "/" ∧ c ≠ NUL.

Lemma print_byte_chars b : is_byte b →
  Forall addr_char (dec b) ∧ Forall (λ c, addr_char c ∧ c ≠ ".") (hex2 b) ∧ length (dec b) ≤ 3.
Proof.
  intros Hb. revert b Hb. unfold addr_char.
  apply (Forall_seqZ_below (λ b, Forall (λ c, c ≠ "/" ∧ c ≠ NUL) (dec b) ∧
    Forall (λ c, (c ≠ "/" ∧ c ≠ NUL) ∧ c ≠ ".") (hex2 b) ∧ length (dec b) ≤ 3) 256).
  apply (bool_decide_unpack _). vm_compute. done.
Qed.

Lemma quad_roundtrip l : bytes l → length l = 4 →
  checked 4 (scan_sep scan_octet "." 3 (print_sep dec "." l)) = Some l.
Proof.
  intros Hl Hn. destruct l as [|b l]; [done|]. injection Hn as Hn.
  pose proof (scan_sep_print _ _ _ _ scan_octet_dec l b Hl) as HS. rewrite Hn in HS. unfold checked.
  rewrite HS. obind. by rewrite decide_True by (split; [done|simpl; lia]).
Qed.

(** The IPv6 side: eight groups. *)
Definition is_group (g : Z) : Prop := is_byte (g / 256) ∧ is_byte (g mod 256).

Lemma unpairs_pairs l n : bytes l → length l = (2 * n)%nat →
  unpairs (pairs l) = l ∧ length (pairs l) = n ∧ Forall is_group (pairs l).
Proof.
  revert l. induction n as [|n IH]; intros [|a [|b l]] Hl Hn; try (simpl in Hn; lia); [done|].
  apply Forall_cons in Hl as [Ha Hl]. apply Forall_cons in Hl as [Hb Hl].
  destruct (IH l) as (E1 & E2 & E3); [done|simpl in Hn; lia|]. simpl.
  assert ((256 * a + b) / 256 = a ∧ (256 * a + b) mod 256 = b)%Z as [Ed Em].
  { unfold is_byte in *. split; symmetry; [apply (Z.div_unique _ _ a b)|apply (Z.mod_unique _ _ a b)]; lia. }
  rewrite Ed, Em, E1, E2. split_and!; [done|done|]. constructor; [|done]. split; by rewrite ?Ed, ?Em.
Qed.

Lemma scan_hex4 g t : is_group g →
  scan_4x (hex4 g ++ ":" :: t) = Some (g, ":" :: t) ∧ scan_4x (hex4 g) = Some (g, []).
Proof.
  intros [H1 H2]. unfold scan_4x, hex4. rewrite <- (app_nil_r (hex2 (g mod 256))) at 2.
  rewrite <- app_assoc, !scan_hex2 by done. obind. rewrite !scan_hex2 by done.
  obind. pose proof (Z_div_mod_eq_full g 256). split; do 2 f_equal; lia.
Qed.

Lemma groups_roundtrip l : bytes l → length l = 16 →
  checked 16 (unpairs <$> scan_sep scan_4x ":" 7 (print_sep hex4 ":" (pairs l))) = Some l.
Proof.
  intros Hl Hn. destruct (unpairs_pairs l 8 Hl Hn) as (E1 & E2 & E3).
  destruct (pairs l) as [|g gs] eqn:Ep; [done|]. injection E2 as E2.
  pose proof (scan_sep_print _ _ _ _ scan_hex4 gs g E3) as HS. rewrite E2 in HS. unfold checked.
  rewrite HS. cbn [fmap option_fmap option_map mbind option_bind]. rewrite E1. by rewrite decide_True.
Qed.

Lemma groups_chars l : Forall is_group l → Forall (λ c, addr_char c ∧ c ≠ ".") (print_sep hex4 ":" l).
Proof.
  intros Hl. apply (print_sep_chars is_group); [done|by repeat split|]. intros g [H1 H2].
  unfold hex4. apply Forall_app. split; by apply print_byte_chars.
Qed.

Lemma quad_chars l : bytes l → Forall addr_char (print_sep dec "." l).
Proof. intros Hl. apply (print_sep_chars is_byte); [done|by split|]. intros b Hb. by apply print_byte_chars. Qed.

Lemma checked_size n r l : checked n r = Some l → bytes l ∧ length l = n.
Proof. unfold checked. destruct r; simpl; [|done]. by case_decide as Hc; [intros [= <-]|]. Qed.

Lemma addr_chars_not s : Forall addr_char s → ("/" ∉ s) ∧ (NUL ∉ s).
Proof. intros H. split; intros Hin; eapply Forall_forall in H; try done; by destruct H. Qed.

#[export] Instance InetLaws_plain : InetLaws.
Proof.
  split.
  - intros f l [-> | ->]; [apply quad_roundtrip|apply groups_roundtrip].
  - apply quad_roundtrip.
  - intros l Hl Hn. unfold inet_aton, inet_ntop, Inet_plain. rewrite decide_False by done. unfold checked.
    destruct (scan_sep scan_octet "." 3 (print_sep hex4 ":" (pairs l))) eqn:E; [|done].
    apply scan_sep_sep in E; [|apply scan_octet_suffix].
    eapply Forall_forall in E; [|apply groups_chars, (unpairs_pairs l 8); done]. by destruct E.
  - intros f s l [-> | ->]; apply checked_size.
  - intros s l. apply checked_size.
  - intros f l [-> | ->] Hl Hn; simpl in *.
    + destruct (addr_chars_not _ (quad_chars l Hl)). split_and!; [done..|].
      pose proof (print_sep_length is_byte dec "." 3 l Hl) as HL.
      change (inet_size AF_INET) with 4 in Hn. rewrite Hn in HL.
      etrans; [apply HL; intros b Hb; by apply print_byte_chars|lia].
    + destruct (unpairs_pairs l 8 Hl Hn) as (_ & E2 & E3).
      destruct (addr_chars_not (print_sep hex4 ":" (pairs l))).
      { eapply Forall_impl; [by apply groups_chars|]. by intros x []. }
      split_and!; [done..|].
      pose proof (print_sep_length is_group hex4 ":" 4 (pairs l) E3) as HL. rewrite E2 in HL.
      etrans; [apply HL; done|lia].
Qed.

(** ** Correctness of the conversions *)

Lemma plen_digits_atoi n : n ≤ 199 → atoi (plen_digits n) = Some (Z.of_nat n) ∧ length (plen_digits n) ≤ 3.
Proof.
  intros Hn. set (chk := λ n, bool_decide (atoi (plen_digits n) = Some (Z.of_nat n) ∧ length (plen_digits n) ≤ 3)).
  assert (chk n = true) as H by (apply (forallb_seq chk 200); [by vm_compute|lia]).
  by apply bool_decide_eq_true_1 in H.
Qed.

Lemma truncate_id size s : length s < size → truncate size s = s.
Proof. intros H. unfold truncate. apply take_ge. lia. Qed.

Lemma u8_nat n : n ≤ 199 → Z.to_nat (u8 (Z.of_nat n)) = n.
Proof. intros Hn. rewrite u8_id by (unfold is_byte; lia). lia. Qed.

Section roundtrip.
Context `{InetLaws}.

Lemma prefix2str_inet p : prefix_ok p → inet_family (family p) → prefixlen p ≤ 199 →
  prefix2str p 80 = inet_ntop (family p) (take (inet_size (family p)) (u p)) ++ "/" :: plen_digits (prefixlen p).
Proof.
  intros (B & L & _) Hf Hp. unfold prefix2str. rewrite (decide_True (P := _ ∨ _)) by done.
  apply truncate_id. rewrite length_app. cbn [length].
  destruct (plen_digits_atoi _ Hp) as [_ Hl].
  destruct (ntop_chars (family p) (take (inet_size (family p)) (u p))) as (_ & _ & Hn); [done|by apply Forall_take| |lia].
  unfold UNION_SIZE, inet_size in *. rewrite length_take. case_decide; lia.
Qed.

Lemma str2prefix_ipv4_slash s t v q : "/" ∉ s → atoi t = Some v →
  str2prefix_ipv4 (s ++ "/" :: t) q =
  Some (let r := match inet_aton s with None => (0%Z, q) | Some a => (1%Z, set_prefix q a) end in
        if decide (32 < Z.to_nat (u8 v)) then (0%Z, r.2)
        else (r.1, mkPrefix AF_INET (Z.to_nat (u8 v)) (u r.2))).
Proof.
  intros Hs Ht. unfold str2prefix_ipv4. rewrite strchr_app, Ht by done.
  destruct (inet_aton s); obind; unfold IPV4_MAX_BITLEN; by case_decide.
Qed.

Lemma str2prefix_ipv6_slash s t v a q : "/" ∉ s → atoi t = Some v → inet_pton AF_INET6 s = Some a →
  str2prefix_ipv6 (s ++ "/" :: t) q =
  Some (if decide (128 < Z.to_nat (u8 v)) then (0%Z, set_prefix q a)
        else (1%Z, mkPrefix AF_INET6 (Z.to_nat (u8 v)) (store (u q) 0 a))).
Proof.
  intros Hs Ht Ha. unfold str2prefix_ipv6. rewrite strchr_app, Ha, Ht by done.
  obind. unfold IPV6_MAX_BITLEN. by case_decide.
Qed.

(** C23 Text and back: for an IPv4 prefix of length at most 32 or an IPv6 prefix
    of length at most 128, [str2prefix] of the string that [prefix2str] writes
    into a buffer of PREFIX_STRLEN bytes succeeds and restores the family, the
    length and the address bytes, leaving the rest of the target alone. *)
Theorem str2prefix_prefix2str (p q : prefix) :
  prefix_ok p → prefix_ok q → inet_family (family p) → prefixlen p ≤ 8 * inet_size (family p) →
  str2prefix (Some (prefix2str p 80)) q =
  Some (1%Z, mkPrefix (family p) (prefixlen p) (store (u q) 0 (take (inet_size (family p)) (u p)))).
Proof.
  intros Hp Hq Hf Hl. pose proof Hp as (B & L & _). unfold UNION_SIZE in L.
  assert (prefixlen p ≤ 199) as H199 by (unfold inet_size in Hl; case_decide; lia).
  rewrite prefix2str_inet by done.
  destruct (plen_digits_atoi _ H199) as [Ha _].
  set (a := take (inet_size (family p)) (u p)).
  assert (bytes a ∧ length a = inet_size (family p)) as [Ba La].
  { split; [by apply Forall_take|]. unfold a. rewrite length_take. unfold inet_size. case_decide; lia. }
  destruct (ntop_chars (family p) a) as (Hs & _ & _); [done..|].
  unfold str2prefix. rewrite (str2prefix_ipv4_slash _ _ _ q Hs Ha), u8_nat by lia.
  destruct Hf as [E|E]; rewrite E in *.
  - change (inet_size AF_INET) with 4 in *. rewrite aton_ntop by done. cbn [mbind option_bind fst snd]. rewrite decide_False by lia. done.
  - change (inet_size AF_INET6) with 16 in *. rewrite aton_ntop6 by done. cbn [mbind option_bind fst snd].
    assert (∀ q' : prefix, u q' = u q →
      str2prefix_ipv6 (inet_ntop AF_INET6 a ++ "/" :: plen_digits (prefixlen p)) q' =
      Some (1%Z, mkPrefix AF_INET6 (prefixlen p) (store (u q) 0 a))) as H6.
    { intros q' E'. rewrite (str2prefix_ipv6_slash _ _ _ a _ Hs Ha) by (apply pton_ntop; [by right|done..]).
      by rewrite u8_nat, decide_False, E' by lia. }
    case_decide; cbv beta iota; rewrite (decide_False (P := (0 ≠ 0)%Z)) by (by intros []);
      rewrite H6 by done; done.
Qed.

(** What [str2prefix_ipv4] does with "ADDRESS/NUMBER" for every number an
    [int] can hold: the number is cut to eight bits before it is compared with
    32, so exactly the numbers whose low byte is at most 32 are accepted
    ("10.0.0.0/264" is read as 10.0.0.0/8) and the length stored is that low
    byte. *)
Theorem str2prefix_ipv4_wraps (s : cstring) (a : list Z) (n : Z) (q : prefix) :
  ("/" ∉ s) → inet_aton s = Some a → (0 ≤ n ≤ INT_MAX)%Z →
  str2prefix_ipv4 (s ++ "/" :: dec n) q =
  Some (if decide (n mod 256 ≤ 32)%Z
        then (1%Z, mkPrefix AF_INET (Z.to_nat (n mod 256)) (store (u q) 0 a))
        else (0%Z, set_prefix q a)).
Proof.
  intros Hs Ha Hn. rewrite (str2prefix_ipv4_slash s (dec n) n q Hs (atoi_dec n Hn)), Ha.
  cbn [fst snd]. change (u8 n) with (n mod 256)%Z. pose proof (Z.mod_pos_bound n 256).
  f_equal. case_decide; case_decide; (done || lia).
Qed.
End roundtrip.

Lemma str2prefix_prefix2str_witness :
  str2prefix (Some (prefix2str (pfx4 192 168 7 1 24) 80)) zero_prefix =
  Some (1%Z, pfx4 192 168 7 1 24).
Proof.
  rewrite (str2prefix_prefix2str (pfx4 192 168 7 1 24) zero_prefix);
    [reflexivity|by apply (bool_decide_unpack _); vm_compute..|by left|by vm_compute; lia].
Defined.

Lemma str2prefix_ipv4_wraps_witness :
  str2prefix_ipv4 (str "10.0.0.0" ++ "/" :: dec 264) zero_prefix = Some (1%Z, pfx4 10 0 0 0 8).
Proof.
  rewrite (str2prefix_ipv4_wraps (str "10.0.0.0") [10; 0; 0; 0]%Z 264 zero_prefix);
    [reflexivity|by apply (bool_decide_unpack _); vm_compute|reflexivity|by vm_compute].
Defined.

Lemma hex_colon_length l : length (hex_colon l) = (3 * length l - 1)%nat.
Proof.
  induction l as [|b l IH]; [done|]. destruct l as [|b' l]; [done|].
  change (hex_colon (b :: b' :: l)) with (hex2 b ++ ":" :: hex_colon (b' :: l)).
  rewrite length_app. change (length (hex2 b)) with 2. cbn [length] in *. rewrite IH. lia.
Qed.

Lemma hex_colon_chars l : bytes l → Forall addr_char (hex_colon l).
Proof.
  induction 1 as [|b l Hb Hl IH]; [constructor|].
  assert (Forall addr_char (hex2 b)).
  { destruct (print_byte_chars b Hb) as (_ & H & _). eapply Forall_impl; [done|]. by intros ? []. }
  destruct l as [|b' l]; [done|].
  change (hex_colon (b :: b' :: l)) with (hex2 b ++ ":" :: hex_colon (b' :: l)).
  apply Forall_app. split; [done|]. by constructor.
Qed.

Lemma land_ff_bytes l : bytes l → (λ v, Z.land v 0xff) <$> l = l.
Proof.
  induction 1 as [|b l Hb Hl IH]; [done|]. cbn. f_equal; [|done].
  change 255%Z with (Z.ones 8). rewrite Z.land_ones by lia. by apply u8_id.
Qed.

(** MAC addresses and Ethernet segment identifiers survive printing and
    parsing: the buffer length the printers truncate to is exactly enough, and
    parsing gives the same octets; the check-only call (NULL target) accepts
    the string too. *)
Theorem mac_esi_roundtrip (mac esi : list Z) (size : nat) (old : list Z) :
  bytes mac → length mac = 6 → bytes esi → length esi = 10 → 30 ≤ size →
  (s ← prefix_mac2str mac size; Some (prefix_str2mac (Some s) (Some old), prefix_str2mac (Some s) None))
    = Some ((1%Z, Some mac), (1%Z, None))
  ∧ (s ← esi_to_str esi size; Some (str_to_esi (Some s) (Some old), str_to_esi (Some s) None))
    = Some ((1%Z, Some esi), (1%Z, None)).
Proof.
  intros Bm Lm Be Le Hs. unfold prefix_mac2str, esi_to_str, prefix_str2mac, str_to_esi.
  unfold ESI_STR_LEN, ETHER_ADDR_STRLEN, ESI_BYTES, ETH_ALEN. rewrite !decide_True by lia.
  obind.
  rewrite !truncate_id by (rewrite hex_colon_length, length_take; lia).
  rewrite !take_ge by lia. rewrite !scan_hex_colon_print by (done || by intros ->).
  rewrite Lm, Le, !land_ff_bytes by done. done.
Qed.

Lemma mac_esi_roundtrip_witness :
  (s ← prefix_mac2str [0; 27; 33; 171; 205; 239]%Z 30;
   Some (prefix_str2mac (Some s) (Some []), prefix_str2mac (Some s) None))
  = Some ((1%Z, Some [0; 27; 33; 171; 205; 239]%Z), (1%Z, None)).
Proof.
  apply (mac_esi_roundtrip [0; 27; 33; 171; 205; 239]%Z (replicate 10 7%Z) 30 []);
    by apply (bool_decide_unpack _); vm_compute.
Defined.

(** Ethernet prefixes: [str2prefix_eth] reads back the string [prefix2str]
    writes, with the length it had, the all-zero address included (the length
    is only forced to 0 for an all-zero address written without a length). *)
Theorem str2prefix_eth_roundtrip `{Inet} (p q : prefix) :
  prefix_ok p → family p = AF_ETHERNET → prefixlen p ≤ 48 →
  str2prefix_eth (prefix2str p 80) q =
  Some (1%Z, mkPrefix AF_ETHERNET (prefixlen p) (store (u q) 0 (prefix_eth p))).
Proof.
  intros (B & L & _) Hf Hp. unfold UNION_SIZE in L. unfold prefix2str. rewrite Hf. cbn [decide].
  rewrite (decide_False (P := _ ∨ _)) by (by intros [?|?]). rewrite decide_True by done.
  assert (bytes (prefix_eth p) ∧ length (prefix_eth p) = 6) as [Be Le].
  { split; [by apply Forall_take|]. unfold prefix_eth, ETH_ALEN. rewrite length_take. lia. }
  assert (length (dec (Z.of_nat (prefixlen p))) ≤ 3) as Hd by (apply print_byte_chars; unfold is_byte; lia).
  assert ("/" ∉ hex_colon (prefix_eth p)) as Hs by (by apply addr_chars_not, hex_colon_chars).
  unfold slash_len. rewrite truncate_id by (rewrite length_app, hex_colon_length; cbn [length]; lia).
  unfold str2prefix_eth. rewrite decide_False.
  2:{ intros E. apply (f_equal length) in E. rewrite length_app, hex_colon_length, Le in E. simpl in E. lia. }
  rewrite strchr_app, atoi_dec by (done || unfold INT_MAX; lia). obind.
  rewrite u8_nat by lia. rewrite decide_False by lia.
  rewrite scan_hex_colon_app by (done || by intros E; rewrite E in Le).
  rewrite Le, decide_False, land_ff_bytes by (done || lia). done.
Qed.

Lemma str2prefix_eth_roundtrip_witness :
  let p := mkPrefix AF_ETHERNET 24 ([0; 0; 0; 0; 0; 0] ++ replicate 34 0)%Z in
  str2prefix_eth (prefix2str p 80) zero_prefix = Some (1%Z, p).
Proof.
  intros p. rewrite (str2prefix_eth_roundtrip p zero_prefix);
    [reflexivity|by apply (bool_decide_unpack _); vm_compute..].
Defined.
