(* ===== verification/SockUnion.v ===== *)
(** * Socket addresses: lib/sockunion.c

    [union sockunion] is its memory: 28 bytes that are read as a [sockaddr], a
    [sockaddr_in] or a [sockaddr_in6].  The calls into the kernel (socket, bind,
    connect, accept, getsockname) are outcomes the functions take as arguments.

    Theorems: [sockunion_cmp] is the order of families and of the addresses as
    numbers, hence a total order ([sockunion_cmp_order]); addresses that
    [sockunion_same] equates have the same [sockunion_hash]
    ([sockunion_same_hash]); text and address go round trip
    ([str2sockunion_roundtrip]); an IPv4-mapped address becomes the IPv4 address
    with its port, and nothing else changes ([normalise_mapped_spec]). *)
From stdpp Require Import prelude gmap list strings.
From S2P Require Import Prelude.
From S2P Require Import CString.
From S2P Require Import Prefix.
From S2P Require Import JHash.
From S2P Require Import PrefixText.
Set Default Goal Selector "!".

(** ** The union *)

Definition SU_SIZE : nat := 28.
Definition SIN_SIZE : nat := 16.
Definition SIN6_SIZE : nat := 28.
Abbreviation su_mem := (list Z).

Definition su_ok (su : su_mem) : Prop := length su = SU_SIZE ∧ bytes su.
#[export] Instance su_ok_dec su : Decision (su_ok su).
Proof. unfold su_ok. apply _. Defined.

(** Reading and writing [n] bytes at an offset. *)
Definition field (off n : nat) (su : su_mem) : list Z := take n (drop off su).
Definition put_field (off : nat) (bs : list Z) (su : su_mem) : su_mem := take off su ++ bs ++ drop (off + length bs) su.

Definition sockunion_family (su : su_mem) : Z := le_read (field 0 2 su).
Definition put_family (f : Z) (su : su_mem) : su_mem := put_field 0 (le_write 2 f) su.
Definition sin_port (su : su_mem) : list Z := field 2 2 su.
Definition put_port (port : list Z) (su : su_mem) : su_mem := put_field 2 port su.
Definition su_sin_addr (su : su_mem) : list Z := field 4 4 su.
Definition su_sin6_addr (su : su_mem) : list Z := field 8 16 su.
Definition sin6_scope_id (su : su_mem) : Z := le_read (field 24 4 su).
Definition sockunion2ip (su : su_mem) : Z := le_read (su_sin_addr su).

Definition sockunion_init (su : su_mem) : su_mem := replicate SU_SIZE 0%Z.

(** [IN6_IS_ADDR_V4MAPPED] and [IN6_IS_ADDR_LINKLOCAL] of the C library. *)
Definition IN6_IS_ADDR_V4MAPPED (a : list Z) : bool :=
  bool_decide (take 12 a = replicate 10 0%Z ++ [0xff; 0xff]%Z).
Definition IN6_IS_ADDR_LINKLOCAL (a : list Z) : bool :=
  (nth 0 a 0 =? 0xfe)%Z && (Z.land (nth 1 a 0) 0xc0 =? 0x80)%Z.

(** ** Text *)

Section text.
Context `{Inet}.

(** [None] as text is the null pointer; the union is what the call leaves. *)
Definition str2sockunion (s : option cstring) (su : su_mem) : Z * su_mem :=
  match s with
  | None => ((-1)%Z, su)
  | Some s =>
      let su := replicate SU_SIZE 0%Z in
      match inet_pton AF_INET s with
      | Some a => (0%Z, put_family AF_INET (put_field 4 a su))
      | None =>
          match inet_pton AF_INET6 s with
          | Some a => (0%Z, put_family AF_INET6 (put_field 8 a su))
          | None => ((-1)%Z, su)
          end
      end
  end.

(** [None]: the text does not fit in [len] bytes and [inet_ntop] returns null. *)
Definition ntop_into (f : Z) (a : list Z) (len : nat) : option cstring :=
  let s := inet_ntop f a in if decide (length s < len) then Some s else None.

Definition sockunion2str (su : su_mem) (len : nat) : option cstring :=
  let f := sockunion_family su in
  if (f =? 0)%Z then Some (truncate len (str "(unspec)"))
  else if (f =? AF_INET)%Z then ntop_into AF_INET (su_sin_addr su) len
  else if (f =? AF_INET6)%Z then ntop_into AF_INET6 (su_sin6_addr su) len
  else Some (truncate len (str "(af " ++ dec f ++ str ")")).

Definition sockunion_log (su : su_mem) (len : nat) : option cstring :=
  let f := sockunion_family su in
  if (f =? AF_INET)%Z then ntop_into AF_INET (su_sin_addr su) len
  else if (f =? AF_INET6)%Z then ntop_into AF_INET6 (su_sin6_addr su) len
  else Some (truncate len (str "af_unknown " ++ dec f ++ str " ")).

Definition inet_sutop (su : su_mem) (s : cstring) : cstring :=
  let f := sockunion_family su in
  if (f =? AF_INET)%Z then default s (ntop_into AF_INET (su_sin_addr su) 16)
  else if (f =? AF_INET6)%Z then default s (ntop_into AF_INET6 (su_sin6_addr su) 46)
  else s.

Definition sockunion_str2su (s : option cstring) : option su_mem :=
  match str2sockunion s (replicate SU_SIZE 0%Z) with
  | (0%Z, su) => Some su
  | _ => None
  end.

End text.

(** ** Addresses *)

Definition sockunion_normalise_mapped (su : su_mem) : su_mem :=
  if (sockunion_family su =? AF_INET6)%Z && IN6_IS_ADDR_V4MAPPED (su_sin6_addr su) then
    let sin := replicate SIN_SIZE 0%Z in
    let sin := put_family AF_INET sin in
    let sin := put_port (sin_port su) sin in
    let sin := put_field 4 (field 12 4 (su_sin6_addr su)) sin in
    put_field 0 sin su
  else su.

Definition sockunion_sizeof (su : su_mem) : nat :=
  if (sockunion_family su =? AF_INET)%Z then SIN_SIZE
  else if (sockunion_family su =? AF_INET6)%Z then SIN6_SIZE
  else 0.

Definition family2addrsize (family : Z) : nat :=
  if (family =? AF_INET)%Z then 4 else if (family =? AF_INET6)%Z then 16 else 0.

Definition sockunion_get_addrlen (su : su_mem) : nat := family2addrsize (sockunion_family su).

(** The pointer returned is the one to the address inside the union. *)
Definition sockunion_get_addr (su : su_mem) : option (list Z) :=
  if (sockunion_family su =? AF_INET)%Z then Some (su_sin_addr su)
  else if (sockunion_family su =? AF_INET6)%Z then Some (su_sin6_addr su)
  else None.

Definition sockunion_set (su : su_mem) (family : Z) (addr : list Z) (n : nat) : su_mem :=
  if decide (family2addrsize family ≠ n) then su
  else
    let su := put_family family su in
    if (family =? AF_INET)%Z then put_field 4 (take n addr) su
    else if (family =? AF_INET6)%Z then put_field 8 (take n addr) su
    else su.

Definition memcmp0 (a b : list Z) : Z := if decide (a = b) then 0 else 1.

Definition sockunion_same (su1 su2 : su_mem) : Z :=
  if negb (sockunion_family su1 =? sockunion_family su2)%Z then 0
  else
    let ret :=
      if (sockunion_family su1 =? AF_INET)%Z then memcmp0 (su_sin_addr su1) (su_sin_addr su2)
      else if (sockunion_family su1 =? AF_INET6)%Z then
        let ret := memcmp0 (su_sin6_addr su1) (su_sin6_addr su2) in
        if (ret =? 0)%Z && IN6_IS_ADDR_LINKLOCAL (su_sin6_addr su1)
           && negb (sin6_scope_id su1 =? 0)%Z && negb (sin6_scope_id su2 =? 0)%Z
        then if (sin6_scope_id su1 =? sin6_scope_id su2)%Z then 0%Z else 1%Z
        else ret
      else 0%Z in
    if (ret =? 0)%Z then 1 else 0.

(** [s6_addr32] *)
Definition addr32 (a : list Z) : list Z := (λ i, le_read (field (4 * i) 4 a)) <$> seq 0 4.

Definition sockunion_hash (su : su_mem) : option Z :=
  if (sockunion_family su =? AF_INET)%Z then Some (jhash_1word (sockunion2ip su) 0)
  else if (sockunion_family su =? AF_INET6)%Z then jhash2 (addr32 (su_sin6_addr su)) 4 0
  else Some 0%Z.

(** [n] more bytes from [i]; [None] is an access outside. *)
Fixpoint in6addr_cmp_loop (n i : nat) (p1 p2 : list Z) : option Z :=
  match n with
  | 0 => Some 0%Z
  | S n =>
      a ← p1 !! i; b ← p2 !! i;
      if (b <? a)%Z then Some 1%Z
      else if (a <? b)%Z then Some (-1)%Z
      else in6addr_cmp_loop n (i + 1) p1 p2
  end.
Definition in6addr_cmp (addr1 addr2 : list Z) : option Z := in6addr_cmp_loop 16 0 addr1 addr2.

Definition sockunion_cmp (su1 su2 : su_mem) : option Z :=
  if (sockunion_family su2 <? sockunion_family su1)%Z then Some 1%Z
  else if (sockunion_family su1 <? sockunion_family su2)%Z then Some (-1)%Z
  else if (sockunion_family su1 =? AF_INET)%Z then
    if (htonl (sockunion2ip su1) =? htonl (sockunion2ip su2))%Z then Some 0%Z
    else if (htonl (sockunion2ip su2) <? htonl (sockunion2ip su1))%Z then Some 1%Z
    else Some (-1)%Z
  else if (sockunion_family su1 =? AF_INET6)%Z then in6addr_cmp (su_sin6_addr su1) (su_sin6_addr su2)
  else Some 0%Z.

Definition sockunion_dup (su : su_mem) : su_mem := take SU_SIZE su.

(** ** Calls into the kernel *)

Inductive connect_result := connect_error | connect_success | connect_in_progress.
Definition EINPROGRESS : Z := 115.

(** The union [sockunion_connect] fills: the peer's address with the port, which
    is already in network order. *)
Definition connect_addr (peersu : su_mem) (port : list Z) : su_mem :=
  let su := take SU_SIZE peersu in
  if (sockunion_family su =? AF_INET)%Z || (sockunion_family su =? AF_INET6)%Z then put_port port su else su.

(** The address [sockunion_bind] prepares and its size; [any] is a null
    [su_addr]. *)
Definition bind_addr (su : su_mem) (port : Z) (any : bool) : su_mem * nat :=
  if (sockunion_family su =? AF_INET)%Z then
    let su := put_port (le_write 2 (htons port)) su in
    (if any then put_field 4 (le_write 4 (htonl 0)) su else su, SIN_SIZE)
  else if (sockunion_family su =? AF_INET6)%Z then
    let su := put_port (le_write 2 (htons port)) su in
    (if any then put_field 8 (replicate 16 0%Z) su else su, SIN6_SIZE)
  else (su, 0).

Section kernel.
(** What the kernel answers: [socket] on a family; [accept] on the union it may
    write to; [connect] (with errno) and [bind] on an address of a size;
    [getsockname] or [getpeername] with the 128 bytes it fills. *)
Context (socket : Z → Z) (accept : su_mem → Z * su_mem) (connect : su_mem → nat → Z * Z) (bind : su_mem → nat → Z)
  (getname : list Z → Z * list Z).

Definition sockunion_socket (su : su_mem) : Z :=
  let sock := socket (sockunion_family su) in if (sock <? 0)%Z then -1 else sock.

Definition sockunion_accept (su : su_mem) : Z * su_mem :=
  let '(client_sock, su) := accept su in (client_sock, sockunion_normalise_mapped su).

Definition sockunion_connect (peersu : su_mem) (port : list Z) : connect_result :=
  let su := connect_addr peersu port in
  let '(ret, errno) := connect su (sockunion_sizeof su) in
  if (ret =? 0)%Z then connect_success
  else if (ret <? 0)%Z && negb (errno =? EINPROGRESS)%Z then connect_error
  else connect_in_progress.

(** A union without a family becomes an IPv6 one. *)
Definition sockunion_stream_socket (su : su_mem) : Z * su_mem :=
  let su := if (sockunion_family su =? 0)%Z then put_family AF_INET6 su else su in
  (socket (sockunion_family su), su).

Definition sockunion_bind (su : su_mem) (port : Z) (any : bool) : Z * su_mem :=
  let '(su, size) := bind_addr su port any in (bind su size, su).

Definition sockunion_getname : option su_mem :=
  let '(ret, name) := getname (replicate 128 0%Z) in
  if (ret <? 0)%Z then None
  else if (sockunion_family name =? AF_INET)%Z then Some (put_field 0 (take SIN_SIZE name) (replicate SU_SIZE 0%Z))
  else if (sockunion_family name =? AF_INET6)%Z then
    Some (sockunion_normalise_mapped (put_field 0 (take SIN6_SIZE name) (replicate SU_SIZE 0%Z)))
  else None.

End kernel.

(** ** Lemmas on fields *)

Lemma le_read_cons b l : is_byte b → le_read (b :: l) = (b + 256 * le_read l)%Z.
Proof.
  intros Hb. simpl. assert (Z.land b (Z.shiftl (le_read l) 8) = 0)%Z as Hz.
  { apply Z.bits_inj'. intros k Hk. rewrite Z.land_spec, Z.bits_0. destruct (decide (k < 8)%Z).
    - rewrite Z.shiftl_spec_low by lia. apply andb_false_r.
    - rewrite byte_bits by (done || lia). done. }
  rewrite <- Z.lxor_lor by done. rewrite <- Z.add_nocarry_lxor by done. rewrite Z.shiftl_mul_pow2 by lia. lia.
Qed.

Lemma le_read_snoc l b : bytes l → is_byte b → le_read (l ++ [b]) = (le_read l + 2 ^ (8 * Z.of_nat (length l)) * b)%Z.
Proof.
  intros Hl Hb. induction Hl as [|x l Hx Hl IH].
  - cbn [app]. rewrite le_read_cons by done. simpl. lia.
  - cbn [app length]. rewrite !le_read_cons, IH by done. rewrite Nat2Z.inj_succ, Z.mul_succ_r, Z.pow_add_r by lia. lia.
Qed.

(** An address as a number, most significant byte first. *)
Definition number (l : list Z) : Z := le_read (reverse l).

Lemma bytes_reverse l : bytes l → bytes (reverse l).
Proof. intros Hl. by apply Forall_reverse. Qed.

Lemma number_cons b l : is_byte b → bytes l → number (b :: l) = (number l + 2 ^ (8 * Z.of_nat (length l)) * b)%Z.
Proof. intros Hb Hl. unfold number. rewrite reverse_cons, le_read_snoc, length_reverse by (done || by apply bytes_reverse). done. Qed.

Lemma number_range l : bytes l → (0 ≤ number l < 2 ^ (8 * Z.of_nat (length l)))%Z.
Proof. intros Hl. rewrite <- length_reverse. by apply le_read_range, bytes_reverse. Qed.

Lemma number_inj l l' : bytes l → bytes l' → length l = length l' → number l = number l' ↔ l = l'.
Proof.
  intros Hl Hl' Hn. split; [|by intros ->]. intros E. apply (inj reverse), le_read_inj; try by apply bytes_reverse.
  - by rewrite !length_reverse.
  - done.
Qed.

Lemma htonl_number l : bytes l → length l = 4 → htonl (le_read l) = number l.
Proof. intros Hl Hn. unfold htonl, bswap, number. by rewrite <- Hn, le_write_read. Qed.

Lemma in6addr_cmp_number n : ∀ i p1 p2, bytes p1 → bytes p2 → length p1 = i + n → length p2 = i + n →
  in6addr_cmp_loop n i p1 p2 = Some (Z.sgn (number (drop i p1) - number (drop i p2))).
Proof.
  induction n as [|n IH]; intros i p1 p2 B1 B2 L1 L2; cbn [in6addr_cmp_loop].
  - by rewrite !drop_ge by lia.
  - destruct (lookup_lt_is_Some_2 p1 i) as [a Ea]; [lia|]. destruct (lookup_lt_is_Some_2 p2 i) as [b Eb]; [lia|].
    rewrite Ea, Eb, !obind_Some. rewrite (drop_S p1 a i), (drop_S p2 b i) by done.
    assert (is_byte a) as Ha by by apply (Forall_lookup_1 _ _ _ _ B1 Ea).
    assert (is_byte b) as Hb by by apply (Forall_lookup_1 _ _ _ _ B2 Eb).
    pose proof (bytes_drop (S i) _ B1) as D1. pose proof (bytes_drop (S i) _ B2) as D2.
    rewrite !number_cons by done. rewrite (IH (i + 1)) by (done || lia). rewrite !Nat.add_1_r.
    pose proof (number_range _ D1) as R1. pose proof (number_range _ D2) as R2. rewrite !length_drop in *.
    replace (length p1 - S i) with n in * by lia. replace (length p2 - S i) with n in * by lia.
    set (q := (2 ^ (8 * Z.of_nat n))%Z) in *. destruct (b <? a)%Z eqn:E1; [|destruct (a <? b)%Z eqn:E2].
    + rewrite Z.sgn_pos; [done|nia].
    + rewrite Z.sgn_neg; [done|nia].
    + assert (a = b) as -> by lia. do 2 f_equal. lia.
Qed.

Lemma field_ok off n su : su_ok su → off + n ≤ SU_SIZE → length (field off n su) = n ∧ bytes (field off n su).
Proof. intros [Hl Hb] Hn. unfold field. split; [rewrite length_take, length_drop; lia|auto with bytes]. Qed.

Lemma put_field_length off bs su : off + length bs ≤ length su → length (put_field off bs su) = length su.
Proof. intros Hn. unfold put_field. rewrite !length_app, length_take, length_drop. lia. Qed.

Lemma put_field_ok off bs su : su_ok su → bytes bs → off + length bs ≤ SU_SIZE → su_ok (put_field off bs su).
Proof.
  intros [Hl Hb] Hs Hn. split; [rewrite put_field_length; lia|]. unfold put_field. auto with bytes.
Qed.

Lemma field_put off bs su n : off + n ≤ length su → length bs = n → field off n (put_field off bs su) = bs.
Proof.
  intros Hn <-. unfold field, put_field. rewrite drop_app_length' by (rewrite length_take; lia). by rewrite take_app_length.
Qed.

(** Reading a field that lies beside the one written. *)
Lemma field_put_ne off off' n bs su : off + length bs ≤ length su → off' + n ≤ off ∨ off + length bs ≤ off' →
  field off' n (put_field off bs su) = field off' n su.
Proof.
  intros Hn [Hlt|Hge]; unfold field, put_field.
  - rewrite drop_app_le by (rewrite length_take; lia). rewrite take_app_le by (rewrite length_drop, length_take; lia).
    rewrite !take_drop_commute, take_take. by rewrite Nat.min_l by lia.
  - rewrite drop_app_ge by (rewrite length_take; lia). rewrite length_take, Nat.min_l by lia.
    rewrite drop_app_ge by lia. rewrite drop_drop. do 2 f_equal. lia.
Qed.

Lemma zeros_ok : su_ok (replicate SU_SIZE 0%Z).
Proof. split; [done|apply bytes_zeros]. Qed.

Lemma family_put f su : su_ok su → (0 ≤ f < 2 ^ 16)%Z → sockunion_family (put_family f su) = f.
Proof.
  intros [Hl _] Hf. unfold sockunion_family, put_family. rewrite field_put; [|rewrite Hl; unfold SU_SIZE; lia|apply le_write_length].
  apply le_read_write_small. change (8 * Z.of_nat 2)%Z with 16%Z. done.
Qed.

Lemma put_family_ok f su : su_ok su → su_ok (put_family f su).
Proof. intros H. apply put_field_ok; [done|apply le_write_bytes|]. rewrite le_write_length. unfold SU_SIZE. lia. Qed.

(** Writing an address leaves the family. *)
Lemma family_put_field off bs su : su_ok su → 2 ≤ off → off + length bs ≤ SU_SIZE →
  sockunion_family (put_field off bs su) = sockunion_family su.
Proof. intros [Hl _] Hoff Hn. unfold sockunion_family. rewrite field_put_ne by lia. done. Qed.

(** Writing the family leaves the rest. *)
Lemma field_put_family off n f su : su_ok su → 2 ≤ off → field off n (put_family f su) = field off n su.
Proof.
  intros [Hl _] Hoff. unfold put_family. apply field_put_ne; rewrite le_write_length; [|lia]. unfold SU_SIZE in Hl. lia.
Qed.

(** ** Order *)

(** The family first, then the address as a number. *)
Definition su_weight (su : su_mem) : Z := (sockunion_family su * 2 ^ 128 + number (default [] (sockunion_get_addr su)))%Z.

Lemma get_addr_ok su a : su_ok su → sockunion_get_addr su = Some a → bytes a ∧ length a = sockunion_get_addrlen su.
Proof.
  intros Hs. unfold sockunion_get_addr, sockunion_get_addrlen, family2addrsize.
  destruct (_ =? AF_INET)%Z; [|destruct (_ =? AF_INET6)%Z]; intros; simplify_eq;
    (apply and_comm; apply field_ok; [done|unfold SU_SIZE; lia]).
Qed.

Lemma weight_number su : su_ok su → (0 ≤ number (default [] (sockunion_get_addr su)) < 2 ^ 128)%Z.
Proof.
  intros Hs. destruct (sockunion_get_addr su) as [a|] eqn:E; simpl; [|done].
  destruct (get_addr_ok su a Hs E) as [Hb Hl]. pose proof (number_range a Hb) as [H0 H1]. split; [done|].
  eapply Z.lt_le_trans; [done|]. apply Z.pow_le_mono_r; [lia|]. rewrite Hl. unfold sockunion_get_addrlen, family2addrsize.
  repeat case_match; lia.
Qed.

Lemma sgn_cases x y : Some (Z.sgn (x - y)) = (if (x =? y)%Z then Some 0%Z else if (y <? x)%Z then Some 1%Z else Some (-1)%Z).
Proof. destruct (x =? y)%Z eqn:E1; [|destruct (y <? x)%Z eqn:E2]; f_equal; lia. Qed.

Lemma cmp_same_family a b : su_ok a → su_ok b → sockunion_family a = sockunion_family b →
  sockunion_cmp a b = Some (Z.sgn (number (default [] (sockunion_get_addr a)) - number (default [] (sockunion_get_addr b)))).
Proof.
  intros Ha Hb Hf. unfold sockunion_cmp, sockunion_get_addr. rewrite Hf, Z.ltb_irrefl.
  destruct (_ =? AF_INET)%Z; [|destruct (_ =? AF_INET6)%Z]; cbn [from_option id].
  - rewrite sgn_cases. unfold sockunion2ip.
    destruct (field_ok 4 4 a Ha ltac:(unfold SU_SIZE; lia)), (field_ok 4 4 b Hb ltac:(unfold SU_SIZE; lia)).
    rewrite !htonl_number by done. reflexivity.
  - unfold in6addr_cmp.
    destruct (field_ok 8 16 a Ha ltac:(unfold SU_SIZE; lia)), (field_ok 8 16 b Hb ltac:(unfold SU_SIZE; lia)).
    rewrite in6addr_cmp_number by done. rewrite !drop_0. reflexivity.
  - reflexivity.
Qed.

Lemma same_number a b : su_ok a → su_ok b → sockunion_family a = sockunion_family b →
  number (default [] (sockunion_get_addr a)) = number (default [] (sockunion_get_addr b)) → sockunion_get_addr a = sockunion_get_addr b.
Proof.
  intros Ha Hb Hf. assert (is_Some (sockunion_get_addr a) ↔ is_Some (sockunion_get_addr b)) as Hs.
  { unfold sockunion_get_addr. rewrite Hf. destruct (_ =? AF_INET)%Z; [|destruct (_ =? AF_INET6)%Z]; naive_solver. }
  destruct (sockunion_get_addr a) as [x|] eqn:Ea, (sockunion_get_addr b) as [y|] eqn:Eb; try naive_solver.
  cbn [from_option id]. intros E. destruct (get_addr_ok _ _ Ha Ea), (get_addr_ok _ _ Hb Eb). f_equal. apply number_inj; try done.
  unfold sockunion_get_addrlen in *. congruence.
Qed.

(** The order of socket addresses: by family, then by the address as a number;
    addresses of equal weight agree in family and address. *)
Theorem sockunion_cmp_order (a b : su_mem) : su_ok a → su_ok b →
  sockunion_cmp a b = Some (Z.sgn (su_weight a - su_weight b)) ∧
  (su_weight a = su_weight b ↔ sockunion_family a = sockunion_family b ∧ sockunion_get_addr a = sockunion_get_addr b).
Proof.
  intros Ha Hb. pose proof (weight_number a Ha) as Wa. pose proof (weight_number b Hb) as Wb. unfold su_weight.
  destruct (decide (sockunion_family a = sockunion_family b)) as [Hf|Hf].
  - rewrite cmp_same_family by done. rewrite Hf, Z.add_add_simpl_l_l. split; [done|]. split.
    + intros E%Z.add_cancel_l. split; [done|]. by apply same_number.
    + intros [_ ->]. done.
  - split; [|split; [|tauto]].
    + unfold sockunion_cmp. destruct (_ <? _)%Z eqn:E; [rewrite Z.sgn_pos; [done|nia]|].
      destruct (sockunion_family a <? _)%Z eqn:E'; [rewrite Z.sgn_neg; [done|nia]|lia].
    + intros E. exfalso. apply Hf. nia.
Qed.

(** ** Hash *)

Lemma jhash2_loop_total fuel : ∀ k len s, len ≤ length k → len ≤ fuel →
  ∃ k' len' a b c, jhash2_loop fuel k len s = Some (k', len', (a, b, c)) ∧ len' ≤ length k'.
Proof.
  induction fuel as [|fuel IH]; intros k len s Hk Hf; cbn [jhash2_loop].
  - rewrite decide_False by lia. destruct s as [[a b] c]. by eexists _, _, _, _, _.
  - destruct s as [[a b] c]. case_decide; [|by eexists _, _, _, _, _].
    destruct (lookup_lt_is_Some_2 k 0) as [x ->]; [lia|]. destruct (lookup_lt_is_Some_2 k 1) as [y ->]; [lia|].
    destruct (lookup_lt_is_Some_2 k 2) as [z ->]; [lia|]. rewrite !obind_Some. apply IH; [rewrite length_drop|]; lia.
Qed.

Lemma jhash2_total k n i : n ≤ length k → ∃ h, jhash2 k n i = Some h.
Proof.
  intros Hk. unfold jhash2. destruct (jhash2_loop_total n k n (JHASH_GOLDEN_RATIO, JHASH_GOLDEN_RATIO, i) Hk ltac:(done))
    as (k' & len' & a & b & c & -> & Hl). rewrite obind_Some.
  assert (∃ b', (if decide (2 ≤ len') then y ← k' !! 1; Some (u32 (b + y)) else Some b) = Some b') as [b' ->].
  { case_decide; [|eauto]. destruct (lookup_lt_is_Some_2 k' 1) as [y ->]; [lia|]. rewrite obind_Some. eauto. }
  assert (∃ a', (if decide (1 ≤ len') then x ← k' !! 0; Some (u32 (a + x)) else Some a) = Some a') as [a' ->].
  { case_decide; [|eauto]. destruct (lookup_lt_is_Some_2 k' 0) as [x ->]; [lia|]. rewrite obind_Some. eauto. }
  rewrite !obind_Some. destruct (__jhash_mix _) as [[? ?] ?]. eauto.
Qed.

(** Hash tables may use [sockunion_same] and [sockunion_hash] together. *)
Theorem sockunion_same_hash (a b : su_mem) : su_ok a → su_ok b → sockunion_same a b = 1%Z →
  ∃ h, sockunion_hash a = Some h ∧ sockunion_hash b = Some h.
Proof.
  intros Ha Hb. unfold sockunion_same, sockunion_hash, memcmp0.
  destruct (sockunion_family a =? sockunion_family b)%Z eqn:Ef; cbn [negb]; [|done].
  apply Z.eqb_eq in Ef. rewrite Ef. destruct (_ =? AF_INET)%Z; [|destruct (_ =? AF_INET6)%Z].
  - case_decide as E; [|done]. intros _. unfold sockunion2ip. rewrite E. eauto.
  - case_decide as E; [|done]. intros _. rewrite E. destruct (jhash2_total (addr32 (su_sin6_addr b)) 4 0 ltac:(reflexivity)) as [h ->]. eauto.
  - eauto.
Qed.

(** ** Addresses in and out *)

(** A family and an address written one after the other. *)
Lemma put_addr_spec off f addr su : su_ok su → (0 ≤ f < 2 ^ 16)%Z → 4 ≤ off → bytes addr → off + length addr ≤ SU_SIZE →
  let su' := put_field off addr (put_family f su) in
  su_ok su' ∧ sockunion_family su' = f ∧ field off (length addr) su' = addr ∧ sin_port su' = sin_port su.
Proof.
  intros Hs Hf Hoff Hb Hl su'. pose proof (put_family_ok f su Hs) as Hp. subst su'.
  split; [by apply put_field_ok|]. rewrite family_put_field, family_put by (done || lia). split; [done|].
  pose proof (proj1 Hp) as Hn. unfold sin_port. rewrite field_put, field_put_ne, field_put_family by (done || lia). done.
Qed.

Lemma put_addr_family off f addr su : su_ok su → (0 ≤ f < 2 ^ 16)%Z → 4 ≤ off → bytes addr → off + length addr ≤ SU_SIZE →
  let su' := put_family f (put_field off addr su) in
  su_ok su' ∧ sockunion_family su' = f ∧ field off (length addr) su' = addr.
Proof.
  intros Hs Hf Hoff Hb Hl su'. subst su'. assert (su_ok (put_field off addr su)) as Hp by by apply put_field_ok.
  split; [by apply put_family_ok|]. rewrite family_put by done. split; [done|]. rewrite field_put_family by (done || lia).
  apply field_put; [|done]. destruct Hs. lia.
Qed.

(** An address set is the address read; the port is kept. *)
Theorem sockunion_set_get (su : su_mem) (f : Z) (addr : list Z) : su_ok su → inet_family f → bytes addr → length addr = family2addrsize f →
  let su' := sockunion_set su f addr (length addr) in
  su_ok su' ∧ sockunion_family su' = f ∧ sockunion_get_addr su' = Some addr ∧ sin_port su' = sin_port su.
Proof.
  intros Hs Hf Hb Hl su'. subst su'. unfold sockunion_set. rewrite decide_False by naive_solver. rewrite take_ge by done.
  unfold sockunion_get_addr, su_sin_addr, su_sin6_addr. unfold family2addrsize in Hl. destruct Hf as [-> | ->]; cbn in Hl.
  - destruct (put_addr_spec 4 AF_INET addr su) as (Hok & Hf & Ha & Hp); [done..|unfold SU_SIZE; lia|].
    change (AF_INET =? AF_INET)%Z with true. cbn iota. rewrite Hf. rewrite Hl in Ha. by rewrite Ha.
  - destruct (put_addr_spec 8 AF_INET6 addr su) as (Hok & Hf & Ha & Hp); [done|done|lia|done|unfold SU_SIZE; lia|].
    change (AF_INET6 =? AF_INET)%Z with false. change (AF_INET6 =? AF_INET6)%Z with true. cbn iota. rewrite Hf. rewrite Hl in Ha.
    by rewrite Ha.
Qed.

(** ** Text round trip *)

Lemma same_unscoped a b : sockunion_family a = sockunion_family b → inet_family (sockunion_family b) →
  sockunion_get_addr a = sockunion_get_addr b → (sockunion_family b = AF_INET6 → sin6_scope_id b = 0%Z) → sockunion_same a b = 1%Z.
Proof.
  unfold sockunion_same, sockunion_get_addr, memcmp0. intros -> [-> | ->] Ha Hb.
  - change (AF_INET =? AF_INET)%Z with true in *. cbn iota in Ha. cbn [negb]. simplify_eq. by rewrite decide_True.
  - change (AF_INET6 =? AF_INET)%Z with false in *. change (AF_INET6 =? AF_INET6)%Z with true in *. cbn iota in Ha. cbn [negb].
    simplify_eq. rewrite decide_True, Hb by done. change (0 =? 0)%Z with true. cbn [negb]. by rewrite !andb_false_r.
Qed.

Section roundtrip.
Context `{InetLaws}.

(** The text of an IPv6 address is not one of an IPv4 address. *)
Hypothesis pton4_ntop6 : ∀ l, bytes l → length l = 16 → inet_pton AF_INET (inet_ntop AF_INET6 l) = None.

Lemma str2sockunion_ntop f a old : inet_family f → bytes a → length a = inet_size f → ∃ su,
  str2sockunion (Some (inet_ntop f a)) old = (0%Z, su) ∧ su_ok su ∧ sockunion_family su = f ∧ sockunion_get_addr su = Some a ∧
  (f = AF_INET6 → sin6_scope_id su = 0%Z).
Proof using All.
  intros Hf Hb Hl. unfold str2sockunion, sockunion_get_addr, su_sin_addr, su_sin6_addr.
  pose proof (pton_ntop f a Hf Hb Hl) as E. destruct Hf as [-> | ->].
  - change (length a = 4) in Hl. rewrite E. eexists. split; [done|].
    destruct (put_addr_family 4 AF_INET a _ zeros_ok) as (Hok & Hf & Ha); [done..|rewrite Hl; unfold SU_SIZE; lia|].
    rewrite Hl in Ha. by rewrite Hf, Ha.
  - change (length a = 16) in Hl. rewrite pton4_ntop6, E by done. eexists. split; [done|].
    destruct (put_addr_family 8 AF_INET6 a _ zeros_ok) as (Hok & Hf & Ha); [done|lia|done|rewrite Hl; unfold SU_SIZE; lia|].
    rewrite Hl in Ha. rewrite Hf, Ha. split_and!; try done. intros _. unfold sin6_scope_id.
    rewrite field_put_family by (lia || (apply put_field_ok; [apply zeros_ok|done|rewrite Hl; unfold SU_SIZE; lia])).
    rewrite field_put_ne; [done|rewrite length_replicate, Hl; unfold SU_SIZE; lia|lia].
Qed.

(** The text of an IPv4 or IPv6 address is read back as the same address. *)
Theorem str2sockunion_roundtrip (su old : su_mem) : su_ok su → inet_family (sockunion_family su) →
  ∃ s su', sockunion2str su 46 = Some s ∧ str2sockunion (Some s) old = (0%Z, su') ∧ su_ok su' ∧
  sockunion_family su' = sockunion_family su ∧ sockunion_get_addr su' = sockunion_get_addr su ∧ sockunion_same su su' = 1%Z.
Proof using All.
  intros Hs Hf. assert (∃ a, sockunion_get_addr su = Some a ∧ bytes a ∧ length a = inet_size (sockunion_family su) ∧
    sockunion2str su 46 = ntop_into (sockunion_family su) a 46) as (a & Ea & Hb & Hl & Es).
  { destruct (field_ok 4 4 su Hs ltac:(unfold SU_SIZE; lia)), (field_ok 8 16 su Hs ltac:(unfold SU_SIZE; lia)).
    unfold sockunion_get_addr, sockunion2str, inet_size. by destruct Hf as [-> | ->]; eexists. }
  destruct (str2sockunion_ntop (sockunion_family su) a old Hf Hb Hl) as (su' & E & Hok & Hfam & Ha & Hsc).
  rewrite Es. unfold ntop_into. destruct (ntop_chars (sockunion_family su) a Hf Hb Hl) as (_ & _ & Hn).
  rewrite decide_True by lia. eexists _, su'. split; [done|]. split_and!; try done; [congruence|].
  apply same_unscoped; rewrite ?Hfam; try done. congruence.
Qed.
End roundtrip.

Lemma plain_pton4_ntop6 l : bytes l → length l = 16 → inet_pton AF_INET (inet_ntop AF_INET6 l) = None.
Proof. intros Hb Hl. exact (aton_ntop6 (H := Inet_plain) l Hb Hl). Qed.

(** 192.0.2.1 *)
Definition su4 : su_mem := [2; 0; 0; 80; 192; 0; 2; 1]%Z ++ replicate 20 0%Z.
(** fe80::1 on interface [scope], and an IPv4-mapped address *)
Definition su6_ll (scope : Z) : su_mem := [10; 0; 0; 80; 0; 0; 0; 0; 0xfe; 0x80]%Z ++ replicate 13 0%Z ++ [1; scope; 0; 0; 0]%Z.
Definition su6_mapped : su_mem := [10; 0; 0; 80; 0; 0; 0; 0]%Z ++ replicate 10 0%Z ++ [0xff; 0xff; 192; 0; 2; 1; 7; 0; 0; 0]%Z.

Lemma str2sockunion_roundtrip_witness : ∃ s su', sockunion2str su4 46 = Some s ∧ str2sockunion (Some s) su4 = (0%Z, su') ∧ su_ok su' ∧
  sockunion_family su' = sockunion_family su4 ∧ sockunion_get_addr su' = sockunion_get_addr su4 ∧ sockunion_same su4 su' = 1%Z.
Proof.
  apply (str2sockunion_roundtrip plain_pton4_ntop6); [apply (bool_decide_unpack _); vm_compute; exact I|left; reflexivity].
Defined.

Lemma sockunion_cmp_order_witness : sockunion_cmp su4 su6_mapped = Some (Z.sgn (su_weight su4 - su_weight su6_mapped)) ∧
  (su_weight su4 = su_weight su6_mapped ↔ sockunion_family su4 = sockunion_family su6_mapped ∧ sockunion_get_addr su4 = sockunion_get_addr su6_mapped).
Proof. apply sockunion_cmp_order; apply (bool_decide_unpack _); vm_compute; exact I. Defined.

(** [sockunion_same] takes a link-local address without interface for the same
    as one on any interface, so it is not transitive; [sockunion_cmp] does not
    look at the interface; of other families all addresses are the same. *)
Example same_not_transitive :
  sockunion_same (su6_ll 1) (su6_ll 0) = 1%Z ∧ sockunion_same (su6_ll 0) (su6_ll 2) = 1%Z ∧ sockunion_same (su6_ll 1) (su6_ll 2) = 0%Z ∧
  sockunion_cmp (su6_ll 1) (su6_ll 2) = Some 0%Z.
Proof. by vm_compute. Qed.

Example same_other_family : sockunion_same ([1; 0; 3]%Z ++ replicate 25 0%Z) ([1; 0; 4]%Z ++ replicate 25 0%Z) = 1%Z.
Proof. by vm_compute. Qed.

(** ** IPv4-mapped addresses *)

Lemma normalise_mapped_bytes su : su_ok su → sockunion_family su = AF_INET6 → IN6_IS_ADDR_V4MAPPED (su_sin6_addr su) = true →
  sockunion_normalise_mapped su = le_write 2 AF_INET ++ sin_port su ++ drop 12 (su_sin6_addr su) ++ replicate 8 0%Z ++ drop 16 su.
Proof.
  intros [Hl _] Hf Hm. unfold sockunion_normalise_mapped. rewrite Hf, Hm. change (AF_INET6 =? AF_INET6)%Z with true. cbn [andb].
  clear Hf Hm. unfold SU_SIZE in Hl. do 28 (destruct su as [|? su]; [discriminate Hl|]). destruct su; [|discriminate Hl]. reflexivity.
Qed.

(** A mapped address becomes the IPv4 address in its last four bytes. *)
Theorem normalise_mapped_spec (su : su_mem) : su_ok su → sockunion_family su = AF_INET6 → IN6_IS_ADDR_V4MAPPED (su_sin6_addr su) = true →
  let su' := sockunion_normalise_mapped su in
  su_ok su' ∧ sockunion_family su' = AF_INET ∧ sin_port su' = sin_port su ∧
  sockunion_get_addr su' = Some (drop 12 (su_sin6_addr su)) ∧ sockunion_normalise_mapped su' = su'.
Proof.
  intros Hs Hf Hm su'. assert (E : su' = _) by exact (normalise_mapped_bytes su Hs Hf Hm). clearbody su'.
  destruct (field_ok 2 2 su Hs ltac:(unfold SU_SIZE; lia)) as [Lp Bp]. destruct (field_ok 8 16 su Hs ltac:(unfold SU_SIZE; lia)) as [La Ba].
  fold (sin_port su) in Lp, Bp. fold (su_sin6_addr su) in La, Ba. destruct Hs as [Hl Hb].
  assert (Hfam : sockunion_family su' = AF_INET) by by subst. split; [|split; [done|]].
  - subst. split; [|auto 10 with bytes]. rewrite !length_app, !length_drop, La, Lp, Hl. reflexivity.
  - unfold sockunion_get_addr, sockunion_normalise_mapped. rewrite Hfam. change (AF_INET =? AF_INET)%Z with true.
    change (AF_INET =? AF_INET6)%Z with false. cbn [andb]. split_and!; [| |done]; subst; clear Hfam.
    + destruct (sin_port su) as [|? [|? [|]]] eqn:Ep; try discriminate Lp. reflexivity.
    + unfold su_sin_addr. destruct (sin_port su) as [|? [|? [|]]]; try discriminate Lp. f_equal.
      assert (length (drop 12 (su_sin6_addr su)) = 4) as L4 by (rewrite length_drop, La; done).
      destruct (drop 12 _) as [|? [|? [|? [|? [|]]]]]; try discriminate L4. reflexivity.
Qed.

Lemma normalise_mapped_spec_witness : let su' := sockunion_normalise_mapped su6_mapped in
  su_ok su' ∧ sockunion_family su' = AF_INET ∧ sin_port su' = sin_port su6_mapped ∧
  sockunion_get_addr su' = Some (drop 12 (su_sin6_addr su6_mapped)) ∧ sockunion_normalise_mapped su' = su'.
Proof. apply normalise_mapped_spec; [apply (bool_decide_unpack _); vm_compute; exact I|reflexivity..]. Defined.

(** What [accept] leaves of an IPv4 client on an IPv6 socket prints as an IPv4
    address. *)
Example accepted_mapped : (let '(_, su) := sockunion_accept (λ _, (5%Z, su6_mapped)) (replicate SU_SIZE 0%Z) in sockunion2str su 46)
  = Some (str "192.0.2.1").
Proof. vm_compute. reflexivity. Qed.
