(* ===== verification/TokenMatch.v ===== *)
(** * Matching one word of a command line: the token matchers of
    lib/command_match.c

    Each matcher reads a NUL-terminated word and answers whether the word is a
    complete instance of the token, the beginning of one, or neither.  A word
    is the list of its characters; reading at its end gives the NUL. *)
From Stdlib Require Import Ascii String.
From stdpp Require Import prelude list.
From S2P Require Import Prelude CString Prefix PrefixText.
Set Default Goal Selector "!".

Inductive cmd_token_type :=
  | WORD_TKN | VARIABLE_TKN | RANGE_TKN | IPV4_TKN | IPV4_PREFIX_TKN | IPV6_TKN | IPV6_PREFIX_TKN
  | MAC_TKN | MAC_PREFIX_TKN | FORK_TKN | JOIN_TKN | START_TKN | END_TKN.

#[export] Instance cmd_token_type_eq_dec : EqDecision cmd_token_type.
Proof. solve_decision. Defined.

Inductive cmd_attr := CMD_ATTR_NORMAL | CMD_ATTR_DEPRECATED | CMD_ATTR_HIDDEN.

#[export] Instance cmd_attr_eq_dec : EqDecision cmd_attr.
Proof. solve_decision. Defined.

Record cmd_token := Token {
  type : cmd_token_type; attr : cmd_attr; allowrepeat : bool; text : cstring; desc : option cstring;
  tmin : Z; tmax : Z; varname : option cstring
}.

Inductive match_type := trivial_match | no_match | partly_match | exact_match.

#[export] Instance match_type_eq_dec : EqDecision match_type.
Proof. solve_decision. Defined.

(** The order of the enumeration. *)
Definition match_rank (m : match_type) : nat :=
  match m with trivial_match => 0 | no_match => 1 | partly_match => 2 | exact_match => 3 end.

(** ** Words, ranges *)

(** [strtoll(str, &endptr, 10)]: the value, clamped, and the rest of the word.
    Without digits nothing is read. *)
Fixpoint span_digits (s : cstring) : cstring * cstring :=
  match s with
  | [] => ([], [])
  | c :: s' => if isdigit c then let '(d, r) := span_digits s' in (c :: d, r) else ([], s)
  end.

Definition strtoll10 (str : cstring) : Z * cstring :=
  let s := skip_space str in
  let '(sign, s) := match s with
                    | "-"%char :: s => ((-1)%Z, s)
                    | "+"%char :: s => (1%Z, s)
                    | s => (1%Z, s)
                    end in
  match span_digits s with
  | ([], _) => (0%Z, str)
  | (d, rest) => (Z.max (- LONG_MAX - 1) (Z.min LONG_MAX (sign * dec_value 0 d)), rest)
  end.

Definition match_range (token : cmd_token) (str : cstring) : match_type :=
  let '(val, endptr) := strtoll10 str in
  match endptr with
  | _ :: _ => no_match
  | [] => if decide (val < tmin token ∨ val > tmax token)%Z then no_match else exact_match
  end.

Definition match_word (token : cmd_token) (word : cstring) : match_type :=
  if decide (length word = 0) then partly_match
  else if decide (length word < length (text token)) then
    if strncmp_eq (text token) word (length word) then partly_match else no_match
  else if decide (length word = length (text token)) then
    if strncmp_eq (text token) word (length word) then exact_match else no_match
  else no_match.

Definition match_variable : match_type := exact_match.

(** ** IPv4 *)

(** The inner loop over one number: it returns from the matcher, or stops at a
    dot or at the end with the digits it went over. *)
Inductive scanned := Return (m : match_type) | Number (digits rest : cstring) (dots : nat).

Fixpoint scan4 (str digits : cstring) (dots : nat) : scanned :=
  match str with
  | [] => Number digits [] dots
  | c :: str' =>
      if decide (c = "."%char) then
        if decide (3 ≤ dots) then Return no_match
        else match str' with
             | [] => Return partly_match
             | c' :: _ => if decide (c' = "."%char) then Return no_match else Number digits str (S dots)
             end
      else if isdigit c then scan4 str' (digits ++ [c]) dots
      else Return no_match
  end.

(** [atoi] of at most three digits. *)
Fixpoint ipv4_loop (fuel : nat) (str : cstring) (dots nums : nat) : option match_type :=
  match fuel with
  | 0 => None
  | S fuel =>
      match scan4 str [] dots with
      | Return m => Some m
      | Number digits rest dots =>
          if decide (3 < length digits) then Some no_match
          else if decide (dec_value 0 digits > 255)%Z then Some no_match
          else
            let nums := S nums in
            match rest with
            | [] => Some (if decide (nums < 4) then partly_match else exact_match)
            | _ :: str => ipv4_loop fuel str dots nums
            end
      end
  end.

Definition match_ipv4 (str : cstring) : option match_type := ipv4_loop (S (length str)) str 0 0.

Fixpoint scan4p (str digits : cstring) (dots : nat) : scanned :=
  match str with
  | [] => Number digits [] dots
  | c :: str' =>
      if decide (c = "/"%char) then Number digits str dots
      else if decide (c = "."%char) then
        if decide (dots = 3) then Return no_match
        else match str' with
             | [] => Return partly_match
             | c' :: _ =>
                 if decide (c' = "."%char ∨ c' = "/"%char) then Return no_match else Number digits str (S dots)
             end
      else if isdigit c then scan4p str' (digits ++ [c]) dots
      else Return no_match
  end.

(** The digits after the slash. *)
Definition match_mask4 (str : cstring) : option match_type :=
  if forallb isdigit str then
    v ← atoi str; Some (if decide (v > 32)%Z then no_match else exact_match)
  else Some no_match.

Fixpoint ipv4_prefix_loop (fuel : nat) (str : cstring) (dots : nat) : option match_type :=
  match fuel with
  | 0 => None
  | S fuel =>
      match scan4p str [] dots with
      | Return m => Some m
      | Number digits rest dots =>
          if decide (3 < length digits) then Some no_match
          else if decide (dec_value 0 digits > 255)%Z then Some no_match
          else
            match rest with
            | [] => Some partly_match
            | c :: str =>
                if decide (dots = 3 ∧ c = "/"%char) then
                  match str with [] => Some partly_match | _ => match_mask4 str end
                else ipv4_prefix_loop fuel str dots
            end
      end
  end.

Definition match_ipv4_prefix (str : cstring) : option match_type := ipv4_prefix_loop (S (length str)) str 0.

(** ** IPv6 *)

Inductive state6 := STATE_START | STATE_COLON | STATE_DOUBLE | STATE_ADDR | STATE_DOT | STATE_SLASH | STATE_MASK.

#[export] Instance state6_eq_dec : EqDecision state6.
Proof. solve_decision. Defined.

Definition ch (s : cstring) (i : nat) : ascii := default NUL (s !! i).

Record vars6 := Vars6 { st : state6; colons : Z; nums : Z; double_colon : Z; spos : nat }.

(** One round of the switch at position [i]: it returns from the matcher, goes
    round again at the same position, or moves on. *)
Inductive round6 := Ret6 (m : match_type) | Again (v : vars6) | Advance (v : vars6).

Definition step6 (s : cstring) (i : nat) (v : vars6) : round6 :=
  let here := ch s i in
  let next := ch s (S i) in
  match st v with
  | STATE_START =>
      if decide (here = ":"%char) then
        if decide (next ≠ ":"%char ∧ next ≠ NUL) then Ret6 no_match
        else Again (Vars6 STATE_COLON (colons v - 1) (nums v) (double_colon v) (spos v))
      else Again (Vars6 STATE_ADDR (colons v) (nums v) (double_colon v) i)
  | STATE_COLON =>
      if decide (next = "/"%char) then Ret6 no_match
      else if decide (next = ":"%char)
      then Advance (Vars6 STATE_DOUBLE (colons v + 1) (nums v) (double_colon v) (spos v))
      else Advance (Vars6 STATE_ADDR (colons v + 1) (nums v) (double_colon v) (S i))
  | STATE_DOUBLE =>
      if decide (double_colon v ≠ 0)%Z then Ret6 no_match
      else if decide (next = ":"%char) then Ret6 no_match
      else
        let colons := (if decide (next ≠ NUL ∧ next ≠ "/"%char) then colons v + 1 else colons v)%Z in
        Advance (Vars6 (if decide (next = "/"%char) then STATE_SLASH else STATE_ADDR) colons (nums v + 1)
                   (double_colon v + 1) (S i))
  | STATE_ADDR =>
      if decide (next = ":"%char ∨ next = "."%char ∨ next = NUL ∨ next = "/"%char) then
        if decide (3 < Z.of_nat i - Z.of_nat (spos v))%Z then Ret6 no_match
        else if existsb (λ j, bool_decide (ch s j = "/"%char)) (seq (spos v) (S i - spos v)) then Ret6 no_match
        else
          let v' state := Vars6 state (colons v) (nums v + 1) (double_colon v) (spos v `max` S i) in
          if decide (next = ":"%char) then Advance (v' STATE_COLON)
          else if decide (next = "."%char) then
            if decide (colons v ≠ 0 ∨ double_colon v ≠ 0)%Z then Advance (v' STATE_DOT) else Ret6 no_match
          else if decide (next = "/"%char) then Advance (v' STATE_SLASH)
          else Advance (v' STATE_ADDR)
      else Advance v
  | STATE_DOT => Advance (Vars6 STATE_ADDR (colons v) (nums v) (double_colon v) (spos v))
  | STATE_SLASH =>
      if decide (next = NUL) then Ret6 partly_match
      else Advance (Vars6 STATE_MASK (colons v) (nums v) (double_colon v) (spos v))
  | STATE_MASK => Advance v
  end.

(** The loop: it returns, or ends at a position in a state. *)
Fixpoint ipv6_loop (fuel : nat) (s : cstring) (i : nat) (v : vars6) : option (match_type + nat * state6) :=
  match fuel with
  | 0 => None
  | S fuel =>
      if decide (ch s i = NUL ∨ st v = STATE_MASK) then Some (inr (i, st v))
      else
        match step6 s i v with
        | Ret6 m => Some (inl m)
        | Again v => ipv6_loop fuel s i v
        | Advance v =>
            if decide (11 < nums v ∨ 7 < colons v)%Z then Some (inl no_match) else ipv6_loop fuel s (S i) v
        end
  end.

(** A [long] stored in an [int]. *)
Definition as_int (z : Z) : Z := let v := u32 z in (if v <? 2 ^ 31 then v else v - 2 ^ 32)%Z.

Definition IPV6_ADDR_STR : cstring := str "0123456789abcdefABCDEF:.".
Definition IPV6_PREFIX_STR : cstring := str "0123456789abcdefABCDEF:./".

(** Going round again only leaves the start state, so twice the positions are
    enough. *)
Definition match_ipv6_prefix `{Inet} (s : cstring) (prefix : bool) : option match_type :=
  if forallb (λ c, bool_decide (c ∈ if prefix then IPV6_PREFIX_STR else IPV6_ADDR_STR)) s then
    r ← ipv6_loop (length s + 3) s 0 (Vars6 STATE_START 0 0 0 0);
    match r with
    | inl m => Some m
    | inr (i, state) =>
        if prefix then
          if decide (state = STATE_MASK) then
            let '(val, endptr) := strtoll10 (drop i s) in
            let mask := as_int val in
            Some (if decide (endptr ≠ []) then no_match
                  else if decide (mask < 0 ∨ mask > 128)%Z then no_match else exact_match)
          else Some partly_match
        else Some (if inet_pton AF_INET6 s is Some _ then exact_match else partly_match)
    end
  else Some no_match.

(** ** MAC addresses *)

Definition MAC_CHARS : cstring := str "ABCDEFabcdef0123456789:".
Definition mac_explen : nat := 17.

(** The loop of the address check: the position it ends at, or a mismatch. *)
Fixpoint mac_loop (fuel : nat) (word : cstring) (i : nat) : option nat :=
  match fuel with
  | 0 => Some i
  | S fuel =>
      if decide (ch word i = NUL ∨ ch word i ∉ MAC_CHARS) then Some i
      else if decide ((S i `mod` 3 = 0) ↔ ch word i = ":"%char) then mac_loop fuel word (S i)
      else None
  end.

Definition match_mac (word : cstring) (prefix : bool) : match_type :=
  if decide (mac_explen + (if prefix then 3 else 0) < length word) then no_match
  else
    match mac_loop mac_explen word 0 with
    | None => no_match
    | Some i =>
        if decide (i < mac_explen) then
          if decide (ch word i = NUL) then partly_match else no_match
        else if prefix then
          if decide (ch word i = "/"%char) then
            if decide (ch word (S i) = NUL) then partly_match
            else
              let '(maskval, eptr) := strtoll10 (drop (S i) word) in
              if decide (eptr ≠ [] ∨ u32 maskval > 48)%Z then no_match else exact_match
          else if decide (ch word i = NUL) then partly_match
          else no_match
        else exact_match
    end.

(** ** Any token; [None] is the null pointer *)
Definition match_token `{Inet} (token : cmd_token) (input_token : option cstring) : option match_type :=
  match input_token with
  | None => Some trivial_match
  | Some w =>
      match type token with
      | WORD_TKN => Some (match_word token w)
      | IPV4_TKN => match_ipv4 w
      | IPV4_PREFIX_TKN => match_ipv4_prefix w
      | IPV6_TKN => match_ipv6_prefix w false
      | IPV6_PREFIX_TKN => match_ipv6_prefix w true
      | RANGE_TKN => Some (match_range token w)
      | VARIABLE_TKN => Some match_variable
      | MAC_TKN => Some (match_mac w false)
      | MAC_PREFIX_TKN => Some (match_mac w true)
      | _ => Some no_match
      end
  end.

Definition min_match_level (t : cmd_token_type) : match_type :=
  match t with START_TKN => no_match | WORD_TKN => partly_match | _ => exact_match end.

Definition score_precedence (t : cmd_token_type) : nat :=
  match t with
  | IPV4_TKN | IPV4_PREFIX_TKN | IPV6_TKN | IPV6_PREFIX_TKN | MAC_TKN | MAC_PREFIX_TKN | RANGE_TKN => 2
  | WORD_TKN => 3
  | VARIABLE_TKN => 4
  | _ => 10
  end.

(** ** Words and ranges *)

Lemma strncmp_eq_spec a w : length w ≤ length a → strncmp_eq a w (length w) = true ↔ w `prefix_of` a.
Proof.
  revert a. induction w as [|c w IH]; intros a Hl.
  { split; [by exists a|by destruct a]. }
  destruct a as [|c' a]; [cbn in Hl; lia|]. cbn in Hl |- *. rewrite andb_true_iff, bool_decide_eq_true, IH by lia. split.
  - intros [-> [k ->]]. by exists k.
  - intros [k E]. injection E as -> ->. split; [done|by exists k].
Qed.

(** A word matches exactly when it is the token's text, and partly when it is
    a proper abbreviation of it, the empty word included. *)
Lemma match_word_spec t w : text t ≠ [] →
  (match_word t w = exact_match ↔ w = text t)
  ∧ (match_word t w = partly_match ↔ w `prefix_of` text t ∧ w ≠ text t).
Proof.
  intros Ht. unfold match_word. case_decide as H0.
  { destruct w; [|done]. split; [split; [done|intros E; by destruct (Ht (eq_sym E))]|]. split; [|done]. intros _. split; [apply prefix_nil|intros E; by destruct (Ht (eq_sym E))]. }
  assert (w = text t → length w = length (text t)) as HL by (by intros ->). case_decide as Hlt.
  - pose proof (strncmp_eq_spec (text t) w ltac:(lia)) as P. destruct (strncmp_eq _ _ _).
    + split; [split; [done|intros E; apply HL in E; lia]|]. split; [|done]. intros _. split; [by apply P|].
      intros E. apply HL in E. lia.
    + split; [split; [done|intros E; apply HL in E; lia]|]. split; [done|]. intros [E _]. by apply P in E.
  - case_decide as He.
    + pose proof (strncmp_eq_spec (text t) w ltac:(lia)) as P. rewrite He in P |- *.
      assert (w `prefix_of` text t ↔ w = text t) as Pe.
      { split; [intros [k E]; apply (f_equal length) in E as El; rewrite length_app in El; destruct k; [by rewrite app_nil_r in E|cbn in El; lia]|by intros ->]. }
      rewrite Pe in *. destruct (strncmp_eq _ _ _) eqn:Es.
      * split; [split; [intros _; by apply P|done]|]. split; [done|tauto].
      * split; (split; [done|]); [intros E; by apply P in E|tauto].
    + split; (split; [done|]); [intros E; apply HL in E; lia|]. intros [[k E] _]. apply (f_equal length) in E.
      rewrite length_app in E. lia.
Qed.

Lemma span_digits_app d r : forallb isdigit d = true → match r with c :: _ => isdigit c = false | [] => True end →
  span_digits (d ++ r) = (d, r).
Proof.
  intros Hd Hr. induction d as [|c d IH]; cbn in *.
  - destruct r as [|c r]; [done|]. cbn. by rewrite Hr.
  - apply andb_true_iff in Hd as [Hc Hd]. rewrite Hc, IH by done. done.
Qed.

Lemma span_digits_spec s : ∃ d r, span_digits s = (d, r) ∧ s = d ++ r ∧ forallb isdigit d = true
  ∧ match r with c :: _ => isdigit c = false | [] => True end.
Proof.
  induction s as [|c s (d & r & E & -> & Hd & Hr)]; [by exists [], []|]. cbn. destruct (isdigit c) eqn:Hc.
  - rewrite E. exists (c :: d), r. split_and!; [done|done|cbn; by rewrite Hc|done].
  - by exists [], (c :: d ++ r).
Qed.

(** ** IPv4 addresses *)

Lemma scan4_spec s digits dots : ∃ d r, s = d ++ r ∧ forallb isdigit d = true
  ∧ match r with
    | [] => scan4 s digits dots = Number (digits ++ d) [] dots
    | c :: r' =>
        isdigit c = false
        ∧ (c ≠ "."%char → scan4 s digits dots = Return no_match)
        ∧ (c = "."%char → 3 ≤ dots → scan4 s digits dots = Return no_match)
        ∧ (c = "."%char → dots < 3 →
             match r' with
             | [] => scan4 s digits dots = Return partly_match
             | c' :: _ => (c' = "."%char → scan4 s digits dots = Return no_match)
                          ∧ (c' ≠ "."%char → scan4 s digits dots = Number (digits ++ d) r (S dots))
             end)
    end.
Proof.
  revert digits. induction s as [|c s IH]; intros digits.
  { exists [], []. split_and!; [done|done|cbn; by rewrite app_nil_r]. }
  destruct (isdigit c) eqn:Hc.
  - destruct (IH (digits ++ [c])) as (d & r & -> & Hd & Hr). exists (c :: d), r. split; [done|]. split; [cbn; by rewrite Hc|].
    assert (scan4 (c :: d ++ r) digits dots = scan4 (d ++ r) (digits ++ [c]) dots) as ->.
    { cbn. rewrite decide_False, Hc; [done|]. intros ->. done. }
    rewrite <- app_assoc in Hr. exact Hr.
  - exists [], (c :: s). split; [done|]. split; [done|]. split; [done|]. cbn. rewrite app_nil_r, Hc. split_and!.
    + intros ?. by rewrite decide_False.
    + intros -> ?. rewrite decide_True by done. by rewrite decide_True.
    + intros -> ?. rewrite !(decide_True (P := "."%char = _)) by done. rewrite decide_False by lia.
      destruct s as [|c' s]; [done|]. split; intros; [by rewrite decide_True|by rewrite decide_False].
Qed.

(** Up to three digits with a value of at most 255; the first number of an
    address may be empty. *)
Definition octet (d : cstring) : Prop := forallb isdigit d = true ∧ length d ≤ 3 ∧ (dec_value 0 d ≤ 255)%Z.

Fixpoint dotted (ps : list cstring) : cstring :=
  match ps with
  | [] => []
  | [p] => p
  | p :: ps => p ++ "."%char :: dotted ps
  end.

Lemma dotted_split p ps d r : octet p → forallb isdigit d = true →
  match r with c :: _ => isdigit c = false | [] => True end →
  d ++ r = dotted (p :: ps) → d = p ∧ r = match ps with [] => [] | _ => "."%char :: dotted ps end.
Proof.
  intros (Hp & _) Hd Hr E.
  assert (span_digits (dotted (p :: ps)) = (p, match ps with [] => [] | _ => "."%char :: dotted ps end)) as S.
  { destruct ps as [|q ps]; [rewrite <- (app_nil_r (dotted [p])); by apply (span_digits_app p [])|]. by apply (span_digits_app p). }
  rewrite <- E, span_digits_app in S by done. by injection S.
Qed.

Lemma ipv4_loop_exact fuel : ∀ s dots, length s < fuel → dots ≤ 3 →
  ∃ m, ipv4_loop fuel s dots dots = Some m ∧
  (m = exact_match ↔ ∃ p ps, s = dotted (p :: ps) ∧ dots + length ps = 3 ∧ Forall octet (p :: ps) ∧ Forall (λ q, q ≠ []) ps).
Proof.
  induction fuel as [|fuel IH]; intros s dots Hf Hd; [lia|]. cbn [ipv4_loop].
  destruct (scan4_spec s [] dots) as (d & r & Es & Hdig & Hr). cbn [app] in Hr.
  assert (∀ m, m ≠ exact_match → (∀ p ps, s = dotted (p :: ps) → dots + length ps = 3 → Forall octet (p :: ps) →
    Forall (λ q, q ≠ []) ps → False) → ∃ m', Some m = Some m' ∧ (m' = exact_match ↔ ∃ p ps, s = dotted (p :: ps) ∧
    dots + length ps = 3 ∧ Forall octet (p :: ps) ∧ Forall (λ q, q ≠ []) ps)) as Hno.
  { intros m Hm HF. exists m. split; [done|]. split; [done|]. intros (p & ps & ? & ? & ? & ?). exfalso. by eapply HF. }
  assert (∀ p ps, s = dotted (p :: ps) → Forall octet (p :: ps) →
    d = p ∧ r = match ps with [] => [] | _ => "."%char :: dotted ps end) as Hsplit.
  { intros p ps E Ho. rewrite Es in E. apply Forall_cons in Ho as [Hp _].
    apply (dotted_split p ps d r Hp Hdig); [|done]. destruct r; [done|]. apply Hr. }
  destruct r as [|c r].
  - rewrite Hr. case_decide as H3; [|case_decide as H255].
    + apply Hno; [done|]. intros p ps E _ Ho _. destruct (Hsplit p ps E Ho) as [-> _]. apply Forall_cons in Ho as [(_ & ? & _) _]. lia.
    + apply Hno; [done|]. intros p ps E _ Ho _. destruct (Hsplit p ps E Ho) as [-> _]. apply Forall_cons in Ho as [(_ & _ & ?) _]. lia.
    + case_decide as Hn; [apply Hno; [done|]; intros p ps E HL Ho _; destruct (Hsplit p ps E Ho) as [_ Hr']; destruct ps; [cbn in HL; lia|done]|].
      exists exact_match. split; [done|]. split; [|done]. intros _. exists d, []. rewrite Es, app_nil_r.
      split; [done|]. split; [cbn; lia|]. split; [constructor; [split; [done|lia]|constructor]|constructor].
  - destruct Hr as (Hnd & Hother & Hdots & Hdot). destruct (decide (c = "."%char)) as [->|Hc].
    2: { rewrite Hother by done. apply Hno; [done|]. intros p ps E _ Ho _. destruct (Hsplit p ps E Ho) as [_ Hr'].
         destruct ps; [done|]. by injection Hr' as ->. }
    destruct (decide (3 ≤ dots)) as [H3|H3].
    { rewrite Hdots by done. apply Hno; [done|]. intros p ps E HL Ho _. destruct (Hsplit p ps E Ho) as [_ Hr'].
      destruct ps; [done|]. cbn in HL. lia. }
    specialize (Hdot eq_refl ltac:(lia)). destruct r as [|c' r].
    { rewrite Hdot. apply Hno; [done|]. intros p ps E HL Ho Hne. destruct (Hsplit p ps E Ho) as [_ Hr'].
      destruct ps as [|q qs]; [done|]. injection Hr' as Hq. apply Forall_cons in Hne as [Hq' _]. destruct q; [done|]. by destruct qs. }
    destruct Hdot as [Hdot1 Hdot2]. destruct (decide (c' = "."%char)) as [->|Hc'].
    { rewrite Hdot1 by done. apply Hno; [done|]. intros p ps E HL Ho Hne. destruct (Hsplit p ps E Ho) as [_ Hr'].
      destruct ps as [|q qs]; [done|]. injection Hr' as Hq. apply Forall_cons in Hne as [Hq' _].
      apply Forall_cons in Ho as [_ Ho]. apply Forall_cons in Ho as [(Hqd & _) _]. destruct q as [|x q]; [done|].
      assert (x = "."%char) as -> by (destruct qs; cbn in Hq; congruence). done. }
    rewrite Hdot2 by done. case_decide as Hl3; [|case_decide as H255].
    + apply Hno; [done|]. intros p ps E _ Ho _. destruct (Hsplit p ps E Ho) as [-> _]. apply Forall_cons in Ho as [(_ & ? & _) _]. lia.
    + apply Hno; [done|]. intros p ps E _ Ho _. destruct (Hsplit p ps E Ho) as [-> _]. apply Forall_cons in Ho as [(_ & _ & ?) _]. lia.
    + destruct (IH (c' :: r) (S dots)) as (m & Em & Hm); [rewrite Es, length_app in Hf; cbn in *; lia|lia|].
      exists m. split; [exact Em|]. rewrite Hm. split.
      * intros (p & ps & E & HL & Ho & Hne). exists d, (p :: ps). rewrite Es, E. split; [done|]. split; [cbn; lia|].
        split; [constructor; [split; [done|lia]|done]|]. constructor; [|done]. intros ->. destruct ps; cbn in E; congruence.
      * intros (p & ps & E & HL & Ho & Hne). destruct (Hsplit p ps E Ho) as [-> Hr']. destruct ps as [|q qs]; [done|].
        injection Hr' as Hq. exists q, qs. apply Forall_cons in Ho as [_ Ho], Hne as [_ Hne]. split; [done|]. cbn in HL. by split; [lia|].
Qed.

(** The IPv4 matcher always answers, and it answers exact exactly for four
    numbers of up to three digits and at most 255 with three dots between them.
    Only the first number may be missing: a word such as .1.2.3 counts as an
    address. *)
Theorem match_ipv4_exact (s : cstring) :
  ∃ m, match_ipv4 s = Some m ∧
    (m = exact_match ↔ ∃ a b c d, s = a ++ "."%char :: b ++ "."%char :: c ++ "."%char :: d
       ∧ Forall octet [a; b; c; d] ∧ Forall (λ q, q ≠ []) [b; c; d]).
Proof.
  destruct (ipv4_loop_exact (S (length s)) s 0) as (m & E & H); [lia|lia|]. exists m. split; [exact E|]. rewrite H. split.
  - intros (a & ps & -> & HL & Ho & Hne). destruct ps as [|b [|c [|d [|? ?]]]]; try (cbn in HL; lia). by exists a, b, c, d.
  - intros (a & b & c & d & -> & Ho & Hne). by exists a, [b; c; d].
Qed.

(** The missing first number. *)
Example match_ipv4_leading_dot : match_ipv4 (str ".1.2.3") = Some exact_match.
Proof. reflexivity. Qed.

(** An empty word counts as a number of a range that contains zero. *)
Example match_range_empty : match_range (Token RANGE_TKN CMD_ATTR_NORMAL false [] None 0 10 None) [] = exact_match.
Proof. reflexivity. Qed.

(** ** The IPv6 matcher ends *)

Lemma step6_state s i v :
  match step6 s i v with
  | Ret6 _ => True
  | Again v' => st v = STATE_START ∧ st v' ≠ STATE_START
  | Advance v' => st v' ≠ STATE_START
  end.
Proof.
  destruct v as [state c n d p]. unfold step6. destruct state; cbn;
  repeat first [case_decide | destruct (existsb _ _)]; cbn; done.
Qed.

Lemma ipv6_loop_total fuel s : ∀ i v, length s - i + (if decide (st v = STATE_START) then 1 else 0) < fuel →
  is_Some (ipv6_loop fuel s i v).
Proof.
  induction fuel as [|fuel IH]; intros i v Hf; [lia|]. cbn [ipv6_loop].
  destruct (decide (ch s i = NUL ∨ st v = STATE_MASK)) as [Hs|Hs]; [by eexists|].
  assert (i < length s) as Hi.
  { destruct (decide (i < length s)) as [|Hge]; [done|]. exfalso. apply Hs. left. unfold ch. by rewrite lookup_ge_None_2 by lia. }
  pose proof (step6_state s i v) as P. destruct (step6 s i v) as [m|v'|v']; [by eexists| |].
  - destruct P as [E E']. apply IH. rewrite E, decide_True in Hf by done. rewrite decide_False by done. lia.
  - destruct (decide (11 < nums v' ∨ 7 < colons v')%Z); [by eexists|]. apply IH. rewrite decide_False by done.
    destruct (decide _) in Hf; lia.
Qed.

Lemma match_ipv6_total `{Inet} s prefix : is_Some (match_ipv6_prefix s prefix).
Proof.
  unfold match_ipv6_prefix. destruct (forallb _ s); [|by eexists].
  destruct (ipv6_loop_total (length s + 3) s 0 (Vars6 STATE_START 0 0 0 0)) as [r ->]; [destruct (decide _); lia|].
  obind. destruct r as [m|[i state]]; [by eexists|]. destruct prefix; [|by eexists].
  case_decide; [|by eexists]. destruct (strtoll10 (drop i s)). by eexists.
Qed.
