(* ===== verification/CommandMatch.v ===== *)
(** * Matching a command line against the command graph: lib/command_match.c

    The command graph has a token in every inner node; paths from the start
    node spell the commands, forks and joins are passed over, and behind an end
    token hangs the command itself.  Matching walks all paths at once and keeps
    the best one.

    Nodes are indices into the graph, an argument list is the matched tokens
    with their words and the command, and a null pointer is [None].  [None] as
    the result of a function is a failed assertion, a read through a bad pointer
    or a walk through forks and joins that does not end. *)
From Stdlib Require Import Ascii String.
From stdpp Require Import prelude list.
From S2P Require Import Prelude CString Prefix PrefixText TokenMatch.
Set Default Goal Selector "!".

Inductive node_data := Tok (t : cmd_token) | Element (e : nat).
Record graph_node := Node { ndata : node_data; to : list nat }.
Abbreviation graph := (list graph_node).

Definition token_at (g : graph) (i : nat) : option cmd_token :=
  n ← g !! i; match ndata n with Tok t => Some t | Element _ => None end.

Inductive matcher_rv := MATCHER_NO_MATCH | MATCHER_INCOMPLETE | MATCHER_AMBIGUOUS | MATCHER_OK.

#[export] Instance matcher_rv_eq_dec : EqDecision matcher_rv.
Proof. solve_decision. Defined.

Definition rv_rank (m : matcher_rv) : nat :=
  match m with MATCHER_NO_MATCH => 0 | MATCHER_INCOMPLETE => 1 | MATCHER_AMBIGUOUS => 2 | MATCHER_OK => 3 end.
Definition rv_max (a b : matcher_rv) : matcher_rv := if decide (rv_rank b < rv_rank a) then a else b.

Definition CMD_ARGC_MAX : nat := 256.

Definition special (t : cmd_token_type) : bool :=
  match t with FORK_TKN | JOIN_TKN | START_TKN | END_TKN => true | _ => false end.

(** The next tokens, forks and joins passed over. With a stack, tokens on it
    that must not repeat are left out. The fuel is the depth of forks. *)
Fixpoint add_nexthops (fuel : nat) (g : graph) (stack : option (list nat)) (node : nat) : option (list nat) :=
  match fuel with
  | 0 => None
  | S fuel =>
      n ← g !! node;
      (fix children (l : list nat) : option (list nat) :=
         match l with
         | [] => Some []
         | child :: l =>
             token ← token_at g child;
             here ← (if negb (allowrepeat token) && bool_decide (child ∈ default [] stack) then Some []
                     else if special (type token) && bool_decide (type token ≠ END_TKN)
                     then add_nexthops fuel g stack child
                     else Some [child]);
             rest ← children l;
             Some (here ++ rest)
         end) (to n)
  end.

Definition nexthops (g : graph) (stack : option (list nat)) (node : nat) : option (list nat) :=
  add_nexthops (S (length g)) g stack node.

Abbreviation arglist := (list (cmd_token * cstring) * nat)%type.

Section matching.
Context `{Inet} (g : graph).

(** The better of two tokens: the first ([true]), the second, or neither. *)
Definition disambiguate_tokens (first second : cmd_token) (input_token : option cstring) : option (option bool) :=
  if decide (type first ≠ type second) then
    let firstprec := score_precedence (type first) in
    let secndprec := score_precedence (type second) in
    Some (if decide (firstprec ≠ secndprec) then Some (bool_decide (firstprec < secndprec)) else None)
  else
    fmtype ← match_token first input_token;
    smtype ← match_token second input_token;
    Some (if decide (fmtype ≠ smtype) then Some (bool_decide (match_rank smtype < match_rank fmtype)) else None).

Fixpoint disambiguate_loop (first second : list (cmd_token * cstring)) (vline : list (option cstring)) :
    option (option bool) :=
  match vline, first, second with
  | [], _, _ => Some None
  | token :: vline, (ftok, _) :: first, (stok, _) :: second =>
      best ← disambiguate_tokens ftok stok token;
      match best with
      | Some b => Some (Some b)
      | None => disambiguate_loop first second vline
      end
  | _, _, _ => None
  end.

(** [vline] is the part of the line from [n] on. *)
Definition disambiguate (first second : arglist) (vline : list (option cstring)) : option (option bool) :=
  if decide (length first.1 = length second.1 ∧ length first.1 = length vline)
  then disambiguate_loop first.1 second.1 vline else None.

(** The loop over the follow set when all input is used up: an end token is
    wanted, and only one. *)
Fixpoint scan_end (next : list nat) (status : matcher_rv) (currbest : option arglist) :
    option (matcher_rv * option arglist) :=
  match next with
  | [] => Some (status, currbest)
  | gn :: next =>
      tok ← token_at g gn;
      if decide (type tok = END_TKN) then
        match currbest with
        | Some _ => Some (MATCHER_AMBIGUOUS, currbest)
        | None =>
            n ← g !! gn;
            leaf ← head (to n);
            l ← g !! leaf;
            match ndata l with
            | Element el => scan_end next MATCHER_OK (Some ([], el))
            | Tok _ => None
            end
        end
      else scan_end next status currbest
  end.

(** Keep the best of the current best match and a child's result. *)
Definition keep_best (vline : list (option cstring)) (status : matcher_rv) (currbest : option arglist)
    (rstat : matcher_rv) (result : option arglist) : option (matcher_rv * option arglist) :=
  match result, currbest with
  | Some r, Some b =>
      newbest ← disambiguate b r vline;
      Some match newbest with
           | None => (MATCHER_AMBIGUOUS, Some b)
           | Some true => (if decide (status = MATCHER_AMBIGUOUS) then MATCHER_AMBIGUOUS else MATCHER_OK, Some b)
           | Some false => (if decide (rstat = MATCHER_AMBIGUOUS) then MATCHER_AMBIGUOUS else MATCHER_OK, Some r)
           end
  | Some r, None => Some (rstat, Some r)
  | None, None => Some (rv_max rstat status, None)
  | None, Some b => Some (status, Some b)
  end.

(** The loop over the follow set when input is left: [sub] is the recursive
    call. *)
Fixpoint scan_next (sub : nat → option (matcher_rv * option arglist)) (vline : list (option cstring))
    (next : list nat) (status : matcher_rv) (currbest : option arglist) : option (matcher_rv * option arglist) :=
  match next with
  | [] => Some (status, currbest)
  | gn :: next =>
      '(rstat, result) ← sub gn;
      '(status, currbest) ← keep_best vline status currbest rstat result;
      scan_next sub vline next status currbest
  end.

(** [stack] holds the nodes of the path so far, so its length is [n]. *)
Fixpoint command_match_r (vline : list (option cstring)) (stack : list nat) (start : nat) :
    option (matcher_rv * option arglist) :=
  match vline with
  | [] => None
  | input_token :: rest =>
      token ← token_at g start;
      if decide (length stack = CMD_ARGC_MAX) then Some (MATCHER_NO_MATCH, None)
      else if negb (allowrepeat token) && bool_decide (start ∈ stack) then Some (MATCHER_NO_MATCH, None)
      else
        mt ← match_token token input_token;
        if decide (match_rank mt < match_rank (min_match_level (type token))) then Some (MATCHER_NO_MATCH, None)
        else
          next ← nexthops g None start;
          '(status, currbest) ←
            match rest with
            | [] => scan_end next MATCHER_NO_MATCH None
            | _ => scan_next (command_match_r rest (stack ++ [start])) rest next MATCHER_NO_MATCH None
            end;
          match currbest with
          | Some (args, el) => arg ← input_token; Some (status, Some ((token, arg) :: args, el))
          | None =>
              Some (if decide (rest = [] ∧ status = MATCHER_NO_MATCH) then MATCHER_INCOMPLETE else status, None)
          end
  end.

(** The start node swallows a dummy word; the argument list is returned only
    for a successful match. *)
Definition command_match (vline : list (option cstring)) : option (matcher_rv * option arglist) :=
  '(status, argv) ← command_match_r (Some (str "dummy") :: vline) [] 0;
  if decide (status = MATCHER_OK) then
    '(args, el) ← argv;
    match args with
    | [] => None
    | _ :: args => Some (status, Some (args, el))
    end
  else Some (status, None).

(** ** Completion

    The candidates after some words are stacks: the node reached and, behind
    it, the nodes on the way. *)

(** Does a candidate match exactly; the search stops at the first. *)
Fixpoint exact_match_exists (current : list (list nat)) (input_token : option cstring) : option bool :=
  match current with
  | [] => Some false
  | gstack :: current =>
      node ← head gstack; token ← token_at g node; m ← match_token token input_token;
      if decide (m = exact_match) then Some true else exact_match_exists current input_token
  end.

(** What one candidate contributes to the next ones. *)
Definition complete_one (input_token : option cstring) (last_token exact : bool) (gstack : list nat) :
    option (list (list nat)) :=
  node ← head gstack;
  token ← token_at g node;
  if decide (attr token = CMD_ATTR_HIDDEN ∨ attr token = CMD_ATTR_DEPRECATED) then Some []
  else
    matchtype ← match_token token input_token;
    match matchtype with
    | trivial_match => if last_token then Some [[node]] else None
    | no_match => Some []
    | _ =>
        if bool_decide (matchtype = partly_match) && exact && negb last_token then Some []
        else if last_token then Some [[node]]
        else if decide (match_rank (min_match_level (type token)) ≤ match_rank matchtype) then
          next ← nexthops g (Some gstack) node; Some (map (λ c, c :: gstack) next)
        else Some []
    end.

Fixpoint complete_all (input_token : option cstring) (last_token exact : bool) (current : list (list nat)) :
    option (list (list nat)) :=
  match current with
  | [] => Some []
  | gstack :: current =>
      here ← complete_one input_token last_token exact gstack;
      rest ← complete_all input_token last_token exact current;
      Some (here ++ rest)
  end.

(** The loop over the line: it ends early when no candidate is left; the rest
    of the line is returned with the candidates. *)
Fixpoint complete_loop (vline : list (option cstring)) (next : list (list nat)) :
    option (list (option cstring) * list (list nat)) :=
  match vline with
  | [] => Some ([], next)
  | input_token :: rest =>
      match next with
      | [] => Some (vline, [])
      | _ =>
          exact ← exact_match_exists next input_token;
          next ← complete_all input_token (bool_decide (rest = [])) exact next;
          complete_loop rest next
      end
  end.

Definition command_complete (vline : list (option cstring)) : option (matcher_rv * list cmd_token) :=
  first ← nexthops g (Some []) 0;
  '(unread, next) ← complete_loop vline (map (λ c, [c]) first);
  if decide (unread = [] ∧ next ≠ []) then
    completions ← mapM (λ gstack, node ← head gstack; token_at g node) next;
    Some (MATCHER_OK, completions)
  else Some (MATCHER_NO_MATCH, []).
End matching.

(** ** What a match is *)

Section matches.
Context `{Inet} (g : graph).

(** A word passes a token at the end of a path. *)
Definition passes (stack : list nat) (node : nat) (token : cmd_token) (w : cstring) : bool :=
  bool_decide (length stack ≠ CMD_ARGC_MAX) && (allowrepeat token || bool_decide (node ∉ stack))
  && match match_token token (Some w) with
     | Some mt => bool_decide (match_rank (min_match_level (type token)) ≤ match_rank mt)
     | None => false
     end.

(** The command behind an end token, as a list of at most one. *)
Definition end_command (node : nat) : list nat :=
  match token_at g node, g !! node with
  | Some t, Some n =>
      if decide (type t = END_TKN) then
        match head (to n) ≫= (g !!.) with
        | Some l => match ndata l with Element el => [el] | Tok _ => [] end
        | None => []
        end
      else []
  | _, _ => []
  end.

(** All ways to read the line as a command from [node] on, one for every path
    of the graph: the tokens with their words, and the command. *)
Fixpoint matches (line : list (option cstring)) (stack : list nat) (node : nat) : list arglist :=
  match line, token_at g node with
  | Some w :: rest, Some token =>
      if passes stack node token w then
        let next := default [] (nexthops g None node) in
        match rest with
        | [] => map (λ el, ([(token, w)], el)) (flat_map end_command next)
        | _ => map (λ m, ((token, w) :: m.1, m.2)) (flat_map (matches rest (stack ++ [node])) next)
        end
      else []
  | _, _ => []
  end.

(** The line is the beginning of a command: its words pass the tokens of a
    path. *)
Fixpoint spells (line : list (option cstring)) (stack : list nat) (node : nat) : bool :=
  match line, token_at g node with
  | Some w :: rest, Some token =>
      passes stack node token w
      && match rest with
         | [] => true
         | _ => existsb (spells rest (stack ++ [node])) (default [] (nexthops g None node))
         end
  | _, _ => false
  end.

(** How good a reading is: addresses and numbers before words before variables,
    an exact word before an abbreviation; the first difference decides. *)
Definition cost (a : cmd_token * cstring) : nat :=
  2 * score_precedence (type a.1) + (if decide (match_token a.1 (Some a.2) = Some exact_match) then 0 else 1).
Definition compare_matches (m m' : arglist) : comparison :=
  list_compare Nat.compare (map cost m.1) (map cost m'.1).

(** The readings no other is better than. *)
Definition best_matches (all : list arglist) : list arglist :=
  filter (λ m, Forall (λ m', compare_matches m m' ≠ Gt) all) all.

Lemma nat_compare_trans x y z c : Nat.compare x y = c → Nat.compare y z = c → Nat.compare x z = c.
Proof. destruct (Nat.compare_spec x y), (Nat.compare_spec y z), (Nat.compare_spec x z); intros; subst; try done; lia. Qed.

Lemma compare_sym m m' : compare_matches m' m = CompOpp (compare_matches m m').
Proof. apply list_compare_antisym; [apply Nat.compare_eq_iff|intros; apply Nat.compare_antisym]. Qed.

Lemma compare_refl m : compare_matches m m = Eq.
Proof. by apply list_compare_refl; [apply Nat.compare_eq_iff|]. Qed.

Lemma compare_eq m m' : compare_matches m m' = Eq → ∀ x, compare_matches m' x = compare_matches m x.
Proof. intros E x. apply list_compare_refl in E; [|apply Nat.compare_eq_iff]. unfold compare_matches. by rewrite E. Qed.

Lemma compare_lt m m' x : compare_matches m m' = Lt → compare_matches m' x ≠ Gt → compare_matches m x = Lt.
Proof.
  intros E Hx. destruct (compare_matches m' x) eqn:Ex; [| |done].
  - rewrite compare_sym, (compare_eq _ _ Ex m), <- compare_sym. done.
  - eapply list_compare_trans; [apply Nat.compare_eq_iff|apply nat_compare_trans|intros; apply Nat.compare_antisym|exact E|exact Ex].
Qed.
End matches.

(** ** The matcher finds the best reading *)

Section correct.
Context `{Inet} (g : graph).

(** The result of a search among the readings [l]: the best of them so far and
    whether another one is as good; [sp] tells whether the line can go on. *)
Definition outcome (l : list arglist) (sp : bool) (status : matcher_rv) (best : option arglist) : Prop :=
  match best with
  | Some b =>
      b ∈ l ∧ (∀ m, m ∈ l → compare_matches b m ≠ Gt)
      ∧ status = if decide (2 ≤ length (filter (λ m, compare_matches b m = Eq) l)) then MATCHER_AMBIGUOUS else MATCHER_OK
  | None => l = [] ∧ status = if sp then MATCHER_INCOMPLETE else MATCHER_NO_MATCH
  end.

(** A reading of a line: its tokens accept the words. *)
Definition reads (line : list (option cstring)) (m : arglist) : Prop :=
  Forall2 (λ a w, w = Some a.2 ∧ ∃ mt, match_token a.1 (Some a.2) = Some mt
                    ∧ match_rank (min_match_level (type a.1)) ≤ match_rank mt) m.1 line.

Lemma passes_match stack node token w : passes stack node token w = true →
  ∃ mt, match_token token (Some w) = Some mt ∧ match_rank (min_match_level (type token)) ≤ match_rank mt.
Proof.
  unfold passes. rewrite !andb_true_iff. intros [_ Hm]. destruct (match_token token (Some w)) as [mt|]; [|done].
  exists mt. split; [done|]. by apply bool_decide_eq_true in Hm.
Qed.

Lemma matches_read line : ∀ stack node m, m ∈ matches g line stack node → reads line m.
Proof.
  induction line as [|w rest IH]; intros stack node m; cbn [matches]; [by intros ?%elem_of_nil|].
  destruct w as [w|]; [|by intros ?%elem_of_nil]. destruct (token_at g node) as [t|]; [|by intros ?%elem_of_nil].
  destruct (passes stack node t w) eqn:Ep; [|by intros ?%elem_of_nil]. apply passes_match in Ep. destruct rest as [|w2 rest].
  - intros (el & -> & _)%list_elem_of_fmap. by constructor; [|constructor].
  - intros (m' & -> & Hm)%list_elem_of_fmap. apply list_elem_of_In, in_flat_map in Hm as (c & _ & Hm).
    constructor; [done|]. by eapply IH, list_elem_of_In.
Qed.

(** Tokens that accept a word are compared by their cost. *)
Definition verdict (c : comparison) : option bool :=
  match c with Lt => Some true | Gt => Some false | Eq => None end.

Lemma special_match t w : special (type t) = true → match_token t (Some w) = Some no_match.
Proof. unfold match_token. by destruct (type t). Qed.

Lemma disambiguate_tokens_spec f s w mf ms :
  match_token f (Some w) = Some mf → match_rank (min_match_level (type f)) ≤ match_rank mf →
  match_token s (Some w) = Some ms → match_rank (min_match_level (type s)) ≤ match_rank ms →
  disambiguate_tokens f s (Some w) = Some (verdict (Nat.compare (cost (f, w)) (cost (s, w)))).
Proof.
  intros Ef Hf Es Hs. pose proof (special_match f w) as Sf. pose proof (special_match s w) as Ss.
  unfold disambiguate_tokens, cost. cbn [fst snd]. rewrite Ef, Es in *. obind.
  clear Ef Es. destruct (type f), (type s); cbn in *;
    repeat match goal with E : true = true → Some _ = Some _ |- _ => specialize (E eq_refl); injection E as -> end;
    try destruct mf; try destruct ms; cbn in *; try lia; reflexivity.
Qed.

Lemma disambiguate_spec line b r : reads line b → reads line r →
  disambiguate b r line = Some (verdict (compare_matches b r)).
Proof.
  unfold reads, disambiguate, compare_matches. destruct b as [ab eb], r as [ar er]. cbn [fst]. intros Hb Hr.
  pose proof (Forall2_length _ _ _ Hb). pose proof (Forall2_length _ _ _ Hr). rewrite decide_True by lia. clear H0 H1.
  revert ar Hr. induction Hb as [|[f w] ow ab line [-> (mf & Ef & Hf)] Hb IH]; intros ar Hr; [by inversion Hr; subst|].
  inversion Hr as [|[s w'] ? ar' ? [Ew (ms & Es & Hs)] Hr']; subst. cbn [fst snd] in *. injection Ew as <-.
  cbn [disambiguate_loop map list_compare]. rewrite (disambiguate_tokens_spec f s w mf ms) by done. obind.
  destruct (Nat.compare (cost (f, w)) (cost (s, w))); cbn [verdict]; [by apply IH|done|done].
Qed.

Lemma keep_best_spec line l1 sp1 status best l2 sp2 rstat result :
  (∀ m, m ∈ l1 ++ l2 → reads line m) → outcome l1 sp1 status best → outcome l2 sp2 rstat result →
  ∃ st' b', keep_best line status best rstat result = Some (st', b') ∧ outcome (l1 ++ l2) (sp1 || sp2) st' b'.
Proof.
  intros Hr H1 H2. unfold keep_best. destruct result as [r|], best as [b|].
  - destruct H1 as (Hb1 & Hb2 & Hs1), H2 as (Hr1 & Hr2 & Hs2).
    rewrite (disambiguate_spec line b r) by (apply Hr, elem_of_app; tauto). obind.
    assert (compare_matches r b = CompOpp (compare_matches b r)) as Ec' by apply compare_sym.
    destruct (compare_matches b r) eqn:Ec; cbn [verdict CompOpp] in Ec' |- *; do 2 eexists; (split; [reflexivity|]); cbn [outcome];
      (split; [apply elem_of_app; tauto|]); (split; [intros m [Hm|Hm]%elem_of_app|]); rewrite ?filter_app, ?length_app.
    + by apply Hb2.
    + rewrite <- (compare_eq b r Ec). by apply Hr2.
    + pose proof (filter_member (λ m, compare_matches b m = Eq) l1 b Hb1 (compare_refl b)).
      pose proof (filter_member (λ m, compare_matches b m = Eq) l2 r Hr1 Ec). rewrite decide_True by lia. done.
    + by apply Hb2.
    + rewrite (compare_lt b r m) by auto. done.
    + rewrite (filter_none _ l2), Nat.add_0_r; [subst status; by repeat case_decide|].
      intros m Hm. rewrite (compare_lt b r m) by auto. done.
    + rewrite (compare_lt r b m) by auto. done.
    + by apply Hr2.
    + rewrite (filter_none _ l1); [cbn [length Nat.add]; subst rstat; by repeat case_decide|].
      intros m Hm. rewrite (compare_lt r b m) by auto. done.
  - destruct H1 as [-> _]. by do 2 eexists.
  - destruct H2 as [-> _]. rewrite app_nil_r. by do 2 eexists.
  - destruct H1 as [-> ->], H2 as [-> ->]. do 2 eexists. split; [reflexivity|]. split; [done|]. by destruct sp1, sp2.
Qed.

Lemma scan_next_spec sub line next Q S : ∀ l sp status best,
  (∀ c, c ∈ next → ∃ r b, sub c = Some (r, b) ∧ outcome (Q c) (S c) r b) →
  (∀ c m, m ∈ Q c → reads line m) → (∀ m, m ∈ l → reads line m) → outcome l sp status best →
  ∃ st' b', scan_next sub line next status best = Some (st', b')
    ∧ outcome (l ++ flat_map Q next) (sp || existsb S next) st' b'.
Proof.
  induction next as [|c next IH]; intros l sp status best Hsub HQ Hl Ho; cbn [scan_next flat_map existsb].
  { rewrite app_nil_r, orb_false_r. by do 2 eexists. }
  destruct (Hsub c) as (r & b & -> & Hc); [by left|]. obind.
  assert (∀ m, m ∈ l ++ Q c → reads line m) as Hl' by (intros m [?|?]%elem_of_app; [by apply Hl|by eapply HQ]).
  destruct (keep_best_spec line l sp status best (Q c) (S c) r b Hl' Ho Hc) as (st1 & b1 & -> & Ho1). obind.
  rewrite app_assoc, orb_assoc. apply IH; [intros c' Hc'; apply Hsub; by right|done|done|done].
Qed.

Lemma compare_nil m m' : m.1 = [] → m'.1 = [] → compare_matches m m' = Eq.
Proof. unfold compare_matches. by intros -> ->. Qed.

(** Putting the current token before every reading changes nothing. *)
Definition prepend (a : cmd_token * cstring) (m : arglist) : arglist := (a :: m.1, m.2).

Lemma compare_prepend a m m' : compare_matches (prepend a m) (prepend a m') = compare_matches m m'.
Proof. unfold compare_matches, prepend. cbn [fst map]. apply list_compare_cons. apply Nat.compare_eq_iff. Qed.

Lemma outcome_prepend a l sp sp' status b : outcome l sp status (Some b) →
  outcome (map (prepend a) l) sp' status (Some (prepend a b)).
Proof.
  intros (Hb & Hm & ->). split; [by apply list_elem_of_fmap_2|]. split.
  - intros m (m' & -> & Hm')%list_elem_of_fmap. rewrite compare_prepend. by apply Hm.
  - replace (length (filter (λ m, compare_matches (prepend a b) m = Eq) (map (prepend a) l)))
      with (length (filter (λ m, compare_matches b m = Eq) l)); [done|].
    clear Hb Hm. induction l as [|m l IH]; [done|]. cbn [map]. rewrite !filter_cons, compare_prepend.
    destruct (decide (compare_matches b m = Eq)); cbn [length]; by rewrite IH.
Qed.

(** A well-formed command graph: a token that does not end a command is
    followed by tokens, an end token by a command, and walks through forks and
    joins end. *)
Definition node_ok (i : nat) : bool :=
  match token_at g i, g !! i with
  | Some t, Some n =>
      (if decide (type t = END_TKN) then
         match head (to n) with
         | Some leaf => match g !! leaf with Some l => if ndata l is Element _ then true else false | None => false end
         | None => false
         end
       else forallb (λ c, bool_decide (is_Some (token_at g c))) (to n))
      && bool_decide (type t = END_TKN ∨ is_Some (nexthops g None i))
  | _, _ => true
  end.

Definition graph_ok : Prop :=
  is_Some (token_at g 0) ∧ (type <$> token_at g 0) ≠ Some END_TKN ∧ forallb node_ok (seq 0 (length g)) = true.

(** Every token of the graph has an answer for every word of the line. *)
Definition words_ok (line : list (option cstring)) : Prop :=
  ∀ i t w, w ∈ line → token_at g i = Some t → is_Some (match_token t w).

Context (Hg : graph_ok).

Lemma node_ok_at i t : token_at g i = Some t → node_ok i = true.
Proof.
  intros Ht. destruct Hg as (_ & _ & Hall). rewrite forallb_forall in Hall. apply Hall, in_seq.
  unfold token_at in Ht. destruct (g !! i) as [n|] eqn:E; [|done]. apply lookup_lt_Some in E. lia.
Qed.

Lemma end_ok i t : token_at g i = Some t → type t = END_TKN →
  ∃ n leaf l el, g !! i = Some n ∧ head (to n) = Some leaf ∧ g !! leaf = Some l ∧ ndata l = Element el
    ∧ end_command g i = [el].
Proof.
  intros Ht He. pose proof (node_ok_at i t Ht) as Hok. unfold node_ok in Hok. unfold end_command. rewrite Ht in Hok |- *.
  destruct (g !! i) as [n|] eqn:En; [|by unfold token_at in Ht; rewrite En in Ht].
  rewrite !decide_True in * by done. apply andb_true_iff in Hok as [Hok _].
  destruct (head (to n)) as [leaf|] eqn:El; [|done]. obind. destruct (g !! leaf) as [l|] eqn:Ell; [|done].
  destruct (ndata l) as [|el] eqn:Ed; [done|]. by exists n, leaf, l, el.
Qed.

Lemma nexthops_total i t : token_at g i = Some t → type t ≠ END_TKN → is_Some (nexthops g None i).
Proof.
  intros Ht He. pose proof (node_ok_at i t Ht) as Hok. unfold node_ok in Hok. rewrite Ht in Hok.
  destruct (g !! i) as [n|] eqn:En; [|by unfold token_at in Ht; rewrite En in Ht].
  apply andb_true_iff in Hok as [_ Hok]. apply bool_decide_eq_true in Hok as [?|?]; done.
Qed.

(** Next tokens are tokens. *)
Lemma add_nexthops_tokens fuel : ∀ stack i l c, add_nexthops fuel g stack i = Some l → c ∈ l →
  ∃ t, token_at g c = Some t ∧ (special (type t) = true → type t = END_TKN).
Proof.
  induction fuel as [|fuel IH]; intros stack i l c; [done|]. cbn [add_nexthops].
  destruct (g !! i) as [n|]; [|done]. obind. revert l. induction (to n) as [|child cs IHc]; intros l.
  { intros [= <-] Hc. by apply elem_of_nil in Hc. }
  destruct (token_at g child) as [t|] eqn:Et; [|done]. obind.
  destruct (if negb _ && _ then _ else _) as [here|] eqn:Eh; [|done]. obind.
  match goal with |- context [?f cs ≫= _] => destruct (f cs) as [rest|] eqn:Er; [|done] end.
  obind. intros [= <-] Hc. apply elem_of_app in Hc as [Hc|Hc]; [|by apply (IHc rest)].
  destruct (negb (allowrepeat t) && _); [injection Eh as <-; by apply elem_of_nil in Hc|].
  destruct (special (type t)) eqn:Es; cbn [andb] in Eh.
  - destruct (bool_decide (type t ≠ END_TKN)) eqn:Ee; [by eapply IH|].
    injection Eh as <-. apply list_elem_of_singleton in Hc as ->. exists t. split; [done|]. intros _.
    apply bool_decide_eq_false in Ee. by destruct (decide (type t = END_TKN)).
  - injection Eh as <-. apply list_elem_of_singleton in Hc as ->. exists t. split; [done|]. by rewrite Es.
Qed.

Lemma scan_end_spec next : ∀ l status best, (∀ c, c ∈ next → is_Some (token_at g c)) →
  outcome l false status best → (∀ m, m ∈ l → m.1 = []) →
  ∃ st' b', scan_end g next status best = Some (st', b')
    ∧ outcome (l ++ map (λ el, ([], el)) (flat_map (end_command g) next)) false st' b'.
Proof.
  induction next as [|c next IH]; intros l status best Hn Ho Hl; cbn [scan_end flat_map map].
  { rewrite app_nil_r. by do 2 eexists. }
  destruct (Hn c ltac:(left)) as [t Ht]. rewrite Ht. obind.
  assert (∀ c, c ∈ next → is_Some (token_at g c)) as Hn' by (intros; apply Hn; by right).
  destruct (decide (type t = END_TKN)) as [He|He].
  2: { replace (end_command g c) with (@nil nat); [by apply IH|]. unfold end_command. rewrite Ht.
       destruct (g !! c); [|done]. by rewrite decide_False. }
  destruct (end_ok c t Ht He) as (n & leaf & d & el & En & Eh & Ed & Ee & ->). destruct best as [b|].
  - do 2 eexists. split; [reflexivity|]. destruct Ho as (Hb & _ & _).
    set (all := l ++ _). assert (∀ m, m ∈ all → compare_matches b m = Eq) as Hall.
    { intros m [Hm|Hm]%elem_of_app; apply compare_nil; auto. by apply list_elem_of_fmap in Hm as (? & -> & _). }
    split; [apply elem_of_app; by left|]. split; [intros m Hm; by rewrite (Hall m Hm)|].
    rewrite filter_all by done. unfold all. rewrite length_app. cbn [app map length]. destruct l; [by apply elem_of_nil in Hb|].
    cbn [length]. rewrite decide_True by lia. done.
  - destruct Ho as [-> _]. rewrite En. obind. rewrite Eh. obind. rewrite Ed. obind.
    rewrite Ee. apply (IH [([], el)]); [done| |by intros m ->%list_elem_of_singleton].
    split; [by left|]. split; [intros m ->%list_elem_of_singleton; by rewrite compare_refl|].
    rewrite filter_all by (intros m ->%list_elem_of_singleton; apply compare_refl). done.
Qed.

(** A refused word: no reading, and the line is not the beginning of one. *)
Lemma refused_spec w rest stack start t : token_at g start = Some t →
  (∀ w', w = Some w' → passes stack start t w' = false) →
  outcome (matches g (w :: rest) stack start) (spells g (w :: rest) stack start) MATCHER_NO_MATCH None.
Proof.
  intros Ht Hp. unfold outcome. cbn [matches spells]. destruct w as [w|]; [|done]. rewrite Ht, (Hp w eq_refl). done.
Qed.

(** The three tests of the matcher together are [passes]. *)
Lemma passes_spec stack start t w mt : match_token t (Some w) = Some mt →
  passes stack start t w =
    bool_decide (length stack ≠ CMD_ARGC_MAX) && negb (negb (allowrepeat t) && bool_decide (start ∈ stack))
    && negb (bool_decide (match_rank mt < match_rank (min_match_level (type t)))).
Proof.
  intros Em. unfold passes. rewrite Em. f_equal; [f_equal|].
  - rewrite bool_decide_not. by destruct (allowrepeat t), (bool_decide (start ∈ stack)).
  - rewrite <- bool_decide_not. apply bool_decide_ext. lia.
Qed.

Lemma command_match_r_spec line : ∀ stack start t, line ≠ [] → words_ok line → token_at g start = Some t →
  ∃ status best, command_match_r g line stack start = Some (status, best)
    ∧ outcome (matches g line stack start) (spells g line stack start) status best.
Proof.
  induction line as [|w rest IH]; intros stack start t Hne Hw Ht; [done|]. cbn [command_match_r]. rewrite Ht. obind.
  destruct (Hw start t w ltac:(left) Ht) as [mt Em]. rewrite Em. obind.
  assert (∀ w', w = Some w' → match_token t (Some w') = Some mt) as Em' by (by intros w' ->).
  destruct (decide (length stack = CMD_ARGC_MAX)) as [Hmax|Hmax].
  { do 2 eexists. split; [reflexivity|]. apply (refused_spec _ _ _ _ t Ht). intros w' E.
    by rewrite (passes_spec _ _ _ _ _ (Em' w' E)), (bool_decide_eq_false_2 (length stack ≠ CMD_ARGC_MAX)) by tauto. }
  destruct (negb (allowrepeat t) && bool_decide (start ∈ stack)) eqn:Erep.
  { do 2 eexists. split; [reflexivity|]. apply (refused_spec _ _ _ _ t Ht). intros w' E.
    by rewrite (passes_spec _ _ _ _ _ (Em' w' E)), Erep, andb_false_r. }
  destruct (decide (match_rank mt < match_rank (min_match_level (type t)))) as [Hlt|Hge].
  { do 2 eexists. split; [reflexivity|]. apply (refused_spec _ _ _ _ t Ht). intros w' E.
    by rewrite (passes_spec _ _ _ _ _ (Em' w' E)), (bool_decide_eq_true_2 (_ < _)), andb_false_r. }
  destruct w as [w|]; [|injection Em as <-; destruct (type t); cbn in Hge; lia].
  assert (type t ≠ END_TKN) as Hend.
  { intros He. rewrite special_match in Em by (by rewrite He). injection Em as <-. rewrite He in Hge. cbn in Hge. lia. }
  assert (passes stack start t w = true) as Hp.
  { by rewrite (passes_spec _ _ _ _ _ Em), Erep, (bool_decide_eq_false_2 (_ < _)), (bool_decide_eq_true_2 (_ ≠ _)). }
  destruct (nexthops_total start t Ht Hend) as [next En]. rewrite En. obind.
  assert (∀ c, c ∈ next → is_Some (token_at g c)) as Hnext.
  { intros c Hc. destruct (add_nexthops_tokens _ _ _ _ _ En Hc) as (t' & Ht' & _). by eexists. }
  assert (words_ok rest) as Hw' by (intros i t' w' Hin; apply Hw; by right).
  set (l := match rest with [] => map (λ el, ([], el)) (flat_map (end_command g) next)
                          | _ => flat_map (matches g rest (stack ++ [start])) next end).
  set (sp := match rest with [] => false | _ => existsb (spells g rest (stack ++ [start])) next end).
  assert (matches g (Some w :: rest) stack start = map (prepend (t, w)) l) as ->.
  { cbn [matches]. rewrite Ht, Hp, En. cbn [default]. subst l. destruct rest; [by rewrite map_map|done]. }
  assert (spells g (Some w :: rest) stack start = match rest with [] => true | _ => sp end) as ->.
  { cbn [spells]. rewrite Ht, Hp, En. subst sp. by destruct rest. }
  assert (∃ st1 b1, match rest with
                    | [] => scan_end g next MATCHER_NO_MATCH None
                    | _ => scan_next (command_match_r g rest (stack ++ [start])) rest next MATCHER_NO_MATCH None
                    end = Some (st1, b1) ∧ outcome l sp st1 b1) as (st1 & b1 & -> & Ho).
  { subst l sp. destruct rest as [|w2 rest]; [by apply (scan_end_spec next []); [| |intros m ?%elem_of_nil]|].
    apply (scan_next_spec _ _ _ _ _ [] false); [|intros c m; apply matches_read|by intros m ?%elem_of_nil|done].
    intros c Hc. destruct (Hnext c Hc) as [t' Ht']. by apply (IH (stack ++ [start]) c t'). }
  obind. destruct b1 as [[args el]|].
  - obind. do 2 eexists. split; [reflexivity|]. by apply (outcome_prepend (t, w)) with (sp := sp) (b := (args, el)).
  - destruct Ho as [-> ->]. do 2 eexists. split; [reflexivity|]. split; [done|]. subst sp. destruct rest; [by rewrite decide_True|].
    rewrite decide_False by (by intros [? _]). done.
Qed.

Lemma best_matches_spec l b : b ∈ l → (∀ m, m ∈ l → compare_matches b m ≠ Gt) →
  best_matches l = filter (λ m, compare_matches b m = Eq) l.
Proof.
  intros Hb Hmin. unfold best_matches.
  assert (∀ m, m ∈ l → (Forall (λ m', compare_matches m m' ≠ Gt) l ↔ compare_matches b m = Eq)) as Hiff.
  { intros m Hm. rewrite Forall_forall. split.
    - intros Hall. specialize (Hall b Hb). rewrite compare_sym in Hall. specialize (Hmin m Hm). by destruct (compare_matches b m).
    - intros E m' Hm'. rewrite (compare_eq b m E). by apply Hmin. }
  by apply filter_in_iff.
Qed.

(** *** Every line gets an answer *)

Lemma matches_element line : ∀ stack node m, m ∈ matches g line stack node → ∃ i n, g !! i = Some n ∧ ndata n = Element m.2.
Proof.
  induction line as [|w rest IH]; intros stack node m; cbn [matches]; [by intros ?%elem_of_nil|].
  destruct w as [w|]; [|by intros ?%elem_of_nil]. destruct (token_at g node) as [t|]; [|by intros ?%elem_of_nil].
  destruct (passes stack node t w); [|by intros ?%elem_of_nil]. destruct rest as [|w2 rest].
  - intros (el & -> & Hel)%list_elem_of_fmap. apply list_elem_of_In, in_flat_map in Hel as (c & _ & Hel). unfold end_command in Hel.
    destruct (token_at g c), (g !! c) as [n|]; try done. destruct (decide _) as [Hd|]; [|done]. destruct (head (to n)) as [leaf|]; [|done].
    cbn in Hel. destruct (g !! leaf) as [l|] eqn:El; [|done]. destruct (ndata l) as [|e'] eqn:Ed; [done|]. destruct Hel as [->|[]]. by exists leaf, l.
  - intros (m' & -> & Hm)%list_elem_of_fmap. apply list_elem_of_In, in_flat_map in Hm as (c & _ & Hm). cbn. by eapply IH, list_elem_of_In.
Qed.

Lemma command_match_total line : words_ok (Some (str "dummy") :: line) →
  ∃ st r, command_match g line = Some (st, r)
    ∧ match st with MATCHER_OK => ∃ args el i n, r = Some (args, el) ∧ g !! i = Some n ∧ ndata n = Element el | _ => True end.
Proof.
  intros Hw. destruct Hg as ([t Ht] & _ & _). destruct (command_match_r_spec (Some (str "dummy") :: line) [] 0 t) as (st & best & E & Ho); [done|done|done|].
  unfold command_match. rewrite E. obind. destruct (decide (st = MATCHER_OK)) as [->|Hst]; [|do 2 eexists; split; [reflexivity|by destruct st]].
  destruct best as [b|]; [|by destruct Ho as [_ Hs]; destruct (spells _ _ _ _)]. destruct Ho as (Hb & _ & _).
  apply matches_read in Hb as Hr. apply matches_element in Hb as (i & n & Hi & Hn). destruct b as [args el]. unfold reads in Hr. cbn [fst snd] in *.
  apply Forall2_cons_inv_r in Hr as (a & args' & _ & _ & ->). obind. do 2 eexists. split; [reflexivity|]. by exists args', el, i, n.
Qed.

(** With a stack fewer tokens follow. *)
Lemma nexthops_stack fuel : ∀ stack i, is_Some (add_nexthops fuel g None i) → is_Some (add_nexthops fuel g stack i).
Proof.
  induction fuel as [|fuel IH]; intros stack i; [by intros []|]. cbn [add_nexthops]. destruct (g !! i) as [n|]; [|by intros []]. obind.
  induction (to n) as [|child cs IHc]; intros [l Hl]; [by eexists|]. destruct (token_at g child) as [t|]; [|done]. revert Hl. obind.
  rewrite (bool_decide_eq_false_2 (child ∈ default [] None)) by (by intros ?%elem_of_nil). rewrite andb_false_r.
  destruct (if special (type t) && _ then _ else _) as [here|] eqn:Eh; [|done]. obind.
  match goal with |- context [?f cs ≫= _] => destruct (f cs) as [rest|] eqn:Er; [|done] end. obind. intros _.
  destruct IHc as [rest' Er']; [by eexists|]. destruct (negb (allowrepeat t) && _); obind; [rewrite Er'; by eexists|].
  destruct (special (type t) && bool_decide (type t ≠ END_TKN)); [|obind; rewrite Er'; by eexists].
  destruct (IH stack child) as [here' ->]; [by eexists|]. obind. rewrite Er'. by eexists.
Qed.

(** Candidates are nodes with tokens. *)
Definition candidates (l : list (list nat)) : Prop := Forall (λ st, ∃ c rest, st = c :: rest ∧ is_Some (token_at g c)) l.

(** Every token answers every word. *)
Definition answers : Prop := ∀ i t w, token_at g i = Some t → ∃ m, match_token t (Some w) = Some m ∧ m ≠ trivial_match.
Context (Hall : answers).

Lemma answer i t w : token_at g i = Some t → ∃ m, match_token t w = Some m ∧ (w ≠ None → m ≠ trivial_match).
Proof. intros Ht. destruct w as [w|]; [|by exists trivial_match]. destruct (Hall i t w Ht) as (m & E & Hm). by exists m. Qed.

Lemma answers_words line : words_ok line.
Proof. intros i t w _ Ht. destruct (answer i t w Ht) as (m & -> & _). by eexists. Qed.

Lemma exact_total l w : candidates l → is_Some (exact_match_exists g l w).
Proof.
  induction 1 as [|st l (c & rest & -> & [t Ht]) Hl IH]; cbn [exact_match_exists]; [by eexists|]. cbn [head]. obind. rewrite Ht. obind.
  destruct (answer c t w Ht) as (m & -> & _). obind. destruct (decide _); [by eexists|done].
Qed.

Lemma follow_candidates st c t : token_at g c = Some t → type t ≠ END_TKN →
  ∃ l, nexthops g (Some st) c = Some l ∧ candidates (map (λ x, x :: st) l).
Proof.
  intros Ht He. destruct (nexthops_stack (S (length g)) (Some st) c) as [l El]; [by eapply nexthops_total|]. exists l. split; [exact El|].
  apply Forall_forall. intros x (y & -> & Hy)%list_elem_of_fmap. exists y, st. split; [done|].
  destruct (add_nexthops_tokens _ _ _ _ _ El Hy) as (t' & -> & _). by eexists.
Qed.

Lemma complete_one_total st w (last_token exact : bool) c rest t : st = c :: rest → token_at g c = Some t → (w = None → last_token = true) →
  ∃ l, complete_one g w last_token exact st = Some l ∧ candidates l.
Proof.
  intros -> Ht Hw. unfold complete_one. cbn [head]. obind. rewrite Ht. obind.
  assert (candidates [] ∧ candidates [[c]]) as [C0 C1] by (split; [constructor|constructor; [by exists c, []; rewrite Ht|constructor]]).
  destruct (decide _); [by eexists|]. destruct (answer c t w Ht) as (m & Em & Hm). rewrite Em. obind.
  assert (∀ m, match_rank m ≠ 0 → match_token t w = Some m → ∃ l,
    (if bool_decide (m = partly_match) && exact && negb last_token then Some []
     else if last_token then Some [[c]]
     else if decide (match_rank (min_match_level (type t)) ≤ match_rank m) then next ← nexthops g (Some (c :: rest)) c; Some (map (λ x, x :: c :: rest) next)
     else Some []) = Some l ∧ candidates l) as Hgo.
  { intros m' Hm' Em'. destruct (_ && _); [by eexists|]. destruct last_token; [by eexists|]. destruct (decide _) as [Hr|]; [|by eexists].
    assert (type t ≠ END_TKN) as He.
    { intros He. destruct w as [w|]; [|by specialize (Hw eq_refl)]. rewrite special_match in Em' by (by rewrite He). injection Em' as <-.
      rewrite He in Hr. cbn in Hr. lia. }
    destruct (follow_candidates (c :: rest) c t Ht He) as (l & -> & Hl). obind. by eexists. }
  destruct m; [|by eexists|by apply Hgo|by apply Hgo].
  destruct last_token; [by eexists|]. destruct w; [by destruct (Hm ltac:(done))|by specialize (Hw eq_refl)].
Qed.

Lemma complete_all_total l w (last_token exact : bool) : candidates l → (w = None → last_token = true) →
  ∃ l', complete_all g w last_token exact l = Some l' ∧ candidates l'.
Proof.
  intros Hl Hw. induction Hl as [|st l (c & rest & Est & [t Ht]) Hl IH]; cbn [complete_all]; [by eexists; split; [|constructor]|].
  destruct (complete_one_total st w last_token exact c rest t Est Ht Hw) as (h & -> & Hh). obind. destruct IH as (l' & -> & Hl'). obind.
  eexists. split; [reflexivity|]. by apply Forall_app.
Qed.

(** A line for completion: words, and perhaps nothing at its end. *)
Definition completable (line : list (option cstring)) : Prop := ∃ ws, line = Some <$> ws ∨ line = (Some <$> ws) ++ [None].

Lemma completable_tail w line : completable (w :: line) → completable line ∧ (w = None → line = []).
Proof.
  intros (ws & [E|E]).
  - destruct ws as [|x ws]; [done|]. injection E as -> ->. split; [exists ws; by left|done].
  - destruct ws as [|x ws]; injection E as -> ->; [split; [exists []; by left|done]|]. split; [exists ws; by right|done].
Qed.

Lemma complete_loop_total line : ∀ l, completable line → candidates l → ∃ u l', complete_loop g line l = Some (u, l') ∧ candidates l'.
Proof.
  induction line as [|w line IH]; intros l Hc Hl; cbn [complete_loop]; [by do 2 eexists|]. destruct l as [|st l]; [do 2 eexists; split; [done|constructor]|].
  destruct (exact_total (st :: l) w Hl) as [ex ->]. obind. destruct (completable_tail w line Hc) as [Hc' Hw].
  destruct (complete_all_total (st :: l) w (bool_decide (line = [])) ex Hl) as (l' & -> & Hl'); [intros E; by apply bool_decide_eq_true, Hw|]. obind. by apply IH.
Qed.

Lemma command_complete_total line : completable line →
  ∃ rv cs, command_complete g line = Some (rv, cs) ∧ (rv = MATCHER_OK ∨ rv = MATCHER_NO_MATCH) ∧ ∀ t, t ∈ cs → ∃ i, token_at g i = Some t.
Proof.
  intros Hc. unfold command_complete. pose proof Hg as ([t0 Ht0] & Hend & _).
  destruct (nexthops_stack (S (length g)) (Some []) 0) as [first Ef]; [eapply nexthops_total; [exact Ht0|]; intros He; by rewrite Ht0, <- He in Hend|].
  unfold nexthops. rewrite Ef. obind.
  destruct (complete_loop_total line (map (λ c, [c]) first) Hc) as (u & l' & -> & Hl').
  { apply Forall_forall. intros x (y & -> & Hy)%list_elem_of_fmap. exists y, []. split; [done|]. destruct (add_nexthops_tokens _ _ _ _ _ Ef Hy) as (t' & -> & _). by eexists. }
  obind. destruct (decide _); [|do 2 eexists; split; [reflexivity|]; split; [by right|by intros t ?%elem_of_nil]].
  assert (∃ cs, mapM (λ gstack, node ← head gstack; token_at g node) l' = Some cs ∧ ∀ t, t ∈ cs → ∃ i, token_at g i = Some t) as (cs & -> & Hcs).
  { clear -Hl'. induction Hl' as [|st l (c & rest & -> & [t Ht]) Hl (cs & IH & Hcs)]; [exists []; split; [done|by intros t ?%elem_of_nil]|].
    exists (t :: cs). rewrite mapM_Some in IH |- *. split; [constructor; [exact Ht|done]|]. intros t' [->|?]%elem_of_cons; eauto. }
  obind. do 2 eexists. split; [reflexivity|]. split; [by left|done].
Qed.

End correct.

(** A small graph: "show <vpp|version>". *)
Definition word (s : string) : cmd_token := Token WORD_TKN CMD_ATTR_NORMAL false (str s) None 0 0 None.
Definition plumbing (t : cmd_token_type) : cmd_token := Token t CMD_ATTR_NORMAL false [] None 0 0 None.
Definition graph_example : graph :=
  [Node (Tok (plumbing START_TKN)) [1]; Node (Tok (word "show")) [2]; Node (Tok (plumbing FORK_TKN)) [3; 4];
   Node (Tok (word "vpp")) [5]; Node (Tok (word "version")) [5]; Node (Tok (plumbing JOIN_TKN)) [6];
   Node (Tok (plumbing END_TKN)) [7]; Node (Element 42) []].

(** An abbreviation that fits one word finds the command, one that fits two
    does not. *)
Example command_match_abbreviated :
  command_match graph_example [Some (str "sh"); Some (str "ve")] =
    Some (MATCHER_OK, Some ([(word "show", str "sh"); (word "version", str "ve")], 42))
  ∧ command_match graph_example [Some (str "sh"); Some (str "v")] = Some (MATCHER_AMBIGUOUS, None)
  ∧ command_match graph_example [Some (str "show")] = Some (MATCHER_INCOMPLETE, None).
Proof. split_and!; reflexivity. Qed.

(** A blank line end asks for everything that may follow, a beginning of a word
    for the words that begin with it. *)
Example command_complete_words :
  command_complete graph_example [Some (str "sh"); None] = Some (MATCHER_OK, [word "vpp"; word "version"])
  ∧ command_complete graph_example [Some (str "show"); Some (str "ve")] = Some (MATCHER_OK, [word "version"])
  ∧ command_complete graph_example [Some (str "x")] = Some (MATCHER_NO_MATCH, []).
Proof. split_and!; reflexivity. Qed.

