(* ===== verification/CmdGraph.v ===== *)
(** * Building the command graph: lib/command_graph.c

    A command that is installed is parsed into a graph of its own and then merged
    into the graph of its node: tokens that are there already are shared, the rest
    hangs off the last shared one.  Both graphs are graphs of [Graph] and live in
    one heap; a node's data is the address of a token, or, behind an end token, of
    the command.  A token knows how many commands share it, and a fork and its join
    know each other.

    Tokens of a command have its own attribute; a shared token has the least.
    [cmd_loopstop] looks at the type of every node it is given, also of a command's
    node, whose data is no token: what it reads there are the low 32 bits of the
    command's first field, the pointer to its text ([elem_type]).  [None] is a read
    through a bad pointer or a walk that does not end. *)
From Stdlib Require Import Ascii String.
From stdpp Require Import prelude gmap list.
From S2P Require Import Prelude Vector Graph CString Prefix PrefixText TokenMatch.
Set Default Goal Selector "!".

Record ctok := CTok { ctoken : cmd_token; refcnt : Z; forkjoin : option ptr }.

(** The two graphs. *)
Record merging := Merging {
  heap : gmap ptr gnode;
  toks : gmap nat ctok;
  onodes : vector ptr;     (* nodes of the graph that stays *)
  nnodes : vector ptr;     (* nodes of the graph that is merged into it *)
  freed : list nat;
}.

Definition set_heap (h : gmap ptr gnode) (s : merging) : merging := Merging h (toks s) (onodes s) (nnodes s) (freed s).
Definition set_toks (t : gmap nat ctok) (s : merging) : merging := Merging (heap s) t (onodes s) (nnodes s) (freed s).
Definition set_nodes (o n : vector ptr) (s : merging) : merging := Merging (heap s) (toks s) o n (freed s).

(** ** Tokens *)

Definition cmd_token_new (ty : cmd_token_type) (a : cmd_attr) (txt : cstring) (d : option cstring) : ctok :=
  CTok (Token ty a false txt d 0 0 None) 1 None.

(** The copy has no partner and is not repeatable. *)
Definition cmd_token_dup (t : ctok) : ctok :=
  let c := ctoken t in CTok (Token (type c) (attr c) false (text c) (desc c) (tmin c) (tmax c) (varname c)) 1 None.

Definition tolower (c : ascii) : ascii := if ((65 <=? code c) && (code c <=? 90))%Z then chr (code c + 32)%Z else c.
Definition varname_char (c : ascii) : ascii :=
  if bool_decide (c = "-"%char ∨ c = "+"%char ∨ c = "*"%char ∨ c = ":"%char) then "_"%char else tolower c.
Definition cmd_token_varname_set (t : ctok) (v : option cstring) : ctok :=
  let c := ctoken t in
  CTok (Token (type c) (attr c) (allowrepeat c) (text c) (desc c) (tmin c) (tmax c) (map varname_char <$> v)) (refcnt t) (forkjoin t).

Definition set_attr (a : cmd_attr) (t : ctok) : ctok :=
  let c := ctoken t in CTok (Token (type c) a (allowrepeat c) (text c) (desc c) (tmin c) (tmax c) (varname c)) (refcnt t) (forkjoin t).
Definition set_refcnt (r : Z) (t : ctok) : ctok := CTok (ctoken t) r (forkjoin t).

Definition attr_rank (a : cmd_attr) : nat := match a with CMD_ATTR_NORMAL => 0 | CMD_ATTR_DEPRECATED => 1 | CMD_ATTR_HIDDEN => 2 end.
(** [type < SPECIAL_TKN] *)
Definition plain (t : cmd_token_type) : bool := match t with FORK_TKN | JOIN_TKN | START_TKN | END_TKN => false | _ => true end.
Definition JOIN_TKN_value : Z := 10.

(** [gn->data] as a token, with its address. *)
Definition tok_at (s : merging) (p : ptr) : option (nat * ctok) :=
  n ← heap s !! p; d ← data n; t ← toks s !! d; Some (d, t).
Definition upd_tok (d : nat) (t : ctok) (s : merging) : merging := set_toks (<[d := t]> (toks s)) s.

(** ** Comparing *)

(** [vector_slot] of a node that is there. *)
Definition child (s : merging) (p : ptr) (i : nat) : option ptr := n ← heap s !! p; mjoin (vector_slot (to n) i).
Definition degree (s : merging) (p : ptr) : option nat := n ← heap s !! p; Some (vector_active (to n)).

Definition cmd_nodes_link (s : merging) (f t : ptr) : option bool :=
  n ← heap s !! f; visited_loop (vector_active (to n)) 0 (to n) t.

Section graph.
Context (elem_type : nat → Z).

Definition cmd_loopstop (s : merging) (gn : ptr) : option (option ptr) :=
  n ← heap s !! gn; d ← data n;
  match toks s !! d with
  | Some t => Some (if decide (type (ctoken t) = JOIN_TKN) then forkjoin t else Some gn)
  | None => if (elem_type d =? JOIN_TKN_value)%Z then None else Some (Some gn)
  end.

Definition same_varname (a b : option cstring) : bool :=
  match a, b with Some x, Some y => bool_decide (x = y) | None, None => true | _, _ => false end.

(** In the inner loop [cgb] is the child at [i], not at [j]. *)
Fixpoint cmd_nodes_equal (fuel : nat) (s : merging) (ga gb : ptr) : option bool :=
  match fuel with
  | 0 => None
  | S fuel =>
      '(_, ta) ← tok_at s ga; '(_, tb) ← tok_at s gb;
      let a := ctoken ta in let b := ctoken tb in
      if negb (bool_decide (type a = type b) && eqb (allowrepeat a) (allowrepeat b)) then Some false
      else if plain (type a) && negb (bool_decide (text a = text b)) then Some false
      else
        la ← cmd_nodes_link s ga ga; lb ← cmd_nodes_link s gb gb;
        if negb (eqb la lb) then Some false
        else if negb (same_varname (varname a) (varname b)) then Some false
        else
          match type a with
          | RANGE_TKN => Some ((tmin a =? tmin b) && (tmax a =? tmax b))%Z
          | FORK_TKN =>
              ja ← forkjoin ta; jb ← forkjoin tb;
              ba ← cmd_nodes_link s ja ga; bb ← cmd_nodes_link s jb gb;
              if negb (eqb ba bb) then Some false
              else
                fa ← cmd_nodes_link s ga ja; fb ← cmd_nodes_link s gb jb;
                if negb (eqb fa fb) then Some false else cmd_subgraph_equal fuel s ga gb ja
          | _ => Some true
          end
  end
with cmd_subgraph_equal (fuel : nat) (s : merging) (ga gb a_join : ptr) : option bool :=
  match fuel with
  | 0 => None
  | S fuel =>
      a_fork ← cmd_loopstop s ga; b_fork ← cmd_loopstop s gb;
      da ← degree s ga; db ← degree s gb;
      if negb (Nat.eqb da db) then Some false
      else
        (fix outer (n i : nat) : option bool :=
           match n with
           | 0 => Some true
           | S n =>
               cga ← child s ga i; cgb ← child s gb i;
               found ← (fix inner (j : nat) : option bool :=
                          match j with
                          | 0 => Some false
                          | S j =>
                              if decide (Some cga = a_fork ∧ Some cgb ≠ b_fork) then inner j
                              else if decide (Some cga = a_fork ∧ Some cgb = b_fork) then Some true
                              else
                                e ← cmd_nodes_equal fuel s cga cgb;
                                if (e : bool) then
                                  if decide (cga = a_join) then Some true
                                  else e ← cmd_subgraph_equal fuel s cga cgb a_join; if (e : bool) then Some true else inner j
                                else inner j
                          end) db;
               if (found : bool) then outer n (S i) else Some false
           end) da 0
  end.

(** ** Changing *)

(** [for (i = 0; i < vector_active(p->to); i++) f(vector_slot(p->to, i))] *)
Fixpoint each_child (f : ptr → merging → option merging) (p : ptr) (n i : nat) (s : merging) : option merging :=
  match n with
  | 0 => Some s
  | S n => next ← child s p i; s ← f next s; each_child f p n (S i) s
  end.

Fixpoint cmd_fork_bump_attr (fuel : nat) (gn join : ptr) (a : cmd_attr) (s : merging) : option merging :=
  match fuel with
  | 0 => None
  | S fuel =>
      '(d, t) ← tok_at s gn;
      stop ← cmd_loopstop s gn;
      let s := upd_tok d (set_attr a t) s in
      n ← degree s gn;
      each_child (λ next s, if decide (Some next = stop ∨ next = join) then Some s else cmd_fork_bump_attr fuel next join a s) gn n 0 s
  end.

(** The first slot that holds the node. *)
Fixpoint find_slot (n i : nat) (v : vector ptr) (x : ptr) : option (option nat) :=
  match n with
  | 0 => Some None
  | S n => y ← vector_slot v i; if decide (y = Some x) then Some (Some i) else find_slot n (S i) v x
  end.

Definition reparent (node : ptr) (s : merging) : option merging :=
  k ← find_slot (vector_active (nnodes s)) 0 (nnodes s) node;
  match k with
  | Some i => nn ← vector_unset (nnodes s) i; '(on, _) ← vector_set (onodes s) (Some node); Some (set_nodes on nn s)
  | None => Some s
  end.

Fixpoint cmd_reparent_tree (fuel : nat) (node : ptr) (s : merging) : option merging :=
  match fuel with
  | 0 => None
  | S fuel =>
      stop ← cmd_loopstop s node;
      s ← reparent node s;
      n ← degree s node;
      each_child (λ next s, if decide (Some next = stop) then Some s else cmd_reparent_tree fuel next s) node n 0 s
  end.

(** [graph_delete_node(oldgraph, node)]; a token that is deleted is freed. *)
Definition delete_node (node : ptr) (s : merging) : option merging :=
  g ← graph_delete_node (Graph (onodes s) (heap s) 0 []) (Some node);
  Some (Merging (Graph.heap g) (foldr delete (toks s) (deleted g)) (nodes g) (nnodes s) (deleted g ++ freed s)).

Fixpoint cmd_free_recur (fuel : nat) (node : ptr) (stop : option ptr) (s : merging) : option merging :=
  match fuel with
  | 0 => None
  | S fuel =>
      n ← degree s node;
      s ← (fix loop (i : nat) (s : merging) : option merging :=
             match i with
             | 0 => Some s
             | S i =>
                 next ← child s node i;
                 if decide (Some next = stop) then loop i s
                 else
                   nstop ← cmd_loopstop s next;
                   s ← (if decide (nstop ≠ Some next) then cmd_free_recur fuel next nstop s else Some s);
                   x ← nstop;
                   s ← cmd_free_recur fuel x stop s;
                   loop i s
             end) n s;
      delete_node node s
  end.

Definition cmd_free_node (fuel : nat) (node : ptr) (s : merging) : option merging :=
  '(_, t) ← tok_at s node;
  s ← (if decide (type (ctoken t) = JOIN_TKN) then f ← forkjoin t; cmd_free_recur fuel f (Some node) s else Some s);
  delete_node node s.

Definition u32_add (r d : Z) : Z := ((r + d) mod 2 ^ 32)%Z.

(** ** Merging *)

(** [if (tnew->attr < told->attr) told->attr = tnew->attr] *)
Definition lower_attr (cold cnew : ptr) (s : merging) : option merging :=
  '(d, t) ← tok_at s cold; '(_, tn) ← tok_at s cnew;
  Some (if decide (attr_rank (attr (ctoken tn)) < attr_rank (attr (ctoken t))) then upd_tok d (set_attr (attr (ctoken tn)) t) s else s).

(** After a fork that is equal as a whole it goes on behind the joins. *)
Definition past_fork (fuel : nat) (direction : Z) (cold cnew : ptr) (t tn : ctok) (s : merging) : option (ptr * ptr * merging) :=
  if decide (type (ctoken t) = FORK_TKN) then
    j ← forkjoin t; jn ← forkjoin tn;
    s ← (if decide (attr_rank (attr (ctoken tn)) < attr_rank (attr (ctoken t)) ∧ (0 < direction)%Z)
         then cmd_fork_bump_attr fuel cold j (attr (ctoken tn)) s else Some s);
    Some (j, jn, s)
  else Some (cold, cnew, s).

(** The loop over [old->to] for one node of the new graph, [merge] is the recursive
    call; it returns the index where it stopped. *)
Fixpoint old_loop (merge : ptr → ptr → merging → option merging) (fuel : nat) (direction : Z) (old_skip : option ptr) (old cnew : ptr)
    (n i : nat) (s : merging) : option (nat * merging) :=
  match n with
  | 0 => Some (i, s)
  | S n =>
      cold ← child s old i;
      if decide (Some cold = old_skip) then old_loop merge fuel direction old_skip old cnew n (S i) s
      else
        e ← cmd_nodes_equal fuel s cold cnew;
        if (e : bool) then
          '(_, t) ← tok_at s cold; '(_, tn) ← tok_at s cnew;
          if decide (type (ctoken t) = END_TKN) then
            if (direction <? 0)%Z then
              q ← child s cold 0;
              s ← delete_node q s;
              s ← delete_node cold s;
              Some (i, s)
            else d ← degree s old; Some (d, s)
          else
            '(cold, cnew, s) ← past_fork fuel direction cold cnew t tn s;
            s ← lower_attr cold cnew s;
            s ← merge cold cnew s;
            Some (i, s)
        else old_loop merge fuel direction old_skip old cnew n (S i) s
  end.

(** [nothing found => add new to old] *)
Definition add_new (fuel : nat) (old new cnew : ptr) (s : merging) : option merging :=
  h ← graph_remove_edge (heap s) new cnew;
  s ← cmd_reparent_tree fuel cnew (set_heap h s);
  h ← graph_add_edge (heap s) old cnew;
  Some (set_heap h s).

(** The loop over [new->to], which may get shorter on the way. *)
Fixpoint new_loop (merge : ptr → ptr → merging → option merging) (fuel : nat) (direction : Z) (old_skip new_skip : option ptr) (old new : ptr)
    (m j : nat) (s : merging) : option merging :=
  match m with
  | 0 => Some s
  | S m =>
      dn ← degree s new;
      if decide (dn ≤ j) then Some s
      else
        cnew ← child s new j;
        if decide (Some cnew = new_skip) then new_loop merge fuel direction old_skip new_skip old new m (S j) s
        else
          n ← degree s old;
          '(i, s) ← old_loop merge fuel direction old_skip old cnew n 0 s;
          d ← degree s old;
          s ← (if decide (i = d ∧ (0 < direction)%Z) then add_new fuel old new cnew s else Some s);
          new_loop merge fuel direction old_skip new_skip old new m (S j) s
  end.

Fixpoint cmd_merge_nodes (fuel : nat) (direction : Z) (old new : ptr) (s : merging) : option merging :=
  match fuel with
  | 0 => None
  | S fuel =>
      old_skip ← cmd_loopstop s old; new_skip ← cmd_loopstop s new;
      if negb ((direction =? 1) || (direction =? -1))%Z then None
      else
        '(dold, told) ← tok_at s old;
        let s := upd_tok dold (set_refcnt (u32_add (refcnt told) direction) told) s in
        m ← degree s new;
        s ← new_loop (cmd_merge_nodes fuel direction) fuel direction old_skip new_skip old new m 0 s;
        t ← toks s !! dold;
        if (refcnt t =? 0)%Z then cmd_free_node fuel old s else Some s
  end.

Definition first_node (v : vector ptr) : option ptr := if decide (1 ≤ vector_active v) then mjoin (vector_slot v 0) else None.
Definition cmd_graph_merge (fuel : nat) (direction : Z) (s : merging) : option merging :=
  o ← first_node (onodes s); n ← first_node (nnodes s); cmd_merge_nodes fuel direction o n s.

(** ** Names *)

Definition has_varname (t : ctok) : bool := match varname (ctoken t) with Some _ => true | None => false end.

(** The tails of a fork take the name of its join. *)
Fixpoint name_tails (gn : ptr) (name : cstring) (tails : list (option ptr)) (s : merging) : option merging :=
  match tails with
  | [] => Some s
  | x :: tails =>
      tail ← x;
      '(d, t) ← tok_at s tail;
      name_tails gn name tails (if bool_decide (tail = gn) || has_varname t then s else upd_tok d (cmd_token_varname_set t (Some name)) s)
  end.

(** The name a value gets: its own text, or the word before it. *)
Definition name_value (prevname : option cstring) (d : nat) (t : ctok) (s : merging) : merging :=
  let t := if bool_decide (type (ctoken t) = VARIABLE_TKN) && negb (has_varname t)
              && negb (bool_decide (text (ctoken t) = str "WORD")) && negb (bool_decide (text (ctoken t) = str "NAME"))
           then cmd_token_varname_set t (Some (text (ctoken t))) else t in
  upd_tok d (match prevname with Some n => if has_varname t then t else cmd_token_varname_set t (Some n) | None => t end) s.

Fixpoint cmd_node_names (fuel : nat) (gn : ptr) (join : option ptr) (prevname : option cstring) (s : merging) : option merging :=
  match fuel with
  | 0 => None
  | S fuel =>
      '(d, t) ← tok_at s gn;
      stop ← cmd_loopstop s gn;
      let children prevname s :=
        n ← degree s gn;
        s ← each_child (λ next s, if decide (Some next = stop ∨ Some next = join) then Some s else cmd_node_names fuel next join prevname s) gn n 0 s;
        if decide (type (ctoken t) = FORK_TKN ∧ forkjoin t ≠ join) then j ← forkjoin t; cmd_node_names fuel j join None s else Some s in
      match type (ctoken t) with
      | WORD_TKN => children (Some (text (ctoken t))) s
      | START_TKN | JOIN_TKN => children None s
      | FORK_TKN =>
          j ← forkjoin t; '(_, tj) ← tok_at s j;
          s ← match varname (ctoken tj) with
              | Some name => nj ← heap s !! j; name_tails gn name (Vector.contents (from nj)) s
              | None => Some s
              end;
          children prevname s
      | END_TKN => Some s
      | _ => children None (name_value prevname d t s)
      end
  end.

(** An optional [no] at the start is named. *)
Definition name_no (start : ptr) (s : merging) : option merging :=
  n ← degree s start;
  if negb (Nat.eqb n 1) then Some s
  else
    first ← child s start 0;
    '(_, t) ← tok_at s first;
    n ← degree s first;
    if negb (bool_decide (type (ctoken t) = FORK_TKN) && Nat.eqb n 2) then Some s
    else
      next0 ← child s first 0; next1 ← child s first 1;
      if decide (Some next0 ≠ forkjoin t ∧ Some next1 ≠ forkjoin t) then Some s
      else
        '(d0, t0) ← tok_at s next0;
        '(d1, t1) ← tok_at s next1;
        let is_no t := bool_decide (type (ctoken t) = WORD_TKN ∧ text (ctoken t) = str "no") in
        let s := if is_no t0 then upd_tok d0 (cmd_token_varname_set t0 (Some (str "no"))) s else s in
        Some (if is_no t1 then upd_tok d1 (cmd_token_varname_set t1 (Some (str "no"))) s else s).

Definition cmd_graph_names (fuel : nat) (s : merging) : option merging :=
  start ← first_node (nnodes s); s ← name_no start s; cmd_node_names fuel start None None s.
End graph.

(** ** The commands of a graph

    For graphs without forks and repetitions: trees of words and values. *)

(** What two tokens have in common that compare as equal. *)
Definition tkey (c : cmd_token) : cmd_token :=
  let r := bool_decide (type c = RANGE_TKN) in
  Token (type c) CMD_ATTR_NORMAL (allowrepeat c) (text c) None (if r then tmin c else 0%Z) (if r then tmax c else 0%Z) (varname c).

Definition token_of (s : merging) (p : ptr) (c : cmd_token) : Prop := ∃ d t, tok_at s p = Some (d, t) ∧ tkey (ctoken t) = c.
Definition element_of (s : merging) (p : ptr) (e : nat) : Prop := ∃ n, heap s !! p = Some n ∧ data n = Some e ∧ toks s !! e = None.

Definition edge (c : ptr → ptr → nat) (p q : ptr) : Prop := 0 < c p q.

(** The walk from [p] along the words [ks] ends at the command [e]. *)
Inductive spells (s : merging) (c : ptr → ptr → nat) : ptr → list cmd_token → nat → Prop :=
  | spells_end p q r e k : edge c p q → token_of s q k → type k = END_TKN → edge c q r → element_of s r e → spells s c p [] e
  | spells_word p q k ks e : edge c p q → token_of s q k → plain (type k) = true → spells s c q ks e → spells s c p (k :: ks) e.

(** The walk along [ks] from [p] to [r]. *)
Inductive leads (s : merging) (c : ptr → ptr → nat) : ptr → list cmd_token → ptr → Prop :=
  | leads_nil p : leads s c p [] p
  | leads_snoc p q r ks k : leads s c p ks q → edge c q r → token_of s r k → plain (type k) = true → leads s c p (ks ++ [k]) r.

(** The only walk from [p]. *)
Inductive chain (s : merging) (c : ptr → ptr → nat) : ptr → list cmd_token → nat → Prop :=
  | chain_end p q r e k : (∀ x, edge c p x ↔ x = q) → token_of s q k → type k = END_TKN → (∀ x, edge c q x ↔ x = r) →
      element_of s r e → (∀ x, ¬ edge c r x) → chain s c p [] e
  | chain_word p q k ks e : (∀ x, edge c p x ↔ x = q) → token_of s q k → plain (type k) = true → chain s c q ks e → chain s c p (k :: ks) e.

Section merge.
Context (elem_type : nat → Z).

(** A tree of tokens below [root]; [k] bounds the degrees, [b] the counts. *)
Record tree (k : nat) (b : Z) (s : merging) (c : ptr → ptr → nat) (root : ptr) : Prop := Tree {
  tr_rep : rep k (heap s) c;
  tr_data : ∀ p n, heap s !! p = Some n → ∃ d, data n = Some d ∧ match toks s !! d with
              | Some t => type (ctoken t) ≠ JOIN_TKN ∧ type (ctoken t) ≠ FORK_TKN ∧ (1 ≤ refcnt t ≤ b)%Z
              | None => elem_type d ≠ JOIN_TKN_value
              end;
  tr_one : ∀ p p' q, edge c p q → edge c p' q → p = p';
  tr_once : ∀ p q, c p q ≤ 1;
  tr_self : ∀ p, c p p = 0;
  tr_root : ∀ p, c p root = 0;
  tr_kids : ∀ p kp q, rtc (edge c) root p → token_of s p kp → type kp ≠ END_TKN → edge c p q →
              ∃ k, token_of s q k ∧ (plain (type k) = true ∨ type k = END_TKN);
  tr_nodes : (∃ l, holds (onodes s) l ∧ length l ≤ k) ∧ wf (nnodes s) }.

Lemma tkey_type c : type (tkey c) = type c.
Proof. done. Qed.

Lemma tok_token s p d t : tok_at s p = Some (d, t) → token_of s p (tkey (ctoken t)).
Proof. intros E. by exists d, t. Qed.

Lemma token_inj s p k k' : token_of s p k → token_of s p k' → k = k'.
Proof. intros (d & t & E & <-) (d' & t' & E' & <-). congruence. Qed.

Lemma token_not_element s p k e : token_of s p k → element_of s p e → False.
Proof.
  intros (d & t & E & _) (n & Hn & Hd & He). unfold tok_at in E. rewrite Hn in E. cbn in E. rewrite Hd in E. cbn in E. by rewrite He in E.
Qed.

Lemma element_inj s p e e' : element_of s p e → element_of s p e' → e = e'.
Proof. intros (n & Hn & Hd & _) (n' & Hn' & Hd' & _). congruence. Qed.

(** ** Frames *)

(** The nodes have the same keys. *)
Definition same_keys (s s' : merging) : Prop :=
  (∀ p k, token_of s p k ↔ token_of s' p k) ∧ (∀ p e, element_of s p e ↔ element_of s' p e).

Lemma same_keys_refl s : same_keys s s.
Proof. done. Qed.

Lemma same_keys_trans s1 s2 s3 : same_keys s1 s2 → same_keys s2 s3 → same_keys s1 s3.
Proof. intros [H1 H2] [H3 H4]. split; intros p k; [rewrite H1|rewrite H2]; done. Qed.

Lemma upd_same d t t' s : toks s !! d = Some t → tkey (ctoken t') = tkey (ctoken t) → same_keys s (upd_tok d t' s).
Proof.
  intros Hd Ht. split.
  - intros p k. unfold token_of, tok_at. cbn. split; intros (d0 & t0 & E & <-).
    + apply bind_Some in E as (n & -> & E). cbn [mbind option_bind]. apply bind_Some in E as (d1 & -> & E). cbn [mbind option_bind].
      apply bind_Some in E as (t1 & E1 & [= <- <-]). destruct (decide (d = d1)) as [<-|Hne].
      * rewrite lookup_insert_eq. cbn. exists d, t'. split; [done|]. congruence.
      * rewrite lookup_insert_ne, E1 by done. cbn. by exists d1, t1.
    + apply bind_Some in E as (n & -> & E). cbn [mbind option_bind]. apply bind_Some in E as (d1 & -> & E). cbn [mbind option_bind].
      apply bind_Some in E as (t1 & E1 & [= <- <-]). destruct (decide (d = d1)) as [<-|Hne].
      * rewrite lookup_insert_eq in E1. injection E1 as <-. rewrite Hd. cbn. exists d, t. split; [done|]. congruence.
      * rewrite lookup_insert_ne in E1 by done. rewrite E1. cbn. by exists d1, t1.
  - intros p e. unfold element_of. cbn. assert (<[d := t']> (toks s) !! e = None ↔ toks s !! e = None) as He.
    { destruct (decide (d = e)) as [<-|Hne]; [rewrite lookup_insert_eq, Hd; done|by rewrite lookup_insert_ne]. }
    split; intros (n & Hn & Hd' & H); exists n; (split; [done|split; [done|]]); by apply He.
Qed.

Lemma info_same h s : info <$> h = info <$> heap s → same_keys s (set_heap h s).
Proof.
  intros Hi. assert (∀ p, data <$> h !! p = data <$> heap s !! p) as Hd.
  { intros p. apply (f_equal (.!! p)) in Hi. rewrite !lookup_fmap in Hi. unfold info in Hi. destruct (h !! p), (heap s !! p); cbn in *; congruence. }
  split.
  - intros p k. unfold token_of, tok_at. cbn. specialize (Hd p). destruct (h !! p) as [n|], (heap s !! p) as [n'|]; cbn in *; try congruence; [|done].
    by replace (data n) with (data n') by congruence.
  - intros p e. unfold element_of. cbn. specialize (Hd p). destruct (h !! p) as [n|], (heap s !! p) as [n'|]; cbn in *; try congruence.
    + assert (data n = data n') as Hx by congruence. split; intros (m & Hm & Hdm & He); injection Hm as <-; eexists; (split; [reflexivity|]); (split; [|exact He]); congruence.
    + split; by intros (? & ? & _).
Qed.

(** Walks from [p] are as before if the edges of the nodes below it are. *)
Definition same_below (c c' : ptr → ptr → nat) (p : ptr) : Prop := ∀ x y, rtc (edge c) p x → edge c x y ↔ edge c' x y.

Lemma same_below_step c c' p q : same_below c c' p → edge c p q → same_below c c' q.
Proof. intros H E x y Hx. apply H. by eapply rtc_l. Qed.

Lemma chain_frame s s' c c' p ks e : chain s c p ks e → same_keys s s' → same_below c c' p → chain s' c' p ks e.
Proof.
  induction 1 as [p q r e k Hp Hq Ht Hr He Hn|p q k ks e Hp Hq Ht Hc IH]; intros Hk Hb.
  - assert (edge c p q) as Hpq by (by apply Hp). assert (edge c q r) as Hqr by (by apply Hr).
    apply (chain_end _ _ p q r e k); [|by apply Hk|done| |by apply Hk|].
    + intros x. rewrite <- Hp. symmetry. by apply Hb.
    + intros x. rewrite <- Hr. symmetry. apply Hb. by apply rtc_once.
    + intros x. rewrite <- (Hb r x); [apply Hn|]. by eapply rtc_l, rtc_once.
  - assert (edge c p q) as Hpq by (by apply Hp). apply (chain_word _ _ p q k); [|by apply Hk|done|].
    + intros x. rewrite <- Hp. symmetry. by apply Hb.
    + apply IH; [done|]. by eapply same_below_step.
Qed.

Lemma chain_spells s c p ks e : chain s c p ks e → ∀ ks' e', spells s c p ks' e' ↔ ks' = ks ∧ e' = e.
Proof.
  induction 1 as [p q r e k Hp Hq Ht Hr He Hn|p q k ks e Hp Hq Ht Hc IH]; intros ks' e'; split.
  - intros Hs. inversion Hs as [? q' r' e0 k' Hpq Hq' Ht' Hqr He'|? q' k' ks0 e0 Hpq Hq' Ht' Hs']; subst; apply Hp in Hpq as ->; pose proof (token_inj _ _ _ _ Hq Hq') as <-.
    + apply Hr in Hqr as ->. split; [done|]. by eapply element_inj.
    + rewrite Ht in Ht'. done.
  - intros [-> ->]. apply (spells_end _ _ p q r e k); [by apply Hp|done|done|by apply Hr|done].
  - intros Hs. inversion Hs as [? q' r' e0 k' Hpq Hq' Ht' Hqr He'|? q' k' ks0 e0 Hpq Hq' Ht' Hs']; subst; apply Hp in Hpq as ->; pose proof (token_inj _ _ _ _ Hq Hq') as <-.
    + rewrite Ht' in Ht. done.
    + apply IH in Hs' as [-> ->]. done.
  - intros [-> ->]. apply (spells_word _ _ p q k); [by apply Hp|done|done|by apply IH].
Qed.

Lemma chain_det s c p ks e ks' e' : chain s c p ks e → chain s c p ks' e' → ks' = ks.
Proof. intros H1 H2. apply (chain_spells _ _ _ _ _ H1 ks' e'). by apply (chain_spells _ _ _ _ _ H2 ks' e'). Qed.

Lemma tc_first {A} (R : A → A → Prop) x z : tc R x z → ∃ y, R x y ∧ rtc R y z.
Proof. intros H. inversion H as [? ? Hxz|? y ? Hxy Hyz]; subst; [by exists z|]. exists y. split; [done|]. by apply tc_rtc. Qed.

(** A chain does not come back. *)
Lemma chain_below s c p ks e x : chain s c p ks e → tc (edge c) p x →
  (∃ ks' e', chain s c x ks' e' ∧ length ks' < length ks) ∨ ∀ ks' e', ¬ chain s c x ks' e'.
Proof.
  intros Hc. revert x. induction Hc as [p q r e k Hp Hq Ht Hr He Hn|p q k ks e Hp Hq Ht Hc IH]; intros x Hx.
  - assert (∀ y ks' e', edge c y r ∨ y = r → chain s c y ks' e' → y = q ∨ y = r → False) as Hno.
    { intros y ks' e' _ Hy [->| ->].
      - inversion Hy as [? y1 ? ? ? H1 H2|? y1 ? ? ? H1 H2]; subst; assert (y1 = r) as -> by (symmetry; apply H1, Hr; done); by eapply token_not_element.
      - inversion Hy as [? y1 ? ? ? H1|? y1 ? ? ? H1]; subst; apply (Hn y1); by apply H1. }
    right. intros ks' e' Hy. assert (x = q ∨ x = r) as Hqr.
    { apply tc_first in Hx as (y & Hpy & Hx). apply Hp in Hpy as ->. apply rtc_inv in Hx as [->|(z & Hqz & Hx)]; [by left|]. right.
      apply Hr in Hqz as ->. apply rtc_inv in Hx as [->|(z & Hrz & _)]; [done|]. by destruct (Hn z). }
    destruct Hqr as [->| ->]; [apply (Hno q ks' e'); [left; by apply Hr|done|by left]|apply (Hno r ks' e'); [by right|done|by right]].
  - apply tc_first in Hx as (y & Hpy & Hx). apply Hp in Hpy as ->. cbn [length]. apply rtc_tc in Hx as [->|Hx].
    + left. exists ks, e. split; [done|lia].
    + destruct (IH x Hx) as [(ks' & e' & Hc' & Hl)|Hno]; [left; exists ks', e'; split; [done|lia]|by right].
Qed.

Lemma chain_no_return s c p ks e : chain s c p ks e → ¬ tc (edge c) p p.
Proof.
  intros Hc Hp. destruct (chain_below s c p ks e p Hc Hp) as [(ks' & e' & Hc' & Hl)|Hno]; [|by apply (Hno ks e)].
  rewrite (chain_det _ _ _ _ _ _ _ Hc Hc') in Hl. lia.
Qed.

Lemma leads_rtc s c p ks q : leads s c p ks q → rtc (edge c) p q.
Proof. induction 1 as [|p q r ks k _ IH Hqr _ _]; [done|]. by eapply rtc_r. Qed.

(** In a tree there is one walk. *)
Lemma leads_unique k b s c root ks q : tree k b s c root → leads s c root ks q → ∀ ks', leads s c root ks' q → ks' = ks.
Proof.
  intros Ht Hl. remember root as p eqn:Ep in Hl. revert Ep. induction Hl as [p|p q r ks x Hl IH Hqr Hr Hx]; intros -> ks' Hl'.
  - inversion Hl' as [|? q' ? ? ? _ Hq']; subst; [done|]. unfold edge in Hq'. rewrite (tr_root _ _ _ _ _ Ht) in Hq'. lia.
  - inversion Hl' as [|? q' ? ks0 x' Hl0 Hq' Hr' _]; subst.
    + unfold edge in Hqr. rewrite (tr_root _ _ _ _ _ Ht) in Hqr. lia.
    + pose proof (tr_one _ _ _ _ _ Ht _ _ _ Hqr Hq') as <-. rewrite (IH eq_refl ks0 Hl0). by rewrite (token_inj _ _ _ _ Hr Hr').
Qed.

Lemma chain_kids s c p ks e : chain s c p ks e → ∀ x kx y, rtc (edge c) p x → token_of s x kx → type kx ≠ END_TKN → edge c x y →
  ∃ k, token_of s y k ∧ (plain (type k) = true ∨ type k = END_TKN).
Proof.
  induction 1 as [p q r e k Hp Hq Ht Hr He Hn|p q k ks e Hp Hq Ht Hc IH]; intros x kx y Hx Hkx Hne Hxy.
  - apply rtc_inv in Hx as [<-|(z & Hz & Hx)]; [apply Hp in Hxy as ->; exists k; auto|]. apply Hp in Hz as ->.
    apply rtc_inv in Hx as [<-|(z & Hz & Hx)]; [by rewrite (token_inj _ _ _ _ Hkx Hq) in Hne|]. apply Hr in Hz as ->.
    apply rtc_inv in Hx as [<-|(z & Hz & _)]; [by destruct (Hn y)|by destruct (Hn z)].
  - apply rtc_inv in Hx as [<-|(z & Hz & Hx)]; [apply Hp in Hxy as ->; exists k; auto|]. apply Hp in Hz as ->. by eapply IH.
Qed.

(** ** The steps *)

Lemma tree_node k b s c root p : tree k b s c root → is_Some (heap s !! p) → ∃ l, degree s p = Some (length l) ∧ (∀ i x, l !! i = Some x → child s p i = Some x)
  ∧ (∀ q, q ∈ l ↔ edge c p q) ∧ NoDup l ∧ cmd_nodes_link s p p = Some false.
Proof.
  intros Ht [n Hn]. destruct (rep_node _ _ _ (tr_rep _ _ _ _ _ Ht) p n Hn) as (lf & lt & _ & Hl & _ & _ & _ & Hc). exists lt.
  assert (∀ q, q ∈ lt ↔ edge c p q) as Hin by (intros q; unfold edge; by rewrite <- Hc, cnt_pos). split_and!.
  - unfold degree. rewrite Hn. cbn. by rewrite (holds_active _ _ Hl).
  - intros i x Hi. unfold child. rewrite Hn. cbn. by rewrite (holds_slot _ _ _ _ Hl Hi).
  - done.
  - apply cnt_NoDup. intros q. rewrite Hc. apply Ht.
  - unfold cmd_nodes_link. rewrite Hn. cbn. rewrite (holds_active _ _ Hl), (visited_loop_spec _ lt _ _ 0 Hl) by lia.
    rewrite drop_0, bool_decide_eq_false_2; [done|]. rewrite Hin. unfold edge. rewrite (tr_self _ _ _ _ _ Ht). lia.
Qed.

Lemma token_live s p k : token_of s p k → is_Some (heap s !! p).
Proof. intros (d & t & E & _). unfold tok_at in E. apply bind_Some in E as (n & Hn & _). by eexists. Qed.

Lemma token_at k b s c root p ky : tree k b s c root → token_of s p ky →
  ∃ d t, tok_at s p = Some (d, t) ∧ toks s !! d = Some t ∧ tkey (ctoken t) = ky ∧ (1 ≤ refcnt t ≤ b)%Z ∧ type ky ≠ JOIN_TKN ∧ type ky ≠ FORK_TKN.
Proof.
  intros Ht (d & t & E & Hk). exists d, t. split; [done|]. unfold tok_at in E. apply bind_Some in E as (n & Hn & E). apply bind_Some in E as (d' & Hd & E).
  apply bind_Some in E as (t' & Ht' & [= -> ->]). split; [done|]. split; [done|]. destruct (tr_data _ _ _ _ _ Ht p n Hn) as (d0 & Hd0 & Hd1).
  assert (d0 = d) as -> by congruence. rewrite Ht' in Hd1. destruct Hd1 as (H1 & H2 & H3). split; [done|]. by rewrite <- Hk, tkey_type.
Qed.

Lemma loopstop_self k b s c root p : tree k b s c root → is_Some (heap s !! p) → cmd_loopstop elem_type s p = Some (Some p).
Proof.
  intros Ht [n Hn]. unfold cmd_loopstop. rewrite Hn. cbn. destruct (tr_data _ _ _ _ _ Ht p n Hn) as (d & -> & Hd). cbn. destruct (toks s !! d) as [t|].
  - by rewrite decide_False by apply Hd.
  - destruct (Z.eqb_spec (elem_type d) JOIN_TKN_value); done.
Qed.

Lemma nodes_equal_sound k b s c root fuel p q kp kq : tree k b s c root → token_of s p kp → token_of s q kq →
  ∃ r, cmd_nodes_equal elem_type (S fuel) s p q = Some r ∧ (r = true → type kp = type kq ∧ (plain (type kp) = true → kp = kq)).
Proof.
  intros Ht Hp Hq. destruct (token_at _ _ _ _ _ _ _ Ht Hp) as (dp & tp & Ep & _ & <- & _ & Hj & Hf). destruct (token_at _ _ _ _ _ _ _ Ht Hq) as (dq & tq & Eq & _ & <- & _).
  destruct (tree_node _ _ _ _ _ p Ht (token_live _ _ _ Hp)) as (_ & _ & _ & _ & _ & Lp). destruct (tree_node _ _ _ _ _ q Ht (token_live _ _ _ Hq)) as (_ & _ & _ & _ & _ & Lq).
  cbn [cmd_nodes_equal]. rewrite Ep. ostep. rewrite Eq. ostep. rewrite !tkey_type. set (a := ctoken tp) in *. set (z := ctoken tq) in *.
  destruct (negb (bool_decide (type a = type z) && eqb (allowrepeat a) (allowrepeat z))) eqn:E1; [by eexists|].
  apply negb_false_iff, andb_true_iff in E1 as [E1%bool_decide_eq_true E1'%eqb_prop].
  destruct (plain (type a) && negb (bool_decide (text a = text z))) eqn:E2; [by eexists|]. rewrite Lp. ostep. rewrite Lq. ostep. cbn [eqb negb].
  destruct (negb (same_varname (varname a) (varname z))) eqn:E3; [by eexists|]. apply negb_false_iff in E3.
  assert (varname a = varname z) as E4. { unfold same_varname in E3. destruct (varname a), (varname z); try done. by apply bool_decide_eq_true in E3 as ->. }
  assert (plain (type a) = true → text a = text z) as E5.
  { intros Hpl. rewrite Hpl in E2. by apply negb_false_iff, bool_decide_eq_true in E2. }
  rewrite tkey_type in Hf. assert (∀ r, (r = true → type a = RANGE_TKN → tmin a = tmin z ∧ tmax a = tmax z) →
    r = true → type a = type z ∧ (plain (type a) = true → tkey a = tkey z)) as Hend.
  { intros r Hr Hr1. split; [done|]. intros Hpl. unfold tkey. cbv zeta. rewrite <- E1, E1', E4, (E5 Hpl).
    destruct (bool_decide (type a = RANGE_TKN)) eqn:Hrg; [|reflexivity]. apply bool_decide_eq_true in Hrg. by destruct (Hr Hr1 Hrg) as [-> ->]. }
  revert Hend. destruct (type a) eqn:Ety; intros Hend; try done; (eexists; split; [reflexivity|]); apply Hend; try done.
  intros [Hx%Z.eqb_eq Hy%Z.eqb_eq]%andb_true_iff _. done.
Qed.

(** A token that keeps its key changes. *)
Lemma tree_upd k b b' s c root d t t' : tree k b s c root → toks s !! d = Some t → tkey (ctoken t') = tkey (ctoken t) →
  (b ≤ b')%Z → (1 ≤ refcnt t' ≤ b')%Z → tree k b' (upd_tok d t' s) c root.
Proof.
  intros Ht Hd Hk Hb Hr. pose proof (upd_same d t t' s Hd Hk) as [Hs1 Hs2]. assert (type (ctoken t') = type (ctoken t)) as Hty by exact (f_equal type Hk).
  destruct Ht as [H1 H2 H3 H4 H5 H6 H7 H8]. split; try done.
  - intros p n Hp. destruct (H2 p n Hp) as (d0 & Hd0 & Hx). exists d0. split; [done|]. cbn. destruct (decide (d = d0)) as [<-|Hne].
    + rewrite lookup_insert_eq. rewrite Hd in Hx. rewrite Hty. destruct Hx as (? & ? & _). done.
    + rewrite lookup_insert_ne by done. destruct (toks s !! d0); [|done]. destruct Hx as (? & ? & ?). split_and!; try done; lia.
  - intros p kp q Hp Hkp Hne Hpq. destruct (H7 p kp q Hp) as (k0 & Hk0 & Hx); [by apply Hs1|done|done|]. exists k0. split; [by apply Hs1|done].
Qed.

Lemma lower_attr_ok k b s c root cold cnew kc kn : tree k b s c root → token_of s cold kc → token_of s cnew kn →
  ∃ s', lower_attr cold cnew s = Some s' ∧ tree k b s' c root ∧ same_keys s s' ∧ heap s' = heap s.
Proof.
  intros Ht Hc Hn. destruct (token_at _ _ _ _ _ _ _ Ht Hc) as (d & t & E & Ed & _ & Hr & _). destruct (token_at _ _ _ _ _ _ _ Ht Hn) as (dn & tn & En & _).
  unfold lower_attr. rewrite E. ostep. rewrite En. ostep. eexists. split; [reflexivity|]. destruct (decide _); [|split; [done|split; [apply same_keys_refl|done]]].
  split; [by eapply tree_upd|]. split; [by eapply upd_same|done].
Qed.

Lemma find_slot_total l m n i x : fits l m → n + i ≤ length l → is_Some (find_slot n i (mkv l m) x).
Proof.
  intros Hf. revert i. induction n as [|n IH]; intros i Hi; [by eexists|]. cbn [find_slot]. destruct (lookup_lt_is_Some_2 l i) as [y Hy]; [lia|].
  assert (vector_slot (mkv l m) i = Some y) as ->. { unfold vector_slot. cbn. unfold pad. by apply lookup_app_l_Some. }
  ostep. destruct (decide _); [by eexists|]. apply IH. lia.
Qed.

Lemma reparent_ok p s l : wf (nnodes s) → holds (onodes s) l → (Z.of_nat (length l) < 2 ^ 31)%Z →
  ∃ on nn l', reparent p s = Some (set_nodes on nn s) ∧ wf nn ∧ holds on l' ∧ length l' ≤ S (length l).
Proof.
  intros Hw Hl Hb. destruct (wf_inv _ Hw) as (ln & m & Hv & Hf). unfold reparent. rewrite Hv. cbn [vector_active mkv active].
  destruct (find_slot_total ln m (length ln) 0 p Hf) as [k ->]; [lia|]. ostep. destruct k as [i|].
  - destruct (vector_unset_spec ln m i Hf) as [-> Hf']. ostep. destruct (holds_set _ _ p Hl Hb) as (on & -> & Hon). ostep.
    do 3 eexists. split; [reflexivity|]. split; [by apply wf_mkv|]. split; [exact Hon|]. rewrite length_app. cbn. lia.
  - exists (onodes s), (nnodes s), l. split; [by destruct s|]. split; [done|]. split; [done|lia].
Qed.

Inductive line (c : ptr → ptr → nat) : ptr → nat → Prop :=
  | line_leaf p : (∀ x, ¬ edge c p x) → line c p 1
  | line_step p q m : (∀ x, edge c p x ↔ x = q) → line c q m → line c p (S m).

Lemma chain_line s c p ks e : chain s c p ks e → ∃ q, (∀ x, edge c p x ↔ x = q) ∧ line c q (length ks + 2).
Proof.
  induction 1 as [p q r e k Hp Hq Ht Hr He Hn|p q k ks e Hp Hq Ht Hc (r & Hr & IH)]; exists q; (split; [done|]).
  - cbn. by apply (line_step _ q r); [|apply line_leaf].
  - cbn [length]. by apply (line_step _ q r).
Qed.

Lemma line_frame c c' p m : line c p m → same_below c c' p → line c' p m.
Proof.
  induction 1 as [p Hp|p q m Hp Hl IH]; intros Hb.
  - apply line_leaf. intros x. by rewrite <- (Hb p x).
  - assert (edge c p q) as Hpq by (by apply Hp). apply (line_step _ p q); [intros x; by rewrite <- Hp, <- (Hb p x)|]. apply IH. by eapply same_below_step.
Qed.

Lemma tree_nodes k k' b s c root on nn l : tree k b s c root → wf nn → holds on l → length l ≤ k' → k ≤ k' → tree k' b (set_nodes on nn s) c root.
Proof. intros [H1 H2 H3 H4 H5 H6 H7 H8] Hw Hl Hk Hkk. split; try done; [by eapply rep_ext|]. split; [by exists l|done]. Qed.

Lemma single_list (l : list ptr) x : NoDup l → (∀ q, q ∈ l ↔ q = x) → l = [x].
Proof.
  intros Hn Hl. destruct l as [|y l]; [assert (x ∈ []) as ?%elem_of_nil by (by apply Hl); done|]. assert (y = x) as -> by (apply Hl; by left).
  apply NoDup_cons in Hn as [Hx _]. destruct l as [|z l]; [done|]. assert (z = x) as -> by (apply Hl; right; by left). destruct Hx. by left.
Qed.

Lemma reparent_line b c root m p : line c p m → ∀ k s fuel l, tree k b s c root → is_Some (heap s !! p) → m ≤ fuel → holds (onodes s) l → length l ≤ k →
  (Z.of_nat (k + m) < 2 ^ 31)%Z →
  ∃ on nn l', cmd_reparent_tree elem_type fuel p s = Some (set_nodes on nn s) ∧ wf nn ∧ holds on l' ∧ length l' ≤ length l + m.
Proof.
  induction 1 as [p Hp|p q m Hp Hl IH]; intros k s fuel l Ht Hin Hf Ho Hk Hb; (destruct fuel as [|fuel]; [lia|]); cbn [cmd_reparent_tree];
    rewrite (loopstop_self _ _ _ _ _ _ Ht Hin); ostep; destruct (tr_nodes _ _ _ _ _ Ht) as [_ Hw];
    destruct (reparent_ok p s l Hw Ho ltac:(lia)) as (on & nn & l1 & -> & Hw1 & Ho1 & Hl1); ostep;
    change (degree (set_nodes on nn s) p) with (degree s p); destruct (tree_node _ _ _ _ _ p Ht Hin) as (ks & -> & Hch & Hks & Hnd & _); ostep.
  - assert (ks = []) as ->. { destruct ks as [|x ks]; [done|]. destruct (Hp x). apply Hks. by left. }
    cbn [length each_child]. exists on, nn, l1. split; [done|]. split; [done|]. split; [done|lia].
  - assert (ks = [q]) as -> by (apply single_list; [done|]; intros x; by rewrite Hks, Hp). cbn [length each_child].
    change (child (set_nodes on nn s) p 0) with (child s p 0). rewrite (Hch 0 q eq_refl). ostep. rewrite decide_False.
    2: { intros [= ->]. assert (edge c p p) as Hx by (by apply Hp). unfold edge in Hx. rewrite (tr_self _ _ _ _ _ Ht) in Hx. lia. }
    assert (length l1 ≤ S k) as Hl1k by lia. pose proof (tree_nodes k (S k) b s c root on nn l1 Ht Hw1 Ho1 Hl1k ltac:(lia)) as Ht1.
    assert (is_Some (heap s !! q)) as Hq by (apply (rep_closed _ _ _ (tr_rep _ _ _ _ _ Ht) p q); by apply Hp).
    destruct (IH (S k) (set_nodes on nn s) fuel l1 Ht1 Hq ltac:(lia) Ho1 Hl1k ltac:(lia)) as (on2 & nn2 & l2 & -> & Hw2 & Ho2 & Hl2). ostep.
    exists on2, nn2, l2. split; [done|]. split; [done|]. split; [done|lia].
Qed.

(** ** A branch is added *)

Definition without (c : ptr → ptr → nat) (a x : ptr) (p q : ptr) : nat := c p q - if decide (p = a ∧ q = x) then 1 else 0.
Definition moved (c : ptr → ptr → nat) (a a' x : ptr) (p q : ptr) : nat := without c a x p q + if decide (p = a' ∧ q = x) then 1 else 0.

Lemma without_edge c a x p q : (c a x ≤ 1) → edge (without c a x) p q ↔ edge c p q ∧ (p, q) ≠ (a, x).
Proof.
  intros H1. unfold edge, without. destruct (decide (p = a ∧ q = x)) as [[-> ->]|Hne]; [split; [lia|by intros [_ []]]|].
  rewrite Nat.sub_0_r. split; [intros H; split; [done|]; intros [= -> ->]; by apply Hne|tauto].
Qed.

Lemma moved_edge c a a' x p q : (c a x ≤ 1) → edge (moved c a a' x) p q ↔ (edge c p q ∧ (p, q) ≠ (a, x)) ∨ (p, q) = (a', x).
Proof.
  intros H1. rewrite <- (without_edge c a x p q H1). unfold edge, moved. destruct (decide (p = a' ∧ q = x)) as [[-> ->]|Hne]; [split; [by right|lia]|].
  rewrite Nat.add_0_r. split; [by left|]. intros [?|[= -> ->]]; [done|]. by destruct Hne.
Qed.

Lemma same_keys_tree k b s s' c root : same_keys s s' → tree k b s c root → ∀ p kp q, rtc (edge c) root p → token_of s' p kp → type kp ≠ END_TKN → edge c p q →
  ∃ x, token_of s' q x ∧ (plain (type x) = true ∨ type x = END_TKN).
Proof. intros [Hs _] Ht p kp q Hp Hk Hne Hpq. destruct (tr_kids _ _ _ _ _ Ht p kp q Hp) as (x & Hx & ?); [by apply Hs|done|done|]. exists x. split; [by apply Hs|done]. Qed.

(** The heap changes its edges. *)
Lemma tree_edges k k' b s c c' root h : tree k b s c root → info <$> h = info <$> heap s → rep k' h c' → k ≤ k' →
  (∀ p p' q, edge c' p q → edge c' p' q → p = p') → (∀ p q, c' p q ≤ 1) → (∀ p, c' p p = 0) → (∀ p, c' p root = 0) →
  (∀ p kp q, rtc (edge c') root p → token_of (set_heap h s) p kp → type kp ≠ END_TKN → edge c' p q →
     ∃ k, token_of (set_heap h s) q k ∧ (plain (type k) = true ∨ type k = END_TKN)) →
  tree k' b (set_heap h s) c' root.
Proof.
  intros [H1 H2 H3 H4 H5 H6 H7 ((l & Hl & Hlk) & Hw)] Hi Hr Hk G3 G4 G5 G6 G7. split; try done.
  - intros p n Hp. cbn in *. apply (f_equal (.!! p)) in Hi. rewrite !lookup_fmap, Hp in Hi. destruct (heap s !! p) as [n0|] eqn:E; [|done].
    destruct (H2 p n0 E) as (d & Hd & Hx). exists d. split; [|done]. unfold info in Hi. cbn in Hi. congruence.
  - split; [exists l; split; [done|lia]|done].
Qed.

Lemma chain_inv s c p ks e : chain s c p ks e →
  (ks = [] ∧ ∃ q r k, (∀ x, edge c p x ↔ x = q) ∧ token_of s q k ∧ type k = END_TKN ∧ (∀ x, edge c q x ↔ x = r) ∧ element_of s r e)
  ∨ ∃ q k ks', ks = k :: ks' ∧ (∀ x, edge c p x ↔ x = q) ∧ token_of s q k ∧ plain (type k) = true ∧ chain s c q ks' e.
Proof. intros [? q r ? k|? q k ks' ?]; [left; split; [done|]; by exists q, r, k|right; by exists q, k, ks']. Qed.

(** What is above a node of the tree is in the tree. *)
Lemma above_reached k b s c root p x : tree k b s c root → tc (edge c) p x → rtc (edge c) root x → rtc (edge c) root p.
Proof.
  intros Ht Hpx. assert (∀ p q, edge c p q → rtc (edge c) root q → rtc (edge c) root p) as H1.
  { intros a z Haz Hz. apply rtc_inv_r in Hz as [<-|(y & Hy & Hyz)]; [unfold edge in Haz; rewrite (tr_root _ _ _ _ _ Ht) in Haz; lia|].
    by rewrite (tr_one _ _ _ _ _ Ht _ _ _ Haz Hyz). }
  induction Hpx as [p q Hpq|p q r Hpq Hqr IH]; intros Hr; [by eapply H1|]. eapply H1; [done|]. by apply IH.
Qed.

Section add.
Context (k : nat) (b : Z) (s : merging) (c : ptr → ptr → nat) (root old new cnew : ptr) (ks : list cmd_token) (e : nat) (ko kc : cmd_token).
Context (Ht : tree k b s c root) (Hch : chain s c new ks e) (Hnew : ∀ x, edge c new x ↔ x = cnew) (Hold : rtc (edge c) root old)
  (Hko : token_of s old ko) (Hkt : type ko ≠ END_TKN) (Hun : ¬ rtc (edge c) root new) (Hkc : token_of s cnew kc) (Hkct : plain (type kc) = true ∨ type kc = END_TKN).

Let c1 := without c new cnew.
Let c2 := moved c new old cnew.

Lemma add_edge_new : edge c new cnew.
Proof. by apply Hnew. Qed.

(** What is below the new branch cannot be reached from the root. *)
Lemma below_new_apart x : rtc (edge c) cnew x → x ≠ old ∧ x ≠ new ∧ x ≠ root ∧ ¬ rtc (edge c) root x.
Proof.
  intros Hx. assert (tc (edge c) new x) as Htc by (eapply tc_rtc_r; [apply tc_once, add_edge_new|done]).
  assert (¬ rtc (edge c) root x) as Hno by (intros Hr; by apply Hun, (above_reached k b s c root new x)).
  split_and!; [congruence| |intros ->; by apply Hno|done]. intros ->. by apply (chain_no_return _ _ _ _ _ Hch).
Qed.

Lemma old_not_new : old ≠ new.
Proof. intros ->. done. Qed.

Lemma moved_below : same_below c c2 cnew.
Proof.
  intros x y Hx. destruct (below_new_apart x Hx) as (Ho & Hn & _). unfold c2. rewrite moved_edge by apply Ht.
  split; [intros H; left; split; [done|congruence]|]. intros [[? _]|[= -> _]]; done.
Qed.

Lemma removed_below : same_below c c1 cnew.
Proof.
  intros x y Hx. destruct (below_new_apart x Hx) as (Ho & Hn & _). unfold c1. rewrite without_edge by apply Ht.
  split; [intros H; split; [done|congruence]|tauto].
Qed.

(** From the root: as before, or through the new branch. *)
Lemma moved_reach x : rtc (edge c2) root x → rtc (edge c) root x ∨ rtc (edge c) cnew x.
Proof.
  intros Hx. remember root as r eqn:Er in Hx. assert (rtc (edge c) root r ∨ rtc (edge c) cnew r) as Hr by (left; by rewrite Er). clear Er. revert Hr.
  induction Hx as [p|p q r Hpq _ IH]; [done|]. intros Hp. apply IH. unfold c2 in Hpq. rewrite moved_edge in Hpq by apply Ht.
  destruct Hpq as [[Hpq _]|[= -> ->]]; [|by right]. destruct Hp as [Hp|Hp]; [left|right]; by eapply rtc_r.
Qed.

Lemma add_new_ok fuel : length ks + 2 ≤ fuel → (Z.of_nat (k + length ks + 3) < 2 ^ 31)%Z →
  ∃ s', add_new elem_type fuel old new cnew s = Some s' ∧ info <$> heap s' = info <$> heap s ∧ same_keys s s' ∧ tree (k + length ks + 3) b s' c2 root.
Proof.
  intros Hf Hb. unfold add_new. pose proof (token_live _ _ _ Hkc) as Hcl. pose proof add_edge_new as Hedge.
  destruct (rep_closed _ _ _ (tr_rep _ _ _ _ _ Ht) _ _ Hedge) as [Hnl _].
  destruct (remove_edge_spec k (heap s) c new cnew (tr_rep _ _ _ _ _ Ht) Hnl Hcl) as (h1 & -> & Hi1 & Hr1). ostep.
  change (rep k h1 c1) in Hr1. pose proof (info_same h1 s Hi1) as Hk1.
  assert (∀ p q, edge c1 p q → edge c p q) as Hsub by (intros p q; unfold c1; rewrite without_edge by apply Ht; tauto).
  assert (∀ p, rtc (edge c1) root p → rtc (edge c) root p) as Hsubr by (intros p Hp; eapply rtc_subrel; [|exact Hp]; intros ? ?; apply Hsub).
  assert (tree k b (set_heap h1 s) c1 root) as Ht1.
  { apply (tree_edges k k b s c); [done|done|done|done|..].
    - intros p p' q Hp%Hsub Hp'%Hsub. by eapply (tr_one _ _ _ _ _ Ht).
    - intros p q. unfold c1, without. pose proof (tr_once _ _ _ _ _ Ht p q). lia.
    - intros p. unfold c1, without. rewrite (tr_self _ _ _ _ _ Ht). lia.
    - intros p. unfold c1, without. rewrite (tr_root _ _ _ _ _ Ht). lia.
    - intros p kp q Hp Hkp Hne Hpq. by eapply (same_keys_tree k b s _ c root); [done|done|apply Hsubr|..]; eauto. }
  destruct (tr_nodes _ _ _ _ _ Ht) as ((l & Hl & Hlk) & Hw).
  destruct (chain_line s c new ks e Hch) as (q & Hq & Hline). assert (q = cnew) as -> by (apply Hnew; by apply Hq).
  pose proof (line_frame c c1 cnew _ Hline removed_below) as Hline1.
  assert (is_Some (h1 !! cnew)) as Hcl1 by (by eapply info_is_Some).
  destruct (reparent_line b c1 root _ cnew Hline1 k (set_heap h1 s) fuel l Ht1 Hcl1 ltac:(lia) Hl Hlk ltac:(lia)) as (on & nn & l' & -> & Hw' & Hl' & Hlk'). ostep.
  change (heap (set_nodes on nn (set_heap h1 s))) with h1.
  assert (is_Some (h1 !! old)) as Hol1 by (eapply info_is_Some; [done|by eapply token_live]).
  destruct (add_edge_spec k h1 c1 old cnew Hr1 Hol1 Hcl1 ltac:(lia)) as (h2 & -> & Hi2 & Hr2). ostep. eexists. split; [reflexivity|].
  change (rep (S k) h2 c2) in Hr2. assert (info <$> h2 = info <$> heap s) as Hi by congruence. split; [exact Hi|].
  assert (same_keys s (set_heap h2 (set_nodes on nn (set_heap h1 s)))) as Hks by (exact (info_same h2 s Hi)). split; [exact Hks|].
  pose proof (tree_nodes k (k + length ks + 3) b (set_heap h1 s) c1 root on nn l' Ht1 Hw' Hl' ltac:(lia) ltac:(lia)) as Ht2.
  apply (tree_edges (k + length ks + 3) (k + length ks + 3) b _ c1); [exact Ht2|exact Hi2|by eapply rep_ext; [exact Hr2|lia|]|done|..].
  - intros p p' x. unfold c2. rewrite !moved_edge by apply Ht. pose proof (tr_one _ _ _ _ _ Ht) as H1.
    intros [[Hp Hpn]|E1] [[Hp' Hpn']|E2]; [by eapply H1| | |congruence].
    + injection E2 as -> ->. destruct Hpn. by rewrite (H1 _ _ _ Hp Hedge).
    + injection E1 as -> ->. destruct Hpn'. by rewrite (H1 _ _ _ Hp' Hedge).
  - intros p x. unfold c2, moved, without. pose proof (tr_once _ _ _ _ _ Ht p x). destruct (decide (p = old ∧ x = cnew)) as [[-> ->]|]; [|lia].
    assert (c old cnew = 0); [|lia]. destruct (c old cnew) eqn:E; [done|]. destruct old_not_new. apply (tr_one _ _ _ _ _ Ht _ _ cnew); [unfold edge; rewrite E; lia|done].
  - intros p. unfold c2, moved, without. rewrite (tr_self _ _ _ _ _ Ht). rewrite (decide_False (P := p = old ∧ p = cnew)); [lia|]. intros [-> E]. destruct (below_new_apart cnew) as (Ho & _); [done|congruence].
  - intros p. unfold c2, moved, without. rewrite (tr_root _ _ _ _ _ Ht). rewrite (decide_False (P := p = old ∧ root = cnew)); [lia|]. intros [-> E]. destruct (below_new_apart cnew) as (_ & _ & Hx & _); [done|congruence].
  - intros p kp x Hp Hkp Hne Hpx. assert (∀ y z, token_of s y z ↔ token_of (set_heap h2 (set_nodes on nn (set_heap h1 s))) y z) as Htok by apply Hks.
    setoid_rewrite <- Htok. apply Htok in Hkp. apply moved_reach in Hp. unfold c2 in Hpx. rewrite moved_edge in Hpx by apply Ht.
    destruct Hpx as [[Hpx _]|[= -> ->]]; [|by exists kc]. destruct Hp as [Hp|Hp]; [by eapply (tr_kids _ _ _ _ _ Ht)|].
    eapply (chain_kids _ _ _ _ _ Hch); [|done..]. by eapply rtc_l.
Qed.

(** ** The commands after that *)

Context (ks1 : list cmd_token) (Hl1 : leads s c root ks1 old).

Lemma spells_old x e' (s' : merging) : same_keys s s' → spells s' c2 cnew x e' ↔ spells s c cnew x e'.
Proof.
  intros Hk. assert (∀ p y f, rtc (edge c) cnew p → spells s c p y f → spells s' c2 p y f) as H1.
  { intros p y f Hp Hs. induction Hs as [p q r f z Hpq Hq Hz Hqr Hr|p q z y f Hpq Hq Hz Hs IH].
    - apply (spells_end _ _ p q r f z); [by apply moved_below|by apply Hk|done|apply moved_below; [by eapply rtc_r|done]|by apply Hk].
    - apply (spells_word _ _ p q z); [by apply moved_below|by apply Hk|done|]. apply IH. by eapply rtc_r. }
  assert (∀ p y f, rtc (edge c) cnew p → spells s' c2 p y f → spells s c p y f) as H2.
  { intros p y f Hp Hs. induction Hs as [p q r f z Hpq Hq Hz Hqr Hr|p q z y f Hpq Hq Hz Hs IH]; (assert (edge c p q) as Hpq' by (by apply moved_below)).
    - apply (spells_end _ _ p q r f z); [done|by apply Hk|done|apply moved_below; [by eapply rtc_r|done]|by apply Hk].
    - apply (spells_word _ _ p q z); [done|by apply Hk|done|]. apply IH. by eapply rtc_r. }
  split; [by apply H2|by apply H1].
Qed.

(** The new branch spells what is left of the command. *)
Lemma branch_spells (s' : merging) : same_keys s s' →
  (plain (type kc) = true ∧ ∃ ks', ks = kc :: ks' ∧ ∀ x e', spells s' c2 cnew x e' ↔ x = ks' ∧ e' = e)
  ∨ (type kc = END_TKN ∧ ks = [] ∧ ∀ r e', edge c2 cnew r → element_of s' r e' → e' = e) ∧ ∃ r, edge c2 cnew r ∧ element_of s' r e.
Proof.
  intros Hk. destruct (chain_inv _ _ _ _ _ Hch) as [(Hks & q & r & k0 & Hq & Hkq & Hend & Hr & He)|(q & k0 & ks' & Hks & Hq & Hkq & Hpl & Hc)];
    assert (q = cnew) as -> by (apply Hnew; by apply Hq); rewrite (token_inj _ _ _ _ Hkc Hkq).
  - right. assert (∀ x, edge c2 cnew x ↔ x = r) as Hx by (intros x; rewrite <- (moved_below cnew x (rtc_refl _ _)); apply Hr). split.
    + split; [done|]. split; [done|]. intros x e' ->%Hx He'. apply Hk in He'. by eapply element_inj.
    + exists r. split; [by apply Hx|by apply Hk].
  - left. split; [done|]. exists ks'. split; [done|]. intros x e'. rewrite spells_old by done. by apply chain_spells.
Qed.

Lemma kept_edge p q : rtc (edge c) root p → edge c p q → edge c2 p q.
Proof. intros Hp Hpq. unfold c2. rewrite moved_edge by apply Ht. left. split; [done|]. intros [= -> _]. done. Qed.

Lemma old_edge p q : rtc (edge c) root p → edge c2 p q → edge c p q ∧ rtc (edge c) root q ∨ p = old ∧ q = cnew.
Proof. intros Hp. unfold c2. rewrite moved_edge by apply Ht. intros [[Hpq _]|[= -> ->]]; [left; split; [done|by eapply rtc_r]|by right]. Qed.

Lemma leads_app_spells (s' : merging) : same_keys s s' → ∀ p y q x e', leads s c p y q → rtc (edge c) root p → spells s' c2 q x e' → spells s' c2 p (y ++ x) e'.
Proof.
  intros Hk p y q x e' Hl. revert x. induction Hl as [p|p q r y z Hl IH Hqr Hr Hz]; intros x Hp Hs; [done|]. rewrite <- app_assoc. apply IH; [done|].
  cbn. apply (spells_word _ _ q r z); [|by apply Hk|done|done]. apply kept_edge; [|done]. etrans; [done|]. by eapply leads_rtc.
Qed.

(** From [p]: the commands as before, or along a walk to [old] and the rest. *)
Lemma spells_back (s' : merging) p x e' : same_keys s s' → spells s' c2 p x e' → rtc (edge c) root p →
  ∀ y, leads s c root y p → spells s c p x e' ∨ e' = e ∧ leads s c root ks1 old ∧ y ++ x = ks1 ++ ks.
Proof.
  intros Hk Hs. induction Hs as [p q r f z Hpq Hq Hz Hqr Hr|p q z x f Hpq Hq Hz Hs IH]; intros Hp y Hy.
  - destruct (old_edge p q Hp Hpq) as [[Hpq' Hq']|[-> ->]].
    + left. destruct (old_edge q r Hq' Hqr) as [[Hqr' _]|[-> ->]]; [by apply (spells_end _ _ p q r f z); [|apply Hk|..|apply Hk]|].
      exfalso. apply Hk in Hq. rewrite (token_inj _ _ _ _ Hko Hq) in Hkt. done.
    + right. apply Hk in Hq. rewrite <- (token_inj _ _ _ _ Hkc Hq) in Hz. destruct (branch_spells s' Hk) as [[Hpl _]|[(_ & Hks & He) _]]; [by rewrite Hz in Hpl|].
      split; [by eapply He|]. split; [done|]. rewrite Hks, !app_nil_r. by eapply leads_unique.
  - destruct (old_edge p q Hp Hpq) as [[Hpq' Hq']|[-> ->]].
    + destruct (IH Hq' (y ++ [z])) as [Hs'|(-> & Hl & Hx)].
      * apply (leads_snoc _ _ root p q y z); [done|done|by apply Hk|done].
      * left. by apply (spells_word _ _ p q z); [|apply Hk|..].
      * right. split; [done|]. split; [done|]. by rewrite <- Hx, <- app_assoc.
    + right. apply Hk in Hq. rewrite (token_inj _ _ _ _ Hq Hkc) in *. destruct (branch_spells s' Hk) as [[_ (ks' & Hks & Hsp)]|[(He & _) _]]; [|by rewrite He in Hz].
      apply Hsp in Hs as [-> ->]. split; [done|]. split; [done|]. rewrite Hks. f_equal. by eapply leads_unique.
Qed.

Lemma spells_moved (s' : merging) x e' : same_keys s s' → spells s' c2 root x e' ↔ spells s c root x e' ∨ x = ks1 ++ ks ∧ e' = e.
Proof.
  intros Hk. split.
  - intros Hs. destruct (spells_back s' root x e' Hk Hs) with (y := @nil cmd_token) as [H|(-> & _ & Hx)]; [done|by apply leads_nil|by left|by right].
  - intros [Hs|[-> ->]].
    + assert (∀ p y f, rtc (edge c) root p → spells s c p y f → spells s' c2 p y f) as H1; [|by apply H1].
      clear Hs. intros p y f Hp Hs. induction Hs as [p q r f z Hpq Hq Hz Hqr Hr|p q z y f Hpq Hq Hz Hs IH].
      * apply (spells_end _ _ p q r f z); [by apply kept_edge|by apply Hk|done|apply kept_edge; [by eapply rtc_r|done]|by apply Hk].
      * apply (spells_word _ _ p q z); [by apply kept_edge|by apply Hk|done|]. apply IH. by eapply rtc_r.
    + apply (leads_app_spells s' Hk root ks1 old); [done|done|].
      assert (edge c2 old cnew) as Hoc by (unfold c2; rewrite moved_edge by apply Ht; by right).
      destruct (branch_spells s' Hk) as [[Hpl (ks' & -> & Hsp)]|[(Hend & -> & _) (r & Hr & He)]].
      * apply (spells_word _ _ old cnew kc); [done|by apply Hk|done|by apply Hsp].
      * apply (spells_end _ _ old cnew r e kc); [done|by apply Hk|done|done|done].
Qed.
End add.

(** ** Merging *)

(** The loop over the old children: nothing to share, or the first child that is
    equal is merged with. *)
Lemma old_loop_spec k b s c root mergef fuel old cnew kc l n i : tree k b s c root → 
  (∀ i x, l !! i = Some x → child s old i = Some x) → degree s old = Some (length l) → n + i = length l →
  (∀ x, x ∈ l → x ≠ old ∧ ∃ kx, token_of s x kx ∧ (plain (type kx) = true ∨ type kx = END_TKN)) → token_of s cnew kc →
  old_loop elem_type mergef (S fuel) 1 (Some old) old cnew n i s = Some (length l, s)
  ∨ ∃ i' cold, l !! i' = Some cold ∧ token_of s cold kc ∧ plain (type kc) = true
    ∧ old_loop elem_type mergef (S fuel) 1 (Some old) old cnew n i s = (s1 ← lower_attr cold cnew s; s2 ← mergef cold cnew s1; Some (i', s2)).
Proof.
  intros Ht Hch Hdeg Hn Hl Hkc. revert i Hn. induction n as [|n IH]; intros i Hn; cbn [old_loop].
  { left. by rewrite <- Hn. }
  destruct (lookup_lt_is_Some_2 l i ltac:(lia)) as [cold Hc]. rewrite (Hch i cold Hc). ostep.
  destruct (Hl cold) as (Hne & kx & Hkx & Hpl); [by eapply list_elem_of_lookup_2|]. rewrite decide_False by congruence.
  destruct (nodes_equal_sound k b s c root fuel cold cnew kx kc Ht Hkx Hkc) as (r & -> & Hr). ostep. destruct r; [|apply IH; lia].
  destruct (Hr eq_refl) as [Hty Hkey]. destruct (token_at _ _ _ _ _ _ _ Ht Hkx) as (d & t & E & _ & Htk & _ & _ & Hnf). rewrite E. ostep.
  destruct (token_at _ _ _ _ _ _ _ Ht Hkc) as (dn & tn & En & _). rewrite En. ostep. rewrite <- (tkey_type (ctoken t)), Htk.
  destruct (decide (type kx = END_TKN)) as [He|He].
  - left. cbn [Z.ltb Z.compare]. rewrite Hdeg. ostep. done.
  - right. destruct Hpl as [Hpl|Hpl]; [|done]. exists i, cold. split; [done|]. rewrite <- (Hkey Hpl). split; [done|]. split; [done|].
    unfold past_fork. rewrite <- (tkey_type (ctoken t)), Htk, decide_False by done. ostep. done.
Qed.

(** What merging a command of [n] words leaves. *)
Record merged (k : nat) (b : Z) (n : nat) (s : merging) (c : ptr → ptr → nat) (root : ptr) (s' : merging) (c' : ptr → ptr → nat) : Prop := Merged {
  me_info : info <$> heap s' = info <$> heap s;
  me_keys : same_keys s s';
  me_tree : tree (k + n + 3) (b + Z.of_nat n + 1) s' c' root;
  me_kept : ∀ p q, rtc (edge c) root p → edge c p q → edge c' p q }.

Lemma leads_frame s s' c p ks q : same_keys s s' → leads s c p ks q → leads s' c p ks q.
Proof. intros [Hk _]. induction 1 as [|p q r ks x _ IH Hqr Hr Hx]; [constructor|]. by apply (leads_snoc _ _ p q r); [|..|apply Hk|]. Qed.

Lemma spells_frame s s' c p ks e : same_keys s s' → spells s c p ks e ↔ spells s' c p ks e.
Proof.
  intros [Hk He]. split; induction 1 as [p q r e k Hpq Hq Ht Hqr Hr|p q k ks e Hpq Hq Ht Hs IH].
  - by apply (spells_end _ _ p q r e k); [|apply Hk|..|apply He].
  - by apply (spells_word _ _ p q k); [|apply Hk|..].
  - by apply (spells_end _ _ p q r e k); [|apply Hk|..|apply He].
  - by apply (spells_word _ _ p q k); [|apply Hk|..].
Qed.

Lemma data_lookup (h h' : gmap ptr gnode) p (n : gnode) : info <$> h' = info <$> h → h !! p = Some n → ∃ n', h' !! p = Some n' ∧ data n' = data n.
Proof.
  intros Hi Hn. apply (f_equal (.!! p)) in Hi. rewrite !lookup_fmap, Hn in Hi. destruct (h' !! p) as [n'|]; [|done]. exists n'. split; [done|].
  unfold info in Hi. cbn in Hi. congruence.
Qed.

(** The count of a token that was raised is not zero. *)
Lemma raised_ok k b s c root d t : tree k b s c root → toks s !! d = Some t → (∃ p n, heap s !! p = Some n ∧ data n = Some d) → (b + 1 < 2 ^ 32)%Z →
  let s1 := upd_tok d (set_refcnt (u32_add (refcnt t) 1) t) s in same_keys s s1 ∧ tree k (b + 1) s1 c root.
Proof.
  intros Ht Hd (p & n & Hp & Hn) Hb s1. destruct (tr_data _ _ _ _ _ Ht p n Hp) as (d' & Hd' & Hx). assert (d' = d) as -> by congruence. rewrite Hd in Hx.
  destruct Hx as (_ & _ & Hr). split; [by eapply upd_same|]. eapply tree_upd; [done|done|done|lia|]. cbn. unfold u32_add. rewrite Z.mod_small by lia. lia.
Qed.

Lemma counted k b s c root p ky : tree k b s c root → token_of s p ky → ∃ n d t, heap s !! p = Some n ∧ data n = Some d ∧ tok_at s p = Some (d, t)
  ∧ toks s !! d = Some t ∧ (refcnt t =? 0)%Z = false.
Proof.
  intros Ht Hp. destruct (token_at _ _ _ _ _ _ _ Ht Hp) as (d & t & E & Hd & _ & Hr & _). pose proof E as E'. unfold tok_at in E'.
  apply bind_Some in E' as (n & Hn & E'). apply bind_Some in E' as (d' & Hd' & E'). apply bind_Some in E' as (t' & _ & [= -> _]).
  exists n, d, t. do 4 (split; [done|]). apply Z.eqb_neq. lia.
Qed.

(** The last test of [cmd_merge_nodes]. *)
Lemma last_test k b s s' c root p ky n d fuel : tree k b s' c root → token_of s' p ky → info <$> heap s' = info <$> heap s → heap s !! p = Some n → data n = Some d →
  (t ← toks s' !! d; if (refcnt t =? 0)%Z then cmd_free_node elem_type fuel p s' else Some s') = Some s'.
Proof.
  intros Ht Hp Hi Hn Hd. destruct (counted _ _ _ _ _ _ _ Ht Hp) as (n' & d' & t & Hn' & Hd' & _ & Ht' & Hr).
  destruct (data_lookup _ _ _ _ Hi Hn) as (n2 & Hn2 & Hd2). assert (d' = d) as -> by congruence. rewrite Ht'. ostep. by rewrite Hr.
Qed.

Lemma tree_weaken k k' b b' s c root : tree k b s c root → k ≤ k' → (b ≤ b')%Z → tree k' b' s c root.
Proof.
  intros [H1 H2 H3 H4 H5 H6 H7 ((l & Hl & Hlk) & Hw)] Hk Hb. split; try done.
  - by eapply rep_ext.
  - intros p n Hp. destruct (H2 p n Hp) as (d & Hd & Hx). exists d. split; [done|]. destruct (toks s !! d); [|done]. destruct Hx as (? & ? & ?). split_and!; try done; lia.
  - split; [exists l; split; [done|lia]|done].
Qed.

Lemma merge_nodes_adds ks : ∀ fuel k b s c root old new ks1 e ko kn, tree k b s c root → leads s c root ks1 old → token_of s old ko → type ko ≠ END_TKN →
  chain s c new ks e → ¬ rtc (edge c) root new → token_of s new kn → length ks + 3 ≤ fuel →
  (Z.of_nat (k + length ks + 3) < 2 ^ 31)%Z → (b + Z.of_nat (length ks) + 1 < 2 ^ 32)%Z →
  ∃ s' c', cmd_merge_nodes elem_type fuel 1 old new s = Some s' ∧ merged k b (length ks) s c root s' c'
    ∧ ∀ x e', spells s' c' root x e' ↔ spells s c root x e' ∨ x = ks1 ++ ks ∧ e' = e.
Proof.
  induction ks as [ks IH] using (induction_ltof1 _ length); unfold ltof in IH.
  intros fuel k b s c root old new ks1 e ko kn Ht Hl Hko Hkt Hch Hun Hkn Hf Hk Hb. destruct fuel as [|fuel]; [lia|]. cbn [cmd_merge_nodes]. destruct fuel as [|fuel]; [lia|].
  rewrite (loopstop_self _ _ _ _ _ _ Ht (token_live _ _ _ Hko)). ostep. rewrite (loopstop_self _ _ _ _ _ _ Ht (token_live _ _ _ Hkn)). ostep. cbn [Z.eqb Pos.eqb orb negb].
  destruct (counted _ _ _ _ _ _ _ Ht Hko) as (n & d & t & Hn & Hd & -> & Htd & _). ostep.
  destruct (raised_ok k b s c root d t Ht Htd) as [Hk1 Ht1]; [by exists old, n|lia|]. set (s1 := upd_tok d _ s) in *.
  assert (token_of s1 old ko ∧ token_of s1 new kn) as [Hko1 Hkn1] by (split; by apply Hk1). assert (chain s1 c new ks e) as Hch1 by (by eapply chain_frame).
  pose proof (leads_frame _ _ _ _ _ _ Hk1 Hl) as Hl1. pose proof (leads_rtc _ _ _ _ _ Hl) as Hrt.
  assert (∃ cnew kc, (∀ x, edge c new x ↔ x = cnew) ∧ token_of s1 cnew kc ∧ (plain (type kc) = true ∨ type kc = END_TKN)
    ∧ (plain (type kc) = true → ∃ ks', ks = kc :: ks' ∧ chain s1 c cnew ks' e)) as (cnew & kc & Hnew & Hkc & Hkct & Hmore).
  { destruct (chain_inv _ _ _ _ _ Hch1) as [(-> & q & r & k0 & Hq & Hkq & Hend & _)|(q & k0 & ks' & -> & Hq & Hkq & Hpl & Hc)]; exists q, k0.
    - split; [done|]. split; [done|]. split; [by right|]. by rewrite Hend.
    - split; [done|]. split; [done|]. split; [by left|]. intros _. by exists ks'. }
  destruct (tree_node _ _ _ _ _ new Ht1 (token_live _ _ _ Hkn1)) as (ln & Edn & Hcn & Hin & Hndn & _).
  assert (ln = [cnew]) as -> by (apply single_list; [done|]; intros x; by rewrite Hin, Hnew). cbn [length] in Edn. rewrite Edn. ostep. cbn [new_loop].
  rewrite Edn. ostep. rewrite decide_False by lia. rewrite (Hcn 0 cnew eq_refl). ostep.
  assert (edge c new cnew) as Hedge by (by apply Hnew). assert (cnew ≠ new) as Hcne.
  { intros ->. unfold edge in Hedge. rewrite (tr_self _ _ _ _ _ Ht) in Hedge. lia. }
  rewrite decide_False by congruence.
  destruct (tree_node _ _ _ _ _ old Ht1 (token_live _ _ _ Hko1)) as (lo & Edo & Hco & Hio & Hndo & _). rewrite Edo. ostep.
  destruct (old_loop_spec k (b + 1) s1 c root (cmd_merge_nodes elem_type (S fuel) 1) fuel old cnew kc lo (length lo) 0 Ht1 Hco Edo ltac:(lia))
    as [->|(i' & cold & Hi' & Hcold & Hpl & ->)]; [|exact Hkc|..].
  { intros x Hx%Hio. split; [intros ->; unfold edge in Hx; rewrite (tr_self _ _ _ _ _ Ht) in Hx; lia|]. by eapply (tr_kids _ _ _ _ _ Ht1). }
  - ostep. rewrite Edo. ostep. rewrite decide_True by (split; [done|lia]).
    destruct (add_new_ok k (b + 1) s1 c root old new cnew ks e ko kc Ht1 Hch1 Hnew Hrt Hko1 Hun Hkc Hkct (S fuel) ltac:(lia) Hk) as (s2 & -> & Hi2 & Hk2 & Ht2).
    ostep. ostep. exists s2, (moved c new old cnew). assert (same_keys s s2) as Hks by (by eapply same_keys_trans).
    split; [eapply (last_test _ _ s); [exact Ht2|by apply Hks|exact Hi2|done|done]|]. split.
    + split; [done|done|eapply tree_weaken; [exact Ht2|lia|lia]|]. intros p q. by apply (kept_edge k (b + 1) s1 c root old new cnew).
    + intros x e'. rewrite (spells_moved k (b + 1) s1 c root old new cnew ks e ko kc Ht1 Hch1 Hnew Hrt Hko1 Hkt Hun Hkc ks1 Hl1 s2 x e' Hk2).
      by rewrite <- (spells_frame s s1 c root x e' Hk1).
  - destruct (Hmore Hpl) as (ks' & -> & Hch'). destruct (lower_attr_ok k (b + 1) s1 c root cold cnew kc kc Ht1 Hcold Hkc) as (s2 & -> & Ht2 & Hk2 & Hh2). ostep.
    assert (edge c old cold) as Hoc by (apply Hio; by eapply list_elem_of_lookup_2). cbn [length] in *.
    destruct (IH ks' ltac:(cbn; lia) (S fuel) k (b + 1)%Z s2 c root cold cnew (ks1 ++ [kc]) e kc kc Ht2) as (s3 & c3 & -> & [Hi3 Hk3 Ht3 Hkept] & Hsp); try lia.
    + apply (leads_snoc _ _ root old cold ks1 kc); [by eapply leads_frame|done|by apply Hk2|done].
    + by apply Hk2.
    + intros Hend. by rewrite Hend in Hpl.
    + by eapply chain_frame.
    + intros Hr. apply Hun. eapply (above_reached _ _ _ _ _ new cnew Ht1); [by apply tc_once|done].
    + by apply Hk2.
    + do 2 ostep. assert (same_keys s s3) as Hks by (eapply same_keys_trans; [exact Hk1|]; by eapply same_keys_trans).
      destruct (tree_node _ _ _ _ _ old Ht3) as (l3 & -> & _ & Hin3 & Hnd3 & _); [eapply token_live; by apply Hks|]. ostep.
      rewrite decide_False.
      2: { intros [-> _]. apply lookup_lt_Some in Hi'. assert (length lo ≤ length l3); [|lia]. apply submseteq_length, NoDup_submseteq; [done|].
           intros x Hx%Hio. apply Hin3. by apply Hkept. }
      ostep. exists s3, c3. split; [eapply (last_test _ _ s); [exact Ht3|by apply Hks| |done|done]|].
      * rewrite Hi3, Hh2. done.
      * split.
        -- split; [by rewrite Hi3, Hh2|done|eapply tree_weaken; [exact Ht3|lia|lia]|done].
        -- intros x e'. rewrite Hsp, <- app_assoc, <- (spells_frame s1 s2), <- (spells_frame s s1) by done. done.
Qed.

(** C18: Installing a command.  The graph of a node, a tree of words and values,
    is merged with the graph of a command without alternatives: merging returns,
    the graph stays such a tree, and it has the commands it had and the new one,
    word for word, under the node's own start. *)
Theorem cmd_graph_merge_adds (fuel k : nat) (b : Z) (s : merging) (c : ptr → ptr → nat) (root new : ptr) (ks : list cmd_token) (e : nat) :
  tree k b s c root → first_node (onodes s) = Some root → first_node (nnodes s) = Some new →
  (∃ kr, token_of s root kr ∧ type kr = START_TKN) → (∃ kn, token_of s new kn) → chain s c new ks e → ¬ rtc (edge c) root new →
  length ks + 3 ≤ fuel → (Z.of_nat (k + length ks + 3) < 2 ^ 31)%Z → (b + Z.of_nat (length ks) + 1 < 2 ^ 32)%Z →
  ∃ s' c', cmd_graph_merge elem_type fuel 1 s = Some s' ∧ tree (k + length ks + 3) (b + Z.of_nat (length ks) + 1) s' c' root
    ∧ ∀ x e', spells s' c' root x e' ↔ spells s c root x e' ∨ x = ks ∧ e' = e.
Proof.
  intros Ht Ho Hn (kr & Hkr & Hst) (kn & Hkn) Hch Hun Hf Hk Hb. unfold cmd_graph_merge. rewrite Ho. ostep. rewrite Hn. ostep.
  destruct (merge_nodes_adds ks fuel k b s c root root new [] e kr kn Ht) as (s' & c' & E & [_ _ Ht' _] & Hsp); try done; [by apply leads_nil|by rewrite Hst|].
  by exists s', c'.
Qed.
End merge.

(** ** Examples *)

Section example.
Context (es : list (ptr * ptr)) (ps : list ptr).

Definition succs (p : ptr) : list ptr := snd <$> filter (λ e, e.1 = p) es.
Definition preds (q : ptr) : list ptr := fst <$> filter (λ e, e.2 = q) es.
Definition vec_of (l : list ptr) : vector ptr := mkv (Some <$> l) (S (length l)).
Definition edges_of (p q : ptr) : nat := cnt (p, q) es.
(** The data of a node is its own address. *)
Definition heap_of : gmap ptr gnode := list_to_map ((λ p, (p, GNode (vec_of (preds p)) (vec_of (succs p)) (Some p) true)) <$> ps).

Lemma vec_of_holds l : length l < 1000 → holds (vec_of l) l.
Proof. intros Hl. exists (S (length l)). split; [done|]. unfold fits. rewrite length_fmap. lia. Qed.

Lemma cnt_succs p q : cnt q (succs p) = edges_of p q.
Proof.
  unfold succs, edges_of. induction es as [|[a b] l IH]; [done|]. rewrite cnt_cons, filter_cons. cbn [fst]. destruct (decide (a = p)) as [->|Hne].
  - rewrite fmap_cons, cnt_cons, IH. cbn. destruct (decide (q = b)), (decide ((p, q) = (p, b))); congruence || lia.
  - rewrite IH, decide_False by congruence. lia.
Qed.

Lemma cnt_preds p q : cnt p (preds q) = edges_of p q.
Proof.
  unfold preds, edges_of. induction es as [|[a b] l IH]; [done|]. rewrite cnt_cons, filter_cons. cbn [snd]. destruct (decide (b = q)) as [->|Hne].
  - rewrite fmap_cons, cnt_cons, IH. cbn. destruct (decide (p = a)), (decide ((p, q) = (a, q))); congruence || lia.
  - rewrite IH, decide_False by congruence. lia.
Qed.

Lemma heap_of_lookup p n : heap_of !! p = Some n → p ∈ ps ∧ n = GNode (vec_of (preds p)) (vec_of (succs p)) (Some p) true.
Proof.
  unfold heap_of. intros H. apply elem_of_list_to_map_2 in H. apply list_elem_of_fmap in H as (q & E & Hq). by injection E as -> ->.
Qed.

Lemma heap_of_rep k : length es ≤ k → length es < 1000 → NoDup ps → Forall (λ e, e.1 ∈ ps ∧ e.2 ∈ ps) es → rep k heap_of edges_of.
Proof.
  intros Hk Hl Hnd Hall. split.
  - intros p n [Hp ->]%heap_of_lookup. exists (preds p), (succs p).
    assert (length (preds p) ≤ length es ∧ length (succs p) ≤ length es) as [H1 H2] by (unfold preds, succs; rewrite !length_fmap; split; apply length_filter).
    split_and!; [apply vec_of_holds; lia|apply vec_of_holds; lia|lia|lia|intros q; apply cnt_preds|intros q; apply cnt_succs].
  - intros p q Hpq. unfold edges_of in Hpq. apply cnt_pos in Hpq. rewrite Forall_forall in Hall. destruct (Hall _ Hpq) as [Hp Hq]. cbn in *.
    assert (∀ x, x ∈ ps → is_Some (heap_of !! x)) as Hx; [|by split; apply Hx]. intros x Hx. unfold heap_of.
    eexists. apply elem_of_list_to_map_1; [|apply list_elem_of_fmap; by exists x]. rewrite <- list_fmap_compose. by rewrite list_fmap_id.
Qed.
End example.

(** A node with the command [show]; [show version] is to be installed. *)
Definition demo_edges : list (ptr * ptr) := [(0, 1); (1, 2); (2, 3); (10, 11); (11, 12); (12, 13); (13, 14)].
Definition demo_ptrs : list ptr := [0; 1; 2; 3; 10; 11; 12; 13; 14].
Definition demo_word (w : string) : ctok := cmd_token_new WORD_TKN CMD_ATTR_NORMAL (str w) None.
Definition demo_toks : gmap nat ctok :=
  {[ 0 := cmd_token_new START_TKN CMD_ATTR_NORMAL [] None; 1 := demo_word "show"; 2 := cmd_token_new END_TKN CMD_ATTR_NORMAL [] None;
     10 := cmd_token_new START_TKN CMD_ATTR_NORMAL [] None; 11 := demo_word "show"; 12 := demo_word "version"; 13 := cmd_token_new END_TKN CMD_ATTR_NORMAL [] None ]}.
Definition demo : merging := Merging (heap_of demo_edges demo_ptrs) demo_toks (vec_of [0; 1; 2; 3]) (vec_of [10; 11; 12; 13; 14]) [].

Lemma demo_edge p q : edge (edges_of demo_edges) p q ↔ (p, q) ∈ demo_edges.
Proof. unfold edge, edges_of. apply cnt_pos. Qed.

Lemma demo_token p t : tok_at demo p = Some (p, t) → token_of demo p (tkey (ctoken t)).
Proof. intros E. by exists p, t. Qed.

Ltac edge_cases H := rewrite demo_edge in H; unfold demo_edges in H; rewrite !elem_of_cons, elem_of_nil in H.

Lemma demo_tree : tree (λ _, 0%Z) 10 1 demo (edges_of demo_edges) 0.
Proof.
  split.
  - apply heap_of_rep; [cbn; lia|cbn; lia|by apply (bool_decide_unpack _); vm_compute|by apply (bool_decide_unpack _); vm_compute].
  - intros p n [Hp ->]%heap_of_lookup. exists p. split; [done|]. unfold demo_ptrs in Hp. rewrite !elem_of_cons, elem_of_nil in Hp.
    destruct Hp as [->|[->|[->|[->|[->|[->|[->|[->|[->|[]]]]]]]]]]; vm_compute; repeat split; congruence.
  - intros p p' q H1 H2. edge_cases H1. edge_cases H2. naive_solver.
  - intros p q. unfold edges_of. apply cnt_NoDup. by apply (bool_decide_unpack _); vm_compute.
  - intros p. destruct (edges_of demo_edges p p) eqn:E; [done|]. exfalso. assert (edge (edges_of demo_edges) p p) as H by (unfold edge; lia). edge_cases H. naive_solver.
  - intros p. destruct (edges_of demo_edges p 0) eqn:E; [done|]. exfalso. assert (edge (edges_of demo_edges) p 0) as H by (unfold edge; lia). edge_cases H. naive_solver.
  - intros p kp q _ Hkp Hne Hpq. edge_cases Hpq. destruct Hpq as [[= -> ->]|[[= -> ->]|[[= -> ->]|[[= -> ->]|[[= -> ->]|[[= -> ->]|[[= -> ->]|[]]]]]]]];
      try (by eexists; split; [apply demo_token; reflexivity|auto]);
      exfalso; apply Hne; destruct Hkp as (d & t & E & <-); vm_compute in E; injection E as <- <-; reflexivity.
  - split; [exists [0; 1; 2; 3]; split; [apply vec_of_holds; cbn; lia|cbn; lia]|]. apply wf_mkv. unfold fits. cbn. lia.
Qed.

Definition demo_command : list cmd_token := [tkey (ctoken (demo_word "show")); tkey (ctoken (demo_word "version"))].

Lemma demo_chain : chain demo (edges_of demo_edges) 10 demo_command 14.
Proof.
  assert (∀ p q, (∀ x, edge (edges_of demo_edges) p x → x = q) → edge (edges_of demo_edges) p q → ∀ x, edge (edges_of demo_edges) p x ↔ x = q) as Hone
    by (intros p q H1 H2 x; split; [apply H1|by intros ->]).
  apply (chain_word _ _ 10 11); [|by apply demo_token|done|].
  { apply Hone; [intros x H; edge_cases H; naive_solver|apply demo_edge; by apply (bool_decide_unpack _); vm_compute]. }
  apply (chain_word _ _ 11 12); [|by apply demo_token|done|].
  { apply Hone; [intros x H; edge_cases H; naive_solver|apply demo_edge; by apply (bool_decide_unpack _); vm_compute]. }
  apply (chain_end _ _ 12 13 14 14 (tkey (ctoken (cmd_token_new END_TKN CMD_ATTR_NORMAL [] None)))); [|by apply demo_token|done| | |].
  - apply Hone; [intros x H; edge_cases H; naive_solver|apply demo_edge; by apply (bool_decide_unpack _); vm_compute].
  - apply Hone; [intros x H; edge_cases H; naive_solver|apply demo_edge; by apply (bool_decide_unpack _); vm_compute].
  - eexists. split; [reflexivity|done].
  - intros x H. edge_cases H. naive_solver.
Qed.

(** Both commands are there, and [show] is shared. *)
Lemma cmd_graph_merge_adds_witness : ∃ s' c', cmd_graph_merge (λ _, 0%Z) 5 1 demo = Some s'
  ∧ (∀ x e', spells s' c' 0 x e' ↔ spells demo (edges_of demo_edges) 0 x e' ∨ x = demo_command ∧ e' = 14)
  ∧ (refcnt <$> toks s' !! 1) = Some 2%Z ∧ (toks s' !! 12 ≠ None).
Proof.
  assert (match cmd_graph_merge (λ _, 0%Z) 5 1 demo with
          | Some s' => bool_decide ((refcnt <$> toks s' !! 1) = Some 2%Z) && match toks s' !! 12 with Some _ => true | None => false end | None => false end = true) as Hv
    by (vm_compute; reflexivity).
  destruct (cmd_graph_merge_adds (λ _, 0%Z) 5 10 1 demo (edges_of demo_edges) 0 10 demo_command 14) as (s' & c' & E & _ & Hs).
  - exact demo_tree.
  - reflexivity.
  - reflexivity.
  - eexists. split; [by apply demo_token|done].
  - eexists. by apply demo_token.
  - exact demo_chain.
  - intros H. apply rtc_inv_r in H as [H|(z & _ & H)]; [discriminate H|]. clear Hv. edge_cases H. naive_solver.
  - cbn. lia.
  - cbn. lia.
  - cbn. lia.
  - exists s', c'. rewrite E in Hv. split; [exact E|]. split; [exact Hs|]. apply andb_true_iff in Hv as [H1 H2]. split; [by apply bool_decide_eq_true in H1|].
    destruct (toks s' !! 12); [intros Hx; discriminate Hx|discriminate H2].
Defined.

(** Alternatives in another order are not recognised: the children are compared
    place by place. *)
Definition fork_edges : list (ptr * ptr) := [(20, 21); (20, 22); (21, 23); (22, 23); (30, 31); (30, 32); (31, 33); (32, 33); (40, 41); (40, 42); (41, 43); (42, 43)].
Definition fork_tok (ty : cmd_token_type) (j : ptr) : ctok := CTok (Token ty CMD_ATTR_NORMAL false [] None 0 0 None) 1 (Some j).
Definition fork_toks : gmap nat ctok :=
  {[ 20 := fork_tok FORK_TKN 23; 21 := demo_word "in"; 22 := demo_word "out"; 23 := fork_tok JOIN_TKN 20;
     30 := fork_tok FORK_TKN 33; 31 := demo_word "in"; 32 := demo_word "out"; 33 := fork_tok JOIN_TKN 30;
     40 := fork_tok FORK_TKN 43; 41 := demo_word "out"; 42 := demo_word "in"; 43 := fork_tok JOIN_TKN 40 ]}.
Definition forks : merging := Merging (heap_of fork_edges [20; 21; 22; 23; 30; 31; 32; 33; 40; 41; 42; 43]) fork_toks (vec_of []) (vec_of []) [].

Example fork_order_matters : cmd_nodes_equal (λ _, 0%Z) 6 forks 20 30 = Some true ∧ cmd_nodes_equal (λ _, 0%Z) 6 forks 20 40 = Some false.
Proof. vm_compute. done. Qed.

(** Of two commands with the same words the one installed first is removed,
    whichever is uninstalled. *)
Definition twice_edges : list (ptr * ptr) := [(0, 1); (1, 2); (2, 3); (1, 4); (4, 5); (10, 11); (11, 12); (12, 13)].
Definition twice_toks : gmap nat ctok :=
  {[ 0 := CTok (ctoken (demo_word "")) 3 None; 1 := CTok (ctoken (demo_word "show")) 3 None; 2 := cmd_token_new END_TKN CMD_ATTR_NORMAL [] None;
     4 := cmd_token_new END_TKN CMD_ATTR_NORMAL [] None; 10 := demo_word ""; 11 := demo_word "show"; 12 := cmd_token_new END_TKN CMD_ATTR_NORMAL [] None ]}.
Definition twice : merging := Merging (heap_of twice_edges [0; 1; 2; 3; 4; 5; 10; 11; 12; 13]) twice_toks (vec_of [0; 1; 2; 3; 4; 5]) (vec_of [10; 11; 12; 13]) [].

Example uninstall_takes_first : (λ s, (freed s, bool_decide (is_Some (heap s !! 5)))) <$> cmd_graph_merge (λ _, 0%Z) 9 (-1) twice = Some ([2; 3], true).
Proof. vm_compute. done. Qed.
