(* ===== verification/Command.v ===== *)
(** * The command interpreter: lib/command.c and lib/command_node.c

    A line is cut into words ([cmd_make_strvec]), the words are matched against
    the graph of the session's node ([CommandMatch]), and the command found is
    run; when the node does not know the line, the nodes above it are tried.
    Completion and help take the tokens that may follow a line.

    The world of a command is its terminal, the host's settings and the random
    numbers for the salts of passwords ([world]).  A command is a function on the
    world ([func] of [cmd_element]); the commands of command.c are definitions
    here, those of other files are parameters.  [crypt] is a parameter, too.
    [None] as a result is a null pointer, an access outside an array, a loop that
    does not end or a failed assertion. *)
From Stdlib Require Import Ascii String.
From stdpp Require Import prelude list sorting.
From S2P Require Import Prelude Vector CString FrrStr Vty Prefix PrefixText TokenMatch CommandMatch.
Set Default Goal Selector "!".

(** ** Results of commands *)

Definition CMD_SUCCESS : Z := 0.
Definition CMD_WARNING : Z := 1.
Definition CMD_ERR_NO_MATCH : Z := 2.
Definition CMD_ERR_AMBIGUOUS : Z := 3.
Definition CMD_ERR_INCOMPLETE : Z := 4.
Definition CMD_ERR_NOTHING_TODO : Z := 6.
Definition CMD_COMPLETE_FULL_MATCH : Z := 7.
Definition CMD_COMPLETE_MATCH : Z := 8.
Definition CMD_COMPLETE_LIST_MATCH : Z := 9.
Definition CMD_SUCCESS_DAEMON : Z := 10.
Definition CMD_SUSPEND : Z := 12.
Definition CMD_WARNING_CONFIG_FAILED : Z := 13.
Definition CMD_NOT_MY_INSTANCE : Z := 14.

(** The macro is used on the matcher's results and on statuses of commands. *)
Definition MATCHER_ERROR (rv : Z) : bool := ((rv =? 1) || (rv =? 0) || (rv =? 2))%Z.
Definition rv_code (rv : matcher_rv) : Z := Z.of_nat (rv_rank rv).

(** ** Words of a line *)

Definition separators : cstring := ["010"; "013"; "009"; " "]%char.

(** The loop that takes out the empty strings. *)
Fixpoint unset_empty (fuel : nat) (v : vector cstring) (i : nat) : option (vector cstring) :=
  if decide (i < vector_active v) then
    match fuel with
    | 0 => None
    | S fuel =>
        s ← vector_slot v i; s ← s;
        v ← (if decide (length s = 0) then vector_unset v i else Some v);
        unset_empty fuel v (i + 1)
    end
  else Some v.

Definition cmd_make_strvec (string : option cstring) : option (option (vector cstring)) :=
  match string with
  | None => Some None
  | Some s =>
      match skip_space s with
      | [] => Some None
      | (c :: _) as copy =>
          if decide (c = "!"%char ∨ c = "#"%char) then Some None
          else
            result ← frrstr_split_vec (Some copy) separators;
            result ← (result : option (vector cstring));
            result ← unset_empty (vector_active result) result 0;
            result ← vector_compact result;
            Some (Some result)
      end
  end.

(** ** Data *)

Abbreviation arg := (cmd_token * cstring)%type.

Record world (B : Type) := World {
  wvty : vty B;
  whost : host;
  num_cfg_changes : nat;
  randoms : list (Z * Z);
}.
Arguments World {B}.
Arguments wvty {B}.
Arguments whost {B}.
Arguments num_cfg_changes {B}.
Arguments randoms {B}.

Record cmd_element (B : Type) := CmdElement {
  cmd_string : cstring;
  daemon : bool;
  eattr : cmd_attr;
  func : list arg → world B → option (Z * world B);
}.
Arguments CmdElement {B}.
Arguments cmd_string {B}.
Arguments daemon {B}.
Arguments eattr {B}.
Arguments func {B}.

(** A node's commands by their numbers; the prompt is in the [host]. *)
Record cmd_node := CmdNode { cmdgraph : graph; cmd_vector : list (option nat) }.

Record cmd_variable_handler := VarHandler {
  htokenname : option cstring;
  hvarname : option cstring;
  completions : vector cstring → cmd_token → vector cstring;
}.

Definition set_vty {B} (v : vty B) (w : world B) : world B := World v (whost w) (num_cfg_changes w) (randoms w).
Definition set_host {B} (h : host) (w : world B) : world B := World (wvty w) h (num_cfg_changes w) (randoms w).
Definition wsess {B} (w : world B) : sess := ss (wvty w).
Definition set_sess {B} (s : sess) (w : world B) : world B := set_vty (set_ss s (wvty w)) w.
Definition set_xpath (x : Z) (s : sess) : sess := Sess (node s) (fail s) (config s) (private_config s) x (status s).
(** [vty->node = n; vty->xpath_index = x] *)
Definition put_node {B} (n x : Z) (w : world B) : world B := set_sess (set_xpath x (set_node n (wsess w))) w.

(** ** Arguments *)

Definition argv_concat (argv : list arg) (shift : nat) : option (option cstring) :=
  if decide (length argv - shift = 0) then Some None
  else frrstr_join (map (λ a : arg, Some a.2) (drop shift argv)) (Some (str " ")).

(** [*index] and whether the text was found. *)
Fixpoint argv_find_from (argv : list arg) (t : cstring) (i index : nat) : bool * nat :=
  match argv with
  | [] => (false, index)
  | a :: argv => if decide (t = text a.1) then (true, i) else argv_find_from argv t (i + 1) index
  end.
Definition argv_find (argv : list arg) (t : cstring) (index : nat) : bool * nat :=
  argv_find_from (drop index argv) t index index.

(** ** Completion *)

Definition cmd_try_do_shortcut (n : Z) (first_word : option cstring) : bool :=
  match first_word with
  | Some w => bool_decide (n ≠ AUTH_NODE ∧ n ≠ VIEW_NODE ∧ n ≠ AUTH_ENABLE_NODE ∧ w = str "do")
  | None => false
  end.

(** [strcmp(a, b) <= 0], by unsigned bytes. *)
Fixpoint strcmp_le (a b : cstring) : bool :=
  match a, b with
  | [], _ => true
  | _ :: _, [] => false
  | c :: a, d :: b => if (code c =? code d)%Z then strcmp_le a b else (code c <? code d)%Z
  end.
Definition compare_completions (t u : cmd_token) : Prop := strcmp_le (text t) (text u) = true.
#[export] Instance compare_completions_dec : RelDecision compare_completions.
Proof. intros t u. unfold compare_completions. apply _. Defined.

Definition same_text (t u : cmd_token) : bool := bool_decide (text t = text u).

#[export] Instance cmd_token_eq_dec : EqDecision cmd_token.
Proof. solve_decision. Defined.

(** The loop over the completions: the tokens of different texts, and the last
    end token. *)
Fixpoint collect (l : list cmd_token) (comps : vector cmd_token) (cr : option cmd_token) :
    option (vector cmd_token * option cmd_token) :=
  match l with
  | [] => Some (comps, cr)
  | token :: l =>
      if decide (type token = END_TKN) then collect l comps (Some token)
      else if existsb (λ curr, match curr with Some c => same_text c token | None => false end) (Vector.contents comps)
      then collect l comps cr
      else '(comps, _) ← vector_set comps (Some token); collect l comps cr
  end.

(** [qsort] of the slots in use. *)
Definition sort_slots (comps : vector cmd_token) : option (vector cmd_token) :=
  l ← mapM id (Vector.contents comps);
  Some (Vec (active comps) (alloced comps) ((Some <$> merge_sort compare_completions l) ++ drop (active comps) (index comps))).

Definition completions_to_vec (l : list cmd_token) : option (vector cmd_token) :=
  '(comps, cr) ← collect l (vector_init VECTOR_MIN_SIZE) None;
  comps ← sort_slots comps;
  match cr with
  | None => Some comps
  | Some cr =>
      '(comps, _) ← vector_set_index comps (vector_active comps) None;
      ix ← memmove_cells (index comps) 1 0 (alloced comps - 1);
      '(comps, _) ← vector_set_index (Vec (active comps) (alloced comps) ix) 0 (Some cr);
      Some comps
  end.

(** The status a number of completions stands for. *)
Definition comps_status (n : nat) : Z :=
  match n with 0 => CMD_ERR_NO_MATCH | 1 => CMD_COMPLETE_FULL_MATCH | _ => CMD_COMPLETE_LIST_MATCH end.

(** Copying a line without its first [offset] words. *)
Fixpoint shift_loop (n : nat) (index offset : nat) (vline input_line : vector cstring) : option (vector cstring) :=
  match n with
  | 0 => Some input_line
  | S n =>
      x ← vector_lookup vline (index + offset);
      '(input_line, _) ← vector_set_index input_line index x;
      shift_loop n (index + 1) offset vline input_line
  end.
Definition shifted_vline (offset : nat) (vline : vector cstring) : option (vector cstring) :=
  shift_loop (vector_active vline - offset) 0 offset vline (vector_init (vector_count vline)).

(** *** Completions of a variable as a text *)

(** [snprintf(&buf[cs], bsz - cs, s)]: behind the end of the block the size is
    negative and wraps. *)
Definition snprintf_at (b : list ascii) (cs : nat) (s : cstring) : option (list ascii) :=
  if decide (length b < cs) then None
  else if decide (length b = cs) then Some b
  else memcpy b cs (take (length b - cs - 1) s ++ [NUL]).

Definition autocomp_indent : nat := 5.
Definition indent : cstring := replicate autocomp_indent " "%char.

Fixpoint comp2str_loop (items : list (option cstring)) (b : list ascii) (lc cs : nat) (cols : Z) : option (list ascii) :=
  match items with
  | [] => Some b
  | item :: items =>
      item ← item;
      let itemlen := length item in
      let b := if decide (length b ≤ cs + itemlen + autocomp_indent + 3) then b ++ replicate (length b) NUL else b in
      '(b, cs, lc) ← (if (cols <=? Z.of_nat (lc + itemlen + 1))%Z then
                        b ← snprintf_at b cs (newline ++ indent); Some (b, cs + 1 + autocomp_indent, autocomp_indent)
                      else Some (b, cs, lc));
      b ← snprintf_at b cs (item ++ str " ");
      comp2str_loop items b (lc + itemlen + 1) (cs + itemlen + 1) cols
  end.

Definition cmd_variable_comp2str (comps : vector cstring) (cols : Z) : option cstring :=
  b ← snprintf_at (replicate 16 NUL) 0 indent;
  b ← comp2str_loop (Vector.contents comps) b autocomp_indent autocomp_indent (u16 cols);
  cstr b.

Section command.
Context {B : Type} `{OutBuffer B} `{Inet}.
Context (cmdvec : list (option cmd_node)) (elements : list (cmd_element B)) (varhandlers : list cmd_variable_handler).
Implicit Types (w : world B).

(** [vector_slot(cmdvec, ntype)] as a node that is there. *)
Definition node_slot (ntype : Z) : option cmd_node :=
  if (0 <=? ntype)%Z then c ← cmdvec !! Z.to_nat ntype; c else None.
Definition cmd_node_graph (ntype : Z) : option graph := c ← node_slot ntype; Some (cmdgraph c).

Definition cmd_complete_command_real (vline : vector cstring) (n : Z) : option (Z * option (vector cmd_token)) :=
  g ← cmd_node_graph n;
  '(rv, cs) ← command_complete g (Vector.contents vline);
  if MATCHER_ERROR (rv_code rv) then Some (CMD_ERR_NO_MATCH, None)
  else comps ← completions_to_vec cs; Some (comps_status (vector_active comps), Some comps).

(** [n] is the session's node; with [do] the line is taken at the enable node. *)
Definition cmd_describe_command (vline : vector cstring) (n : Z) : option (Z * option (vector cmd_token)) :=
  first ← vector_slot vline 0;
  if cmd_try_do_shortcut n first then
    shifted ← shifted_vline 1 vline; cmd_complete_command_real shifted ENABLE_NODE
  else cmd_complete_command_real vline n.

Definition handles (token : cmd_token) (h : cmd_variable_handler) : bool :=
  match htokenname h with Some t => bool_decide (t = text token) | None => true end
  && match hvarname h with Some x => bool_decide (varname token = Some x) | None => true end.

(** The loop from the last item to the first: those that begin with [arg]. *)
Fixpoint keep_prefixed (i : nat) (arg : cstring) (tmpcomps comps : vector cstring) : option (vector cstring) :=
  match i with
  | 0 => Some comps
  | S i =>
      item ← vector_slot tmpcomps i; item ← item;
      comps ← (if strncmp_eq item arg (length arg) && bool_decide (length arg ≤ length item)
               then '(comps, _) ← vector_set comps (Some item); Some comps else Some comps);
      keep_prefixed i arg tmpcomps comps
  end.

Definition cmd_variable_complete (token : cmd_token) (arg : option cstring) (comps : vector cstring) : option (vector cstring) :=
  let tmpcomps := match arg with Some _ => vector_init VECTOR_MIN_SIZE | None => comps end in
  let tmpcomps := match List.find (handles token) varhandlers with Some h => completions h tmpcomps token | None => tmpcomps end in
  match arg with
  | None => Some tmpcomps
  | Some arg => keep_prefixed (vector_active tmpcomps) arg tmpcomps comps
  end.

Definition varying (t : cmd_token_type) : bool :=
  match t with WORD_TKN | FORK_TKN | JOIN_TKN | START_TKN | END_TKN => false | _ => true end.

(** The loop that keeps what can be inserted: words, and what the handlers offer. *)
Fixpoint tab_filter (l : list (option cmd_token)) (vline : vector cstring) (comps : vector cstring) : option (vector cstring) :=
  match l with
  | [] => Some comps
  | token :: l =>
      token ← token;
      comps ← (if decide (type token = WORD_TKN) then '(comps, _) ← vector_set comps (Some (text token)); Some comps
               else if varying (type token) then
                 ref ← vector_lookup vline (vector_active vline - 1); cmd_variable_complete token ref comps
               else Some comps);
      tab_filter l vline comps
  end.

(** The array of strings, without the NULL at its end. *)
Definition cmd_complete_command (vline : vector cstring) (n : Z) : option (Z * option (list (option cstring))) :=
  first ← vector_slot vline 0;
  let do_shortcut := cmd_try_do_shortcut n first in
  input_line ← shifted_vline (if do_shortcut then 1 else 0) vline;
  '(st, initial_comps) ← cmd_complete_command_real input_line (if do_shortcut then ENABLE_NODE else n);
  if MATCHER_ERROR st then Some (st, None)
  else
    initial_comps ← (initial_comps : option (vector cmd_token));
    comps ← tab_filter (Vector.contents initial_comps) vline (vector_init VECTOR_MIN_SIZE);
    Some (comps_status (vector_active comps), Some (Vector.contents comps)).

(** ** Execution *)

(** Run the command that the session's node has for the line. *)
Definition cmd_execute_command_real (vline : vector cstring) w : option (Z * world B) :=
  g ← cmd_node_graph (node (wsess w));
  '(st, argv) ← command_match g (Vector.contents vline);
  match st with
  | MATCHER_INCOMPLETE => Some (CMD_ERR_INCOMPLETE, w)
  | MATCHER_AMBIGUOUS => Some (CMD_ERR_AMBIGUOUS, w)
  | MATCHER_NO_MATCH => Some (CMD_ERR_NO_MATCH, w)
  | MATCHER_OK =>
      '(argv, el) ← (argv : option arglist);
      matched_element ← elements !! el;
      if daemon matched_element then Some (CMD_SUCCESS_DAEMON, w)
      else func matched_element argv (if config (wsess w) then World (wvty w) (whost w) 0 (randoms w) else w)
  end.

Definition accepted (ret : Z) : bool :=
  ((ret =? CMD_SUCCESS) || (ret =? CMD_WARNING) || (ret =? CMD_NOT_MY_INSTANCE) || (ret =? CMD_WARNING_CONFIG_FAILED))%Z.

(** The loop over the nodes above: [Some ret] when one of them accepts. *)
Fixpoint climb (fuel : nat) (vline : vector cstring) (try_node : Z) w : option (option Z * world B) :=
  if (CONFIG_NODE <? node (wsess w))%Z then
    match fuel with
    | 0 => None
    | S fuel =>
        try_node ← node_parent (whost w) try_node;
        let x := xpath_index (wsess w) in
        '(ret, w) ← cmd_execute_command_real vline (put_node try_node (if (0 <? x)%Z then x - 1 else x)%Z w);
        if accepted ret then Some (Some ret, w) else climb fuel vline try_node w
    end
  else Some (None, w).

Definition cmd_execute_command (vline : vector cstring) w (vtysh : bool) : option (Z * world B) :=
  let onode := node (wsess w) in
  let orig_xpath_index := xpath_index (wsess w) in
  first ← vector_slot vline 0;
  if cmd_try_do_shortcut onode first then
    shifted ← shifted_vline 1 vline;
    '(ret, w) ← cmd_execute_command_real shifted (put_node ENABLE_NODE 0 w);
    Some (ret, put_node onode orig_xpath_index w)
  else
    '(saved_ret, w) ← cmd_execute_command_real vline w;
    if vtysh then Some (saved_ret, w)
    else if accepted saved_ret then Some (saved_ret, w)
    else
      '(r, w) ← climb (length (node_parents (whost w))) vline onode w;
      match r with
      | Some ret => Some (ret, w)
      | None => Some (saved_ret, put_node onode orig_xpath_index w)
      end.

Definition cmd_execute w (cmd : cstring) (vtysh : bool) : option (Z * world B) :=
  vline ← cmd_make_strvec (Some cmd);
  match vline with
  | Some vline => cmd_execute_command vline w vtysh
  | None => Some (CMD_SUCCESS, w)
  end.

(** ** Configuration files *)

Definition cmd_execute_command_strict (vline : vector cstring) w : option (Z * world B) := cmd_execute_command_real vline w.

(** Nothing is left to try: the line was taken, or is for a daemon or nothing is to do. *)
Definition config_done (use_daemon : bool) (ret : Z) : bool :=
  (use_daemon && (ret =? CMD_SUCCESS_DAEMON) || negb use_daemon && (ret =? CMD_ERR_NOTHING_TODO)
   || (ret =? CMD_SUCCESS) || (ret =? CMD_WARNING))%Z.

Fixpoint config_climb (fuel : nat) (vline : vector cstring) (use_daemon : bool) (ret : Z) w : option (Z * world B) :=
  if negb (config_done use_daemon ret) && (CONFIG_NODE <? node (wsess w))%Z then
    match fuel with
    | 0 => None
    | S fuel =>
        p ← node_parent (whost w) (node (wsess w));
        let x := xpath_index (wsess w) in
        '(ret, w) ← cmd_execute_command_strict vline (put_node p (if (0 <? x)%Z then x - 1 else x)%Z w);
        config_climb fuel vline use_daemon ret w
    end
  else Some (ret, w).

(** The list of [vty_error]s: the line and its number. *)
Abbreviation vty_errors := (list (list Z * Z)).

(** The string in the terminal's line buffer. *)
Definition vty_buf_str w : option cstring := s ← zstr (buf (ed (wvty w))); Some (map chr s).

Definition command_config_read_one_line w (errors : vty_errors) (line_num : Z) (use_daemon : bool) :
    option (Z * world B * vty_errors) :=
  s ← vty_buf_str w;
  vline ← cmd_make_strvec (Some s);
  match vline with
  | None => Some (CMD_SUCCESS, w, errors)
  | Some vline =>
      '(ret, w) ← cmd_execute_command_strict vline w;
      '(ret, w) ← (if negb (config_done use_daemon ret) && negb (ret =? CMD_NOT_MY_INSTANCE)%Z
                      && negb (ret =? CMD_WARNING_CONFIG_FAILED)%Z && negb (node (wsess w) =? CONFIG_NODE)%Z then
                     let saved_node := node (wsess w) in
                     let saved_xpath_index := xpath_index (wsess w) in
                     '(ret, w) ← config_climb (length (node_parents (whost w))) vline use_daemon ret w;
                     Some (ret, if config_done use_daemon ret then w else put_node saved_node saved_xpath_index w)
                   else Some (ret, w));
      Some (ret, w,
            if ((ret =? CMD_SUCCESS) || (ret =? CMD_WARNING) || (ret =? CMD_SUCCESS_DAEMON))%Z then errors
            else errors ++ [(buf (ed (wvty w)), line_num)])
  end.

(** [fgets(buf, size + 1, fp)]: the bytes up to a line break or [size] of them,
    and the rest of the file. *)
Fixpoint fgets (size : nat) (file : list Z) : list Z * list Z :=
  match size, file with
  | S size, c :: file => if (c =? 10)%Z then ([c], file) else let '(l, r) := fgets size file in (c :: l, r)
  | _, _ => ([], file)
  end.

Fixpoint config_loop (fuel : nat) (file : list Z) (line_num error_ret : Z) w (errors : vty_errors) :
    option (Z * world B * vty_errors * Z) :=
  match file with
  | [] => Some (error_ret, w, errors, line_num)
  | _ =>
      match fuel with
      | 0 => None
      | S fuel =>
          let '(line, rest) := fgets (VTY_BUFSIZ - 1) file in
          b ← blit (buf (ed (wvty w))) 0 (line ++ [0%Z]);
          let w := set_vty (set_ed (Edit b (cp (ed (wvty w))) (len (ed (wvty w)))) (wvty w)) w in
          let line_num := (line_num + 1)%Z in
          '(ret, w, errors) ← command_config_read_one_line w errors line_num false;
          config_loop fuel rest line_num
            (if ((ret =? CMD_SUCCESS) || (ret =? CMD_WARNING) || (ret =? CMD_ERR_NOTHING_TODO))%Z then error_ret else ret) w errors
      end
  end.

Definition config_from_file w (errors : vty_errors) (fp : list Z) : option (Z * world B * vty_errors * Z) :=
  '(error_ret, w, errors, line_num) ← config_loop (length fp) fp 0 0 w errors;
  Some (if (error_ret =? 0)%Z then CMD_SUCCESS else error_ret, w, errors, line_num).

(** ** The commands of command.c *)

Definition say w (p : cstring) : option (world B) := v ← vty_out (wvty w) p; Some (set_vty v w).
Definition ln (s : string) : cstring := str s ++ newline.
Abbreviation action := (list arg → world B → option (Z * world B)).

Definition vty_config_enter w (private_config exclusive : bool) : option (Z * world B) :=
  if exclusive then w ← say w (ln "% Configuration is locked by other client"); Some (CMD_WARNING, w)
  else let s := wsess w in
       Some (CMD_SUCCESS, set_sess (Sess CONFIG_NODE (fail s) true private_config 0 (status s)) w).
Definition vty_config_exit (s : sess) : sess := set_config false s.

Definition config_terminal : action := λ _ w, vty_config_enter w false false.

Definition enable : action := λ _ w,
  Some (CMD_SUCCESS,
        set_sess (set_node (if decide ((enable_pw (whost w) = None ∧ enable_encrypt (whost w) = None)
                                       ∨ vtype (out (wvty w)) = VTY_SHELL_SERV)
                            then ENABLE_NODE else AUTH_ENABLE_NODE) (wsess w)) w).

Definition disable : action := λ _ w,
  Some (CMD_SUCCESS, if (node (wsess w) =? ENABLE_NODE)%Z then set_sess (set_node VIEW_NODE (wsess w)) w else w).

Definition config_exit : action := λ _ w, s ← cmd_exit (whost w) (wsess w); Some (CMD_SUCCESS, set_sess s w).
Definition config_quit : action := config_exit.

Definition config_end : action := λ _ w,
  Some (CMD_SUCCESS, if config (wsess w) then set_sess (set_node ENABLE_NODE (vty_config_exit (wsess w))) w else w).

Definition config_help : action := λ _ w,
  w ← say w (ln "I guess, you typed this command to find your helps, " ++ ln "but this command will discribe you what I want to say."
        ++ ln "Software engineering is one of the most important thing " ++ ln "for our company and world right?. "
        ++ ln "But some people can't (or don't wanna) understand that philosophy."
        ++ ln "That's nonsence for creators to inovate something to new." ++ newline);
  Some (CMD_SUCCESS, w).

Fixpoint say_all w (ps : list cstring) : option (world B) :=
  match ps with [] => Some w | p :: ps => w ← say w p; say_all w ps end.

(** [list permutations]: every path of the graph as a line.  [position] holds the
    nodes on the way. *)
Fixpoint permute (fuel : nat) (g : graph) (position : list nat) (start : nat) w : option (world B) :=
  match fuel with
  | 0 => None
  | S fuel =>
      stok ← token_at g start;
      n ← g !! start;
      let position := position ++ [start] in
      (fix children (l : list nat) w : option (world B) :=
         match l with
         | [] => Some w
         | gn :: l =>
             tok ← token_at g gn;
             w ← (if decide (attr tok = CMD_ATTR_HIDDEN ∨ attr tok = CMD_ATTR_DEPRECATED) then Some w
                  else if decide (type tok = END_TKN ∨ gn = start) then
                    toks ← mapM (token_at g) position;
                    say_all w ([str " "] ++ map (λ t, str " " ++ text t) (List.filter (λ t, negb (special (type t))) toks)
                               ++ (if decide (gn = start) then [str "..."] else []) ++ [newline])
                  else if decide (type stok = FORK_TKN ∧ type tok ≠ FORK_TKN ∧ gn ∈ position) then Some w
                  else permute fuel g position gn w);
             children l w
         end) (to n) w
  end.

Definition cmd_list_cmds (fuel : nat) w (do_permute : bool) : option (Z * world B) :=
  nd ← node_slot (node (wsess w));
  if do_permute then w ← permute fuel (cmdgraph nd) [] 0 w; Some (CMD_SUCCESS, w)
  else
    es ← mapM (λ e, elements !! e) (omap id (cmd_vector nd));
    w ← say_all w (map (λ e, str "    " ++ cmd_string e ++ newline)
          (List.filter (λ e, bool_decide (eattr e ≠ CMD_ATTR_DEPRECATED ∧ eattr e ≠ CMD_ATTR_HIDDEN)) es));
    Some (CMD_SUCCESS, w).

Definition config_list (fuel : nat) : action := λ argv w, cmd_list_cmds fuel w (bool_decide (length argv = 2)).
Definition show_commandtree (fuel : nat) : action := λ argv w, cmd_list_cmds fuel w (bool_decide (length argv = 3)).

Definition isalnum (c : ascii) : bool :=
  (isdigit c || (65 <=? code c) && (code c <=? 90) || (97 <=? code c) && (code c <=? 122))%Z.
(** [isalnum(s[0])]; of an empty string this is the NUL. *)
Definition starts_alnum (s : cstring) : bool := match s with c :: _ => isalnum c | [] => false end.

Definition HOSTNAME_LEN : nat := 255.

Definition set_name (n : cstring) (h : host) : host :=
  Host n (prompts h) (node_parents h) (password h) (password_encrypt h) (enable_pw h) (enable_encrypt h) (advanced h) (encrypt h)
    (host_lines h) (motd h) (motdfile h).
(** Passwords for logging in: in plain and encrypted. *)
Definition set_passwords (p pe : option cstring) (h : host) : host :=
  Host (name h) (prompts h) (node_parents h) p pe (enable_pw h) (enable_encrypt h) (advanced h) (encrypt h) (host_lines h) (motd h) (motdfile h).
(** Passwords for the enable node. *)
Definition set_enables (p pe : option cstring) (h : host) : host :=
  Host (name h) (prompts h) (node_parents h) (password h) (password_encrypt h) p pe (advanced h) (encrypt h) (host_lines h) (motd h) (motdfile h).
Definition set_encrypt (b : bool) (h : host) : host :=
  Host (name h) (prompts h) (node_parents h) (password h) (password_encrypt h) (enable_pw h) (enable_encrypt h) (advanced h) b
    (host_lines h) (motd h) (motdfile h).
Definition set_lines (n : Z) (h : host) : host :=
  Host (name h) (prompts h) (node_parents h) (password h) (password_encrypt h) (enable_pw h) (enable_encrypt h) (advanced h) (encrypt h)
    n (motd h) (motdfile h).
Definition set_motd (m f : option cstring) (h : host) : host :=
  Host (name h) (prompts h) (node_parents h) (password h) (password_encrypt h) (enable_pw h) (enable_encrypt h) (advanced h) (encrypt h)
    (host_lines h) m f.

(** [strdup(hostname)] of a null pointer is undefined. *)
Definition cmd_hostname_set (hostname : option cstring) w : option (Z * world B) :=
  n ← hostname; Some (CMD_SUCCESS, set_host (set_name n (whost w)) w).

Definition config_hostname : action := λ argv w,
  word ← argv !! 1;
  if negb (starts_alnum word.2) then
    w ← say w (ln "Please specify string starting with alphabet or number"); Some (CMD_WARNING_CONFIG_FAILED, w)
  else if decide (HOSTNAME_LEN < length word.2) then
    w ← say w (str "Hostname length should be less than " ++ dec (Z.of_nat HOSTNAME_LEN) ++ ln " chars"); Some (CMD_WARNING_CONFIG_FAILED, w)
  else cmd_hostname_set (Some word.2) w.
Definition config_no_hostname : action := λ _ w, cmd_hostname_set None w.

(** *** Passwords *)

Context (crypt : cstring → cstring → cstring).

(** [to64(s, v, n)] *)
Definition itoa64 : cstring := str "./0123456789ABCDEFGHIJKLMNOPQRSTUVWXYZabcdefghijklmnopqrstuvwxyz".
Fixpoint to64 (n : nat) (v : Z) : option cstring :=
  match n with
  | 0 => Some []
  | S n => c ← itoa64 !! Z.to_nat (Z.land v 63); s ← to64 n (Z.shiftr v 6); Some (c :: s)
  end.

(** Of the last three characters the third is overwritten with the NUL. *)
Definition zencrypt (passwd : cstring) w : option (cstring * world B) :=
  let '(random, tv_usec) := default (0, 0)%Z (head (randoms w)) in
  s1 ← to64 3 random;
  s2 ← to64 3 tv_usec;
  Some (crypt passwd (s1 ++ take 2 s2), World (wvty w) (whost w) (num_cfg_changes w) (tail (randoms w))).

Definition config_password : action := λ argv w,
  if decide (length argv = 3) then
    a ← argv !! 2; Some (CMD_SUCCESS, set_host (set_passwords None (Some a.2) (whost w)) w)
  else
    a ← argv !! 1;
    if negb (starts_alnum a.2) then
      w ← say w (ln "Please specify string starting with alphanumeric"); Some (CMD_WARNING_CONFIG_FAILED, w)
    else if encrypt (whost w) then
      '(e, w) ← zencrypt a.2 w; Some (CMD_SUCCESS, set_host (set_passwords None (Some e) (whost w)) w)
    else Some (CMD_SUCCESS, set_host (set_passwords (Some a.2) (password_encrypt (whost w)) (whost w)) w).

Definition NO_PASSWD_CMD_WARNING : cstring :=
  str "Please be aware that removing the password is a security risk and you should think twice about this command." ++ newline.

(** The warning of the two commands, once. *)
Definition warn_passwords (p pe : option cstring) w : option (world B) :=
  let serv := bool_decide (vtype (out (wvty w)) = VTY_SHELL_SERV) in
  let warned := bool_decide (is_Some p) && negb serv in
  w ← (if warned then say w NO_PASSWD_CMD_WARNING else Some w);
  if bool_decide (is_Some pe) && negb warned && negb serv then say w NO_PASSWD_CMD_WARNING else Some w.

Definition no_config_password : action := λ _ w,
  w ← warn_passwords (password (whost w)) (password_encrypt (whost w)) w;
  Some (CMD_SUCCESS, set_host (set_passwords None None (whost w)) w).

Definition config_enable_password : action := λ argv w,
  if decide (length argv = 4) then
    a ← argv !! 2;
    if bool_decide (head a.2 = Some "8"%char) then
      b ← argv !! 3; Some (CMD_SUCCESS, set_host (set_enables None (Some b.2) (whost w)) w)
    else w ← say w (ln "Unknown encryption type."); Some (CMD_WARNING_CONFIG_FAILED, w)
  else
    a ← argv !! 2;
    if negb (starts_alnum a.2) then
      w ← say w (ln "Please specify string starting with alphanumeric"); Some (CMD_WARNING_CONFIG_FAILED, w)
    else if encrypt (whost w) then
      '(e, w) ← zencrypt a.2 w; Some (CMD_SUCCESS, set_host (set_enables None (Some e) (whost w)) w)
    else Some (CMD_SUCCESS, set_host (set_enables (Some a.2) (enable_encrypt (whost w)) (whost w)) w).

Definition no_config_enable_password : action := λ _ w,
  w ← warn_passwords (enable_pw (whost w)) (enable_encrypt (whost w)) w;
  Some (CMD_SUCCESS, set_host (set_enables None None (whost w)) w).

Definition service_password_encrypt : action := λ _ w,
  if encrypt (whost w) then Some (CMD_SUCCESS, w)
  else
    let w := set_host (set_encrypt true (whost w)) w in
    w ← match password (whost w) with
        | Some p => '(e, w) ← zencrypt p w; Some (set_host (set_passwords (Some p) (Some e) (whost w)) w)
        | None => Some w
        end;
    w ← match enable_pw (whost w) with
        | Some p => '(e, w) ← zencrypt p w; Some (set_host (set_enables (Some p) (Some e) (whost w)) w)
        | None => Some w
        end;
    Some (CMD_SUCCESS, w).

Definition no_service_password_encrypt : action := λ _ w,
  if negb (encrypt (whost w)) then Some (CMD_SUCCESS, w)
  else
    let h := set_encrypt false (whost w) in
    Some (CMD_SUCCESS, set_host (set_enables (enable_pw h) None (set_passwords (password h) None h)) w).

(** *** Other settings *)

Definition set_vlines (n : Z) (t : telnet) : telnet :=
  Telnet (escape t) (iac t) (iac_sb_in_progress t) (sb_buf t) (sb_len t) (width t) (height t) n.

Definition config_terminal_length : action := λ argv w,
  a ← argv !! 2; n ← atoi a.2; Some (CMD_SUCCESS, set_vty (set_tn (set_vlines n (tn (wvty w))) (wvty w)) w).
Definition config_terminal_no_length : action := λ _ w,
  Some (CMD_SUCCESS, set_vty (set_tn (set_vlines (-1) (tn (wvty w))) (wvty w)) w).
Definition service_terminal_length : action := λ argv w,
  a ← argv !! 2; n ← atoi a.2; Some (CMD_SUCCESS, set_host (set_lines n (whost w)) w).
Definition no_service_terminal_length : action := λ _ w, Some (CMD_SUCCESS, set_host (set_lines (-1) (whost w)) w).

Definition do_echo : action := λ argv w,
  message ← argv_concat argv 1;
  w ← say w (default [] message ++ newline);
  Some (CMD_SUCCESS, w).

Context (default_motd : cstring).
Definition banner_motd_default : action := λ _ w,
  Some (CMD_SUCCESS, set_host (set_motd (Some default_motd) (motdfile (whost w)) (whost w)) w).
Definition no_banner_motd : action := λ _ w, Some (CMD_SUCCESS, set_host (set_motd None None (whost w)) w).

(** *** Searching *)

Definition lower (c : ascii) : ascii := if ((65 <=? code c) && (code c <=? 90))%Z then chr (code c + 32)%Z else c.
Definition strcasestr (s t : cstring) : bool := match strstr (map lower s) (map lower t) with Some _ => true | None => false end.

Context (node_names : list cstring).

(** A slot that was emptied by removing a command is read like the others. *)
Fixpoint find_in (t nm : cstring) (clis : list (option nat)) w : option (world B) :=
  match clis with
  | [] => Some w
  | c :: clis =>
      c ← c; cli ← elements !! c;
      w ← (if strcasestr (cmd_string cli) t then say w (str "  (" ++ nm ++ str ")  " ++ cmd_string cli ++ newline) else Some w);
      find_in t nm clis w
  end.
Fixpoint find_nodes (t : cstring) (nodes : list (option cmd_node)) (i : nat) w : option (world B) :=
  match nodes with
  | [] => Some w
  | nd :: nodes =>
      w ← match nd with Some nd => nm ← node_names !! i; find_in t nm (cmd_vector nd) w | None => Some w end;
      find_nodes t nodes (i + 1) w
  end.
Definition find : action := λ argv w,
  t ← argv_concat argv 1; t ← t;
  w ← find_nodes t cmdvec 0 w;
  Some (CMD_SUCCESS, w).
End command.

(** ** Words *)

Lemma unset_empty_filter fuel : ∀ v i, unset_empty fuel v i = filter_vec_loop fuel (λ s, bool_decide (length s = 0)) v i.
Proof.
  induction fuel as [|fuel IH]; intros v i; [done|]. cbn [unset_empty filter_vec_loop]. destruct (decide _); [|done].
  destruct (vector_slot v i) as [[s|]|]; try done. do 4 ostep. rewrite bool_decide_decide.
  destruct (decide (length s = 0)); [destruct (vector_unset v i); [do 2 ostep|done]|do 2 ostep]; apply IH.
Qed.

(** The words of a string: the runs between separators. *)
Definition words (s : cstring) : list cstring := filter (λ w, w ≠ []) (fields separators s).

Definition is_comment (s : cstring) : Prop :=
  match skip_space s with [] => True | c :: _ => c = "!"%char ∨ c = "#"%char end.

Lemma make_strvec_comment s : is_comment s → cmd_make_strvec (Some s) = Some None.
Proof. unfold is_comment, cmd_make_strvec. destruct (skip_space s); [done|]. intros Hc. by rewrite decide_True. Qed.

Lemma make_strvec_words s : ¬ is_comment s → (Z.of_nat (length s) < 2 ^ 31 - 2)%Z →
  ∃ v, cmd_make_strvec (Some s) = Some (Some v) ∧ wf v ∧ Vector.contents v = Some <$> words (skip_space s).
Proof.
  intros Hc Hlen. unfold is_comment, cmd_make_strvec in *. assert (length (skip_space s) ≤ length s) as Hl.
  { clear. induction s as [|c s IH]; [done|]. cbn. destruct (isspace c); cbn; lia. }
  destruct (skip_space s) as [|c t] eqn:Es; [done|]. rewrite decide_False by done. rewrite <- Es in *. clear Hc.
  unfold frrstr_split_vec. rewrite frrstr_split_spec by lia. ostep. pose proof (fields_length separators (skip_space s)) as Hfl.
  unfold words. set (fs := fields separators (skip_space s)) in *.
  destruct (array_to_vector_loop_spec [] 1 (Some <$> fs)) as (n & E & Hfit); [unfold fits; cbn; lia|rewrite length_fmap; cbn; lia|].
  unfold array_to_vector. change (vector_init VECTOR_MIN_SIZE) with (mkv (A := cstring) [] 1). cbn [length app] in E, Hfit. rewrite E. do 2 ostep. ostep.
  rewrite unset_empty_filter. set (re := λ s0 : cstring, bool_decide (length s0 = 0)).
  pose proof (filter_vec_loop_spec re n fs [] (vector_active (mkv (Some <$> fs) n)) Hfit) as Ef. cbn [app length] in Ef.
  rewrite Ef by (cbn [vector_active mkv active]; by rewrite length_fmap). ostep. clear Ef.
  assert ((match fs with [] => [] | _ => rstrip (map (λ s0, if re s0 then None else Some s0) fs) end)
    = rstrip (map (λ s0, if re s0 then None else Some s0) fs)) as -> by (by destruct fs).
  destruct (vector_compact_spec (rstrip (map (λ s0, if re s0 then None else Some s0) fs)) n) as [-> Hf3].
  { eapply fits_shrink; [exact Hfit|]. etrans; [apply rstrip_length|]. by rewrite length_map, length_fmap. }
  ostep. eexists. split; [reflexivity|]. split; [by apply wf_mkv|]. rewrite contents_mkv, filter_rstrip, filter_kept.
  f_equal. apply list_filter_iff. intros x. subst re. cbn. rewrite bool_decide_eq_false. destruct x; cbn; split; intros; congruence || lia.
Qed.

Definition wordlike (w : cstring) : Prop := w ≠ [] ∧ Forall (λ c, c ∉ separators) w.
Definition gap (s : cstring) : Prop := s ≠ [] ∧ Forall (λ c, c ∈ separators) s.

Lemma words_gap g s : Forall (λ c, c ∈ separators) g → words (g ++ s) = words s.
Proof.
  intros Hg. induction Hg as [|c g Hc Hg IH]; [done|]. unfold words in *. cbn [app fields]. rewrite decide_True by done.
  rewrite filter_cons_False by (intros Hn; by apply Hn). exact IH.
Qed.

Lemma fields_word w s : Forall (λ c, c ∉ separators) w →
  fields separators (w ++ s) = match fields separators s with f :: fs => (w ++ f) :: fs | [] => [] end.
Proof.
  intros Hw. induction Hw as [|c w Hc Hw IH]; cbn [app]; [destruct (fields separators s); [|done]|].
  - done.
  - cbn [fields]. rewrite decide_False by done. rewrite IH. destruct (fields separators s) eqn:E; [|done].
    destruct (fields_nonempty separators s E).
Qed.

Lemma words_cons w g s : wordlike w → gap g → words (w ++ g ++ s) = w :: words s.
Proof.
  intros [Hn Hw] [Hg0 Hg]. destruct g as [|c g]; [done|]. apply Forall_cons in Hg as [Hc Hg]. unfold words at 1.
  rewrite fields_word by done. cbn [app fields]. rewrite decide_True by done. rewrite app_nil_r, filter_cons_True by done.
  f_equal. exact (words_gap g s Hg).
Qed.

Lemma words_last w : wordlike w → words w = [w].
Proof.
  intros [Hn Hw]. unfold words. rewrite <- (app_nil_r w) at 1. rewrite fields_word by done. cbn [fields]. rewrite app_nil_r.
  by rewrite filter_cons_True.
Qed.

(** Words, each followed by its gap, and perhaps a last word without one. *)
Fixpoint spaced (l : list (cstring * cstring)) (end_word : cstring) : cstring :=
  match l with [] => end_word | (w, g) :: l => w ++ g ++ spaced l end_word end.

Lemma words_spaced l e : Forall (λ p, wordlike p.1 ∧ gap p.2) l → (e = [] ∨ wordlike e) →
  words (spaced l e) = map fst l ++ (if decide (e = []) then [] else [e]).
Proof.
  intros Hl He. induction Hl as [|[w g] l [Hw Hg] Hl IH]; cbn [spaced map fst app].
  - destruct He as [->|He]; [done|]. rewrite decide_False by (by destruct He). by apply words_last.
  - rewrite words_cons by done. by rewrite IH.
Qed.

Lemma skip_space_lead lead c s : Forall (λ c, isspace c = true) lead → isspace c = false → skip_space (lead ++ c :: s) = c :: s.
Proof. intros Hl Hc. induction Hl as [|d lead Hd Hl IH]; cbn; [by rewrite Hc|]. by rewrite Hd. Qed.

(** C35: A line of words with any gaps is cut into exactly
    these words, in their order; a line that is empty or a comment gives none. *)
Theorem cmd_make_strvec_words (lead : cstring) (l : list (cstring * cstring)) (e : cstring) :
  Forall (λ c, isspace c = true) lead → Forall (λ p, wordlike p.1 ∧ gap p.2) l → (e = [] ∨ wordlike e) →
  let s := spaced l e in
  (Z.of_nat (length (lead ++ s)) < 2 ^ 31 - 2)%Z →
  match s with
  | [] => cmd_make_strvec (Some lead) = Some None
  | c :: _ =>
      isspace c = false →
      if decide (c = "!"%char ∨ c = "#"%char) then cmd_make_strvec (Some (lead ++ s)) = Some None
      else ∃ v, cmd_make_strvec (Some (lead ++ s)) = Some (Some v) ∧ wf v
             ∧ Vector.contents v = Some <$> (map fst l ++ (if decide (e = []) then [] else [e]))
  end.
Proof.
  intros Hlead Hl He s Hlen. pose proof (words_spaced l e Hl He) as Hw. fold s in Hw. destruct s as [|c s'] eqn:Es.
  - apply make_strvec_comment. unfold is_comment. assert (skip_space lead = []) as ->; [|done].
    clear -Hlead. induction Hlead as [|d lead Hd Hl IH]; cbn; [done|]. by rewrite Hd.
  - intros Hc. pose proof (skip_space_lead lead c s' Hlead Hc) as Hsk. destruct (decide (c = "!"%char ∨ c = "#"%char)) as [Hcm|Hcm].
    + apply make_strvec_comment. unfold is_comment. by rewrite Hsk.
    + destruct (make_strvec_words (lead ++ c :: s')) as (v & E & Hwf & Hv); [unfold is_comment; by rewrite Hsk|done|].
      exists v. split; [done|]. split; [done|]. by rewrite Hv, Hsk, Hw.
Qed.

(** ** Completions *)

#[export] Instance strcmp_total : Total compare_completions.
Proof.
  intros t u. unfold compare_completions. generalize (text t), (text u). clear. intros a. induction a as [|c a IH]; intros [|d b]; cbn; auto.
  destruct (Z.eqb_spec (code c) (code d)) as [E|E]; [rewrite (proj2 (Z.eqb_eq _ _)) by done; apply IH|].
  rewrite (proj2 (Z.eqb_neq (code d) (code c))) by done. rewrite !Z.ltb_lt. lia.
Qed.

(** What the loop keeps after [acc], and the end token. *)
Fixpoint first_texts (acc l : list cmd_token) : list cmd_token :=
  match l with
  | [] => acc
  | t :: l => if decide (type t = END_TKN ∨ text t ∈ text <$> acc) then first_texts acc l else first_texts (acc ++ [t]) l
  end.
Definition last_end (cr : option cmd_token) (l : list cmd_token) : option cmd_token :=
  foldl (λ cr t, if decide (type t = END_TKN) then Some t else cr) cr l.

Lemma first_texts_length l : ∀ acc, length acc ≤ length (first_texts acc l).
Proof.
  induction l as [|t l IH]; intros acc; cbn [first_texts]; [done|]. case_decide; [apply IH|]. etrans; [|apply IH]. rewrite length_app. lia.
Qed.

Lemma collect_spec l : ∀ acc n cr, fits (Some <$> acc) n → (Z.of_nat (length (first_texts acc l)) < 2 ^ 31)%Z →
  ∃ n', collect l (mkv (Some <$> acc) n) cr = Some (mkv (Some <$> first_texts acc l) n', last_end cr l) ∧ fits (Some <$> first_texts acc l) n'.
Proof.
  induction l as [|t l IH]; intros acc n cr Hf Hl; cbn [collect first_texts last_end foldl] in *; [eauto|].
  assert (existsb (λ curr, match curr with Some c => same_text c t | None => false end) (Vector.contents (mkv (Some <$> acc) n))
    = bool_decide (text t ∈ text <$> acc)) as ->.
  { rewrite contents_mkv. apply eq_true_iff_eq. rewrite existsb_exists, bool_decide_eq_true, list_elem_of_fmap. split.
    - intros (c & Hin & Hc). apply list_elem_of_In, list_elem_of_fmap in Hin as (c' & -> & Hin). apply bool_decide_eq_true in Hc. eauto.
    - intros (c & Ec & Hin). exists (Some c). split; [apply list_elem_of_In, list_elem_of_fmap; eauto|]. by apply bool_decide_eq_true. }
  destruct (decide (type t = END_TKN)) as [Ht|Ht].
  - rewrite decide_True in * by auto. by apply IH.
  - case_bool_decide as Hin; [rewrite decide_True in * by auto; by apply IH|]. rewrite decide_False in * by tauto.
    pose proof (first_texts_length l (acc ++ [t])) as Hft. rewrite length_app in Hft. cbn in Hft.
    destruct (vector_push acc n t Hf) as (n' & -> & Hf'); [lia|]. ostep. by apply IH.
Qed.

Lemma first_texts_props l : ∀ acc, NoDup (text <$> acc) →
  NoDup (text <$> first_texts acc l) ∧ (∀ t, t ∈ acc → t ∈ first_texts acc l)
  ∧ (∀ t, t ∈ first_texts acc l → t ∈ acc ∨ t ∈ l ∧ type t ≠ END_TKN)
  ∧ (∀ t, t ∈ l → type t ≠ END_TKN → text t ∈ text <$> first_texts acc l)
  ∧ length (first_texts acc l) ≤ length acc + length l.
Proof.
  induction l as [|t l IH]; intros acc Hnd; cbn [first_texts length]; [split_and!; auto; [by intros ? []%not_elem_of_nil|lia]|].
  destruct (decide _) as [Hd|Hd].
  - destruct (IH acc Hnd) as (H1 & H2 & H3 & H4 & H5). split; [done|]. split; [done|]. split; [|split; [|lia]].
    + intros u Hu. destruct (H3 u Hu) as [?|[? ?]]; [by left|right]. split; [apply elem_of_cons; by right|done].
    + intros u [->|Hu]%elem_of_cons Hend; [|auto]. destruct Hd as [?|(v & Ev & Hv)%list_elem_of_fmap]; [done|]. apply list_elem_of_fmap. eauto.
  - apply Decidable.not_or in Hd as [Hend Htext]. destruct (IH (acc ++ [t])) as (H1 & H2 & H3 & H4 & H5).
    { rewrite fmap_app. apply NoDup_app. split_and!; [done| |apply NoDup_singleton]. cbn. intros x Hx ->%list_elem_of_singleton. done. }
    split; [done|]. split_and!.
    + intros u Hu. apply H2. set_solver.
    + intros u Hu. destruct (H3 u Hu) as [[?| ->%list_elem_of_singleton]%elem_of_app|[? ?]]; [by left|right; set_solver|right; set_solver].
    + intros u [->|Hu]%elem_of_cons Hu'; [|auto]. apply list_elem_of_fmap. exists t. split; [done|]. apply H2. set_solver.
    + rewrite length_app in H5. cbn in H5. lia.
Qed.

Lemma sort_slots_spec (l : list cmd_token) n : fits (Some <$> l) n →
  sort_slots (mkv (Some <$> l) n) = Some (mkv (Some <$> merge_sort compare_completions l) n)
  ∧ fits (Some <$> merge_sort compare_completions l) n.
Proof.
  intros Hf. unfold sort_slots. rewrite contents_mkv, mapM_Some_all. ostep.
  pose proof (Permutation_length (merge_sort_Permutation compare_completions l)) as El.
  assert (length (Some <$> merge_sort compare_completions l) = length (Some <$> l)) as El' by (by rewrite !length_fmap). split.
  - unfold mkv, pad. cbn [active index alloced]. rewrite drop_app_length. by rewrite El'.
  - unfold fits in *. by rewrite El'.
Qed.

(** Putting the end token in front: everything moves up one slot. *)
Lemma put_front (l : list cmd_token) n cr : fits (Some <$> l) n → (Z.of_nat (length l) < 2 ^ 31)%Z →
  ∃ n', ('(comps, _) ← vector_set_index (mkv (Some <$> l) n) (vector_active (mkv (Some <$> l) n)) None;
         ix ← memmove_cells (index comps) 1 0 (alloced comps - 1);
         '(comps, _) ← vector_set_index (Vec (active comps) (alloced comps) ix) 0 (Some cr);
         Some comps) = Some (mkv (Some <$> cr :: l) n') ∧ fits (Some <$> cr :: l) n'.
Proof.
  intros Hf Hl. change (vector_active (mkv (Some <$> l) n)) with (length (Some <$> l)).
  destruct (vector_set_index_spec (Some <$> l) n (length (Some <$> l)) None Hf) as (n1 & -> & Hf1); [by rewrite length_fmap|]. ostep.
  rewrite set_at_end in *. destruct Hf1 as (Hn1 & Hl1 & Hz). rewrite length_app in Hl1. cbn [length] in Hl1.
  cbn [index alloced active mkv]. set (sl := Some <$> l) in *. unfold memmove_cells.
  assert (length (pad (sl ++ [None]) n1) = n1) as Hpl by (apply pad_length; rewrite length_app; cbn; lia).
  rewrite decide_True by lia. ostep. rewrite drop_0.
  assert (∃ x, take 1 (pad (sl ++ [None]) n1) ++ take (n1 - 1) (pad (sl ++ [None]) n1) ++ drop (1 + (n1 - 1)) (pad (sl ++ [None]) n1)
    = pad (x :: sl) n1) as [x ->].
  { exists (match sl with y :: _ => y | [] => None end). rewrite (drop_ge _ (1 + (n1 - 1))) by lia. rewrite app_nil_r. unfold pad. rewrite length_app.
    rewrite <- !app_assoc. cbn [length]. assert (replicate (n1 - (length sl + 1)) (None (A := cmd_token)) = replicate (n1 - S (length sl)) None) as -> by (f_equal; lia).
    assert (take 1 (sl ++ [None] ++ replicate (n1 - S (length sl)) None) = [match sl with y :: _ => y | [] => None end]) as -> by (by destruct sl).
    cbn [app]. f_equal. rewrite take_app_ge by lia. f_equal. destruct (n1 - 1 - length sl) as [|k] eqn:Ek.
    { by replace (n1 - S (length sl)) with 0 by lia. }
    cbn [take]. rewrite take_replicate. replace (n1 - S (length sl)) with (S k) by lia. replace (k `min` S k) with k by lia. done. }
  assert (Vec (length (sl ++ [None])) n1 (pad (x :: sl) n1) = mkv (x :: sl) n1) as -> by (unfold mkv; rewrite length_app; cbn; f_equal; lia).
  destruct (vector_set_index_spec (x :: sl) n1 0 (Some cr)) as (n2 & E2 & Hf2); [unfold fits; cbn; lia|done|]. rewrite E2. ostep.
  rewrite set_at_head in *. eauto.
Qed.

Lemma completions_spec (l : list cmd_token) : (Z.of_nat (length (first_texts [] l)) < 2 ^ 31)%Z →
  ∃ v ts, completions_to_vec l = Some v ∧ wf v ∧ Vector.contents v = Some <$> (option_list (last_end None l) ++ ts)
    ∧ Sorted compare_completions ts ∧ NoDup (text <$> ts)
    ∧ (∀ t, t ∈ ts → t ∈ l ∧ type t ≠ END_TKN)
    ∧ (∀ t, t ∈ l → type t ≠ END_TKN → text t ∈ text <$> ts)
    ∧ (is_Some (last_end None l) ↔ ∃ t, t ∈ l ∧ type t = END_TKN).
Proof.
  intros Hl. unfold completions_to_vec. change (vector_init VECTOR_MIN_SIZE) with (mkv (Some <$> ([] : list cmd_token)) 1).
  destruct (collect_spec l [] 1 None) as (n & -> & Hf); [unfold fits; cbn; lia|done|]. ostep.
  destruct (first_texts_props l [] ltac:(constructor)) as (H1 & _ & H3 & H4 & H5). set (ts := first_texts [] l) in *. cbn [length] in H5.
  destruct (sort_slots_spec ts n Hf) as [-> Hf']. ostep. pose proof (merge_sort_Permutation compare_completions ts) as Hp.
  pose proof (Permutation_length Hp) as Hpl.
  assert (is_Some (last_end None l) ↔ ∃ t, t ∈ l ∧ type t = END_TKN) as He.
  { assert (∀ l cr, is_Some (last_end cr l) ↔ is_Some cr ∨ ∃ t, t ∈ l ∧ type t = END_TKN) as Hg.
    { clear. intros l. induction l as [|u l IH]; intros cr; cbn [last_end foldl].
      - split; [by left|]. intros [?|(? & []%not_elem_of_nil & _)]. done.
      - fold (last_end (if decide (type u = END_TKN) then Some u else cr) l). rewrite IH. destruct (decide _); set_solver. }
    rewrite Hg. split; [intros [[? [=]]|?]; done|by right]. }
  assert (∀ v, wf v → Vector.contents v = Some <$> (option_list (last_end None l) ++ merge_sort compare_completions ts) → ∃ v0 ts0,
    Some v = Some v0 ∧ wf v0 ∧ Vector.contents v0 = Some <$> (option_list (last_end None l) ++ ts0) ∧ Sorted compare_completions ts0 ∧ NoDup (text <$> ts0)
    ∧ (∀ t, t ∈ ts0 → t ∈ l ∧ type t ≠ END_TKN) ∧ (∀ t, t ∈ l → type t ≠ END_TKN → text t ∈ text <$> ts0)
    ∧ (is_Some (last_end None l) ↔ ∃ t, t ∈ l ∧ type t = END_TKN)) as Hend.
  { intros v Hwf Hc. exists v, (merge_sort compare_completions ts). split_and!; try done.
    - apply Sorted_merge_sort; apply _.
    - by rewrite Hp.
    - intros t Ht. rewrite Hp in Ht. by destruct (H3 t Ht) as [[]%not_elem_of_nil|?].
    - intros t Ht Ht'. rewrite Hp. auto. }
  destruct (last_end None l) as [cr|] eqn:Ecr.
  - destruct (put_front (merge_sort compare_completions ts) n cr Hf') as (n' & E & Hf''); [lia|]. rewrite E.
    apply Hend; [by apply wf_mkv|]. by rewrite contents_mkv.
  - apply Hend; [by apply wf_mkv|]. by rewrite contents_mkv.
Qed.

(** The completions a user sees: every text that may come
    next exactly once, in the order of the texts, and before them the end of the
    line if the line may end. *)
Theorem completions_to_vec_correct (l : list cmd_token) : (Z.of_nat (length l) < 2 ^ 31 - 1)%Z →
  ∃ v ts, completions_to_vec l = Some v ∧ wf v ∧ Vector.contents v = Some <$> (option_list (last_end None l) ++ ts)
    ∧ Sorted compare_completions ts ∧ NoDup (text <$> ts)
    ∧ (∀ t, t ∈ ts → t ∈ l ∧ type t ≠ END_TKN)
    ∧ (∀ t, t ∈ l → type t ≠ END_TKN → text t ∈ text <$> ts)
    ∧ (is_Some (last_end None l) ↔ ∃ t, t ∈ l ∧ type t = END_TKN).
Proof.
  intros Hl. apply completions_spec. destruct (first_texts_props l [] ltac:(constructor)) as (_ & _ & _ & _ & Hn). cbn [length] in Hn. lia.
Qed.

(** ** Execution *)

Lemma shift_loop_spec (l : list (option cstring)) n offset : fits l n → (Z.of_nat (length l) < 2 ^ 31)%Z →
  ∀ k acc m, fits acc m → length acc + offset + k = length l →
  ∃ m', shift_loop k (length acc) offset (mkv l n) (mkv acc m) = Some (mkv (acc ++ drop (length acc + offset) l) m')
    ∧ fits (acc ++ drop (length acc + offset) l) m'.
Proof.
  intros Hf Hl. induction k as [|k IH]; intros acc m Hm Hk; cbn [shift_loop].
  - rewrite drop_ge by lia. rewrite app_nil_r. eauto.
  - destruct (lookup_lt_is_Some_2 l (length acc + offset)) as [x Hx]; [lia|].
    rewrite vector_lookup_spec by done. rewrite Hx. cbn [mjoin option_join]. ostep.
    destruct (vector_set_index_spec acc m (length acc) x Hm) as (m1 & -> & Hm1); [lia|]. ostep. rewrite set_at_end in *.
    replace (length acc + 1) with (length (acc ++ [x])) by (rewrite length_app; done).
    destruct (IH (acc ++ [x]) m1 Hm1) as (m' & E & Hm'); [rewrite length_app; cbn; lia|]. exists m'.
    assert ((acc ++ [x]) ++ drop (length (acc ++ [x]) + offset) l = acc ++ drop (length acc + offset) l) as Ea.
    { rewrite <- app_assoc. f_equal. rewrite (drop_S l x (length acc + offset) Hx). cbn. do 2 f_equal. rewrite length_app. cbn. lia. }
    by rewrite <- Ea.
Qed.

Lemma shifted_vline_spec (l : list (option cstring)) n offset : fits l n → (Z.of_nat (length l) < 2 ^ 31)%Z → offset ≤ length l →
  ∃ m, shifted_vline offset (mkv l n) = Some (mkv (drop offset l) m) ∧ fits (drop offset l) m.
Proof.
  intros Hf Hl Ho. unfold shifted_vline. destruct Hf as (? & ? & ?).
  assert (vector_count (mkv l n) ≤ length l) as Hc.
  { unfold vector_count. cbn. rewrite count_loop_spec. cbn. unfold pad. etrans; [apply length_filter|]. rewrite length_take. lia. }
  destruct (vector_init_wf (A := cstring) (vector_count (mkv l n)) ltac:(lia)) as [Hwf Hci].
  destruct (wf_inv _ Hwf) as (l0 & m0 & E & Hf0). rewrite E in *. rewrite contents_mkv in Hci. subst l0.
  apply (shift_loop_spec l n offset ltac:(done) Hl (vector_active (mkv l n) - offset) [] m0 Hf0). cbn. lia.
Qed.

Section dispatch.
Context {B : Type} `{OutBuffer B} `{Inet} (cmdvec : list (option cmd_node)) (elements : list (cmd_element B)).
Implicit Types (w : world B).

Abbreviation execute_real := (cmd_execute_command_real cmdvec elements).
Abbreviation execute := (cmd_execute_command cmdvec elements).

(** The line at a node: no command, or one with its arguments. *)
Definition match_at (line : list (option cstring)) (n : Z) : option (matcher_rv * option arglist) :=
  g ← cmd_node_graph cmdvec n; command_match g line.
Definition unknown (line : list (option cstring)) (n : Z) : Prop :=
  ∃ rv argv, match_at line n = Some (rv, argv) ∧ rv ≠ MATCHER_OK.
Definition known (line : list (option cstring)) (n : Z) (args : list arg) (e : cmd_element B) : Prop :=
  ∃ el, match_at line n = Some (MATCHER_OK, Some (args, el)) ∧ elements !! el = Some e ∧ daemon e = false.

Definition match_error (line : list (option cstring)) (n : Z) : Z :=
  match match_at line n with
  | Some (MATCHER_INCOMPLETE, _) => CMD_ERR_INCOMPLETE
  | Some (MATCHER_AMBIGUOUS, _) => CMD_ERR_AMBIGUOUS
  | _ => CMD_ERR_NO_MATCH
  end.

(** In a configuration the list of changes is cleared before a command. *)
Definition before_command w : world B := if config (wsess w) then World (wvty w) (whost w) 0 (randoms w) else w.

Lemma real_unknown vline w : unknown (Vector.contents vline) (node (wsess w)) →
  execute_real vline w = Some (match_error (Vector.contents vline) (node (wsess w)), w).
Proof.
  intros (rv & argv & E & Hrv). unfold cmd_execute_command_real, match_error. rewrite E. unfold match_at in E. revert E. destruct (cmd_node_graph cmdvec (node (wsess w))); intros E; [|done].
  cbn [mbind option_bind] in E. rewrite obind_Some, E. ostep. by destruct rv.
Qed.

Lemma real_known vline w args e : known (Vector.contents vline) (node (wsess w)) args e → execute_real vline w = func e args (before_command w).
Proof.
  intros (el & E & He & Hd). unfold cmd_execute_command_real. unfold match_at in E. revert E. destruct (cmd_node_graph cmdvec (node (wsess w))); intros E; [|done].
  cbn [mbind option_bind] in E. rewrite obind_Some, E. do 2 ostep. rewrite He. ostep. by rewrite Hd.
Qed.

(** The nodes above a node, up to the configuration node. *)
Inductive up (h : host) : Z → list Z → Prop :=
  | up_top n : (n ≤ CONFIG_NODE)%Z → up h n []
  | up_step n p ns : (CONFIG_NODE < n)%Z → node_parent h n = Some p → up h p ns → up h n (p :: ns).

(** Parents are older nodes, and not below the configuration node. *)
Definition nodes_ok (h : host) : Prop :=
  ∀ n, (CONFIG_NODE < n < Z.of_nat (length (node_parents h)))%Z → ∃ p, node_parent h n = Some p ∧ (CONFIG_NODE ≤ p < n)%Z.

Lemma up_exists h : nodes_ok h → ∀ k n, (n < Z.of_nat (length (node_parents h)))%Z → (Z.to_nat (n - CONFIG_NODE) ≤ k) → ∃ ns, up h n ns ∧ length ns ≤ k.
Proof.
  intros Hok. induction k as [|k IH]; intros n Hn Hk.
  - exists []. split; [|done]. constructor. lia.
  - destruct (decide (n ≤ CONFIG_NODE)%Z) as [Hle|Hgt]; [exists []; split; [by constructor|cbn; lia]|].
    destruct (Hok n) as (p & Hp & ? & ?); [lia|]. destruct (IH p) as (ns & Hup & Hl); [lia|lia|].
    exists (p :: ns). split; [constructor; [lia|done|done]|cbn; lia].
Qed.

Lemma up_unique h n ns : up h n ns → ∀ ns', up h n ns' → ns' = ns.
Proof.
  induction 1 as [n Hn|n p ns Hn Hp Hup IH]; intros ns' H'; inversion H'; subst; try lia; [done|]. assert (p0 = p) as -> by congruence. f_equal. auto.
Qed.

Lemma up_length h n ns : nodes_ok h → (n < Z.of_nat (length (node_parents h)))%Z → up h n ns → length ns ≤ length (node_parents h).
Proof.
  intros Hok Hn Hup. destruct (up_exists h Hok (Z.to_nat (n - CONFIG_NODE)) n Hn ltac:(done)) as (ns' & Hup' & Hl).
  rewrite (up_unique h n ns Hup ns' Hup') in Hl. unfold CONFIG_NODE in *. lia.
Qed.

(** [k] levels up the index into the path is [k] less. *)
Definition xpath_up (x : Z) (k : nat) : Z := if (0 <? x)%Z then Z.max 0 (x - Z.of_nat k) else x.

Lemma xpath_up_step x k : (if (0 <? x) then x - 1 else x)%Z = xpath_up x 1 ∧ xpath_up (xpath_up x 1) k = xpath_up x (S k).
Proof.
  unfold xpath_up. destruct (Z.ltb_spec 0 x).
  - split; [lia|]. rewrite Z.max_r by lia. destruct (Z.ltb_spec 0 (x - Z.of_nat 1)); lia.
  - split; [done|]. destruct (Z.ltb_spec 0 x); lia.
Qed.

Lemma put_put w n x n' x' : put_node n' x' (put_node n x w) = put_node n' x' w.
Proof. done. Qed.
Lemma put_same w : put_node (node (wsess w)) (xpath_index (wsess w)) w = w.
Proof. by destruct w as [[? ? ? [] ?] ? ? ?]. Qed.

Lemma climb_unknown vline ns : ∀ n w fuel, up (whost w) n ns → length ns ≤ fuel → node (wsess w) = n →
  Forall (unknown (Vector.contents vline)) ns → ∃ n' x', climb cmdvec elements fuel vline n w = Some (None, put_node n' x' w).
Proof.
  induction ns as [|p ns IH]; intros n w fuel Hup Hf Hn Hu; inversion Hup as [? Hle|? ? ? Hgt Hp Hup']; subst.
  - exists (node (wsess w)), (xpath_index (wsess w)). rewrite put_same. destruct fuel; cbn [climb]; by rewrite (proj2 (Z.ltb_ge _ _)).
  - destruct fuel as [|fuel]; [cbn in Hf; lia|]. cbn [climb length] in *. rewrite (proj2 (Z.ltb_lt _ _)) by done. rewrite Hp. ostep.
    apply Forall_cons in Hu as [Hu1 Hu]. set (x := xpath_index (wsess w)). set (w1 := put_node p (if (0 <? x) then x - 1 else x)%Z w).
    rewrite real_unknown by done. ostep. assert (accepted (match_error (Vector.contents vline) (node (wsess w1))) = false) as ->.
    { unfold match_error. destruct (match_at _ _) as [[[] ?]|]; done. }
    destruct (IH p w1 fuel Hup' ltac:(lia) eq_refl Hu) as (n' & x' & ->). exists n', x'. done.
Qed.

Lemma climb_known vline ret w' pre m post : ∀ n w fuel, up (whost w) n (pre ++ m :: post) → length pre < fuel → node (wsess w) = n →
  Forall (unknown (Vector.contents vline)) pre →
  execute_real vline (put_node m (xpath_up (xpath_index (wsess w)) (S (length pre))) w) = Some (ret, w') → accepted ret = true →
  climb cmdvec elements fuel vline n w = Some (Some ret, w').
Proof.
  induction pre as [|p pre IH]; intros n w fuel Hup Hf Hn Hu Hr Ha; inversion Hup as [? Hle|? ? ? Hgt Hp Hup']; subst;
    (destruct fuel as [|fuel]; [cbn in Hf; lia|]); cbn [climb length] in *; rewrite (proj2 (Z.ltb_lt _ _)) by done; rewrite Hp; ostep;
    rewrite (proj1 (xpath_up_step (xpath_index (wsess w)) 0)).
  - rewrite Hr. ostep. by rewrite Ha.
  - apply Forall_cons in Hu as [Hu1 Hu]. set (w1 := put_node p (xpath_up (xpath_index (wsess w)) 1) w).
    rewrite real_unknown by done. ostep. assert (accepted (match_error (Vector.contents vline) (node (wsess w1))) = false) as ->.
    { unfold match_error. destruct (match_at _ _) as [[[] ?]|]; done. }
    apply (IH p w1 fuel Hup' ltac:(lia) eq_refl Hu); [|done]. rewrite <- Hr. f_equal. subst w1.
    cbn [wsess put_node set_sess set_vty set_ss set_xpath set_node wvty ss xpath_index node].
    by rewrite put_put, (proj2 (xpath_up_step (xpath_index (wsess w)) (S (length pre)))).
Qed.

Lemma not_accepted line n : accepted (match_error line n) = false.
Proof. unfold match_error. destruct (match_at _ _) as [[[] ?]|]; done. Qed.

(** C34: Executing a line at a node that has [ns] above it.
    When no node on the way knows the line, the world is unchanged and the result
    says why the line is not known at the node itself.  Otherwise the first node
    that knows it runs the command, once, with the index into the path as many
    levels less; if the command accepts the line, its result and its world are
    the result.  A line that begins with [do] is run at the enable node, and
    the session is back at its node afterwards. *)
Theorem cmd_execute_command_dispatch (vline : vector cstring) (l : list (option cstring)) (w : world B) (ns : list Z) :
  let n := node (wsess w) in
  wf vline → Vector.contents vline = l → l ≠ [] → (Z.of_nat (length l) < 2 ^ 31)%Z →
  nodes_ok (whost w) → (n < Z.of_nat (length (node_parents (whost w))))%Z → up (whost w) n ns →
  (cmd_try_do_shortcut n (mjoin (head l)) = false →
     (Forall (unknown l) (n :: ns) → execute vline w false = Some (match_error l n, w))
     ∧ (∀ pre m post args e ret w', n :: ns = pre ++ m :: post → Forall (unknown l) pre → known l m args e →
          func e args (before_command (put_node m (xpath_up (xpath_index (wsess w)) (length pre)) w)) = Some (ret, w') → accepted ret = true →
          execute vline w false = Some (ret, w')))
  ∧ (cmd_try_do_shortcut n (mjoin (head l)) = true → ∀ args e,
       known (tail l) ENABLE_NODE args e →
       execute vline w false = '(ret, w') ← func e args (before_command (put_node ENABLE_NODE 0 w)); Some (ret, put_node n (xpath_index (wsess w)) w')).
Proof.
  intros n Hwf Hl Hne Hlen Hok Hn Hup. destruct (wf_inv vline Hwf) as (l' & m0 & -> & Hfit). rewrite contents_mkv in Hl. subst l'.
  assert (vector_slot (mkv l m0) 0 = Some (mjoin (head l))) as Hs by (destruct l as [|[]]; done).
  pose proof (up_length _ _ _ Hok Hn Hup) as Hfuel. unfold cmd_execute_command. rewrite Hs. ostep. fold n. split; intros Hdo; rewrite Hdo.
  - split.
    + intros [Hu Hus]%Forall_cons. rewrite real_unknown by (by rewrite contents_mkv). ostep. rewrite contents_mkv. fold n.
      rewrite not_accepted. destruct (climb_unknown (mkv l m0) ns n w (length (node_parents (whost w))) Hup Hfuel eq_refl) as (n' & x' & ->);
        [by rewrite contents_mkv|]. ostep. rewrite put_put. subst n. by rewrite put_same.
    + intros pre m post args e ret w' E Hpre Hk Hf Ha. destruct pre as [|p pre]; cbn [app] in E; injection E as <- E.
      * assert (xpath_up (xpath_index (wsess w)) 0 = xpath_index (wsess w)) as Ex.
        { unfold xpath_up. destruct (Z.ltb_spec 0 (xpath_index (wsess w))); lia. }
        cbn [length] in Hf. rewrite Ex in Hf. subst n. rewrite put_same in Hf. rewrite (real_known _ _ args e) by (by rewrite contents_mkv). rewrite Hf. ostep. by rewrite Ha.
      * apply Forall_cons in Hpre as [Hu Hpre]. rewrite real_unknown by (by rewrite contents_mkv). ostep. rewrite not_accepted. subst ns.
        rewrite (climb_known (mkv l m0) ret w' pre m post n w); [done|done| |done|by rewrite contents_mkv| |done].
        -- rewrite length_app in Hfuel. cbn in Hfuel. lia.
        -- rewrite (real_known _ _ args e) by (by rewrite contents_mkv). exact Hf.
  - intros args e Hk. destruct (shifted_vline_spec l m0 1 Hfit Hlen) as (m1 & -> & _); [destruct l; [done|cbn; lia]|]. ostep.
    rewrite (real_known _ _ args e) by (rewrite contents_mkv; by destruct l). done.
Qed.
End dispatch.

(** One doubling is not always enough: with an item that is longer than the
    doubled block the next one is written behind it. *)
Example comp2str_overflow :
  cmd_variable_comp2str (mkv [Some (replicate 100 "x"%char); Some (str "y")] 2) 80 = None.
Proof. vm_compute. reflexivity. Qed.

Example comp2str_wraps :
  cmd_variable_comp2str (mkv [Some (str "abc"); Some (str "defg")] 2) 12 = Some (str "     abc " ++ newline ++ str "     defg ").
Proof. vm_compute. reflexivity. Qed.

(** ** Examples *)

Lemma cmd_make_strvec_words_witness :
  ∃ v, cmd_make_strvec (Some (str "  show  vpp ")) = Some (Some v) ∧ Vector.contents v = [Some (str "show"); Some (str "vpp")].
Proof.
  pose proof (cmd_make_strvec_words (str "  ") [(str "show", str "  "); (str "vpp", str " ")] []) as Hw.
  destruct Hw as (v & E & _ & Hc).
  - by repeat constructor.
  - repeat constructor; cbn; try discriminate; apply (bool_decide_unpack _); vm_compute; reflexivity.
  - by left.
  - vm_compute. reflexivity.
  - reflexivity.
  - exists v. split; [exact E|exact Hc].
Defined.

Lemma completions_to_vec_correct_witness :
  ∃ v, completions_to_vec [word "vpp"; plumbing END_TKN; word "debug"; word "vpp"] = Some v
    ∧ Vector.contents v = [Some (plumbing END_TKN); Some (word "debug"); Some (word "vpp")].
Proof.
  destruct (completions_to_vec_correct [word "vpp"; plumbing END_TKN; word "debug"; word "vpp"]) as (v & ts & E & _ & Hc & _); [vm_compute; reflexivity|].
  exists v. split; [exact E|]. vm_compute in E. injection E as <-. reflexivity.
Defined.

(** The node 6 below the configuration node knows one word, the configuration
    node another one. *)
Definition one_word (s : string) (el : nat) : graph :=
  [Node (Tok (plumbing START_TKN)) [1]; Node (Tok (word s)) [2]; Node (Tok (plumbing END_TKN)) [3]; Node (Element el) []].
Definition nodes_example : list (option cmd_node) :=
  [None; None; None; None; Some (CmdNode (one_word "help" 0) [Some 0]); None; Some (CmdNode (one_word "exit" 1) [Some 1])].
Definition elements_example : list (cmd_element Buffer.buffer) :=
  [CmdElement (str "help") false CMD_ATTR_NORMAL (λ _ w, Some (CMD_SUCCESS, w));
   CmdElement (str "exit") false CMD_ATTR_NORMAL config_exit].
Definition world_example : world Buffer.buffer := put_node 6 1 (World session0 host0 0 []).

Lemma cmd_execute_command_dispatch_witness :
  nodes_ok host0 ∧ cmd_execute_command nodes_example elements_example (mkv [Some (str "help")] 1) world_example false
    = Some (CMD_SUCCESS, put_node 4 0 world_example).
Proof.
  assert (nodes_ok host0) as Hok.
  { intros n Hn. change (4 < n < 7)%Z in Hn. assert (n = 5 ∨ n = 6)%Z as [-> | ->] by lia; exists 4%Z; (split; [reflexivity|unfold CONFIG_NODE; lia]). }
  split; [exact Hok|].
  pose proof (cmd_execute_command_dispatch nodes_example elements_example (mkv [Some (str "help")] 1) [Some (str "help")] world_example [4%Z]) as Hd.
  destruct Hd as [Hd _].
  - apply wf_mkv. unfold fits. cbn. lia.
  - reflexivity.
  - discriminate.
  - reflexivity.
  - exact Hok.
  - reflexivity.
  - econstructor; [reflexivity|reflexivity|]. constructor. reflexivity.
  - destruct (Hd eq_refl) as [_ Hr].
    apply (Hr [6%Z] 4%Z [] [(word "help", str "help")] (CmdElement (str "help") false CMD_ATTR_NORMAL (λ _ w, Some (CMD_SUCCESS, w)))).
    + reflexivity.
    + constructor; [|constructor]. exists MATCHER_NO_MATCH, None. split; [vm_compute; reflexivity|discriminate].
    + exists 0. split; [vm_compute; reflexivity|]. split; reflexivity.
    + reflexivity.
    + reflexivity.
Defined.
