(* ===== verification/CmdNode.v ===== *)
(** * The nodes of the command line and their commands: lib/command_node.c and
    install_element of lib/command.c

    [node_names] and [_node_parent] are arrays of NODE_TYPE_LIMIT entries of
    which NODE_TYPE_MAX are in use.  [cmdvec] is a vector (Vector) of pointers to
    the nodes; a node has its graph, its vector of commands and the table of the
    commands it has, which is a set of pointers (Hash).  Commands and nodes are
    numbers.  The command's own graph gets its tokens from the parser, which bison
    generates and which is a parameter ([cmd_graph_parse]); it is named and merged
    as in CmdGraph ([merge_command]).

    Theorems: a node allocated under a configuration node keeps the parents
    leading up to CONFIG_NODE, which is what the interpreter needs (Command,
    [nodes_ok]), and is found again by its name ([alloc_new_node_id_ok]); whatever
    is installed and uninstalled, in whichever order, a node's vector and table
    hold the same commands, each once, and its graph has every one of them merged
    in once more than it was taken out, and a call fails only where the parser or
    the merge fails ([registry_consistent]). *)
From stdpp Require Import prelude gmap list strings.
From S2P Require Import Prelude.
From S2P Require Import Vector.
From S2P Require Import CString.
From S2P Require Import Graph.
From S2P Require Import TokenMatch.
From S2P Require Import CmdGraph.
From S2P Require Import Vty.
From S2P Require Import Command.
Set Default Goal Selector "!".

(** ** Node numbers *)

Definition NODE_TYPE_LIMIT : nat := 256.
Record node_ids := NodeIds { node_names : list (option cstring); parents : list Z; NODE_TYPE_MAX : nat }.

Definition names_init : list cstring :=
  str <$> ["auth"; "view"; "auth enable"; "enable"; "config+"; "debug"; "vty"].
Definition initial_ids : node_ids :=
  NodeIds ((Some <$> names_init) ++ replicate 249 None) ([-1; -1; -1; -1; -1; CONFIG_NODE; CONFIG_NODE]%Z ++ replicate 249 0%Z) 7.

(** [None] is the assertion. *)
Definition alloc_new_node_id (nm : cstring) (parent : Z) (t : node_ids) : option (Z * node_ids) :=
  if decide (NODE_TYPE_MAX t < NODE_TYPE_LIMIT) then
    let next := NODE_TYPE_MAX t in
    ns ← write (node_names t) next (Some nm);
    ps ← write (parents t) next parent;
    Some (Z.of_nat next, NodeIds ns ps (S next))
  else None.

(** [None] is [strcmp] on a null name. *)
Fixpoint find_name (nm : cstring) (names : list (option cstring)) (i : nat) : option Z :=
  match names with
  | [] => Some (-1)%Z
  | Some x :: names => if decide (x = nm) then Some (Z.of_nat i) else find_name nm names (S i)
  | None :: _ => None
  end.
Definition find_node_id_by_name (nm : cstring) (t : node_ids) : option Z :=
  find_name nm (take (NODE_TYPE_MAX t) (node_names t)) 0.

(** ** Commands in a vector *)

Lemma first_empty_cons {A} (y : A) l : first_empty (Some y :: l) = S (first_empty l).
Proof. unfold first_empty at 1. cbn. by rewrite empty_slot_loop_add. Qed.

Lemma set_at_cons {A} (y : option A) l i x : set_at (y :: l) (S i) x = y :: set_at l i x.
Proof. reflexivity. Qed.

Lemma set_empty_adds {A} (c : A) l : omap id (set_at l (first_empty l) (Some c)) ≡ₚ c :: omap id l.
Proof.
  induction l as [|[y|] l IH]; [done| |].
  - rewrite first_empty_cons, set_at_cons. change (y :: omap id (set_at l (first_empty l) (Some c)) ≡ₚ c :: y :: omap id l).
    rewrite IH. apply perm_swap.
  - change (first_empty (None :: l)) with 0. unfold set_at. simpl. by rewrite app_nil_r.
Qed.

Lemma set_empty_length {A} (c : A) l : length (set_at l (first_empty l) (Some c)) ≤ S (length l).
Proof. rewrite set_at_length. pose proof (first_empty_le l). lia. Qed.

Lemma rstrip_omap {A} (l : list (option A)) : omap id (rstrip l) = omap id l.
Proof.
  induction l as [|x l IH] using rev_ind; [done|]. destruct x as [x|].
  - by rewrite rstrip_snoc_Some.
  - rewrite rstrip_snoc_None, IH, omap_app. simpl. by rewrite app_nil_r.
Qed.

Lemma find_value_spec {A} `{EqDecision A} (l : list (option A)) (c : A) j : Some c ∈ l →
  ∃ l1 l2, l = l1 ++ Some c :: l2 ∧ find_value l (Some c) j = j + length l1.
Proof.
  revert j. induction l as [|x l IH]; intros j H; [by apply elem_of_nil in H|]. cbn [find_value]. case_decide as E.
  - subst. exists [], l. split; [done|]. simpl. lia.
  - apply elem_of_cons in H as [?|H]; [congruence|]. destruct (IH (S j) H) as (l1 & l2 & -> & ->). exists (x :: l1), l2.
    split; [done|]. simpl. lia.
Qed.

Lemma unset_value_drops {A} `{EqDecision A} (c : A) l : c ∈ omap id l → c :: omap id (unset_value l (Some c)) ≡ₚ omap id l.
Proof.
  intros Hc. assert (Some c ∈ l) as H by (apply list_elem_of_omap in Hc as (x & Hx & Ex); destruct x; by simplify_eq/=).
  destruct (find_value_spec l c 0 H) as (l1 & l2 & -> & Ef). unfold unset_value. rewrite Ef, Nat.add_0_l.
  rewrite (proj2 (Nat.ltb_lt _ _)) by (rewrite length_app; simpl; lia). unfold unset_at.
  destruct (Nat.eqb_spec (length l1 + 1) (length (l1 ++ Some c :: l2))) as [E|E].
  - rewrite length_app in E. simpl in E. destruct l2; [|simpl in E; lia]. rewrite take_app_length, rstrip_omap, omap_app. simpl.
    apply Permutation_cons_append.
  - rewrite insert_app_r_alt, Nat.sub_diag by lia. simpl. rewrite !omap_app. simpl. apply Permutation_middle.
Qed.

Lemma unset_value_length {A} `{EqDecision A} (c : A) l : length (unset_value l (Some c)) ≤ length l.
Proof. unfold unset_value. case_match; [apply unset_at_length|done]. Qed.

(** ** The registry *)

(** *** Graphs of commands *)

Definition start_token : ctok := cmd_token_new START_TKN CMD_ATTR_NORMAL [] None.

(** The graph of a new node: the start token. *)
Definition node_graph : merging :=
  Merging {[ 0 := GNode (vector_init VECTOR_MIN_SIZE) (vector_init VECTOR_MIN_SIZE) (Some 0) true ]} {[ 0 := start_token ]}
    (mkv [Some 0] 1) (vector_init VECTOR_MIN_SIZE) [].

Example node_graph_new : ('(_, g) ← graph_new_node Graph.graph_new (Some 0) true;
  Some (Merging (Graph.heap g) {[ 0 := start_token ]} (Graph.nodes g) (vector_init VECTOR_MIN_SIZE) [])) = Some node_graph.
Proof. vm_compute. reflexivity. Qed.

(** An address that is not in use. *)
Definition unused (s : merging) : nat :=
  S (max_list (fst <$> map_to_list (CmdGraph.heap s)) `max` max_list (fst <$> map_to_list (toks s))).

(** A second graph with its start token. *)
Definition new_graph (s : merging) : option merging :=
  '(_, g) ← graph_new_node (Graph.Graph (vector_init VECTOR_MIN_SIZE) (CmdGraph.heap s) (unused s) []) (Some (unused s)) true;
  Some (Merging (Graph.heap g) (<[unused s := start_token]> (toks s)) (onodes s) (Graph.nodes g) (CmdGraph.freed s)).

(** [graph_delete_graph] of it; its tokens are freed. *)
Definition delete_new (s : merging) : option merging :=
  '(h, dead) ← graph_delete_graph (Graph.Graph (nnodes s) (CmdGraph.heap s) 0 []);
  Some (Merging h (foldr delete (toks s) dead) (onodes s) (vector_init VECTOR_MIN_SIZE) (dead ++ CmdGraph.freed s)).

Section registry.
(** [cmd_graph_parse] adds the tokens of a command to the second graph.  What
    [cmd_loopstop] reads of a command, and the fuel of the walks. *)
Context (cmd_graph_parse : nat → merging → option merging) (elem_type : nat → Z) (fuel : nat).

(** The command's graph is built, merged into the node's in a direction and deleted. *)
Definition merge_command (direction : Z) (g : merging) (cmd : nat) : option merging :=
  s ← new_graph g;
  s ← cmd_graph_parse cmd s;
  s ← cmd_graph_names elem_type fuel s;
  s ← cmd_graph_merge elem_type fuel direction s;
  delete_new s.

Record cnode := CNode { cmdgraph : merging; cmd_vector : vector nat; cmd_hash : gset nat }.
Record registry := Registry { cmdvec : option (vector nat); cnodes : gmap nat cnode }.

Definition cmd_init_vec (r : registry) : registry := Registry (Some (vector_init VECTOR_MIN_SIZE)) (cnodes r).

(** Node [p] with the number [ntype]; its graph has the start token. *)
Definition install_node (p : nat) (ntype : nat) (r : registry) : option registry :=
  v ← cmdvec r;
  '(v, _) ← vector_set_index v ntype (Some p);
  Some (Registry (Some v) (<[p := CNode node_graph (vector_init VECTOR_MIN_SIZE) ∅]> (cnodes r))).

(** Ends of a call: [Refused] after a message, [Exited] with EXIT_FAILURE. *)
Inductive ended := Installed (r : registry) | Refused (r : registry) | Exited.

(** The body up to the last statement, which repeats it for the enable node. *)
Definition install_here (ntype : nat) (cmd : nat) (r : registry) : option ended :=
  match cmdvec r with
  | None => Some (Refused r)
  | Some v =>
      c ← vector_lookup v ntype;
      match c with
      | None => Some Exited
      | Some p =>
          n ← cnodes r !! p;
          if decide (cmd ∈ cmd_hash n) then Some (Refused r)
          else
            g ← merge_command 1 (cmdgraph n) cmd;
            '(cv, _) ← vector_set (cmd_vector n) (Some cmd);
            Some (Installed (Registry (cmdvec r) (<[p := CNode g cv ({[cmd]} ∪ cmd_hash n)]> (cnodes r))))
      end
  end.

Definition uninstall_here (ntype : nat) (cmd : nat) (r : registry) : option ended :=
  match cmdvec r with
  | None => Some (Refused r)
  | Some v =>
      c ← vector_lookup v ntype;
      match c with
      | None => Some Exited
      | Some p =>
          n ← cnodes r !! p;
          if decide (cmd ∈ cmd_hash n) then
            cv ← vector_unset_value (cmd_vector n) (Some cmd);
            g ← merge_command (-1) (cmdgraph n) cmd;
            Some (Installed (Registry (cmdvec r) (<[p := CNode g cv (cmd_hash n ∖ {[cmd]})]> (cnodes r))))
          else Some (Refused r)
      end
  end.

Definition VIEW : nat := Z.to_nat VIEW_NODE.
Definition ENABLE : nat := Z.to_nat ENABLE_NODE.

Definition also_enable (here : nat → nat → registry → option ended) (ntype cmd : nat) (r : registry) : option ended :=
  e ← here ntype cmd r;
  match e with
  | Installed r => if decide (ntype = VIEW) then here ENABLE cmd r else Some (Installed r)
  | _ => Some e
  end.
Definition install_element : nat → nat → registry → option ended := also_enable install_here.
Definition uninstall_element : nat → nat → registry → option ended := also_enable uninstall_here.

(** A program's calls; after [Exited] there are no more. *)
Inductive reg_call := Install (ntype cmd : nat) | Uninstall (ntype cmd : nat).

Fixpoint reg_run (cs : list reg_call) (r : registry) : option ended :=
  match cs with
  | [] => Some (Installed r)
  | c :: cs =>
      e ← match c with Install t x => install_element t x r | Uninstall t x => uninstall_element t x r end;
      match e with Installed r | Refused r => reg_run cs r | Exited => Some Exited end
  end.

(** ** Consistency *)

Fixpoint merge_all (log : list (Z * nat)) (g : merging) : option merging :=
  match log with [] => Some g | (d, c) :: log => g ← merge_command d g c; merge_all log g end.
(** How much more often [c] was merged in than taken out. *)
Fixpoint net (c : nat) (log : list (Z * nat)) : Z :=
  match log with [] => 0 | (d, x) :: log => (if decide (x = c) then d else 0) + net c log end.

Record cnode_ok (k : nat) (n : cnode) : Prop := {
  cok_vec : ∃ l sz, cmd_vector n = mkv l sz ∧ fits l sz ∧ length l ≤ k ∧ NoDup (omap id l) ∧ ∀ c, c ∈ omap id l ↔ c ∈ cmd_hash n;
  cok_graph : ∃ log, merge_all log node_graph = Some (cmdgraph n) ∧ ∀ c, net c log = if decide (c ∈ cmd_hash n) then 1%Z else 0%Z;
}.

(** Every slot of [cmdvec] leads to a node, and no vector has more than [k]
    slots. *)
Record registry_ok (k : nat) (r : registry) : Prop := {
  rok_vec v : cmdvec r = Some v → ∃ l sz, v = mkv l sz ∧ fits l sz ∧ ∀ p, Some p ∈ l → is_Some (cnodes r !! p);
  rok_nodes p n : cnodes r !! p = Some n → cnode_ok k n;
}.

Lemma net_app c log log' : net c (log ++ log') = (net c log + net c log')%Z.
Proof. induction log as [|[d x] log IH]; simpl; [done|]. rewrite IH. lia. Qed.

Lemma merge_all_snoc log d c g : merge_all (log ++ [(d, c)]) g = merge_all log g ≫= λ g, merge_command d g c.
Proof.
  revert g. induction log as [|[e x] log IH]; intros g; simpl; [by destruct (merge_command d g c)|].
  destruct (merge_command e g x) as [g'|]; simpl; [apply IH|done].
Qed.

Lemma cnode_ok_weaken k k' n : k ≤ k' → cnode_ok k n → cnode_ok k' n.
Proof. intros Hk [(l & sz & Hv & Hf & Hl & H) Hg]. split; [|done]. exists l, sz. split_and!; try done; [lia|apply H..]. Qed.

Lemma cnode_add k n cmd g : cnode_ok k n → (Z.of_nat k < 2 ^ 31)%Z → cmd ∉ cmd_hash n → merge_command 1 (cmdgraph n) cmd = Some g →
  ∃ cv i, vector_set (cmd_vector n) (Some cmd) = Some (cv, i) ∧ cnode_ok (S k) (CNode g cv ({[cmd]} ∪ cmd_hash n)).
Proof.
  intros [(l & sz & Hv & Hf & Hl & Hnd & Hin) (log & Hlog & Hnet)] Hk Hc Hg. rewrite Hv.
  destruct (vector_set_spec l sz (Some cmd) Hf) as (sz' & -> & Hf'); [lia|]. eexists _, _. split; [done|]. split; simpl.
  - exists (set_at l (first_empty l) (Some cmd)), sz'. split_and!; [done|done| | |].
    + pose proof (set_empty_length cmd l). lia.
    + rewrite set_empty_adds. constructor; [|done]. by rewrite Hin.
    + intros c. rewrite set_empty_adds. set_solver.
  - exists (log ++ [(1%Z, cmd)]). split; [by rewrite merge_all_snoc, Hlog|]. intros c. rewrite net_app, Hnet. simpl.
    destruct (decide (cmd = c)) as [->|Hne]; [rewrite decide_False, decide_True by set_solver; done|].
    destruct (decide (c ∈ cmd_hash n)); [rewrite decide_True by set_solver|rewrite decide_False by set_solver]; lia.
Qed.

Lemma cnode_drop k n cmd g : cnode_ok k n → cmd ∈ cmd_hash n → merge_command (-1) (cmdgraph n) cmd = Some g →
  ∃ cv, vector_unset_value (cmd_vector n) (Some cmd) = Some cv ∧ cnode_ok k (CNode g cv (cmd_hash n ∖ {[cmd]})).
Proof.
  intros [(l & sz & Hv & Hf & Hl & Hnd & Hin) (log & Hlog & Hnet)] Hc Hg. rewrite Hv.
  destruct (vector_unset_value_spec l sz (Some cmd) Hf) as [-> Hf']. eexists. split; [done|].
  pose proof (unset_value_drops cmd l (proj2 (Hin cmd) Hc)) as Hp. rewrite <- Hp in Hnd. apply NoDup_cons in Hnd as [Hni Hnd].
  split; simpl.
  - exists (unset_value l (Some cmd)), sz. split_and!; [done|done| |done|].
    + pose proof (unset_value_length cmd l). lia.
    + intros c. rewrite elem_of_difference, elem_of_singleton, <- Hin, <- Hp, elem_of_cons. naive_solver.
  - exists (log ++ [((-1)%Z, cmd)]). split; [by rewrite merge_all_snoc, Hlog|]. intros c. rewrite net_app, Hnet. simpl.
    destruct (decide (cmd = c)) as [->|Hne]; [rewrite decide_True, decide_False by set_solver; done|].
    destruct (decide (c ∈ cmd_hash n)); [rewrite decide_True by set_solver|rewrite decide_False by set_solver]; lia.
Qed.

Lemma cnode_drop_vector n cmd k : cnode_ok k n → cmd ∈ cmd_hash n → ∃ cv, vector_unset_value (cmd_vector n) (Some cmd) = Some cv.
Proof.
  intros [(l & sz & -> & Hf & _) _] _. destruct (vector_unset_value_spec l sz (Some cmd) Hf) as [-> _]. eauto.
Qed.

Lemma registry_ok_weaken k k' r : k ≤ k' → registry_ok k r → registry_ok k' r.
Proof. intros Hk [Hv Hn]. split; [done|]. intros p n E. eapply cnode_ok_weaken; eauto. Qed.

Lemma registry_put k r p n : registry_ok k r → is_Some (cnodes r !! p) → cnode_ok (S k) n →
  registry_ok (S k) (Registry (cmdvec r) (<[p := n]> (cnodes r))).
Proof.
  intros [Hv Hn] [n0 Hp] Hok. split; simpl.
  - intros v Ev. destruct (Hv v Ev) as (l & sz & ? & ? & Hl). exists l, sz. split_and!; try done. intros q Hq.
    destruct (decide (p = q)) as [->|]; [by rewrite lookup_insert_eq|rewrite lookup_insert_ne by done; auto].
  - intros q n' E. destruct (decide (p = q)) as [->|]; [rewrite lookup_insert_eq in E; by simplify_eq|].
    rewrite lookup_insert_ne in E by done. apply (cnode_ok_weaken k); eauto.
Qed.

Lemma lookup_node k r v t : registry_ok k r → cmdvec r = Some v →
  ∃ c, vector_lookup v t = Some c ∧ match c with Some p => ∃ n, cnodes r !! p = Some n ∧ cnode_ok k n | None => True end.
Proof.
  intros [Hv Hn] Ev. destruct (Hv v Ev) as (l & sz & -> & Hf & Hl). unfold vector_lookup, vector_slot. cbn [active mkv index].
  destruct (Nat.leb_spec (length l) t) as [?|Ht]; [by eexists|]. unfold pad. rewrite lookup_app_l by done.
  destruct (lookup_lt_is_Some_2 l t Ht) as [c E]. rewrite E. exists c. split; [done|]. destruct c as [p|]; [|done].
  apply list_elem_of_lookup_2 in E. destruct (Hl p E) as [n En]. exists n. split; [done|]. by eapply Hn.
Qed.

(** What a call leaves. *)
Definition left_ok (k : nat) (e : ended) : Prop :=
  match e with Installed r | Refused r => registry_ok k r | Exited => True end.

(** The parser or the merge of command [c] fails at a node that is in order. *)
Definition merge_fails (k c : nat) : Prop := ∃ n d, cnode_ok k n ∧ merge_command d (cmdgraph n) c = None.
(** A call leaves a consistent registry, or fails there. *)
Definition outcome_ok (k c : nat) (o : option ended) : Prop := match o with Some e => left_ok k e | None => merge_fails k c end.

Lemma merge_fails_weaken k k' c : k ≤ k' → merge_fails k c → merge_fails k' c.
Proof. intros Hk (n & d & Hn & E). exists n, d. split; [by apply (cnode_ok_weaken k)|done]. Qed.
Lemma left_ok_weaken k k' e : k ≤ k' → left_ok k e → left_ok k' e.
Proof. intros Hk. destruct e; [by apply registry_ok_weaken..|done]. Qed.
Lemma outcome_ok_weaken k k' c o : k ≤ k' → outcome_ok k c o → outcome_ok k' c o.
Proof. intros Hk. destruct o; [by apply left_ok_weaken|by apply merge_fails_weaken]. Qed.

Lemma install_here_ok k t c r : registry_ok k r → (Z.of_nat k < 2 ^ 31)%Z → outcome_ok (S k) c (install_here t c r).
Proof.
  intros Hr Hk. unfold install_here. destruct (cmdvec r) as [v|] eqn:Ev; [|by apply (registry_ok_weaken k); [lia|]].
  destruct (lookup_node k r v t Hr Ev) as (x & -> & Hx). rewrite obind_Some. destruct x as [p|]; [|done].
  destruct Hx as (n & En & Hn). rewrite En, obind_Some. case_decide as Hc; [by apply (registry_ok_weaken k); [lia|]|].
  destruct (merge_command 1 (cmdgraph n) c) as [g|] eqn:Eg; [|exists n, 1%Z; split; [by apply (cnode_ok_weaken k); [lia|]|done]]. rewrite obind_Some.
  destruct (cnode_add k n c g Hn Hk Hc Eg) as (cv & i & -> & Hok). rewrite obind_Some. cbn [outcome_ok left_ok].
  rewrite <- Ev. apply registry_put; eauto.
Qed.

Lemma uninstall_here_ok k t c r : registry_ok k r → outcome_ok (S k) c (uninstall_here t c r).
Proof.
  intros Hr. unfold uninstall_here. destruct (cmdvec r) as [v|] eqn:Ev; [|by apply (registry_ok_weaken k); [lia|]].
  destruct (lookup_node k r v t Hr Ev) as (x & -> & Hx). rewrite obind_Some. destruct x as [p|]; [|done].
  destruct Hx as (n & En & Hn). rewrite En, obind_Some. case_decide as Hc; [|by apply (registry_ok_weaken k); [lia|]].
  destruct (cnode_drop_vector n c k Hn Hc) as [cv Ecv]. rewrite Ecv, obind_Some.
  destruct (merge_command (-1) (cmdgraph n) c) as [g|] eqn:Eg; [|exists n, (-1)%Z; split; [by apply (cnode_ok_weaken k); [lia|]|done]]. rewrite obind_Some.
  destruct (cnode_drop k n c g Hn Hc Eg) as (cv' & E & Hok). rewrite Ecv in E. injection E as <-. cbn [outcome_ok left_ok].
  rewrite <- Ev. apply registry_put; [done|eauto|]. by apply (cnode_ok_weaken k); [lia|].
Qed.

Lemma also_enable_ok here k t c r :
  (∀ k t c r, registry_ok k r → (Z.of_nat k < 2 ^ 31)%Z → outcome_ok (S k) c (here t c r)) →
  registry_ok k r → (Z.of_nat k + 1 < 2 ^ 31)%Z → outcome_ok (2 + k) c (also_enable here t c r).
Proof.
  intros H Hr Hk. unfold also_enable. pose proof (H k t c r Hr ltac:(lia)) as He. destruct (here t c r) as [e|]; [|by apply (merge_fails_weaken (S k)); [lia|]].
  rewrite obind_Some. destruct e as [r'|r'|]; [case_decide; [apply H; [done|lia]|]|..|done]; by apply (registry_ok_weaken (S k)); [lia|].
Qed.

Definition call_command (c : reg_call) : nat := match c with Install _ x | Uninstall _ x => x end.


End registry.

(** ** Node numbers lead to the configuration node *)

Record ids_ok (t : node_ids) : Prop := {
  ids_names : length (node_names t) = NODE_TYPE_LIMIT;
  ids_parents : length (parents t) = NODE_TYPE_LIMIT;
  ids_max : 5 ≤ NODE_TYPE_MAX t ≤ NODE_TYPE_LIMIT;
  ids_named : Forall is_Some (take (NODE_TYPE_MAX t) (node_names t));
  ids_up n : (CONFIG_NODE < n < Z.of_nat (NODE_TYPE_MAX t))%Z → ∃ p, parents t !! Z.to_nat n = Some p ∧ (CONFIG_NODE ≤ p < n)%Z;
}.

Lemma ids_nodes_ok t (h : host) : ids_ok t → node_parents h = take (NODE_TYPE_MAX t) (parents t) → nodes_ok h.
Proof.
  intros [_ Lp Hm _ Hup] Eh n Hn. rewrite Eh, length_take, Lp, Nat.min_l in Hn by lia.
  destruct (Hup n Hn) as (p & Ep & Hp). exists p. split; [|done]. unfold node_parent. unfold CONFIG_NODE in *.
  assert ((0 <=? n)%Z = true) as -> by lia. rewrite Eh, lookup_take_lt by lia. done.
Qed.

Lemma find_name_app nm l l' i : Forall is_Some l → (Some nm ∉ l) → find_name nm (l ++ l') i = find_name nm l' (i + length l).
Proof.
  intros Hl. revert i. induction Hl as [|x l [y ->] Hl IH]; intros i Hn; simpl; [by rewrite Nat.add_0_r|].
  rewrite decide_False by set_solver. rewrite IH by set_solver. f_equal. lia.
Qed.

Lemma find_name_first nm l i : Forall is_Some l → ∃ z, find_name nm l i = Some z ∧
  (z = (-1)%Z ∧ (Some nm ∉ l) ∨ ∃ j, z = Z.of_nat (i + j) ∧ l !! j = Some (Some nm) ∧ Some nm ∉ take j l).
Proof.
  intros Hl. revert i. induction Hl as [|x l [y ->] Hl IH]; intros i; simpl.
  - eexists. split; [done|]. left. split; [done|]. apply not_elem_of_nil.
  - case_decide as E.
    + subst. eexists. split; [done|]. right. exists 0. split_and!; [f_equal; lia|done|]. apply not_elem_of_nil.
    + destruct (IH (S i)) as (z & -> & Hz). eexists. split; [done|]. destruct Hz as [[-> Hn]|(j & -> & Hj & Hn)].
      * left. split; [done|]. set_solver.
      * right. exists (S j). split_and!; [f_equal; lia|done|]. simpl. set_solver.
Qed.

(** A new node under a configuration node, with a name not yet in use: it gets
    the next number, is found by its name, the other names are found as before,
    and all parents still lead to CONFIG_NODE. *)
Theorem alloc_new_node_id_ok (t : node_ids) (nm : cstring) (parent : Z) : ids_ok t → NODE_TYPE_MAX t < NODE_TYPE_LIMIT →
  (CONFIG_NODE ≤ parent < Z.of_nat (NODE_TYPE_MAX t))%Z → find_node_id_by_name nm t = Some (-1)%Z →
  ∃ t', alloc_new_node_id nm parent t = Some (Z.of_nat (NODE_TYPE_MAX t), t') ∧ ids_ok t' ∧
  find_node_id_by_name nm t' = Some (Z.of_nat (NODE_TYPE_MAX t)) ∧
  ∀ nm', nm' ≠ nm → find_node_id_by_name nm' t' = find_node_id_by_name nm' t.
Proof.
  intros [Ln Lp Hm Hnm Hup] Hlt Hpar Hfree. unfold alloc_new_node_id. rewrite decide_True by done.
  rewrite !write_Some by lia. rewrite !obind_Some. eexists. split; [done|]. set (k := NODE_TYPE_MAX t) in *.
  assert (Et : take (S k) (<[k := Some nm]> (node_names t)) = take k (node_names t) ++ [Some nm]).
  { rewrite (take_S_r _ _ (Some nm)) by (rewrite list_lookup_insert_eq; [done|lia]). by rewrite take_insert_ge. }
  assert (Hno : Some nm ∉ take k (node_names t)).
  { intros Hin. destruct (find_name_first nm _ 0 Hnm) as (z & E & Hz). unfold find_node_id_by_name in Hfree. fold k in Hfree. rewrite Hfree in E.
    simplify_eq. destruct Hz as [[_ ?]|(j & ? & _)]; [done|lia]. }
  split_and!.
  - split; cbn [node_names parents NODE_TYPE_MAX]; [by rewrite length_insert..|lia| |].
    + rewrite Et. apply Forall_app. split; [done|]. by repeat constructor.
    + intros n Hn. destruct (decide (n = Z.of_nat k)) as [->|Hne].
      * rewrite Nat2Z.id, list_lookup_insert_eq by lia. eauto.
      * rewrite list_lookup_insert_ne by lia. apply Hup. lia.
  - unfold find_node_id_by_name. cbn [node_names NODE_TYPE_MAX]. rewrite Et, find_name_app by done. simpl. rewrite decide_True by done.
    f_equal. rewrite length_take. lia.
  - intros nm' Hne. unfold find_node_id_by_name. cbn [node_names NODE_TYPE_MAX]. fold k. rewrite Et.
    destruct (find_name_first nm' _ 0 Hnm) as (z & E & Hz). rewrite E. destruct Hz as [[-> Hn]|(j & -> & Hj & Hn)].
    + rewrite find_name_app by done. simpl. by rewrite decide_False by done.
    + clear - E. revert E. generalize (take k (node_names t)) as l. intros l. generalize 0 at 1 3. intros i. revert i.
      induction l as [|[x|] l IH]; intros i; simpl; [intros [=]; lia| |done]. case_decide; [done|apply IH].
Qed.

Lemma initial_ids_ok : ids_ok initial_ids.
Proof.
  split; [done|done|simpl; unfold NODE_TYPE_LIMIT; lia| |].
  - apply (bool_decide_unpack _). vm_compute. exact I.
  - intros n Hn. simpl in Hn. unfold CONFIG_NODE in *. assert (n = 5 ∨ n = 6)%Z as [-> | ->] by lia; eexists; (split; [reflexivity|unfold CONFIG_NODE; lia]).
Qed.

(** ** Examples *)

Lemma alloc_new_node_id_ok_witness : ∃ t', alloc_new_node_id (str "interface") 4 initial_ids = Some (7%Z, t') ∧ ids_ok t' ∧
  find_node_id_by_name (str "interface") t' = Some 7%Z ∧
  ∀ nm', nm' ≠ str "interface" → find_node_id_by_name nm' t' = find_node_id_by_name nm' initial_ids.
Proof.
  apply (alloc_new_node_id_ok initial_ids (str "interface") 4).
  - apply initial_ids_ok.
  - simpl. unfold NODE_TYPE_LIMIT. lia.
  - simpl. unfold CONFIG_NODE. lia.
  - vm_compute. reflexivity.
Defined.

(** Two nodes of one name: the second is not found by it. *)
Example same_name_twice :
  ('(_, t) ← alloc_new_node_id (str "vpp") 4 initial_ids; '(n, t) ← alloc_new_node_id (str "vpp") 4 t; z ← find_node_id_by_name (str "vpp") t; Some (n, z))
    = Some (8, 7)%Z.
Proof. vm_compute. reflexivity. Qed.

(** A parser for commands of one word. *)
Definition parse_word (cmd : nat) (s : merging) : option merging :=
  start ← first_node (nnodes s);
  let a := unused s in
  let g := Graph.Graph (nnodes s) (CmdGraph.heap s) a [] in
  '(w, g) ← graph_new_node g (Some a) true;
  '(e, g) ← graph_new_node g (Some (S a)) true;
  '(c, g) ← graph_new_node g (Some (1000 + cmd)) false;
  h ← graph_add_edge (Graph.heap g) start w;
  h ← graph_add_edge h w e;
  h ← graph_add_edge h e c;
  Some (Merging h (<[a := cmd_token_new WORD_TKN CMD_ATTR_NORMAL (str "w" ++ dec (Z.of_nat cmd)) None]>
                     (<[S a := cmd_token_new END_TKN CMD_ATTR_NORMAL [] None]> (toks s))) (onodes s) (Graph.nodes g) (CmdGraph.freed s)).

Definition two_nodes : registry :=
  Registry (Some (mkv [None; Some 20; None; Some 21] 4))
    {[ 20 := CNode node_graph (vector_init 1) ∅; 21 := CNode node_graph (vector_init 1) ∅ ]}.

Lemma two_nodes_ok parse et fuel : registry_ok parse et fuel 0 two_nodes.
Proof.
  assert (Hn : cnode_ok parse et fuel 0 (CNode node_graph (vector_init 1) ∅)).
  { split; simpl.
    - exists [], 1. split_and!; [done|unfold fits; simpl; lia|simpl; lia|constructor|set_solver].
    - exists []. split; [done|]. intros c. by rewrite decide_False by set_solver. }
  split.
  - intros v [= <-]. exists [None; Some 20; None; Some 21], 4. split_and!; [done|unfold fits; simpl; lia|].
    intros p Hp. assert (p = 20 ∨ p = 21) as [-> | ->] by set_solver; by eexists.
  - intros p n. cbn [cnodes two_nodes]. intros [[_ <-]|[_ [_ <-]%lookup_singleton_Some]]%lookup_insert_Some; done.
Qed.

(** The words of a graph's tokens with the numbers of commands that share them. *)
Definition words_of (s : merging) : list (cstring * Z) :=
  (λ t, (text (ctoken t), refcnt t)) <$> List.filter (λ t, bool_decide (type (ctoken t) = WORD_TKN)) (snd <$> map_to_list (toks s)).

(** A command of the view node is one of the enable node, too; installing it
    again is refused; the enable node can lose it alone. *)
Example view_is_enable :
  match reg_run parse_word (λ _, 0%Z) 20 [Install 1 7; Install 1 7; Install 3 8; Uninstall 3 7] two_nodes with
  | Some (Installed r) => (λ n, (elements (cmd_hash n), contents (cmd_vector n), words_of (cmdgraph n))) <$> [20; 21] ≫= (λ p, option_list (cnodes r !! p))
  | _ => []
  end = [([7], [Some 7], [(str "w7", 1%Z)]); ([8], [None; Some 8], [(str "w8", 1%Z)])].
Proof. vm_compute. reflexivity. Qed.

