(* ===== verification/VtyRead.v ===== *)
(** * The terminal: reading, login, commands, help and completion of lib/vty.c

    [vty_read] takes the bytes of a connection one by one: telnet negotiation,
    escape sequences, editing keys ([Vty]), and at the end of a line its
    execution: a password at the password prompts, otherwise a command
    ([Command]).  The loop's look ahead and its skipping are in [read_loop].

    Theorems: a session gets to the privileged nodes only with the password
    ([privilege_needs_password]); how the bytes are cut into reads matters only
    behind a telnet command and when a session is closed ([vty_read_split]); a window size is
    received as sent ([naws_roundtrip]); which passwords are accepted after which
    settings ([passwords_follow_settings]).  That nothing is accessed outside the
    buffers is shown in [VtySafe]. *)
From Stdlib Require Import Ascii String.
From stdpp Require Import prelude list.
From S2P Require Import Prelude Vector CString FrrStr Buffer Vty Prefix PrefixText TokenMatch CommandMatch Command.
Set Default Goal Selector "!".
#[local] Opaque VTY_BUFSIZ.

Definition IAC : Z := 255.
Definition DONT : Z := 254.
Definition DO : Z := 253.
Definition WILL : Z := 251.
Definition SB : Z := 250.
Definition SE : Z := 240.
Definition TELOPT_ECHO : Z := 1.
Definition TELOPT_SGA : Z := 3.
Definition TELOPT_NAWS : Z := 31.
Definition TELOPT_LINEMODE : Z := 34.
Definition VTY_PRE_ESCAPE : Z := 1.
Definition VTY_ESCAPE : Z := 2.
Definition CMD_CR_TEXT : cstring := str "<cr>".

(** [%-*s] *)
Definition padr (n : nat) (s : cstring) : cstring := s ++ replicate (n - length s) " "%char.

Definition set_escape (e : Z) (t : telnet) : telnet :=
  Telnet e (iac t) (iac_sb_in_progress t) (sb_buf t) (sb_len t) (width t) (height t) (lines t).
Definition set_iac (b : bool) (t : telnet) : telnet :=
  Telnet (escape t) b (iac_sb_in_progress t) (sb_buf t) (sb_len t) (width t) (height t) (lines t).
Definition set_sb (p : bool) (b : list Z) (n : Z) (t : telnet) : telnet :=
  Telnet (escape t) (iac t) p b n (width t) (height t) (lines t).
Definition set_window (wd ht : Z) (t : telnet) : telnet :=
  Telnet (escape t) (iac t) (iac_sb_in_progress t) (sb_buf t) (sb_len t) wd ht (lines t).

(** ** Telnet *)

(** The option and how many bytes to skip. *)
Definition vty_telnet_option (t : telnet) (b : Z) : option (nat * telnet) :=
  if (b =? SB)%Z then Some (0, set_sb true (sb_buf t) 0 t)
  else if (b =? SE)%Z then
    if negb (iac_sb_in_progress t) then Some (0, t)
    else
      b0 ← sb_buf t !! 0;
      let done := set_sb false (sb_buf t) (sb_len t) t in
      if ((sb_len t =? 0) || (b0 =? 0))%Z then Some (0, done)
      else if (b0 =? TELOPT_NAWS)%Z then
        if negb (sb_len t =? Z.of_nat TELNET_NAWS_SB_LEN)%Z then Some (0, done)
        else
          b1 ← sb_buf t !! 1; b2 ← sb_buf t !! 2; b3 ← sb_buf t !! 3; b4 ← sb_buf t !! 4;
          Some (0, set_window (Z.lor (Z.shiftl b1 8) b2) (Z.lor (Z.shiftl b3 8) b4) done)
      else Some (0, done)
  else Some (1, t).

(** A byte of a subnegotiation; those that do not fit are only counted. *)
Definition sb_byte (t : telnet) (b : Z) : option telnet :=
  buf ← (if (sb_len t <? Z.of_nat TELNET_NAWS_SB_LEN)%Z then write (sb_buf t) (Z.to_nat (sb_len t)) b else Some (sb_buf t));
  Some (set_sb (iac_sb_in_progress t) buf (sb_len t + 1) t).

Section read.
Context {B : Type} `{OutBuffer B} `{Inet}.
Context (cmdvec : list (option cmd_node)) (elements : list (cmd_element B)) (varhandlers : list cmd_variable_handler)
  (crypt : cstring → cstring → cstring).
Implicit Types (v : vty B) (w : world B).

(** ** Login *)

Definition auth_passwd (h : host) (n : Z) : option cstring :=
  if (n =? AUTH_NODE)%Z then if encrypt h then password_encrypt h else password h
  else if (n =? AUTH_ENABLE_NODE)%Z then if encrypt h then enable_encrypt h else enable_pw h
  else None.
Definition next_node (h : host) (n : Z) : Z :=
  if (n =? AUTH_NODE)%Z then if advanced h then (if enable_pw h then VIEW_NODE else ENABLE_NODE) else VIEW_NODE
  else if (n =? AUTH_ENABLE_NODE)%Z then ENABLE_NODE else 0%Z.
(** [!fail] *)
Definition password_ok (h : host) (n : Z) (buf : cstring) : bool :=
  match auth_passwd h n with
  | Some passwd => if encrypt h then bool_decide (crypt buf passwd = passwd) else bool_decide (buf = passwd)
  | None => false
  end.

Definition vty_auth w (buf : cstring) : option (world B) :=
  let s := wsess w in
  if password_ok (whost w) (node s) buf then Some (set_sess (set_node (next_node (whost w) (node s)) (set_fail 0 s)) w)
  else
    let w := set_sess (set_fail (fail s + 1) s) w in
    if (3 <=? fail s + 1)%Z then
      if (node s =? AUTH_NODE)%Z then
        w ← say w (ln "% Bad passwords, too many failures!"); Some (set_sess (set_status VTY_CLOSE (wsess w)) w)
      else
        w ← say (set_sess (set_fail 0 (wsess w)) w) (ln "% Bad enable passwords, too many failures!");
        Some (set_sess (set_status VTY_CLOSE (wsess w)) w)
    else Some w.

(** ** Commands *)

(** With [do_log_commands] the line is formatted for a log, but not written. *)
Definition vty_command w (buf : cstring) : option (Z * world B) :=
  '(ret, w) ← cmd_execute cmdvec elements w buf false;
  w ← (if (ret =? CMD_WARNING)%Z then if decide (vtype (out (wvty w)) = VTY_FILE) then say w (ln "Warning...") else Some w
       else if (ret =? CMD_ERR_AMBIGUOUS)%Z then say w (ln "% Ambiguous command.")
       else if (ret =? CMD_ERR_NO_MATCH)%Z then buf ← vty_buf_str w; say w (str "% Unknown command: " ++ buf ++ newline)
       else if (ret =? CMD_ERR_INCOMPLETE)%Z then say w (ln "% Command incomplete.")
       else Some w);
  Some (ret, w).

Definition on_vty w (op : vty B → option (vty B)) : option (world B) := v ← op (wvty w); Some (set_vty v w).
Definition prompt w : option (world B) := on_vty w (vty_prompt (whost w)).

Definition vty_execute w : option (Z * world B) :=
  s ← vty_buf_str w;
  '(ret, w) ← (if hidden (wsess w) then w ← vty_auth w s; Some (CMD_SUCCESS, w)
               else '(ret, w) ← vty_command w s;
                    w ← (if decide (vtype (out (wvty w)) = VTY_TERM) then on_vty w vty_hist_add else Some w);
                    Some (ret, w));
  w ← on_vty w (λ v, vty_clear_buf (set_ed (Edit (buf (ed v)) 0 0) v));
  w ← (if decide (status (wsess w) ≠ VTY_CLOSE) then prompt w else Some w);
  Some (ret, w).

(** ** Completion *)

Definition prompt_redraw w : option (world B) := w ← prompt w; on_vty w vty_redraw_line.

(** [isspace(vty->buf[vty->length - 1])] *)
Definition ends_with_space w : option bool :=
  i ← minus (len (ed (wvty w))) 1; c ← buf (ed (wvty w)) !! i; Some (isspace (chr c)).

(** Six to a line. *)
Fixpoint list_matched (i : nat) (matched : list (option cstring)) w : option (world B) :=
  match matched with
  | [] | None :: _ => Some w
  | Some m :: matched =>
      w ← (if decide (i ≠ 0 ∧ i mod 6 = 0) then say w newline else Some w);
      w ← say w (padr 10 m ++ str " ");
      list_matched (i + 1) matched w
  end.

Definition vty_complete_command w : option (world B) :=
  if hidden (wsess w) then Some w
  else
    s ← vty_buf_str w;
    vline ← cmd_make_strvec (Some s);
    match vline with
    | None => Some w
    | Some vline =>
        sp ← ends_with_space w;
        vline ← (if (sp : bool) then '(vline, _) ← vector_set vline None; Some vline else Some vline);
        '(ret, matched) ← cmd_complete_command cmdvec varhandlers vline (node (wsess w));
        w ← say w newline;
        if (ret =? CMD_ERR_AMBIGUOUS)%Z then w ← say w (ln "% Ambiguous command."); prompt_redraw w
        else if (ret =? CMD_ERR_NO_MATCH)%Z then prompt_redraw w
        else if (ret =? CMD_COMPLETE_FULL_MATCH)%Z then
          matched ← (matched : option (list (option cstring)));
          match matched with
          | Some m :: _ =>
              w ← prompt_redraw w;
              w ← on_vty w vty_backward_pure_word;
              w ← on_vty w (λ v, vty_insert_word_overwrite v (map code m));
              on_vty w (λ v, vty_self_insert v SP)
          | _ => w ← say w (ln "% CLI BUG: FULL_MATCH with NULL str"); prompt_redraw w
          end
        else if (ret =? CMD_COMPLETE_MATCH)%Z then
          matched ← (matched : option (list (option cstring)));
          m ← head matched; m ← (m : option cstring);
          w ← prompt_redraw w;
          w ← on_vty w vty_backward_pure_word;
          on_vty w (λ v, vty_insert_word_overwrite v (map code m))
        else if (ret =? CMD_COMPLETE_LIST_MATCH)%Z then
          matched ← (matched : option (list (option cstring)));
          w ← list_matched 0 matched w;
          w ← say w newline;
          prompt_redraw w
        else if (ret =? CMD_ERR_NOTHING_TODO)%Z then prompt_redraw w
        else Some w
    end.

(** ** Help *)

(** The last blank at or before [pos], down to 1; 0 when there is none. *)
Fixpoint last_blank (p : cstring) (pos : nat) : nat :=
  match pos with 0 => 0 | S k => if decide (p !! pos = Some " "%char) then pos else last_blank p k end.

Definition desc_line (cmd_width : nat) (cmd d : cstring) : cstring := str "  " ++ padr cmd_width cmd ++ str "  " ++ d ++ newline.

(** The loop: lines of at most [desc_width] characters, cut at blanks; [fuel] is
    the length of the text. *)
Fixpoint fold_lines (fuel : nat) (desc_width : nat) (p : cstring) : option (list cstring) :=
  if decide (desc_width < length p) then
    let pos := last_blank p desc_width in
    if decide (pos = 0) then Some [p]
    else match fuel with 0 => None | S fuel => ls ← fold_lines fuel desc_width (drop (pos + 1) p); Some (take pos p :: ls) end
  else Some [p].

Definition vty_describe_fold w (cmd_width desc_width : nat) (cmd d : cstring) : option (world B) :=
  if decide (desc_width = 0) then say w (desc_line cmd_width cmd d)
  else
    ls ← fold_lines (length d) desc_width d;
    match ls with
    | [] => None
    | l :: ls => w ← say w (desc_line cmd_width cmd l); say_all w (map (desc_line cmd_width []) ls)
    end.

Definition describe_width (describe : list (option cmd_token)) : nat :=
  foldl (λ width t, match t with Some t => Nat.max width (length (text t)) | None => width end) 0 describe.

Definition describe_one (width : nat) (desc_width : Z) (token : cmd_token) w : option (world B) :=
  match desc token with
  | None => say w (str "  " ++ text token ++ newline)
  | Some d =>
      if (Z.of_nat (length d) <=? desc_width)%Z then say w (desc_line width (text token) d)
      else vty_describe_fold w width (Z.to_nat desc_width) (text token) d
  end.

(** The loop over the tokens; the end of the line is kept for the end. *)
Fixpoint describe_loop (describe : list (option cmd_token)) (vline : vector cstring) (wd : nat) (desc_width : Z)
    (token_cr : option cmd_token) w : option (option cmd_token * world B) :=
  match describe with
  | [] => Some (token_cr, w)
  | None :: describe => describe_loop describe vline wd desc_width token_cr w
  | Some token :: describe =>
      if decide (text token = []) then describe_loop describe vline wd desc_width token_cr w
      else if decide (text token = CMD_CR_TEXT) then describe_loop describe vline wd desc_width (Some token) w
      else
        w ← describe_one wd desc_width token w;
        w ← (if varying (type token) then
               i ← minus (vector_active vline) 1;
               ref ← vector_slot vline i;
               varcomps ← cmd_variable_complete varhandlers token ref (vector_init VECTOR_MIN_SIZE);
               if decide (0 < vector_active varcomps) then
                 ac ← cmd_variable_comp2str varcomps (width (tn (wvty w))); say w (ac ++ newline)
               else Some w
             else Some w);
        describe_loop describe vline wd desc_width token_cr w
  end.

Definition vty_describe_command w : option (world B) :=
  s ← vty_buf_str w;
  vline ← cmd_make_strvec (Some s);
  vline ← match vline with
          | None => '(vline, _) ← vector_set (vector_init 1) None; Some vline
          | Some vline => sp ← ends_with_space w; if (sp : bool) then '(vline, _) ← vector_set vline None; Some vline else Some vline
          end;
  '(ret, describe) ← cmd_describe_command cmdvec vline (node (wsess w));
  w ← say w newline;
  w ← (if (ret =? CMD_ERR_AMBIGUOUS)%Z then say w (ln "% Ambiguous command.")
       else if (ret =? CMD_ERR_NO_MATCH)%Z then say w (ln "% There is no matched command.")
       else
         describe ← (describe : option (vector cmd_token));
         let wd := describe_width (Vector.contents describe) in
         let desc_width := u32 (width (tn (wvty w)) - (Z.of_nat wd + 6)) in
         '(token_cr, w) ← describe_loop (Vector.contents describe) vline wd desc_width None w;
         match token_cr with Some token => describe_one wd desc_width token w | None => Some w end);
  prompt_redraw w.

(** ** Reading *)

Definition vty_escape_map w (c : Z) : option (world B) :=
  w ← (if (c =? 65)%Z then on_vty w vty_previous_line
       else if (c =? 66)%Z then on_vty w vty_next_line
       else if (c =? 67)%Z then on_vty w vty_forward_char
       else if (c =? 68)%Z then on_vty w vty_backward_char
       else Some w);
  Some (set_vty (set_tn (set_escape 0 (tn (wvty w))) (wvty w)) w).

(** The two [buffer_reset]s. *)
Definition reset_buffers w : world B :=
  let o := out (wvty w) in
  set_vty (set_out (put_lbuf (put_obuf o (ob_reset (obuf o))) (ob_reset (lbuf o))) (wvty w)) w.
Definition vty_buffer_reset w : option (world B) := prompt_redraw (reset_buffers w).

Definition put_tn (t : telnet) w : world B := set_vty (set_tn t (wvty w)) w.

(** Bytes in the state after an escape character. *)
Definition pre_escape w (b : Z) : option (world B) :=
  let h := whost w in
  if (b =? 91)%Z then Some (put_tn (set_escape VTY_ESCAPE (tn (wvty w))) w)
  else
    w ← (if (b =? 98)%Z then on_vty w vty_backward_word
         else if (b =? 102)%Z then on_vty w vty_forward_word
         else if (b =? 100)%Z then on_vty w (vty_forward_kill_word h)
         else if ((b =? 8) || (b =? 127))%Z then on_vty w (vty_backward_kill_word h)
         else Some w);
    Some (put_tn (set_escape 0 (tn (wvty w))) w).

(** The keys. *)
Definition normal_key w (b : Z) : option (world B) :=
  let h := whost w in
  if (b =? 1)%Z then on_vty w vty_beginning_of_line
  else if (b =? 2)%Z then on_vty w vty_backward_char
  else if (b =? 3)%Z then on_vty w (vty_stop_input h)
  else if (b =? 4)%Z then on_vty w (vty_delete_char h)
  else if (b =? 5)%Z then on_vty w vty_end_of_line
  else if (b =? 6)%Z then on_vty w vty_forward_char
  else if ((b =? 8) || (b =? 127))%Z then on_vty w (vty_delete_backward_char h)
  else if (b =? 11)%Z then on_vty w vty_kill_line
  else if (b =? 14)%Z then on_vty w vty_next_line
  else if (b =? 16)%Z then on_vty w vty_previous_line
  else if (b =? 20)%Z then on_vty w vty_transpose_chars
  else if (b =? 21)%Z then on_vty w vty_kill_line_from_beginning
  else if (b =? 23)%Z then on_vty w (vty_backward_kill_word h)
  else if (b =? 26)%Z then on_vty w (vty_end_config h)
  else if ((b =? 10) || (b =? 13))%Z then w ← say w newline; '(_, w) ← vty_execute w; Some w
  else if (b =? 9)%Z then vty_complete_command w
  else if (b =? 63)%Z then if hidden (wsess w) then on_vty w (λ v, vty_self_insert v b) else vty_describe_command w
  else if ((31 <? b) && (b <? 127))%Z then on_vty w (λ v, vty_self_insert v b)
  else Some w.

(** One turn of the loop over the bytes: [next] is the byte behind [b], if any;
    the result says how many further bytes are used. *)
Definition read_byte (b : Z) (next : option Z) w : option (nat * world B) :=
  let t := tn (wvty w) in
  if ((b =? IAC)%Z && negb (iac t)) then Some (0, put_tn (set_iac true t) w)
  else
    let t := if (b =? IAC)%Z then set_iac false t else t in
    let w := put_tn t w in
    if iac_sb_in_progress t && negb (iac t) then t ← sb_byte t b; Some (0, put_tn t w)
    else if iac t then '(n, t) ← vty_telnet_option t b; Some (n, put_tn (set_iac false t) w)
    else if decide (status (wsess w) = VTY_MORE) then
      if ((b =? 3) || (b =? 113) || (b =? 81))%Z then w ← vty_buffer_reset w; Some (0, w) else Some (0, w)
    else if (escape t =? VTY_ESCAPE)%Z then w ← vty_escape_map w b; Some (0, w)
    else if (escape t =? VTY_PRE_ESCAPE)%Z then w ← pre_escape w b; Some (0, w)
    else if (b =? 27)%Z then
      if decide (next = Some 91%Z) then Some (1, put_tn (set_escape VTY_ESCAPE t) w)
      else Some (0, put_tn (set_escape VTY_PRE_ESCAPE t) w)
    else w ← normal_key w b; Some (0, w).

Fixpoint read_loop (bs : list Z) w : option (world B) :=
  match bs with
  | [] => Some w
  | b :: rest =>
      '(skip, w) ← read_byte b (head rest) w;
      match skip, rest with
      | S _, _ :: rest => read_loop rest w
      | _, _ => read_loop rest w
      end
  end.

(** What [read] gave; the bytes are at most [VTY_READ_BUFSIZ]. *)
Inductive read_result := RData (bs : list Z) | REof | RRetry | RError.
Definition VTY_READ_BUFSIZ : nat := 512.
(** What is to be done with the session: wait for more, write and wait, close it. *)
Inductive read_next := NRead | NWriteRead | NClose.

Definition vty_read (r : read_result) w : option (read_next * world B) :=
  match r with
  | RRetry => Some (NRead, w)
  | _ =>
      let close := λ w, set_sess (set_status VTY_CLOSE (wsess w)) w in
      w ← match r with RData bs => read_loop bs w | RError => Some (close (reset_buffers w)) | _ => Some (close w) end;
      Some (if decide (status (wsess w) = VTY_CLOSE) then NClose else NWriteRead, w)
  end.

(** *** Sessions of the shell *)

(** The loop over the bytes: every NUL ends a line.  [flush] is [vtysh_flush]
    ([None] when it closed the session) unless a writer is waiting. *)
Fixpoint shell_loop (bs : list Z) (flush : world B → option (option (world B))) w : option (option (world B)) :=
  match bs with
  | [] => Some (Some w)
  | b :: bs =>
      let e := ed (wvty w) in
      line ← write (buf e) (len e) b;
      let w := set_vty (set_ed (Edit line (cp e) (len e + 1)) (wvty w)) w in
      if (b =? 0)%Z then
        '(ret, w) ← vty_execute w;
        if (ret =? CMD_SUSPEND)%Z then Some (Some w)
        else
          ob ← ob_put (obuf (out (wvty w))) [0; 0; 0; u8 ret]%Z;
          w ← flush (set_vty (set_out (put_obuf (out (wvty w)) ob) (wvty w)) w);
          match w with None => Some None | Some w => shell_loop bs flush w end
      else shell_loop bs flush w
  end.

Definition vtysh_read (r : read_result) (flush : world B → option (option (world B))) w : option (read_next * world B) :=
  match r with
  | RRetry => Some (NRead, w)
  | REof | RError => Some (NClose, reset_buffers w)
  | RData bs =>
      w' ← (if decide (VTY_BUFSIZ ≤ len (ed (wvty w)) + length bs) then
              w ← on_vty w (λ v, vty_clear_buf (set_ed (Edit (buf (ed v)) 0 0) v));
              w ← say w (ln "% Command is too long.");
              Some (Some w)
            else shell_loop bs flush w);
      match w' with
      | None => Some (NClose, w)
      | Some w => Some (if decide (status (wsess w) = VTY_CLOSE) then NClose else NRead, w)
      end
  end.
End read.

(** ** How reads are cut *)

Section split.
Context {B : Type} `{OutBuffer B} `{Inet}.
Context (cmdvec : list (option cmd_node)) (elements : list (cmd_element B)) (varhandlers : list cmd_variable_handler)
  (crypt : cstring → cstring → cstring).
Implicit Types (v : vty B) (w : world B).
Abbreviation rbyte := (read_byte cmdvec elements varhandlers crypt).
Abbreviation rloop := (read_loop cmdvec elements varhandlers crypt).

(** The byte behind is looked at only for an escape sequence. *)
Lemma read_byte_next b next w : next ≠ Some 91%Z → rbyte b next w = rbyte b None w.
Proof.
  intros Hn. unfold read_byte. destruct ((b =? IAC)%Z && negb (iac (tn (wvty w)))); [done|].
  set (t := if (b =? IAC)%Z then set_iac false (tn (wvty w)) else tn (wvty w)). destruct (iac_sb_in_progress t && negb (iac t)); [done|].
  destruct (iac t); [done|]. destruct (decide (status _ = VTY_MORE)); [done|]. destruct (escape t =? VTY_ESCAPE)%Z; [done|].
  destruct (escape t =? VTY_PRE_ESCAPE)%Z; [done|]. destruct (b =? 27)%Z; [|done]. by rewrite !decide_False by done.
Qed.

(** Either the bytes go on as if nothing followed, or an escape character takes
    the bracket with it, as it does when the bracket comes later. *)
Lemma read_byte_bracket b w : rbyte b (Some 91%Z) w = rbyte b None w
  ∨ ∃ w1 w2, rbyte b (Some 91%Z) w = Some (1, w2) ∧ rbyte b None w = Some (0, w1) ∧ ∀ next, rbyte 91 next w1 = Some (0, w2).
Proof.
  unfold read_byte at 1 2. destruct ((b =? IAC)%Z && negb (iac (tn (wvty w)))) eqn:E1; [by left|].
  set (t := if (b =? IAC)%Z then set_iac false (tn (wvty w)) else tn (wvty w)). set (w0 := put_tn t w).
  destruct (iac_sb_in_progress t && negb (iac t)) eqn:E2; [by left|]. destruct (iac t) eqn:E3; [by left|].
  destruct (decide (status (wsess w0) = VTY_MORE)) as [E4|E4]; [by left|]. destruct (escape t =? VTY_ESCAPE)%Z eqn:E5; [by left|].
  destruct (escape t =? VTY_PRE_ESCAPE)%Z eqn:E6; [by left|]. destruct (b =? 27)%Z eqn:E7; [|by left]. right.
  exists (put_tn (set_escape VTY_PRE_ESCAPE t) w0), (put_tn (set_escape VTY_ESCAPE t) w0).
  assert (∀ next, rbyte b next w = if decide (next = Some 91%Z) then Some (1, put_tn (set_escape VTY_ESCAPE t) w0)
    else Some (0, put_tn (set_escape VTY_PRE_ESCAPE t) w0)) as Hx.
  { intros next. unfold read_byte. rewrite E1. fold t. fold w0. rewrite E3, E2, decide_False by done. by rewrite E5, E6, E7. }
  rewrite !Hx. rewrite decide_True by done. rewrite decide_False by done. split; [done|]. split; [done|].
  intros next. assert (iac_sb_in_progress t = false) as Ei by (by destruct (iac_sb_in_progress t)).
  unfold read_byte. change (91 =? IAC)%Z with false. rewrite andb_false_l. cbv iota zeta.
  change (tn (wvty (put_tn (set_escape VTY_PRE_ESCAPE t) w0))) with (set_escape VTY_PRE_ESCAPE t).
  change (iac_sb_in_progress (set_escape VTY_PRE_ESCAPE t)) with (iac_sb_in_progress t). change (iac (set_escape VTY_PRE_ESCAPE t)) with (iac t).
  rewrite Ei, E3, andb_false_l, decide_False by done. done.
Qed.

(** The last byte is a telnet command whose option is missing. *)
Fixpoint cut (bs : list Z) w : bool :=
  match bs with
  | [] => false
  | b :: rest =>
      match rbyte b (head rest) w with
      | Some (S _, w) => match rest with [] => true | _ :: rest => cut rest w end
      | Some (0, w) => cut rest w
      | None => false
      end
  end.

(** The bytes that are left when [a] was taken: behind a telnet command without its
    option one is dropped. *)
Lemma loop_app (a b : list Z) w : rloop (a ++ b) w = w' ← rloop a w; rloop (if cut a w then tail b else b) w'.
Proof.
  assert (∀ n a w, length a ≤ n → rloop (a ++ b) w = w' ← rloop a w; rloop (if cut a w then tail b else b) w') as Hall.
  { clear a w. induction n as [|n IH]; intros [|x a] w Hn; cbn [length] in Hn; [done|lia|done|].
    cbn [app read_loop cut]. destruct a as [|y a]; cbn [app head].
    - assert (Hnone : rbyte x (head b) w = rbyte x None w → ('(skip, w0) ← rbyte x (head b) w; match skip, b with S _, _ :: rest => rloop rest w0 | _, _ => rloop b w0 end)
        = w' ← ('(skip, w0) ← rbyte x None w; match skip with S _ => Some w0 | 0 => Some w0 end);
          rloop (if match rbyte x None w with Some (S _, _) => true | _ => false end then tail b else b) w').
      { intros ->. destruct (rbyte x None w) as [[[|k] w1]|]; obind; [by destruct b|by destruct b|done]. }
      assert (Hfix : ∀ o : option (nat * world B), (match o with Some (S _, _) => true | Some (0, _) => false | None => false end) = match o with Some (S _, _) => true | _ => false end)
        by (by intros [[[] ?]|]).
      rewrite Hfix. destruct (decide (head b = Some 91%Z)) as [Hb|Hb]; [|apply Hnone; by apply read_byte_next].
      destruct b as [|c b']; [done|]. injection Hb as ->. destruct (read_byte_bracket x w) as [E|(w1 & w2 & E1 & E2 & E3)]; [by apply Hnone|].
      cbn [head]. rewrite E1, E2. obind. cbn [read_loop]. rewrite obind_Some. rewrite (E3 (head b')). obind. by destruct b'.
    - destruct (rbyte x (Some y) w) as [[[|k] w1]|]; obind; [| |done].
      + by rewrite <- (IH (y :: a) w1) by (cbn in *; lia).
      + apply (IH a w1). cbn in Hn. lia. }
  by apply (Hall (length a)).
Qed.


(** C36: How the bytes of a connection are cut into two reads, one directly after
    the other.  If the first read leaves the session open, the second makes of it
    what one read of all bytes does, even if the cut is inside an escape sequence
    or a subnegotiation, unless the first read ends with a telnet command that has
    an option: in one read the option is dropped, at the beginning of the next it
    is taken as a key.  If the first read closes the session there is no second,
    while in one read the bytes behind are still taken. *)
Theorem vty_read_split (w : world B) (a b : list Z) :
  (∀ w1, vty_read cmdvec elements varhandlers crypt (RData a) w = Some (NWriteRead, w1) → status (wsess w1) ≠ VTY_CLOSE
     ∧ vty_read cmdvec elements varhandlers crypt (RData (a ++ b)) w
       = vty_read cmdvec elements varhandlers crypt (RData (if cut a w then tail b else b)) w1)
  ∧ (∀ w1, vty_read cmdvec elements varhandlers crypt (RData a) w = Some (NClose, w1) → status (wsess w1) = VTY_CLOSE
     ∧ vty_read cmdvec elements varhandlers crypt (RData (a ++ b)) w
       = w2 ← rloop (if cut a w then tail b else b) w1; Some (if decide (status (wsess w2) = VTY_CLOSE) then NClose else NWriteRead, w2))
  ∧ (vty_read cmdvec elements varhandlers crypt (RData a) w = None → vty_read cmdvec elements varhandlers crypt (RData (a ++ b)) w = None).
Proof.
  unfold vty_read. rewrite loop_app. destruct (rloop a w) as [w0|]; [|done]. rewrite !obind_Some. split; [|split; [|done]].
  - intros w1 E. destruct (decide (status (wsess w0) = VTY_CLOSE)); [done|]. by injection E as <-.
  - intros w1 E. destruct (decide (status (wsess w0) = VTY_CLOSE)); [|done]. by injection E as <-.
Qed.

(** ** Window sizes *)

(** A byte of a subnegotiation as it is sent. *)
Definition sent (b : Z) : list Z := if (b =? IAC)%Z then [IAC; IAC] else [b].
Definition naws (wd ht : Z) : list Z :=
  [IAC; SB] ++ sent TELOPT_NAWS ++ sent (wd / 256)%Z ++ sent (wd mod 256)%Z ++ sent (ht / 256)%Z ++ sent (ht mod 256)%Z ++ [IAC; SE].

Lemma put_tn_put t t' w : put_tn t' (put_tn t w) = put_tn t' w.
Proof. done. Qed.
Lemma tn_put t w : tn (wvty (put_tn t w)) = t.
Proof. done. Qed.

Lemma loop_step b rest w w' : rbyte b (head rest) w = Some (0, w') → rloop (b :: rest) w = rloop rest w'.
Proof. intros E. cbn [read_loop]. rewrite E. obind. by destruct rest. Qed.

Lemma byte_iac next t w : iac t = false → rbyte IAC next (put_tn t w) = Some (0, put_tn (set_iac true t) w).
Proof. intros Hi. unfold read_byte. change (IAC =? IAC)%Z with true. rewrite tn_put, Hi. done. Qed.

Lemma byte_command b next t w : (b =? IAC)%Z = false → iac t = true →
  rbyte b next (put_tn t w) = '(n, t) ← vty_telnet_option t b; Some (n, put_tn (set_iac false t) w).
Proof. intros Eb Hi. unfold read_byte. rewrite Eb, tn_put. cbn [andb]. by rewrite Hi, andb_false_r. Qed.

Lemma byte_sb b next t w : (b =? IAC)%Z = iac t → iac_sb_in_progress t = true →
  rbyte b next (put_tn t w) = t' ← sb_byte (set_iac false t) b; Some (0, put_tn t' w).
Proof.
  intros Eb Hs. unfold read_byte. rewrite Eb, tn_put. destruct (iac t) eqn:Hi; cbn [andb negb].
  - change (iac_sb_in_progress (set_iac false t)) with (iac_sb_in_progress t). by rewrite Hs.
  - rewrite Hs, Hi. cbn [andb negb]. replace (set_iac false t) with t; [done|]. destruct t; cbn in *; by subst.
Qed.

Lemma sent_read b rest t w : iac t = false → iac_sb_in_progress t = true →
  rloop (sent b ++ rest) (put_tn t w) = t' ← sb_byte t b; rloop rest (put_tn t' w).
Proof.
  intros Hi Hs. assert (set_iac false (set_iac true t) = t ∧ set_iac false t = t) as [E1 E2] by (by destruct t; cbn in *; subst).
  unfold sent. destruct (b =? IAC)%Z eqn:Eb; cbn [app].
  - rewrite (loop_step _ _ _ _ (byte_iac _ t w Hi)). apply Z.eqb_eq in Eb as ->.
    cbn [read_loop]. rewrite byte_sb by done. rewrite E1. destruct (sb_byte t IAC); [|done]. obind. by destruct rest.
  - cbn [read_loop]. rewrite byte_sb by (by rewrite ?Eb, ?Hi). rewrite E2. destruct (sb_byte t b); [|done]. obind. by destruct rest.
Qed.

Lemma sb_byte_next t b l r x : iac_sb_in_progress t = true → sb_buf t = l ++ x :: r → sb_len t = Z.of_nat (length l) → length l + S (length r) = TELNET_NAWS_SB_LEN →
  sb_byte t b = Some (set_sb true (l ++ b :: r) (Z.of_nat (length l) + 1) t).
Proof.
  intros Hs Hb Hl Hn. unfold sb_byte. rewrite Hl. rewrite (proj2 (Z.ltb_lt _ _)) by lia. rewrite Nat2Z.id, Hb, write_mid by done. ostep. by rewrite Hs.
Qed.

Lemma window_bytes n : (0 ≤ n < 65536)%Z → Z.lor (Z.shiftl (n / 256) 8) (n mod 256) = n.
Proof.
  intros Hn. rewrite <- Z.add_nocarry_lor.
  - rewrite Z.shiftl_mul_pow2 by lia. pose proof (Z.div_mod n 256). lia.
  - apply Z.bits_inj'. intros k Hk. rewrite Z.land_spec, Z.bits_0. destruct (Z.ltb_spec k 8).
    + by rewrite Z.shiftl_spec_low.
    + rewrite (testbit_above 8 (n mod 256) k); [by rewrite andb_false_r| |lia|lia]. apply Z.mod_pos_bound. lia.
Qed.

(** A terminal's message of its window size, as RFC 1073
    writes it with the bytes 255 doubled, sets width and height to what was sent
    and changes nothing else of the session; the bytes behind it are read as
    if it had not been there. *)
Theorem naws_roundtrip (w : world B) (wd ht : Z) (rest : list Z) :
  (0 ≤ wd < 65536)%Z → (0 ≤ ht < 65536)%Z →
  iac (tn (wvty w)) = false → iac_sb_in_progress (tn (wvty w)) = false → length (sb_buf (tn (wvty w))) = TELNET_NAWS_SB_LEN →
  ∃ t, rloop (naws wd ht ++ rest) w = rloop rest (put_tn t w)
    ∧ width t = wd ∧ height t = ht ∧ iac t = false ∧ iac_sb_in_progress t = false ∧ length (sb_buf t) = TELNET_NAWS_SB_LEN
    ∧ escape t = escape (tn (wvty w)) ∧ lines t = lines (tn (wvty w)).
Proof.
  intros Hwd Hht Hi Hs Hlen. set (t := tn (wvty w)) in *. destruct (sb_buf t) as [|a [|b [|c [|d [|e [|]]]]]] eqn:Eb; try done. clear Hlen.
  unfold naws. rewrite <- !app_assoc. cbn [app].
  assert (rloop (IAC :: SB :: sent TELOPT_NAWS ++ sent (wd / 256)%Z ++ sent (wd mod 256)%Z ++ sent (ht / 256)%Z ++ sent (ht mod 256)%Z ++ IAC :: SE :: rest) w
    = rloop (sent TELOPT_NAWS ++ sent (wd / 256)%Z ++ sent (wd mod 256)%Z ++ sent (ht / 256)%Z ++ sent (ht mod 256)%Z ++ IAC :: SE :: rest)
        (put_tn (set_sb true [a; b; c; d; e] 0 t) w)) as ->.
  { assert (w = put_tn t w) as Ew by (by destruct w as [[] ? ? ?]). rewrite Ew at 1. rewrite (loop_step _ _ _ _ (byte_iac _ t w Hi)).
    apply loop_step. rewrite byte_command by done. unfold vty_telnet_option. change (SB =? SB)%Z with true. obind. cbn [sb_buf set_iac]. rewrite Eb.
    do 3 f_equal. destruct t; cbn in *; by subst. }
  rewrite sent_read by done. erewrite (sb_byte_next _ _ []) by done. obind.
  rewrite sent_read by done. erewrite (sb_byte_next _ _ [TELOPT_NAWS]) by done. obind.
  rewrite sent_read by done. erewrite (sb_byte_next _ _ [TELOPT_NAWS; (wd / 256)%Z]) by done. obind.
  rewrite sent_read by done. erewrite (sb_byte_next _ _ [TELOPT_NAWS; (wd / 256)%Z; (wd mod 256)%Z]) by done. obind.
  rewrite sent_read by done. erewrite (sb_byte_next _ _ [TELOPT_NAWS; (wd / 256)%Z; (wd mod 256)%Z; (ht / 256)%Z]) by done. obind.
  cbn [app length]. set (t1 := set_sb true _ _ _).
  assert (rloop (IAC :: SE :: rest) (put_tn t1 w) = rloop rest (put_tn (set_window wd ht (set_sb false (sb_buf t1) (sb_len t1) t1)) w)) as ->.
  { rewrite (loop_step _ _ _ _ (byte_iac _ t1 w Hi)). apply loop_step. rewrite byte_command by done. unfold vty_telnet_option.
    change (SE =? SB)%Z with false. change (SE =? SE)%Z with true. cbn [iac_sb_in_progress set_iac negb sb_buf t1 set_sb sb_len]. obind.
    cbn [lookup list_lookup]. obind.
    change (Z.of_nat 4 + 1 =? 0)%Z with false. change (TELOPT_NAWS =? 0)%Z with false. change (TELOPT_NAWS =? TELOPT_NAWS)%Z with true.
    change (Z.of_nat 4 + 1 =? Z.of_nat TELNET_NAWS_SB_LEN)%Z with true. cbn [orb negb]. obind. rewrite !window_bytes by done.
    do 3 f_equal. subst t1. destruct t; cbn in *; by subst. }
  eexists. split; [reflexivity|]. done.
Qed.
End split.

(** ** Folding descriptions *)

Lemma last_blank_spec p n : let pos := last_blank p n in
  pos ≤ n ∧ (pos ≠ 0 → p !! pos = Some " "%char) ∧ (∀ i, pos < i ≤ n → p !! i ≠ Some " "%char).
Proof.
  induction n as [|n (IH1 & IH2 & IH3)]; cbn [last_blank]; [split_and!; [done|done|lia]|]. case_decide as Hb.
  - split_and!; [done|done|lia].
  - split_and!; [lia|done|]. intros i Hi. destruct (decide (i = S n)) as [->|]; [done|]. apply IH3. lia.
Qed.

(** A description is folded without losing a character: the
    lines joined with blanks are the text, every line but the last fits the width,
    and the last one fits, too, or has no blank where it could be cut. *)
Theorem fold_lines_roundtrip (desc_width : nat) (d : cstring) : 0 < desc_width →
  ∃ ls e, fold_lines (length d) desc_width d = Some (ls ++ [e]) ∧ intercalate (str " ") (ls ++ [e]) = d
    ∧ Forall (λ l, 0 < length l ≤ desc_width) ls
    ∧ (length e ≤ desc_width ∨ ∀ i, 0 < i ≤ desc_width → e !! i ≠ Some " "%char).
Proof.
  intros Hdw. assert (∀ fuel d, length d ≤ fuel → ∃ ls e, fold_lines fuel desc_width d = Some (ls ++ [e]) ∧ intercalate (str " ") (ls ++ [e]) = d
    ∧ Forall (λ l, 0 < length l ≤ desc_width) ls ∧ (length e ≤ desc_width ∨ ∀ i, 0 < i ≤ desc_width → e !! i ≠ Some " "%char)) as Hall; [|by apply Hall].
  clear d. induction fuel as [|fuel IH]; intros d Hd; cbn [fold_lines].
  { rewrite decide_False by lia. exists [], d. split_and!; [done|done|constructor|left; lia]. }
  case_decide as Hl; [|exists [], d; split_and!; [done|done|constructor|left; lia]].
  destruct (last_blank_spec d desc_width) as (H1 & H2 & H3). set (pos := last_blank d desc_width) in *.
  case_decide as Hp; [exists [], d; split_and!; [done|done|constructor|right; intros i Hi; apply H3; lia]|].
  destruct (IH (drop (pos + 1) d)) as (ls & e & -> & Ei & Hf & He); [rewrite length_drop; lia|]. ostep.
  exists (take pos d :: ls), e. split; [done|]. split; [|split; [|done]].
  - rewrite <- app_comm_cons, intercalate_cons by (by destruct ls). rewrite Ei.
    rewrite <- (take_drop pos d) at 3. f_equal. rewrite (drop_S d " "%char pos (H2 Hp)). cbn. by rewrite Nat.add_1_r.
  - constructor; [|done]. rewrite length_take. lia.
Qed.

(** ** What the keys do to the session

    A property of the session's state that leaving a node keeps is kept by all
    keys of the editor. *)
Section stays.
Context {B : Type} `{OutBuffer B} (h : host) (P : vty_type → sess → Prop).
Context (Hexit : ∀ ty s s', P ty s → cmd_exit h s = Some s' → (ty = VTY_TERM → is_Some (cmd_prompt h (node s'))) → P ty s')
  (Hleave : ∀ ty s, P ty s → P ty (leave_config s)).
Implicit Types (v : vty B).

Definition stays (op : vty B → option (vty B)) : Prop := ∀ v v', op v = Some v' → P (vtype (out v)) (ss v) → P (vtype (out v')) (ss v').

Lemma stays_write bs : stays (λ v, vty_write v bs).
Proof. intros v v' E Hp. unfold vty_write in E. destruct (hidden (ss v)); simplify_option_eq; done. Qed.
Lemma vtype_body (o : outs B) p o' : out_body o p = Some o' → vtype o' = vtype o.
Proof.
  unfold out_body, print_out. intros E. destruct (filter_re o) as [re|].
  - destruct (filter_out re o p) as [[f o1]|] eqn:Ef; [|done]. rewrite obind_Some in E. assert (vtype o1 = vtype o) as <-.
    { unfold filter_out in Ef. do 5 (apply bind_Some in Ef as (? & _ & Ef)). cbv zeta in Ef. case_decide; [|by injection Ef as <- <-].
      do 2 (apply bind_Some in Ef as (? & _ & Ef)). destruct x5. do 5 (apply bind_Some in Ef as (? & _ & Ef)). by injection Ef as <- <-. }
    destruct f; [|by simplify_option_eq]. destruct (vtype o1) eqn:Et; simplify_option_eq; done.
  - rewrite obind_Some in E. destruct (vtype o) eqn:Et; simplify_option_eq; done.
Qed.
Lemma vtype_out (o : outs B) p o' : vty_out_o o p = Some o' → vtype o' = vtype o.
Proof.
  unfold vty_out_o. intros E. case_decide; [|rewrite obind_Some in E; by apply vtype_body in E].
  apply bind_Some in E as (o1 & E1%vtype_body & E%vtype_body). cbn in E1. congruence.
Qed.
Lemma stays_out p : stays (λ v, vty_out v p).
Proof.
  intros v v' E Hp. unfold vty_out in E. apply bind_Some in E as (o & Eo%vtype_out & [= <-]). cbn [out set_out ss]. by rewrite Eo.
Qed.
Lemma stays_set f : stays (λ v, Some (set_ed (f v) v)).
Proof. intros v v' E Hp. simplify_option_eq. done. Qed.
Lemma stays_bind (f g : vty B → option (vty B)) : stays f → stays g → stays (λ v, v ← f v; g v).
Proof. intros Hf Hg v v' E Hp. simplify_option_eq. eauto. Qed.
Lemma stays_write_n n c : stays (write_n n c).
Proof. induction n as [|n IH]; intros v v' E Hp; cbn [write_n] in E; simplify_option_eq; [done|]. eapply IH; [done|]. eapply stays_write; eassumption. Qed.
Lemma stays_while fuel cond body : stays body → stays (while fuel cond body).
Proof.
  intros Hb. induction fuel as [|fuel IH]; intros v v' E Hp; cbn [while] in E; destruct (cond v) as [[]|]; simplify_option_eq; try done. eapply IH; eauto.
Qed.
Lemma stays_prompt : stays (vty_prompt h).
Proof. intros v v' E Hp. unfold vty_prompt in E. case_decide; simplify_option_eq; [|done]. eapply stays_out; eassumption. Qed.

Create HintDb stays.
Hint Resolve stays_write stays_out stays_set stays_bind stays_write_n stays_while stays_prompt : stays.

(** Take a result apart and carry the property through the pieces. *)
Ltac carry :=
  repeat match goal with
         | E : vty_write ?v _ = Some ?v', Hp : P (vtype (out ?v)) (ss ?v) |- _ => apply stays_write in E; specialize (E Hp); cbv beta in E
         | E : write_n _ _ ?v = Some ?v', Hp : P (vtype (out ?v)) (ss ?v) |- _ => apply stays_write_n in E; specialize (E Hp); cbv beta in E
         | E : vty_out ?v _ = Some ?v', Hp : P (vtype (out ?v)) (ss ?v) |- _ => apply stays_out in E; specialize (E Hp); cbv beta in E
         end.
Ltac steps E := repeat first [progress simplify_option_eq | case_decide | case_match]; carry; cbn [ss out vtype put_obuf set_ed set_hs set_ss set_tn set_out] in *; try done.

Lemma stays_self_insert c : stays (λ v, vty_self_insert v c).
Proof. intros v v' E Hp. unfold vty_self_insert in E. steps E. Qed.
Lemma stays_overwrite c : stays (λ v, vty_self_insert_overwrite v c).
Proof.
  intros v v' E Hp. unfold vty_self_insert_overwrite in E. case_decide; [eapply stays_self_insert; eassumption|]. simplify_option_eq. eapply stays_write; [eassumption|done].
Qed.
Lemma stays_insert_word s : stays (λ v, vty_insert_word_overwrite v s).
Proof. intros v v' E Hp. unfold vty_insert_word_overwrite in E. case_decide; simplify_option_eq; [done|]. eapply stays_write; [eassumption|done]. Qed.
Lemma stays_forward : stays vty_forward_char.
Proof. intros v v' E Hp. unfold vty_forward_char in E. steps E. Qed.
Lemma stays_backward : stays vty_backward_char.
Proof. intros v v' E Hp. unfold vty_backward_char in E. case_decide; simplify_option_eq; [|done]. eapply stays_write; [eassumption|done]. Qed.
Hint Resolve stays_self_insert stays_overwrite stays_insert_word stays_forward stays_backward : stays.

Lemma stays_home : stays vty_beginning_of_line.
Proof. intros v v' E Hp. exact (stays_while _ _ _ stays_backward v v' E Hp). Qed.
Lemma stays_end : stays vty_end_of_line.
Proof. intros v v' E Hp. exact (stays_while _ _ _ stays_forward v v' E Hp). Qed.
Lemma stays_redraw : stays vty_redraw_line.
Proof. intros v v' E Hp. unfold vty_redraw_line in E. steps E. Qed.
Lemma stays_down_level : stays (vty_down_level h).
Proof.
  intros v v' E Hp. unfold vty_down_level in E. apply bind_Some in E as (v1 & E1 & E). apply stays_out in E1. specialize (E1 Hp). cbv beta in E1.
  apply bind_Some in E as (s & E2 & E). apply bind_Some in E as (v2 & E3 & [= <-]). cbn [ss out set_ed]. eapply stays_prompt; [eassumption|].
  eapply Hexit; [exact E1|exact E2|]. intros Ht. unfold vty_prompt in E3. rewrite decide_True in E3 by done.
  by apply bind_Some in E3 as (p & -> & _).
Qed.
Lemma stays_end_config : stays (vty_end_config h).
Proof. intros v v' E Hp. unfold vty_end_config in E. simplify_option_eq. carry. cbn [ss out set_ed]. eapply stays_prompt; [eassumption|]. cbn. by apply Hleave. Qed.
Lemma stays_stop_input : stays (vty_stop_input h).
Proof.
  intros v v' E Hp. unfold vty_stop_input, vty_clear_buf in E. simplify_option_eq. cbn [ss out set_hs]. eapply stays_prompt; [eassumption|]. cbn. apply Hleave.
  eapply stays_out; [eassumption|done].
Qed.
Lemma stays_delete : stays (vty_delete_char h).
Proof.
  intros v v' E Hp. unfold vty_delete_char in E. case_decide; [eapply stays_down_level; eassumption|]. case_decide; simplify_option_eq; [done|].
  case_match; simplify_option_eq; [done|]. eapply stays_write_n; [eassumption|]. eapply stays_write; [eassumption|]. eapply stays_write; eassumption.
Qed.
Lemma stays_delete_backward : stays (vty_delete_backward_char h).
Proof. intros v v' E Hp. unfold vty_delete_backward_char in E. case_decide; simplify_option_eq; [done|]. eapply stays_delete; [eassumption|]. eapply stays_backward; eassumption. Qed.
Lemma stays_kill : stays vty_kill_line.
Proof. intros v v' E Hp. unfold vty_kill_line in E. steps E. Qed.
Lemma stays_kill_all : stays vty_kill_line_from_beginning.
Proof. unfold vty_kill_line_from_beginning. apply stays_bind; [apply stays_home|apply stays_kill]. Qed.
Hint Resolve stays_home stays_end stays_redraw stays_down_level stays_end_config stays_stop_input stays_delete stays_delete_backward stays_kill stays_kill_all : stays.

(** Two loops one after the other. *)
Lemma stays_loops f1 f2 c1 c2 b1 b2 : stays b1 → stays b2 → stays (λ v, v ← while (f1 v) c1 b1 v; while (f2 v) c2 b2 v).
Proof. intros H1 H2 v v' E Hp. simplify_option_eq. eapply stays_while; [apply H2|eassumption|]. eapply stays_while; [apply H1|eassumption|done]. Qed.

Lemma stays_pure_word : stays vty_backward_pure_word.
Proof. intros v v' E Hp. exact (stays_while _ _ _ stays_backward v v' E Hp). Qed.
Lemma stays_words : stays vty_forward_word ∧ stays vty_backward_word
  ∧ stays (vty_forward_kill_word h) ∧ stays (vty_backward_kill_word h).
Proof.
  split_and!; apply stays_loops; auto with stays.
Qed.

Lemma stays_history_print : stays vty_history_print.
Proof.
  intros v v' E Hp. unfold vty_history_print in E. simplify_option_eq. eapply stays_redraw; [eassumption|]. cbn. eapply stays_kill_all; eassumption.
Qed.
Lemma stays_history : stays vty_next_line ∧ stays vty_previous_line ∧ stays vty_hist_add.
Proof.
  split_and!; intros v v' E Hp; [unfold vty_next_line in E|unfold vty_previous_line in E|unfold vty_hist_add in E];
    repeat first [progress simplify_option_eq | case_decide | case_match]; try done; (eapply stays_history_print; [eassumption|done]).
Qed.

Lemma stays_transpose : stays vty_transpose_chars.
Proof.
  intros v v' E Hp. unfold vty_transpose_chars in E. case_decide; [by simplify_option_eq|].
  case_decide; simplify_option_eq; (eapply stays_overwrite; [eassumption|]); (eapply stays_overwrite; [eassumption|]).
  - eapply stays_backward; [eassumption|]. eapply stays_backward; eassumption.
  - eapply stays_backward; eassumption.
Qed.
End stays.

(** ** Who gets to the privileged nodes *)

Section privilege.
Context {B : Type} `{OutBuffer B} `{Inet}.
Context (cmdvec : list (option cmd_node)) (elements : list (cmd_element B)) (varhandlers : list cmd_variable_handler)
  (crypt : cstring → cstring → cstring).
Implicit Types (v : vty B) (w : world B).

(** A session at a terminal that has not shown the password. *)
Definition low_sess (ty : vty_type) (s : sess) : Prop :=
  ty = VTY_TERM ∧ (node s = AUTH_NODE ∨ node s = VIEW_NODE ∨ node s = AUTH_ENABLE_NODE) ∧ config s = false.
(** The host asks for a password, and the password prompts have no node above them. *)
Definition guarded (h : host) : Prop :=
  (is_Some (enable_pw h) ∨ is_Some (enable_encrypt h)) ∧ node_parent h AUTH_NODE = Some (-1)%Z ∧ node_parent h AUTH_ENABLE_NODE = Some (-1)%Z.
Definition unprivileged w : Prop := low_sess (vtype (out (wvty w))) (wsess w) ∧ guarded (whost w).

(** A command that does not let such a session in. *)
Definition harmless (e : cmd_element B) : Prop :=
  ∀ args w ret w', unprivileged w → node (wsess w) = VIEW_NODE → func e args w = Some (ret, w') → unprivileged w'.

Lemma low_exit h : guarded h → ∀ ty s s', low_sess ty s → cmd_exit h s = Some s' → (ty = VTY_TERM → is_Some (cmd_prompt h (node s'))) → low_sess ty s'.
Proof.
  intros (_ & Ha & Hae) ty s s' (-> & Hn & Hc) E Hp. specialize (Hp eq_refl). unfold cmd_exit in E. apply bind_Some in E as (s1 & E1 & [= <-]).
  assert (node s1 = VIEW_NODE ∧ config s1 = false ∨ node s1 = (-1)%Z) as [[? ?]|Hneg].
  { destruct Hn as [Hn|[Hn|Hn]]; rewrite Hn in E1; cbn -[node_parent AUTH_NODE AUTH_ENABLE_NODE] in E1.
    - rewrite Ha in E1. injection E1 as <-. by right.
    - injection E1 as <-. by left.
    - rewrite Hae in E1. injection E1 as <-. by right. }
  - destruct (0 <? xpath_index s1)%Z; cbn; (split; [done|]); (split; [auto|done]).
  - exfalso. assert (node (if (0 <? xpath_index s1)%Z then Sess (node s1) (fail s1) (config s1) (private_config s1) (xpath_index s1 - 1) (status s1) else s1) = (-1)%Z) as En
      by (by destruct (0 <? xpath_index s1)%Z).
    rewrite En in Hp. by destruct Hp.
Qed.

Lemma low_leave ty s : low_sess ty s → low_sess ty (leave_config s).
Proof. intros (? & ? & Hc). unfold leave_config. rewrite Hc. done. Qed.

Lemma low_on w op w' : stays low_sess op → on_vty w op = Some w' → unprivileged w → unprivileged w'.
Proof. intros Hs E [Hl Hg]. unfold on_vty in E. apply bind_Some in E as (v & Ev & [= <-]). split; [by apply (Hs _ _ Ev)|done]. Qed.

Lemma low_say w p w' : say w p = Some w' → unprivileged w → unprivileged w'.
Proof. intros E. apply (low_on w (λ v, vty_out v p)); [apply stays_out|done]. Qed.
Lemma low_prompt w w' : prompt w = Some w' → unprivileged w → unprivileged w'.
Proof. intros E. apply (low_on w (vty_prompt (whost w))); [apply stays_prompt|done]. Qed.
Lemma low_redraw w w' : prompt_redraw w = Some w' → unprivileged w → unprivileged w'.
Proof.
  intros E Hw. apply bind_Some in E as (w1 & E1 & E2). eapply low_on; [apply stays_redraw|exact E2|]. (eapply low_prompt; eassumption).
Qed.
Lemma low_tn t w : unprivileged w → unprivileged (put_tn t w).
Proof. done. Qed.

Lemma low_say_all ps : ∀ w w', say_all w ps = Some w' → unprivileged w → unprivileged w'.
Proof.
  induction ps as [|p ps IH]; intros w w' E Hw; cbn in E; [by injection E as <-|]. apply bind_Some in E as (w1 & E1 & E2).
  eapply IH; [exact E2|]. eapply low_say; eassumption.
Qed.

(** The commands that command.c installs at the view node, [autocomplete] apart, do
    not let a session in. *)
Definition view_commands (fuel : nat) (names : list cstring) : list (list arg → world B → option (Z * world B)) :=
  [enable; config_exit; config_quit; config_help; config_terminal_length; config_terminal_no_length; do_echo;
   config_list cmdvec elements fuel; show_commandtree cmdvec elements fuel; find cmdvec elements names].

Lemma view_commands_harmless fuel names s d a : Forall (λ f, harmless (CmdElement s d a f)) (view_commands fuel names).
Proof.
  assert (∀ fuel g w w' pos n, permute fuel g pos n w = Some w' → unprivileged w → unprivileged w') as Hperm.
  { clear. induction fuel as [|fuel IH]; intros g w w' pos n E Hw; cbn [permute] in E; [done|]. apply bind_Some in E as (stok & _ & E).
    apply bind_Some in E as (nd & _ & E). cbv zeta in E. revert w E Hw. induction (to nd) as [|gn l IHl]; intros w E Hw; [by injection E as <-|].
    apply bind_Some in E as (tok & _ & E). apply bind_Some in E as (w1 & E1 & E). eapply IHl; [exact E|]. clear E IHl.
    destruct (decide (attr tok = CMD_ATTR_HIDDEN ∨ attr tok = CMD_ATTR_DEPRECATED)); [by injection E1 as <-|].
    destruct (decide (type tok = END_TKN ∨ gn = n)); [apply bind_Some in E1 as (toks & _ & E1); eapply low_say_all; eassumption|].
    destruct (decide _); [by injection E1 as <-|]. eapply IH; eassumption. }
  assert (∀ do_permute w ret w', cmd_list_cmds cmdvec elements fuel w do_permute = Some (ret, w') → unprivileged w → unprivileged w') as Hlist.
  { intros dp w ret w' E Hw. unfold cmd_list_cmds in E. apply bind_Some in E as (nd & _ & E). destruct dp.
    - apply bind_Some in E as (w1 & E1 & [= _ <-]). by eapply Hperm.
    - apply bind_Some in E as (es & _ & E). apply bind_Some in E as (w1 & E1 & [= _ <-]). eapply low_say_all; eassumption. }
  assert (∀ t nm l w w', find_in elements t nm l w = Some w' → unprivileged w → unprivileged w') as Hin.
  { clear. intros t nm l. induction l as [|c l IH]; intros w w' E Hw; cbn [find_in] in E; [by injection E as <-|]. do 2 (apply bind_Some in E as (? & _ & E)).
    apply bind_Some in E as (w1 & E1 & E). eapply IH; [exact E|]. destruct (strcasestr _ t); [eapply low_say; eassumption|by injection E1 as <-]. }
  assert (∀ t l i w w', find_nodes elements names t l i w = Some w' → unprivileged w → unprivileged w') as Hnodes.
  { intros t l. induction l as [|nd l IH]; intros i w w' E Hw; cbn [find_nodes] in E; [by injection E as <-|]. apply bind_Some in E as (w1 & E1 & E).
    eapply IH; [exact E|]. destruct nd; [|by injection E1 as <-]. apply bind_Some in E1 as (nm & _ & E1). by eapply Hin. }
  assert (harmless (CmdElement s d a config_exit)) as Hexit.
  { intros args w ret w' [Hl Hg] Hv E. cbn [func] in E. unfold config_exit in E. apply bind_Some in E as (s' & E & [= _ <-]). split; [|done].
    unfold cmd_exit in E. rewrite Hv in E. cbn in E. injection E as <-. destruct Hl as (? & ? & ?).
    destruct (0 <? xpath_index (wsess w))%Z; (split; [done|split; [by right; left|done]]). }
  repeat apply Forall_cons_2; try apply Forall_nil_2; try exact Hexit; intros args w ret w' Hw Hv E; cbn [func] in E.
  - unfold enable in E. injection E as _ <-. destruct Hw as [(Ht & Hn & Hc) Hg]. split; [|done]. split; [done|]. split; [|done]. cbn. rewrite decide_False.
    + by right; right.
    + intros [[H1 H2]|H1]; [|by rewrite Ht in H1]. destruct Hg as ([Hg|Hg] & _); [rewrite H1 in Hg|rewrite H2 in Hg]; by destruct Hg.
  - unfold config_help in E. apply bind_Some in E as (w1 & E1 & [= _ <-]). eapply low_say; eassumption.
  - unfold config_terminal_length in E. do 2 (apply bind_Some in E as (? & _ & E)). injection E as _ <-. done.
  - unfold config_terminal_no_length in E. by injection E as _ <-.
  - unfold do_echo in E. apply bind_Some in E as (m & _ & E). apply bind_Some in E as (w1 & E1 & [= _ <-]). eapply low_say; eassumption.
  - by eapply Hlist.
  - by eapply Hlist.
  - unfold find in E. do 2 (apply bind_Some in E as (? & _ & E)). apply bind_Some in E as (w1 & E1 & [= _ <-]). by eapply Hnodes.
Qed.

(** The commands of the view node are those of command.c, or others that do not
    let a session in. *)
Context (Hview : ∀ line args el e, match_at cmdvec line VIEW_NODE = Some (MATCHER_OK, Some (args, el)) → elements !! el = Some e →
  (∃ fuel names, func e ∈ view_commands fuel names) ∨ harmless e).

Lemma view_harmless line args el e : match_at cmdvec line VIEW_NODE = Some (MATCHER_OK, Some (args, el)) → elements !! el = Some e → harmless e.
Proof.
  intros Hm He. destruct (Hview line args el e Hm He) as [(fuel & names & Hf)|?]; [|done].
  pose proof (view_commands_harmless fuel names (cmd_string e) (daemon e) (eattr e)) as Hv. rewrite Forall_forall in Hv. specialize (Hv _ Hf). by destruct e.
Qed.

(** A command at the view node. *)
Lemma low_execute w s ret w' : cmd_execute cmdvec elements w s false = Some (ret, w') → hidden (wsess w) = false → unprivileged w → unprivileged w'.
Proof.
  intros E Hh Hw. pose proof Hw as [(_ & Hn & Hc) _]. assert (node (wsess w) = VIEW_NODE) as Hv.
  { unfold hidden in Hh. destruct Hn as [Hn|[Hn|Hn]]; [by rewrite Hn in Hh|done|by rewrite Hn in Hh]. }
  unfold cmd_execute in E. apply bind_Some in E as ([vline|] & _ & E); [|by injection E as _ <-].
  unfold cmd_execute_command in E. apply bind_Some in E as (first & _ & E). rewrite Hv in E.
  assert (cmd_try_do_shortcut VIEW_NODE first = false) as Hd by (unfold cmd_try_do_shortcut; destruct first; [rewrite bool_decide_eq_false; tauto|done]).
  rewrite Hd in E. apply bind_Some in E as ([r w1] & E1 & E).
  assert (unprivileged w1) as Hw1.
  { unfold cmd_execute_command_real in E1. rewrite Hv in E1. apply bind_Some in E1 as (g & Eg & E1). apply bind_Some in E1 as ([st argv] & Em & E1).
    destruct st; try (by injection E1 as _ <-). apply bind_Some in E1 as ([args el] & -> & E1). apply bind_Some in E1 as (e & Ee & E1).
    destruct (daemon e); [by injection E1 as _ <-|]. rewrite Hc in E1. eapply (view_harmless (Vector.contents vline) args el e); [|exact Ee|exact Hw|exact Hv|exact E1].
    unfold match_at. by rewrite Eg. }
  destruct (accepted r); [by injection E as _ <-|]. apply bind_Some in E as ([o w2] & E2 & E).
  pose proof Hw1 as [(_ & Hn1 & _) _].
  assert (climb cmdvec elements (length (node_parents (whost w1))) vline VIEW_NODE w1 = Some (None, w1)) as Ec.
  { assert ((CONFIG_NODE <? node (wsess w1))%Z = false) as Hlt by (destruct Hn1 as [-> |[-> | ->]]; done).
    destruct (length (node_parents (whost w1))); cbn [climb]; by rewrite Hlt. }
  rewrite Ec in E2. injection E2 as <- <-. injection E as _ <-. destruct Hw1 as [(Ht & _ & Hc1) Hg]. split; [|done]. split; [done|]. split; [by right; left|done].
Qed.

(** The line is the password that lets the session in: the enable password, or
    the login password where that is enough. *)
Definition shows (h : host) (plain hash : option cstring) (s : cstring) : Prop :=
  if encrypt h then ∃ e, hash = Some e ∧ crypt s e = e else plain = Some s.
Definition logs_in w (s : cstring) : Prop :=
  let h := whost w in
  node (wsess w) = AUTH_ENABLE_NODE ∧ shows h (enable_pw h) (enable_encrypt h) s
  ∨ node (wsess w) = AUTH_NODE ∧ advanced h = true ∧ enable_pw h = None ∧ shows h (password h) (password_encrypt h) s.

Lemma password_shown h n s : password_ok crypt h n s = true →
  (n = AUTH_NODE → shows h (password h) (password_encrypt h) s) ∧ (n = AUTH_ENABLE_NODE → shows h (enable_pw h) (enable_encrypt h) s).
Proof.
  unfold password_ok, auth_passwd, shows. intros Ho. split; intros ->; cbn in Ho; destruct (encrypt h);
    match type of Ho with context [match ?p with _ => _ end] => destruct p as [e|] end; try done;
    apply bool_decide_eq_true in Ho; [by exists e|by subst|by exists e|by subst].
Qed.

Lemma low_auth w s w' : vty_auth crypt w s = Some w' → hidden (wsess w) = true → unprivileged w → unprivileged w' ∨ logs_in w s.
Proof.
  intros E Hh Hw. unfold vty_auth in E. destruct (password_ok crypt (whost w) (node (wsess w)) s) eqn:Ep.
  - injection E as <-. destruct (password_shown _ _ _ Ep) as [Hp1 Hp2]. pose proof Hw as [(Ht & Hn & Hc) Hg]. unfold next_node, logs_in. destruct Hn as [Hn|[Hn|Hn]]; rewrite Hn in *; cbn.
    + destruct (advanced (whost w)) eqn:Ea; [destruct (enable_pw (whost w)) eqn:Ee|]; [left|right; right; by auto|left];
        (split; [split; [done|split; [by right; left|done]]|done]).
    + left. unfold password_ok in Ep. done.
    + right. left. auto.
  - left. assert (∀ f, unprivileged (set_sess (set_fail f (wsess w)) w)) as Hf by (by intros f).
    cbv zeta in E. destruct (3 <=? fail (wsess w) + 1)%Z; [|by injection E as <-].
    destruct (node (wsess w) =? AUTH_NODE)%Z; apply bind_Some in E as (w1 & E1 & [= <-]); (eapply low_say in E1; [exact E1|apply Hf]).
Qed.

Lemma low_exec_line w ret w' : vty_execute cmdvec elements crypt w = Some (ret, w') → unprivileged w →
  unprivileged w' ∨ ∃ s, vty_buf_str w = Some s ∧ logs_in w s.
Proof.
  intros E Hw. unfold vty_execute in E. apply bind_Some in E as (s & Es & E). apply bind_Some in E as ([r w1] & E1 & E).
  assert (unprivileged w1 ∨ logs_in w s) as [Hw1|]; [|left|right; eauto].
  { destruct (hidden (wsess w)) eqn:Hh.
    - apply bind_Some in E1 as (w2 & E2 & [= <- <-]). (eapply low_auth; eassumption).
    - left. apply bind_Some in E1 as ([r2 w2] & E2 & E1). apply bind_Some in E1 as (w3 & E3 & [= <- <-]).
      assert (unprivileged w2) as Hw2.
      { unfold vty_command in E2. apply bind_Some in E2 as ([r4 w4] & E4 & E2). apply bind_Some in E2 as (w5 & E5 & [= <- <-]).
        pose proof (low_execute _ _ _ _ E4 Hh Hw) as Hw4. clear E4.
        destruct (r4 =? CMD_WARNING)%Z; [destruct (decide (vtype (out (wvty w4)) = VTY_FILE)); [(eapply low_say; eassumption)|by injection E5 as <-]|].
        destruct (r4 =? CMD_ERR_AMBIGUOUS)%Z; [(eapply low_say; eassumption)|]. destruct (r4 =? CMD_ERR_NO_MATCH)%Z; [apply bind_Some in E5 as (? & _ & E5); (eapply low_say; eassumption)|].
        destruct (r4 =? CMD_ERR_INCOMPLETE)%Z; [(eapply low_say; eassumption)|by injection E5 as <-]. }
      case_decide; [|by injection E3 as <-]. eapply low_on; [|exact E3|exact Hw2]. by apply stays_history. }
  apply bind_Some in E as (w2 & E2 & E). apply bind_Some in E as (w3 & E3 & [= <- <-]). assert (unprivileged w2) as Hw2.
  { eapply low_on; [|exact E2|exact Hw1]. intros v v' Ev Hp. unfold vty_clear_buf in Ev. by simplify_option_eq. }
  case_decide; [(eapply low_prompt; eassumption)|by injection E3 as <-].
Qed.

Lemma low_list_matched l : ∀ i w w', list_matched i l w = Some w' → unprivileged w → unprivileged w'.
Proof.
  induction l as [|[m|] l IH]; intros i w w' E Hw; cbn [list_matched] in E; [by injection E as <-| |by injection E as <-].
  apply bind_Some in E as (w1 & E1 & E). apply bind_Some in E as (w2 & E2 & E). eapply IH; [exact E|]. eapply low_say; [exact E2|].
  destruct (decide (i ≠ 0 ∧ i mod 6 = 0)); [eapply low_say; eassumption|by injection E1 as <-].
Qed.

Lemma low_complete w w' : vty_complete_command cmdvec varhandlers w = Some w' → unprivileged w → unprivileged w'.
Proof.
  intros E Hw. unfold vty_complete_command in E. destruct (hidden (wsess w)); [by injection E as <-|].
  apply bind_Some in E as (s & _ & E). apply bind_Some in E as ([vline|] & _ & E); [|by injection E as <-].
  apply bind_Some in E as (sp & _ & E). apply bind_Some in E as (vl & _ & E). apply bind_Some in E as ([ret matched] & _ & E).
  apply bind_Some in E as (w1 & E1 & E). apply low_say in E1; [|done]. clear Hw w.
  assert (∀ w2 w3, on_vty w2 vty_backward_pure_word = Some w3 → unprivileged w2 → unprivileged w3) as Hpure.
  { intros w2 w3. apply low_on. apply stays_pure_word. }
  assert (∀ m w2 w3, on_vty w2 (λ v, vty_insert_word_overwrite v m) = Some w3 → unprivileged w2 → unprivileged w3) as Hword.
  { intros m w2 w3. apply low_on. apply stays_insert_word. }
  destruct (ret =? CMD_ERR_AMBIGUOUS)%Z; [apply bind_Some in E as (w2 & E2 & E); eapply low_redraw; [exact E|]; eapply low_say; eassumption|].
  destruct (ret =? CMD_ERR_NO_MATCH)%Z; [eapply low_redraw; eassumption|].
  destruct (ret =? CMD_COMPLETE_FULL_MATCH)%Z.
  { apply bind_Some in E as ([|[m|] l] & _ & E).
    - apply bind_Some in E as (w2 & E2 & E). eapply low_redraw; [exact E|]. eapply low_say; eassumption.
    - apply bind_Some in E as (w2 & E2 & E). apply bind_Some in E as (w3 & E3 & E). apply bind_Some in E as (w4 & E4 & E).
      eapply low_on; [apply (stays_self_insert _ SP)|exact E|]. eapply Hword; [exact E4|]. eapply Hpure; [exact E3|]. eapply low_redraw; eassumption.
    - apply bind_Some in E as (w2 & E2 & E). eapply low_redraw; [exact E|]. eapply low_say; eassumption. }
  destruct (ret =? CMD_COMPLETE_MATCH)%Z.
  { apply bind_Some in E as (l & _ & E). apply bind_Some in E as (m & _ & E). apply bind_Some in E as (m' & _ & E).
    apply bind_Some in E as (w2 & E2 & E). apply bind_Some in E as (w3 & E3 & E).
    eapply Hword; [exact E|]. eapply Hpure; [exact E3|]. eapply low_redraw; eassumption. }
  destruct (ret =? CMD_COMPLETE_LIST_MATCH)%Z.
  { apply bind_Some in E as (l & _ & E). apply bind_Some in E as (w2 & E2 & E). apply bind_Some in E as (w3 & E3 & E).
    eapply low_redraw; [exact E|]. eapply low_say; [exact E3|]. eapply low_list_matched; eassumption. }
  destruct (ret =? CMD_ERR_NOTHING_TODO)%Z; [eapply low_redraw; eassumption|by injection E as <-].
Qed.

Lemma low_describe_one wd dw t w w' : describe_one wd dw t w = Some w' → unprivileged w → unprivileged w'.
Proof.
  intros E Hw. unfold describe_one, vty_describe_fold in E. destruct (desc t) as [d|]; [|eapply low_say; eassumption].
  destruct (_ <=? _)%Z; [eapply low_say; eassumption|]. destruct (decide (Z.to_nat dw = 0)); [eapply low_say; eassumption|].
  apply bind_Some in E as ([|l ls] & _ & E); [done|]. apply bind_Some in E as (w1 & E1 & E).
  eapply low_say_all; [exact E|]. eapply low_say; eassumption.
Qed.

Lemma low_describe_loop l vline wd dw : ∀ cr w r w', describe_loop varhandlers l vline wd dw cr w = Some (r, w') → unprivileged w → unprivileged w'.
Proof.
  induction l as [|[t|] l IH]; intros cr w r w' E Hw; cbn [describe_loop] in E; [by injection E as _ <-| |by eapply IH].
  destruct (decide (text t = [])); [by eapply IH|]. destruct (decide (text t = CMD_CR_TEXT)); [by eapply IH|].
  apply bind_Some in E as (w1 & E1 & E). apply bind_Some in E as (w2 & E2 & E). eapply IH; [exact E|].
  apply low_describe_one in E1; [|done]. destruct (varying (type t)); [|by injection E2 as <-].
  do 3 (apply bind_Some in E2 as (? & _ & E2)). destruct (decide (0 < vector_active x1)); [|by injection E2 as <-].
  apply bind_Some in E2 as (ac & _ & E2). eapply low_say; eassumption.
Qed.

Lemma low_describe w w' : vty_describe_command cmdvec varhandlers w = Some w' → unprivileged w → unprivileged w'.
Proof.
  intros E Hw. unfold vty_describe_command in E. do 3 (apply bind_Some in E as (? & _ & E)). apply bind_Some in E as ([ret d] & _ & E).
  apply bind_Some in E as (w1 & E1 & E). apply low_say in E1; [|done]. apply bind_Some in E as (w2 & E2 & E). eapply low_redraw; [exact E|]. clear E.
  destruct (ret =? CMD_ERR_AMBIGUOUS)%Z; [eapply low_say; eassumption|]. destruct (ret =? CMD_ERR_NO_MATCH)%Z; [eapply low_say; eassumption|].
  apply bind_Some in E2 as (dv & _ & E2). cbv zeta in E2. apply bind_Some in E2 as ([cr w3] & E3 & E2). apply low_describe_loop in E3; [|done].
  destruct cr; [eapply low_describe_one; eassumption|by injection E2 as <-].
Qed.

Lemma low_key w b w' : normal_key cmdvec elements varhandlers crypt w b = Some w' → unprivileged w →
  unprivileged w' ∨ (b = 10 ∨ b = 13)%Z ∧ ∃ s, vty_buf_str w = Some s ∧ logs_in w s.
Proof.
  intros E Hw. pose proof Hw as [_ Hg]. unfold normal_key in E. pose proof (low_exit (whost w) Hg) as Hx. pose proof low_leave as Hl.
  pose proof (stays_words (whost w) low_sess Hx) as (S1 & S2 & S4 & S5).
  pose proof (stays_history (B := B) low_sess) as (S6 & S7 & S8).
  assert (∀ op, on_vty w op = Some w' → stays low_sess op → unprivileged w' ∨ (b = 10 ∨ b = 13)%Z ∧ ∃ s, vty_buf_str w = Some s ∧ logs_in w s) as Hop.
  { intros op Eo Ho. left. by eapply low_on. }
  destruct (b =? 1)%Z; [eapply Hop; [exact E|apply stays_home]|].
  destruct (b =? 2)%Z; [eapply Hop; [exact E|apply stays_backward]|].
  destruct (b =? 3)%Z; [eapply Hop; [exact E|by apply stays_stop_input]|].
  destruct (b =? 4)%Z; [eapply Hop; [exact E|by apply stays_delete]|].
  destruct (b =? 5)%Z; [eapply Hop; [exact E|apply stays_end]|].
  destruct (b =? 6)%Z; [eapply Hop; [exact E|apply stays_forward]|].
  destruct ((b =? 8) || (b =? 127))%Z; [eapply Hop; [exact E|by apply stays_delete_backward]|].
  destruct (b =? 11)%Z; [eapply Hop; [exact E|apply stays_kill]|].
  destruct (b =? 14)%Z; [eapply Hop; [exact E|done]|].
  destruct (b =? 16)%Z; [eapply Hop; [exact E|done]|].
  destruct (b =? 20)%Z; [eapply Hop; [exact E|apply stays_transpose]|].
  destruct (b =? 21)%Z; [eapply Hop; [exact E|apply stays_kill_all]|].
  destruct (b =? 23)%Z; [eapply Hop; [exact E|done]|].
  destruct (b =? 26)%Z; [eapply Hop; [exact E|by apply stays_end_config]|].
  destruct ((b =? 10) || (b =? 13))%Z eqn:Eb.
  { apply bind_Some in E as (w1 & E1 & E). apply bind_Some in E as ([r w2] & E2 & [= <-]). pose proof (low_say _ _ _ E1 Hw) as Hw1.
    unfold say, vty_out in E1. apply bind_Some in E1 as (v1 & Ev & [= <-]). apply bind_Some in Ev as (o & _ & [= <-]).
    destruct (low_exec_line _ _ _ E2 Hw1) as [?|(s & Es & Hin)]; [by left|right]. split; [lia|]. exists s. split; [exact Es|exact Hin]. }
  destruct (b =? 9)%Z; [left; eapply low_complete; eassumption|].
  destruct (b =? 63)%Z; [destruct (hidden (wsess w)); [eapply Hop; [exact E|apply stays_self_insert]|left; eapply low_describe; eassumption]|].
  destruct ((31 <? b) && (b <? 127))%Z; [eapply Hop; [exact E|apply stays_self_insert]|]. left. by injection E as <-.
Qed.

Lemma low_byte b next w k w' : read_byte cmdvec elements varhandlers crypt b next w = Some (k, w') → unprivileged w →
  unprivileged w' ∨ (b = 10 ∨ b = 13)%Z ∧ ∃ s, vty_buf_str w = Some s ∧ logs_in w s.
Proof.
  intros E Hw. unfold read_byte in E. destruct ((b =? IAC)%Z && negb (iac (tn (wvty w)))); [left; by injection E as _ <-|].
  set (t := if (b =? IAC)%Z then set_iac false (tn (wvty w)) else tn (wvty w)) in *. set (w0 := put_tn t w) in *.
  assert (unprivileged w0) as Hw0 by done. pose proof Hw0 as [_ Hg].
  destruct (iac_sb_in_progress t && negb (iac t)); [left; apply bind_Some in E as (? & _ & [= _ <-]); done|].
  destruct (iac t); [left; apply bind_Some in E as ([] & _ & [= _ <-]); done|].
  destruct (decide (status (wsess w0) = VTY_MORE)).
  { left. destruct (_ || _); [|by injection E as _ <-]. apply bind_Some in E as (w1 & E1 & [= _ <-]). eapply low_redraw; [exact E1|done]. }
  destruct (escape t =? VTY_ESCAPE)%Z.
  { left. apply bind_Some in E as (w1 & E1 & [= _ <-]). unfold vty_escape_map in E1. apply bind_Some in E1 as (w2 & E2 & [= <-]). apply low_tn.
    pose proof (stays_history (B := B) low_sess) as (S6 & S7 & _).
    destruct (b =? 65)%Z; [eapply low_on; [exact S7|exact E2|done]|]. destruct (b =? 66)%Z; [eapply low_on; [exact S6|exact E2|done]|]. destruct (b =? 67)%Z; [eapply low_on; [apply stays_forward|exact E2|done]|].
    destruct (b =? 68)%Z; [eapply low_on; [apply stays_backward|exact E2|done]|]. by injection E2 as <-. }
  destruct (escape t =? VTY_PRE_ESCAPE)%Z.
  { left. apply bind_Some in E as (w1 & E1 & [= _ <-]). unfold pre_escape in E1. destruct (b =? 91)%Z; [by injection E1 as <-|].
    apply bind_Some in E1 as (w2 & E2 & [= <-]). apply low_tn. pose proof (low_exit (whost w0) Hg) as Hx.
    pose proof (stays_words (whost w0) low_sess Hx) as (S1 & S2 & S4 & S5).
    destruct (b =? 98)%Z; [eapply low_on; [exact S2|exact E2|done]|]. destruct (b =? 102)%Z; [eapply low_on; [exact S1|exact E2|done]|].
    destruct (b =? 100)%Z; [eapply low_on; [exact S4|exact E2|done]|]. destruct (_ || _); [eapply low_on; [exact S5|exact E2|done]|]. by injection E2 as <-. }
  destruct (b =? 27)%Z; [left; destruct (decide (next = Some 91%Z)); by injection E as _ <-|].
  apply bind_Some in E as (w1 & E1 & [= _ <-]). exact (low_key w0 b w1 E1 Hw0).
Qed.

(** The turns of the loop: from [bs] and [w] the loop gets to [bs'] and [w']. *)
Inductive turns : list Z → world B → list Z → world B → Prop :=
  | turns_refl bs w : turns bs w bs w
  | turns_step b rest w k w1 bs' w' : read_byte cmdvec elements varhandlers crypt b (head rest) w = Some (k, w1) →
      turns (match k with 0 => rest | S _ => tail rest end) w1 bs' w' → turns (b :: rest) w bs' w'.

Lemma turns_in bs w b rest w' : turns bs w (b :: rest) w' → b ∈ bs.
Proof.
  remember (b :: rest) as bs' eqn:E. induction 1 as [bs w|c l w k w1 bs' w' _ _ IH]; subst; [by left|].
  right. specialize (IH eq_refl). destruct k; [done|]. destruct l; [done|by right].
Qed.

(** C2: On a host with an enable password, plain or encrypted, and whose view node
    has the commands of command.c and others that keep a session out (without an
    enable password [enable] asks for none): whatever a session at a terminal sends
    that has not shown a password (line editing, escape sequences, telnet commands,
    help, completion and the commands of the view node), it stays at the prompts
    and the view node, unless at a password prompt it submits a line that is the
    enable password, or the login password where the host lets that do (the
    advanced flag and no plain enable password). *)
Theorem privilege_needs_password (bs : list Z) (w w' : world B) :
  unprivileged w → read_loop cmdvec elements varhandlers crypt bs w = Some w' → ¬ unprivileged w' →
  ∃ b rest w1 s, turns bs w (b :: rest) w1 ∧ unprivileged w1 ∧ (b = 10 ∨ b = 13)%Z ∧ vty_buf_str w1 = Some s ∧ logs_in w1 s.
Proof.
  intros Hw E Hn. assert (∀ n bs w, length bs ≤ n → unprivileged w → read_loop cmdvec elements varhandlers crypt bs w = Some w' →
    ∃ b rest w1 s, turns bs w (b :: rest) w1 ∧ unprivileged w1 ∧ (b = 10 ∨ b = 13)%Z ∧ vty_buf_str w1 = Some s ∧ logs_in w1 s) as Hall; [|by eapply (Hall (length bs))].
  clear bs w Hw E. induction n as [|n IH]; intros [|b rest] w Hlen Hw E; cbn [length read_loop] in *; try lia;
    try (by injection E as <-). apply bind_Some in E as ([k w1] & E1 & E).
  destruct (low_byte _ _ _ _ _ E1 Hw) as [Hw1|(Hb & s & Hs & Hin)].
  - assert (read_loop cmdvec elements varhandlers crypt (match k with 0 => rest | S _ => tail rest end) w1 = Some w') as E' by (by destruct k, rest).
    assert (length (match k with 0 => rest | S _ => tail rest end) ≤ n) as Hl by (destruct k, rest; cbn in *; lia).
    destruct (IH _ w1 Hl Hw1 E') as (b' & rest' & w2 & s & Hr & ?). exists b', rest', w2, s.
    split; [by econstructor|done].
  - exists b, rest, w, s. split; [constructor|done].
Qed.
End privilege.

(** ** Passwords *)

Section passwords.
Context {B : Type} `{OutBuffer B} (crypt : cstring → cstring → cstring).
(** A hash is its own salt. *)
Context (crypt_self : ∀ p salt, crypt p (crypt p salt) = crypt p salt).
Implicit Types (w : world B).

Lemma to64_total n : ∀ v, is_Some (to64 n v).
Proof.
  induction n as [|n IH]; intros v; [by eexists|]. cbn [to64].
  assert (is_Some (itoa64 !! Z.to_nat (Z.land v 63))) as [c ->].
  { apply lookup_lt_is_Some_2. change (length itoa64) with 64. change 63%Z with (Z.ones 6). rewrite Z.land_ones by lia.
    pose proof (Z.mod_pos_bound v (2 ^ 6)). lia. }
  ostep. destruct (IH (Z.shiftr v 6)) as [s ->]. ostep. by eexists.
Qed.

Lemma zencrypt_spec p w : ∃ e rs, zencrypt crypt p w = Some (e, World (wvty w) (whost w) (num_cfg_changes w) rs) ∧ crypt p e = e.
Proof.
  unfold zencrypt. destruct (default (0, 0)%Z (head (randoms w))) as [r t]. destruct (to64_total 3 r) as [s1 ->]. destruct (to64_total 3 t) as [s2 ->].
  ostep. ostep. do 2 eexists. split; [reflexivity|]. apply crypt_self.
Qed.

Abbreviation opens := (password_ok crypt).

(** C37: Passwords and their encryption.  A password that is
    set is accepted afterwards, with and without encryption.  Turning encryption
    on keeps what was accepted.  Turning it off again keeps a password that was set before
    encryption was turned on, but drops one that was set while it was on: then
    no line is accepted at login, and [enable] asks for no password at all.  A
    hash that is given while encryption is off is not accepted either. *)
Theorem passwords_follow_settings (w : world B) (a b t : arg) (p : cstring) :
  starts_alnum p = true →
  (∃ w', config_password crypt [a; (t.1, p)] w = Some (CMD_SUCCESS, w') ∧ opens (whost w') AUTH_NODE p = true)
  ∧ (∃ w', config_enable_password crypt [a; b; (t.1, p)] w = Some (CMD_SUCCESS, w') ∧ opens (whost w') AUTH_ENABLE_NODE p = true)
  ∧ (∃ w', service_password_encrypt crypt [] w = Some (CMD_SUCCESS, w') ∧ encrypt (whost w') = true
       ∧ ∀ n q, n = AUTH_NODE ∨ n = AUTH_ENABLE_NODE → opens (whost w) n q = true → opens (whost w') n q = true)
  ∧ (∃ w', no_service_password_encrypt [] w = Some (CMD_SUCCESS, w') ∧ encrypt (whost w') = false
       ∧ (encrypt (whost w) = true → (∀ q, password (whost w) = Some q → opens (whost w') AUTH_NODE q = true)
            ∧ (password (whost w) = None → ∀ q, opens (whost w') AUTH_NODE q = false)
            ∧ (enable_pw (whost w) = None → vtype (out (wvty w')) = VTY_TERM →
                 ∀ args, ∃ w'', enable args w' = Some (CMD_SUCCESS, w'') ∧ node (wsess w'') = ENABLE_NODE)))
  ∧ (∃ w', config_password crypt [a; b; (t.1, p)] w = Some (CMD_SUCCESS, w') ∧ (encrypt (whost w) = false → ∀ q, opens (whost w') AUTH_NODE q = false)).
Proof.
  intros Hp. split_and!.
  - unfold config_password. rewrite decide_False by done. cbn [lookup list_lookup]. ostep. cbn [snd]. rewrite Hp. cbn [negb].
    destruct (encrypt (whost w)) eqn:He.
    + destruct (zencrypt_spec p w) as (e & rs & -> & Hs). ostep. eexists. split; [reflexivity|]. unfold password_ok, auth_passwd. cbn. rewrite He. by apply bool_decide_eq_true.
    + eexists. split; [reflexivity|]. unfold password_ok, auth_passwd. cbn. rewrite He. by apply bool_decide_eq_true.
  - unfold config_enable_password. rewrite decide_False by done. cbn [lookup list_lookup]. ostep. cbn [snd]. rewrite Hp. cbn [negb].
    destruct (encrypt (whost w)) eqn:He.
    + destruct (zencrypt_spec p w) as (e & rs & -> & Hs). ostep. eexists. split; [reflexivity|]. unfold password_ok, auth_passwd. cbn. rewrite He. by apply bool_decide_eq_true.
    + eexists. split; [reflexivity|]. unfold password_ok, auth_passwd. cbn. rewrite He. by apply bool_decide_eq_true.
  - unfold service_password_encrypt. destruct (encrypt (whost w)) eqn:He; [exists w; split; [done|]; split; [done|]; by intros|]. cbv zeta.
    assert (∃ w1, match password (whost (set_host (set_encrypt true (whost w)) w)) with
      | Some p => '(e, w0) ← zencrypt crypt p (set_host (set_encrypt true (whost w)) w); Some (set_host (set_passwords (Some p) (Some e) (whost w0)) w0)
      | None => Some (set_host (set_encrypt true (whost w)) w) end = Some w1
      ∧ encrypt (whost w1) = true ∧ enable_pw (whost w1) = enable_pw (whost w)
      ∧ ∀ q, password (whost w) = Some q → ∃ e, password_encrypt (whost w1) = Some e ∧ crypt q e = e) as (w1 & -> & He1 & Hen & Hq).
    { cbn [whost set_host password set_encrypt]. destruct (password (whost w)) as [q|].
      - destruct (zencrypt_spec q (set_host (set_encrypt true (whost w)) w)) as (e & rs & -> & Hs). ostep. eexists. split; [reflexivity|].
        split; [done|]. split; [done|]. intros q' [= <-]. cbn. eauto.
      - eexists. split; [reflexivity|]. done. }
    ostep. rewrite Hen.
    assert (∃ w2, match enable_pw (whost w) with
      | Some p => '(e, w0) ← zencrypt crypt p w1; Some (set_host (set_enables (Some p) (Some e) (whost w0)) w0) | None => Some w1 end = Some w2
      ∧ encrypt (whost w2) = true ∧ password_encrypt (whost w2) = password_encrypt (whost w1)
      ∧ ∀ q, enable_pw (whost w) = Some q → ∃ e, enable_encrypt (whost w2) = Some e ∧ crypt q e = e) as (w2 & -> & He2 & Hpe & Hq2).
    { destruct (enable_pw (whost w)) as [q|].
      - destruct (zencrypt_spec q w1) as (e & rs & -> & Hs). ostep. eexists. split; [reflexivity|].
        split; [done|]. split; [done|]. intros q' [= <-]. cbn. eauto.
      - eexists. split; [reflexivity|]. done. }
    ostep. exists w2. split; [done|]. split; [done|]. intros n q Hn. unfold password_ok, auth_passwd. rewrite He, He2.
    destruct Hn as [->| ->]; cbn.
    + destruct (password (whost w)) as [q0|]; [|done]. intros ->%bool_decide_eq_true. rewrite Hpe. destruct (Hq q0 eq_refl) as (e & -> & Hs). by apply bool_decide_eq_true.
    + destruct (enable_pw (whost w)) as [q0|]; [|done]. intros ->%bool_decide_eq_true. destruct (Hq2 q0 eq_refl) as (e & -> & Hs). by apply bool_decide_eq_true.
  - unfold no_service_password_encrypt. destruct (encrypt (whost w)) eqn:He; cbn [negb]; [|exists w; split; [done|]; split; done].
    eexists. split; [reflexivity|]. split; [done|]. intros _. split; [|split].
    + intros q Hq. unfold password_ok, auth_passwd. cbn. rewrite Hq. by apply bool_decide_eq_true.
    + intros Hn q. unfold password_ok, auth_passwd. cbn. by rewrite Hn.
    + intros Hn Ht args. unfold enable. eexists. split; [reflexivity|]. cbn [wsess set_sess set_vty wvty ss set_ss node set_node]. rewrite decide_True; [done|]. left. by cbn.
  - unfold config_password. rewrite decide_True by done. cbn [lookup list_lookup]. ostep. eexists. split; [reflexivity|].
    intros He q. unfold password_ok, auth_passwd. cbn. by rewrite He.
Qed.
End passwords.

(** ** Examples *)

(** The view node knows [enable] and [exit], the enable node [exit]. *)
Definition login_nodes : list (option cmd_node) :=
  [Some (CmdNode [] []);
   Some (CmdNode [Node (Tok (plumbing START_TKN)) [1; 3]; Node (Tok (word "enable")) [2]; Node (Tok (plumbing END_TKN)) [5];
                  Node (Tok (word "exit")) [4]; Node (Tok (plumbing END_TKN)) [6]; Node (Element 0) []; Node (Element 1) []] [Some 0; Some 1]);
   Some (CmdNode [] []); Some (CmdNode (one_word "exit" 1) [Some 1])].
Definition login_commands : list (cmd_element buffer) :=
  [CmdElement (str "enable") false CMD_ATTR_NORMAL enable; CmdElement (str "exit") false CMD_ATTR_NORMAL config_exit].
(** No hash is known. *)
Definition crypt_example (p salt : cstring) : cstring := "$"%char :: p.
Definition login_host : host := set_enables (Some (str "secret")) None host0.
Definition login_world : world buffer := World session0 login_host 0 [].
Definition login_keys : list Z := code <$> (str "en" ++ newline ++ str "secret" ++ newline).

Example login_runs : node ∘ wsess <$> read_loop login_nodes login_commands [] crypt_example login_keys login_world = Some ENABLE_NODE.
Proof. vm_compute. reflexivity. Qed.

Lemma login_view line args el e : match_at login_nodes line VIEW_NODE = Some (MATCHER_OK, Some (args, el)) → login_commands !! el = Some e →
  (∃ fuel names, func e ∈ view_commands login_nodes login_commands fuel names) ∨ harmless e.
Proof. intros _ He. left. exists 0, []. destruct el as [|[|el]]; [injection He as <-..|done]; [by left|by right; left]. Qed.

Lemma privilege_needs_password_witness :
  ∃ w' b rest w1 s, read_loop login_nodes login_commands [] crypt_example login_keys login_world = Some w'
    ∧ turns login_nodes login_commands [] crypt_example login_keys login_world (b :: rest) w1 ∧ vty_buf_str w1 = Some s ∧ logs_in crypt_example w1 s.
Proof.
  destruct (read_loop login_nodes login_commands [] crypt_example login_keys login_world) as [w'|] eqn:E.
  - destruct (privilege_needs_password login_nodes login_commands [] crypt_example login_view login_keys login_world w') as (b & rest & w1 & s & Ht & _ & _ & Hs & Hin).
    + split; [split; [reflexivity|split; [right; left; reflexivity|reflexivity]]|]. split; [left; eexists; reflexivity|split; reflexivity].
    + exact E.
    + pose proof login_runs as Hr. rewrite E in Hr. intros [(_ & [Hn|[Hn|Hn]] & _) _]; cbn [fmap option_fmap option_map compose] in Hr;
        injection Hr as Hr; rewrite Hr in Hn; discriminate.
    + exists w', b, rest, w1, s. split; [reflexivity|]. split; [exact Ht|]. split; [exact Hs|exact Hin].
  - pose proof login_runs as Hr. rewrite E in Hr. discriminate.
Defined.

Lemma naws_roundtrip_witness : ∃ t, read_loop login_nodes login_commands [] crypt_example (naws 255 24) login_world = Some (put_tn t login_world)
  ∧ width t = 255%Z ∧ height t = 24%Z.
Proof.
  destruct (naws_roundtrip login_nodes login_commands [] crypt_example login_world 255 24 []) as (t & E & Hw & Hh & _);
    [lia|lia|reflexivity|reflexivity|reflexivity|].
  rewrite app_nil_r in E. exists t. split; [exact E|]. split; [exact Hw|exact Hh].
Defined.

Lemma fold_lines_roundtrip_witness : ∃ ls e, fold_lines 17 8 (str "Show the versions") = Some (ls ++ [e]) ∧ ls = [str "Show the"].
Proof.
  destruct (fold_lines_roundtrip 8 (str "Show the versions")) as (ls & e & E & _); [lia|].
  exists ls, e. split; [exact E|]. vm_compute in E. destruct ls as [|l [|l2 ls]]; [discriminate|injection E as <- _; reflexivity|].
  injection E as _ _ E. destruct ls; discriminate.
Defined.

Lemma passwords_follow_settings_witness :
  ∃ w', config_password crypt_example [(word "password", str "password"); (word "LINE", str "abc")] login_world = Some (CMD_SUCCESS, w')
    ∧ password_ok crypt_example (whost w') AUTH_NODE (str "abc") = true.
Proof.
  destruct (passwords_follow_settings crypt_example (λ _ _, eq_refl) login_world (word "password", str "password") (word "8", str "8")
    (word "LINE", []) (str "abc")) as (Hp & _); [reflexivity|]. exact Hp.
Defined.

(** A telnet command at the end of a read: its option is taken as a key. *)
Definition echoed (o : option (world buffer)) : option cstring := w ← o; vty_buf_str w.
Example option_split :
  echoed (read_loop login_nodes login_commands [] crypt_example [IAC; WILL; 97]%Z login_world) = Some []
  ∧ echoed (w ← read_loop login_nodes login_commands [] crypt_example [IAC; WILL]%Z login_world;
            read_loop login_nodes login_commands [] crypt_example [97]%Z w) = Some (str "a").
Proof. split; vm_compute; reflexivity. Qed.

(** After three wrong passwords the session is to be closed, but the rest of the
    read is still taken: a fourth password, the right one, is accepted, and
    commands behind it are run. *)
Example closing_session_logs_in :
  let guesses := str "a" ++ newline ++ str "b" ++ newline ++ str "c" ++ newline in
  let at_login := World (vty_new_init 4096) login_host 0 [] in
  (λ w, (status (wsess w), node (wsess w))) <$> read_loop login_nodes login_commands [] crypt_example (code <$> guesses) at_login = Some (VTY_CLOSE, AUTH_NODE)
  ∧ (λ w, (status (wsess w), node (wsess w))) <$> read_loop login_nodes login_commands [] crypt_example (code <$> (guesses ++ str "zebra" ++ newline)) at_login
      = Some (VTY_CLOSE, VIEW_NODE).
Proof. split; vm_compute; reflexivity. Qed.
