(* ===== verification/VtySafe.v ===== *)
(** * The terminal on arbitrary input

    The invariant of a session at a terminal ([session_ok]): the buffers, the
    line, the history and the telnet state are well formed, and the node is one of
    the installed ones.  What the terminal needs of the command interpreter is the
    class [InterpreterLaws]: the lemmas on the terminal are proved against it, and
    [interpreter_ok] discharges it for the interpreter of command.c, for command
    graphs that are well formed and commands that keep the invariant when they
    return, as those of command.c do ([library_keeps]).  [vty_read_safe] puts the
    two together: besides ^D at an empty password prompt, only a line that calls a
    command whose own function fails ([line_fails]) is unsafe. *)
From Stdlib Require Import Ascii String.
From stdpp Require Import prelude list.
From S2P Require Import Prelude Vector CString FrrStr Buffer Vty Prefix PrefixText TokenMatch CommandMatch Command VtyRead.
Set Default Goal Selector "!".
#[local] Opaque VTY_BUFSIZ.

(** ** The invariant *)

Section invariant.
Context {B : Type} `{OutBuffer B}.
Implicit Types (v : vty B) (w : world B).

Record term_ok v : Prop := TermOk {
  t_type : vtype (out v) = VTY_TERM;
  t_filter : filter_re (out v) = None;
  t_frame : frame_pos (out v) = 0;
  t_obuf : ob_ok (obuf (out v));
  t_lbuf : ob_ok (lbuf (out v));
  t_line : ∃ l r, rep (ed v) l r;
  t_ring : ∃ recent k, ring (hs v) recent k;
  t_sb : length (sb_buf (tn v)) = TELNET_NAWS_SB_LEN ∧ (0 ≤ sb_len (tn v))%Z }.

(** The nodes that have a prompt, with those above them. *)
Context (valid : Z → Prop).
Definition nodes_valid (h : host) : Prop :=
  (∀ n, valid n → is_Some (cmd_prompt h n)) ∧ valid VIEW_NODE ∧ valid ENABLE_NODE ∧ valid CONFIG_NODE
  ∧ (∀ n, valid n → (n = AUTH_NODE ∨ n = VIEW_NODE ∨ n = AUTH_ENABLE_NODE ∨ n = ENABLE_NODE ∨ n = CONFIG_NODE ∨ n = VTY_NODE)
       ∨ ∃ p, node_parent h n = Some p ∧ valid p)
  ∧ (∀ n, valid n → (CONFIG_NODE < n)%Z → ∃ p, node_parent h n = Some p ∧ valid p ∧ (CONFIG_NODE ≤ p < n)%Z).
Definition session_ok w : Prop := term_ok (wvty w) ∧ nodes_valid (whost w) ∧ valid (node (wsess w)).

(** An operation on a terminal that succeeds and keeps the invariant and the session. *)
Definition fine v (op : vty B → option (vty B)) : Prop := ∃ v', op v = Some v' ∧ term_ok v' ∧ ss v' = ss v.

Lemma fine_edits v v' l r bs : term_ok v → edits v v' l r bs → term_ok v' ∧ ss v' = ss v.
Proof.
  intros [Ht Hf Hfr Ho Hlb Hl Hr Hs] (He & Ho' & _ & ->). split; [|done]. split; try done. by exists l, r.
Qed.

Lemma fine_out v p : term_ok v → ∃ b, vty_out v p = Some (set_out (put_obuf (out v) b) v) ∧ term_ok (set_out (put_obuf (out v) b) v).
Proof.
  intros Hv. pose proof Hv as [Ht Hf Hfr Ho Hlb Hl Hr Hs]. unfold vty_out, vty_out_o. rewrite decide_False by lia. ostep. unfold out_body. rewrite Hf. ostep.
  unfold print_out. rewrite Ht. destruct (ob_put_crlf_spec (obuf (out v)) (code <$> p) Ho) as (b & -> & Hb & _). ostep. ostep. exists b. split; [done|]. by split.
Qed.

Lemma term_set_ss v s : term_ok v → term_ok (set_ss s v).
Proof. intros []. by split. Qed.
Lemma term_set_hs v h recent k : term_ok v → ring h recent k → term_ok (set_hs h v).
Proof. intros [] Hr. split; try done. eauto. Qed.
Lemma term_set_ed v e l r : term_ok v → rep e l r → term_ok (set_ed e v).
Proof. intros [] Hr. split; try done. eauto. Qed.
Lemma term_set_tn v t : term_ok v → length (sb_buf t) = TELNET_NAWS_SB_LEN → (0 ≤ sb_len t)%Z → term_ok (set_tn t v).
Proof. intros [] ? ?. by split. Qed.

Lemma term_shown v : term_ok v → ∃ l r, shown v l r.
Proof. intros [? ? ? ? ? (l & r & Hl) ? ?]. by exists l, r. Qed.

(** ** Editing *)

Lemma fine_key (h : host) v k : term_ok v → (k = KDelete → len (ed v) ≠ 0) → (∀ c, k = KInsert c → c ≠ 0 ∧ c ≠ BS)%Z → fine v (key_op h k).
Proof.
  intros Hv Hd Hi. destruct (term_shown v Hv) as (l & r & Hs).
  destruct (key_does h k v (l, r) Hs) as (v' & bs & E & He & _).
  - destruct k; try done; [by apply Hi|]. intros [= -> ->]. destruct (shown_cp v [] [] Hs) as [_ Hl]. by apply Hd.
  - exists v'. split; [done|]. by eapply fine_edits.
Qed.

Lemma fine_history v : term_ok v → fine v vty_previous_line ∧ fine v vty_next_line ∧ fine v vty_hist_add.
Proof.
  intros Hv. destruct (term_shown v Hv) as (l & r & Hs). pose proof Hv as [_ _ _ _ _ _ (recent & k & Hr) _]. pose proof Hr as [_ Ri Rb Rh _ _ _].
  assert (∀ i j k', i = at_ring (hindex (hs v)) j → j < VTY_MAXHIST → k' < VTY_MAXHIST → i = back_slot (hindex (hs v)) k' →
    fine v (λ v, x ← hist (hs v) !! i; match x with None => Some v | Some _ => vty_history_print (set_hs (set_hp i (hs v)) v) end)) as Hshow.
  { intros i j k' H1 H2 H3 H4. pose proof (show_line host0 v l r recent k i j k' Hs Hr H1 H2 H3 H4) as H5. destruct (recent !! j) as [s|].
    - destruct H5 as (v' & bs & E & He & _ & Hr'). exists v'. split; [exact E|].
      assert (term_ok (set_hs (set_hp i (hs v)) v)) as Hv1.
      { eapply (term_set_hs _ _ recent k'); [done|]. assert (hs v' = set_hp i (hs v)) as <- by (by destruct He as (_ & _ & _ & ->)). done. }
      destruct (fine_edits _ _ _ _ _ Hv1 He) as [? ?]. done.
    - exists v. split; [exact H5|]. done. }
  destruct (prev_index _ _ Ri Rb) as [P1 P2]. split_and!.
  - pose proof (Hshow (try_prev (hp (hs v))) k (next_slot k)) as H1. rewrite Rh in H1. specialize (H1 P1 Rb (proj2 (ring_here k Rb)) P2).
    destruct H1 as (v' & E & H1). exists v'. split; [|done]. unfold vty_previous_line. cbv zeta. by rewrite Rh.
  - unfold fine, vty_next_line. rewrite Rh. destruct (decide (k = 0)) as [->|Hk].
    + exists v. rewrite decide_True by (by apply next_here). done.
    + rewrite decide_False by (by rewrite next_here). destruct (next_index _ _ Ri Rb) as [?|[Q1 Q2]]; [done|].
      exact (Hshow _ (newer k) (k - 1) Q1 ltac:(unfold newer; destruct (decide (k = 1)); lia) ltac:(lia) Q2).
  - assert (length l + length r < VTY_BUFSIZ) as Hlen.
    { destruct Hs as [(junk & Hb & Hl & _) _]. rewrite Hb, !length_app in Hl. cbn [length] in Hl. lia. }
    destruct (hist_add_spec v l r recent k Hs Hr Hlen) as (h' & E & Hr'). exists (set_hs h' v). split; [done|]. split; [by eapply term_set_hs|done].
Qed.

Lemma fine_redraw v : term_ok v → fine v vty_redraw_line.
Proof.
  intros Hv. destruct (term_shown v Hv) as (l & r & Hs). destruct (redraw_does v l r Hs) as (v' & E & He). exists v'. split; [done|]. by eapply fine_edits.
Qed.

Lemma fine_pure_word v : term_ok v → fine v vty_backward_pure_word.
Proof.
  intros Hv. destruct (term_shown v Hv) as (l & r & Hs). destruct (backward_over false v l r Hs) as (v' & bs & E & He & _). exists v'. split; [exact E|]. by eapply fine_edits.
Qed.

(** Completing a word: the text replaces what follows the cursor. *)
Lemma fine_insert_word v s : term_ok v → line_ok s → fine v (λ v, vty_insert_word_overwrite v s).
Proof.
  intros Hv Hsok. destruct (term_shown v Hv) as (l & r & Hs). pose proof Hs as [(junk & Hb & Hlen & Hcp & Hl & Hok) Ho].
  assert (length l + length r < VTY_BUFSIZ) as Hll by (rewrite Hb, !length_app in Hlen; cbn [length] in Hlen; lia).
  unfold fine, vty_insert_word_overwrite. rewrite decide_False by lia. unfold minus. rewrite decide_True by lia. ostep.
  set (n := length s `min` (VTY_BUFSIZ - (cp (ed v) + 1))). set (s' := take n s).
  assert (length s' = n) as Hs' by (subst s'; rewrite length_take; lia). assert (n ≤ VTY_BUFSIZ - (length l + 1)) as Hn by (subst n; lia).
  rewrite Hb. set (t := r ++ 0%Z :: junk). assert (length l + length t = VTY_BUFSIZ) as Ht by (rewrite <- Hlen, Hb, length_app; done).
  assert (blit (l ++ t) (cp (ed v)) s' = Some (l ++ s' ++ drop n t)) as ->.
  { rewrite <- (take_drop n t) at 1. apply blit_mid; [done|]. rewrite length_take. lia. }
  ostep. set (len' := (cp (ed v) + n) `max` len (ed v)).
  assert (∃ junk', write (l ++ s' ++ drop n t) len' 0%Z = Some (l ++ s' ++ drop n r ++ 0%Z :: junk')) as [junk' Ew].
  { subst len' t. rewrite Hcp, Hl. destruct (decide (n ≤ length r)) as [Hnr|Hnr].
    - exists junk. rewrite drop_app_le by done. rewrite !app_assoc. rewrite Nat.max_r by lia.
      rewrite write_mid; [by rewrite <- !app_assoc|]. rewrite !length_app, length_drop. lia.
    - rewrite Nat.max_l by lia. rewrite drop_app_ge by lia. rewrite (drop_ge r) by lia.
      destruct (drop (n - length r) (0%Z :: junk)) as [|x u] eqn:Ed.
      + apply (f_equal length) in Ed. rewrite length_drop in Ed. cbn [length] in Ed. rewrite length_app in Ht. cbn [length] in Ht. lia.
      + exists u. rewrite app_assoc, write_mid by (rewrite length_app; lia). by rewrite <- app_assoc. }
  rewrite Ew. ostep. destruct (set_write_edits v (Edit (l ++ s' ++ drop n r ++ 0%Z :: junk') (cp (ed v) + n) len') (l ++ s') (drop n r) s') as (v' & E & He).
  - exists junk'. cbn [buf cp len]. split_and!.
    + by rewrite <- app_assoc.
    + unfold write in Ew. case_decide; [|done]. injection Ew as <-. rewrite length_insert, !length_app, length_drop, Hs'. lia.
    + rewrite length_app. lia.
    + subst len'. rewrite length_app, length_drop. lia.
    + rewrite line_ok_app in Hok. rewrite !line_ok_app. destruct Hok as [? ?]. split_and!; [done|by apply Forall_take|by apply Forall_drop].
  - done.
  - exists v'. split; [exact E|]. by eapply fine_edits.
Qed.
End invariant.

(** ** What the terminal needs of the interpreter *)

(** A line as words, perhaps with an empty one at the end. *)
Definition line_vec (vline : vector cstring) : Prop :=
  wf vline ∧ 0 < vector_active vline ∧ length (Vector.contents vline) ≤ VTY_BUFSIZ + 1
  ∧ ∃ ws, Vector.contents vline = Some <$> ws ∨ Vector.contents vline = (Some <$> ws) ++ [None].
Definition visible (n : Z) : Prop := n ≠ AUTH_NODE ∧ n ≠ AUTH_ENABLE_NODE.
(** A text that can be put into the line. *)
Definition text_ok (m : cstring) : Prop := line_ok (map code m).

(** ** Commands that fail *)

Section failing.
Context {B : Type} `{OutBuffer B} `{Inet} (cmdvec : list (option cmd_node)) (elements : list (cmd_element B)).
Implicit Types (w : world B).

(** The command the session's node has for the line, with its arguments, and the
    world it is called in. *)
Definition runs (vline : vector cstring) w (e : cmd_element B) (args : list arg) (w0 : world B) : Prop :=
  ∃ g el, cmd_node_graph cmdvec (node (wsess w)) = Some g ∧ command_match g (Vector.contents vline) = Some (MATCHER_OK, Some (args, el))
    ∧ elements !! el = Some e ∧ daemon e = false ∧ w0 = (if config (wsess w) then World (wvty w) (whost w) 0 (randoms w) else w).

(** The words of the line, or those behind [do], call a command that fails. *)
Definition vec_fails (valid : Z → Prop) (vline : vector cstring) : Prop :=
  ∃ w1 e args w0, session_ok valid w1 ∧ visible (node (wsess w1)) ∧ runs vline w1 e args w0 ∧ func e args w0 = None.
Definition line_fails (valid : Z → Prop) (s : cstring) : Prop :=
  ∃ v vl, cmd_make_strvec (Some s) = Some (Some v) ∧ (vl = v ∨ shifted_vline 1 v = Some vl) ∧ vec_fails valid vl.
End failing.

Class InterpreterLaws {B} `{OutBuffer B} `{Inet} (cmdvec : list (option cmd_node)) (elements : list (cmd_element B))
    (varhandlers : list cmd_variable_handler) (valid : Z → Prop) := {
  il_execute w s : session_ok valid w → visible (node (wsess w)) → length s < VTY_BUFSIZ →
    (∃ ret w', cmd_execute cmdvec elements w s false = Some (ret, w') ∧ session_ok valid w') ∨ line_fails cmdvec elements valid s;
  il_complete vline n : line_vec vline → valid n → visible n →
    ∃ st r, cmd_complete_command cmdvec varhandlers vline n = Some (st, r)
      ∧ (st = CMD_ERR_NO_MATCH ∨ st = CMD_COMPLETE_FULL_MATCH ∧ (∃ m, r = Some [Some m] ∧ text_ok m)
         ∨ st = CMD_COMPLETE_LIST_MATCH ∧ is_Some r);
  il_describe vline n : line_vec vline → valid n → visible n →
    ∃ st r, cmd_describe_command cmdvec vline n = Some (st, r) ∧ (st = CMD_ERR_NO_MATCH ∨ is_Some r);
  il_variable token ref : varying (type token) = true →
    ∃ vc, cmd_variable_complete varhandlers token ref (vector_init VECTOR_MIN_SIZE) = Some vc
      ∧ (0 < vector_active vc → ∀ cols, is_Some (cmd_variable_comp2str vc cols)) }.

Section safe.
Context {B : Type} `{OutBuffer B} `{Inet}.
Context (cmdvec : list (option cmd_node)) (elements : list (cmd_element B)) (varhandlers : list cmd_variable_handler)
  (crypt : cstring → cstring → cstring) (valid : Z → Prop).
Implicit Types (v : vty B) (w : world B).

(** The result is there, in order, and at the same place. *)
Definition kept w (o : option (world B)) : Prop :=
  ∃ w', o = Some w' ∧ session_ok valid w' ∧ wsess w' = wsess w ∧ whost w' = whost w.

Lemma kept_refl w : session_ok valid w → kept w (Some w).
Proof. intros ?. by exists w. Qed.

Lemma kept_bind w o (g : world B → option (world B)) : kept w o →
  (∀ w1, session_ok valid w1 → wsess w1 = wsess w → whost w1 = whost w → kept w1 (g w1)) → kept w (w1 ← o; g w1).
Proof.
  intros (w1 & -> & H1 & H2 & H3) Hg. ostep. destruct (Hg w1 H1 H2 H3) as (w2 & -> & H4 & H5 & H6). exists w2. split_and!; try done; congruence.
Qed.

Lemma kept_on w op : session_ok valid w → fine (wvty w) op → kept w (on_vty w op).
Proof.
  intros (Ht & Hn & Hv) (v' & E & Ht' & Hs). unfold on_vty. rewrite E. ostep. exists (set_vty v' w). split; [done|].
  unfold session_ok, wsess in *. cbn. rewrite Hs. done.
Qed.

Lemma kept_say w p : session_ok valid w → kept w (say w p).
Proof.
  intros Hw. destruct (fine_out (wvty w) p) as (b & E & Hb); [by destruct Hw|]. apply (kept_on w (λ v, vty_out v p)); [done|]. eexists. split; [exact E|done].
Qed.

Lemma fine_prompt h v : term_ok v → is_Some (cmd_prompt h (node (ss v))) → fine v (vty_prompt h).
Proof.
  intros Hv [p Hp]. unfold fine, vty_prompt. rewrite decide_True by (by destruct Hv). rewrite Hp. ostep.
  destruct (fine_out v (format_s p (name h)) Hv) as (b & E & Hb). eexists. split; [exact E|done].
Qed.

Lemma kept_prompt w : session_ok valid w → kept w (prompt w).
Proof. intros Hw. apply kept_on; [done|]. destruct Hw as (Ht & (Hp & _) & Hv). apply fine_prompt; [done|by apply Hp]. Qed.

Lemma kept_redraw w : session_ok valid w → kept w (prompt_redraw w).
Proof.
  intros Hw. apply kept_bind; [by apply kept_prompt|]. intros w1 Hw1 _ _. apply kept_on; [done|]. apply fine_redraw. by destruct Hw1.
Qed.

(** ** Leaving nodes *)

Lemma rep_home v : term_ok v → term_ok (set_ed (Edit (buf (ed v)) 0 (len (ed v))) v).
Proof.
  intros Hv. pose proof Hv as [_ _ _ _ _ (l & r & Hr) _ _]. eapply (term_set_ed v _ [] (l ++ r)); [done|]. by apply (rep_move _ l r [] (l ++ r)).
Qed.

(** A change of the session's state, then the prompt. *)
Lemma move_prompt w s p : session_ok valid w → valid (node s) →
  ∃ v1 v2, vty_out (wvty w) p = Some v1 ∧ ss v1 = wsess w ∧ hs v1 = hs (wvty w) ∧ ed v1 = ed (wvty w)
    ∧ vty_prompt (whost w) (set_ss s v1) = Some v2 ∧ term_ok v2 ∧ ss v2 = s ∧ hs v2 = hs (wvty w) ∧ ed v2 = ed (wvty w).
Proof.
  intros (Ht & (Hp & _) & _) Hs. destruct (fine_out (wvty w) p Ht) as (b & E & Hb). set (v1 := set_out (put_obuf (out (wvty w)) b) (wvty w)) in *.
  exists v1. destruct (Hp (node s) Hs) as [q Hq]. unfold vty_prompt. cbn [out set_ss ss]. rewrite decide_True by (by destruct Hb). rewrite Hq. 
  destruct (fine_out (set_ss s v1) (format_s q (name (whost w)))) as (b2 & E2 & Hb2); [by apply term_set_ss|].
  eexists. split; [done|]. split; [done|]. split; [done|]. split; [done|]. rewrite obind_Some. split; [exact E2|]. split; [exact Hb2|]. done.
Qed.

Lemma exit_ok w : session_ok valid w → visible (node (wsess w)) → ∃ s, cmd_exit (whost w) (wsess w) = Some s ∧ valid (node s).
Proof.
  intros (_ & (_ & Hv & He & Hc & Hpar & _) & Hn) [Hn1 Hn2]. unfold cmd_exit.
  assert (∃ s, (if ((node (wsess w) =? VIEW_NODE) || (node (wsess w) =? ENABLE_NODE))%Z then Some (set_status VTY_CLOSE (wsess w))
       else if (node (wsess w) =? CONFIG_NODE)%Z then Some (set_config false (set_node ENABLE_NODE (wsess w)))
       else if (node (wsess w) =? VTY_NODE)%Z then Some (set_node CONFIG_NODE (wsess w))
       else p ← node_parent (whost w) (node (wsess w)); Some (set_node p (wsess w))) = Some s ∧ valid (node s)) as (s & -> & Hs).
  { destruct (Z.eqb_spec (node (wsess w)) VIEW_NODE); [by eexists|]. destruct (Z.eqb_spec (node (wsess w)) ENABLE_NODE); [by eexists|]. cbn [orb].
    destruct (Z.eqb_spec (node (wsess w)) CONFIG_NODE); [by eexists|]. destruct (Z.eqb_spec (node (wsess w)) VTY_NODE); [by eexists|].
    destruct (Hpar _ Hn) as [Hd|(p & -> & Hp)]; [by destruct Hd as [?|[?|[?|[?|[?|?]]]]]|]. ostep. by eexists. }
  ostep. eexists. split; [reflexivity|]. by destruct (0 <? xpath_index s)%Z.
Qed.

Lemma down_level_ok w : session_ok valid w → visible (node (wsess w)) → ∃ w', on_vty w (vty_down_level (whost w)) = Some w' ∧ session_ok valid w'.
Proof.
  intros Hw Hvis. destruct (exit_ok w Hw Hvis) as (s & Es & Hs). destruct (move_prompt w s newline Hw Hs) as (v1 & v2 & E1 & Hss & _ & _ & E2 & Ht & Hs2 & _).
  unfold on_vty, vty_down_level. rewrite E1. ostep. rewrite Hss, Es. ostep. rewrite E2. ostep. ostep. eexists. split; [reflexivity|].
  destruct Hw as (_ & Hn & _). split; [by apply rep_home|]. split; [done|]. unfold wsess. cbn. by rewrite Hs2.
Qed.

Lemma leave_valid w : session_ok valid w → valid (node (leave_config (wsess w))).
Proof. intros (_ & (_ & _ & He & _) & Hn). unfold leave_config. by destruct (config (wsess w)). Qed.

Lemma end_config_ok w : session_ok valid w → ∃ w', on_vty w (vty_end_config (whost w)) = Some w' ∧ session_ok valid w'.
Proof.
  intros Hw. destruct (move_prompt w (leave_config (wsess w)) newline Hw (leave_valid w Hw)) as (v1 & v2 & E1 & Hss & _ & _ & E2 & Ht & Hs2 & _).
  unfold on_vty, vty_end_config. rewrite E1. ostep. rewrite Hss. rewrite E2. ostep. ostep. eexists. split; [reflexivity|].
  pose proof (leave_valid w Hw). destruct Hw as (_ & Hn & _). split; [by apply rep_home|]. split; [done|]. unfold wsess. cbn. by rewrite Hs2.
Qed.

Lemma clear_fine v : term_ok v → ∃ e, vty_clear_buf (set_ed (Edit (buf (ed v)) 0 0) v) = Some (set_ed e v) ∧ term_ok (set_ed e v).
Proof.
  intros Hv. pose proof Hv as [_ _ _ _ _ (l & r & junk & _ & Hlen & _) _ _]. unfold vty_clear_buf. cbn [ed set_ed buf cp len].
  assert (blit (buf (ed v)) 0 (replicate VTY_BUFSIZ 0%Z) = Some (replicate VTY_BUFSIZ 0%Z)) as ->.
  { unfold blit. rewrite length_replicate. rewrite decide_True by lia. rewrite drop_ge by lia. by rewrite app_nil_r. }
  ostep. eexists. split; [reflexivity|]. apply (term_set_ed v _ [] []); [done|]. exists (replicate (VTY_BUFSIZ - 1) 0%Z).
  split; [exact eq_refl|]. split; [apply length_replicate|]. split_and!; [exact eq_refl|exact eq_refl|constructor].
Qed.

Lemma stop_input_ok w : session_ok valid w → ∃ w', on_vty w (vty_stop_input (whost w)) = Some w' ∧ session_ok valid w'.
Proof.
  intros Hw. pose proof Hw as (Ht & Hn & Hv). destruct (clear_fine (wvty w) Ht) as (e & Ec & Htc). unfold on_vty, vty_stop_input. rewrite Ec. ostep.
  destruct (move_prompt (set_vty (set_ed e (wvty w)) w) (leave_config (wsess w)) newline) as (v1 & v2 & E1 & Hss & _ & _ & E2 & Ht2 & Hs2 & Hh & _).
  { done. }
  { by apply leave_valid. }
  cbn [wvty set_vty] in E1. rewrite E1. ostep. change (wsess (set_vty (set_ed e (wvty w)) w)) with (wsess w) in Hss. rewrite Hss. cbn [whost set_vty] in E2. rewrite E2. ostep. ostep.
  eexists. split; [reflexivity|]. cbn in Hh. pose proof Ht as [_ _ _ _ _ _ (recent & k & Hr) _]. split; [|split; [done|]].
  - cbn [wvty set_vty]. rewrite Hh. eapply (term_set_hs v2 _ recent 0); [done|]. pose proof Hr as [R1 R2 R3 R4 R5 R6 R7]. split; cbn [hist hp hindex set_hp]; try done.
    + unfold VTY_MAXHIST. lia.
    + by destruct (ring_here _ R2) as [-> _].
  - unfold wsess. cbn. rewrite Hs2. by apply leave_valid.
Qed.

(** ** Executing a line *)

Lemma buf_str w : session_ok valid w → ∃ s, vty_buf_str w = Some s ∧ length s < VTY_BUFSIZ ∧ (s ≠ [] → len (ed (wvty w)) ≠ 0).
Proof.
  intros (Ht & _). destruct (t_line _ Ht) as (l & r & junk & Hb & Hlen & Hcp & Hl & Hok). exists (map chr (l ++ r)). unfold vty_buf_str.
  rewrite Hb, app_assoc, zstr_app by done. ostep. split; [done|]. rewrite length_map, length_app.
  split; [rewrite Hb, !length_app in Hlen; cbn [length] in Hlen; lia|]. intros Hne Hz. apply Hne. rewrite Hl in Hz. destruct l, r; cbn in *; lia || done.
Qed.

Lemma auth_ok w s : session_ok valid w → hidden (wsess w) = true → ∃ w', vty_auth crypt w s = Some w' ∧ session_ok valid w'.
Proof.
  intros Hw Hh. pose proof Hw as (Ht & Hn & Hv). pose proof Hn as (_ & Hview & Hen & _).
  assert (∀ f, session_ok valid (set_sess (set_fail f (wsess w)) w)) as Hf.
  { intros f. split; [by apply term_set_ss|]. done. }
  unfold vty_auth. destruct (password_ok crypt (whost w) (node (wsess w)) s).
  - eexists. split; [reflexivity|]. split; [by apply term_set_ss|]. split; [done|]. cbn. unfold next_node.
    unfold hidden in Hh. destruct (node (wsess w) =? AUTH_NODE)%Z; [destruct (advanced _); [destruct (enable_pw _)|]; done|].
    cbn [orb] in Hh. by rewrite Hh.
  - cbv zeta. destruct (3 <=? fail (wsess w) + 1)%Z; [|by eexists]. destruct (node (wsess w) =? AUTH_NODE)%Z.
    + destruct (kept_say _ (ln "% Bad passwords, too many failures!") (Hf (fail (wsess w) + 1)%Z)) as (w1 & -> & Hw1 & Hs1 & _). ostep. eexists. split; [reflexivity|].
      destruct Hw1 as (? & ? & ?). split; [by apply term_set_ss|]. done.
    + destruct (kept_say _ (ln "% Bad enable passwords, too many failures!") (Hf 0%Z)) as (w1 & E1 & Hw1 & Hs1 & _).
      change (set_sess (set_fail 0 (wsess (set_sess (set_fail (fail (wsess w) + 1) (wsess w)) w))) (set_sess (set_fail (fail (wsess w) + 1) (wsess w)) w))
        with (set_sess (set_fail 0 (wsess w)) w). rewrite E1. ostep. eexists. split; [reflexivity|].
      destruct Hw1 as (? & ? & ?). split; [by apply term_set_ss|]. done.
Qed.

Context `{Laws : !InterpreterLaws cmdvec elements varhandlers valid}.

Lemma hidden_visible s : hidden s = false → visible (node s).
Proof. unfold hidden, visible. intros [H1 H2]%orb_false_iff. lia. Qed.

Lemma command_ok w s : session_ok valid w → hidden (wsess w) = false → length s < VTY_BUFSIZ →
  (∃ ret w', vty_command cmdvec elements w s = Some (ret, w') ∧ session_ok valid w') ∨ line_fails cmdvec elements valid s.
Proof.
  intros Hw Hh Hl. unfold vty_command. destruct (il_execute w s Hw (hidden_visible _ Hh) Hl) as [(ret & w1 & -> & Hw1)|Hf]; [left|by right]. ostep.
  assert (∀ o, kept w1 o → ∃ ret0 w', (w0 ← o; Some (ret, w0)) = Some (ret0, w') ∧ session_ok valid w') as Hk.
  { intros o (w2 & -> & Hw2 & _). ostep. eauto. }
  apply Hk. destruct (ret =? CMD_WARNING)%Z; [destruct (decide _); [by apply kept_say|by apply kept_refl]|].
  destruct (ret =? CMD_ERR_AMBIGUOUS)%Z; [by apply kept_say|]. destruct (ret =? CMD_ERR_NO_MATCH)%Z.
  { destruct (buf_str w1 Hw1) as (s1 & -> & _). ostep. by apply kept_say. }
  destruct (ret =? CMD_ERR_INCOMPLETE)%Z; [by apply kept_say|by apply kept_refl].
Qed.

(** The line in the buffer calls a command that fails. *)
Definition entered_fails w : Prop :=
  hidden (wsess w) = false ∧ ∃ s, vty_buf_str w = Some s ∧ line_fails cmdvec elements valid s.

Lemma execute_ok w : session_ok valid w →
  (∃ ret w', vty_execute cmdvec elements crypt w = Some (ret, w') ∧ session_ok valid w') ∨ entered_fails w.
Proof.
  intros Hw. unfold vty_execute. destruct (buf_str w Hw) as (s & Es & Hl & _). rewrite Es. ostep.
  assert ((∃ ret w1, (if hidden (wsess w) then w ← vty_auth crypt w s; Some (CMD_SUCCESS, w)
     else '(ret, w) ← vty_command cmdvec elements w s;
          w ← (if decide (vtype (out (wvty w)) = VTY_TERM) then on_vty w vty_hist_add else Some w);
          Some (ret, w)) = Some (ret, w1) ∧ session_ok valid w1) ∨ entered_fails w) as [(ret & w1 & -> & Hw1)|?]; [|left|by right].
  { destruct (hidden (wsess w)) eqn:Hh.
    - left. destruct (auth_ok w s Hw Hh) as (w1 & -> & Hw1). ostep. eauto.
    - destruct (command_ok w s Hw Hh Hl) as [(ret & w1 & -> & Hw1)|Hf]; [left|right; split; [done|]; by exists s]. ostep. rewrite decide_True by (by destruct Hw1 as [[] _]).
      destruct (kept_on w1 vty_hist_add Hw1) as (w2 & -> & Hw2 & _); [by apply fine_history; destruct Hw1|]. ostep. eauto. }
  ostep. destruct (clear_fine (wvty w1)) as (e & Ec & Htc); [by destruct Hw1|].
  destruct (kept_on w1 (λ v, vty_clear_buf (set_ed (Edit (buf (ed v)) 0 0) v)) Hw1) as (w2 & -> & Hw2 & _); [by eexists; split; [exact Ec|]|]. ostep.
  destruct (decide _); [|by ostep; eauto]. destruct (kept_prompt w2 Hw2) as (w3 & -> & Hw3 & _). ostep. eauto.
Qed.

(** ** Completion and help *)

Lemma words_nonempty c t : isspace c = false → words (c :: t) ≠ [].
Proof.
  intros Hc. assert (c ∉ separators) as Hsep.
  { intros Hin. unfold separators in Hin. repeat (apply elem_of_cons in Hin as [->|Hin]; [done|]). by apply not_elem_of_nil in Hin. }
  unfold words. cbn [fields]. rewrite decide_False by done. destruct (fields separators t); by rewrite filter_cons_True.
Qed.

Lemma skip_space_head s c t : skip_space s = c :: t → isspace c = false.
Proof. induction s as [|d s IH]; [done|]. cbn. destruct (isspace d) eqn:E; [done|]. by intros [= <- _]. Qed.

Lemma line_of_words s : length s < VTY_BUFSIZ → cmd_make_strvec (Some s) = Some None
  ∨ s ≠ [] ∧ ∃ (v : vector cstring) (ws : list cstring), cmd_make_strvec (Some s) = Some (Some v) ∧ wf v ∧ Vector.contents v = Some <$> ws ∧ ws ≠ [] ∧ length ws ≤ VTY_BUFSIZ.
Proof.
  intros Hl. destruct (skip_space s) as [|c t] eqn:Es; [left; apply make_strvec_comment; unfold is_comment; by rewrite Es|].
  destruct (decide (c = "!"%char ∨ c = "#"%char)) as [Hc|Hc]; [left; apply make_strvec_comment; unfold is_comment; by rewrite Es|]. right.
  split; [by intros ->|]. destruct (make_strvec_words s) as (v & E & Hwf & Hv); [unfold is_comment; by rewrite Es| |].
  { assert (Z.of_nat VTY_BUFSIZ = 4096)%Z by (vm_compute; reflexivity). lia. }
  exists v, (words (skip_space s)). split; [done|]. split; [done|]. split; [done|]. rewrite Es. split; [by apply words_nonempty; eapply skip_space_head|].
  unfold words. etrans; [apply length_filter|]. etrans; [apply fields_length|]. rewrite <- Es.
  assert (length (skip_space s) ≤ length s) by (clear; induction s as [|d s IH]; [done|]; cbn; destruct (isspace d); cbn; lia). lia.
Qed.

Lemma vec_lines (v : vector cstring) (ws : list cstring) : wf v → Vector.contents v = Some <$> ws → ws ≠ [] → length ws ≤ VTY_BUFSIZ →
  line_vec v ∧ ∃ v' : vector cstring, (∃ i, vector_set v None = Some (v', i)) ∧ line_vec v'.
Proof.
  intros Hwf Hc Hne Hl. destruct (wf_inv v Hwf) as (l & n & -> & Hf). rewrite contents_mkv in Hc. subst l. assert (0 < length ws) as Hpos by (destruct ws; [done|cbn; lia]). split.
  - split; [done|]. split; [cbn; by rewrite length_fmap|]. rewrite contents_mkv, length_fmap. split; [lia|]. eauto.
  - destruct (vector_push_any ws n None Hf) as (n' & E & Hf').
    { assert (Z.of_nat VTY_BUFSIZ = 4096)%Z by (vm_compute; reflexivity). lia. }
    exists (mkv ((Some <$> ws) ++ [None]) n'). split; [eauto|]. split; [by apply wf_mkv|]. split; [cbn; rewrite length_app; cbn; lia|].
    rewrite contents_mkv, length_app, length_fmap. cbn [length]. split; [lia|]. eauto.
Qed.

Lemma space_ok w : session_ok valid w → len (ed (wvty w)) ≠ 0 → is_Some (ends_with_space w).
Proof.
  intros (Ht & _) Hl. destruct (t_line _ Ht) as (l & r & junk & Hb & Hlen & Hcp & Hlr & Hok). unfold ends_with_space, minus. rewrite decide_True by lia. ostep.
  assert (is_Some (buf (ed (wvty w)) !! (len (ed (wvty w)) - 1))) as [c ->]; [|by ostep; eexists].
  apply lookup_lt_is_Some_2. rewrite Hlen, Hlr. rewrite Hb, !length_app in Hlen. cbn [length] in Hlen. lia.
Qed.

Lemma list_matched_ok l : ∀ i w, session_ok valid w → kept w (list_matched i l w).
Proof.
  induction l as [|[m|] l IH]; intros i w Hw; cbn [list_matched]; [by apply kept_refl| |by apply kept_refl].
  apply kept_bind; [destruct (decide _); [by apply kept_say|by apply kept_refl]|]. intros w1 Hw1 _ _.
  apply kept_bind; [by apply kept_say|]. intros w2 Hw2 _ _. by apply IH.
Qed.

Lemma complete_ok w : session_ok valid w → kept w (vty_complete_command cmdvec varhandlers w).
Proof.
  intros Hw. unfold vty_complete_command. destruct (hidden (wsess w)) eqn:Hh; [by apply kept_refl|].
  destruct (buf_str w Hw) as (s & -> & Hl & Hne). ostep. destruct (line_of_words s Hl) as [->|(Hs & v & ws & -> & Hwf & Hc & Hws & Hwl)]; [ostep; by apply kept_refl|]. ostep.
  destruct (space_ok w Hw (Hne Hs)) as [sp ->]. ostep. destruct (vec_lines v ws Hwf Hc Hws Hwl) as (Hv1 & v' & (i & Ev') & Hv2).
  assert (∃ vl, (if sp then '(vline, _) ← vector_set v None; Some vline else Some v) = Some vl ∧ line_vec vl) as (vl & -> & Hvl).
  { destruct sp; [rewrite Ev'; ostep|]; eauto. }
  ostep. destruct (il_complete vl (node (wsess w)) Hvl) as (st & r & -> & Hst); [by destruct Hw as (_ & _ & ?)|by apply hidden_visible|]. ostep.
  apply kept_bind; [by apply kept_say|]. intros w1 Hw1 _ _. destruct Hst as [->|[[-> (m & -> & Hm)]|[-> [l ->]]]]; cbn [Z.eqb].
  - by apply kept_redraw.
  - change (CMD_COMPLETE_FULL_MATCH =? CMD_ERR_AMBIGUOUS)%Z with false. change (CMD_COMPLETE_FULL_MATCH =? CMD_ERR_NO_MATCH)%Z with false.
    change (CMD_COMPLETE_FULL_MATCH =? CMD_COMPLETE_FULL_MATCH)%Z with true. cbv iota. ostep.
    apply kept_bind; [by apply kept_redraw|]. intros w2 Hw2 _ _. apply kept_bind; [by apply kept_on; [|apply fine_pure_word; destruct Hw2]|]. intros w3 Hw3 _ _.
    apply kept_bind; [by apply (kept_on w3 (λ v, vty_insert_word_overwrite v (map code m))); [|apply fine_insert_word; [destruct Hw3|]]|]. intros w4 Hw4 _ _.
    apply (kept_on w4 (key_op (whost w4) (KInsert SP))); [done|]. apply fine_key; [by destruct Hw4|done|]. by intros c [= <-].
  - change (CMD_COMPLETE_LIST_MATCH =? CMD_ERR_AMBIGUOUS)%Z with false. change (CMD_COMPLETE_LIST_MATCH =? CMD_ERR_NO_MATCH)%Z with false.
    change (CMD_COMPLETE_LIST_MATCH =? CMD_COMPLETE_FULL_MATCH)%Z with false. change (CMD_COMPLETE_LIST_MATCH =? CMD_COMPLETE_MATCH)%Z with false.
    change (CMD_COMPLETE_LIST_MATCH =? CMD_COMPLETE_LIST_MATCH)%Z with true. cbv iota. ostep.
    apply kept_bind; [by apply list_matched_ok|]. intros w2 Hw2 _ _. apply kept_bind; [by apply kept_say|]. intros w3 Hw3 _ _. by apply kept_redraw.
Qed.

Lemma say_all_ok ps : ∀ w, session_ok valid w → kept w (say_all w ps).
Proof.
  induction ps as [|p ps IH]; intros w Hw; cbn [say_all]; [by apply kept_refl|]. apply kept_bind; [by apply kept_say|]. intros w1 Hw1 _ _. by apply IH.
Qed.

Lemma fold_lines_some dw d : 0 < dw → ∃ l ls, fold_lines (length d) dw d = Some (l :: ls).
Proof.
  intros Hdw. assert (∀ fuel d, length d ≤ fuel → ∃ l ls, fold_lines fuel dw d = Some (l :: ls)) as Hall; [|by apply Hall]. clear d.
  induction fuel as [|fuel IH]; intros d Hd; cbn [fold_lines]; [rewrite decide_False by lia; eauto|]. destruct (decide (dw < length d)) as [Hlt|]; [|eauto].
  destruct (decide _) as [?|Hpos]; [eauto|]. destruct (IH (drop (last_blank d dw + 1) d)) as (l & ls & ->); [rewrite length_drop; lia|]. ostep. eauto.
Qed.

Lemma describe_one_ok wd dw t w : session_ok valid w → kept w (describe_one wd dw t w).
Proof.
  intros Hw. unfold describe_one, vty_describe_fold. destruct (desc t) as [d|]; [|by apply kept_say]. destruct (_ <=? _)%Z; [by apply kept_say|].
  destruct (decide (Z.to_nat dw = 0)); [by apply kept_say|]. destruct (fold_lines_some (Z.to_nat dw) d) as (l & ls & ->); [lia|]. ostep.
  apply kept_bind; [by apply kept_say|]. intros w1 Hw1 _ _. by apply say_all_ok.
Qed.

Lemma describe_loop_ok l vline wd dw : line_vec vline → ∀ cr w, session_ok valid w →
  ∃ r w', describe_loop varhandlers l vline wd dw cr w = Some (r, w') ∧ session_ok valid w' ∧ wsess w' = wsess w ∧ whost w' = whost w.
Proof.
  intros (Hwf & Hact & _). induction l as [|[t|] l IH]; intros cr w Hw; cbn [describe_loop]; [eauto 10| |by apply IH].
  destruct (decide (text t = [])); [by apply IH|]. destruct (decide (text t = CMD_CR_TEXT)); [by apply IH|].
  destruct (describe_one_ok wd dw t w Hw) as (w1 & -> & Hw1 & Hs1 & Hh1). ostep.
  assert (kept w1 (if varying (type t) then
               i ← minus (vector_active vline) 1; ref ← vector_slot vline i;
               varcomps ← cmd_variable_complete varhandlers t ref (vector_init VECTOR_MIN_SIZE);
               if decide (0 < vector_active varcomps) then ac ← cmd_variable_comp2str varcomps (width (tn (wvty w1))); say w1 (ac ++ newline) else Some w1
             else Some w1)) as (w2 & -> & Hw2 & Hs2 & Hh2).
  { destruct (varying (type t)) eqn:Hv; [|by apply kept_refl]. unfold minus. rewrite decide_True by lia. ostep.
    assert (is_Some (vector_slot vline (vector_active vline - 1))) as [ref ->].
    { destruct (wf_inv vline Hwf) as (lv & m & -> & Hf1 & Hf2 & _). apply lookup_lt_is_Some_2. cbn in *. rewrite pad_length by done. lia. }
    ostep. destruct (il_variable t ref Hv) as (vc & -> & Hvc). ostep. destruct (decide (0 < vector_active vc)) as [Hd|]; [|by apply kept_refl].
    destruct (Hvc Hd (width (tn (wvty w1)))) as [ac ->]. ostep. by apply kept_say. }
  ostep. destruct (IH cr w2 Hw2) as (r & w3 & -> & Hw3 & Hs3 & Hh3). exists r, w3. split_and!; try done; congruence.
Qed.

Lemma describe_ok w : session_ok valid w → hidden (wsess w) = false → kept w (vty_describe_command cmdvec varhandlers w).
Proof.
  intros Hw Hh. unfold vty_describe_command. destruct (buf_str w Hw) as (s & -> & Hl & Hne). ostep.
  assert (∃ vo vl, cmd_make_strvec (Some s) = Some vo ∧ line_vec vl ∧
     match vo with
     | None => '(vline, _) ← vector_set (vector_init 1) None; Some vline
     | Some vline => sp ← ends_with_space w; if (sp : bool) then '(vline, _) ← vector_set vline None; Some vline else Some vline
     end = Some vl) as (vo & vl & -> & Hvl & Evl).
  { destruct (line_of_words s Hl) as [->|(Hs & v & ws & -> & Hwf & Hc & Hws & Hwl)].
    - exists None. change (vector_init 1) with (mkv (Some <$> ([] : list cstring)) 1). destruct (vector_push_any ([] : list cstring) 1 None) as (n' & -> & Hf'); [unfold fits; cbn; lia|done|].
      ostep. eexists. split; [reflexivity|]. split; [|reflexivity]. split; [by apply wf_mkv|]. split; [cbn; lia|]. rewrite contents_mkv. split; [cbn [app fmap list_fmap length]; lia|]. exists []. by right.
    - exists (Some v). destruct (space_ok w Hw (Hne Hs)) as [sp ->]. ostep. destruct (vec_lines v ws Hwf Hc Hws Hwl) as (Hv1 & v' & (i & Ev') & Hv2).
      destruct sp; [rewrite Ev'; ostep|]; eauto. }
  ostep. rewrite Evl. ostep.
  destruct (il_describe vl (node (wsess w)) Hvl) as (st & r & -> & Hst); [by destruct Hw as (_ & _ & ?)|by apply hidden_visible|]. ostep.
  apply kept_bind; [by apply kept_say|]. intros w1 Hw1 _ _. apply kept_bind; [|intros w2 Hw2 _ _; by apply kept_redraw].
  destruct (st =? CMD_ERR_AMBIGUOUS)%Z; [by apply kept_say|]. destruct (st =? CMD_ERR_NO_MATCH)%Z eqn:Est; [by apply kept_say|].
  destruct Hst as [->|[d ->]]; [done|]. ostep.
  destruct (describe_loop_ok (Vector.contents d) vl (describe_width (Vector.contents d)) (u32 (width (tn (wvty w1)) - (Z.of_nat (describe_width (Vector.contents d)) + 6))) Hvl None w1 Hw1)
    as (cr & w2 & -> & Hw2 & Hs2 & Hh2). ostep. destruct cr as [t|]; [|by exists w2].
  destruct (describe_one_ok (describe_width (Vector.contents d)) (u32 (width (tn (wvty w1)) - (Z.of_nat (describe_width (Vector.contents d)) + 6))) t w2 Hw2) as (w3 & -> & Hw3 & Hs3 & Hh3).
  exists w3. split_and!; try done; congruence.
Qed.

(** ** Bytes *)

(** End of file on an empty line at a password prompt. *)
Definition eof_at_prompt (b : Z) w : Prop := b = 4%Z ∧ hidden (wsess w) = true ∧ len (ed (wvty w)) = 0.
(** The end of a line that calls a command that fails. *)
Definition enter_fails (b : Z) w : Prop := (b = 10 ∨ b = 13)%Z ∧ entered_fails w.

Lemma key_safe w b : session_ok valid w →
  (∃ w', normal_key cmdvec elements varhandlers crypt w b = Some w' ∧ session_ok valid w') ∨ eof_at_prompt b w ∨ enter_fails b w.
Proof.
  intros Hw. pose proof Hw as (Ht & _). set (goal := (∃ w', normal_key cmdvec elements varhandlers crypt w b = Some w' ∧ session_ok valid w') ∨ eof_at_prompt b w ∨ enter_fails b w).
  assert (∀ o, kept w o → normal_key cmdvec elements varhandlers crypt w b = o → goal) as Hk.
  { intros o (w' & -> & Hw' & _) E. left. exists w'. by rewrite E. }
  assert (∀ k, k ≠ KDelete → (∀ c, k ≠ KInsert c) → normal_key cmdvec elements varhandlers crypt w b = on_vty w (key_op (whost w) k) → goal) as Hkey.
  { intros k Hk1 Hk2 E. eapply Hk; [|exact E]. apply kept_on; [done|]. apply fine_key; [done|done|]. intros c Hc. by destruct (Hk2 c). }
  assert (∀ c, (31 < c < 127)%Z → normal_key cmdvec elements varhandlers crypt w b = on_vty w (λ v, vty_self_insert v c) → goal) as Hins.
  { intros c Hc E. eapply Hk; [|exact E]. apply (kept_on w (key_op (whost w) (KInsert c))); [done|]. apply fine_key; [done|done|]. intros c' [= <-]. unfold BS. lia. }
  pose proof (fine_history (wvty w) Ht) as (F1 & F2 & _). subst goal. unfold normal_key in *.
  destruct (b =? 1)%Z; [by apply (Hkey KHome)|]. destruct (b =? 2)%Z; [by apply (Hkey KBackward)|].
  destruct (b =? 3)%Z; [left; by apply stop_input_ok|]. destruct (Z.eqb_spec b 4) as [->|_].
  { destruct (decide (len (ed (wvty w)) = 0)) as [Hz|Hz].
    - destruct (hidden (wsess w)) eqn:Hh; [right; left; by split_and!|]. left. unfold on_vty, vty_delete_char. rewrite decide_True by done.
      by apply down_level_ok; [|apply hidden_visible].
    - apply (Hk _ (kept_on w (key_op (whost w) KDelete) Hw (fine_key (whost w) (wvty w) KDelete Ht (λ _, Hz) ltac:(done)))). done. }
  destruct (b =? 5)%Z; [by apply (Hkey KEnd)|]. destruct (b =? 6)%Z; [by apply (Hkey KForward)|].
  destruct ((b =? 8) || (b =? 127))%Z; [by apply (Hkey KDeleteBackward)|]. destruct (b =? 11)%Z; [by apply (Hkey KKill)|].
  destruct (b =? 14)%Z; [by eapply Hk; [apply kept_on; [done|exact F2]|]|]. destruct (b =? 16)%Z; [by eapply Hk; [apply kept_on; [done|exact F1]|]|].
  destruct (b =? 20)%Z; [by apply (Hkey KTranspose)|]. destruct (b =? 21)%Z; [by apply (Hkey KKillAll)|].
  destruct (b =? 23)%Z; [by apply (Hkey KBackwardKillWord)|]. destruct (b =? 26)%Z; [left; by apply end_config_ok|].
  destruct ((b =? 10) || (b =? 13))%Z eqn:Eb.
  { destruct (fine_out (wvty w) newline Ht) as (o & E & Ho). assert (say w newline = Some (set_vty (set_out (put_obuf (out (wvty w)) o) (wvty w)) w)) as ->.
    { unfold say. by rewrite E, obind_Some. }
    ostep. destruct (execute_ok (set_vty (set_out (put_obuf (out (wvty w)) o) (wvty w)) w)) as [(ret & w2 & -> & Hw2)|Hf].
    - destruct Hw as (_ & ? & ?). by split.
    - ostep. left. eauto.
    - right. right. split; [lia|]. exact Hf. }
  destruct (b =? 9)%Z; [by eapply Hk; [apply complete_ok|]|].
  destruct (Z.eqb_spec b 63) as [->|_]; [destruct (hidden (wsess w)) eqn:Hh; [by apply (Hins 63%Z)|by eapply Hk; [apply describe_ok|]]|].
  destruct ((31 <? b) && (b <? 127))%Z eqn:Eb'; [apply (Hins b); [lia|done]|]. left. by exists w.
Qed.

Lemma tn_ok t w : session_ok valid w → length (sb_buf t) = TELNET_NAWS_SB_LEN → (0 ≤ sb_len t)%Z → session_ok valid (put_tn t w).
Proof. intros (? & ? & ?) ? ?. split; [by apply term_set_tn|done]. Qed.

Lemma byte_safe b next w : session_ok valid w →
  (∃ k w', read_byte cmdvec elements varhandlers crypt b next w = Some (k, w') ∧ session_ok valid w') ∨ eof_at_prompt b w ∨ enter_fails b w.
Proof.
  intros Hw. pose proof Hw as ([_ _ _ _ _ _ _ (Hsb & Hsl)] & _). unfold read_byte.
  destruct ((b =? IAC)%Z && negb (iac (tn (wvty w)))); [left; do 2 eexists; split; [reflexivity|by apply tn_ok]|].
  set (t := if (b =? IAC)%Z then set_iac false (tn (wvty w)) else tn (wvty w)).
  assert (length (sb_buf t) = TELNET_NAWS_SB_LEN ∧ (0 ≤ sb_len t)%Z) as [Hb Hl] by (subst t; by destruct (b =? IAC)%Z).
  set (w0 := put_tn t w). assert (session_ok valid w0) as Hw0 by (by apply tn_ok). clearbody t. clear Hw Hsb Hsl.
  destruct (iac_sb_in_progress t && negb (iac t)).
  { left. unfold sb_byte. destruct (Z.ltb_spec (sb_len t) (Z.of_nat TELNET_NAWS_SB_LEN)).
    - rewrite write_Some by lia. do 2 ostep. do 2 eexists. split; [reflexivity|]. apply tn_ok; [done|cbn; by rewrite length_insert|cbn; lia].
    - do 2 ostep. do 2 eexists. split; [reflexivity|]. apply tn_ok; [done|done|cbn; lia]. }
  destruct (iac t).
  { left. assert (∃ n t', vty_telnet_option t b = Some (n, t') ∧ length (sb_buf t') = TELNET_NAWS_SB_LEN ∧ (0 ≤ sb_len t')%Z) as (n & t' & -> & ? & ?).
    { unfold vty_telnet_option. destruct (b =? SB)%Z; [by do 2 eexists|]. destruct (b =? SE)%Z; [|by do 2 eexists]. destruct (iac_sb_in_progress t); cbn [negb]; [|by do 2 eexists].
      destruct (sb_buf t) as [|b0 [|b1 [|b2 [|b3 [|b4 [|]]]]]] eqn:Eb; try done. cbn [lookup list_lookup]. ostep. destruct (_ || _); [by do 2 eexists|].
      destruct (b0 =? TELOPT_NAWS)%Z; [|by do 2 eexists]. destruct (negb _); [by do 2 eexists|]. do 4 ostep. by do 2 eexists. }
    ostep. do 2 eexists. split; [reflexivity|]. by apply tn_ok. }
  assert (∀ o, (∃ w', o = Some w' ∧ session_ok valid w') → ∃ k w', (w1 ← o; Some (0, w1)) = Some (k, w') ∧ session_ok valid w') as Hret.
  { intros o (w' & -> & Hw'). ostep. by do 2 eexists. }
  assert (∀ o, kept w0 o → ∃ w', o = Some w' ∧ session_ok valid w') as Hkept by (intros o (w' & -> & Hw' & _); eauto).
  destruct (decide (status (wsess w0) = VTY_MORE)).
  { left. destruct (_ || _); [|by do 2 eexists]. apply Hret. assert (session_ok valid (reset_buffers w0)) as Hr.
    { destruct Hw0 as ([] & ? & ?). split; [|done]. split; try done; by apply ob_reset_spec. }
    destruct (kept_redraw _ Hr) as (w' & E & Hw' & _). exists w'. done. }
  assert (∀ o e, kept w0 o → ∃ w', (w1 ← o; Some (put_tn (set_escape e (tn (wvty w1))) w1)) = Some w' ∧ session_ok valid w') as Hesc.
  { intros o e (w1 & -> & Hw1 & _). ostep. eexists. split; [reflexivity|]. pose proof Hw1 as ([_ _ _ _ _ _ _ (? & ?)] & _). by apply tn_ok. }
  assert (∀ k, k ≠ KDelete → (∀ c, k ≠ KInsert c) → kept w0 (on_vty w0 (key_op (whost w0) k))) as Hkey.
  { intros k Hk1 Hk2. apply kept_on; [done|]. apply fine_key; [by destruct Hw0|done|]. intros c Hc. by destruct (Hk2 c). }
  pose proof (fine_history (wvty w0) (proj1 Hw0)) as (F1 & F2 & _).
  destruct (escape t =? VTY_ESCAPE)%Z.
  { left. apply Hret. apply Hesc. destruct (b =? 65)%Z; [by apply kept_on|]. destruct (b =? 66)%Z; [by apply kept_on|].
    destruct (b =? 67)%Z; [by apply (Hkey KForward)|]. destruct (b =? 68)%Z; [by apply (Hkey KBackward)|by apply kept_refl]. }
  destruct (escape t =? VTY_PRE_ESCAPE)%Z.
  { left. apply Hret. unfold pre_escape. destruct (b =? 91)%Z; [eexists; split; [reflexivity|by apply tn_ok]|]. apply Hesc.
    destruct (b =? 98)%Z; [by apply (Hkey KBackwardWord)|]. destruct (b =? 102)%Z; [by apply (Hkey KForwardWord)|].
    destruct (b =? 100)%Z; [by apply (Hkey KForwardKillWord)|]. destruct (_ || _); [by apply (Hkey KBackwardKillWord)|by apply kept_refl]. }
  destruct (b =? 27)%Z; [left; destruct (decide _); (do 2 eexists; split; [reflexivity|by apply tn_ok])|].
  destruct (key_safe w0 b Hw0) as [Hk|Hk]; [left; by apply Hret|right; exact Hk].
Qed.

(** A run of the loop, byte by byte. *)
Lemma loop_safe (bs : list Z) (w : world B) : session_ok valid w →
  (∃ w', read_loop cmdvec elements varhandlers crypt bs w = Some w' ∧ session_ok valid w')
  ∨ ∃ b rest w1, turns cmdvec elements varhandlers crypt bs w (b :: rest) w1 ∧ session_ok valid w1 ∧ (eof_at_prompt b w1 ∨ enter_fails b w1).
Proof.
  remember (length bs) as n eqn:Hn. assert (length bs ≤ n) as Hlen by lia. clear Hn. revert bs w Hlen.
  induction n as [|n IH]; intros [|b rest] w Hlen Hw; cbn [length] in *; try lia; try (left; by exists w).
  destruct (byte_safe b (head rest) w Hw) as [(k & w1 & E1 & Hw1)|Hx]; [|right; exists b, rest, w; split; [constructor|done]].
  assert (length (match k with 0 => rest | S _ => tail rest end) ≤ n) as Hl by (destruct k, rest; cbn in *; lia).
  destruct (IH _ w1 Hl Hw1) as [(w' & E & Hw')|(b' & rest' & w2 & Hr & ?)].
  - left. exists w'. split; [|done]. cbn [read_loop]. rewrite E1. ostep. by destruct k, rest.
  - right. exists b', rest', w2. split; [by econstructor|done].
Qed.
End safe.

(** ** An interpreter that keeps the laws *)

Section interpreter.
Context {B : Type} `{OutBuffer B} `{Inet} (cmdvec : list (option cmd_node)) (elements : list (cmd_element B)) (valid : Z → Prop).
Implicit Types (w : world B).

Definition graph_good (g : graph) : Prop :=
  graph_ok g ∧ answers g ∧ (∀ i t, token_at g i = Some t → text_ok (text t))
  ∧ (∀ i n el, g !! i = Some n → ndata n = Element el → is_Some (elements !! el)) ∧ (Z.of_nat (length g) < 2 ^ 31 - 2)%Z.
Definition graphs_good : Prop := ∀ n, valid n → visible n → ∃ g, cmd_node_graph cmdvec n = Some g ∧ graph_good g.
(** A command ends, keeps the session in order, and does not move it when it fails. *)
Definition command_good (e : cmd_element B) : Prop :=
  ∀ args w, session_ok valid w → visible (node (wsess w)) →
  ∃ ret w', func e args w = Some (ret, w') ∧ session_ok valid w' ∧ (accepted ret = false → node (wsess w') = node (wsess w)).

(** What a command leaves when it returns. *)
Definition command_keeps (e : cmd_element B) : Prop :=
  ∀ args w ret w', session_ok valid w → visible (node (wsess w)) → func e args w = Some (ret, w') →
  session_ok valid w' ∧ (accepted ret = false → node (wsess w') = node (wsess w)).

Context (Hgraphs : graphs_good) (Hcommands : Forall command_keeps elements).

Lemma enable_visible : visible ENABLE_NODE.
Proof. done. Qed.

Lemma put_ok n x w : session_ok valid w → valid n → session_ok valid (put_node n x w).
Proof. intros (? & ? & ?) ?. split; [by apply term_set_ss|done]. Qed.

Lemma real_ok vline w : session_ok valid w → visible (node (wsess w)) →
  (∃ ret w', cmd_execute_command_real cmdvec elements vline w = Some (ret, w') ∧ session_ok valid w' ∧ (accepted ret = false → node (wsess w') = node (wsess w)))
  ∨ vec_fails cmdvec elements valid vline.
Proof.
  intros Hw Hvis. destruct (Hgraphs (node (wsess w))) as (g & Eg & Hok & Hans & _ & Hel & _); [by destruct Hw as (_ & _ & ?)|done|].
  unfold cmd_execute_command_real. rewrite Eg. ostep.
  destruct (command_match_total g Hok (Vector.contents vline)) as (st & r & Em & Hr); [by apply answers_words|]. rewrite Em. ostep.
  destruct st; try (left; do 2 eexists; split; [reflexivity|done]). destruct Hr as (args & el & i & n & -> & Hi & Hn). ostep.
  destruct (Hel i n el Hi Hn) as [e He]. rewrite He. ostep. destruct (daemon e) eqn:Ed; [left; do 2 eexists; split; [reflexivity|done]|].
  rewrite Forall_forall in Hcommands. set (w1 := if config (wsess w) then World (wvty w) (whost w) 0 (randoms w) else w).
  assert (session_ok valid w1 ∧ wsess w1 = wsess w) as [Hw1 Hs1] by (subst w1; by destruct (config (wsess w))).
  destruct (func e args w1) as [[ret w']|] eqn:Ef.
  - destruct (Hcommands e (list_elem_of_lookup_2 _ _ _ He) args w1 ret w' Hw1) as (Hw' & Ha); [by rewrite Hs1|done|]. rewrite Hs1 in Ha. left. eauto.
  - right. exists w, e, args, w1. split; [done|]. split; [done|]. split; [|done]. by exists g, el.
Qed.

Lemma climb_ok vline fuel : ∀ w, session_ok valid w → visible (node (wsess w)) → (node (wsess w) - CONFIG_NODE ≤ Z.of_nat fuel)%Z →
  (∃ r w', climb cmdvec elements fuel vline (node (wsess w)) w = Some (r, w') ∧ session_ok valid w') ∨ vec_fails cmdvec elements valid vline.
Proof.
  induction fuel as [|fuel IH]; intros w Hw Hvis Hf; cbn [climb]; [rewrite (proj2 (Z.ltb_ge _ _)) by lia; left; eauto|].
  destruct (Z.ltb_spec CONFIG_NODE (node (wsess w))) as [Hlt|]; [|left; eauto]. pose proof Hw as (_ & (_ & _ & _ & _ & _ & Hup) & Hn).
  destruct (Hup _ Hn Hlt) as (p & -> & Hp & Hp1 & Hp2). ostep. set (x := (if (0 <? xpath_index (wsess w)) then xpath_index (wsess w) - 1 else xpath_index (wsess w))%Z).
  assert (visible p) as Hvp by (unfold visible, AUTH_NODE, AUTH_ENABLE_NODE, CONFIG_NODE in *; lia).
  destruct (real_ok vline (put_node p x w) (put_ok p x w Hw Hp) Hvp) as [(ret & w1 & -> & Hw1 & Ha)|?]; [|by right]. ostep.
  destruct (accepted ret); [left; eauto|]. specialize (Ha eq_refl). cbn in Ha. rewrite <- Ha. apply IH; [done|by rewrite Ha|lia].
Qed.

Lemma slot0 vline : line_vec vline → ∃ x, vector_slot vline 0 = Some x.
Proof.
  intros (Hwf & Hact & _). destruct (wf_inv vline Hwf) as (l & n & -> & Hf1 & Hf2 & _). cbn in Hact.
  destruct (lookup_lt_is_Some_2 (index (mkv l n)) 0) as [x Hx]; [cbn; rewrite pad_length by done; lia|]. eauto.
Qed.

(** The line without its first words. *)
Lemma shifted_ok vline k : line_vec vline → k ≤ 1 → ∃ vl, shifted_vline k vline = Some vl ∧ completable (Vector.contents vl).
Proof.
  intros (Hwf & Hact & Hlen & ws & Hws) Hk. destruct (wf_inv vline Hwf) as (l & n & -> & Hf). rewrite contents_mkv in *. cbn in Hact.
  destruct (shifted_vline_spec l n k Hf) as (m & -> & Hm).
  { assert (Z.of_nat VTY_BUFSIZ = 4096)%Z by (vm_compute; reflexivity). lia. }
  { lia. }
  eexists. split; [reflexivity|]. rewrite contents_mkv. assert (completable l) as Hc by (by exists ws).
  destruct k as [|[|k]]; [by rewrite drop_0| |lia]. destruct l as [|x l]; [done|]. cbn. rewrite drop_0. by eapply completable_tail.
Qed.

Lemma execute_law w s : session_ok valid w → visible (node (wsess w)) → length s < VTY_BUFSIZ →
  (∃ ret w', cmd_execute cmdvec elements w s false = Some (ret, w') ∧ session_ok valid w') ∨ line_fails cmdvec elements valid s.
Proof.
  intros Hw Hvis Hl. unfold cmd_execute. destruct (line_of_words s Hl) as [->|(Hs & v & ws & Ev & Hwf & Hc & Hws & Hwl)]; [ostep; left; eauto|]. rewrite Ev. ostep.
  destruct (vec_lines v ws Hwf Hc Hws Hwl) as (Hv & _). unfold cmd_execute_command. destruct (slot0 v Hv) as [first ->]. ostep.
  pose proof Hw as (_ & (_ & _ & Hen & _) & Hn). destruct (cmd_try_do_shortcut (node (wsess w)) first).
  - destruct (shifted_ok v 1 Hv ltac:(done)) as (vl & Evl & _). rewrite Evl. ostep.
    destruct (real_ok vl (put_node ENABLE_NODE 0 w) (put_ok _ _ _ Hw Hen) enable_visible) as [(ret & w1 & -> & Hw1 & _)|?]; [|right; exists v, vl; auto]. ostep.
    left. do 2 eexists. split; [reflexivity|]. by apply put_ok.
  - destruct (real_ok v w Hw Hvis) as [(ret & w1 & -> & Hw1 & Ha)|?]; [|right; exists v, v; auto]. ostep. destruct (accepted ret); [left; eauto|]. specialize (Ha eq_refl). rewrite <- Ha.
    destruct (climb_ok v (length (node_parents (whost w1))) w1 Hw1) as [(r & w2 & -> & Hw2)|?]; [by rewrite Ha| | |right; exists v, v; auto].
    { pose proof Hw1 as (_ & (_ & _ & _ & _ & _ & Hup) & Hn1). destruct (decide (CONFIG_NODE < node (wsess w1))%Z) as [Hlt|]; [|lia].
      destruct (Hup _ Hn1 Hlt) as (p & Hp & _). unfold node_parent in Hp. destruct (0 <=? node (wsess w1))%Z eqn:E0; [|done]. apply lookup_lt_Some in Hp. unfold CONFIG_NODE in *. lia. }
    ostep. left. destruct r; [eauto|]. do 2 eexists. split; [reflexivity|]. apply put_ok; [done|]. by rewrite Ha.
Qed.

(** Tokens of different texts are no more than the nodes of the graph. *)
Lemma distinct_texts_bound g ts : NoDup (text <$> ts) → (∀ t, t ∈ ts → ∃ i, token_at g i = Some t) → length ts ≤ length g.
Proof.
  intros Hnd Hts. rewrite <- (length_fmap text).
  assert (length ((λ n, match ndata n with Tok t => text t | Element _ => [] end) <$> g) = length g) as <- by apply length_fmap.
  apply submseteq_length, NoDup_submseteq; [done|]. intros x (t & -> & Ht)%list_elem_of_fmap.
  destruct (Hts t Ht) as [i Hi]. unfold token_at in Hi. destruct (g !! i) as [n|] eqn:En; [|done].
  cbn in Hi. destruct (ndata n) as [t'|] eqn:Ed; [|done]. injection Hi as ->. apply list_elem_of_fmap. exists n. split; [by rewrite Ed|by eapply list_elem_of_lookup_2].
Qed.

Lemma first_texts_bound g cs : (∀ t, t ∈ cs → ∃ i, token_at g i = Some t) → length (first_texts [] cs) ≤ length g.
Proof.
  intros Hcs. destruct (first_texts_props cs [] ltac:(constructor)) as (Hnd & _ & Hin & _). apply distinct_texts_bound; [done|].
  intros t Ht. destruct (Hin t Ht) as [?%elem_of_nil|[Htc _]]; [done|by apply Hcs].
Qed.

Lemma last_end_in cs : ∀ cr0 cr, last_end cr0 cs = Some cr → cr ∈ cs ∨ cr0 = Some cr.
Proof.
  induction cs as [|u cs IH]; intros cr0 cr E; cbn [last_end foldl] in E; [by right|]. destruct (IH _ _ E) as [?|Eu]; [left; by right|].
  destruct (decide (type u = END_TKN)); [injection Eu as ->; left; by left|by right].
Qed.

Lemma complete_real_ok vl n : completable (Vector.contents vl) → valid n → visible n →
  cmd_complete_command_real cmdvec vl n = Some (CMD_ERR_NO_MATCH, None)
  ∨ ∃ v ts, cmd_complete_command_real cmdvec vl n = Some (comps_status (vector_active v), Some v) ∧ wf v ∧ Vector.contents v = Some <$> ts
      ∧ Forall (λ t, text_ok (text t)) ts ∧ (Z.of_nat (length ts) < 2 ^ 31)%Z.
Proof.
  intros Hc Hn Hvis. destruct (Hgraphs n Hn Hvis) as (g & Eg & Hok & Hans & Htext & _ & Hlen). unfold cmd_complete_command_real. rewrite Eg. ostep.
  destruct (command_complete_total g Hok Hans (Vector.contents vl) Hc) as (rv & cs & -> & [-> | ->] & Hcs); ostep; [right|by left].
  change (MATCHER_ERROR (rv_code MATCHER_OK)) with false. cbv iota. pose proof (first_texts_bound g cs Hcs) as Hb.
  destruct (completions_spec cs) as (v & ts & -> & Hwf & Hv & _ & Hnd & Hin & _ & Hend); [lia|]. ostep. exists v, (option_list (last_end None cs) ++ ts).
  split; [done|]. split; [done|]. split; [done|]. split.
  - apply Forall_forall. intros t Ht. assert (t ∈ cs) as Htc.
    { apply elem_of_app in Ht as [Ht|Ht]; [|by apply Hin]. destruct (last_end None cs) as [cr|] eqn:Ecr; [|by apply elem_of_nil in Ht].
      apply list_elem_of_singleton in Ht as ->. by destruct (last_end_in cs None cr Ecr). }
    destruct (Hcs t Htc) as [i Hi]. by eapply Htext.
  - assert (length ts ≤ length g) by (apply distinct_texts_bound; [done|]; intros t Ht; by destruct (Hin t Ht) as [?%Hcs _]).
    rewrite length_app. destruct (last_end None cs); cbn; lia.
Qed.

(** Without handlers only words are kept. *)
Lemma tab_filter_ok vline ts : line_vec vline → ∀ acc n, fits (Some <$> acc) n → (Z.of_nat (length acc + length ts) < 2 ^ 31)%Z →
  Forall (λ t, text_ok (text t)) ts → Forall text_ok acc →
  ∃ l m, tab_filter [] (Some <$> ts) vline (mkv (Some <$> acc) n) = Some (mkv (Some <$> l) m) ∧ fits (Some <$> l) m ∧ Forall text_ok l.
Proof.
  intros (Hwf & Hact & _). induction ts as [|t ts IH]; intros acc n Hf Hl Ht Ha; cbn [fmap list_fmap tab_filter]; [eauto|].
  apply Forall_cons in Ht as [Ht Hts]. cbn [length] in Hl. ostep. destruct (decide (type t = WORD_TKN)).
  - destruct (vector_push acc n (text t) Hf) as (n' & -> & Hf'); [lia|]. do 2 ostep. apply IH; [done|rewrite length_app; cbn; lia|done|].
    apply Forall_app. split; [done|by constructor].
  - assert ((if varying (type t) then ref ← vector_lookup vline (vector_active vline - 1); cmd_variable_complete [] t ref (mkv (Some <$> acc) n) else Some (mkv (Some <$> acc) n))
      = Some (mkv (Some <$> acc) n)) as ->.
    { destruct (varying (type t)); [|done]. destruct (wf_inv vline Hwf) as (lv & k & -> & Hfv). rewrite vector_lookup_spec by done. ostep.
      unfold cmd_variable_complete. cbn [List.find]. destruct (mjoin _); done. }
    ostep. apply IH; [done|lia|done|done].
Qed.

Lemma complete_law vline n : line_vec vline → valid n → visible n → valid ENABLE_NODE →
  ∃ st r, cmd_complete_command cmdvec [] vline n = Some (st, r)
    ∧ (st = CMD_ERR_NO_MATCH ∨ st = CMD_COMPLETE_FULL_MATCH ∧ (∃ m, r = Some [Some m] ∧ text_ok m) ∨ st = CMD_COMPLETE_LIST_MATCH ∧ is_Some r).
Proof.
  intros Hv Hn Hvis Hen. unfold cmd_complete_command. destruct (slot0 vline Hv) as [first ->]. ostep.
  set (sh := cmd_try_do_shortcut n first). destruct (shifted_ok vline (if sh then 1 else 0) Hv) as (vl & -> & Hc); [by destruct sh; lia|]. ostep.
  destruct (complete_real_ok vl (if sh then ENABLE_NODE else n) Hc) as [->|(v & ts & -> & Hwf & Hts & Htext & Hlen)]; [by destruct sh|by destruct sh| |].
  { ostep. change (MATCHER_ERROR CMD_ERR_NO_MATCH) with true. cbv iota. do 2 eexists. split; [reflexivity|]. by left. }
  ostep. destruct (MATCHER_ERROR (comps_status (vector_active v))) eqn:Em.
  { do 2 eexists. split; [reflexivity|]. left. unfold comps_status in *. by destruct (vector_active v) as [|[|]]. }
  ostep. rewrite Hts. change (vector_init VECTOR_MIN_SIZE) with (mkv (Some <$> ([] : list cstring)) 1).
  destruct (tab_filter_ok vline ts Hv [] 1) as (l & m & -> & Hf & Hl); [unfold fits; cbn; lia|cbn; lia|done|constructor|]. ostep. rewrite contents_mkv.
  do 2 eexists. split; [reflexivity|]. cbn [vector_active mkv active]. rewrite length_fmap. unfold comps_status.
  destruct l as [|x [|y l]]; cbn [length]; [by left| |right; right; eauto]. right. left. split; [done|]. exists x. split; [done|]. by apply Forall_cons in Hl as [? _].
Qed.

Lemma describe_law vline n : line_vec vline → valid n → visible n → valid ENABLE_NODE →
  ∃ st r, cmd_describe_command cmdvec vline n = Some (st, r) ∧ (st = CMD_ERR_NO_MATCH ∨ is_Some r).
Proof.
  intros Hv Hn Hvis Hen. unfold cmd_describe_command. destruct (slot0 vline Hv) as [first ->]. ostep.
  assert (∀ vl k, completable (Vector.contents vl) → valid k → visible k → ∃ st r, cmd_complete_command_real cmdvec vl k = Some (st, r) ∧ (st = CMD_ERR_NO_MATCH ∨ is_Some r)) as Hgo.
  { intros vl k Hc Hk Hkv. destruct (complete_real_ok vl k Hc Hk Hkv) as [->|(v & ts & -> & _)]; do 2 eexists; (split; [reflexivity|]); [by left|right; eauto]. }
  destruct (cmd_try_do_shortcut n first).
  - destruct (shifted_ok vline 1 Hv ltac:(done)) as (vl & -> & Hc). ostep. by apply Hgo.
  - apply Hgo; [|done|done]. by destruct Hv as (_ & _ & _ & ?).
Qed.

(** The interpreter of command.c on such graphs and commands, without handlers
    for variables. *)
Lemma interpreter_ok : valid ENABLE_NODE → InterpreterLaws cmdvec elements [] valid.
Proof.
  intros Hen. split.
  - apply execute_law.
  - intros vline n Hv Hn Hvis. by apply complete_law.
  - intros vline n Hv Hn Hvis. by apply describe_law.
  - intros token ref _. exists (vector_init VECTOR_MIN_SIZE). split; [|cbn; lia]. unfold cmd_variable_complete. cbn [List.find]. by destruct ref.
Qed.
End interpreter.

(** ** The commands of command.c *)

Section commands.
Context {B : Type} `{OutBuffer B} `{Inet} (cmdvec : list (option cmd_node)) (elements : list (cmd_element B)) (valid : Z → Prop).
Implicit Types (w : world B).

(** Settings of the host other than its nodes. *)
Lemma host_ok h w : session_ok valid w → prompts h = prompts (whost w) → node_parents h = node_parents (whost w) → session_ok valid (set_host h w).
Proof.
  intros (Ht & Hn & Hv) Hp Hq. split; [done|]. split; [|done]. unfold nodes_valid, cmd_prompt, node_parent in *. cbn. by rewrite Hp, Hq.
Qed.

Lemma say_ok p w : session_ok valid w → ∃ w', say w p = Some w' ∧ session_ok valid w' ∧ whost w' = whost w.
Proof. intros Hw. destruct (kept_say valid w p Hw) as (w' & E & Hw' & _ & Hh). eauto. Qed.

Lemma sess_ok s w : session_ok valid w → valid (node s) → session_ok valid (set_sess s w).
Proof. intros (Ht & Hn & _) Hv. split; [by apply term_set_ss|]. by split. Qed.

(** A command that succeeds and keeps the session in order. *)
Lemma good_of s d a (f : list arg → world B → option (Z * world B)) :
  (∀ args w, session_ok valid w → visible (node (wsess w)) → ∃ w', f args w = Some (CMD_SUCCESS, w') ∧ session_ok valid w') →
  command_good valid (CmdElement s d a f).
Proof. intros Hf args w Hw Hv. destruct (Hf args w Hw Hv) as (w' & E & Hw'). by exists CMD_SUCCESS, w'. Qed.

Lemma tn_vlines n w : session_ok valid w → session_ok valid (set_vty (set_tn (set_vlines n (tn (wvty w))) (wvty w)) w).
Proof. intros (Ht & ? & ?). pose proof Ht as [? ? ? ? ? ? ? [? ?]]. split; [by apply term_set_tn|]. by split. Qed.

Lemma warn_ok p pe w : session_ok valid w → ∃ w', warn_passwords p pe w = Some w' ∧ session_ok valid w'.
Proof.
  intros Hw. unfold warn_passwords. cbv zeta. set (warned := bool_decide (is_Some p) && _).
  assert (∃ w1, (if warned then say w NO_PASSWD_CMD_WARNING else Some w) = Some w1 ∧ session_ok valid w1) as (w1 & -> & Hw1).
  { destruct warned; [|by exists w]. destruct (say_ok NO_PASSWD_CMD_WARNING w Hw) as (w1 & ? & ? & _). by exists w1. }
  ostep. destruct (bool_decide (is_Some pe) && _ && _); [|by exists w1]. destruct (say_ok NO_PASSWD_CMD_WARNING w1 Hw1) as (w2 & ? & ? & _). by exists w2.
Qed.

(** Whatever arguments they get, these commands end and keep the session in order. *)
Lemma commands_good s d a motd : valid AUTH_ENABLE_NODE → valid ENABLE_NODE →
  Forall (λ f : list arg → world B → option (Z * world B), command_good valid (CmdElement s d a f))
    [config_terminal; enable; disable; config_exit; config_quit; config_end; config_help; config_terminal_no_length; no_service_terminal_length;
     no_config_password; no_config_enable_password; no_service_password_encrypt; banner_motd_default motd; no_banner_motd].
Proof.
  intros Hae Hen. repeat apply Forall_cons_2; try apply Forall_nil_2; apply good_of; intros args w Hw Hv; pose proof Hw as (_ & (_ & Hview & _ & Hco & _) & Hn).
  - eexists. split; [reflexivity|]. by apply sess_ok.
  - eexists. split; [reflexivity|]. apply sess_ok; [done|]. cbn. by destruct (decide _).
  - eexists. split; [reflexivity|]. destruct (_ =? _)%Z; [|done]. by apply sess_ok.
  - destruct (exit_ok valid w Hw Hv) as (s' & E & Hs). unfold config_exit. rewrite E. ostep. eexists. split; [reflexivity|]. by apply sess_ok.
  - destruct (exit_ok valid w Hw Hv) as (s' & E & Hs). unfold config_quit, config_exit. rewrite E. ostep. eexists. split; [reflexivity|]. by apply sess_ok.
  - eexists. split; [reflexivity|]. destruct (config _); [|done]. by apply sess_ok.
  - unfold config_help. match goal with |- context [say w ?p] => destruct (say_ok p w Hw) as (w' & -> & Hw' & _) end. ostep. eauto.
  - eexists. split; [reflexivity|]. by apply tn_vlines.
  - eexists. split; [reflexivity|]. by apply host_ok.
  - unfold no_config_password. destruct (warn_ok (password (whost w)) (password_encrypt (whost w)) w Hw) as (w' & -> & Hw'). ostep. eexists. split; [reflexivity|]. by apply host_ok.
  - unfold no_config_enable_password. destruct (warn_ok (enable_pw (whost w)) (enable_encrypt (whost w)) w Hw) as (w' & -> & Hw'). ostep. eexists. split; [reflexivity|]. by apply host_ok.
  - unfold no_service_password_encrypt. destruct (negb _); (eexists; split; [reflexivity|]); [done|]. by apply host_ok.
  - eexists. split; [reflexivity|]. by apply host_ok.
  - eexists. split; [reflexivity|]. by apply host_ok.
Qed.

Lemma good_keeps (e : cmd_element B) : command_good valid e → command_keeps valid e.
Proof. intros He args w ret w' Hw Hv E. destruct (He args w Hw Hv) as (ret1 & w1 & E1 & ?). rewrite E in E1. by injection E1 as -> ->. Qed.

(** A command that leaves the session in order and whose result is taken. *)
Lemma keeps_of s d a (f : list arg → world B → option (Z * world B)) :
  (∀ args w ret w', session_ok valid w → f args w = Some (ret, w') → session_ok valid w' ∧ accepted ret = true) →
  command_keeps valid (CmdElement s d a f).
Proof. intros Hf args w ret w' Hw _ E. destruct (Hf args w ret w' Hw E) as [? Ha]. split; [done|]. by rewrite Ha. Qed.

Lemma said p w w' : session_ok valid w → say w p = Some w' → session_ok valid w'.
Proof. intros Hw E. destruct (say_ok p w Hw) as (w1 & E1 & ? & _). rewrite E in E1. by injection E1 as ->. Qed.

Lemma said_all ps w w' : session_ok valid w → say_all w ps = Some w' → session_ok valid w'.
Proof.
  revert w. induction ps as [|p ps IH]; intros w Hw; cbn [say_all]; [by intros [= <-]|]. destruct (say w p) as [w1|] eqn:E; [|done].
  rewrite obind_Some. apply IH. by eapply said.
Qed.

Lemma permute_keeps g fuel : ∀ position start w w', session_ok valid w → permute fuel g position start w = Some w' → session_ok valid w'.
Proof.
  induction fuel as [|fuel IH]; intros position start w w' Hw; cbn [permute]; [done|]. destruct (token_at g start) as [stok|]; [|done]. ostep.
  destruct (g !! start) as [n|]; [|done]. ostep. generalize (to n). intros l. revert w Hw. induction l as [|gn l IHl]; intros w Hw; [by intros [= <-]|].
  destruct (token_at g gn) as [tok|]; [|done]. rewrite obind_Some. match goal with |- (_ ← ?o; _) = _ → _ => destruct o as [w1|] eqn:E end; [|done].
  rewrite obind_Some. apply IHl. destruct (decide _); [by injection E as <-|]. destruct (decide (type tok = END_TKN ∨ gn = start)).
  - destruct (mapM _ _) as [toks|]; [|done]. rewrite obind_Some in E. by eapply said_all.
  - destruct (decide _); [by injection E as <-|]. by eapply IH.
Qed.

Lemma list_keeps fuel b w ret w' : session_ok valid w → cmd_list_cmds cmdvec elements fuel w b = Some (ret, w') → session_ok valid w' ∧ accepted ret = true.
Proof.
  intros Hw. unfold cmd_list_cmds. destruct (node_slot _ _) as [nd|]; [|done]. ostep. destruct b.
  - destruct (permute _ _ _ _ _) as [w1|] eqn:E; [|done]. ostep. intros [= <- <-]. split; [by eapply permute_keeps|done].
  - destruct (mapM _ _) as [es|]; [|done]. ostep. destruct (say_all _ _) as [w1|] eqn:E; [|done]. ostep. intros [= <- <-]. split; [by eapply said_all|done].
Qed.

Lemma encrypt_keeps crypt p w e w' : session_ok valid w → zencrypt crypt p w = Some (e, w') → session_ok valid w'.
Proof.
  intros Hw. unfold zencrypt. destruct (default _ _) as [r u]. destruct (to64 3 r); [|done]. ostep. destruct (to64 3 u); [|done]. ostep. by intros [= <- <-].
Qed.

Lemma find_keeps t names nodes : ∀ i w w', session_ok valid w → find_nodes elements names t nodes i w = Some w' → session_ok valid w'.
Proof.
  induction nodes as [|nd nodes IH]; intros i w w' Hw; cbn [find_nodes]; [by intros [= <-]|]. destruct nd as [nd|]; [|rewrite obind_Some; by apply IH].
  destruct (names !! i) as [nm|]; [|done]. rewrite obind_Some. destruct (find_in _ _ _ _ _) as [w1|] eqn:E; [|done]. rewrite obind_Some. apply IH.
  revert w Hw E. induction (cmd_vector nd) as [|c clis IHc]; intros w Hw; cbn [find_in]; [by intros [= <-]|]. destruct c as [c|]; [|done].
  rewrite obind_Some. destruct (elements !! c) as [cli|]; [|done]. rewrite obind_Some. destruct (strcasestr _ _); [|rewrite obind_Some; by apply IHc].
  destruct (say w _) as [w2|] eqn:E; [|done]. rewrite obind_Some. apply IHc. by eapply said.
Qed.

(** The commands that command.c installs, those that print the graph and the
    completions apart. *)
Definition library (crypt : cstring → cstring → cstring) (fuel : nat) (motd : cstring) (names : list cstring) : list (list arg → world B → option (Z * world B)) :=
  [config_terminal; enable; disable; config_exit; config_quit; config_end; config_help; config_terminal_no_length; no_service_terminal_length;
   no_config_password; no_config_enable_password; no_service_password_encrypt; banner_motd_default motd; no_banner_motd]
  ++ [config_list cmdvec elements fuel; show_commandtree cmdvec elements fuel; config_hostname; config_no_hostname; config_password crypt;
      config_enable_password crypt; service_password_encrypt crypt; config_terminal_length; service_terminal_length; do_echo; find cmdvec elements names].

(** What a command has printed or set is in order. *)
Ltac taken := intros [= <- <-]; split; [first [done|solve [eapply said; [|eassumption]; done]|by apply host_ok|by apply tn_vlines]|done].
Ltac printed := destruct (say _ _) eqn:?; [ostep; taken|done].
Ltac argument i := destruct (_ !! i) eqn:?; [ostep|done].

Lemma hostname_keeps args w ret w' : session_ok valid w → config_hostname args w = Some (ret, w') → session_ok valid w' ∧ accepted ret = true.
Proof.
  intros Hw. unfold config_hostname, cmd_hostname_set. argument 1. destruct (negb _); [printed|]. destruct (decide _); [printed|]. ostep. taken.
Qed.

(** A word as the password, encrypted if the host is to. *)
Lemma password_keeps crypt a w ret w' (plain : world B) (enc : cstring → host → host) : session_ok valid w → session_ok valid plain →
  (∀ e h, prompts (enc e h) = prompts h ∧ node_parents (enc e h) = node_parents h) →
  (if negb (starts_alnum a) then w ← say w (ln "Please specify string starting with alphanumeric"); Some (CMD_WARNING_CONFIG_FAILED, w)
   else if encrypt (whost w) then '(e, w) ← zencrypt crypt a w; Some (CMD_SUCCESS, set_host (enc e (whost w)) w)
   else Some (CMD_SUCCESS, plain)) = Some (ret, w') → session_ok valid w' ∧ accepted ret = true.
Proof.
  intros Hw Hp He. destruct (negb _); [printed|]. destruct (encrypt _); [|taken].
  destruct (zencrypt _ _ _) as [[e w1]|] eqn:E; [|done]. ostep. apply encrypt_keeps in E; [|done]. destruct (He e (whost w1)). taken.
Qed.

Lemma passwords_keep crypt args w ret w' : session_ok valid w →
  (config_password crypt args w = Some (ret, w') ∨ config_enable_password crypt args w = Some (ret, w')) → session_ok valid w' ∧ accepted ret = true.
Proof.
  intros Hw. unfold config_password, config_enable_password. intros [E|E]; revert E; destruct (decide _).
  - argument 2. taken.
  - argument 1. by apply (password_keeps crypt _ w ret w' _ (λ e, set_passwords None (Some e))).
  - argument 2. destruct (bool_decide _); [argument 3; taken|printed].
  - argument 2. by apply (password_keeps crypt _ w ret w' _ (λ e, set_enables None (Some e))).
Qed.

Lemma encrypting_keeps crypt args w ret w' : session_ok valid w → service_password_encrypt crypt args w = Some (ret, w') →
  session_ok valid w' ∧ accepted ret = true.
Proof.
  assert (∀ (p : option cstring) (f : cstring → cstring → host → host) w w', (∀ q e h, prompts (f q e h) = prompts h ∧ node_parents (f q e h) = node_parents h) →
    session_ok valid w → match p with Some q => '(e, w) ← zencrypt crypt q w; Some (set_host (f q e (whost w)) w) | None => Some w end = Some w' → session_ok valid w') as Hset.
  { intros [q|] f w1 w2 Hf Hw1; [|by intros [= <-]]. destruct (zencrypt crypt q w1) as [[e w3]|] eqn:E; [|done]. ostep. intros [= <-].
    apply encrypt_keeps in E; [|done]. destruct (Hf q e (whost w3)). by apply host_ok. }
  intros Hw. unfold service_password_encrypt. destruct (encrypt _); [taken|]. cbv zeta. set (w1 := set_host _ w).
  assert (session_ok valid w1) as Hw1 by (by apply host_ok). clearbody w1.
  match goal with |- (_ ← ?o; _) = _ → _ => destruct o as [w2|] eqn:E2; [ostep|done] end.
  apply (Hset _ (λ q e, set_passwords (Some q) (Some e))) in E2; [|done..].
  match goal with |- (_ ← ?o; _) = _ → _ => destruct o as [w3|] eqn:E3; [ostep|done] end.
  apply (Hset _ (λ q e, set_enables (Some q) (Some e))) in E3; [|done..]. taken.
Qed.

Lemma library_keeps crypt fuel motd names s d a : valid AUTH_ENABLE_NODE → valid ENABLE_NODE →
  Forall (λ f, command_keeps valid (CmdElement s d a f)) (library crypt fuel motd names).
Proof.
  intros Hae Hen. apply Forall_app. split; [eapply Forall_impl; [by apply (commands_good s d a motd)|]; intros f; apply good_keeps|].
  repeat apply Forall_cons_2; try apply Forall_nil_2; apply keeps_of; intros args w ret w' Hw.
  - by apply list_keeps.
  - by apply list_keeps.
  - by apply hostname_keeps.
  - done.
  - intros ?. eapply passwords_keep; eauto.
  - intros ?. eapply passwords_keep; eauto.
  - by apply encrypting_keeps.
  - unfold config_terminal_length. argument 2. destruct (atoi _); [ostep; taken|done].
  - unfold service_terminal_length. argument 2. destruct (atoi _); [ostep; taken|done].
  - unfold do_echo. destruct (argv_concat _ _); [ostep; printed|done].
  - unfold find. destruct (argv_concat _ _) as [[t|]|]; [|done..]. do 2 ostep. destruct (find_nodes _ _ _ _ _ _) as [w1|] eqn:E; [|done]. ostep. intros [= <- <-].
    split; [by eapply find_keeps|done].
Qed.

(** Its function is one of those. *)
Definition library_command (crypt : cstring → cstring → cstring) (e : cmd_element B) : Prop :=
  ∃ fuel motd names, func e ∈ library crypt fuel motd names.
End commands.


(** ** A host *)

(** The nodes up to the configuration node; those with commands know [exit], and the view
    node [enable], too. *)
Definition terminal_nodes : list (option cmd_node) :=
  [Some (CmdNode [] []);
   Some (CmdNode [Node (Tok (plumbing START_TKN)) [1; 3]; Node (Tok (word "enable")) [2]; Node (Tok (plumbing END_TKN)) [5];
                  Node (Tok (word "exit")) [4]; Node (Tok (plumbing END_TKN)) [6]; Node (Element 0) []; Node (Element 1) []] [Some 0; Some 1]);
   Some (CmdNode [] []); Some (CmdNode (one_word "exit" 1) [Some 1]); Some (CmdNode (one_word "exit" 1) [Some 1])].
Definition terminal_valid (n : Z) : Prop := (0 ≤ n ≤ 4)%Z.

Lemma terminal_case n : terminal_valid n → (n = 0 ∨ n = 1 ∨ n = 2 ∨ n = 3 ∨ n = 4)%Z.
Proof. unfold terminal_valid. lia. Qed.

(** Words, plumbing and the two commands. *)
Definition small_node (n : graph_node) : bool :=
  match ndata n with
  | Tok t => (bool_decide (type t = WORD_TKN) || special (type t)) && bool_decide (Forall (λ c, c ≠ 0 ∧ c ≠ BS)%Z (map code (text t)))
  | Element el => Nat.ltb el 2
  end.

Lemma small_good g : graph_ok g → forallb small_node g = true → (Z.of_nat (length g) < 2 ^ 31 - 2)%Z → graph_good login_commands g.
Proof.
  intros Hok Hall Hl. apply Is_true_true, forallb_True in Hall. rewrite Forall_lookup in Hall.
  assert (∀ i t, token_at g i = Some t → (type t = WORD_TKN ∨ special (type t) = true) ∧ text_ok (text t)) as Htok.
  { intros i t Hi. unfold token_at in Hi. destruct (g !! i) as [n|] eqn:En; [|done]. cbn in Hi. specialize (Hall i n En). unfold small_node in Hall.
    destruct (ndata n); [injection Hi as <-|done]. apply andb_True in Hall as [H1 H2]. split; [|by apply bool_decide_unpack in H2].
    apply orb_True in H1 as [H1|H1]; [left; by apply bool_decide_unpack in H1|right; by apply Is_true_true]. }
  split; [done|]. split; [|split; [|split; [|done]]].
  - intros i t w Hi. destruct (Htok i t Hi) as [[Ht|Ht] _]; unfold match_token.
    + rewrite Ht. eexists. split; [reflexivity|]. unfold match_word. by repeat case_match.
    + exists no_match. split; [|done]. by destruct (type t).
  - intros i t Hi. by destruct (Htok i t Hi).
  - intros i n el Hi Hn. specialize (Hall i n Hi). unfold small_node in Hall. rewrite Hn in Hall. apply lookup_lt_is_Some. by apply Nat.ltb_lt, Is_true_true.
Qed.

Lemma terminal_graphs : graphs_good terminal_nodes login_commands terminal_valid.
Proof.
  intros n Hn [Ha Hae]. destruct (terminal_case n Hn) as [->|[->|[->|[->| ->]]]]; try done; eexists; (split; [reflexivity|]); apply small_good;
    try (split; [by eexists|split; [discriminate|reflexivity]]); vm_compute; reflexivity.
Qed.

Lemma terminal_commands : Forall (command_good terminal_valid) login_commands.
Proof.
  pose proof (λ s, commands_good (B := buffer) terminal_valid s false CMD_ATTR_NORMAL [] ltac:(split; done) ltac:(split; done)) as Hg.
  constructor; [|constructor; [|constructor]].
  - exact (Forall_lookup_1 _ _ 1 enable (Hg (str "enable")) eq_refl).
  - exact (Forall_lookup_1 _ _ 3 config_exit (Hg (str "exit")) eq_refl).
Qed.

Definition terminal_host : host :=
  Host (str "r1") [Some (str "Password: "); Some (str "%s> "); Some (str "Password: "); Some (str "%s# "); Some (str "%s(config)# ")]
    [-1; -1; -1; -1; -1]%Z (Some (str "zebra")) None None None false false (-1) None None.
Definition terminal_world : world buffer := World session0 terminal_host 0 [].

Lemma terminal_ok : session_ok terminal_valid terminal_world.
Proof.
  pose proof new_line as [Hr [Hob _]]. split; [split; try done; [by eexists _, _|by eexists _, _; apply new_ring]|]. split; [|done].
  split_and!; try done.
  - intros n Hn. destruct (terminal_case n Hn) as [->|[->|[->|[->| ->]]]]; by eexists.
  - intros n Hn. left. destruct (terminal_case n Hn) as [->|[->|[->|[->| ->]]]]; tauto.
  - intros n Hn Hc. unfold terminal_valid, CONFIG_NODE in *. lia.
Qed.

(** Telnet negotiation, an arrow key, [e], tab, enter. *)
Definition some_bytes : list Z := [IAC; WILL; TELOPT_NAWS; 27; 91; 65; 101; 9; 63; 13]%Z.

