(* ===== verification/VtyTasks.v ===== *)
(** * The tasks of the terminal's sessions

    A session of vty.c has three variables, [t_read], [t_write] and [t_timeout],
    that hold its tasks in the event loop ([Thread]).  Here are the handlers and
    variables, the two steps by which [vty_event] and [vty_close] handle them, and
    what holds of the tasks at all times, [sched_ok]: every task is one of a session
    that lives, by its handler, its argument, its variable and its descriptor, or one
    of a listening socket.  Each operation on the event loop that the server does
    keeps it; [VtyServ] is the server.

    Functions and objects are numbers in the event loop: the session at [v] is the
    argument [S v], its variables are [3 * v] to [3 * v + 2]. *)
From stdpp Require Import prelude gmap list.
From S2P Require Import Prelude PQueue Thread ThreadFrame.
Set Default Goal Selector "!".

(** The handlers. *)
Definition F_ACCEPT : nat := 1.
Definition F_READ : nat := 2.
Definition F_FLUSH : nat := 3.
Definition F_TIMEOUT : nat := 4.

(** [&vty->t_read] and the like. *)
Definition t_read (v : nat) : nat := 3 * v.
Definition t_write (v : nat) : nat := 3 * v + 1.
Definition t_timeout (v : nat) : nat := 3 * v + 2.

(** [if (vty->t_...) thread_cancel(vty->t_...)] *)
Definition cancel_if (r : nat) (m : thread_master) : option thread_master :=
  x ← refs m !! r; match x with Some p => thread_cancel m p | None => Some m end.

(** [vty->t_timeout = NULL; thread_add_timer(..., vty->v_timeout, &vty->t_timeout)] *)
Definition add_timeout (now : timeval) (v : nat) (secs : Z) (m : thread_master) : option thread_master :=
  m ← set_ref (t_timeout v) None m;
  '(_, m) ← funcname_thread_add_timer now m F_TIMEOUT (S v) secs (Some (t_timeout v));
  Some m.


(** ** Who the tasks belong to *)

Inductive kind := KRead | KWrite | KTimeout.
Definition kvar (k : kind) (v : nat) : nat := match k with KRead => t_read v | KWrite => t_write v | KTimeout => t_timeout v end.
Definition kfun (k : kind) : nat := match k with KRead => F_READ | KWrite => F_FLUSH | KTimeout => F_TIMEOUT end.
Definition ktype (k : kind) : ttype := match k with KRead => THREAD_READ | KWrite => THREAD_WRITE | KTimeout => THREAD_TIMER end.

Lemma kvar_inj k k' v v' : kvar k v = kvar k' v' → k = k' ∧ v = v'.
Proof. destruct k, k'; cbn; unfold t_read, t_write, t_timeout; intros ?; (split; [|lia]); try done; lia. Qed.

Definition waits (ty : ttype) (t : thread) : Prop := type t = ty ∨ type t = THREAD_READY.
Definition session_task (v n : nat) (k : kind) (t : thread) : Prop :=
  func t = kfun k ∧ arg t = S v ∧ ref t = Some (kvar k v) ∧ waits (ktype k) t ∧ (k ≠ KTimeout → u t = U_fd n).
Definition accept_task (n : nat) (t : thread) : Prop :=
  func t = F_ACCEPT ∧ arg t = 0 ∧ ref t = None ∧ waits THREAD_READ t ∧ u t = U_fd n.

(** A task of a session that lives, or of a listening socket. *)
Definition owned (fds : gmap nat nat) (t : thread) : Prop :=
  (∃ v n k, fds !! v = Some n ∧ session_task v n k t) ∨ (∃ n, accept_task n t ∧ ∀ v, fds !! v ≠ Some n).

(** The task waits for connections on the descriptor. *)
Definition accepting (m : thread_master) (n : nat) (q : tptr) : Prop := ∃ t, scheduled_task m q t ∧ accept_task n t.

(** [fds] are the descriptors of the sessions that live. *)
Record sched_ok (m : thread_master) (fds : gmap nat nat) : Prop := SchedOk {
  k_inv : ∃ h, inv0 None m h;
  k_task : ∀ q t, scheduled_task m q t → owned fds t;
  k_accept : ∀ q q' n, accepting m n q → accepting m n q' → q = q';
  k_vars : ∀ v k, is_Some (refs m !! kvar k v) ↔ is_Some (fds !! v);
  k_inj : ∀ v v' n, fds !! v = Some n → fds !! v' = Some n → v = v' }.

Lemma waits_readied ty t t' : waits ty t → readied t t' → waits ty t'.
Proof. intros Hw [->| ->]; [done|by right]. Qed.

Lemma owned_readied fds t t' : owned fds t → readied t t' → owned fds t'.
Proof.
  intros [(v & n & k & Hv & Hf & Ha & Hr & Hw & Hu)|(n & (Hf & Ha & Hr & Hw & Hu) & Hn)] H.
  - left. exists v, n, k. split; [done|]. pose proof (waits_readied _ _ _ Hw H). by destruct H as [->| ->].
  - right. exists n. split; [|done]. pose proof (waits_readied _ _ _ Hw H). by destruct H as [->| ->].
Qed.

Lemma accept_back fds n t t' : owned fds t → readied t t' → accept_task n t' → accept_task n t.
Proof.
  intros Ho [->| ->] (Hf & Ha & Hr & Hw & Hu); [done|]. cbn in *.
  destruct Ho as [(v & n' & k & _ & _ & Hv & _)|(n' & (? & ? & ? & ? & Hn) & _)]; [congruence|]. rewrite Hu in Hn. injection Hn as ->. done.
Qed.

(** A variable that holds a task is the task's. *)
Lemma holds_task m fds v k q : sched_ok m fds → refs m !! kvar k v = Some (Some q) → ∃ t, scheduled_task m q t ∧ ref t = Some (kvar k v).
Proof.
  intros [(h & Hi) _ _ _ _] Hr. apply (i_ref _ _ _ Hi) in Hr as (t & Hq & Ht). exists t. split; [|done]. split; [done|].
  intros Hu. rewrite (i_unused _ _ _ Hi q t Hq Hu) in Ht. done.
Qed.

Lemma task_held m fds q t v k : sched_ok m fds → scheduled_task m q t → ref t = Some (kvar k v) → refs m !! kvar k v = Some (Some q).
Proof. intros [(h & Hi) _ _ _ _] [Hq _] Hr. apply (i_ref _ _ _ Hi). by exists t. Qed.

(** The listening sockets keep their tasks. *)
Definition same_accepts (m m' : thread_master) : Prop := ∀ n q, accepting m' n q ↔ accepting m n q.

#[global] Instance same_accepts_trans : Transitive same_accepts.
Proof. intros m1 m2 m3 H1 H2 n q. by rewrite (H2 n q). Qed.

Lemma kept_accepts gone m m' fds n q : sched_ok m fds → tasks_kept gone m m' → accepting m' n q ↔ accepting m n q ∧ gone ≠ Some q.
Proof.
  intros Hk Ht. split.
  - intros (t' & (Hg & t & Hs & Hrd)%(tk_from _ _ _ Ht) & Ha). split; [|done]. exists t. split; [done|]. by eapply accept_back; [apply (k_task _ _ Hk q)|..].
  - intros [(t & Hs & Hf & Ha & Hr & Hw & Hu) Hg]. destruct (tk_to _ _ _ Ht q t Hs Hg) as (t' & Hs' & Hrd). exists t'. split; [done|].
    pose proof (waits_readied _ _ _ Hw Hrd). by destruct Hrd as [->| ->].
Qed.

Lemma kept_ok gone m m' fds : sched_ok m fds → (∃ h, inv0 None m' h) → tasks_kept gone m m' →
  (∀ r, is_Some (refs m' !! r) ↔ is_Some (refs m !! r)) → sched_ok m' fds.
Proof.
  intros Hk Hi Ht Hr. split; [done| | |intros v k; rewrite Hr; apply Hk|apply Hk].
  - intros q t' (_ & t & Hs & Hrd)%(tk_from _ _ _ Ht). eapply owned_readied; [|done]. by apply (k_task _ _ Hk q).
  - intros q q' n [H1 _]%(kept_accepts gone m m' fds n q Hk Ht) [H2 _]%(kept_accepts gone m m' fds n q' Hk Ht). by apply (k_accept _ _ Hk q q' n).
Qed.

Lemma insert_dom_same (g : gmap nat (option tptr)) r x r' : is_Some (g !! r) → is_Some (<[r := x]> g !! r') ↔ is_Some (g !! r').
Proof. intros Hr. destruct (decide (r = r')) as [->|Hne]; [rewrite lookup_insert_eq; split; [done|by eexists]|by rewrite lookup_insert_ne]. Qed.

Lemma cancel_if_ok m fds v k : sched_ok m fds → is_Some (fds !! v) →
  ∃ m', cancel_if (kvar k v) m = Some m' ∧ sched_ok m' fds ∧ refs m' = <[kvar k v := None]> (refs m) ∧ same_accepts m m'.
Proof.
  intros Hk Hv. destruct (proj2 (k_vars _ _ Hk v k) Hv) as [x Hx]. unfold cancel_if. rewrite Hx. cbn [mbind option_bind].
  destruct x as [p|]; [|exists m; split; [done|]; split; [done|]; split; [by rewrite insert_id|done]].
  destruct (holds_task m fds v k p Hk Hx) as (t & Ht & Hr). destruct (k_inv _ _ Hk) as [h Hi].
  destruct (thread_cancel_spec m h p t Hi (proj1 Ht) (proj2 Ht)) as (m' & h' & E & _). exists m'. split; [done|].
  destruct (cancel_keeps m h p t m' Hi Ht E) as (h1 & Hi1 & Hkp & _ & Hrf). rewrite Hr in Hrf. split; [|split; [done|]].
  2: { intros n q. rewrite (kept_accepts (Some p) m m' fds n q Hk Hkp). split; [tauto|]. intros Ha. split; [done|]. intros [= ->].
    destruct Ha as (t1 & [H1 _] & _ & _ & Ha & _). destruct Ht as [Ht _]. congruence. }
  eapply kept_ok; [done|by exists h1|done|]. intros r. rewrite Hrf. apply insert_dom_same. by eexists.
Qed.

Lemma set_ref_same r m : refs m !! r = Some None → set_ref r None m = Some m.
Proof. intros Hr. unfold set_ref. rewrite Hr. cbn. rewrite insert_id by done. by destruct m. Qed.

Lemma added_task m m' p t t_ptr q t' : added m m' p t t_ptr → scheduled_task m' q t' → q = p ∧ t' = t ∨ q ≠ p ∧ scheduled_task m q t'.
Proof.
  intros Ha [Hq Ht]. rewrite (ad_mem _ _ _ _ _ Ha) in Hq. destruct (decide (q = p)) as [->|Hne].
  - rewrite lookup_insert_eq in Hq. injection Hq as <-. by left.
  - rewrite lookup_insert_ne in Hq by done. by right.
Qed.

Lemma added_accepts m m' p t t_ptr n q : added m m' p t t_ptr → type t ≠ THREAD_UNUSED → accepting m' n q ↔ accepting m n q ∨ q = p ∧ accept_task n t.
Proof.
  intros Ha Ht. split.
  - intros (t' & [[-> ->]|[_ Hs]]%(added_task _ _ _ _ _ _ _ Ha) & Hn); [by right|]. left. by exists t'.
  - intros [(t' & Hs & Hn)|[-> Hn]]; [exists t'|exists t]; (split; [|done]); unfold scheduled_task; rewrite (ad_mem _ _ _ _ _ Ha).
    + destruct (decide (p = q)) as [->|Hne]; [by destruct (ad_new _ _ _ _ _ Ha t')|]. by rewrite lookup_insert_ne.
    + by rewrite lookup_insert_eq.
Qed.

Lemma added_ok m m' fds p t t_ptr : sched_ok m fds → (∃ h, inv0 None m' h) → added m m' p t t_ptr → owned fds t →
  (∀ r, t_ptr = Some r → is_Some (refs m !! r)) → (∀ q n, accepting m n q → ¬ accept_task n t) → sched_ok m' fds.
Proof.
  intros Hk Hi Ha Ho Hr Hu. assert (type t ≠ THREAD_UNUSED) as Ht.
  { destruct Ho as [(? & ? & k & _ & _ & _ & _ & [-> | ->] & _)|(? & (_ & _ & _ & [-> | ->] & _) & _)]; try done. by destruct k. }
  split; [done| | | |apply Hk].
  - intros q t' [[-> ->]|[_ Hs]]%(added_task _ _ _ _ _ _ _ Ha); [done|]. by apply (k_task _ _ Hk q).
  - intros q q' n [H1|[-> H1]]%(added_accepts _ _ _ _ _ _ _ Ha Ht) [H2|[-> H2]]%(added_accepts _ _ _ _ _ _ _ Ha Ht); [|by destruct (Hu _ _ H1)|by destruct (Hu _ _ H2)|done].
    by apply (k_accept _ _ Hk q q' n).
  - intros v k. rewrite (ad_refs _ _ _ _ _ Ha). destruct t_ptr as [r|]; [rewrite insert_dom_same by (by apply Hr)|]; apply Hk.
Qed.

Lemma added_same m m' p t t_ptr : added m m' p t t_ptr → type t ≠ THREAD_UNUSED → ref t ≠ None → same_accepts m m'.
Proof. intros Ha Ht Hr n q. rewrite (added_accepts m m' p t t_ptr n q Ha Ht). split; [|by left]. by intros [?|[_ (_ & _ & ? & _)]]. Qed.

(** A session's descriptor is polled for its own task only. *)
Lemma io_free m fds v n (w : bool) q t : let k := if w then KWrite else KRead in sched_ok m fds → fds !! v = Some n →
  refs m !! kvar k v = Some None → scheduled_task m q t → type t = io_type w → u t ≠ U_fd n.
Proof.
  intros k Hk Hv Hr Hq Ht Hu. destruct (k_task _ _ Hk q t Hq) as [(v' & n' & k' & Hv' & _ & _ & Hr' & [Hw|Hw] & Hu')|(n' & (_ & _ & _ & _ & Hu') & Hn)].
  - assert (k' = k) as -> by (subst k; destruct k', w; cbn in *; congruence). assert (n' = n) as ->. { assert (u t = U_fd n') by (apply Hu'; subst k; by destruct w). congruence. }
    rewrite (k_inj _ _ Hk v' v n Hv' Hv) in Hr'. pose proof (task_held m fds q t v k Hk Hq Hr'). congruence.
  - rewrite Hw in Ht. by destruct w.
  - apply (Hn v). congruence.
Qed.

Lemma add_io_ok (w : bool) m fds v n r m' : let k := if w then KWrite else KRead in sched_ok m fds → fds !! v = Some n → refs m !! kvar k v = Some None →
  funcname_thread_add_read_write w m (kfun k) (S v) (Z.of_nat n) (Some (kvar k v)) = Some (r, m') →
  sched_ok m' fds ∧ same_accepts m m' ∧ ∃ p, refs m' = <[kvar k v := Some p]> (refs m).
Proof.
  intros k Hk Hv Hr E. destruct (k_inv _ _ Hk) as [h Hi].
  destruct (add_rw_kept w m h (kfun k) (S v) n (Some (kvar k v)) r m' Hi) as (Hi' & p & _ & Ha); [by intros ? [= <-]| |exact E|].
  { intros q t. by apply (io_free m fds v n w). }
  split; [|split; [by eapply added_same; [exact Ha|..]; try done; cbn; by destruct w|exists p; apply (ad_refs _ _ _ _ _ Ha)]]. eapply added_ok; [done|by exists h|exact Ha| | |].
  - left. exists v, n, k. split; [done|]. split_and!; try done. left. subst k. by destruct w.
  - intros ? [= <-]. by eexists.
  - intros ? ? _ (Hf & _). subst k. by destruct w.
Qed.

Lemma add_timeout_ok now m fds v secs m' : sched_ok m fds → is_Some (fds !! v) → refs m !! t_timeout v = Some None →
  add_timeout now v secs m = Some m' → sched_ok m' fds ∧ same_accepts m m' ∧ ∃ p, refs m' = <[t_timeout v := Some p]> (refs m).
Proof.
  intros Hk [n Hv] Hr E. destruct (k_inv _ _ Hk) as [h Hi]. unfold add_timeout in E. rewrite set_ref_same in E by done. cbn [mbind option_bind] in E.
  apply bind_Some in E as ([r m1] & E & [= <-]). unfold funcname_thread_add_timer in E.
  assert (∀ x, Some (t_timeout v) = Some x → refs m !! x = Some None) as Hfree by (by intros ? [= <-]).
  destruct (add_timer_kept _ _ _ _ _ _ _ _ _ Hi Hfree E) as (Hi' & p & _ & Ha).
  split; [|split; [by eapply added_same|exists p; apply (ad_refs _ _ _ _ _ Ha)]]. eapply added_ok; [done|done|exact Ha| | |].
  - left. exists v, n, KTimeout. split; [done|]. split_and!; try done. by left.
  - intros ? [= <-]. by eexists.
  - by intros ? ? _ (Hf & _).
Qed.

(** The task of a listening socket is put back. *)
Lemma add_accept_ok m fds n r m' : sched_ok m fds → (∀ v, fds !! v ≠ Some n) → (∀ q, ¬ accepting m n q) →
  funcname_thread_add_read_write false m F_ACCEPT 0 (Z.of_nat n) None = Some (r, m') →
  sched_ok m' fds ∧ refs m' = refs m ∧ ∃ p, r = Some p ∧ (∀ n' q, accepting m' n' q ↔ accepting m n' q ∨ q = p ∧ n' = n)
    ∧ ∀ q t, scheduled_task m' q t → q = p ∧ accept_task n t ∨ scheduled_task m q t.
Proof.
  intros Hk Hn Ha E. destruct (k_inv _ _ Hk) as [h Hi].
  destruct (add_rw_kept false m h F_ACCEPT 0 n None r m' Hi) as (Hi' & p & Hr & Had); [done| |exact E|].
  { intros q t Hq Ht Hu. destruct (k_task _ _ Hk q t Hq) as [(v & n' & k & Hv & _ & _ & _ & Hw & Hu')|(n' & Ht' & _)].
    - assert (u t = U_fd n') as Hx by (apply Hu'; intros ->; destruct Hw as [Hw|Hw]; rewrite Hw in Ht; done). apply (Hn v). congruence.
    - assert (n' = n) as -> by (destruct Ht' as (_ & _ & _ & _ & ?); congruence). apply (Ha q). by exists t. }
  assert (∀ n', accept_task n' (Thread THREAD_READ THREAD_READ None F_ACCEPT 0 (U_fd n)) ↔ n' = n) as Hx.
  { intros n'. split; [by intros (_ & _ & _ & _ & [= ->])|intros ->; split_and!; try done; by left]. }
  split; [|split; [by rewrite (ad_refs _ _ _ _ _ Had)|]].
  - eapply added_ok; [done|by exists h|exact Had| |done|].
    + right. exists n. by split; [apply Hx|].
    + intros q n' Hq ->%Hx. by destruct (Ha q).
  - exists p. split; [done|]. split.
    + intros n' q. rewrite (added_accepts _ _ _ _ _ n' q Had) by done. by setoid_rewrite Hx.
    + intros q t [[-> ->]|[_ Hs]]%(added_task _ _ _ _ _ _ _ Had); [|by right]. left. split; [done|]. by apply Hx.
Qed.

(** What is handed out belongs to a session that lives, or to a listening socket
    that then has no task. *)
Lemma fetch_ok env m fds r m' : sched_ok m fds → pfdcount m + 1 < fd_limit m → thread_fetch env m = Some (r, m') →
  sched_ok m' fds ∧ match r with
                    | Task t => owned fds t ∧ (∀ x, ref t = Some x → refs m' !! x = Some None ∧ same_accepts m m')
                        ∧ (∀ n, accept_task n t → ∀ n' q, accepting m' n' q ↔ accepting m n' q ∧ n' ≠ n)
                        ∧ (∀ q t', scheduled_task m' q t' → ∃ t0, scheduled_task m q t0 ∧ u t0 = u t')
                        ∧ (∀ n, accept_task n t → ∃ q, accepting m n q)
                    | _ => same_accepts m m'
                    end.
Proof.
  intros Hk Hroom E. destruct (k_inv _ _ Hk) as [h Hi]. destruct (fetch_keeps env m h r m' Hi Hroom E) as (h' & Hi' & _ & _ & He).
  assert (∀ gone n q, tasks_kept gone m m' → accepting m' n q ↔ accepting m n q ∧ gone ≠ Some q) as Hacc by (intros gone n q; by apply (kept_accepts gone m m' fds)).
  destruct r as [t| | |]; cbn in He; [|destruct He as [Hrf Hkp]; (split; [eapply kept_ok; [done|by exists h'|done|by rewrite Hrf]|]);
    intros n q; rewrite (Hacc None n q Hkp); (split; [tauto|by split])..].
  destruct He as (p & t0 & Ht0 & Hrd & Hkp & Hrf). pose proof (k_task _ _ Hk p t0 Ht0) as Ho. split; [|split_and!].
  - eapply kept_ok; [done|by exists h'|done|]. intros x. rewrite Hrf. destruct (ref t) as [y|] eqn:Ey; [|done]. apply insert_dom_same.
    assert (ref t0 = Some y) as Ey0 by (by destruct Hrd as [->| ->]). destruct Ht0 as [Hm _].
    rewrite (proj1 (i_ref _ _ _ Hi p y)); [by eexists|by exists t0].
  - by eapply owned_readied.
  - intros x Hx. split; [rewrite Hrf, Hx; apply lookup_insert_eq|]. intros n q. rewrite (Hacc (Some p) n q Hkp). split; [tauto|].
    intros Ha. split; [done|]. intros [= ->]. destruct Ha as (t1 & [H1 _] & _ & _ & Ha & _). destruct Ht0 as [Hm _].
    assert (ref t0 = Some x) by (by destruct Hrd as [->| ->]). congruence.
  - intros n Hn n' q. rewrite (Hacc (Some p) n' q Hkp). assert (accepting m n p) as Hp by (exists t0; split; [done|]; by eapply accept_back).
    split; intros [Ha Hne]; (split; [done|]).
    + intros ->. apply Hne. f_equal. by apply (k_accept _ _ Hk p q n).
    + intros [= ->]. apply Hne. destruct Ha as (t1 & [H1 _] & _ & _ & _ & _ & Hu1), Hp as (t2 & [H2 _] & _ & _ & _ & _ & Hu2). congruence.
  - intros q t' (_ & t1 & Ht1 & Hrd1)%(tk_from _ _ _ Hkp). exists t1. split; [done|]. by destruct Hrd1 as [->| ->].
  - intros n Hn. exists p, t0. split; [done|]. by eapply accept_back.
Qed.

Lemma kvar_list x v : x ∈ [t_read v; t_write v; t_timeout v] ↔ ∃ k, x = kvar k v.
Proof.
  rewrite !elem_of_cons, elem_of_nil. split.
  - intros [->|[->|[->|[]]]]; [by exists KRead|by exists KWrite|by exists KTimeout].
  - intros [[] ->]; auto.
Qed.

(** A new session has its variables and no tasks. *)
Lemma open_ok m fds v n : sched_ok m fds → fds !! v = None → (∀ v', fds !! v' ≠ Some n) → (∀ q t, scheduled_task m q t → u t ≠ U_fd n) →
  sched_ok (add_vars [t_read v; t_write v; t_timeout v] m) (<[v := n]> fds) ∧ ∀ k, refs (add_vars [t_read v; t_write v; t_timeout v] m) !! kvar k v = Some None.
Proof.
  intros Hk Hv Hn Hu. destruct (k_inv _ _ Hk) as [h Hi]. destruct (add_vars_ok [t_read v; t_write v; t_timeout v] m h Hi) as [Hi' Hl].
  { intros x (k & ->)%kvar_list. apply eq_None_not_Some. rewrite (k_vars _ _ Hk v k), Hv. by intros [? ?]. }
  split; [split|].
  - by exists h.
  - intros q t Hs. destruct (k_task _ _ Hk q t Hs) as [(v' & n' & k & Hv' & Ht)|(n' & Ht & Hn')].
    + left. exists v', n', k. split; [|done]. rewrite lookup_insert_ne; [done|congruence].
    + right. exists n'. split; [done|]. intros v'. destruct (decide (v = v')) as [->|Hne]; [rewrite lookup_insert_eq|by rewrite lookup_insert_ne].
      intros [= ->]. apply (Hu q t Hs). apply Ht.
  - apply (k_accept _ _ Hk).
  - intros v' k. rewrite Hl. case_decide as Hin.
    + apply kvar_list in Hin as (k' & [_ ->]%kvar_inj). rewrite lookup_insert_eq. split; by eexists.
    + rewrite lookup_insert_ne; [apply Hk|]. intros ->. apply Hin. apply kvar_list. by exists k.
  - intros v1 v2 n' [[<- <-]|[Hne H1]]%lookup_insert_Some [[<- E]|[Hne' H2]]%lookup_insert_Some; [done|by destruct (Hn v2)|subst; by destruct (Hn v1)|].
    by apply (k_inj _ _ Hk v1 v2 n').
  - intros k. rewrite Hl, decide_True; [done|]. apply kvar_list. by exists k.
Qed.

(** A session that goes leaves no task behind. *)
Lemma close_ok m fds v : sched_ok m fds → (∀ k, refs m !! kvar k v = Some None) →
  sched_ok (drop_vars [t_read v; t_write v; t_timeout v] m) (delete v fds).
Proof.
  intros Hk Hv. destruct (k_inv _ _ Hk) as [h Hi]. destruct (drop_vars_ok [t_read v; t_write v; t_timeout v] m h Hi) as [Hi' Hl].
  { intros x q (k & ->)%kvar_list. by rewrite Hv. }
  split.
  - by exists h.
  - intros q t Hs. destruct (k_task _ _ Hk q t Hs) as [(v' & n' & k & Hv' & Ht)|(n' & Ht & Hn')].
    + left. exists v', n', k. split; [|done]. rewrite lookup_delete_ne; [done|]. intros <-. pose proof (task_held m fds q t v k Hk Hs) as Hh.
      rewrite Hv in Hh. destruct Ht as (_ & _ & Hr & _). by specialize (Hh Hr).
    + right. exists n'. split; [done|]. intros v' [_ ?]%lookup_delete_Some. by destruct (Hn' v').
  - apply (k_accept _ _ Hk).
  - intros v' k. rewrite Hl. case_decide as Hin.
    + apply kvar_list in Hin as (k' & [_ ->]%kvar_inj). rewrite lookup_delete_eq. split; by intros [? ?].
    + rewrite lookup_delete_ne; [apply Hk|]. intros ->. apply Hin. apply kvar_list. by exists k.
  - intros v1 v2 n' [_ H1]%lookup_delete_Some [_ H2]%lookup_delete_Some. by apply (k_inj _ _ Hk v1 v2 n').
Qed.
