(* ===== verification/VtyServ.v ===== *)
(** * Sessions of the terminal server: the rest of lib/vty.c

    The server accepts connections, gives each a session and runs the session's
    handlers as tasks of the event loop ([Thread]).  A session's three variables
    [t_read], [t_write] and [t_timeout] hold its tasks; [vty_event] schedules them,
    [vty_close] cancels them and frees the session.  Sessions live in [conns],
    told apart by their address; [vtyvec] finds them by descriptor.  A turn of the
    loop is [server_turn]: [thread_fetch] hands out a task, and its handler runs.
    What comes from outside in a turn (poll, the clock, a new connection, bytes,
    what the descriptor takes) is an [input].

    Functions and objects are numbers in the event loop: see [F_READ] and the like;
    the session at [v] is the argument [S v], its variables are [3 * v] to
    [3 * v + 2].  Shell sessions, stdio and the listening sockets' set-up are left
    out. *)
From Stdlib Require Import Ascii String.
From stdpp Require Import prelude gmap list.
From S2P Require Import Prelude PQueue Thread ThreadFrame Vector CString FrrStr Buffer Vty Prefix PrefixText TokenMatch CommandMatch Command VtyRead VtySafe VtyTasks.
Set Default Goal Selector "!".
#[local] Opaque VTY_BUFSIZ.

Definition VTY_TIMEOUT_DEFAULT : Z := 600.

Record conn := Conn {
  cvty : vty buffer;
  cfd : nat;               (* fd and wfd *)
  v_timeout : Z;
  address : cstring;
  cchanges : nat;          (* num_cfg_changes *)
}.

Record server := Server {
  master : thread_master;
  conns : gmap nat conn;
  vtyvec : vector nat;
  Vvty_serv_thread : vector tptr;
  shost : host;
  vty_timeout_val : Z;
  no_password_check : bool;
  accesslist : option cstring;         (* vty_accesslist_name *)
  ipv6_accesslist : option cstring;
  do_log_commands : bool;
  do_log_commands_perm : bool;
  srandoms : list (Z * Z);
  sfresh : nat;
}.

Definition set_master (m : thread_master) (s : server) : server :=
  Server m (conns s) (vtyvec s) (Vvty_serv_thread s) (shost s) (vty_timeout_val s) (no_password_check s) (accesslist s) (ipv6_accesslist s)
    (do_log_commands s) (do_log_commands_perm s) (srandoms s) (sfresh s).
Definition set_conns (cs : gmap nat conn) (s : server) : server :=
  Server (master s) cs (vtyvec s) (Vvty_serv_thread s) (shost s) (vty_timeout_val s) (no_password_check s) (accesslist s) (ipv6_accesslist s)
    (do_log_commands s) (do_log_commands_perm s) (srandoms s) (sfresh s).
Definition set_vtyvec (x : vector nat) (s : server) : server :=
  Server (master s) (conns s) x (Vvty_serv_thread s) (shost s) (vty_timeout_val s) (no_password_check s) (accesslist s) (ipv6_accesslist s)
    (do_log_commands s) (do_log_commands_perm s) (srandoms s) (sfresh s).
Definition set_serv (x : vector tptr) (s : server) : server :=
  Server (master s) (conns s) (vtyvec s) x (shost s) (vty_timeout_val s) (no_password_check s) (accesslist s) (ipv6_accesslist s)
    (do_log_commands s) (do_log_commands_perm s) (srandoms s) (sfresh s).
Definition set_shost (h : host) (s : server) : server :=
  Server (master s) (conns s) (vtyvec s) (Vvty_serv_thread s) h (vty_timeout_val s) (no_password_check s) (accesslist s) (ipv6_accesslist s)
    (do_log_commands s) (do_log_commands_perm s) (srandoms s) (sfresh s).
Definition set_timeout_val (t : Z) (s : server) : server :=
  Server (master s) (conns s) (vtyvec s) (Vvty_serv_thread s) (shost s) t (no_password_check s) (accesslist s) (ipv6_accesslist s)
    (do_log_commands s) (do_log_commands_perm s) (srandoms s) (sfresh s).
Definition set_password_check (b : bool) (s : server) : server :=
  Server (master s) (conns s) (vtyvec s) (Vvty_serv_thread s) (shost s) (vty_timeout_val s) b (accesslist s) (ipv6_accesslist s)
    (do_log_commands s) (do_log_commands_perm s) (srandoms s) (sfresh s).
Definition set_lists (a b : option cstring) (s : server) : server :=
  Server (master s) (conns s) (vtyvec s) (Vvty_serv_thread s) (shost s) (vty_timeout_val s) (no_password_check s) a b
    (do_log_commands s) (do_log_commands_perm s) (srandoms s) (sfresh s).
Definition set_log (b : bool) (s : server) : server :=
  Server (master s) (conns s) (vtyvec s) (Vvty_serv_thread s) (shost s) (vty_timeout_val s) (no_password_check s) (accesslist s) (ipv6_accesslist s)
    b (do_log_commands_perm s) (srandoms s) (sfresh s).
Definition set_randoms (r : list (Z * Z)) (s : server) : server :=
  Server (master s) (conns s) (vtyvec s) (Vvty_serv_thread s) (shost s) (vty_timeout_val s) (no_password_check s) (accesslist s) (ipv6_accesslist s)
    (do_log_commands s) (do_log_commands_perm s) r (sfresh s).
Definition set_sfresh (n : nat) (s : server) : server :=
  Server (master s) (conns s) (vtyvec s) (Vvty_serv_thread s) (shost s) (vty_timeout_val s) (no_password_check s) (accesslist s) (ipv6_accesslist s)
    (do_log_commands s) (do_log_commands_perm s) (srandoms s) n.

Definition set_cvty (x : vty buffer) (c : conn) : conn := Conn x (cfd c) (v_timeout c) (address c) (cchanges c).
Definition set_ctimeout (t : Z) (c : conn) : conn := Conn (cvty c) (cfd c) t (address c) (cchanges c).
Definition put_conn (v : nat) (c : conn) (s : server) : server := set_conns (<[v := c]> (conns s)) s.
Definition set_cstatus (x : vty_status) (c : conn) : conn := set_cvty (set_ss (set_status x (ss (cvty c))) (cvty c)) c.

(** [vty_init] and the variables that have their initial values. *)
Definition vty_init (m : thread_master) (h : host) (do_command_logging : bool) (rs : list (Z * Z)) : server :=
  Server m ∅ (vector_init VECTOR_MIN_SIZE) (vector_init VECTOR_MIN_SIZE) h VTY_TIMEOUT_DEFAULT false None None
    do_command_logging do_command_logging rs 0.

(** ** Events *)

Inductive event := VTY_SERV | VTY_READ | VTY_WRITE | VTY_TIMEOUT_RESET.

Definition vty_event (now : timeval) (e : event) (sock : nat) (v : nat) (s : server) : option server :=
  match e with
  | VTY_SERV =>
      '(p, m) ← funcname_thread_add_read_write false (master s) F_ACCEPT 0 (Z.of_nat sock) None;
      '(vec, _) ← vector_set_index (Vvty_serv_thread s) sock p;
      Some (set_serv vec (set_master m s))
  | VTY_READ =>
      c ← conns s !! v;
      m ← set_ref (t_read v) None (master s);
      '(_, m) ← funcname_thread_add_read_write false m F_READ (S v) (Z.of_nat sock) (Some (t_read v));
      m ← (if (v_timeout c =? 0)%Z then Some m else m ← cancel_if (t_timeout v) m; add_timeout now v (v_timeout c) m);
      Some (set_master m s)
  | VTY_WRITE =>
      '(_, m) ← funcname_thread_add_read_write true (master s) F_FLUSH (S v) (Z.of_nat sock) (Some (t_write v));
      Some (set_master m s)
  | VTY_TIMEOUT_RESET =>
      c ← conns s !! v;
      m ← cancel_if (t_timeout v) (master s);
      m ← set_ref (t_timeout v) None m;
      m ← (if (v_timeout c =? 0)%Z then Some m else add_timeout now v (v_timeout c) m);
      Some (set_master m s)
  end.

(** ** Closing *)

(** Output that is left is written as far as the descriptor takes it. *)
Definition vty_close (v : nat) (f : fd_state) (s : server) : option (fd_state * server) :=
  c ← conns s !! v;
  m ← cancel_if (t_read v) (master s);
  m ← cancel_if (t_write v) m;
  m ← cancel_if (t_timeout v) m;
  '(_, _, f) ← buffer_flush_all (obuf (Vty.out (cvty c))) (Z.of_nat (cfd c)) f;
  vec ← vector_unset (vtyvec s) (cfd c);
  Some (f, set_master (drop_vars [t_read v; t_write v; t_timeout v] m) (set_vtyvec vec (set_conns (delete v (conns s)) s))).

Definition reset_both (c : conn) : conn :=
  let o := Vty.out (cvty c) in set_cvty (set_out (put_lbuf (put_obuf o (buffer_reset (obuf o))) (buffer_reset (lbuf o))) (cvty c)) c.

Definition vty_timeout (v : nat) (f : fd_state) (s : server) : option (fd_state * server) :=
  c ← conns s !! v;
  m ← set_ref (t_timeout v) None (master s);
  x ← vty_out (cvty (reset_both c)) (newline ++ ln "Vty connection is timed out.");
  vty_close v f (set_master m (put_conn v (set_cstatus VTY_CLOSE (set_ctimeout 0 (set_cvty x c))) s)).

(** ** Writing *)

Definition vty_flush (now : timeval) (v : nat) (f : fd_state) (s : server) : option (fd_state * server) :=
  c ← conns s !! v;
  m ← set_ref (t_write v) None (master s);
  let t := tn (cvty c) in
  m ← (if (lines t =? 0)%Z then m ← cancel_if (t_read v) m; set_ref (t_read v) None m else Some m);
  let erase := bool_decide (status (ss (cvty c)) = VTY_MORE ∨ status (ss (cvty c)) = VTY_MORELINE) in
  let o := Vty.out (cvty c) in
  let '(flushrc, b, f) :=
    if ((lines t =? 0) || (width t =? 0) || (height t =? 0))%Z then buffer_flush_available (obuf o) (Z.of_nat (cfd c)) f
    else if decide (status (ss (cvty c)) = VTY_MORELINE) then buffer_flush_window (obuf o) (width t) 1 erase false f
    else buffer_flush_window (obuf o) (width t) (if (0 <=? lines t)%Z then lines t else height t) erase false f in
  let c := set_cvty (set_out (put_obuf o b) (cvty c)) c in
  let s := set_master m (put_conn v c s) in
  match flushrc with
  | BUFFER_ERROR => vty_close v f (put_conn v (reset_both c) s)
  | BUFFER_EMPTY =>
      if decide (status (ss (cvty c)) = VTY_CLOSE) then vty_close v f s
      else
        let s := put_conn v (set_cstatus VTY_NORMAL c) s in
        s ← (if (lines t =? 0)%Z then vty_event now VTY_READ (cfd c) v s else Some s);
        Some (f, s)
  | BUFFER_PENDING =>
      let s := put_conn v (set_cstatus VTY_MORE c) s in
      s ← (if (lines t =? 0)%Z then vty_event now VTY_WRITE (cfd c) v s else Some s);
      Some (f, s)
  end.

(** ** New sessions *)

(** Trailing white space is cut off. *)
Fixpoint rtrim (s : cstring) : cstring :=
  match s with
  | [] => []
  | c :: s => match rtrim s with [] => if isspace c then [] else [c] | r => c :: r end
  end.

Fixpoint out_all (ps : list cstring) (x : vty buffer) : option (vty buffer) :=
  match ps with [] => Some x | p :: ps => x ← vty_out x p; out_all ps x end.

(** [fopen name] is what [fgets] returns call by call, if the file can be opened. *)
Definition vty_hello (fopen : cstring → option (list cstring)) (h : host) (x : vty buffer) : option (vty buffer) :=
  match motdfile h with
  | Some name =>
      match fopen name with
      | Some ls => out_all (map (λ l, rtrim l ++ newline) ls) x
      | None => vty_out x (ln "MOTD file not found")
      end
  | None => match motd h with Some m => vty_out x m | None => Some x end
  end.

Definition vty_will_echo (x : vty buffer) : option (vty buffer) := vty_out x (chr <$> [IAC; WILL; TELOPT_ECHO]).
Definition vty_will_suppress_go_ahead (x : vty buffer) : option (vty buffer) := vty_out x (chr <$> [IAC; WILL; TELOPT_SGA]).
Definition vty_dont_linemode (x : vty buffer) : option (vty buffer) := vty_out x (chr <$> [IAC; DONT; TELOPT_LINEMODE]).
Definition vty_do_window_size (x : vty buffer) : option (vty buffer) := vty_out x (chr <$> [IAC; DO; TELOPT_NAWS]).

Definition SU_ADDRSTRLEN : nat := 46.

(** What comes from outside in a turn of the loop. *)
Record input := Input {
  in_env : list poll_result;
  in_now : timeval;
  in_accept : option (nat * cstring);    (* the new descriptor and the peer's address as text *)
  in_read : read_result;
  in_timeouts : list Z;                  (* set by the exec-timeout commands among the lines that are read *)
  in_fd : fd_state;                      (* what the session's descriptor takes *)
}.

Section server.
Context `{Inet} (pgsz : Z) (fopen : cstring → option (list cstring)).
Context (cmdvec : list (option cmd_node)) (elements : list (cmd_element buffer)) (varhandlers : list cmd_variable_handler)
  (crypt : cstring → cstring → cstring).

(** The fields that [vty_create] fills in. *)
Definition new_session (sock : nat) (addr : cstring) (s : server) : conn :=
  let h := shost s in
  let x := vty_new_init pgsz in
  let x := if no_password_check s then set_ss (set_node (if advanced h then ENABLE_NODE else VIEW_NODE) (ss x)) x else x in
  let x := if (0 <=? host_lines h)%Z then set_tn (set_vlines (host_lines h) (tn x)) x else x in
  Conn x sock (vty_timeout_val s) (take (SU_ADDRSTRLEN - 1) addr) 0.

(** The texts and telnet options a new peer is sent, up to the prompt. *)
Definition greet (h : host) (no_password : bool) (x : vty buffer) : option (vty buffer) :=
  x ← vty_hello fopen h x;
  x ← (if no_password then Some x else vty_out x (newline ++ ln "User Access Verification" ++ newline));
  x ← vty_will_echo x;
  x ← vty_will_suppress_go_ahead x;
  x ← vty_dont_linemode x;
  x ← vty_do_window_size x;
  vty_prompt h x.

Definition vty_create (now : timeval) (sock : nat) (addr : cstring) (f : fd_state) (s : server) : option (fd_state * server) :=
  let v := sfresh s in
  '(vec, _) ← vector_set_index (vtyvec s) sock (Some v);
  let c := new_session sock addr s in
  let s := set_sfresh (S v) (set_vtyvec vec (set_master (add_vars [t_read v; t_write v; t_timeout v] (master s)) s)) in
  if negb (no_password_check s) && bool_decide (password (shost s) = None ∧ password_encrypt (shost s) = None) then
    x ← vty_out (cvty c) (ln "Vty password is not set.");
    vty_close v f (put_conn v (set_cstatus VTY_CLOSE (set_cvty x c)) s)
  else
    x ← greet (shost s) (no_password_check s) (cvty c);
    s ← vty_event now VTY_WRITE sock v (put_conn v (set_cvty x c) s);
    s ← vty_event now VTY_READ sock v s;
    Some (f, s).

Definition vty_accept (i : input) (accept_sock : nat) (s : server) : option (fd_state * server) :=
  s ← vty_event (in_now i) VTY_SERV accept_sock 0 s;
  match in_accept i with
  | None => Some (in_fd i, s)
  | Some (sock, addr) => vty_create (in_now i) sock addr (in_fd i) s
  end.

(** ** Reading *)

(** The command [exec-timeout]; its numbers are checked by the matcher. *)
Definition exec_timeout (now : timeval) (timeout : Z) (v : nat) (s : server) : option server :=
  c ← conns s !! v;
  vty_event now VTY_TIMEOUT_RESET 0 v (put_conn v (set_ctimeout timeout c) (set_timeout_val timeout s)).

Fixpoint exec_timeouts (now : timeval) (ts : list Z) (v : nat) (s : server) : option server :=
  match ts with [] => Some s | t :: ts => s ← exec_timeout now t v s; exec_timeouts now ts v s end.

(** The handler: [VtyRead.vty_read] on the session and what it asks for.  The
    commands that change the timeout act on the variables of the server only. *)
Definition read_handler (i : input) (v : nat) (s : server) : option (fd_state * server) :=
  c ← conns s !! v;
  m ← set_ref (t_read v) None (master s);
  '(next, w) ← vty_read cmdvec elements varhandlers crypt (in_read i) (World (cvty c) (shost s) (cchanges c) (srandoms s));
  let c := Conn (wvty w) (cfd c) (v_timeout c) (address c) (num_cfg_changes w) in
  s ← exec_timeouts (in_now i) (in_timeouts i) v (set_randoms (randoms w) (set_shost (whost w) (set_master m (put_conn v c s))));
  match next with
  | NClose => vty_close v (in_fd i) s
  | NRead => s ← vty_event (in_now i) VTY_READ (cfd c) v s; Some (in_fd i, s)
  | NWriteRead =>
      s ← vty_event (in_now i) VTY_WRITE (cfd c) v s;
      s ← vty_event (in_now i) VTY_READ (cfd c) v s;
      Some (in_fd i, s)
  end.

(** ** The loop *)

(** The handlers' argument is the session; that it is not there any more is an
    access to freed memory. *)
Definition run_task (i : input) (t : thread) (s : server) : option (fd_state * server) :=
  if decide (Thread.func t = F_ACCEPT) then
    match Thread.u t with U_fd n => vty_accept i n s | _ => None end
  else
    match Thread.arg t with
    | 0 => None
    | S v =>
        if decide (Thread.func t = F_READ) then read_handler i v s
        else if decide (Thread.func t = F_FLUSH) then vty_flush (in_now i) v (in_fd i) s
        else if decide (Thread.func t = F_TIMEOUT) then vty_timeout v (in_fd i) s
        else None
    end.

Definition server_turn (i : input) (s : server) : option (fd_state * server) :=
  '(r, m) ← thread_fetch (in_env i) (master s);
  let s := set_master m s in
  match r with
  | Task t => run_task i t s
  | _ => Some (in_fd i, s)
  end.
End server.

(** ** The end of the server *)

(** Sessions of the table are closed, the others stay. *)
Fixpoint close_all (slots : list (option nat)) (f : fd_state) (s : server) : option (fd_state * server) :=
  match slots with
  | [] => Some (f, s)
  | None :: slots => close_all slots f s
  | Some v :: slots =>
      c ← conns s !! v;
      '(f, s) ← vty_close v f (put_conn v (set_cstatus VTY_CLOSE (reset_both c)) s);
      close_all slots f s
  end.

Fixpoint cancel_servers (slots : list (option tptr)) (m : thread_master) : option thread_master :=
  match slots with
  | [] => Some m
  | None :: slots => cancel_servers slots m
  | Some p :: slots => m ← thread_cancel m p; cancel_servers slots m
  end.

(** The loop over [vtyvec] looks at every slot once: closing empties a slot and
    may shorten the vector, it does not move others. *)
Definition vty_reset (f : fd_state) (s : server) : option (fd_state * server) :=
  '(f, s) ← close_all (Vector.contents (vtyvec s)) f s;
  m ← cancel_servers (Vector.contents (Vvty_serv_thread s)) (master s);
  Some (f, set_lists None None (set_timeout_val VTY_TIMEOUT_DEFAULT
         (set_serv (Vec (active (Vvty_serv_thread s)) (alloced (Vvty_serv_thread s))
            (replicate (active (Vvty_serv_thread s)) None ++ drop (active (Vvty_serv_thread s)) (index (Vvty_serv_thread s)))) (set_master m s)))).

(** ** Tables by descriptor *)

Definition vec_ok {A} (vec : vector A) (P : nat → A → Prop) : Prop :=
  (∃ l n, vec = mkv l n ∧ fits l n ∧ ∀ i x, l !! i = Some (Some x) ↔ P i x) ∧ ∀ i x, P i x → (Z.of_nat i < 2 ^ 31)%Z.

Lemma vec_ok_iff {A} (vec : vector A) (P Q : nat → A → Prop) : vec_ok vec P → (∀ i x, Q i x ↔ P i x) → vec_ok vec Q.
Proof. intros [(l & n & -> & Hf & Hl) Hb] HQ. split; [exists l, n; split; [done|]; split; [done|]; intros i x; by rewrite HQ|]. intros i x. rewrite HQ. apply Hb. Qed.

Lemma set_at_lookup {A} (l : list (option A)) i x j y : set_at l i (Some x) !! j = Some (Some y) ↔ j = i ∧ y = x ∨ j ≠ i ∧ l !! j = Some (Some y).
Proof.
  unfold set_at. destruct (decide (j = i)) as [->|Hne].
  - rewrite list_lookup_insert_eq by (rewrite length_app, length_replicate; lia). split; [intros [= ->]; by left|]. by intros [[_ ->]|[]].
  - rewrite list_lookup_insert_ne by done. rewrite lookup_app. destruct (l !! j) as [z|] eqn:Ej; [split; [by right|by intros [[]|[_ ?]]]|].
    split; [|by intros [[]|[_ ?]]]. by intros [? _]%lookup_replicate.
Qed.

Lemma rstrip_lookup {A} (l : list (option A)) j (y : A) : rstrip l !! j = Some (Some y) ↔ l !! j = Some (Some y).
Proof.
  induction l as [|[x|] l IH] using rev_ind; [done|by rewrite rstrip_snoc_Some|]. rewrite rstrip_snoc_None, IH, lookup_app.
  destruct (l !! j) as [z|] eqn:Ej; [done|]. split; [done|]. by destruct (j - length l) as [|[]].
Qed.

Lemma unset_at_lookup {A} (l : list (option A)) i j (y : A) : unset_at l i !! j = Some (Some y) ↔ j ≠ i ∧ l !! j = Some (Some y).
Proof.
  unfold unset_at. destruct (Nat.eqb_spec (i + 1) (length l)) as [He|Hne].
  - rewrite rstrip_lookup, lookup_take_Some. split; [intros [? ?]; split; [lia|done]|]. intros [? Hj]. split; [done|]. apply lookup_lt_Some in Hj. lia.
  - destruct (decide (j = i)) as [->|Hji]; [|rewrite list_lookup_insert_ne by done; tauto]. split; [|by intros [[] _]].
    intros H. destruct (decide (i < length l)); [rewrite list_lookup_insert_eq in H by done; done|]. rewrite list_insert_ge in H by lia. apply lookup_lt_Some in H. lia.
Qed.

Lemma vec_ok_set {A} (vec : vector A) P i x r : vec_ok vec P → (Z.of_nat i < 2 ^ 31)%Z → vector_set_index vec i (Some x) = Some r →
  vec_ok r.1 (λ j y, j = i ∧ y = x ∨ j ≠ i ∧ P j y).
Proof.
  intros [(l & n & -> & Hf & Hl) Hb] Hi E. destruct (vector_set_index_spec l n i (Some x) Hf Hi) as (n' & E' & Hf'). rewrite E in E'. injection E' as ->.
  split; [exists (set_at l i (Some x)), n'; split; [done|]; split; [done|]; intros j y; rewrite set_at_lookup, Hl; done|].
  intros j y [[-> _]|[_ Hj]]; [done|]. by eapply Hb.
Qed.

Lemma vec_ok_unset {A} (vec : vector A) P i : vec_ok vec P → ∃ vec', vector_unset vec i = Some vec' ∧ vec_ok vec' (λ j y, j ≠ i ∧ P j y).
Proof.
  intros [(l & n & -> & Hf & Hl) Hb]. destruct (vector_unset_spec l n i Hf) as [E Hf']. rewrite E. eexists. split; [done|].
  split; [exists (unset_at l i), n; split; [done|]; split; [done|]; intros j y; rewrite unset_at_lookup, Hl; done|].
  intros j y [_ Hj]. by eapply Hb.
Qed.

(** ** The invariant of the server *)

Record served (m : thread_master) (fds : gmap nat nat) (next : nat) (vec : vector nat) (serv : vector tptr) : Prop := Served {
  so_sched : sched_ok m fds;
  so_fresh : ∀ v, is_Some (fds !! v) → v < next;
  so_vec : vec_ok vec (λ n v, fds !! v = Some n);
  so_serv : vec_ok serv (accepting m) }.

Abbreviation fds s := (cfd <$> conns s).
Definition sok (s : server) : Prop := served (master s) (fds s) (sfresh s) (vtyvec s) (Vvty_serv_thread s).

Lemma served_master m m' cs next vec serv : served m cs next vec serv → sched_ok m' cs → same_accepts m m' → served m' cs next vec serv.
Proof. intros [H1 H2 H3 H4] Hk Ha. split; [done..|]. eapply vec_ok_iff; [done|]. intros n q. apply Ha. Qed.

Lemma fds_lookup s v c : conns s !! v = Some c → fds s !! v = Some (cfd c).
Proof. intros Hv. by rewrite lookup_fmap, Hv. Qed.

(** A session changes, its descriptor does not. *)
Lemma fds_put s v c c' : conns s !! v = Some c → cfd c' = cfd c → (cfd <$> <[v := c']> (conns s)) = fds s.
Proof. intros Hv Hc. rewrite fmap_insert. apply insert_id. by rewrite Hc, lookup_fmap, Hv. Qed.

Lemma sok_put s v c c' : conns s !! v = Some c → cfd c' = cfd c → sok s → sok (put_conn v c' s).
Proof. intros Hv Hc Hs. unfold sok. cbn. by rewrite (fds_put s v c c'). Qed.

(** Session [v] goes on, with its descriptor. *)
Definition goes_on (v : nat) (s s' : server) : Prop :=
  sok s' ∧ fds s' = fds s ∧ refs (master s') !! t_read v = refs (master s) !! t_read v.

Lemma goes_trans v s1 s2 s3 : goes_on v s1 s2 → goes_on v s2 s3 → goes_on v s1 s3.
Proof. intros (H1 & H2 & H3) (G1 & G2 & G3). split; [done|]. split; congruence. Qed.

Lemma event_write_ok now v n s s' : sok s → fds s !! v = Some n → vty_event now VTY_WRITE n v s = Some s' → goes_on v s s'.
Proof.
  intros Hs Hn E. cbn [vty_event] in E. apply bind_Some in E as ([r m] & E & [= <-]). destruct (so_sched _ _ _ _ _ Hs) as [_ _ _ Hv _].
  destruct (proj2 (Hv v KWrite)) as [[p|] Hx]; [by rewrite Hn|..].
  - assert (m = master s) as ->. { unfold funcname_thread_add_read_write in E. destruct (decide _); [|done]. cbn [scheduled] in E.
      change (t_write v) with (kvar KWrite v) in E. rewrite Hx in E. cbn [mbind option_bind] in E. rewrite bool_decide_eq_true_2 in E by done. by injection E as _ <-. }
    split; [|done]. unfold sok in *. by destruct s.
  - destruct (add_io_ok true (master s) (fds s) v n r m (so_sched _ _ _ _ _ Hs) Hn Hx E) as (Hk & Ha & p & Hr). split; [by eapply served_master|].
    split; [done|]. cbn. rewrite Hr, lookup_insert_ne; [done|]. by intros [? _]%(kvar_inj KWrite KRead).
Qed.

Lemma cancel_timeout_ok v s m : sok s → is_Some (fds s !! v) → cancel_if (t_timeout v) (master s) = Some m →
  goes_on v s (set_master m s) ∧ refs m !! t_timeout v = Some None.
Proof.
  intros Hs Hv E. destruct (cancel_if_ok (master s) (fds s) v KTimeout (so_sched _ _ _ _ _ Hs) Hv) as (m' & E' & Hk & Hr & Ha).
  cbn [kvar] in *. rewrite E in E'. injection E' as <-. split; [|rewrite Hr; apply lookup_insert_eq].
  split; [by eapply served_master|]. split; [done|]. cbn. rewrite Hr, lookup_insert_ne; [done|]. by intros [? _]%(kvar_inj KTimeout KRead).
Qed.

Lemma start_timeout_ok now v secs s m : sok s → is_Some (fds s !! v) → refs (master s) !! t_timeout v = Some None →
  add_timeout now v secs (master s) = Some m → goes_on v s (set_master m s).
Proof.
  intros Hs Hv Hr E. destruct (add_timeout_ok now (master s) (fds s) v secs m (so_sched _ _ _ _ _ Hs) Hv Hr E) as (Hk & Ha & p & Hr').
  split; [by eapply served_master|]. split; [done|]. cbn. rewrite Hr', lookup_insert_ne; [done|]. by intros [? _]%(kvar_inj KTimeout KRead).
Qed.

Lemma set_master_twice m m' s : set_master m (set_master m' s) = set_master m s.
Proof. done. Qed.
Lemma set_master_same s : set_master (master s) s = s.
Proof. by destruct s. Qed.

Lemma event_read_ok now v n s s' : sok s → fds s !! v = Some n → refs (master s) !! t_read v = Some None →
  vty_event now VTY_READ n v s = Some s' → sok s' ∧ fds s' = fds s.
Proof.
  intros Hs Hn Hr E. cbn [vty_event] in E. apply bind_Some in E as (c & Hc & E). rewrite set_ref_same in E by done. cbn [mbind option_bind] in E.
  apply bind_Some in E as ([r m1] & E1 & E). apply bind_Some in E as (m2 & E2 & [= <-]).
  destruct (add_io_ok false (master s) (fds s) v n r m1 (so_sched _ _ _ _ _ Hs) Hn Hr E1) as (Hk & Ha & _).
  assert (sok (set_master m1 s)) as Hs1 by (by eapply served_master). assert (is_Some (fds s !! v)) as Hv by (by eexists).
  destruct (v_timeout c =? 0)%Z; [by injection E2 as <-|]. apply bind_Some in E2 as (m3 & E3 & E2).
  destruct (cancel_timeout_ok v (set_master m1 s) m3 Hs1 Hv E3) as [(Hs3 & _ & _) Hr3].
  by destruct (start_timeout_ok now v (v_timeout c) _ m2 Hs3 Hv Hr3 E2) as (? & ? & _).
Qed.

Lemma exec_timeout_ok now t v s s' : sok s → exec_timeout now t v s = Some s' → goes_on v s s'.
Proof.
  intros Hs E. unfold exec_timeout in E. apply bind_Some in E as (c & Hc & E). set (s0 := put_conn v _ _) in E.
  assert (goes_on v s s0) as H0. { split; [by apply (sok_put (set_timeout_val t s) v c)|]. split; [by apply (fds_put (set_timeout_val t s) v c)|done]. }
  destruct H0 as (Hs0 & Hf & Hr). assert (is_Some (fds s0 !! v)) as Hv by (rewrite Hf, lookup_fmap, Hc; by eexists).
  cbn [vty_event] in E. apply bind_Some in E as (c1 & Hc1 & E). apply bind_Some in E as (m1 & E1 & E).
  destruct (cancel_timeout_ok v s0 m1 Hs0 Hv E1) as [H1 Hr1]. rewrite set_ref_same in E by done. cbn [mbind option_bind] in E.
  apply bind_Some in E as (m2 & E2 & [= <-]). eapply goes_trans; [by split|]. eapply goes_trans; [exact H1|].
  destruct (_ =? 0)%Z; [injection E2 as <-; split; [apply H1|done]|]. by apply (start_timeout_ok now v (v_timeout c1) (set_master m1 s0)); [apply H1|..].
Qed.

Lemma exec_timeouts_ok now ts v : ∀ s s', sok s → exec_timeouts now ts v s = Some s' → goes_on v s s'.
Proof.
  induction ts as [|t ts IH]; intros s s' Hs E; cbn [exec_timeouts] in E; [by injection E as <-|]. apply bind_Some in E as (s1 & E1 & E).
  pose proof (exec_timeout_ok now t v s s1 Hs E1) as H1. eapply goes_trans; [exact H1|]. by apply IH; [apply H1|].
Qed.

(** ** Closing *)

(** The steps of [vty_close] on the event loop always succeed. *)
Lemma cancel_all_ok v m cs : sched_ok m cs → is_Some (cs !! v) →
  ∃ m1 m2 m3, cancel_if (t_read v) m = Some m1 ∧ cancel_if (t_write v) m1 = Some m2 ∧ cancel_if (t_timeout v) m2 = Some m3
    ∧ sched_ok m3 cs ∧ same_accepts m m3 ∧ ∀ k, refs m3 !! kvar k v = Some None.
Proof.
  intros Hk Hv. destruct (cancel_if_ok m cs v KRead Hk Hv) as (m1 & E1 & Hk1 & Hr1 & Ha1).
  destruct (cancel_if_ok m1 cs v KWrite Hk1 Hv) as (m2 & E2 & Hk2 & Hr2 & Ha2).
  destruct (cancel_if_ok m2 cs v KTimeout Hk2 Hv) as (m3 & E3 & Hk3 & Hr3 & Ha3). exists m1, m2, m3. do 4 (split; [done|]).
  split; [by do 2 (etrans; [done|])|]. intros k. rewrite Hr3, Hr2, Hr1.
  destruct k; rewrite ?lookup_insert_ne by (intros [? _]%kvar_inj; done); apply lookup_insert_eq.
Qed.

Lemma vty_close_total v c f s : sok s → conns s !! v = Some c → is_Some (buffer_flush_all (obuf (Vty.out (cvty c))) (Z.of_nat (cfd c)) f) →
  ∃ f' s', vty_close v f s = Some (f', s').
Proof.
  intros Hs Hc [[[r b] f'] Hb]. destruct (cancel_all_ok v (master s) (fds s) (so_sched _ _ _ _ _ Hs)) as (m1 & m2 & m3 & E1 & E2 & E3 & _).
  { rewrite (fds_lookup s v c Hc). by eexists. }
  destruct (vec_ok_unset _ _ (cfd c) (so_vec _ _ _ _ _ Hs)) as (vec & Ev & _).
  unfold vty_close. rewrite Hc. ostep. rewrite E1. ostep. rewrite E2. ostep. rewrite E3. ostep. rewrite Hb. ostep. rewrite Ev. ostep. by do 2 eexists.
Qed.

Lemma vty_close_ok v c f s f' s' : sok s → conns s !! v = Some c → vty_close v f s = Some (f', s') →
  sok s' ∧ conns s' = delete v (conns s) ∧ Vvty_serv_thread s' = Vvty_serv_thread s ∧ fds s' = delete v (fds s).
Proof.
  intros Hs Hc E. unfold vty_close in E. rewrite Hc in E. cbn [mbind option_bind] in E.
  destruct (cancel_all_ok v (master s) (fds s) (so_sched _ _ _ _ _ Hs)) as (m1 & m2 & m3 & E1 & E2 & E3 & Hk & Ha & Hr).
  { rewrite (fds_lookup s v c Hc). by eexists. }
  rewrite E1 in E. cbn [mbind option_bind] in E. rewrite E2 in E. cbn [mbind option_bind] in E. rewrite E3 in E. cbn [mbind option_bind] in E.
  apply bind_Some in E as ([[r b] f1] & _ & E). destruct (vec_ok_unset _ _ (cfd c) (so_vec _ _ _ _ _ Hs)) as (vec & Ev & Hvec).
  rewrite Ev in E. cbn [mbind option_bind] in E. injection E as <- <-. unfold sok. cbn. rewrite fmap_delete. split; [|done]. split.
  - by apply close_ok.
  - intros v' [n Hn]. apply lookup_delete_Some in Hn as [_ Hn]. apply (so_fresh _ _ _ _ _ Hs). by eexists.
  - eapply vec_ok_iff; [exact Hvec|]. intros n v'. rewrite lookup_delete_Some. pose proof (fds_lookup s v c Hc) as Hv. split.
    + intros [Hne Hn]. split; [|done]. intros ->. apply Hne. by apply (k_inj _ _ (so_sched _ _ _ _ _ Hs) v v' (cfd c)).
    + intros [Hne Hn]. split; [|done]. intros <-. apply Hne. congruence.
  - eapply vec_ok_iff; [apply (so_serv _ _ _ _ _ Hs)|]. intros n q. exact (Ha n q).
Qed.

(** ** The handlers keep the invariant *)

Lemma vty_close_put v c c' f s r : sok s → conns s !! v = Some c → cfd c' = cfd c → vty_close v f (put_conn v c' s) = Some r → sok r.2.
Proof.
  intros Hs Hc Hf E. destruct r as [f' s']. apply (vty_close_ok v c' f (put_conn v c' s) f' s'); [by apply (sok_put s v c)|by apply lookup_insert_eq|done].
Qed.

Lemma timeout_ok v f s r : sok s → refs (master s) !! t_timeout v = Some None → vty_timeout v f s = Some r → sok r.2.
Proof.
  intros Hs Hr E. unfold vty_timeout in E. apply bind_Some in E as (c & Hc & E). rewrite set_ref_same in E by done. cbn [mbind option_bind] in E.
  apply bind_Some in E as (x & _ & E). change (set_master (master s) ?x) with x in E.
  eapply (vty_close_put v c); [exact Hs|exact Hc| |exact E]. done.
Qed.

Lemma cancel_read_ok v s m : sok s → is_Some (fds s !! v) → (m ← cancel_if (t_read v) (master s); set_ref (t_read v) None m) = Some m →
  sok (set_master m s) ∧ refs m !! t_read v = Some None.
Proof.
  intros Hs Hv E. destruct (cancel_if_ok (master s) (fds s) v KRead (so_sched _ _ _ _ _ Hs) Hv) as (m' & E' & Hk & Hr & Ha).
  cbn [kvar] in *. rewrite E' in E. cbn [mbind option_bind] in E. assert (refs m' !! t_read v = Some None) as Hx by (rewrite Hr; apply lookup_insert_eq).
  rewrite set_ref_same in E by done. injection E as ->. split; [|done]. by eapply served_master.
Qed.

Lemma flush_ok now v f s r : sok s → refs (master s) !! t_write v = Some None → vty_flush now v f s = Some r → sok r.2.
Proof.
  intros Hs Hr E. unfold vty_flush in E. apply bind_Some in E as (c & Hc & E). rewrite set_ref_same in E by done. cbn [mbind option_bind] in E.
  apply bind_Some in E as (m & Em & E). pose proof (fds_lookup s v c Hc) as Hv.
  assert (sok (set_master m s) ∧ ((lines (tn (cvty c)) =? 0)%Z = true → refs m !! t_read v = Some None)) as [Hm Hrd].
  { destruct (lines _ =? 0)%Z; [|injection Em as <-; by rewrite set_master_same]. by destruct (cancel_read_ok v s m Hs) as [? ?]; [eexists|..]. }
  cbv zeta in E. destruct (if _ : bool then buffer_flush_available _ _ _ else _) as [[rc b] f1].
  set (c1 := set_cvty (set_out _ _) c) in E.
  assert (∀ c', cfd c' = cfd c → sok (put_conn v c' (set_master m s)) ∧ fds (put_conn v c' (set_master m s)) !! v = Some (cfd c')) as Hput.
  { intros c' Hf. split; [by apply (sok_put (set_master m s) v c)|]. cbn. by rewrite fmap_insert, lookup_insert_eq. }
  change (set_master m (put_conn v c1 s)) with (put_conn v c1 (set_master m s)) in E.
  destruct (Hput c1 eq_refl) as [Hs1 Hv1]. assert (conns (put_conn v c1 (set_master m s)) !! v = Some c1) as Hc1 by apply lookup_insert_eq.
  destruct rc.
  - by eapply (vty_close_put v c1); [exact Hs1|exact Hc1| |exact E].
  - destruct (decide _); [destruct r; by eapply vty_close_ok in E as [? _]; [|exact Hs1|exact Hc1]|]. apply bind_Some in E as (s2 & E2 & [= <-]).
    pose proof (sok_put _ v c1 (set_cstatus VTY_NORMAL c1) Hc1 eq_refl Hs1) as Hs2. destruct (lines _ =? 0)%Z; [|by injection E2 as <-].
    eapply event_read_ok in E2 as [? _]; [done|exact Hs2| |by apply Hrd]. cbn. by rewrite fmap_insert, lookup_insert_eq.
  - apply bind_Some in E as (s2 & E2 & [= <-]).
    pose proof (sok_put _ v c1 (set_cstatus VTY_MORE c1) Hc1 eq_refl Hs1) as Hs2. destruct (lines _ =? 0)%Z; [|by injection E2 as <-].
    eapply event_write_ok in E2 as [? _]; [done|exact Hs2|]. cbn. by rewrite fmap_insert, lookup_insert_eq.
Qed.

#[local] Strategy expand [vty_create].

Section handlers.
Context `{Inet} (pgsz : Z) (fopen : cstring → option (list cstring)).
Context (cmdvec : list (option cmd_node)) (elements : list (cmd_element buffer)) (varhandlers : list cmd_variable_handler)
  (crypt : cstring → cstring → cstring).

Lemma read_ok i v s r : sok s → refs (master s) !! t_read v = Some None →
  read_handler cmdvec elements varhandlers crypt i v s = Some r → sok r.2.
Proof.
  intros Hs Hr E. unfold read_handler in E. apply bind_Some in E as (c & Hc & E). rewrite set_ref_same in E by done. cbn [mbind option_bind] in E.
  apply bind_Some in E as ([next w] & _ & E). set (c1 := Conn _ _ _ _ _) in E. apply bind_Some in E as (s1 & E1 & E).
  set (s0 := set_randoms _ _) in E1. assert (sok s0 ∧ fds s0 = fds s) as [Hs0 Hf0].
  { assert (fds s0 = fds s) as Hf by (by apply (fds_put s v c)). split; [|done]. unfold sok. rewrite Hf. exact Hs. }
  destruct (exec_timeouts_ok _ _ _ _ _ Hs0 E1) as (Hs1 & Hf1 & Hr1). rewrite Hf0 in Hf1. change (refs (master s0)) with (refs (master s)) in Hr1. rewrite Hr in Hr1.
  assert (fds s1 !! v = Some (cfd c1)) as Hv1 by (rewrite Hf1; exact (fds_lookup s v c Hc)).
  assert (∀ s2, goes_on v s1 s2 → (s ← vty_event (in_now i) VTY_READ (cfd c1) v s2; Some (in_fd i, s)) = Some r → sok r.2) as Hread.
  { intros s2 (Hs2 & Hf2 & Hr2) E2. apply bind_Some in E2 as (s3 & E2 & [= <-]). eapply event_read_ok in E2 as [? _]; [done|exact Hs2|by rewrite Hf2|by rewrite Hr2]. }
  destruct next.
  1: by apply (Hread s1).
  1: apply bind_Some in E as (s2 & E2 & E); apply (Hread s2); [|done]; by eapply event_write_ok.
  apply lookup_fmap_Some in Hv1 as (c2 & _ & Hc2). destruct r. by eapply vty_close_ok in E as [? _].
Qed.

Definition new_fd (n : nat) (s : server) : Prop :=
  (Z.of_nat n < 2 ^ 31)%Z ∧ (∀ v, fds s !! v ≠ Some n) ∧ ∀ q t, scheduled_task (master s) q t → Thread.u t ≠ U_fd n.

(** A listening socket gets its task, for the first time or again: the slot of
    the table may hold the task that is gone. *)
Lemma listen_ok now n v s s' P : sched_ok (master s) (fds s) → (∀ v, is_Some (fds s !! v) → v < sfresh s) → vec_ok (vtyvec s) (λ n v, fds s !! v = Some n) →
  vec_ok (Vvty_serv_thread s) P → (∀ j q, j ≠ n → P j q ↔ accepting (master s) j q) → (∀ q, ¬ accepting (master s) n q) →
  (Z.of_nat n < 2 ^ 31)%Z → (∀ v, fds s !! v ≠ Some n) → vty_event now VTY_SERV n v s = Some s' →
  sok s' ∧ conns s' = conns s ∧ sfresh s' = sfresh s ∧ no_password_check s' = no_password_check s
    ∧ ∃ p, ∀ q t, scheduled_task (master s') q t → q = p ∧ accept_task n t ∨ scheduled_task (master s) q t.
Proof.
  intros Hk Hfr Hvec Hserv HP Hno Hn Hfd E. cbn [vty_event] in E. apply bind_Some in E as ([r m] & E1 & E). apply bind_Some in E as ([vec ix] & E2 & [= <-]).
  destruct (add_accept_ok (master s) (fds s) n r m Hk Hfd Hno E1) as (Hk1 & _ & p & -> & Ha & Ht). pose proof (vec_ok_set _ _ _ _ _ Hserv Hn E2) as Hvec'.
  split; [|split; [done|split; [done|split; [done|exists p; exact Ht]]]]. split; [exact Hk1|exact Hfr|exact Hvec|]. cbn [master set_serv set_master fst Vvty_serv_thread] in *. eapply vec_ok_iff; [exact Hvec'|]. intros j q. cbn. rewrite Ha.
  destruct (decide (j = n)) as [->|Hne]; [|rewrite (HP j q Hne); tauto]. split; [intros [Hq|[-> _]]; [by destruct (Hno q)|by left]|].
  intros [[_ ->]|[Hne _]]; [by right|by destruct Hne].
Qed.

(** The session of a new connection is in the tables. *)
Lemma opened_ok s n vec ix : sok s → new_fd n s → vector_set_index (vtyvec s) n (Some (sfresh s)) = Some (vec, ix) →
  let v := sfresh s in
  served (add_vars [t_read v; t_write v; t_timeout v] (master s)) (<[v := n]> (fds s)) (S v) vec (Vvty_serv_thread s)
  ∧ refs (add_vars [t_read v; t_write v; t_timeout v] (master s)) !! t_read v = Some None.
Proof.
  intros Hs (Hn & Hfd & Hu) Ev v.
  assert (fds s !! v = None) as Hv by (apply eq_None_not_Some; intros Hx; pose proof (so_fresh _ _ _ _ _ Hs v Hx); subst v; lia).
  destruct (open_ok (master s) (fds s) v n (so_sched _ _ _ _ _ Hs) Hv Hfd Hu) as [Hk Hr]. split; [|apply (Hr KRead)]. split; [done| | |apply (so_serv _ _ _ _ _ Hs)].
  - intros v' [n' [[<- _]|[_ Hv']]%lookup_insert_Some]; [lia|]. assert (v' < v); [|lia]. apply (so_fresh _ _ _ _ _ Hs). by eexists.
  - eapply vec_ok_iff; [exact (vec_ok_set _ _ _ _ _ (so_vec _ _ _ _ _ Hs) Hn Ev)|]. intros j v'. cbn. rewrite lookup_insert_Some. split.
    + intros [[<- <-]|[Hne Hj]]; [by left|]. right. split; [|done]. intros ->. by destruct (Hfd v').
    + intros [[-> ->]|[Hne Hj]]; [by left|]. right. split; [|done]. intros <-. congruence.
Qed.

(** The peer's descriptor is one that is not open. *)
Lemma create_ok now n addr f s r : sok s → new_fd n s → vty_create pgsz fopen now n addr f s = Some r → sok r.2.
Proof.
  intros Hs Hnew E. unfold vty_create in E. apply bind_Some in E as ([vec ix] & Ev & E). destruct (opened_ok s n vec ix Hs Hnew Ev) as [Ho Hr].
  cbn [mbind option_bind] in E. cbv zeta in E.
  set (s0 := set_sfresh _ _) in E. set (c := new_session _ _ _ _) in E. assert (cfd c = n) as Hc by done.
  assert (∀ c, cfd c = n → sok (put_conn (sfresh s) c s0) ∧ fds (put_conn (sfresh s) c s0) !! sfresh s = Some n) as Hput.
  { intros c' <-. unfold sok. cbn. rewrite fmap_insert. split; [exact Ho|apply lookup_insert_eq]. }
  assert (refs (master s0) !! t_read (sfresh s) = Some None) as Hr0 by exact Hr. clearbody s0 c. clear Ho Hr.
  destruct (negb _ && _).
  - apply bind_Some in E as (x & _ & E). destruct r as [f' s']. eapply vty_close_ok in E as [? _]; [done|by apply Hput|by apply lookup_insert_eq].
  - apply bind_Some in E as (? & _ & E). apply bind_Some in E as (s1 & E1 & E). apply bind_Some in E as (s2 & E2 & [= <-]).
    eapply event_write_ok in E1 as (Hs1 & Hf1 & Hr1); [|by apply Hput|by apply Hput]. eapply event_read_ok in E2 as [? _]; [done|done| |].
    + rewrite Hf1. by apply Hput.
    + by rewrite Hr1.
Qed.

(** What comes in is consistent with what is open: a new connection has a
    descriptor that is not in use. *)
Definition input_ok (i : input) (s : server) : Prop := ∀ n addr, in_accept i = Some (n, addr) → new_fd n s.

Lemma accept_ok i n m s r : sok s → sched_ok m (fds s) → (∀ j q, accepting m j q ↔ accepting (master s) j q ∧ j ≠ n) →
  (∃ q t, scheduled_task (master s) q t ∧ accept_task n t) → (∀ v, fds s !! v ≠ Some n) →
  (∀ q t, scheduled_task m q t → ∃ t0, scheduled_task (master s) q t0 ∧ Thread.u t0 = Thread.u t) → input_ok i s →
  vty_accept pgsz fopen i n (set_master m s) = Some r → sok r.2.
Proof.
  intros Hs Hk Ha (q0 & Hq0) Hn Hfrom Hi E. unfold vty_accept in E. apply bind_Some in E as (s1 & E1 & E).
  assert (accepting (master s) n q0) as Hacc by exact Hq0. destruct (so_serv _ _ _ _ _ Hs) as [_ Hb].
  eapply listen_ok in E1 as (Hs1 & Hc1 & Hf1 & _ & p & Ht1);
    [|exact Hk|apply (so_fresh _ _ _ _ _ Hs)|apply (so_vec _ _ _ _ _ Hs)|apply (so_serv _ _ _ _ _ Hs)| | |by eapply Hb|exact Hn].
  2: { intros j q Hne. cbn. rewrite Ha. tauto. }
  2: { intros q. cbn. rewrite Ha. tauto. }
  destruct (in_accept i) as [[sock addr]|] eqn:Ei; [|by injection E as <-]. eapply create_ok; [exact Hs1| |exact E].
  destruct (Hi sock addr Ei) as (Hb1 & Hfd & Hu). split; [done|]. rewrite Hc1. split; [exact Hfd|].
  intros q t [[-> Hat]|Hst]%Ht1 Hx.
  - destruct Hacc as (t0 & Hs0 & _ & _ & _ & _ & Hu0). apply (Hu q0 t0 Hs0). destruct Hat as (_ & _ & _ & _ & Hat). congruence.
  - destruct (Hfrom q t Hst) as (t0 & Hs0 & Hu0). apply (Hu q t0 Hs0). congruence.
Qed.

Lemma run_session i t s v k : Thread.func t = kfun k → Thread.arg t = S v →
  run_task pgsz fopen cmdvec elements varhandlers crypt i t s
  = match k with
    | KRead => read_handler cmdvec elements varhandlers crypt i v s
    | KWrite => vty_flush (in_now i) v (in_fd i) s
    | KTimeout => vty_timeout v (in_fd i) s
    end.
Proof.
  intros Hf Ha. unfold run_task. rewrite Hf, Ha. rewrite decide_False by (by destruct k).
  destruct k; [by rewrite decide_True|rewrite decide_False by done; by rewrite decide_True|].
  rewrite decide_False by done. rewrite decide_False by done. by rewrite decide_True.
Qed.

Lemma run_accept i t s n : accept_task n t → run_task pgsz fopen cmdvec elements varhandlers crypt i t s = vty_accept pgsz fopen i n s.
Proof. intros (Hf & _ & _ & _ & Hu). unfold run_task. rewrite decide_True by done. by rewrite Hu. Qed.

(** A task that is handed out runs on a session that lives. *)
Lemma turn_ok i s r : sok s → pfdcount (master s) + 1 < fd_limit (master s) → input_ok i s →
  server_turn pgsz fopen cmdvec elements varhandlers crypt i s = Some r → sok r.2.
Proof.
  intros Hs Hroom Hi E. unfold server_turn in E. apply bind_Some in E as ([x m] & E1 & E).
  destruct (fetch_ok (in_env i) (master s) (fds s) x m (so_sched _ _ _ _ _ Hs) Hroom E1) as [Hk Hx].
  destruct x as [t| | |]; [|injection E as <-; by eapply served_master..]. destruct Hx as (Ho & Href & Hacc & Hfrom).
  assert (∀ k, Thread.ref t = Some k → sok (set_master m s) ∧ refs m !! k = Some None) as Hses.
  { intros k [Hr Ha]%Href. split; [by eapply served_master|done]. }
  destruct Ho as [(v & n & k & Hv & Hf & Harg & Hr & _)|(n & Hat & Hn)].
  - destruct (Hses _ Hr) as [Hs1 Hr1]. rewrite (run_session i t _ v k Hf Harg) in E. destruct k; cbn [kvar] in *.
    + by eapply read_ok.
    + by eapply flush_ok.
    + by eapply timeout_ok.
  - rewrite (run_accept i t _ n Hat) in E. destruct Hfrom as [Hfrom Hin]. eapply (accept_ok i n m s); [done|done|by apply Hacc|by apply Hin|done|done|done|exact E].
Qed.
End handlers.

(** ** Reset *)

Lemma close_all_ok slots : ∀ f s, sok s → NoDup (omap id slots) → (∀ v, Some v ∈ slots ↔ is_Some (conns s !! v)) →
  ∃ f' s', close_all slots f s = Some (f', s') ∧ sok s' ∧ conns s' = ∅ ∧ Vvty_serv_thread s' = Vvty_serv_thread s.
Proof.
  induction slots as [|[v|] slots IH]; intros f s Hs Hnd Hin; cbn [close_all].
  - exists f, s. do 2 (split; [done|]). split; [|done]. apply map_eq. intros v. rewrite lookup_empty. apply eq_None_not_Some. rewrite <- Hin. by intros ?%elem_of_nil.
  - destruct (proj1 (Hin v)) as [c Hc]; [by left|]. rewrite Hc. ostep. apply NoDup_cons in Hnd as [Hv Hnd].
    set (c1 := set_cstatus VTY_CLOSE (reset_both c)). pose proof (sok_put s v c c1 Hc eq_refl Hs) as Hs1.
    assert (conns (put_conn v c1 s) !! v = Some c1) as Hc1 by apply lookup_insert_eq.
    destruct (vty_close_total v c1 f (put_conn v c1 s) Hs1 Hc1) as (f1 & s1 & E1); [by eexists|]. rewrite E1. ostep.
    destruct (vty_close_ok v c1 f _ f1 s1 Hs1 Hc1 E1) as (Hs2 & Hc2 & Hsv & _). destruct (IH f1 s1 Hs2 Hnd) as (f2 & s2 & E2 & Hs3 & Hc3 & Hsv3).
    + intros w. rewrite Hc2. cbn. rewrite delete_insert_eq. destruct (decide (v = w)) as [->|Hne].
      * rewrite lookup_delete_eq. split; [|by intros [? ?]]. intros Hw. destruct Hv. apply list_elem_of_omap. by exists (Some w).
      * rewrite lookup_delete_ne by done. rewrite <- Hin, elem_of_cons. split; [by right|]. intros [[= ?]|?]; [congruence|done].
    + exists f2, s2. split; [done|]. split; [done|]. split; [done|]. by rewrite Hsv3.
  - apply IH; [done..|]. intros v. rewrite <- Hin, elem_of_cons. split; [by right|]. by intros [?|?].
Qed.

Lemma cancel_servers_ok slots : ∀ m, sched_ok m ∅ → NoDup (omap id slots) → (∀ q, Some q ∈ slots ↔ ∃ n, accepting m n q) →
  ∃ m', cancel_servers slots m = Some m' ∧ sched_ok m' ∅ ∧ ∀ n q, ¬ accepting m' n q.
Proof.
  induction slots as [|[p|] slots IH]; intros m Hk Hnd Hin; cbn [cancel_servers].
  - exists m. do 2 (split; [done|]). intros n q Hq. assert (Some q ∈ []) as ?%elem_of_nil by (apply Hin; by exists n). done.
  - destruct (proj1 (Hin p)) as (n & t & Ht & Ha); [by left|]. apply NoDup_cons in Hnd as [Hv Hnd]. destruct (k_inv _ _ Hk) as [h Hi].
    destruct (thread_cancel_spec m h p t Hi (proj1 Ht) (proj2 Ht)) as (m1 & h1 & E & _). rewrite E. ostep.
    destruct (cancel_keeps m h p t m1 Hi Ht E) as (h2 & Hi2 & Hkp & _ & Hrf). destruct Ha as (_ & _ & Hr & _). rewrite Hr in Hrf.
    apply IH; [|done|].
    + eapply kept_ok; [done|by exists h2|done|]. intros r. by rewrite Hrf.
    + intros q. setoid_rewrite (kept_accepts (Some p) m m1 ∅); [|done..]. destruct (decide (p = q)) as [->|Hne].
      * split; [|by intros (? & _ & [])]. intros Hq. destruct Hv. apply list_elem_of_omap. by exists (Some q).
      * assert (Some q ∈ Some p :: slots ↔ Some q ∈ slots) as Hx by (rewrite elem_of_cons; split; [intros [[= ?]|?]; [congruence|done]|by right]).
        rewrite <- Hx, Hin. split; intros (n' & Hn'); exists n'; [split; [done|congruence]|tauto].
  - apply IH; [done..|]. intros q. rewrite <- Hin, elem_of_cons. split; [by right|]. by intros [?|?].
Qed.

Lemma vec_ok_slots {A} (vec : vector A) P : vec_ok vec P → (∀ i j x, P i x → P j x → i = j) →
  NoDup (omap id (Vector.contents vec)) ∧ ∀ x, Some x ∈ Vector.contents vec ↔ ∃ i, P i x.
Proof.
  intros [(l & n & -> & _ & Hl) _] Hinj. rewrite contents_mkv. split.
  - apply NoDup_omap_slots. intros i j x Hi%Hl Hj%Hl. by eapply Hinj.
  - intros x. rewrite list_elem_of_lookup. by setoid_rewrite Hl.
Qed.

Lemma accepting_fd m n n' q : accepting m n q → accepting m n' q → n = n'.
Proof. intros (t & [H1 _] & _ & _ & _ & _ & Hu) (t' & [H2 _] & _ & _ & _ & _ & Hu'). congruence. Qed.

Lemma reset_ok f s : sok s → ∃ f' s', vty_reset f s = Some (f', s') ∧ conns s' = ∅ ∧ (∀ q t, ¬ scheduled_task (master s') q t).
Proof.
  intros Hs. unfold vty_reset. destruct (vec_ok_slots _ _ (so_vec _ _ _ _ _ Hs)) as [Hnd Hin].
  { intros i j v Hi Hj. congruence. }
  destruct (close_all_ok (Vector.contents (vtyvec s)) f s Hs Hnd) as (f1 & s1 & -> & Hs1 & Hc1 & Hsv).
  { intros v. rewrite Hin. setoid_rewrite lookup_fmap_Some. split; [intros (i & c & _ & Hc); by eexists|intros [c Hc]; by exists (cfd c), c]. }
  ostep. destruct (vec_ok_slots _ _ (so_serv _ _ _ _ _ Hs1)) as [Hnd1 Hin1]; [apply accepting_fd|].
  pose proof (so_sched _ _ _ _ _ Hs1) as Hk1. rewrite Hc1, fmap_empty in Hk1.
  destruct (cancel_servers_ok _ (master s1) Hk1 Hnd1 Hin1) as (m & -> & Hk & Hno). ostep. do 2 eexists. split; [reflexivity|]. split; [exact Hc1|].
  cbn. intros q t Hq. destruct (k_task _ _ Hk q t Hq) as [(v & n & _ & Hv & _)|(n & Ha & _)]; [by rewrite lookup_empty in Hv|]. apply (Hno n q). by exists t.
Qed.

(** ** The servers there can be *)

Section reachable.
Context `{Inet} (pgsz : Z) (fopen : cstring → option (list cstring)).
Context (cmdvec : list (option cmd_node)) (elements : list (cmd_element buffer)) (varhandlers : list cmd_variable_handler)
  (crypt : cstring → cstring → cstring) (limit : nat).

(** Commands and reading the configuration change the other variables. *)
Definition same_sessions (s s' : server) : Prop :=
  master s' = master s ∧ conns s' = conns s ∧ vtyvec s' = vtyvec s ∧ Vvty_serv_thread s' = Vvty_serv_thread s ∧ sfresh s' = sfresh s.

Inductive serving : server → Prop :=
  | serving_init h logging rs : serving (vty_init (thread_master_create limit ∅) h logging rs)
  | serving_set s s' : serving s → same_sessions s s' → serving s'
  | serving_listen now n s s' : serving s → new_fd n s → vty_event now VTY_SERV n 0 s = Some s' → serving s'
  | serving_turn i f s s' : serving s → pfdcount (master s) + 1 < fd_limit (master s) → input_ok i s →
      server_turn pgsz fopen cmdvec elements varhandlers crypt i s = Some (f, s') → serving s'.

Lemma init_ok h logging rs : sok (vty_init (thread_master_create limit ∅) h logging rs).
Proof.
  assert (∀ {A} (P : nat → A → Prop), (∀ i x, ¬ P i x) → vec_ok (vector_init VECTOR_MIN_SIZE) P) as Hvec.
  { intros A P HP. split; [|by intros i x ?%HP]. exists [], 1. split; [done|]. split; [split; [done|split; [cbn; lia|done]]|].
    intros i x. rewrite lookup_nil. split; [done|]. by intros ?%HP. }
  assert (∀ q t, ¬ scheduled_task (thread_master_create limit ∅) q t) as Hno by (by intros q t [Hq _]).
  unfold sok. cbn. rewrite fmap_empty. split.
  - split.
    + exists []. by apply create_inv.
    + by intros q t ?%Hno.
    + by intros q q' n (t & ?%Hno & _).
    + intros v k. cbn. rewrite !lookup_empty. split; by intros [? ?].
    + intros v v' n. by rewrite lookup_empty.
  - intros v. rewrite lookup_empty. by intros [? ?].
  - apply Hvec. intros n v. by rewrite lookup_empty.
  - apply Hvec. by intros n q (t & ?%Hno & _).
Qed.

Lemma serving_ok s : serving s → sok s.
Proof.
  induction 1 as [h logging rs|s s' _ Hs (H1 & H2 & H3 & H4 & H5)|now n s s' _ Hs (Hb & Hfd & Hu) E|i f s s' _ Hs Hroom Hi E].
  - apply init_ok.
  - unfold sok. by rewrite H1, H2, H3, H4, H5.
  - eapply listen_ok in E as [? _]; [done|apply Hs|apply Hs|apply Hs|apply Hs|done| |done|done].
    intros q (t & Ht & _ & _ & _ & _ & Hx). by apply (Hu q t).
  - by apply turn_ok in E.
Qed.

(** C3: Tasks and sessions of the terminal server.  In every server that start-up,
    listening, changes of settings and turns of the event loop can reach: a task
    that waits, whichever way connections came and went, is of a session that
    lives and whose variable for it holds it, or accepts connections; closing a
    session always gets through the event loop, and no task with the session as
    its argument is left. *)
Theorem session_tasks_live (s : server) : serving s →
  (∀ q t, scheduled_task (master s) q t → Thread.func t = F_ACCEPT
     ∨ ∃ v c k, Thread.arg t = S v ∧ conns s !! v = Some c ∧ Thread.func t = kfun k ∧ refs (master s) !! kvar k v = Some (Some q))
  ∧ ∀ v c f, conns s !! v = Some c → is_Some (buffer_flush_all (obuf (Vty.out (cvty c))) (Z.of_nat (cfd c)) f) →
     ∃ f' s', vty_close v f s = Some (f', s') ∧ conns s' = delete v (conns s) ∧ ∀ q t, scheduled_task (master s') q t → Thread.arg t ≠ S v.
Proof.
  intros Hs%serving_ok. split.
  - intros q t Hq. destruct (k_task _ _ (so_sched _ _ _ _ _ Hs) q t Hq) as [(v & n & k & Hv & Hf & Ha & Hr & _)|(n & (Hf & _) & _)]; [|by left]. right.
    apply lookup_fmap_Some in Hv as (c & _ & Hc). exists v, c, k. do 3 (split; [done|]). by eapply task_held; [apply Hs|..].
  - intros v c f Hc Hb. destruct (vty_close_total v c f s Hs Hc Hb) as (f' & s' & E). exists f', s'. split; [done|].
    destruct (vty_close_ok v c f s f' s' Hs Hc E) as (Hs' & Hc' & _ & Hf'). split; [done|]. intros q t Hq Hv.
    destruct (k_task _ _ (so_sched _ _ _ _ _ Hs') q t Hq) as [(v' & n & k & Hv' & _ & Ha & _)|(n & (_ & Ha & _) & _)]; [|congruence].
    assert (v' = v) as -> by congruence. by rewrite Hf', lookup_delete_eq in Hv'.
Qed.

(** C4: [vty_reset] always succeeds on a server that can be reached, and leaves no
    session and no task. *)
Theorem vty_reset_all (f : fd_state) (s : server) : serving s →
  ∃ f' s', vty_reset f s = Some (f', s') ∧ conns s' = ∅ ∧ ∀ q t, ¬ scheduled_task (master s') q t.
Proof. intros Hs. by apply reset_ok, serving_ok. Qed.
End reachable.

(** ** A server at work *)

(** It listens on descriptor 3; a peer connects and has descriptor 4, the greeting
    is written, the password comes in. *)
Definition fd0 : fd_state := Fd (replicate 8 (inl 4096)) [] EAGAIN.
Definition turn_at (sec : Z) (revents : nat → Z) (acc : option (nat * cstring)) (bs : list Z) (ts : list Z) : input :=
  Input [Poll (TV sec 0) (inr revents) (TV sec 0)] (TV sec 0) acc (RData bs) ts fd0.
Definition demo_turn (i : input) (s : server) : option (fd_state * server) :=
  server_turn 4096 (λ _, None) terminal_nodes login_commands [] crypt_example i s.
Definition demo_listen (s : server) : option server := vty_event (TV 1 0) VTY_SERV 3 0 s.

Definition on (n : nat) (ev : Z) (m : nat) : Z := if decide (m = n) then ev else 0%Z.
Definition demo0 : server := vty_init (thread_master_create 16 ∅) terminal_host false [].
Definition demo1 : server := default demo0 (demo_listen demo0).
Definition connect : input := turn_at 2 (on 3 POLLIN) (Some (4, str "10.0.0.1")) [] [].
Definition demo2 : server := (default (fd0, demo1) (demo_turn connect demo1)).2.
Definition greeting : input := turn_at 3 (on 4 POLLOUT) None [] [].
Definition demo3 : server := (default (fd0, demo2) (demo_turn greeting demo2)).2.
Definition typing : input := turn_at 4 (on 4 POLLIN) None (code <$> str "zebra") [60%Z].
Definition demo4 : server := (default (fd0, demo3) (demo_turn typing demo3)).2.

Definition fd_free (n : nat) (s : server) : bool :=
  forallb (λ x : nat * conn, negb (Nat.eqb (cfd x.2) n)) (map_to_list (conns s))
  && forallb (λ x : tptr * thread, match Thread.u x.2 with U_fd m => negb (Nat.eqb m n) | _ => true end) (map_to_list (mem (master s))).

Lemma fd_free_new n s : (Z.of_nat n < 2 ^ 31)%Z → fd_free n s = true → new_fd n s.
Proof.
  unfold fd_free. intros Hn [H1 H2]%andb_true_iff. rewrite forallb_forall in H1, H2. split; [done|]. split.
  - intros v (c & Hc & Hv)%lookup_fmap_Some. specialize (H1 (v, c)). cbn in H1. apply elem_of_map_to_list, list_elem_of_In, H1 in Hv.
    rewrite Hc, Nat.eqb_refl in Hv. done.
  - intros q t [Hq _] Hu. apply elem_of_map_to_list, list_elem_of_In, H2 in Hq. cbn in Hq. rewrite Hu, Nat.eqb_refl in Hq. done.
Qed.

Definition is_some {A} (x : option A) : bool := match x with Some _ => true | None => false end.
Lemma is_some_default {A} (x : option A) d : is_some x = true → x = Some (default d x).
Proof. by destruct x. Qed.

Abbreviation demo_serving := (serving 4096 (λ _, None) terminal_nodes login_commands [] crypt_example 16).

Lemma demo_step i s : demo_serving s →
  Nat.ltb (pfdcount (master s) + 1) (fd_limit (master s)) && match in_accept i with Some (n, _) => Nat.ltb n 1000 && fd_free n s | None => true end
    && is_some (demo_turn i s) = true → demo_serving (default (fd0, s) (demo_turn i s)).2.
Proof.
  intros Hs [[H1 H2]%andb_true_iff H3]%andb_true_iff. apply (is_some_default _ (fd0, s)) in H3. apply Nat.ltb_lt in H1.
  destruct (default (fd0, s) (demo_turn i s)) as [f s'] eqn:E. eapply serving_turn; [exact Hs|exact H1| |exact H3].
  intros n addr Ha. rewrite Ha in H2. apply andb_true_iff in H2 as [Hn H2]. apply Nat.ltb_lt in Hn. apply fd_free_new; [lia|done].
Qed.

Lemma demo_listens s : demo_serving s → fd_free 3 s && is_some (demo_listen s) = true → demo_serving (default s (demo_listen s)).
Proof.
  intros Hs [H1 H2]%andb_true_iff. apply (is_some_default _ s) in H2. revert H2. generalize (default s (demo_listen s)). intros s' E.
  apply (serving_listen _ _ _ _ _ _ _ (TV 1 0) 3 s s' Hs); [|exact E]. apply fd_free_new; [lia|exact H1].
Qed.

Lemma demo_ok : demo_serving demo4.
Proof.
  assert (demo_serving demo1) as H1 by (apply demo_listens; [apply serving_init|vm_compute; reflexivity]).
  assert (demo_serving demo2) as H2 by (apply demo_step; [exact H1|vm_compute; reflexivity]).
  assert (demo_serving demo3) as H3 by (apply demo_step; [exact H2|vm_compute; reflexivity]).
  apply demo_step; [exact H3|vm_compute; reflexivity].
Qed.

(** The session of [demo4] is closed; its tasks for reading and for the timeout go. *)
Lemma session_tasks_live_witness : ∃ f' s', vty_close 0 fd0 demo4 = Some (f', s') ∧ (∀ q t, scheduled_task (master s') q t → Thread.arg t ≠ 1)
  ∧ refs (master demo4) !! t_read 0 ≠ Some None ∧ refs (master demo4) !! t_timeout 0 ≠ Some None.
Proof.
  assert (is_some (c ← conns demo4 !! 0; buffer_flush_all (obuf (Vty.out (cvty c))) (Z.of_nat (cfd c)) fd0) = true) as Hc by (vm_compute; reflexivity).
  destruct (conns demo4 !! 0) as [c|] eqn:Ec; [|discriminate Hc].
  destruct (proj2 (session_tasks_live _ _ _ _ _ _ _ demo4 demo_ok) 0 c fd0 Ec) as (f' & s' & E & _ & Hq).
  { cbn [mbind option_bind] in Hc. destruct (buffer_flush_all _ _ _); [by eexists|discriminate Hc]. }
  exists f', s'. split; [exact E|]. split; [exact Hq|]. split; (apply (bool_decide_unpack _); vm_compute; reflexivity).
Defined.

Lemma vty_reset_all_witness : ∃ f' s', vty_reset fd0 demo4 = Some (f', s') ∧ conns s' = ∅ ∧ (∀ q t, ¬ scheduled_task (master s') q t)
  ∧ is_some (conns demo4 !! 0) = true.
Proof.
  destruct (vty_reset_all _ _ _ _ _ _ _ fd0 demo4 demo_ok) as (f' & s' & E & Hc & Hq). exists f', s'. split; [exact E|]. split; [exact Hc|].
  split; [exact Hq|]. vm_compute. reflexivity.
Defined.
