(* ===== verification/VtyConf.v ===== *)
(** * Commands of the terminal server

    The commands of vty.c that show and set what the server keeps: [who], [show
    history], [line vty] and the settings of that node (exec-timeout, access-class,
    login), [service advanced-vty], [log commands], and [vty_config_write], which
    prints the settings as commands.  Their argument is the session [v] that gives
    them; they return the code of the command and the server ([VtyServ]). *)
From Stdlib Require Import Ascii String.
From stdpp Require Import prelude gmap list.
From S2P Require Import Prelude Vector Thread CString Buffer Vty TokenMatch Command VtyRead VtyTasks VtyServ.
Set Default Goal Selector "!".
#[local] Opaque VTY_BUFSIZ.
Open Scope Z_scope.

(** [vty_out(vty, ...)] *)
Definition say (v : nat) (p : cstring) (s : server) : option server :=
  c ← conns s !! v; x ← vty_out (cvty c) p; Some (put_conn v (set_cvty x c) s).

(** ** Sessions and history *)

Fixpoint who_loop (i : nat) (slots : list (option nat)) (v : nat) (s : server) : option server :=
  match slots with
  | [] => Some s
  | None :: slots => who_loop (S i) slots v s
  | Some w :: slots =>
      c ← conns s !! w;
      s ← say v (str (if config (ss (cvty c)) then "*" else " ") ++ str "vty[" ++ dec (Z.of_nat i) ++ str "] connected from " ++ address c ++ ln ".") s;
      who_loop (S i) slots v s
  end.
Definition config_who (v : nat) (s : server) : option (Z * server) :=
  s ← who_loop 0 (Vector.contents (vtyvec s)) v s; Some (CMD_SUCCESS, s).

Definition line_vty (v : nat) (s : server) : option (Z * server) :=
  c ← conns s !! v; Some (CMD_SUCCESS, put_conn v (set_cvty (set_ss (set_node VTY_NODE (ss (cvty c))) (cvty c)) c) s).

(** [index] goes round the ring from the slot after [hindex] to [hindex]. *)
Fixpoint show_loop (fuel : nat) (index : nat) (x : vty buffer) : option (vty buffer) :=
  match fuel with
  | O => None
  | S fuel =>
      if decide (index = hindex (hs x)) then Some x
      else if decide (index = VTY_MAXHIST) then show_loop fuel 0 x
      else
        l ← hist (hs x) !! index;
        x ← match l with Some s => vty_out x (str "  " ++ (chr <$> s) ++ newline) | None => Some x end;
        show_loop fuel (index + 1) x
  end.
Definition show_history (x : vty buffer) : option (Z * vty buffer) :=
  x ← show_loop (VTY_MAXHIST + 2) (hindex (hs x) + 1) x; Some (CMD_SUCCESS, x).

(** ** Settings *)

(** [unsigned long timeout] of [exec_timeout]; [strtol] is [strtoll] on 64 bits. *)
Definition exec_timeout_args (min_str sec_str : option cstring) : Z :=
  let timeout := match min_str with Some m => (strtoll10 m).1 mod 2 ^ 64 * 60 mod 2 ^ 64 | None => 0 end in
  match sec_str with Some x => (timeout + (strtoll10 x).1) mod 2 ^ 64 | None => timeout end.

Definition exec_timeout_min (now : timeval) (m : cstring) (v : nat) (s : server) : option (Z * server) :=
  s ← exec_timeout now (exec_timeout_args (Some m) None) v s; Some (CMD_SUCCESS, s).
Definition exec_timeout_sec (now : timeval) (m x : cstring) (v : nat) (s : server) : option (Z * server) :=
  s ← exec_timeout now (exec_timeout_args (Some m) (Some x)) v s; Some (CMD_SUCCESS, s).
Definition no_exec_timeout (now : timeval) (v : nat) (s : server) : option (Z * server) :=
  s ← exec_timeout now (exec_timeout_args None None) v s; Some (CMD_SUCCESS, s).

Definition vty_access_class (n : cstring) (s : server) : Z * server := (CMD_SUCCESS, set_lists (Some n) (ipv6_accesslist s) s).
Definition vty_ipv6_access_class (n : cstring) (s : server) : Z * server := (CMD_SUCCESS, set_lists (accesslist s) (Some n) s).

(** [argc == 3 && strcmp(...)] *)
Definition names (arg : option cstring) (n : cstring) : bool := match arg with Some a => bool_decide (n = a) | None => true end.

Definition no_vty_access_class (arg : option cstring) (v : nat) (s : server) : option (Z * server) :=
  match accesslist s with
  | Some n => if names arg n then Some (CMD_SUCCESS, set_lists None (ipv6_accesslist s) s)
              else s ← say v (ln "Access-class is not currently applied to vty") s; Some (CMD_WARNING_CONFIG_FAILED, s)
  | None => s ← say v (ln "Access-class is not currently applied to vty") s; Some (CMD_WARNING_CONFIG_FAILED, s)
  end.
Definition no_vty_ipv6_access_class (arg : option cstring) (v : nat) (s : server) : option (Z * server) :=
  match ipv6_accesslist s with
  | Some n => if names arg n then Some (CMD_SUCCESS, set_lists (accesslist s) None s)
              else s ← say v (ln "IPv6 access-class is not currently applied to vty") s; Some (CMD_WARNING_CONFIG_FAILED, s)
  | None => s ← say v (ln "IPv6 access-class is not currently applied to vty") s; Some (CMD_WARNING_CONFIG_FAILED, s)
  end.

Definition vty_login (s : server) : Z * server := (CMD_SUCCESS, set_password_check false s).
Definition no_vty_login (s : server) : Z * server := (CMD_SUCCESS, set_password_check true s).

Definition set_advanced (b : bool) (h : host) : host :=
  Host (name h) (prompts h) (node_parents h) (password h) (password_encrypt h) (enable_pw h) (enable_encrypt h) b (encrypt h) (host_lines h) (motd h) (motdfile h).
Definition service_advanced_vty (s : server) : Z * server := (CMD_SUCCESS, set_shost (set_advanced true (shost s)) s).
Definition no_service_advanced_vty (s : server) : Z * server := (CMD_SUCCESS, set_shost (set_advanced false (shost s)) s).

Definition log_commands (no : bool) (v : nat) (s : server) : option (Z * server) :=
  if no then
    if do_log_commands_perm s then
      s ← say v (ln "Daemon started with permanent logging turned on for commands, ignoring") s; Some (CMD_WARNING, s)
    else Some (CMD_SUCCESS, set_log false s)
  else Some (CMD_SUCCESS, set_log true s).

(** ** Writing the settings *)

Definition say_if (b : bool) (v : nat) (p : cstring) (s : server) : option server := if b then say v p s else Some s.

Definition vty_config_write (v : nat) (s : server) : option (Z * server) :=
  s ← say v (ln "line vty") s;
  s ← match accesslist s with Some n => say v (str " access-class " ++ n ++ newline) s | None => Some s end;
  s ← match ipv6_accesslist s with Some n => say v (str " ipv6 access-class " ++ n ++ newline) s | None => Some s end;
  s ← say_if (negb (vty_timeout_val s =? VTY_TIMEOUT_DEFAULT)) v
        (str " exec-timeout " ++ dec (vty_timeout_val s / 60) ++ str " " ++ dec (vty_timeout_val s mod 60) ++ newline) s;
  s ← say_if (no_password_check s) v (ln " no login") s;
  s ← say_if (do_log_commands s) v (ln "log commands") s;
  s ← say v (ln "!") s;
  Some (CMD_SUCCESS, s).

(** ** The history that is shown *)

(** The slots the loop goes to. *)
Fixpoint visit (fuel index i : nat) : option (list nat) :=
  match fuel with
  | O => None
  | S fuel =>
      if decide (index = i) then Some []
      else if decide (index = VTY_MAXHIST) then visit fuel 0 i
      else l ← visit fuel (index + 1) i; Some (index :: l)
  end.

Fixpoint show_slots (l : list nat) (x : vty buffer) : option (vty buffer) :=
  match l with
  | [] => Some x
  | i :: l =>
      h ← hist (hs x) !! i;
      x ← match h with Some s => vty_out x (str "  " ++ (chr <$> s) ++ newline) | None => Some x end;
      show_slots l x
  end.

Lemma out_hs (x y : vty buffer) p : vty_out x p = Some y → hs y = hs x.
Proof. unfold vty_out. by intros (o & _ & [= <-])%bind_Some. Qed.

Lemma show_loop_visit fuel : ∀ index x l, visit fuel index (hindex (hs x)) = Some l → show_loop fuel index x = show_slots l x.
Proof.
  induction fuel as [|fuel IH]; intros index x l E; [done|]. cbn [visit show_loop] in *. case_decide; [by injection E as <-|].
  case_decide; [by apply IH|]. apply bind_Some in E as (l' & E & [= <-]). cbn [show_slots].
  destruct (hist (hs x) !! index) as [[s|]|]; cbn [mbind option_bind]; [|by apply IH|done].
  destruct (vty_out x _) as [y|] eqn:Ey; cbn [mbind option_bind]; [|done]. apply IH. by rewrite (out_hs _ _ _ Ey).
Qed.

Lemma visit_ring i : (i < VTY_MAXHIST)%nat → visit (VTY_MAXHIST + 2) (i + 1) i = Some (at_ring i <$> reverse (seq 0 (VTY_MAXHIST - 1))).
Proof.
  intros Hi. do 20 (destruct i as [|i]; [vm_compute; reflexivity|]). exfalso. change VTY_MAXHIST with 20%nat in Hi. lia.
Qed.

Definition shown_line (s : list Z) : cstring := str "  " ++ (chr <$> s) ++ newline.

Lemma show_slots_lines recent k js : ∀ x, ring (hs x) recent k → Forall (λ j, j < VTY_MAXHIST)%nat js →
  show_slots (at_ring (hindex (hs x)) <$> js) x = out_all (shown_line <$> omap (recent !!.) js) x.
Proof.
  induction js as [|j js IH]; intros x Hr Hj; [done|]. apply Forall_cons in Hj as [Hj Hjs]. rewrite fmap_cons. cbn [show_slots omap list_omap].
  rewrite (r_recent _ _ _ Hr j Hj). cbn [mbind option_bind]. destruct (recent !! j) as [s|]; cbn [mbind option_bind]; [|by apply IH].
  rewrite fmap_cons. cbn [out_all]. fold (shown_line s). destruct (vty_out x (shown_line s)) as [y|] eqn:Ey; cbn [mbind option_bind]; [|done].
  pose proof (out_hs _ _ _ Ey) as Hy. rewrite <- Hy in Hr |- *. by apply IH.
Qed.

Lemma lookups_take {A} (l : list A) n : omap (l !!.) (reverse (seq 0 n)) = reverse (take n l).
Proof.
  induction n as [|n IH]; [by rewrite take_0|]. rewrite seq_S, reverse_app. cbn [reverse rev_append]. cbn [app omap list_omap]. rewrite Nat.add_0_l.
  destruct (l !! n) as [x|] eqn:E.
  - erewrite take_S_r by done. rewrite reverse_app. cbn. by rewrite <- IH.
  - apply lookup_ge_None in E. rewrite take_ge by lia. rewrite take_ge in IH by lia. exact IH.
Qed.

(** [show history] always ends and prints the newest nineteen lines, the oldest
    of them first; the ring has room for twenty. *)
Theorem show_history_lines (x : vty buffer) (recent : list (list Z)) (k : nat) : ring (hs x) recent k →
  show_history x = (y ← out_all (shown_line <$> reverse (take (VTY_MAXHIST - 1) recent)) x; Some (CMD_SUCCESS, y)).
Proof.
  intros Hr. unfold show_history. erewrite show_loop_visit by (apply visit_ring, Hr). rewrite (show_slots_lines recent k) by (try done; apply Forall_reverse, Forall_seq; intros ? ?; lia).
  by rewrite lookups_take.
Qed.

(** ** The timeout that is written *)

Definition minutes_token : cmd_token := Token RANGE_TKN CMD_ATTR_NORMAL false (str "(0-35791)") None 0 35791 None.
Definition seconds_token : cmd_token := Token RANGE_TKN CMD_ATTR_NORMAL false (str "(0-2147483)") None 0 2147483 None.

Lemma dec_digits fuel : ∀ n acc, 0 ≤ n → forallb isdigit acc = true → forallb isdigit (dec_loop fuel n acc) = true.
Proof.
  induction fuel as [|fuel IH]; intros n acc Hn Ha; [done|]. cbn [dec_loop]. assert (forallb isdigit (chr (48 + n mod 10) :: acc) = true) as Hx.
  { cbn [forallb]. rewrite Ha, andb_true_r. apply digit_chr. apply Z.mod_pos_bound. lia. }
  destruct (n <? 10); [exact Hx|]. apply IH; [apply Z.div_pos; lia|exact Hx].
Qed.

Lemma span_all s : forallb isdigit s = true → span_digits s = (s, []).
Proof. induction s as [|c s IH]; [done|]. cbn. intros [Hc Hs]%andb_true_iff. rewrite Hc, (IH Hs). done. Qed.

Lemma strtoll10_digit d s : 0 ≤ d < 10 → forallb isdigit s = true →
  strtoll10 (chr (48 + d) :: s) = (Z.max (- LONG_MAX - 1) (Z.min LONG_MAX (dec_value 0 (chr (48 + d) :: s))), []).
Proof.
  intros Hd Hs. assert (d ∈ [0; 1; 2; 3; 4; 5; 6; 7; 8; 9]) as Hin by (rewrite !elem_of_cons; lia).
  apply span_all in Hs. repeat (apply elem_of_cons in Hin as [->|Hin]); [..|by apply elem_of_nil in Hin].
  all: match goal with |- context [chr ?z] => let c := eval vm_compute in (chr z) in change (chr z) with c end.
  all: unfold strtoll10; simpl skip_space; cbv iota beta zeta; cbn [span_digits]; change (isdigit _) with true; cbv iota; rewrite Hs, Z.mul_1_l; reflexivity.
Qed.

(** A number that is printed is read back. *)
Lemma strtoll10_dec n : 0 ≤ n < 2 ^ 63 → strtoll10 (dec n) = (n, []).
Proof.
  intros Hn. pose proof (dec_digits 20 n [] ltac:(lia) eq_refl) as Hd. destruct (dec_loop_head 20 n []) as (d & s & E & Hdd); [lia|done|].
  pose proof (dec_loop_value 20 n [] ltac:(lia) ltac:(done)) as Hv. cbn [dec_value] in Hv. unfold dec. rewrite E in *.
  cbn [forallb] in Hd. apply andb_true_iff in Hd as [_ Hd]. rewrite strtoll10_digit by done. cbn [dec_value] in Hv |- *. rewrite Hv. f_equal. unfold LONG_MAX. lia.
Qed.

(** Written timeouts.  What [vty_config_write] prints of a timeout is what
    [exec_timeout] makes the same timeout from; the command accepts it exactly if
    the minutes are not more than 35791. *)
Theorem exec_timeout_written (t : Z) : 0 ≤ t < 2 ^ 63 →
  exec_timeout_args (Some (dec (t / 60))) (Some (dec (t mod 60))) = t
  ∧ match_range seconds_token (dec (t mod 60)) = exact_match
  ∧ match_range minutes_token (dec (t / 60)) = (if decide (t ≤ 35791 * 60 + 59) then exact_match else no_match).
Proof.
  intros Ht. pose proof (Z_div_mod_eq_full t 60) as Hdm. pose proof (Z.mod_pos_bound t 60 ltac:(lia)) as Hm. pose proof (Z.div_pos t 60 ltac:(lia) ltac:(lia)) as Hd.
  assert (strtoll10 (dec (t / 60)) = (t / 60, [])) as E1 by (apply strtoll10_dec; lia).
  assert (strtoll10 (dec (t mod 60)) = (t mod 60, [])) as E2 by (apply strtoll10_dec; lia).
  unfold exec_timeout_args, match_range. rewrite E1, E2. cbn [fst tmin tmax minutes_token seconds_token]. split; [|split].
  - rewrite (Z.mod_small (t / 60)) by lia. rewrite (Z.mod_small (t / 60 * 60)) by lia. rewrite Z.mod_small by lia. lia.
  - by rewrite decide_False by lia.
  - destruct (decide (t ≤ 35791 * 60 + 59)); [by rewrite decide_False by lia|by rewrite decide_True by lia].
Qed.

(** The longest timeout that can be set is written as a command that is refused. *)
Lemma longest_timeout_refused :
  match_range minutes_token (str "35791") = exact_match ∧ match_range seconds_token (str "2147483") = exact_match
  ∧ let t := exec_timeout_args (Some (str "35791")) (Some (str "2147483")) in match_range minutes_token (dec (t / 60)) = no_match.
Proof. vm_compute. done. Qed.

(** ** Examples *)

(** A full ring: the lines [A] to [T]. *)
Definition full_history : vty buffer := set_hs (Hists ((λ i, Some [65 + Z.of_nat i]) <$> seq 0 VTY_MAXHIST) 0 0) session0.
Definition full_recent : list (list Z) := (λ i, [65 + Z.of_nat i]) <$> reverse (seq 0 VTY_MAXHIST).

Lemma full_ring : ring (hs full_history) full_recent 0.
Proof.
  assert (0 < VTY_MAXHIST)%nat as H0 by (apply Nat.ltb_lt; reflexivity). split.
  - reflexivity.
  - exact H0.
  - exact H0.
  - reflexivity.
  - intros j Hj. do 20 (destruct j as [|j]; [reflexivity|]). exfalso. change VTY_MAXHIST with 20%nat in Hj. lia.
  - apply Nat.leb_le. reflexivity.
  - apply Forall_fmap, Forall_reverse, Forall_seq. intros j Hj. change VTY_MAXHIST with 20%nat in Hj. split; [|split; [done|]].
    + unfold line_ok. constructor; [|constructor]. unfold BS. lia.
    + apply Nat.ltb_lt. vm_compute. reflexivity.
Qed.

(** The oldest line, [A], is not shown. *)
Lemma show_history_lines_witness : ∃ y, show_history full_history = Some (CMD_SUCCESS, y)
  ∧ Buffer.contents (obuf (Vty.out y)) = concat ((λ i, [32; 32; 66 + Z.of_nat i; 13; 10]) <$> seq 0 19).
Proof.
  assert (match out_all (shown_line <$> reverse (take (VTY_MAXHIST - 1) full_recent)) full_history with
          | Some y => bool_decide (Buffer.contents (obuf (Vty.out y)) = concat ((λ i, [32; 32; 66 + Z.of_nat i; 13; 10]) <$> seq 0 19)) | None => false end = true) as Hy
    by (vm_compute; reflexivity).
  rewrite (show_history_lines full_history full_recent 0 full_ring).
  destruct (out_all _ _) as [y|]; [|discriminate Hy]. cbn [mbind option_bind]. exists y. split; [reflexivity|]. by apply bool_decide_eq_true in Hy.
Defined.

Lemma exec_timeout_written_witness : exec_timeout_args (Some (dec (3605 / 60))) (Some (dec (3605 mod 60))) = 3605 ∧ dec (3605 / 60) = str "60".
Proof. split; [apply (exec_timeout_written 3605); lia|reflexivity]. Defined.
