(* ===== verification/TapInject.v ===== *)
(** * The cplane_netdev VPP plugin: cplane_netdev/cplane_netdev.c

    The plugin gives every Ethernet interface of VPP a Linux tap device and
    carries packets between the two.  Its state ([cplane_netdev_main_t]) keeps
    four lookup tables between VPP interfaces, tap file descriptors and kernel
    interface indices, the flags of the feature, the lists of interfaces to
    connect or disconnect and a stock of receive buffers.

    [TapTables] models the tables and relates them to the abstract map from
    interface to tap.  [TapControl] adds the system calls of
    [tap_inject_tap_connect] (an oracle of their results), the enable and
    disable operations and the API handlers.  [TapData] models the packet path:
    the tx and neighbor nodes and [tap_rx].

    A [u32] is a [Z]; [NONE] is [~0].  [None] is an access outside a vector or
    a failed assertion. *)
From Stdlib Require Import Ascii String.
From stdpp Require Import prelude gmap list.
From S2P Require Import Prelude CString.
Set Default Goal Selector "!".

Definition NONE : Z := 0xffffffff.

(** ** Vectors of VPP *)

Definition vec_validate_init_empty (v : list Z) (i : Z) : list Z :=
  v ++ replicate (S (Z.to_nat i) - length v) NONE.

(** The entry of a table, [~0] and a missing entry being absent. *)
Definition vget (v : list Z) (i : Z) : option Z :=
  x ← v !! Z.to_nat i; if decide (x = NONE) then None else Some x.

Definition is_index (z : Z) : Prop := (0 ≤ z < NONE)%Z.

Lemma vec_validate_length v i : Z.to_nat i < length (vec_validate_init_empty v i).
Proof. unfold vec_validate_init_empty. rewrite length_app, length_replicate. lia. Qed.

Lemma vget_validate v i j : vget (vec_validate_init_empty v i) j = vget v j.
Proof.
  unfold vget, vec_validate_init_empty. destruct (decide (Z.to_nat j < length v)).
  - by rewrite lookup_app_l.
  - rewrite lookup_app_r by lia. rewrite (lookup_ge_None_2 v) by lia.
    destruct (replicate _ _ !! _) as [x|] eqn:E; [|done].
    apply lookup_replicate in E as [-> _]. obind. by rewrite decide_True.
Qed.

Lemma vget_insert v i x j : (0 ≤ i)%Z → (0 ≤ j)%Z → Z.to_nat i < length v →
  vget (<[Z.to_nat i := x]> v) j =
  if decide (i = j) then (if decide (x = NONE) then None else Some x) else vget v j.
Proof.
  intros Hi Hj Hl. unfold vget. case_decide as E.
  - subst j. by rewrite list_lookup_insert_eq.
  - by rewrite list_lookup_insert_ne by lia.
Qed.

Module TapTables.

Record t := mk {
  sw_if_index_to_tap_fd : list Z;
  sw_if_index_to_tap_if_index : list Z;
  tap_fd_to_sw_if_index : list Z;
  tap_if_index_to_sw_if_index : gmap Z Z;
}.

Definition empty : t := mk [] [] [] ∅.

Definition tap_inject_insert_tap (im : t) (sw_if_index tap_fd tap_if_index : Z) : t :=
  let a := vec_validate_init_empty (sw_if_index_to_tap_fd im) sw_if_index in
  let b := vec_validate_init_empty (sw_if_index_to_tap_if_index im) sw_if_index in
  let c := vec_validate_init_empty (tap_fd_to_sw_if_index im) tap_fd in
  mk (<[Z.to_nat sw_if_index := tap_fd]> a)
     (<[Z.to_nat sw_if_index := tap_if_index]> b)
     (<[Z.to_nat tap_fd := sw_if_index]> c)
     (<[tap_if_index := sw_if_index]> (tap_if_index_to_sw_if_index im)).

Definition tap_inject_delete_tap (im : t) (sw_if_index : Z) : option t :=
  tap_fd ← sw_if_index_to_tap_fd im !! Z.to_nat sw_if_index;
  tap_if_index ← sw_if_index_to_tap_if_index im !! Z.to_nat sw_if_index;
  b ← write (sw_if_index_to_tap_if_index im) (Z.to_nat sw_if_index) NONE;
  a ← write (sw_if_index_to_tap_fd im) (Z.to_nat sw_if_index) NONE;
  c ← write (tap_fd_to_sw_if_index im) (Z.to_nat tap_fd) NONE;
  Some (mk a b c (delete tap_if_index (tap_if_index_to_sw_if_index im))).

Definition tap_inject_lookup_tap_fd (im : t) (sw_if_index : Z) : option (t * Z) :=
  let a := vec_validate_init_empty (sw_if_index_to_tap_fd im) sw_if_index in
  x ← a !! Z.to_nat sw_if_index;
  Some (mk a (sw_if_index_to_tap_if_index im) (tap_fd_to_sw_if_index im)
          (tap_if_index_to_sw_if_index im), x).

Definition tap_inject_lookup_sw_if_index_from_tap_fd (im : t) (tap_fd : Z) : option (t * Z) :=
  let c := vec_validate_init_empty (tap_fd_to_sw_if_index im) tap_fd in
  x ← c !! Z.to_nat tap_fd;
  Some (mk (sw_if_index_to_tap_fd im) (sw_if_index_to_tap_if_index im) c
          (tap_if_index_to_sw_if_index im), x).

(** *** Abstract specification: a map from interface to (fd, kernel index) *)

Abbreviation taps := (gmap Z (Z * Z)).

(** The four tables represent the map. *)
Record represents (im : t) (m : taps) : Prop := {
  rep_fd : ∀ sw, (0 ≤ sw)%Z → vget (sw_if_index_to_tap_fd im) sw = fst <$> m !! sw;
  rep_if : ∀ sw, (0 ≤ sw)%Z → vget (sw_if_index_to_tap_if_index im) sw = snd <$> m !! sw;
  rep_fd_inv : ∀ fd sw, (0 ≤ fd)%Z → vget (tap_fd_to_sw_if_index im) fd = Some sw ↔ ∃ k, m !! sw = Some (fd, k);
  rep_if_inv : ∀ k sw, tap_if_index_to_sw_if_index im !! k = Some sw ↔ ∃ fd, m !! sw = Some (fd, k);
  rep_range : ∀ sw fd k, m !! sw = Some (fd, k) → is_index sw ∧ is_index fd;
}.

Lemma represents_empty : represents empty ∅.
Proof.
  split.
  - intros sw Hs. by rewrite lookup_empty.
  - intros sw Hs. by rewrite lookup_empty.
  - intros fd sw Hf. split; [done|]. intros [k Hk]. by rewrite lookup_empty in Hk.
  - intros k sw. split; [by rewrite lookup_empty|]. intros [fd Hk]. by rewrite lookup_empty in Hk.
  - intros sw fd k Hk. by rewrite lookup_empty in Hk.
Qed.

(** A descriptor or kernel index serves at most one interface. *)
Lemma represents_inj im m sw sw' fd fd' k k' : represents im m →
  m !! sw = Some (fd, k) → m !! sw' = Some (fd', k') → fd = fd' ∨ k = k' → sw = sw'.
Proof.
  intros R H H' [<-|<-].
  - destruct (rep_range _ _ R _ _ _ H) as [_ [Hf _]].
    pose proof (proj2 (rep_fd_inv _ _ R fd sw Hf) (ex_intro _ _ H)).
    pose proof (proj2 (rep_fd_inv _ _ R fd sw' Hf) (ex_intro _ _ H')). congruence.
  - pose proof (proj2 (rep_if_inv _ _ R k sw) (ex_intro _ _ H)).
    pose proof (proj2 (rep_if_inv _ _ R k sw') (ex_intro _ _ H')). congruence.
Qed.

(** Inserting an unconnected interface with a fresh descriptor and index. *)
Lemma insert_tap_represents im m sw fd k : represents im m →
  is_index sw → is_index fd → (0 ≤ k < NONE)%Z → m !! sw = None →
  (∀ s f' k', m !! s = Some (f', k') → f' ≠ fd ∧ k' ≠ k) →
  represents (tap_inject_insert_tap im sw fd k) (<[sw := (fd, k)]> m).
Proof.
  intros R [Hs Hs'] [Hf Hf'] [Hk Hk'] Hn Hfresh. unfold tap_inject_insert_tap. split; simpl.
  - intros s Hs0. rewrite vget_insert, vget_validate by (done || apply vec_validate_length).
    rewrite (decide_False (P := fd = NONE)) by lia.
    case_decide as E; [subst; by rewrite lookup_insert_eq|].
    rewrite lookup_insert_ne by done. by apply R.
  - intros s Hs0. rewrite vget_insert, vget_validate by (done || apply vec_validate_length).
    rewrite (decide_False (P := k = NONE)) by lia.
    case_decide as E; [subst; by rewrite lookup_insert_eq|].
    rewrite lookup_insert_ne by done. by apply R.
  - intros f s Hf0. rewrite vget_insert, vget_validate by (done || apply vec_validate_length).
    rewrite (decide_False (P := sw = NONE)) by lia. case_decide as E.
    + subst f. split; [intros [= <-]; exists k; by rewrite lookup_insert_eq|].
      intros [k0 Hk0]. destruct (decide (sw = s)) as [->|]; [done|].
      rewrite lookup_insert_ne in Hk0 by done. by destruct (Hfresh _ _ _ Hk0).
    + rewrite (rep_fd_inv _ _ R) by done. destruct (decide (sw = s)) as [<-|].
      * rewrite lookup_insert_eq, Hn. split; intros [k0 [=]]; done.
      * by rewrite lookup_insert_ne.
  - intros k0 s. destruct (decide (k = k0)) as [<-|].
    + rewrite lookup_insert_eq. split; [intros [= <-]; exists fd; by rewrite lookup_insert_eq|].
      intros [f0 Hf0]. destruct (decide (sw = s)) as [->|]; [done|].
      rewrite lookup_insert_ne in Hf0 by done. by destruct (Hfresh _ _ _ Hf0).
    + rewrite lookup_insert_ne, (rep_if_inv _ _ R) by done. destruct (decide (sw = s)) as [<-|].
      * rewrite lookup_insert_eq, Hn. split; intros [f0 [=]]; done.
      * by rewrite lookup_insert_ne.
  - intros s f k0 [[<- [= <- <-]]|[_ H]]%lookup_insert_Some; [done|]. by eapply R.
Qed.

Lemma vget_Some v i x : vget v i = Some x → v !! Z.to_nat i = Some x ∧ x ≠ NONE.
Proof. unfold vget. destruct (v !! _); simpl; [|done]. by case_decide; intros [= <-]. Qed.

(** Deleting a connected interface. *)
Lemma delete_tap_represents im m sw fd k : represents im m → m !! sw = Some (fd, k) →
  ∃ im', tap_inject_delete_tap im sw = Some im' ∧ represents im' (delete sw m).
Proof.
  intros R Hm. destruct (rep_range _ _ R _ _ _ Hm) as [[Hs Hs'] [Hf Hf']].
  pose proof (rep_fd _ _ R sw Hs) as Ha. rewrite Hm in Ha. apply vget_Some in Ha as [Ha _].
  pose proof (rep_if _ _ R sw Hs) as Hb. rewrite Hm in Hb. apply vget_Some in Hb as [Hb _].
  pose proof (proj2 (rep_fd_inv _ _ R fd sw Hf) (ex_intro _ _ Hm)) as Hc. apply vget_Some in Hc as [Hc _].
  unfold tap_inject_delete_tap. simpl in Ha, Hb. rewrite Ha, Hb. obind.
  apply lookup_lt_Some in Ha, Hb, Hc. rewrite !write_Some by done. obind.
  eexists. split; [done|]. split; simpl.
  - intros s Hs0. rewrite vget_insert by done. rewrite (decide_True (P := NONE = NONE)) by done.
    case_decide as E; [subst; by rewrite lookup_delete_eq|]. rewrite lookup_delete_ne by done. by apply R.
  - intros s Hs0. rewrite vget_insert by done. rewrite (decide_True (P := NONE = NONE)) by done.
    case_decide as E; [subst; by rewrite lookup_delete_eq|]. rewrite lookup_delete_ne by done. by apply R.
  - intros f s Hf0. rewrite vget_insert by done. rewrite (decide_True (P := NONE = NONE)) by done.
    case_decide as E.
    + subst f. split; [done|]. intros [k0 [Hne Hk0]%lookup_delete_Some].
      destruct Hne. by eapply (represents_inj im m); [| | |left].
    + rewrite (rep_fd_inv _ _ R) by done. destruct (decide (sw = s)) as [<-|].
      * rewrite lookup_delete_eq, Hm. split; intros [k0 [=]]; done.
      * by rewrite lookup_delete_ne.
  - intros k0 s. destruct (decide (k = k0)) as [<-|].
    + rewrite lookup_delete_eq. split; [done|]. intros [f0 [Hne Hk0]%lookup_delete_Some].
      destruct Hne. by eapply (represents_inj im m); [| | |right].
    + rewrite lookup_delete_ne, (rep_if_inv _ _ R) by done. destruct (decide (sw = s)) as [<-|].
      * rewrite lookup_delete_eq, Hm. split; intros [f0 [=]]; done.
      * by rewrite lookup_delete_ne.
  - intros s f k0 [_ H]%lookup_delete_Some. by eapply R.
Qed.

(** *** Sequences of table operations *)

Inductive op :=
  | Insert (sw fd k : Z)
  | Delete (sw : Z)
  | LookupFd (sw : Z)
  | LookupSw (fd : Z).

(** What the operations mean on the map.  The caller's contract: an interface
    is inserted only while unconnected and with a descriptor and a kernel index
    that no other tap uses, and only a connected interface is deleted. *)
Inductive spec_step (m : taps) : op → taps → Z → Prop :=
  | spec_insert sw fd k :
      is_index sw → is_index fd → is_index k → m !! sw = None →
      (∀ s f' k', m !! s = Some (f', k') → f' ≠ fd ∧ k' ≠ k) →
      spec_step m (Insert sw fd k) (<[sw := (fd, k)]> m) 0
  | spec_delete sw tap :
      m !! sw = Some tap → spec_step m (Delete sw) (delete sw m) 0
  | spec_lookup_fd sw r :
      is_index sw → r = default NONE (fst <$> m !! sw) → spec_step m (LookupFd sw) m r
  | spec_lookup_sw fd sw k :
      is_index fd → m !! sw = Some (fd, k) → spec_step m (LookupSw fd) m sw
  | spec_lookup_sw_none fd :
      is_index fd → (∀ sw k, m !! sw ≠ Some (fd, k)) → spec_step m (LookupSw fd) m NONE.

Inductive spec_steps : taps → list op → taps → list Z → Prop :=
  | spec_nil m : spec_steps m [] m []
  | spec_cons m o m1 r ops m' rs :
      spec_step m o m1 r → spec_steps m1 ops m' rs → spec_steps m (o :: ops) m' (r :: rs).

(** The operations of the code. *)
Definition impl_step (im : t) (o : op) : option (t * Z) :=
  match o with
  | Insert sw fd k => Some (tap_inject_insert_tap im sw fd k, 0%Z)
  | Delete sw => im' ← tap_inject_delete_tap im sw; Some (im', 0%Z)
  | LookupFd sw => tap_inject_lookup_tap_fd im sw
  | LookupSw fd => tap_inject_lookup_sw_if_index_from_tap_fd im fd
  end.

Fixpoint impl_run (im : t) (ops : list op) : option (t * list Z) :=
  match ops with
  | [] => Some (im, [])
  | o :: ops =>
      '(im, r) ← impl_step im o;
      '(im, rs) ← impl_run im ops;
      Some (im, r :: rs)
  end.

(** Looking up extends a vector with [~0] and reads the entry. *)
Lemma validate_lookup v i : (0 ≤ i)%Z →
  vec_validate_init_empty v i !! Z.to_nat i = Some (default NONE (vget v i)).
Proof.
  intros Hi. destruct (lookup_lt_is_Some_2 _ _ (vec_validate_length v i)) as [x Hx].
  rewrite Hx, <- (vget_validate v i). unfold vget. rewrite Hx. obind.
  by case_decide as E; [rewrite E|].
Qed.

Lemma lookup_tap_fd_spec im m sw : represents im m → is_index sw →
  ∃ im', tap_inject_lookup_tap_fd im sw = Some (im', default NONE (fst <$> m !! sw)) ∧ represents im' m.
Proof.
  intros R [Hs _]. unfold tap_inject_lookup_tap_fd. rewrite validate_lookup by done.
  rewrite (rep_fd _ _ R) by done. eexists. split; [done|].
  destruct R as [R1 R2 R3 R4 R5]. split; simpl; [|done..].
  intros s Hs0. rewrite vget_validate. by apply R1.
Qed.

Lemma lookup_sw_spec im m fd : represents im m → is_index fd →
  ∃ im', tap_inject_lookup_sw_if_index_from_tap_fd im fd =
           Some (im', default NONE (vget (tap_fd_to_sw_if_index im) fd)) ∧ represents im' m.
Proof.
  intros R [Hf _]. unfold tap_inject_lookup_sw_if_index_from_tap_fd. rewrite validate_lookup by done.
  eexists. split; [done|]. destruct R as [R1 R2 R3 R4 R5]. split; simpl; [done|done| |done|done].
  intros f s Hf0. rewrite vget_validate. by apply R3.
Qed.

Lemma step_refines im m o m' r : represents im m → spec_step m o m' r →
  ∃ im', impl_step im o = Some (im', r) ∧ represents im' m'.
Proof.
  intros R H. destruct H as [sw fd k Hs Hf Hk Hn Hfr|sw [fd k] Hm|sw r Hs ->|fd sw k Hf Hm|fd Hf Hm]; simpl.
  - eexists. split; [done|]. by apply insert_tap_represents.
  - destruct (delete_tap_represents im m sw fd k R Hm) as (im' & -> & R'). by exists im'.
  - by apply lookup_tap_fd_spec.
  - destruct (lookup_sw_spec im m fd R Hf) as (im' & E & R'). exists im'. split; [|done].
    rewrite E. by rewrite (proj2 (rep_fd_inv _ _ R fd sw (proj1 Hf)) (ex_intro _ _ Hm)).
  - destruct (lookup_sw_spec im m fd R Hf) as (im' & E & R'). exists im'. split; [|done].
    rewrite E. destruct (vget _ fd) as [sw|] eqn:Ev; [|done].
    apply (rep_fd_inv _ _ R) in Ev as [k Hk]; [|apply Hf]. by destruct (Hm sw k).
Qed.

(** C5 The four lookup tables of the plugin implement one injective map from
    interface to (tap descriptor, kernel interface index): any sequence of
    insertions, deletions and lookups in both directions that respects the
    callers' contract runs without leaving a vector, answers what the map
    answers ([~0] for a miss) and ends in tables that represent the resulting
    map. *)
Theorem tap_tables_refine (ops : list op) (m' : taps) (rs : list Z) :
  spec_steps ∅ ops m' rs → ∃ im', impl_run empty ops = Some (im', rs) ∧ represents im' m'.
Proof.
  intros H. assert (∀ im, represents im ∅ → ∃ im', impl_run im ops = Some (im', rs) ∧ represents im' m') as HH.
  { induction H as [m|m o m1 r ops m' rs Hstep _ IH]; intros im R; [by exists im|].
    destruct (step_refines im m o m1 r R Hstep) as (im1 & E & R1).
    destruct (IH im1 R1) as (im' & E' & R'). exists im'. split; [|done].
    cbn [impl_run]. rewrite E. obind. by rewrite E'. }
  apply HH, represents_empty.
Qed.

Lemma tap_tables_refine_witness :
  ∃ im', impl_run empty [Insert 1 9 30; LookupSw 9; Delete 1; LookupFd 1] = Some (im', [0; 1; 0; NONE]%Z)
       ∧ represents im' (delete 1%Z (<[1%Z := (9, 30)%Z]> ∅)).
Proof.
  apply (tap_tables_refine [Insert 1 9 30; LookupSw 9; Delete 1; LookupFd 1]).
  eapply spec_cons; [by apply spec_insert|].
  eapply spec_cons; [by eapply (spec_lookup_sw _ 9 1 30)|].
  eapply spec_cons; [by eapply (spec_delete _ 1)|].
  eapply spec_cons; [by apply spec_lookup_fd|]. constructor.
Defined.

End TapTables.

(** ** Control: enabling, disabling and the API handlers *)

Module TapControl.
Import TapTables.

Definition TAP_INJECT_F_CONFIG_ENABLE : Z := Z.shiftl 1 0.
Definition TAP_INJECT_F_CONFIG_DISABLE : Z := Z.shiftl 1 1.
Definition TAP_INJECT_F_ENABLED : Z := Z.shiftl 1 3.

Definition IP_PROTOCOL_ICMP : Z := 1.
Definition IP_PROTOCOL_TCP : Z := 6.
Definition IP_PROTOCOL_UDP : Z := 17.
Definition IP_PROTOCOL_OSPF : Z := 89.

(** The interface of VPP as the plugin sees it. *)
Record hw_interface := mkHw {
  hw_name : cstring;
  hw_if_index : Z;
  sw_if_index : Z;            (* of the software interface at [hw_if_index] *)
  hw_is_ethernet : bool;      (* [hw_class_index == ethernet_hw_interface_class.index] *)
}.

(** Results of the system calls of one [tap_inject_tap_connect]. *)
Record sys_results := mkSys {
  sys_open : Z;               (* [open("/dev/net/tun")]; negative: failure *)
  sys_tunsetiff : bool;
  sys_fionbio : bool;
  sys_socket : bool;
  sys_sifhwaddr : bool;
  sys_gifindex : option Z;
}.

Inductive error :=
  | E_open_tun | E_nonblocking | E_socket | E_hwaddr | E_ifindex
  | E_disconnect | E_isr | E_config_disabled | E_invalid_ifindex | E_create (e : error).

(** The static counters of the name choice. *)
Record counters := mkCnt { loop_if_cnt : Z; host_if_cnt : Z; giga_if_cnt : Z; tap_if_cnt : Z; other_if_cnt : Z }.

Record state := mkState {
  flags : Z;
  tables : TapTables.t;
  interfaces_to_enable : list Z;
  interfaces_to_disable : list Z;
  cnt : counters;
  calls : nat;                (* connect attempts so far *)
  open_taps : list Z;         (* tap descriptors that are open *)
  files : list Z;             (* descriptors registered with [clib_file_add] *)
  tap_names : list cstring;   (* names of the taps created, newest first *)
  arp_node : Z;               (* node registered for ETHERNET_TYPE_ARP *)
  ip4_protocols : gmap Z Z;   (* node registered for each IP protocol *)
}.

Section control.
(** Indices of the graph nodes, the interface pool and the system. *)
Context (tx_node_index neighbor_node_index arp_input_index icmp_input_index : Z).
Context (pool : list (option hw_interface)).
(** Results of the system calls of the [n]th connect, given the tap descriptors
    that are open and the kernel interface indices in use. *)
Context (sys : nat → list Z → list Z → sys_results).

Definition tap_inject_is_enabled (im : state) : bool :=
  negb (Z.land (flags im) TAP_INJECT_F_ENABLED =? 0)%Z.

Definition tap_inject_is_config_disabled (im : state) : bool :=
  negb (Z.land (flags im) TAP_INJECT_F_CONFIG_DISABLE =? 0)%Z.

Definition set_flags (f : Z) (im : state) : state :=
  mkState f (tables im) (interfaces_to_enable im) (interfaces_to_disable im) (cnt im) (calls im)
    (open_taps im) (files im) (tap_names im) (arp_node im) (ip4_protocols im).

Definition set_nodes (arp : Z) (ps : gmap Z Z) (im : state) : state :=
  mkState (flags im) (tables im) (interfaces_to_enable im) (interfaces_to_disable im) (cnt im) (calls im)
    (open_taps im) (files im) (tap_names im) arp ps.

Definition set_lists (en dis : list Z) (im : state) : state :=
  mkState (flags im) (tables im) en dis (cnt im) (calls im)
    (open_taps im) (files im) (tap_names im) (arp_node im) (ip4_protocols im).

Definition tap_inject_disable (im : state) : state :=
  if negb (tap_inject_is_enabled im) then im
  else
    let im := set_nodes arp_input_index
                (delete IP_PROTOCOL_UDP (delete IP_PROTOCOL_TCP (delete IP_PROTOCOL_OSPF
                   (<[IP_PROTOCOL_ICMP := icmp_input_index]> (ip4_protocols im))))) im in
    set_flags (Z.land (flags im) (u32 (Z.lnot TAP_INJECT_F_ENABLED))) im.

Definition tap_inject_enable (im : state) : state :=
  if tap_inject_is_enabled im then im
  else
    let im := set_nodes neighbor_node_index
                (<[IP_PROTOCOL_UDP := tx_node_index]> (<[IP_PROTOCOL_TCP := tx_node_index]>
                (<[IP_PROTOCOL_OSPF := tx_node_index]> (<[IP_PROTOCOL_ICMP := tx_node_index]>
                   (ip4_protocols im))))) im in
    set_flags (Z.lor (flags im) TAP_INJECT_F_ENABLED) im.

(** The name of the tap, from the name of the interface; a counter is used up
    whether or not the tap is created. [%u] prints the low 32 bits. *)
Definition tap_name (hw : cstring) (c : counters) : cstring * counters :=
  let starts s := strncmp_eq hw (str s) (String.length s) in
  let '(mkCnt l h g t o) := c in
  if starts "loop"%string then (str "loop" ++ dec (u32 l), mkCnt (l + 1) h g t o)
  else if starts "host-"%string then (str "host-0-0-" ++ dec (u32 h), mkCnt l (h + 1) g t o)
  else if starts "GigabitEthernet"%string then (str "giga-0-0-" ++ dec (u32 g), mkCnt l h (g + 1) t o)
  else if starts "tap"%string then (str "tap-0-0-" ++ dec (u32 t), mkCnt l h g (t + 1) o)
  else (str "vpp-0-0-" ++ dec (u32 o), mkCnt l h g t (o + 1))%Z.

Definition IFNAMSIZ : nat := 16.

Definition used_indices (im : state) : list Z :=
  (map_to_list (tap_if_index_to_sw_if_index (tables im))).*1.

Definition tap_inject_tap_connect (hw : hw_interface) (im : state) : option (state * option error) :=
  if decide (hw_if_index hw ≠ sw_if_index hw) then None
  else
    let r := sys (calls im) (open_taps im) (used_indices im) in
    let im := mkState (flags im) (tables im) (interfaces_to_enable im) (interfaces_to_disable im) (cnt im)
                (S (calls im)) (open_taps im) (files im) (tap_names im) (arp_node im) (ip4_protocols im) in
    if (sys_open r <? 0)%Z then Some (im, Some E_open_tun)
    else
      let '(name, c) := tap_name (hw_name hw) (cnt im) in
      let ifr_name := take (IFNAMSIZ - 1) name in
      (* the tap is open from here on; [closed] is the state of the paths that close it *)
      let closed := mkState (flags im) (tables im) (interfaces_to_enable im) (interfaces_to_disable im) c
                      (calls im) (open_taps im) (files im) (tap_names im) (arp_node im) (ip4_protocols im) in
      if negb (sys_tunsetiff r) then Some (closed, None)
      else if negb (sys_fionbio r) then Some (closed, Some E_nonblocking)
      else if negb (sys_socket r) then Some (closed, Some E_socket)
      else if negb (sys_sifhwaddr r) then Some (closed, Some E_hwaddr)
      else match sys_gifindex r with
           | None => Some (closed, Some E_ifindex)
           | Some k =>
               Some (mkState (flags im) (tap_inject_insert_tap (tables im) (sw_if_index hw) (sys_open r) k)
                       (interfaces_to_enable im) (interfaces_to_disable im) c (calls im)
                       (sys_open r :: open_taps im) (sys_open r :: files im) (ifr_name :: tap_names im)
                       (arp_node im) (ip4_protocols im), None)
           end.

Definition set_tables (tb : TapTables.t) (fds : list Z) (im : state) : state :=
  mkState (flags im) tb (interfaces_to_enable im) (interfaces_to_disable im) (cnt im) (calls im)
    fds (files im) (tap_names im) (arp_node im) (ip4_protocols im).

(** [close] of the descriptor. *)
Definition close_fd (fd : Z) (fds : list Z) : list Z := filter (λ x, x ≠ fd) fds.

Definition tap_inject_tap_disconnect (sw : Z) (im : state) : option (state * option error) :=
  '(tb, tap_fd) ← tap_inject_lookup_tap_fd (tables im) sw;
  let im := set_tables tb (open_taps im) im in
  if decide (tap_fd = NONE) then Some (im, Some E_disconnect)
  else
    tb ← tap_inject_delete_tap (tables im) sw;
    Some (set_tables tb (close_fd tap_fd (open_taps im)) im, None).

(** First loop of [tap_inject_iface_isr]: stop at the first error. *)
Fixpoint isr_enable_loop (l : list Z) (im : state) : option (state * option error) :=
  match l with
  | [] => Some (im, None)
  | i :: l =>
      hw ← mjoin (pool !! Z.to_nat i);
      if hw_is_ethernet hw then
        '(im, err) ← tap_inject_tap_connect hw im;
        match err with
        | Some e => Some (im, Some e)
        | None => isr_enable_loop l im
        end
      else isr_enable_loop l im
  end.

(** Second loop: errors are ignored. *)
Fixpoint isr_disable_loop (l : list Z) (im : state) : option state :=
  match l with
  | [] => Some im
  | i :: l => '(im, _) ← tap_inject_tap_disconnect i im; isr_disable_loop l im
  end.

Definition tap_inject_iface_isr (im : state) : option (state * Z) :=
  '(im, err) ← isr_enable_loop (interfaces_to_enable im) im;
  im ← isr_disable_loop (interfaces_to_disable im) im;
  Some (set_lists [] [] im, if err is Some _ then (-1)%Z else 0%Z).

(** [pool_foreach]: the indices of the interfaces in use. *)
Definition pool_indices : list Z :=
  Z.of_nat <$> filter (λ i, is_Some (mjoin (pool !! i))) (seq 0 (length pool)).

Definition tap_inject_enable_disable_all_interfaces (enable : bool) (im : state)
    : option (state * option error) :=
  let im := if enable then tap_inject_enable im else tap_inject_disable im in
  let im := if enable
            then set_lists (interfaces_to_enable im ++ pool_indices) (interfaces_to_disable im) im
            else set_lists (interfaces_to_enable im) (interfaces_to_disable im ++ pool_indices) im in
  '(im, ret) ← tap_inject_iface_isr im;
  Some (im, if (ret <? 0)%Z then Some E_isr else None).

(** The reply carries [retval]. *)
Definition vl_api_tap_inject_enable_disable_t_handler (is_enable : Z) (im : state) : option (state * Z) :=
  '(im, err) ← tap_inject_enable_disable_all_interfaces (negb (is_enable =? 0)%Z) im;
  match err with
  | None => Some (im, 0%Z)
  | Some _ =>
      '(im, _) ← tap_inject_enable_disable_all_interfaces false im;
      Some (im, (-1)%Z)
  end.

Definition enable_disable_tap_inject_cmd_fn (function_arg : bool) (im : state) : option (state * option error) :=
  if function_arg then
    if tap_inject_is_config_disabled im then Some (im, Some E_config_disabled)
    else
      '(im, err) ← tap_inject_enable_disable_all_interfaces true im;
      match err with
      | Some e =>
          '(im, _) ← tap_inject_enable_disable_all_interfaces false im;
          Some (im, Some e)
      | None => Some (set_flags (Z.lor (flags im) TAP_INJECT_F_CONFIG_ENABLE) im, None)
      end
  else
    '(im, _) ← tap_inject_enable_disable_all_interfaces false im;
    Some (set_flags (Z.land (flags im) (u32 (Z.lnot TAP_INJECT_F_CONFIG_ENABLE))) im, None).

(** [vnet_get_hw_interface] of an index that is not in use fails. *)
Definition create_cplane_netdev (ifindex : Z) (im : state) : option (state * option error) :=
  hw ← mjoin (pool !! Z.to_nat ifindex);
  if hw_is_ethernet hw then
    '(im, err) ← tap_inject_tap_connect hw im;
    Some (im, option_map E_create err)
  else Some (im, None).

(** One details message per entry of the hash, in network byte order. *)
Definition send_tap_inject_details (context vpp_index kern_index : Z) : Z * Z * Z :=
  (context, htonl vpp_index, htonl kern_index).

Definition vl_api_tap_inject_dump_t_handler (context : Z) (im : state) : list (Z * Z * Z) :=
  (λ '(kern_index, vpp_index), send_tap_inject_details context vpp_index kern_index)
    <$> map_to_list (tap_if_index_to_sw_if_index (tables im)).

Inductive show_output :=
  | ShowConfigDisabled | ShowNotEnabled | ShowEnabled (taps : list (Z * Z)).

Definition show_tap_inject (im : state) : show_output :=
  if tap_inject_is_config_disabled im then ShowConfigDisabled
  else if negb (tap_inject_is_enabled im) then ShowNotEnabled
  else ShowEnabled (map_to_list (tap_if_index_to_sw_if_index (tables im))).

(** *** Correctness *)

(** What the system guarantees: a new descriptor is not one that is open, and
    the kernel index of a new tap is not in use. *)
Definition sys_fresh : Prop := ∀ n fds ks, let r := sys n fds ks in
  (0 ≤ sys_open r)%Z →
  is_index (sys_open r) ∧ (sys_open r ∉ fds) ∧ ∀ k, sys_gifindex r = Some k → is_index k ∧ (k ∉ ks).

(** Interfaces sit at their index, and hardware and software index agree (the
    assertion of [tap_inject_tap_connect]). *)
Definition pool_ok : Prop := ∀ i hw, pool !! i = Some (Some hw) →
  hw_if_index hw = Z.of_nat i ∧ sw_if_index hw = Z.of_nat i ∧ is_index (Z.of_nat i).

(** The tables represent [m] and exactly the taps of [m] are open. *)
Record inv (im : state) (m : taps) : Prop := {
  inv_rep : represents (tables im) m;
  inv_open : ∀ fd, fd ∈ open_taps im ↔ ∃ sw k, m !! sw = Some (fd, k);
}.

(** The parts of the state that connecting and disconnecting leave alone. *)
Definition same_frame (im im' : state) : Prop :=
  flags im' = flags im ∧ interfaces_to_enable im' = interfaces_to_enable im ∧
  interfaces_to_disable im' = interfaces_to_disable im ∧
  arp_node im' = arp_node im ∧ ip4_protocols im' = ip4_protocols im.

Lemma same_frame_trans im1 im2 im3 : same_frame im1 im2 → same_frame im2 im3 → same_frame im1 im3.
Proof. unfold same_frame. intuition congruence. Qed.

Lemma inv_ext im im' m : inv im m → tables im' = tables im → open_taps im' = open_taps im → inv im' m.
Proof. intros [R O] Ht Ho. split; [by rewrite Ht|]. intros fd. by rewrite Ho. Qed.

Lemma used_indices_spec im k : k ∈ used_indices im ↔ is_Some (tap_if_index_to_sw_if_index (tables im) !! k).
Proof.
  unfold used_indices. rewrite list_elem_of_fmap. split.
  - intros ([k' sw] & -> & H%elem_of_map_to_list). by exists sw.
  - intros [sw H]. exists (k, sw). split; [done|]. by apply elem_of_map_to_list.
Qed.

Lemma connect_spec hw im m : sys_fresh → inv im m →
  hw_if_index hw = sw_if_index hw → is_index (sw_if_index hw) → m !! sw_if_index hw = None →
  ∃ im' err, tap_inject_tap_connect hw im = Some (im', err) ∧ same_frame im im' ∧
    (err = None → calls im' = S (calls im)) ∧
    (inv im' m ∧ (err = None → ∃ a b, sys_tunsetiff (sys (calls im) a b) = false)
     ∨ err = None ∧ ∃ fd k, inv im' (<[sw_if_index hw := (fd, k)]> m)).
Proof.
  intros Hsys I Hhw Hsw Hm. unfold tap_inject_tap_connect. rewrite decide_False by (by intros []).
  set (r := sys _ _ _). cbv zeta.
  assert (inv_kept : ∀ im', tables im' = tables im → open_taps im' = open_taps im → inv im' m)
    by (intros; by apply (inv_ext im)).
  destruct (Z.ltb_spec (sys_open r) 0) as [Hlt|Hge].
  { do 2 eexists. split; [done|]. split; [done|]. split; [done|]. left. split; [by apply inv_kept|done]. }
  destruct (tap_name _ _) as [name c].
  destruct (sys_tunsetiff r) eqn:E1; cbn [negb].
  2:{ do 2 eexists. split; [done|]. split; [done|]. split; [done|]. left. split; [by apply inv_kept|].
      intros _. by do 2 eexists. }
  destruct (sys_fionbio r), (sys_socket r), (sys_sifhwaddr r), (sys_gifindex r) as [k|] eqn:Ek;
    cbn [negb]; do 2 eexists; (split; [done|]); (split; [done|]); (split; [done|]);
    try (left; split; [by apply inv_kept|done]).
  right. split; [done|]. exists (sys_open r), k.
  destruct (Hsys (calls im) (open_taps im) (used_indices im)) as (Hfd & Hfr & Hk); [done|].
  destruct (Hk k Ek) as [Hki Hkn]. fold r in Hfd, Hfr. destruct I as [R O]. split; simpl.
  - apply insert_tap_represents; [done..|]. intros s f' k' Hs. split.
    + intros ->. apply Hfr, O. by do 2 eexists.
    + intros ->. apply Hkn, used_indices_spec. exists s. apply (rep_if_inv _ _ R). by eexists.
  - intros fd. rewrite elem_of_cons, O. split.
    + intros [->|(sw & k' & H)]; [do 2 eexists; by rewrite lookup_insert_eq|].
      exists sw, k'. rewrite lookup_insert_ne; [done|]. intros <-. congruence.
    + intros (sw & k' & [[<- [= <- <-]]|[_ H]]%lookup_insert_Some); [by left|]. right. by do 2 eexists.
Qed.

(** Disconnecting removes the tap, if there is one, and closes it. *)
Lemma disconnect_spec sw im m : inv im m → is_index sw →
  ∃ im', tap_inject_tap_disconnect sw im = Some (im', if decide (m !! sw = None) then Some E_disconnect else None)
    ∧ same_frame im im' ∧ inv im' (delete sw m).
Proof.
  intros [R O] Hs. unfold tap_inject_tap_disconnect.
  destruct (lookup_tap_fd_spec (tables im) m sw R Hs) as (tb & -> & R'). obind.
  destruct (m !! sw) as [[fd k]|] eqn:Hm.
  - rewrite (decide_False (P := Some _ = None)) by done. cbn [fmap option_fmap option_map default fst].
    destruct (rep_range _ _ R _ _ _ Hm) as [_ [Hf Hf']]. rewrite decide_False by (simpl; lia).
    destruct (delete_tap_represents tb m sw fd k R' Hm) as (tb' & E & R''). simpl. rewrite E. simpl.
    eexists. split; [done|]. split; [done|]. split; simpl; [done|].
    intros fd'. unfold close_fd. rewrite list_elem_of_filter, O. split.
    + intros (Hne & s & k' & H). exists s, k'. apply lookup_delete_Some. split; [|done].
      intros <-. congruence.
    + intros (s & k' & [Hne H]%lookup_delete_Some). split; [|by do 2 eexists].
      intros ->. destruct Hne. by eapply (represents_inj (tables im) m); [| | |left].
  - rewrite !decide_True by done. eexists. split; [done|]. split; [done|].
    rewrite delete_id by done. by split.
Qed.

Lemma disable_loop_spec l im m : inv im m → Forall is_index l →
  ∃ im', isr_disable_loop l im = Some im' ∧ same_frame im im'
    ∧ inv im' (filter (λ p, p.1 ∉ l) m).
Proof.
  intros I Hl. revert im m I. induction Hl as [|sw l Hs Hl IH]; intros im m I; cbn [isr_disable_loop].
  - exists im. split; [done|]. split; [done|]. rewrite map_filter_id; [done|]. intros; simpl; set_solver.
  - destruct (disconnect_spec sw im m I Hs) as (im1 & -> & F1 & I1). obind.
    destruct (IH im1 _ I1) as (im2 & -> & F2 & I2). exists im2. split; [done|].
    split; [by eapply same_frame_trans|].
    replace (filter (λ p, p.1 ∉ sw :: l) m) with (filter (λ p, p.1 ∉ l) (delete sw m)); [done|].
    apply map_eq. intros s. apply option_eq. intros x.
    rewrite !map_lookup_filter_Some, lookup_delete_Some. simpl. set_solver.
Qed.

(** Interface [i] exists and is an Ethernet interface. *)
Definition ethernet (i : Z) : Prop := ∃ hw, pool !! Z.to_nat i = Some (Some hw) ∧ hw_is_ethernet hw = true.

Definition is_ethernet (i : Z) : bool := match mjoin (pool !! Z.to_nat i) with Some hw => hw_is_ethernet hw | None => false end.
(** How many interfaces of [l] are connected before [i]. *)
Fixpoint before (i : Z) (l : list Z) : nat :=
  match l with
  | [] => 0
  | j :: l => if decide (j = i) then 0 else (if is_ethernet j then S (before i l) else before i l)
  end.
(** The kernel refuses the [n]th device. *)
Definition refused (n : nat) : Prop := ∃ fds ks, sys_tunsetiff (sys n fds ks) = false.

Definition in_pool (i : Z) : Prop := (0 ≤ i)%Z ∧ is_Some (mjoin (pool !! Z.to_nat i)).

Lemma enable_loop_spec l im m : sys_fresh → pool_ok → inv im m → NoDup l → Forall in_pool l →
  (∀ i, i ∈ l → m !! i = None) →
  ∃ im' err m', isr_enable_loop l im = Some (im', err) ∧ same_frame im im' ∧ inv im' m'
    ∧ (∀ i tap, m' !! i = Some tap → m !! i = Some tap ∨ i ∈ l ∧ ethernet i)
    ∧ (∀ i tap, m !! i = Some tap → m' !! i = Some tap)
    ∧ (err = None → ∀ i, i ∈ l → ethernet i → is_Some (m' !! i) ∨ refused (calls im + before i l)).
Proof.
  intros Hsys Hpool I Hnd Hl. revert im m I Hnd.
  induction Hl as [|i l [Hi0 [hw Hhw]] Hl IH]; intros im m I Hnd Hm; cbn [isr_enable_loop].
  { exists im, None, m. split_and!; try done; set_solver. }
  apply NoDup_cons in Hnd as [Hil Hnd]. rewrite Hhw. obind.
  assert (pool !! Z.to_nat i = Some (Some hw)) as Hp.
  { destruct (pool !! Z.to_nat i) as [[|]|]; simpl in Hhw; congruence. }
  destruct (Hpool _ _ Hp) as (H1 & H2 & H3). rewrite Z2Nat.id in * by done.
  destruct (hw_is_ethernet hw) eqn:He.
  2:{ destruct (IH im m I Hnd) as (im' & err & m' & E & F & I' & G1 & G2 & G3); [set_solver|].
      exists im', err, m'. split_and!; [done..| |done|].
      - intros j tap Hj. destruct (G1 j tap Hj); set_solver.
      - intros Herr j [->|Hj]%elem_of_cons [hw' [Hp' He']]; [congruence|]. cbn [before].
        rewrite decide_False by (by intros ->). unfold is_ethernet. rewrite Hhw, He. apply G3; [done..|]. by exists hw'. }
  destruct (connect_spec hw im m) as (im1 & e & -> & F1 & Hcalls & Hcase); [done|done|congruence|by rewrite H2| |].
  { rewrite H2. apply Hm. left. }
  obind. rewrite H2 in Hcase. destruct e as [e|].
  { destruct Hcase as [[I1 _]|[? _]]; [|done]. exists im1, (Some e), m. split_and!; try done. set_solver. }
  assert (∃ m1, inv im1 m1 ∧ (∀ j, j ≠ i → m1 !! j = m !! j)
    ∧ (is_Some (m1 !! i) ∨ refused (calls im))) as (m1 & I1 & Hm1 & Hs1).
  { destruct Hcase as [[I1 Hf]|[_ (fd & k & I1)]].
    - exists m. split; [done|]. split; [done|]. right. by apply Hf.
    - eexists. split; [done|]. split; [by intros j Hj; rewrite lookup_insert_ne|].
      left. by rewrite lookup_insert_eq. }
  destruct (IH im1 m1 I1 Hnd) as (im' & err & m' & E & F & I' & G1 & G2 & G3).
  { intros j Hj. rewrite Hm1 by (by intros ->). apply Hm. by right. }
  assert (ethernet i) as Hei by (by exists hw).
  assert (m !! i = None) as Hmi by (apply Hm; left).
  exists im', err, m'. split_and!; [done|by eapply same_frame_trans|done|..].
  - intros j tap Hj. destruct (G1 j tap Hj) as [G|[G G']]; [|by right; split; [right|]].
    destruct (decide (j = i)) as [->|]; [right; split; [left|done]|]. left. by rewrite <- Hm1.
  - intros j tap Hj. apply G2. rewrite Hm1; [done|]. intros ->. congruence.
  - intros Herr j Hj Hej. cbn [before]. destruct (decide (i = j)) as [<-|Hne].
    + rewrite Nat.add_0_r. destruct Hs1 as [[tap Htap]|]; [left; exists tap; by apply G2|by right].
    + apply elem_of_cons in Hj as [->|Hj]; [done|]. unfold is_ethernet. rewrite Hhw, He, Nat.add_succ_r, <- Nat.add_succ_l, <- Hcalls by done. by apply G3.
Qed.

Lemma pool_indices_spec i : i ∈ pool_indices ↔ in_pool i.
Proof.
  unfold pool_indices, in_pool. rewrite list_elem_of_fmap. split.
  - intros (n & -> & [Hn _]%list_elem_of_filter). rewrite Nat2Z.id. split; [lia|done].
  - intros [H0 Hi]. exists (Z.to_nat i). rewrite Z2Nat.id by done. split; [done|].
    apply list_elem_of_filter. split; [done|]. apply elem_of_seq. split; [lia|].
    destruct (pool !! Z.to_nat i) eqn:E; [by apply lookup_lt_Some in E|by destruct Hi].
Qed.

Lemma pool_indices_NoDup : NoDup pool_indices.
Proof.
  unfold pool_indices. apply NoDup_fmap_2; [apply _|]. apply NoDup_filter, NoDup_seq.
Qed.

Lemma pool_indices_index : pool_ok → Forall is_index pool_indices.
Proof.
  intros Hp. apply Forall_forall. intros i [H0 [hw Hi]]%pool_indices_spec.
  destruct (pool !! Z.to_nat i) as [[hw'|]|] eqn:E; [|done|done].
  destruct (Hp _ _ E) as (_ & _ & H). by rewrite Z2Nat.id in H.
Qed.

Lemma ethernet_in_pool i : (0 ≤ i)%Z → ethernet i → in_pool i.
Proof. intros H0 (hw & Hp & _). split; [done|]. rewrite Hp. by exists hw. Qed.

(** The flags after enabling and disabling. *)
Lemma enable_is_enabled im : tap_inject_is_enabled (tap_inject_enable im) = true.
Proof.
  unfold tap_inject_enable. destruct (tap_inject_is_enabled im) eqn:E; [done|].
  unfold tap_inject_is_enabled. simpl. rewrite Z.land_lor_distr_l.
  apply negb_true_iff, Z.eqb_neq. intros H. apply Z.lor_eq_0_iff in H as [_ H]. by vm_compute in H.
Qed.

Lemma disable_is_enabled im : tap_inject_is_enabled (tap_inject_disable im) = false.
Proof.
  unfold tap_inject_disable. destruct (tap_inject_is_enabled im) eqn:E; [|done].
  unfold tap_inject_is_enabled. simpl. rewrite <- Z.land_assoc.
  change (Z.land (u32 (Z.lnot TAP_INJECT_F_ENABLED)) TAP_INJECT_F_ENABLED) with 0%Z.
  by rewrite Z.land_0_r.
Qed.

(** Between two operations nothing is queued. *)
Definition idle (im : state) : Prop := interfaces_to_enable im = [] ∧ interfaces_to_disable im = [].

Lemma inv_frame_lists im m en dis : inv im m → inv (set_lists en dis im) m.
Proof. intros I. by apply (inv_ext im). Qed.

Lemma inv_enable im m : inv im m → inv (tap_inject_enable im) m.
Proof. intros I. unfold tap_inject_enable. destruct (tap_inject_is_enabled im); [done|]. by apply (inv_ext im). Qed.
Lemma inv_disable im m : inv im m → inv (tap_inject_disable im) m.
Proof. intros I. unfold tap_inject_disable. destruct (tap_inject_is_enabled im); [|done]. by apply (inv_ext im). Qed.
Lemma idle_enable im : idle im → idle (tap_inject_enable im).
Proof. unfold tap_inject_enable. by destruct (tap_inject_is_enabled im). Qed.
Lemma idle_disable im : idle im → idle (tap_inject_disable im).
Proof. unfold tap_inject_disable. by destruct (tap_inject_is_enabled im). Qed.

(** Disabling closes every tap. *)
Lemma disable_all_spec im m : pool_ok → inv im m → idle im → (∀ i tap, m !! i = Some tap → in_pool i) →
  ∃ im', tap_inject_enable_disable_all_interfaces false im = Some (im', None)
    ∧ inv im' ∅ ∧ idle im' ∧ tap_inject_is_enabled im' = false.
Proof.
  intros Hp I Hid Hm. unfold tap_inject_enable_disable_all_interfaces, tap_inject_iface_isr.
  destruct (idle_disable im Hid) as [E1 E2]. set (im0 := tap_inject_disable im) in *. cbv zeta.
  cbn [interfaces_to_enable interfaces_to_disable set_lists]. rewrite E1, E2. cbn [isr_enable_loop mbind option_bind app].
  destruct (disable_loop_spec pool_indices (set_lists [] pool_indices im0) m) as (im1 & E & F & I1);
    [by apply inv_frame_lists, inv_disable|by apply pool_indices_index|].
  cbn [interfaces_to_disable set_lists]. rewrite E. obind.
  eexists. split; [done|]. split; [|split; [done|]].
  - apply inv_frame_lists. replace (∅ : taps) with (filter (λ p : Z * (Z * Z), p.1 ∉ pool_indices) m); [done|].
    apply map_empty. intros i. apply map_lookup_filter_None. right. intros tap Hi Hn. apply Hn.
    apply pool_indices_spec. by eapply Hm.
  - destruct F as [Ff _]. unfold tap_inject_is_enabled. simpl. rewrite Ff.
    apply (disable_is_enabled im).
Qed.

Lemma enable_all_spec im : sys_fresh → pool_ok → inv im ∅ → idle im →
  ∃ im' err m', tap_inject_enable_disable_all_interfaces true im = Some (im', err)
    ∧ inv im' m' ∧ idle im' ∧ tap_inject_is_enabled im' = true
    ∧ (∀ i tap, m' !! i = Some tap → in_pool i ∧ ethernet i)
    ∧ (err = None → ∀ i, (0 ≤ i)%Z → ethernet i → is_Some (m' !! i) ∨ refused (calls im + before i pool_indices)).
Proof.
  intros Hsys Hp I Hid. unfold tap_inject_enable_disable_all_interfaces, tap_inject_iface_isr.
  destruct (idle_enable im Hid) as [E1 E2]. set (im0 := tap_inject_enable im) in *. cbv zeta.
  cbn [interfaces_to_enable interfaces_to_disable set_lists]. rewrite E1, E2. cbn [app].
  destruct (enable_loop_spec pool_indices (set_lists pool_indices [] im0) ∅)
    as (im1 & err & m' & E & F & I1 & G1 & _ & G3);
    [done|done|by apply inv_frame_lists, inv_enable|apply pool_indices_NoDup| |done|].
  { apply Forall_forall. intros i Hi. by apply pool_indices_spec. }
  cbn [interfaces_to_enable set_lists]. rewrite E. obind.
  pose proof F as (Ff & _ & Fd & _). rewrite Fd. cbn [interfaces_to_disable set_lists isr_disable_loop mbind option_bind].
  eexists _, _, m'. split; [done|]. split_and!.
  - by apply inv_frame_lists.
  - done.
  - unfold tap_inject_is_enabled. simpl. rewrite Ff. apply (enable_is_enabled im).
  - intros i tap Hi. destruct (G1 i tap Hi) as [?|[H1 H2]]; [done|]. by rewrite <- pool_indices_spec.
  - intros Herr i H0 He. assert (calls im = calls (set_lists pool_indices [] im0)) as ->.
    { subst im0. unfold tap_inject_enable. by destruct (tap_inject_is_enabled im). }
    apply G3; [by destruct err| |done]. by apply pool_indices_spec, ethernet_in_pool.
Qed.


(** Every entry for an interface leads into the other two vectors.  All
    operations keep this, also the second connection of an interface. *)
Definition in_range (tb : TapTables.t) : Prop := ∀ sw fd, (0 ≤ sw)%Z → vget (sw_if_index_to_tap_fd tb) sw = Some fd →
  (0 ≤ fd)%Z ∧ Z.to_nat sw < length (sw_if_index_to_tap_if_index tb) ∧ Z.to_nat fd < length (tap_fd_to_sw_if_index tb).

Lemma vget_lt v i x : vget v i = Some x → Z.to_nat i < length v.
Proof. intros [E _]%vget_Some. by apply lookup_lt_Some in E. Qed.

Lemma represents_in_range tb m : represents tb m → in_range tb.
Proof.
  intros R sw fd Hs E. pose proof (rep_fd _ _ R sw Hs) as Em. rewrite E in Em. destruct (m !! sw) as [[fd' k]|] eqn:Hm; [|done]. injection Em as ->.
  destruct (rep_range _ _ R _ _ _ Hm) as [_ [Hf _]]. split; [done|]. split; eapply vget_lt.
  - by rewrite (rep_if _ _ R sw Hs), Hm.
  - apply (rep_fd_inv _ _ R); [done|by exists k].
Qed.

Lemma insert_in_range tb sw fd k : (0 ≤ sw)%Z → (0 ≤ fd)%Z → in_range tb → in_range (tap_inject_insert_tap tb sw fd k).
Proof.
  intros Hs Hf R sw' fd' Hs'. pose proof (vec_validate_length (sw_if_index_to_tap_if_index tb) sw). pose proof (vec_validate_length (tap_fd_to_sw_if_index tb) fd).
  cbn [tap_inject_insert_tap sw_if_index_to_tap_fd sw_if_index_to_tap_if_index tap_fd_to_sw_if_index]. rewrite !length_insert.
  rewrite vget_insert, vget_validate by (done || apply vec_validate_length). destruct (decide (sw = sw')) as [<-|].
  - destruct (decide (fd = NONE)); [done|]. by intros [= <-].
  - intros (? & ? & ?)%R; [|done]. unfold vec_validate_init_empty. rewrite !length_app. lia.
Qed.

Lemma connect_in_range hw im im' err : sys_fresh → is_index (sw_if_index hw) → in_range (tables im) →
  tap_inject_tap_connect hw im = Some (im', err) → in_range (tables im').
Proof.
  intros Hsys [Hsw _] R. unfold tap_inject_tap_connect. destruct (decide _); [done|]. cbv zeta. set (r := sys _ _ _).
  destruct (Z.ltb_spec (sys_open r) 0); [by intros [= <- _]|]. destruct (tap_name _ _) as [name c].
  destruct (sys_tunsetiff r), (sys_fionbio r), (sys_socket r), (sys_sifhwaddr r), (sys_gifindex r); intros [= <- _]; try done.
  by apply insert_in_range.
Qed.

(** Disconnecting closes the descriptor the tables lead to, if any. *)
Lemma disconnect_range sw im : in_range (tables im) → is_index sw →
  ∃ im' err, tap_inject_tap_disconnect sw im = Some (im', err) ∧ same_frame im im' ∧ in_range (tables im')
    ∧ (∀ s, (0 ≤ s)%Z → vget (sw_if_index_to_tap_fd (tables im')) s = if decide (s = sw) then None else vget (sw_if_index_to_tap_fd (tables im)) s)
    ∧ (∀ fd, fd ∈ open_taps im' ↔ fd ∈ open_taps im ∧ vget (sw_if_index_to_tap_fd (tables im)) sw ≠ Some fd).
Proof.
  intros R [Hs _]. unfold tap_inject_tap_disconnect, tap_inject_lookup_tap_fd. rewrite validate_lookup by done. cbn [mbind option_bind].
  destruct (vget (sw_if_index_to_tap_fd (tables im)) sw) as [fd|] eqn:E; cbn [default].
  - destruct (R sw fd Hs E) as (Hf & L1 & L2). assert (fd ≠ NONE) as Hfd by (by apply vget_Some in E as [_ ?]). rewrite decide_False by done.
    unfold tap_inject_delete_tap. cbn [tables set_tables sw_if_index_to_tap_fd sw_if_index_to_tap_if_index tap_fd_to_sw_if_index].
    rewrite validate_lookup by done. rewrite E. cbn [mbind option_bind default].
    destruct (lookup_lt_is_Some_2 _ _ L1) as [k ->]. cbn [mbind option_bind]. rewrite !write_Some by (done || apply vec_validate_length). cbn [mbind option_bind].
    do 2 eexists. split; [done|]. split; [done|].
    assert (∀ s, (0 ≤ s)%Z → vget (<[Z.to_nat sw:=NONE]> (vec_validate_init_empty (sw_if_index_to_tap_fd (tables im)) sw)) s
      = if decide (s = sw) then None else vget (sw_if_index_to_tap_fd (tables im)) s) as Hget.
    { intros s Hs'. rewrite vget_insert, vget_validate by (done || apply vec_validate_length). rewrite (decide_True (P := NONE = NONE)) by done.
      destruct (decide (sw = s)), (decide (s = sw)); done. }
    split; [|split; [exact Hget|]].
    + intros s fd' Hs'. cbn [tables set_tables sw_if_index_to_tap_fd sw_if_index_to_tap_if_index tap_fd_to_sw_if_index]. rewrite Hget, !length_insert by done.
      destruct (decide (s = sw)); [done|]. by apply R.
    + intros fd'. cbn [open_taps set_tables]. unfold close_fd. rewrite list_elem_of_filter. split; intros [H1 H2].
      * split; [done|]. intros [= ->]. by destruct H1.
      * split; [|done]. intros ->. by destruct H2.
  - rewrite decide_True by done. do 2 eexists. split; [done|]. split; [done|]. cbn [tables set_tables sw_if_index_to_tap_fd open_taps].
    split; [|split; [|by intros; split; [|intros []]]].
    + intros s fd' Hs'. cbn [sw_if_index_to_tap_fd sw_if_index_to_tap_if_index tap_fd_to_sw_if_index]. rewrite vget_validate. by apply R.
    + intros s Hs'. rewrite vget_validate. by destruct (decide (s = sw)) as [->|].
Qed.

Lemma disable_loop_range l : Forall is_index l → ∀ im, in_range (tables im) →
  ∃ im', isr_disable_loop l im = Some im' ∧ same_frame im im' ∧ in_range (tables im')
    ∧ (∀ s, (0 ≤ s)%Z → vget (sw_if_index_to_tap_fd (tables im')) s = if decide (s ∈ l) then None else vget (sw_if_index_to_tap_fd (tables im)) s)
    ∧ (∀ fd, fd ∈ open_taps im' ↔ fd ∈ open_taps im ∧ ∀ i, i ∈ l → vget (sw_if_index_to_tap_fd (tables im)) i ≠ Some fd).
Proof.
  induction 1 as [|sw l Hs Hl IH]; intros im R; cbn [isr_disable_loop].
  - exists im. split_and!; [done..|]. intros fd. split; [|tauto]. intros ?. split; [done|]. by intros i ?%elem_of_nil.
  - destruct (disconnect_range sw im R Hs) as (im1 & err & -> & F1 & R1 & G1 & O1). obind. destruct (IH im1 R1) as (im2 & -> & F2 & R2 & G2 & O2).
    exists im2. split; [done|]. split; [by eapply same_frame_trans|]. split; [done|]. rewrite Forall_forall in Hl. split.
    + intros s Hs'. rewrite G2, G1 by done. destruct (decide (s ∈ l)), (decide (s = sw)), (decide (s ∈ sw :: l)); set_solver.
    + intros fd. rewrite O2, O1. split.
      * intros [[Ho Hsw] Hall]. split; [done|]. intros i [->|Hi]%elem_of_cons; [done|]. specialize (Hall i Hi). rewrite G1 in Hall by (by apply Hl).
        destruct (decide (i = sw)) as [->|]; done.
      * intros [Ho Hall]. split; [split; [done|apply Hall; left]|]. intros i Hi. rewrite G1 by (by apply Hl). destruct (decide (i = sw)); [done|].
        apply Hall. by right.
Qed.

Lemma disable_all_range im : pool_ok → in_range (tables im) → idle im →
  ∃ im', tap_inject_enable_disable_all_interfaces false im = Some (im', None) ∧ in_range (tables im') ∧ idle im' ∧ tap_inject_is_enabled im' = false
    ∧ (∀ i, in_pool i → vget (sw_if_index_to_tap_fd (tables im')) i = None)
    ∧ (∀ fd, fd ∈ open_taps im' ↔ fd ∈ open_taps im ∧ ¬ ∃ i, in_pool i ∧ vget (sw_if_index_to_tap_fd (tables im)) i = Some fd).
Proof.
  intros Hp R Hid. unfold tap_inject_enable_disable_all_interfaces, tap_inject_iface_isr.
  assert (tables (tap_inject_disable im) = tables im ∧ open_taps (tap_inject_disable im) = open_taps im) as [Et Eo].
  { unfold tap_inject_disable. by destruct (tap_inject_is_enabled im). }
  destruct (idle_disable im Hid) as [E1 E2]. pose proof (disable_is_enabled im) as Hdis. set (im0 := tap_inject_disable im) in *. cbv zeta.
  cbn [interfaces_to_enable interfaces_to_disable set_lists]. rewrite E1, E2. cbn [isr_enable_loop mbind option_bind app].
  destruct (disable_loop_range pool_indices (pool_indices_index Hp) (set_lists [] pool_indices im0)) as (im1 & E & F & R1 & G & O); [by cbn; rewrite Et|].
  cbn [interfaces_to_disable set_lists]. rewrite E. obind. cbn [tables open_taps set_lists] in G, O. rewrite Et in G, O. rewrite Eo in O.
  eexists. split; [done|]. split; [done|]. split; [done|]. split; [|split].
  - destruct F as [Ff _]. unfold tap_inject_is_enabled. simpl. by rewrite Ff.
  - intros i Hi. cbn [tables set_lists]. rewrite G by (by destruct Hi). by rewrite decide_True by (by apply pool_indices_spec).
  - intros fd. cbn [open_taps set_lists]. rewrite O. split; intros [? H]; (split; [done|]).
    + intros (i & Hi & E'). by apply (H i); [apply pool_indices_spec|].
    + intros i Hi E'. apply H. exists i. split; [by apply pool_indices_spec|done].
Qed.

(** C7 The disable request, from any state whose tables stay inside their vectors,
    also one in which interfaces were connected twice: it succeeds, clears the
    enabled flag and the entries of all interfaces of the pool, and closes exactly
    the descriptors these entries led to.  So when the tables represent the open
    taps and these belong to interfaces of the pool, every tap is closed and the
    tables are empty, while a tap that was replaced by a second connection stays
    open.  The CLI command also clears the configuration flag. *)
Theorem disable_closes_connected (im : state) :
  pool_ok → in_range (tables im) → idle im →
  ∃ im', vl_api_tap_inject_enable_disable_t_handler 0 im = Some (im', 0%Z)
    ∧ in_range (tables im') ∧ idle im' ∧ tap_inject_is_enabled im' = false
    ∧ (∀ i, in_pool i → vget (sw_if_index_to_tap_fd (tables im')) i = None)
    ∧ (∀ fd, fd ∈ open_taps im' ↔ fd ∈ open_taps im ∧ ¬ ∃ i, in_pool i ∧ vget (sw_if_index_to_tap_fd (tables im)) i = Some fd)
    ∧ (∀ m, inv im m → (∀ i tap, m !! i = Some tap → in_pool i) → inv im' ∅ ∧ open_taps im' = [])
    ∧ (show_tap_inject im' = ShowNotEnabled ∨ show_tap_inject im' = ShowConfigDisabled)
    ∧ ∃ im'', enable_disable_tap_inject_cmd_fn false im = Some (im'', None)
      ∧ Z.land (flags im'') TAP_INJECT_F_CONFIG_ENABLE = 0%Z.
Proof.
  intros Hp R Hid. unfold vl_api_tap_inject_enable_disable_t_handler, enable_disable_tap_inject_cmd_fn.
  change (negb (0 =? 0)%Z) with false.
  destruct (disable_all_range im Hp R Hid) as (im' & E & R' & Hid' & Dis & G & O). rewrite E.
  obind. exists im'. split_and!; [done..| | |].
  - intros m I Hm. destruct (disable_all_spec im m Hp I Hid Hm) as (im1 & E1 & I1 & _). rewrite E in E1. injection E1 as <-. split; [done|].
    destruct (open_taps im') as [|fd fds] eqn:Eo; [done|]. destruct (proj1 (inv_open _ _ I1 fd)) as (sw & k & H); [rewrite Eo; left|].
    by rewrite lookup_empty in H.
  - unfold show_tap_inject. rewrite Dis. destruct (tap_inject_is_config_disabled im'); [by right|by left].
  - eexists. split; [done|]. simpl. rewrite <- Z.land_assoc.
    change (Z.land (u32 (Z.lnot TAP_INJECT_F_CONFIG_ENABLE)) TAP_INJECT_F_CONFIG_ENABLE) with 0%Z.
    apply Z.land_0_r.
Qed.

(** Disconnecting right after an insertion finds the inserted tap. *)
Lemma insert_then_delete tb sw fd k : is_index sw → is_index fd →
  ∃ tb1 tb2, tap_inject_lookup_tap_fd (tap_inject_insert_tap tb sw fd k) sw = Some (tb1, fd)
    ∧ tap_inject_delete_tap tb1 sw = Some tb2.
Proof.
  intros [Hs _] [Hf Hf']. unfold tap_inject_lookup_tap_fd. rewrite validate_lookup by done.
  pose proof (vec_validate_length (sw_if_index_to_tap_fd tb) sw) as L1.
  pose proof (vec_validate_length (sw_if_index_to_tap_if_index tb) sw) as L2.
  pose proof (vec_validate_length (tap_fd_to_sw_if_index tb) fd) as L3.
  cbn [sw_if_index_to_tap_fd tap_inject_insert_tap].
  rewrite vget_insert, decide_True, decide_False by (done || lia). cbn [mbind option_bind default].
  do 2 eexists. split; [done|]. unfold tap_inject_delete_tap.
  cbn [sw_if_index_to_tap_fd sw_if_index_to_tap_if_index tap_fd_to_sw_if_index tap_inject_insert_tap].
  rewrite validate_lookup, vget_insert, decide_True, decide_False by (done || lia).
  cbn [mbind option_bind default]. rewrite list_lookup_insert_eq by done. obind.
  rewrite !write_Some by (apply vec_validate_length || by rewrite length_insert). done.
Qed.

(** Connecting an interface that already has a tap loses the old tap: its
    descriptor stays open and keeps pointing at the interface, but no table
    leads from the interface to it any more, so disconnecting the interface
    closes only the new tap. *)
Theorem reconnect_leaks_tap (hw : hw_interface) (im im' : state) (m : taps) (fd k : Z) :
  sys_fresh → inv im m → hw_if_index hw = sw_if_index hw → is_index (sw_if_index hw) →
  m !! sw_if_index hw = Some (fd, k) →
  tap_inject_tap_connect hw im = Some (im', None) → tables im' ≠ tables im →
  fd ∈ open_taps im' ∧ vget (tap_fd_to_sw_if_index (tables im')) fd = Some (sw_if_index hw)
  ∧ vget (sw_if_index_to_tap_fd (tables im')) (sw_if_index hw) ≠ Some fd
  ∧ ∃ im'', tap_inject_tap_disconnect (sw_if_index hw) im' = Some (im'', None) ∧ fd ∈ open_taps im''.
Proof.
  intros Hsys [R O] Hhw Hsw Hm. pose proof (rep_range _ _ R _ _ _ Hm) as [_ Hfd].
  unfold tap_inject_tap_connect. rewrite decide_False by (by intros []). set (r := sys _ _ _). cbv zeta.
  destruct (Z.ltb_spec (sys_open r) 0) as [|Hge]; [done|]. destruct (tap_name _ _) as [name c].
  destruct (Hsys (calls im) (open_taps im) (used_indices im)) as (Hfd' & Hfr & _); [done|]. fold r in Hfd', Hfr.
  assert (fd ∈ open_taps im) as Hopen by (apply O; by do 2 eexists).
  assert (fd ≠ sys_open r) as Hne by (by intros ->).
  destruct (sys_tunsetiff r), (sys_fionbio r), (sys_socket r), (sys_sifhwaddr r), (sys_gifindex r) as [k'|];
    cbn [negb]; intros [= <-] Hneq; try done.
  destruct (insert_then_delete (tables im) (sw_if_index hw) (sys_open r) k' Hsw Hfd') as (tb1 & tb2 & E1 & E2).
  split_and!; simpl.
  - by right.
  - rewrite vget_insert, decide_False, vget_validate by (apply vec_validate_length || apply Hfd' || apply Hfd || done).
    apply (rep_fd_inv _ _ R); [apply Hfd|by exists k].
  - rewrite vget_insert, decide_True, decide_False by (apply vec_validate_length || apply Hsw || unfold is_index in Hfd'; done || lia).
    congruence.
  - unfold tap_inject_tap_disconnect. cbn [tables]. rewrite E1. obind.
    rewrite decide_False by (unfold is_index in Hfd'; lia). cbn [tables set_tables]. rewrite E2.
    obind. eexists. split; [done|]. simpl. unfold close_fd.
    apply list_elem_of_filter. split; [done|by right].
Qed.
End control.

(** *** A concrete system *)

Definition above (l : list Z) : Z := 1 + foldr Z.max 0%Z l.

(** Descriptors and kernel indices above those in use; the socket call of the
    attempt [bad] fails. *)
Definition sys_example (bad n : nat) (fds ks : list Z) : sys_results :=
  mkSys (if (above fds <? NONE)%Z then above fds else (-1)%Z) true true (negb (n =? bad)) true
    (if (above ks <? NONE)%Z then Some (above ks) else None).

Lemma above_fresh l : (0 < above l)%Z ∧ above l ∉ l.
Proof.
  unfold above. assert (0 ≤ foldr Z.max 0 l ∧ ∀ x, x ∈ l → x ≤ foldr Z.max 0 l)%Z as [H0 H].
  { induction l as [|y l [IH0 IH]]; [set_solver|]. cbn [foldr]. split; [lia|].
    intros x [->|Hx%IH]%elem_of_cons; lia. }
  split; [lia|]. intros Hin%H. lia.
Qed.

Lemma sys_example_fresh bad : sys_fresh (sys_example bad).
Proof.
  intros n fds ks. cbn. destruct (above_fresh fds) as [H1 H2], (above_fresh ks) as [H3 H4].
  destruct (Z.ltb_spec (above fds) NONE); [|lia]. intros _. split; [split; lia|]. split; [done|].
  intros k. destruct (Z.ltb_spec (above ks) NONE); [|done]. intros [= <-]. split; [split; lia|done].
Qed.

Definition hw_example (i : Z) (name : string) : hw_interface := mkHw (str name) i i true.
Definition pool_example : list (option hw_interface) :=
  [Some (hw_example 0 "loop0"); None; Some (hw_example 2 "GigabitEthernet0/8/0")].

Lemma pool_example_ok : pool_ok pool_example.
Proof.
  intros [|[|[|i]]] hw H; simpl in H; try discriminate H; injection H as <-; by repeat split.
Qed.

Definition init_state : state :=
  mkState 0 TapTables.empty [] [] (mkCnt 0 0 0 0 0) 0 [] [] [] 0 ∅.

Lemma init_inv : inv init_state ∅.
Proof.
  split; [apply represents_empty|]. intros fd. split; [by intros ?%elem_of_nil|].
  intros (sw & k & H). by rewrite lookup_empty in H.
Qed.


(** The state after one connect of interface 0. *)
Definition connected_state : state :=
  match tap_inject_tap_connect (sys_example 9) (hw_example 0 "loop0") init_state with
  | Some (im, _) => im
  | None => init_state
  end.

Lemma connected_inv : inv connected_state {[ 0%Z := (1, 1)%Z ]}.
Proof.
  split.
  - apply (insert_tap_represents TapTables.empty ∅ 0 1 1 represents_empty); [done..|].
    intros s f k H. by rewrite lookup_empty in H.
  - intros fd. change (open_taps connected_state) with [1%Z]. rewrite list_elem_of_singleton. split.
    + intros ->. by exists 0%Z, 1%Z.
    + intros (sw & k & [_ [= <- _]]%lookup_singleton_Some). done.
Qed.

Lemma reconnect_leaks_tap_witness :
  let again := tap_inject_tap_connect (sys_example 9) (hw_example 0 "loop0") connected_state in
  snd <$> again = Some None ∧
  ∃ im' im'', again = Some (im', None) ∧ tap_inject_tap_disconnect 0 im' = Some (im'', None)
    ∧ 1%Z ∈ open_taps im''.
Proof.
  intros again. split; [by vm_compute|]. destruct again as [[im' err]|] eqn:E; [|by vm_compute in E].
  assert (err = None) as -> by (vm_compute in E; by injection E).
  destruct (reconnect_leaks_tap (sys_example 9) (hw_example 0 "loop0") connected_state im' {[ 0%Z := (1, 1)%Z ]} 1 1)
    as (_ & _ & _ & im'' & E' & Ho);
    [apply sys_example_fresh|apply connected_inv|reflexivity|by vm_compute|by vm_compute|exact E| |exists im', im''; split; [reflexivity|split; [exact E'|exact Ho]]].
  intros Ht%(f_equal sw_if_index_to_tap_fd). vm_compute in E. injection E as <-. by vm_compute in Ht.
Defined.

(** The state after a second connect of it: its first tap is lost. *)
Definition reconnected_state : state :=
  match tap_inject_tap_connect (sys_example 9) (hw_example 0 "loop0") connected_state with
  | Some (im, _) => im
  | None => init_state
  end.

Lemma reconnected_in_range : in_range (tables connected_state) ∧ in_range (tables reconnected_state).
Proof.
  assert (in_range (tables connected_state)) as Hc by (apply (represents_in_range _ _ (inv_rep _ _ connected_inv))). split; [done|].
  apply (connect_in_range (sys_example 9) (hw_example 0 "loop0") connected_state reconnected_state None);
    [apply sys_example_fresh|by split|done|vm_compute; reflexivity].
Qed.

(** Disabling with one tap closes it; after a second connect the first stays open. *)
Lemma disable_closes_connected_witness :
  (∃ im', vl_api_tap_inject_enable_disable_t_handler 10 11 12 13 pool_example (sys_example 9) 0 connected_state = Some (im', 0%Z)
     ∧ open_taps connected_state = [1%Z] ∧ open_taps im' = [])
  ∧ ∃ im', vl_api_tap_inject_enable_disable_t_handler 10 11 12 13 pool_example (sys_example 9) 0 reconnected_state = Some (im', 0%Z)
     ∧ (2%Z ∉ open_taps im') ∧ 1%Z ∈ open_taps im'.
Proof.
  destruct reconnected_in_range as [R1 R2]. split.
  - destruct (disable_closes_connected 10 11 12 13 pool_example (sys_example 9) connected_state) as (im' & E & _ & _ & _ & _ & _ & Hi & _);
      [apply pool_example_ok|exact R1|split; reflexivity|].
    exists im'. split; [exact E|]. split; [reflexivity|]. refine (proj2 (Hi _ connected_inv _)).
    intros i tap [<- _]%lookup_singleton_Some. split; [done|]. by eexists.
  - destruct (disable_closes_connected 10 11 12 13 pool_example (sys_example 9) reconnected_state) as (im' & E & _ & _ & _ & _ & Ho & _);
      [apply pool_example_ok|exact R2|split; reflexivity|].
    exists im'. split; [exact E|]. split.
    + intros [_ H]%Ho. apply H. exists 0%Z. split; [split; [done|by eexists]|reflexivity].
    + apply Ho. split; [vm_compute; right; left|]. intros (i & [Hi [hw Hp]] & Hg). revert Hp Hg. 
      destruct (decide (i = 0)%Z) as [->|Hn]; [intros _; by vm_compute|]. intros _ Hg%vget_lt. change (Z.to_nat i < 1) in Hg. lia.
Defined.

(** A device that the kernel refuses is not reported: the request succeeds and
    nothing is connected. *)
Example refused_not_reported :
  (λ '(im, rv), (rv, tap_inject_is_enabled im, open_taps im))
    <$> vl_api_tap_inject_enable_disable_t_handler 10 11 12 13 pool_example (λ _ _ _, mkSys 5 false true true true (Some 7%Z)) 1 init_state
  = Some (0%Z, true, []).
Proof. vm_compute. reflexivity. Qed.

End TapControl.

(** ** Data path: packets between VPP and the taps *)

Module TapData.
Import TapTables.

(** The parts of a [vlib_buffer_t] the plugin uses. *)
Record vbuf := mkBuf {
  rx_sw_if_index : Z;
  tx_sw_if_index : Z;
  current_data : Z;
  current_length : Z;
  total_length_rest : option Z;   (* [Some]: VLIB_BUFFER_TOTAL_LENGTH_VALID *)
  next_buffer : option Z;         (* [Some]: VLIB_BUFFER_NEXT_PRESENT *)
  data : list Z;                  (* [b->data], from the Ethernet header on *)
}.

Abbreviation buffers := (gmap Z vbuf).

(** What a node does to the outside: [writev] of the first [len] bytes of a buffer
    to a tap, warnings, buffers returned to the pool, buffers handed to the next
    node. *)
Inductive send_warning := WritevFailed | BufferTruncated.
Inductive action :=
  | Send (fd bi len : Z)
  | Warning (w : send_warning) (bi : Z)
  | Free (bi : Z)
  | Enqueue (bi next : Z).

Definition vlib_buffer_advance (b : vbuf) (l : Z) : vbuf :=
  mkBuf (rx_sw_if_index b) (tx_sw_if_index b) (current_data b + l) (current_length b - l)
    (total_length_rest b) (next_buffer b) (data b).

Section send.
(** The result of [writev(fd, iov, 1)] for a buffer and a length: the bytes taken,
    or a negative number. *)
Context (writev : Z → Z → Z → Z).

(** Only the first segment of a packet is written. *)
Definition tap_inject_tap_send_buffer (fd bi : Z) (b : vbuf) : list action :=
  let n_bytes := writev fd bi (current_length b) in
  Send fd bi (current_length b) ::
  (if (n_bytes <? 0)%Z then [Warning WritevFailed bi]
   else if (n_bytes <? current_length b)%Z || bool_decide (is_Some (next_buffer b)) then [Warning BufferTruncated bi]
   else []).

Fixpoint tap_inject_tx_loop (pkts : list Z) (tb : TapTables.t) (bs : buffers)
    : option (TapTables.t * buffers * list action) :=
  match pkts with
  | [] => Some (tb, bs, [])
  | bi :: pkts =>
      b ← bs !! bi;
      '(tb, fd) ← tap_inject_lookup_tap_fd tb (rx_sw_if_index b);
      if decide (fd = NONE) then tap_inject_tx_loop pkts tb bs
      else
        let b := vlib_buffer_advance b (- current_data b) in
        '(tb, bs, acts) ← tap_inject_tx_loop pkts tb (<[bi := b]> bs);
        Some (tb, bs, tap_inject_tap_send_buffer fd bi b ++ acts)
  end.

Definition tap_inject_tx (pkts : list Z) (tb : TapTables.t) (bs : buffers)
    : option (TapTables.t * buffers * list action * nat) :=
  '(tb, bs, acts) ← tap_inject_tx_loop pkts tb bs;
  Some (tb, bs, acts ++ (Free <$> pkts), length pkts).

Definition ETHERNET_TYPE_ARP : Z := 0x0806.
Definition ETHERNET_TYPE_IP6 : Z := 0x86dd.
Definition ETHERNET_ARP_OPCODE_reply : Z := 2.
Definition IP_PROTOCOL_ICMP6 : Z := 58.
Definition ICMP6_neighbor_advertisement : Z := 136.
Definition NEXT_NEIGHBOR_ARP : Z := 0.
Definition NEXT_NEIGHBOR_ICMP6 : Z := 1.
Definition ETHERNET_HEADER_SIZE : Z := 14.

(** Two bytes in network order. *)
Definition be16 (l : list Z) (i : nat) : option Z :=
  a ← l !! i; b ← l !! S i; Some (256 * a + b)%Z.

(** The next node for a frame, [~0] for none; [None] when an assertion fails. *)
Definition neighbor_next (d : list Z) : option Z :=
  ether_type ← be16 d 12;
  if decide (ether_type = ETHERNET_TYPE_ARP) then
    opcode ← be16 d 20;
    Some (if decide (opcode = ETHERNET_ARP_OPCODE_reply) then NEXT_NEIGHBOR_ARP else NONE)
  else if decide (ether_type = ETHERNET_TYPE_IP6) then
    protocol ← d !! 20;
    if decide (protocol = IP_PROTOCOL_ICMP6) then
      type ← d !! 54;
      Some (if decide (type = ICMP6_neighbor_advertisement) then NEXT_NEIGHBOR_ICMP6 else NONE)
    else None
  else None.

Fixpoint tap_inject_neighbor (pkts : list Z) (tb : TapTables.t) (bs : buffers)
    : option (TapTables.t * buffers * list action) :=
  match pkts with
  | [] => Some (tb, bs, [])
  | bi :: pkts =>
      b ← bs !! bi;
      '(tb, fd) ← tap_inject_lookup_tap_fd tb (rx_sw_if_index b);
      if decide (fd = NONE) then tap_inject_neighbor pkts tb bs
      else
        let b := vlib_buffer_advance b (- current_data b) in
        next ← neighbor_next (data b);
        if decide (next = NONE) then
          '(tb, bs, acts) ← tap_inject_neighbor pkts tb (<[bi := b]> bs);
          Some (tb, bs, tap_inject_tap_send_buffer fd bi b ++ Free bi :: acts)
        else
          let b' := vlib_buffer_advance b ETHERNET_HEADER_SIZE in
          '(tb, bs, acts) ← tap_inject_neighbor pkts tb (<[bi := b']> bs);
          Some (tb, bs, tap_inject_tap_send_buffer fd bi b ++ Enqueue bi next :: acts)
  end.
End send.

(** *** Receiving from a tap *)

Definition MTU : Z := 1500.
Definition VLIB_BUFFER_DATA_SIZE : Z := 2048.
Definition MTU_BUFFERS : nat := Z.to_nat ((MTU + VLIB_BUFFER_DATA_SIZE - 1) / VLIB_BUFFER_DATA_SIZE).
Definition NUM_BUFFERS_TO_ALLOC : nat := 32.

Record rx_state := mkRx {
  rx_tables : TapTables.t;
  rx_file_descriptors : list Z;
  rx_buffers : list Z;
  rx_bufs : buffers;
}.

(** The result: the C return value and the frame handed to the output node of
    the interface. *)
Definition rx_result : Type := rx_state * nat * option (Z * Z).

Definition tap_inject_tap_read (fd : Z) (im : rx_state) : rx_state :=
  mkRx (rx_tables im) (rx_file_descriptors im ++ [fd]) (rx_buffers im) (rx_bufs im).

Section rx.
(** Buffers the pool gives to a request (at most the number requested), and the
    result of [readv] on a descriptor. *)
Context (alloc : list Z → list Z) (readv : Z → Z).

(** [for (i = 1; n_bytes_left > 0; ++i, n_bytes_left -= SIZE)]: the fuel is the
    number of buffers, one more than the rounds that stay inside [bi]. *)
Fixpoint chain_loop (fuel : nat) (bi : list Z) (i : nat) (n_left : Z) (bs : buffers) : option (nat * buffers) :=
  if (n_left <=? 0)%Z then Some (i, bs)
  else match fuel with
       | 0 => None
       | S fuel =>
           prev ← bi !! (i - 1)%nat;
           cur ← bi !! i;
           b ← bs !! prev;
           let b := mkBuf (rx_sw_if_index b) (tx_sw_if_index b) (current_data b) VLIB_BUFFER_DATA_SIZE
                      (total_length_rest b) (Some cur) (data b) in
           let bs := <[prev := b]> bs in
           c ← bs !! cur;
           let c := mkBuf (rx_sw_if_index c) (tx_sw_if_index c) (current_data c) n_left
                      (total_length_rest c) (next_buffer c) (data c) in
           chain_loop fuel bi (S i) (n_left - VLIB_BUFFER_DATA_SIZE)%Z (<[cur := c]> bs)
       end.

Definition tap_rx (fd : Z) (im : rx_state) : option rx_result :=
  '(tb, sw_if_index) ← tap_inject_lookup_sw_if_index_from_tap_fd (rx_tables im) fd;
  let im := mkRx tb (rx_file_descriptors im) (rx_buffers im) (rx_bufs im) in
  if decide (sw_if_index = NONE) then Some (im, 0, None)
  else
    let stock := if decide (length (rx_buffers im) < MTU_BUFFERS)
                 then rx_buffers im ++ take NUM_BUFFERS_TO_ALLOC (alloc (rx_buffers im))
                 else rx_buffers im in
    let im := mkRx tb (rx_file_descriptors im) stock (rx_bufs im) in
    if decide (length stock < MTU_BUFFERS) then Some (im, 0, None)
    else
      let bi := take MTU_BUFFERS (reverse stock) in
      let n_bytes := readv fd in
      if (n_bytes <? 0)%Z then Some (im, 0, None)
      else
        b0 ← bi !! 0;
        b ← rx_bufs im !! b0;
        let n_bytes_left := (n_bytes - VLIB_BUFFER_DATA_SIZE)%Z in
        let b := mkBuf sw_if_index sw_if_index (current_data b) n_bytes
                   (if (0 <? n_bytes_left)%Z then Some n_bytes_left else total_length_rest b)
                   (next_buffer b) (data b) in
        '(i, bs) ← chain_loop MTU_BUFFERS bi 1 n_bytes_left (<[b0 := b]> (rx_bufs im));
        Some (mkRx tb (rx_file_descriptors im) (take (length stock - i) stock) bs, 1, Some (b0, sw_if_index)).

Fixpoint tap_inject_rx_loop (fds : list Z) (im : rx_state) (count : nat)
    : option (rx_state * nat * list (Z * Z)) :=
  match fds with
  | [] => Some (im, count, [])
  | fd :: fds =>
      '(im, r, out) ← tap_rx fd im;
      if decide (r ≠ 1) then Some (im, 0, option_list out)
      else
        '(im, count, outs) ← tap_inject_rx_loop fds im (S count);
        Some (im, count, option_list out ++ outs)
  end.

Definition tap_inject_rx (im : rx_state) : option (rx_state * nat * list (Z * Z)) :=
  '(im, count, outs) ← tap_inject_rx_loop (rx_file_descriptors im) im 0;
  Some (mkRx (rx_tables im) [] (rx_buffers im) (rx_bufs im), count, outs).
End rx.

(** *** Transmission *)

Section transmission.
Context (writev : Z → Z → Z → Z).

(** What transmission depends on in a buffer: the receiving interface, the
    length of its segment from the Ethernet header on, and whether the packet goes
    on in another buffer. *)
Definition frame_view (b : vbuf) : Z * Z * bool :=
  (rx_sw_if_index b, (current_data b + current_length b)%Z, bool_decide (is_Some (next_buffer b))).
Definition frame_len (b : vbuf) : Z := (current_data b + current_length b)%Z.

(** Sending a buffer to a tap: the segment, and a warning if it or the packet is
    not written to its end. *)
Definition sent (fd bi : Z) (b : vbuf) : list action :=
  let n := writev fd bi (frame_len b) in
  Send fd bi (frame_len b) ::
  (if (n <? 0)%Z then [Warning WritevFailed bi]
   else if (n <? frame_len b)%Z || bool_decide (is_Some (next_buffer b)) then [Warning BufferTruncated bi] else []).

(** What is sent for a vector of packets. *)
Definition tx_spec (m : taps) (bs : buffers) (pkts : list Z) : list action :=
  pkts ≫= λ bi, match bs !! bi with
                | Some b => match m !! rx_sw_if_index b with Some (fd, _) => sent fd bi b | None => [] end
                | None => []
                end.

Lemma rewind_view b : frame_view (vlib_buffer_advance b (- current_data b)) = frame_view b.
Proof. unfold frame_view, vlib_buffer_advance. simpl. do 2 f_equal. lia. Qed.

Lemma sent_rewound fd bi b : tap_inject_tap_send_buffer writev fd bi (vlib_buffer_advance b (- current_data b)) = sent fd bi b.
Proof.
  unfold tap_inject_tap_send_buffer, sent, frame_len. cbn [vlib_buffer_advance current_length next_buffer].
  by replace (current_length b - - current_data b)%Z with (current_data b + current_length b)%Z by lia.
Qed.

Lemma tx_spec_view m bs bs' pkts : (∀ bi, frame_view <$> bs !! bi = frame_view <$> bs' !! bi) →
  tx_spec m bs pkts = tx_spec m bs' pkts.
Proof.
  intros H. unfold tx_spec. induction pkts as [|bi pkts IH]; [done|]. rewrite !bind_cons, IH. f_equal. specialize (H bi).
  destruct (bs !! bi) as [b|], (bs' !! bi) as [b'|]; try done. simpl in H. injection H as Hv Hl Hn. unfold sent, frame_len. by rewrite Hv, Hl, Hn.
Qed.

Lemma fd_default_None (m : taps) sw tb : represents tb m →
  default NONE (fst <$> m !! sw) = NONE ↔ m !! sw = None.
Proof.
  intros R. destruct (m !! sw) as [[fd k]|] eqn:E; [|done]. simpl.
  destruct (rep_range _ _ R _ _ _ E) as [_ [_ H]]. split; [lia|done].
Qed.

Lemma tx_loop_spec m pkts tb bs : represents tb m →
  Forall (λ bi, ∃ b, bs !! bi = Some b ∧ is_index (rx_sw_if_index b)) pkts →
  ∃ tb' bs', tap_inject_tx_loop writev pkts tb bs = Some (tb', bs', tx_spec m bs pkts)
    ∧ represents tb' m ∧ ∀ bi, frame_view <$> bs' !! bi = frame_view <$> bs !! bi.
Proof.
  revert tb bs. induction pkts as [|bi pkts IH]; intros tb bs R H; cbn [tap_inject_tx_loop].
  { exists tb, bs. done. }
  apply Forall_cons in H as [(b & Hb & Hi) H]. unfold tx_spec. rewrite bind_cons, Hb. fold (tx_spec m bs pkts).
  obind. destruct (lookup_tap_fd_spec tb m _ R Hi) as (tb1 & -> & R1).
  obind. case_decide as Hn.
  - rewrite (fd_default_None m _ tb R) in Hn. rewrite Hn. by apply IH.
  - destruct (m !! rx_sw_if_index b) as [[fd k]|] eqn:Hm; [|done].
    cbn [mbind option_bind fmap option_fmap option_map default fst].
    set (b' := vlib_buffer_advance b (- current_data b)).
    assert (∀ bi', frame_view <$> (<[bi := b']> bs) !! bi' = frame_view <$> bs !! bi') as Hv.
    { intros bi'. destruct (decide (bi = bi')) as [<-|]; [|by rewrite lookup_insert_ne].
      rewrite lookup_insert_eq, Hb. simpl. f_equal. apply rewind_view. }
    destruct (IH tb1 (<[bi := b']> bs) R1) as (tb' & bs' & -> & R' & Hv').
    { eapply Forall_impl; [exact H|]. intros bi' (c & Hc & Hci).
      specialize (Hv bi'). rewrite Hc in Hv. destruct (_ !! bi') as [c'|]; [|done].
      exists c'. split; [done|]. simpl in Hv. injection Hv as Hv _ _. by rewrite Hv. }
    obind. exists tb', bs'. split_and!; [|done|intros bi'; by rewrite Hv'].
    subst b'. rewrite sent_rewound. do 3 f_equal. by apply tx_spec_view.
Qed.

Lemma warned fd bi b w : Warning w bi ∈ sent fd bi b →
  (writev fd bi (frame_len b) < 0 ∨ writev fd bi (frame_len b) < frame_len b)%Z ∨ is_Some (next_buffer b).
Proof.
  unfold sent. intros [?|H]%elem_of_cons; [done|]. destruct (Z.ltb_spec (writev fd bi (frame_len b)) 0); [by left; left|].
  destruct (Z.ltb_spec (writev fd bi (frame_len b)) (frame_len b)); [by left; right|]. cbn [orb] in H.
  destruct (bool_decide_reflect (is_Some (next_buffer b))); [by right|by apply elem_of_nil in H].
Qed.

Lemma warns fd bi b : (writev fd bi (frame_len b) < 0 ∨ writev fd bi (frame_len b) < frame_len b)%Z ∨ is_Some (next_buffer b) →
  ∃ w, Warning w bi ∈ sent fd bi b.
Proof.
  unfold sent. intros H. destruct (Z.ltb_spec (writev fd bi (frame_len b)) 0); [exists WritevFailed; right; left|].
  exists BufferTruncated. assert ((writev fd bi (frame_len b) <? frame_len b)%Z || bool_decide (is_Some (next_buffer b)) = true) as ->; [|right; left].
  apply orb_true_iff. rewrite bool_decide_eq_true. destruct H as [[Hn|Hn]|Hn]; [exfalso; lia|left; by apply Z.ltb_lt|by right].
Qed.

(** C22 The tx node: for every vector of packets, each packet received on an
    interface that has a tap is given to that tap by one [writev], from its Ethernet
    header to the end of its first buffer, in the order of the vector; packets of
    other interfaces are not.  A warning is printed exactly for the packets that
    did not get to the tap whole: the [writev] failed or took fewer bytes, or the
    packet goes on in another buffer, which is never written.  All buffers are
    freed, and the tables keep representing the same taps. *)
Theorem tap_inject_tx_delivers (m : taps) (pkts : list Z) (tb : TapTables.t) (bs : buffers) :
  represents tb m →
  Forall (λ bi, ∃ b, bs !! bi = Some b ∧ is_index (rx_sw_if_index b)) pkts →
  ∃ tb' bs', tap_inject_tx writev pkts tb bs =
      Some (tb', bs', tx_spec m bs pkts ++ (Free <$> pkts), length pkts) ∧ represents tb' m
  ∧ ∀ bi b fd k, bi ∈ pkts → bs !! bi = Some b → m !! rx_sw_if_index b = Some (fd, k) →
      (∃ w, Warning w bi ∈ tx_spec m bs pkts)
      ↔ (writev fd bi (frame_len b) < 0 ∨ writev fd bi (frame_len b) < frame_len b)%Z ∨ is_Some (next_buffer b).
Proof.
  intros R H. unfold tap_inject_tx. destruct (tx_loop_spec m pkts tb bs R H) as (tb' & bs' & -> & R' & _).
  exists tb', bs'. split; [done|]. split; [done|]. intros bi b fd k Hbi Hb Hm. split.
  - intros (w & (bi' & Hin & _)%list_elem_of_bind). destruct (bs !! bi') as [b'|] eqn:Hb'; [|by apply elem_of_nil in Hin].
    destruct (m !! rx_sw_if_index b') as [[fd' k']|] eqn:Hm'; [|by apply elem_of_nil in Hin]. assert (bi' = bi) as ->.
    { unfold sent in Hin. apply elem_of_cons in Hin as [?|Hin]; [done|]. destruct (_ <? 0)%Z; [by apply list_elem_of_singleton in Hin; simplify_eq|].
      destruct (_ || _); [by apply list_elem_of_singleton in Hin; simplify_eq|by apply elem_of_nil in Hin]. }
    rewrite Hb in Hb'. injection Hb' as <-. rewrite Hm in Hm'. injection Hm' as <- <-. by eapply warned.
  - intros (w & Hw)%warns. exists w. apply list_elem_of_bind. exists bi. by rewrite Hb, Hm.
Qed.
End transmission.

Definition buf_example (sw : Z) : vbuf := mkBuf sw 0 14 46 None None [].
Definition chained_buf (sw next : Z) : vbuf := mkBuf sw 0 14 2034 None (Some next) [].
(** All bytes are taken. *)
Definition writev_all (fd bi len : Z) : Z := len.

(** A packet in one buffer, one of an interface without a tap, one in two buffers. *)
Lemma tap_inject_tx_delivers_witness :
  ∃ tb' bs', tap_inject_tx writev_all [7; 8; 9]%Z (tap_inject_insert_tap TapTables.empty 1 5 40)
      {[ 7%Z := buf_example 1; 8%Z := buf_example 2; 9%Z := chained_buf 1 10 ]} =
    Some (tb', bs', [Send 5 7 60; Send 5 9 2048; Warning BufferTruncated 9; Free 7; Free 8; Free 9], 3).
Proof.
  destruct (tap_inject_tx_delivers writev_all {[ 1%Z := (5, 40)%Z ]} [7; 8; 9]%Z
    (tap_inject_insert_tap TapTables.empty 1 5 40) {[ 7%Z := buf_example 1; 8%Z := buf_example 2; 9%Z := chained_buf 1 10 ]})
    as (tb' & bs' & E & _).
  - apply (insert_tap_represents TapTables.empty ∅ 1 5 40 represents_empty); [done..|].
    intros s f k H. by rewrite lookup_empty in H.
  - repeat (apply Forall_cons; split; [by eexists|]). done.
  - exists tb', bs'. exact E.
Defined.

(** *** Neighbor packets *)

Section neighbor.
Context (writev : Z → Z → Z → Z).

(** The actions for one packet; [next] is the verdict on its frame. *)
Definition neighbor_actions (m : taps) (b : vbuf) (bi next : Z) : list action :=
  match m !! rx_sw_if_index b with
  | None => []
  | Some (fd, _) =>
      sent writev fd bi b ++ [if decide (next = NONE) then Free bi else Enqueue bi next]
  end.

Definition neighbor_spec (m : taps) (bs : buffers) (pkts : list Z) : list action :=
  pkts ≫= λ bi, match bs !! bi with
                | Some b => neighbor_actions m b bi (default NONE (neighbor_next (data b)))
                | None => []
                end.

(** A packet the node accepts: known buffer, valid interface, and a frame that
    satisfies the assertions. *)
Definition neighbor_ok (bs : buffers) (bi : Z) : Prop :=
  ∃ b, bs !! bi = Some b ∧ is_index (rx_sw_if_index b) ∧ is_Some (neighbor_next (data b)).

Lemma neighbor_loop_spec m pkts tb bs : represents tb m → NoDup pkts → Forall (neighbor_ok bs) pkts →
  ∃ tb' bs', tap_inject_neighbor writev pkts tb bs = Some (tb', bs', neighbor_spec m bs pkts) ∧ represents tb' m.
Proof.
  revert tb bs. induction pkts as [|bi pkts IH]; intros tb bs R Hnd H; cbn [tap_inject_neighbor].
  { by exists tb, bs. }
  apply NoDup_cons in Hnd as [Hbi Hnd]. apply Forall_cons in H as [(b & Hb & Hi & [next Hn]) H].
  assert (∀ b', Forall (neighbor_ok (<[bi := b']> bs)) pkts ∧
                neighbor_spec m (<[bi := b']> bs) pkts = neighbor_spec m bs pkts) as Hkeep.
  { intros b'. split.
    - apply Forall_forall. intros x Hx. eapply Forall_forall in H; [|exact Hx].
      unfold neighbor_ok. rewrite lookup_insert_ne; [exact H|]. by intros ->.
    - unfold neighbor_spec. clear IH Hnd H. induction pkts as [|x pkts IH]; [done|].
      apply not_elem_of_cons in Hbi as [Hx Hbi]. rewrite !bind_cons, IH by done.
      by rewrite lookup_insert_ne. }
  rewrite Hb. obind.
  destruct (lookup_tap_fd_spec tb m _ R Hi) as (tb1 & -> & R1). obind.
  unfold neighbor_spec. rewrite bind_cons, Hb. fold (neighbor_spec m bs pkts). unfold neighbor_actions.
  case_decide as Hfd.
  - rewrite (fd_default_None m _ tb R) in Hfd. rewrite Hfd. by apply IH.
  - destruct (m !! rx_sw_if_index b) as [[fd k]|] eqn:Hm; [|done]. simpl data. rewrite Hn.
    obind. change (default NONE (Some next)) with next. case_decide as Hnx.
    + set (b' := vlib_buffer_advance b (- current_data b)). destruct (Hkeep b') as [Hk1 Hk2].
      destruct (IH tb1 (<[bi := b']> bs) R1 Hnd Hk1) as (tb' & bs' & -> & R').
      rewrite Hk2. exists tb', bs'. split; [|done]. subst b'. obind. by rewrite sent_rewound, <- app_assoc.
    + set (b' := vlib_buffer_advance _ ETHERNET_HEADER_SIZE). destruct (Hkeep b') as [Hk1 Hk2].
      destruct (IH tb1 (<[bi := b']> bs) R1 Hnd Hk1) as (tb' & bs' & -> & R').
      rewrite Hk2. exists tb', bs'. split; [|done]. subst b'. obind. by rewrite sent_rewound, <- app_assoc.
Qed.

(** The neighbor node: every packet of an interface with a tap is copied to
    the tap and then handed on exactly when it is an ARP reply or a neighbor
    advertisement, freed otherwise.  A packet of an interface without a tap is
    neither freed nor handed on: its buffer is lost. *)
Theorem tap_inject_neighbor_actions (m : taps) (pkts : list Z) (tb : TapTables.t) (bs : buffers) :
  represents tb m → NoDup pkts → Forall (neighbor_ok bs) pkts →
  ∃ tb' bs' acts, tap_inject_neighbor writev pkts tb bs = Some (tb', bs', acts)
    ∧ represents tb' m ∧ acts = neighbor_spec m bs pkts
    ∧ ∀ bi b, bi ∈ pkts → bs !! bi = Some b →
        ((Free bi ∈ acts) ∨ (∃ next, Enqueue bi next ∈ acts)) ↔ is_Some (m !! rx_sw_if_index b).
Proof.
  intros R Hnd H. destruct (neighbor_loop_spec m pkts tb bs R Hnd H) as (tb' & bs' & E & R').
  exists tb', bs', (neighbor_spec m bs pkts). split_and!; [done..|]. intros bi b Hbi Hb.
  unfold neighbor_spec. split.
  - intros Hin. assert (∃ a, a ∈ neighbor_spec m bs pkts ∧ (a = Free bi ∨ ∃ next, a = Enqueue bi next))
      as (a & Ha & Hcase) by (destruct Hin as [?|[next ?]]; eauto).
    unfold neighbor_spec in Ha. apply list_elem_of_bind in Ha as (bi' & Ha & _).
    destruct (bs !! bi') as [b'|] eqn:Hb'; [|by apply elem_of_nil in Ha].
    unfold neighbor_actions in Ha.
    destruct (m !! rx_sw_if_index b') as [[fd k]|] eqn:Hm; [|by apply elem_of_nil in Ha].
    apply elem_of_app in Ha as [Ha|Ha].
    { exfalso. unfold sent in Ha. apply elem_of_cons in Ha as [->|Ha]; [by destruct Hcase as [?|[? ?]]|].
      destruct (_ <? 0)%Z; [apply list_elem_of_singleton in Ha as ->; by destruct Hcase as [?|[? ?]]|].
      destruct (_ || _); [apply list_elem_of_singleton in Ha as ->; by destruct Hcase as [?|[? ?]]|by apply elem_of_nil in Ha]. }
    apply list_elem_of_singleton in Ha. case_decide; destruct Hcase as [->|[? ->]]; simplify_eq; by rewrite Hm.
  - intros [[fd k] Hm]. set (next := default NONE (neighbor_next (data b))).
    assert (∀ a, a ∈ neighbor_actions m b bi next → a ∈ pkts ≫= λ bi, match bs !! bi with
      | Some b => neighbor_actions m b bi (default NONE (neighbor_next (data b))) | None => [] end) as Hin.
    { intros a Ha. apply list_elem_of_bind. exists bi. by rewrite Hb. }
    unfold neighbor_actions in Hin. rewrite Hm in Hin. case_decide.
    + left. apply Hin. apply elem_of_app. right. left.
    + right. exists next. apply Hin. apply elem_of_app. right. left.
Qed.
End neighbor.

(** An ARP reply frame and an ARP request frame. *)
Definition arp_frame (opcode : Z) : list Z :=
  replicate 12 0%Z ++ [8; 6; 0; 1; 8; 0; 6; 4; 0; opcode]%Z ++ replicate 20 0%Z.
Definition arp_buf (sw opcode : Z) : vbuf := mkBuf sw 0 14 28 None None (arp_frame opcode).

Lemma tap_inject_neighbor_actions_witness :
  ∃ tb' bs', tap_inject_neighbor writev_all [7; 8; 9]%Z (tap_inject_insert_tap TapTables.empty 1 5 40)
      {[ 7%Z := arp_buf 1 2; 8%Z := arp_buf 1 1; 9%Z := arp_buf 2 1 ]} =
    Some (tb', bs', [Send 5 7 42; Enqueue 7 NEXT_NEIGHBOR_ARP; Send 5 8 42; Free 8]).
Proof.
  destruct (tap_inject_neighbor_actions writev_all {[ 1%Z := (5, 40)%Z ]} [7; 8; 9]%Z
    (tap_inject_insert_tap TapTables.empty 1 5 40)
    {[ 7%Z := arp_buf 1 2; 8%Z := arp_buf 1 1; 9%Z := arp_buf 2 1 ]}) as (tb' & bs' & acts & E & _ & Ea & _).
  - apply (insert_tap_represents TapTables.empty ∅ 1 5 40 represents_empty); [done..|].
    intros s f k H. by rewrite lookup_empty in H.
  - by apply (bool_decide_unpack _); vm_compute.
  - repeat (apply Forall_cons; split; [eexists; split; [by vm_compute|split; [done|by eexists]]|]). done.
  - exists tb', bs'. rewrite E, Ea. by vm_compute.
Defined.

(** *** Reception *)

(** The stock fits the memory reserved for it and names known buffers. *)
Definition stock_ok (im : rx_state) : Prop :=
  length (rx_buffers im) ≤ NUM_BUFFERS_TO_ALLOC ∧
  Forall (λ bi, is_Some (rx_bufs im !! bi)) (rx_buffers im).

Lemma MTU_BUFFERS_1 : MTU_BUFFERS = 1.
Proof. done. Qed.

Section rx_spec.
Context (alloc : list Z → list Z) (readv : Z → Z).
(** [readv] returns an error or at most the room it was given. *)
Definition readv_ok : Prop := ∀ fd, (readv fd ≤ VLIB_BUFFER_DATA_SIZE * Z.of_nat MTU_BUFFERS)%Z.
(** The pool hands out buffers that exist. *)
Definition alloc_ok (bs : buffers) : Prop := ∀ l, Forall (λ bi, is_Some (bs !! bi)) (alloc l).

(** The stock after the refill step. *)
Definition refilled (im : rx_state) : list Z :=
  if decide (length (rx_buffers im) < MTU_BUFFERS)
  then rx_buffers im ++ take NUM_BUFFERS_TO_ALLOC (alloc (rx_buffers im)) else rx_buffers im.

Lemma refilled_ok im : alloc_ok (rx_bufs im) → stock_ok im →
  length (refilled im) ≤ NUM_BUFFERS_TO_ALLOC ∧ Forall (λ bi, is_Some (rx_bufs im !! bi)) (refilled im).
Proof.
  intros Ha [Hl Hs]. unfold refilled. case_decide as Hlt; [|done]. rewrite MTU_BUFFERS_1 in Hlt.
  destruct (rx_buffers im); [|simpl in Hlt; lia]. simpl. split.
  - rewrite length_take. lia.
  - by apply Forall_take.
Qed.

(** Receiving from a tap never runs outside the stock of buffers: for every
    descriptor, every result of the pool and of [readv], the call ends, the
    stock stays within the 32 entries reserved for it, and a frame is produced
    exactly when the descriptor belongs to an interface, a buffer is available
    and [readv] succeeds: then exactly the last buffer of the stock leaves it,
    marked with the interface and the number of bytes read. *)
Theorem tap_rx_correct (fd : Z) (im : rx_state) (m : taps) :
  readv_ok → alloc_ok (rx_bufs im) → stock_ok im → represents (rx_tables im) m → is_index fd →
  ∃ im' r out, tap_rx alloc readv fd im = Some (im', r, out)
    ∧ stock_ok im' ∧ represents (rx_tables im') m
    ∧ match out with
      | None => r = 0 ∧ ((∀ sw k, m !! sw ≠ Some (fd, k)) ∨ refilled im = [] ∨ (readv fd < 0)%Z)
      | Some (bi, sw) => r = 1 ∧ (∃ k, m !! sw = Some (fd, k)) ∧ refilled im = rx_buffers im' ++ [bi]
          ∧ ∃ b, rx_bufs im' !! bi = Some b ∧ rx_sw_if_index b = sw ∧ tx_sw_if_index b = sw
             ∧ current_length b = readv fd ∧ (0 ≤ readv fd)%Z
      end.
Proof.
  intros Hr Ha Hst R Hfd. unfold tap_rx.
  destruct (refilled_ok im Ha Hst) as [Hl Hs].
  destruct (lookup_sw_spec (rx_tables im) m fd R Hfd) as (tb & -> & R'). obind.
  cbn [rx_buffers rx_file_descriptors rx_bufs]. fold (refilled im).
  destruct (vget (tap_fd_to_sw_if_index (rx_tables im)) fd) as [sw|] eqn:Ev.
  2:{ cbn [default from_option id]. rewrite decide_True by done. do 3 eexists. split_and!; [done|exact Hst|done|].
      split; [done|]. left. intros sw k Hk.
      rewrite (proj2 (rep_fd_inv _ _ R fd sw (proj1 Hfd)) (ex_intro _ k Hk)) in Ev. done. }
  pose proof (proj1 (rep_fd_inv _ _ R fd sw (proj1 Hfd)) Ev) as [k Hk].
  cbn [default from_option id]. rewrite decide_False by (destruct (rep_range _ _ R _ _ _ Hk) as [[_ ?] _]; lia).
  assert (∀ im', rx_buffers im' = refilled im → rx_bufs im' = rx_bufs im → stock_ok im') as Hok.
  { intros im' E1 E2. split; rewrite E1; [done|]. by rewrite E2. }
  rewrite MTU_BUFFERS_1. case_decide as Hlen.
  { do 3 eexists. split_and!; [done|by apply Hok|done|]. split; [done|]. right. left.
    destruct (refilled im); [done|simpl in Hlen; lia]. }
  destruct (Z.ltb_spec (readv fd) 0) as [Hneg|Hpos].
  { do 3 eexists. split_and!; [done|by apply Hok|done|]. split; [done|]. by right; right. }
  destruct (refilled im) as [|bi stock _] eqn:Est using rev_ind; [simpl in Hlen; lia|].
  rewrite reverse_snoc. cbn [take]. rewrite take_0. cbn [lookup list_lookup mbind option_bind].
  apply Forall_app in Hs as [Hs Hbi]. apply Forall_singleton in Hbi as [b Hb]. rewrite Hb.
  obind. specialize (Hr fd). rewrite MTU_BUFFERS_1 in Hr.
  cbn [chain_loop]. destruct (Z.leb_spec (readv fd - VLIB_BUFFER_DATA_SIZE) 0) as [_|?]; [|lia].
  obind. do 3 eexists. split; [done|]. rewrite length_app in Hl |- *. simpl in Hl.
  assert (take (length stock + length [bi] - 1) (stock ++ [bi]) = stock) as Htake
    by (rewrite take_app_length'; [done|simpl; lia]).
  split_and!; [split; cbn [rx_buffers rx_bufs]; rewrite Htake|done|done|by exists k|cbn [rx_buffers]; by rewrite Htake|].
  - lia.
  - eapply Forall_impl; [exact Hs|]. intros x Hx. destruct (decide (bi = x)) as [<-|].
    + by rewrite lookup_insert_eq.
    + by rewrite lookup_insert_ne.
  - eexists. split; [apply lookup_insert_eq|]. done.
Qed.
End rx_spec.

Definition rx_example : rx_state :=
  mkRx (tap_inject_insert_tap TapTables.empty 1 5 40) [5%Z] [] {[ 7%Z := buf_example 0; 8%Z := buf_example 0 ]}.

Lemma tap_rx_correct_witness :
  ∃ im' r out, tap_rx (λ _, [7; 8]%Z) (λ _, 60%Z) 5 rx_example = Some (im', r, out)
    ∧ stock_ok im' ∧ r = 1 ∧ out = Some (8, 1)%Z.
Proof.
  destruct (tap_rx_correct (λ _, [7; 8]%Z) (λ _, 60%Z) 5 rx_example {[ 1%Z := (5, 40)%Z ]})
    as (im' & r & out & E & Hs & _).
  - intros fd. by vm_compute.
  - intros l. repeat (apply Forall_cons; split; [by eexists|]). done.
  - split; [by vm_compute; lia|done].
  - apply (insert_tap_represents TapTables.empty ∅ 1 5 40 represents_empty); [done..|].
    intros s f k H. by rewrite lookup_empty in H.
  - done.
  - exists im', r, out. split; [exact E|]. split; [exact Hs|].
    apply (f_equal (fmap (λ x : rx_result, (x.1.2, x.2)))) in E. vm_compute in E. by injection E as <- <-.
Defined.

End TapData.

(** ** Names of the taps *)

Module TapNames.
Import TapControl.

Inductive class := Loop | Host | Giga | Tap | Other.

#[export] Instance class_eq_dec : EqDecision class.
Proof. solve_decision. Defined.

Definition class_of (hw : cstring) : class :=
  let starts s := strncmp_eq hw (str s) (String.length s) in
  if starts "loop"%string then Loop else if starts "host-"%string then Host
  else if starts "GigabitEthernet"%string then Giga else if starts "tap"%string then Tap else Other.

Definition base (c : class) : cstring :=
  str match c with
      | Loop => "loop" | Host => "host-0-0-" | Giga => "giga-0-0-" | Tap => "tap-0-0-" | Other => "vpp-0-0-"
      end.

Definition get (c : class) (n : counters) : Z :=
  match c with
  | Loop => loop_if_cnt n | Host => host_if_cnt n | Giga => giga_if_cnt n
  | Tap => tap_if_cnt n | Other => other_if_cnt n
  end.

(** The names given to a sequence of interfaces, as they reach the kernel. *)
Fixpoint given_names (hws : list cstring) (c : counters) : list cstring :=
  match hws with
  | [] => []
  | hw :: hws => take (IFNAMSIZ - 1) (tap_name hw c).1 :: given_names hws (tap_name hw c).2
  end.

Lemma tap_name_base hw c : (tap_name hw c).1 = base (class_of hw) ++ dec (u32 (get (class_of hw) c)).
Proof. unfold tap_name, class_of. destruct c. by repeat (destruct (strncmp_eq hw _ _); [done|]). Qed.

Lemma tap_name_get hw c k :
  get k (tap_name hw c).2 = (get k c + if decide (class_of hw = k) then 1 else 0)%Z.
Proof.
  unfold tap_name, class_of. destruct c.
  repeat (destruct (strncmp_eq hw _ _); [destruct k; simpl; lia|]). destruct k; simpl; lia.
Qed.

Lemma dec_loop_length fuel n acc j : (0 ≤ n < 10 ^ Z.of_nat (S j))%Z →
  length (dec_loop fuel n acc) ≤ S j + length acc.
Proof.
  revert n acc j. induction fuel as [|fuel IH]; intros n acc j Hn; [simpl; lia|].
  cbn [dec_loop]. destruct (Z.ltb_spec n 10); [simpl; lia|]. destruct j as [|j]; [lia|].
  etrans; [apply (IH _ _ j)|simpl; lia]. split; [apply Z.div_pos; lia|].
  apply Z.div_lt_upper_bound; [lia|]. rewrite (Nat2Z.inj_succ (S j)), Z.pow_succ_r in Hn by lia. lia.
Qed.

(** Below a million taps the names are not truncated. *)
Lemma name_untruncated k n : (0 ≤ n < 10 ^ 6)%Z → take (IFNAMSIZ - 1) (base k ++ dec (u32 n)) = base k ++ dec n.
Proof.
  intros Hn. rewrite u32_small by lia. apply take_ge. rewrite length_app.
  pose proof (dec_loop_length 20 n [] 5 Hn) as H. fold (dec n) in H. cbn [length] in H.
  assert (length (base k) ≤ 9) by (destruct k; simpl; lia). unfold IFNAMSIZ. lia.
Qed.

Lemma name_inj k k' n n' : (0 ≤ n < 10 ^ 6)%Z → (0 ≤ n' < 10 ^ 6)%Z →
  base k ++ dec n = base k' ++ dec n' → k = k' ∧ n = n'.
Proof.
  intros Hn Hn' E. assert (k = k') as <- by (destruct k, k'; done). split; [done|].
  apply app_inv_head in E. apply (f_equal atoi) in E. rewrite !atoi_dec in E by (unfold INT_MAX; lia). congruence.
Qed.

(** Every name given later carries a number at least the counter. *)
Lemma given_names_spec hws c s : (∀ k, 0 ≤ get k c)%Z → (∀ k, get k c + Z.of_nat (length hws) ≤ 10 ^ 6)%Z →
  s ∈ given_names hws c → ∃ k n, s = base k ++ dec n ∧ (get k c ≤ n < 10 ^ 6)%Z.
Proof.
  revert c. induction hws as [|hw hws IH]; intros c Hc Hb; cbn [given_names length] in *.
  { by intros ?%elem_of_nil. }
  intros [->|Hs]%elem_of_cons.
  - exists (class_of hw), (get (class_of hw) c). specialize (Hb (class_of hw)). specialize (Hc (class_of hw)).
    rewrite tap_name_base, name_untruncated by lia. split; [done|lia].
  - apply IH in Hs as (k & n & -> & Hn).
    + exists k, n. split; [done|]. rewrite tap_name_get in Hn. case_decide; lia.
    + intros k. rewrite tap_name_get. specialize (Hc k). case_decide; lia.
    + intros k. rewrite tap_name_get. specialize (Hb k). case_decide; lia.
Qed.

(** Whatever the names of the VPP interfaces, the kernel names chosen for
    the taps since start-up are pairwise different and none is cut by the
    interface name limit, for up to a million connect attempts. *)
Theorem tap_names_distinct (hws : list cstring) (c : counters) :
  (∀ k, 0 ≤ get k c)%Z → (∀ k, get k c + Z.of_nat (length hws) ≤ 10 ^ 6)%Z →
  NoDup (given_names hws c).
Proof.
  revert c. induction hws as [|hw hws IH]; intros c Hc Hb; cbn [given_names length] in *; constructor.
  - intros Hin. set (k := class_of hw). pose proof (Hb k). pose proof (Hc k).
    rewrite tap_name_base, name_untruncated in Hin by (fold k; lia). fold k in Hin.
    apply given_names_spec in Hin as (k' & n & E & Hn).
    + apply name_inj in E as [Ek En]; [|lia|].
      * rewrite <- Ek, tap_name_get, decide_True in Hn by done. lia.
      * rewrite tap_name_get in Hn. specialize (Hc k'). case_decide; lia.
    + intros k'. rewrite tap_name_get. specialize (Hc k'). case_decide; lia.
    + intros k'. rewrite tap_name_get. specialize (Hb k'). case_decide; lia.
  - apply IH; intros k; rewrite tap_name_get; specialize (Hc k); specialize (Hb k); case_decide; lia.
Qed.

Lemma tap_names_distinct_witness :
  given_names (str <$> ["loop0"; "tap1"; "loop1"; "memif"]%string) (mkCnt 0 0 0 0 0)
    = (str <$> ["loop0"; "tap-0-0-0"; "loop1"; "vpp-0-0-0"]%string)
  ∧ NoDup (given_names (str <$> ["loop0"; "tap1"; "loop1"; "memif"]%string) (mkCnt 0 0 0 0 0)).
Proof.
  split; [by vm_compute|].
  apply (tap_names_distinct (str <$> ["loop0"; "tap1"; "loop1"; "memif"]%string) (mkCnt 0 0 0 0 0));
    intros []; simpl; lia.
Defined.

End TapNames.
