(* ===== verification/TapMirror.v ===== *)
(** * The tap_mirror plugin: copying the packets of a graph node to taps

    Enabling a mirror replaces the function of a VPP graph node by
    [tap_mirror_input_fn] and remembers the original in a context.  The
    replacement clones every packet for a redirector process, which writes the
    clones to the context's taps, and then calls the original.  Disabling the
    last tap only marks the context; the next frame restores the node and frees
    the context.

    Nodes are indices into the list of node names; a node's function is its own
    ([Orig]) or the replacement ([Mirror]).  [None] is undefined behaviour: a
    null or freed context, an index out of range, a comparison that runs past
    the end of a name; or a failed assertion.  A name built by [format] is a vector without NUL. *)
From Stdlib Require Import Ascii String.
From stdpp Require Import prelude gmap list.
From S2P Require Import Prelude CString.
Set Default Goal Selector "!".

Inductive fn := Orig (node : nat) | Mirror.

#[export] Instance fn_eq_dec : EqDecision fn.
Proof. solve_decision. Defined.

Record tap_mirror_context := Ctx {
  target_node_name : cstring; tap_fds : list Z; tap_names : list (option cstring);
  target_fn : fn; target_rt : nat; request_to_free : bool
}.

Inductive event :=
  | Output (s : cstring)
  | Link_up (name : cstring)          (* [set_link_up_down(name, true)], its result is not used *)
  | Opened (fd : Z) (name : cstring)
  | Close (fd : Z)
  | Call (f : fn)
  | Wrote (fd : Z) (packet : nat).

Record state := State {
  contexts : list (option tap_mirror_context);
  runtimes : list fn;                 (* the function of every node *)
  opens : list Z;                     (* results of opening taps: a descriptor, or a negative error *)
  signals : list (nat * nat);         (* events for the redirector: context and cloned packet *)
  enabled : bool;
  log : list event;                   (* newest first *)
}.

Definition set_contexts (cs : list (option tap_mirror_context)) (s : state) : state :=
  State cs (runtimes s) (opens s) (signals s) (enabled s) (log s).
Definition set_runtimes (rs : list fn) (s : state) : state :=
  State (contexts s) rs (opens s) (signals s) (enabled s) (log s).
Definition emit (e : event) (s : state) : state :=
  State (contexts s) (runtimes s) (opens s) (signals s) (enabled s) (e :: log s).

(** [memcmp(a, b, strlen(b)) == 0] and [strncmp(a, b, strlen(b)) == 0]: the
    bytes up to the first difference are read. *)
Fixpoint memcmp_eq (a b : cstring) : option bool :=
  match b, a with
  | [], _ => Some true
  | x :: b, y :: a => if decide (x = y) then memcmp_eq a b else Some false
  | _, [] => None
  end.

Section plugin.
Context (names : list cstring).

Definition tap_mirror_init : state :=
  State (replicate 9 None) (Orig <$> seq 0 (length names)) [] [] false [].

(** The inner loop of [get_tapfd]: the descriptor of a tap in one context. *)
Fixpoint find_tap (fds : list Z) (tnames : list (option cstring)) (name : cstring) : option (option Z) :=
  match fds, tnames with
  | [], [] => Some None
  | fd :: fds, tn :: tnames =>
      if (fd <=? 0)%Z then find_tap fds tnames name
      else
        tn ← tn;
        eq ← memcmp_eq tn name;
        if (eq : bool) then Some (Some fd) else find_tap fds tnames name
  | _, _ => None
  end.

Fixpoint find_tapfd (cs : list (option tap_mirror_context)) (name : cstring) : option (option Z) :=
  match cs with
  | [] => Some None
  | None :: cs => find_tapfd cs name
  | Some ctx :: cs =>
      if decide (length (tap_names ctx) = length (tap_fds ctx)) then
        r ← find_tap (tap_fds ctx) (tap_names ctx) name;
        match r with Some fd => Some (Some fd) | None => find_tapfd cs name end
      else None
  end.

Definition get_tapfd (s : state) (name : cstring) : option Z :=
  r ← find_tapfd (contexts s) name; Some (default (-1)%Z r).

(** Opening fails with -1 or -2; the descriptor is closed again in the latter
    case. A missing outcome counts as a failure to open. *)
Definition get_or_open_tapfd (s : state) (name : cstring) : option (Z * state) :=
  r ← find_tapfd (contexts s) name;
  match r with
  | Some fd => Some (fd, s)
  | None =>
      let '(fd, rest) := match opens s with fd :: rest => (fd, rest) | [] => ((-1)%Z, []) end in
      let s := State (contexts s) (runtimes s) rest (signals s) (enabled s) (log s) in
      Some (fd, if (fd <? 0)%Z then s else emit (Opened fd name) s)
  end.

(** [vec_add1] at the end of both vectors, also after a failure. *)
Definition tap_mirror_context_add_new_tap (s : state) (i : nat) (tap_name : cstring) : option state :=
  '(tap_fd, s) ← get_or_open_tapfd s tap_name;
  let s := if (tap_fd <? 0)%Z then emit (Output (str "OKASHII")) s else s in
  let s := emit (Link_up tap_name) s in
  ctx ← mjoin (contexts s !! i);
  Some (set_contexts (<[i := Some (Ctx (target_node_name ctx) (tap_fds ctx ++ [tap_fd])
    (tap_names ctx ++ [Some tap_name]) (target_fn ctx) (target_rt ctx) (request_to_free ctx))]> (contexts s)) s).

(** The first context whose name begins with [name]. *)
Fixpoint find_ctx (cs : list (option tap_mirror_context)) (name : cstring) (i : nat) : option (option nat) :=
  match cs with
  | [] => Some None
  | None :: cs => find_ctx cs name (S i)
  | Some ctx :: cs =>
      eq ← memcmp_eq (target_node_name ctx) name;
      if (eq : bool) then Some (Some i) else find_ctx cs name (S i)
  end.

Definition get_event_type (s : state) (name : cstring) : option (option nat) := find_ctx (contexts s) name 0.

Definition get_tap_mirror_context (s : state) (node_name : cstring) : option (option nat) :=
  find_ctx (contexts s) node_name 0.

(** The node of a name, as VPP finds it. *)
Definition get_node (node_name : cstring) : option nat := fst <$> list_find (λ n, n = node_name) names.

(** The first free context. *)
Definition free_slot (cs : list (option tap_mirror_context)) : option nat :=
  fst <$> list_find (λ c, c = None) cs.

(** [vec_validate(v, 8)] makes nine zero entries. *)
Definition get_or_new_tap_mirror_context (s : state) (node_name : cstring) : option (option nat * state) :=
  r ← find_ctx (contexts s) node_name 0;
  match r with
  | Some i => Some (Some i, s)
  | None =>
      match free_slot (contexts s) with
      | None => Some (None, s)
      | Some i =>
          match get_node node_name with
          | None => Some (None, emit (Output (str "failed. no such node or runtime")) s)
          | Some n =>
              f ← runtimes s !! n;
              let ctx := Ctx node_name (replicate 9 0%Z) (replicate 9 None) f n false in
              Some (Some i, set_contexts (<[i := Some ctx]> (contexts s)) (set_runtimes (<[n := Mirror]> (runtimes s)) s))
          end
      end
  end.

Definition enable_tap_mirror (s : state) (node_name tap_name : cstring) : option (Z * state) :=
  let s := State (contexts s) (runtimes s) (opens s) (signals s) true (log s) in
  '(r, s) ← get_or_new_tap_mirror_context s node_name;
  match r with
  | None => Some ((-1)%Z, emit (Output (str "create miss")) s)
  | Some i => s ← tap_mirror_context_add_new_tap s i tap_name; Some (0%Z, s)
  end.

(** The loop that deletes a tap of a context: every match is deleted, the last
    one's descriptor is remembered. *)
Fixpoint delete_tap (fds : list Z) (tnames : list (option cstring)) (name : cstring) (tap_fd : Z) :
    option (Z * list Z * list (option cstring)) :=
  match fds, tnames with
  | [], _ => Some (tap_fd, [], tnames)
  | fd :: fds, tn :: tnames =>
      if (fd <=? 0)%Z then
        '(r, fds, tnames) ← delete_tap fds tnames name tap_fd; Some (r, fd :: fds, tn :: tnames)
      else
        n ← tn;
        eq ← memcmp_eq n name;
        if (eq : bool) then
          '(r, fds, tnames) ← delete_tap fds tnames name fd; Some (r, (-1)%Z :: fds, None :: tnames)
        else
          '(r, fds, tnames) ← delete_tap fds tnames name tap_fd; Some (r, fd :: fds, tn :: tnames)
  | _, [] => None
  end.

Definition disable_tap_mirror (s : state) (node_name tap_name : cstring) : option state :=
  r ← get_tap_mirror_context s node_name;
  match r with
  | None => Some (emit (Output (str "tap-mirror-context not found")) s)
  | Some i =>
      ctx ← mjoin (contexts s !! i);
      '(tap_fd, fds, tnames) ← delete_tap (tap_fds ctx) (tap_names ctx) tap_name 0;
      let with_free b := Ctx (target_node_name ctx) fds tnames (target_fn ctx) (target_rt ctx) b in
      let s := set_contexts (<[i := Some (with_free (request_to_free ctx))]> (contexts s)) s in
      exist_fd ← get_tapfd s tap_name;
      let s := if (exist_fd <? 0)%Z then emit (Close tap_fd) s else s in
      if forallb (λ fd, fd <=? 0)%Z fds
      then Some (set_contexts (<[i := Some (with_free true)]> (contexts s)) s)
      else Some s
  end.

(** How many buffers [vlib_buffer_clone] makes of a packet. *)
Context (vlib_buffer_clone : nat → nat).

(** The loop over the packets: the second clone of each goes to the redirector.
    Fewer than two clones fail the assertion. *)
Fixpoint clone_loop (event_type : nat) (pkts : list nat) (s : state) : option state :=
  match pkts with
  | [] => Some s
  | p :: pkts =>
      if decide (vlib_buffer_clone p = 2) then
        clone_loop event_type pkts (State (contexts s) (runtimes s) (opens s) (signals s ++ [(event_type, p)]) (enabled s) (log s))
      else None
  end.

(** The replacement function on a frame of packets at node [n]. *)
Definition tap_mirror_input_fn (s : state) (n : nat) (pkts : list nat) : option state :=
  name ← names !! n;
  r ← get_event_type s name;
  event_type ← r;
  ctx ← mjoin (contexts s !! event_type);
  if request_to_free ctx then
    Some (emit (Call (target_fn ctx))
      (set_contexts (<[event_type := None]> (contexts s)) (set_runtimes (<[target_rt ctx := target_fn ctx]> (runtimes s)) s)))
  else
    s ← clone_loop event_type pkts s; Some (emit (Call (target_fn ctx)) s).

(** VPP runs a node: its own function, or the replacement. *)
Definition run_node (s : state) (n : nat) (pkts : list nat) : option state :=
  f ← runtimes s !! n;
  match f with
  | Orig m => Some (emit (Call (Orig m)) s)
  | Mirror => tap_mirror_input_fn s n pkts
  end.

(** One round of the redirector process: the clock ran out, or VPP hands over
    all pending data of one event type.  The code looks at the first of them. *)
Definition tap_mirror_redirector_fn (s : state) (event_type : option nat) : option state :=
  match event_type with
  | None => Some s
  | Some event_type =>
      let event_data := snd <$> filter (λ e, e.1 = event_type) (signals s) in
      packet ← head event_data;
      ctx ← mjoin (contexts s !! event_type);
      Some (State (contexts s) (runtimes s) (opens s) (filter (λ e, e.1 ≠ event_type) (signals s)) (enabled s)
        (foldl (λ l fd, if (fd <=? 0)%Z then l else Wrote fd packet :: l) (log s) (tap_fds ctx)))
  end.

(** The command, after its words are read: both names are needed. *)
Definition set_tap_mirror_fn (s : state) (node_name tap_name : option cstring) (is_reset : bool) : option state :=
  match node_name, tap_name with
  | Some node_name, Some tap_name =>
      if is_reset then disable_tap_mirror s node_name tap_name
      else
        '(ret, s) ← enable_tap_mirror s node_name tap_name;
        Some (if (ret <? 0)%Z then emit (Output (str "set_tap_mirro failed")) s else s)
  | _, _ => Some (emit (Output (str "failed: specify both node-name and tap-name")) s)
  end.
End plugin.

(** ** Mirroring is transparent *)

(** No name is a proper beginning of another one. *)
Definition prefix_free (l : list cstring) : Prop := ∀ a b, a ∈ l → b ∈ l → a `prefix_of` b → a = b.

Lemma memcmp_eq_spec a b :
  match memcmp_eq a b with
  | Some true => b `prefix_of` a
  | Some false => ¬ b `prefix_of` a
  | None => a `prefix_of` b ∧ a ≠ b
  end.
Proof.
  revert a. induction b as [|x b IH]; intros a; cbn; [by destruct a; apply prefix_nil|].
  destruct a as [|y a]; cbn; [split; [apply prefix_nil|done]|]. destruct (decide (x = y)) as [->|Hne].
  - specialize (IH a). destruct (memcmp_eq a b) as [[]|].
    + by apply prefix_cons.
    + intros Hp. apply IH. by eapply prefix_cons_inv_2.
    + destruct IH as [Hp Hn]. split; [by apply prefix_cons|]. congruence.
  - intros Hp. by apply prefix_cons_inv_1 in Hp.
Qed.

Lemma memcmp_free l a b : prefix_free l → a ∈ l → b ∈ l → memcmp_eq a b = Some (bool_decide (a = b)).
Proof.
  intros Hl Ha Hb. pose proof (memcmp_eq_spec a b) as P. destruct (memcmp_eq a b) as [[]|].
  - rewrite bool_decide_eq_true_2; [done|]. symmetry. by apply Hl.
  - rewrite bool_decide_eq_false_2; [done|]. intros ->. by apply P.
  - destruct P as [P Hne]. by destruct (Hne (Hl a b Ha Hb P)).
Qed.

Section transparent.
(** The nodes of VPP, the node and tap names given to the commands, and the
    cloning of packets. *)
Context (names nodes taps : list cstring) (vlib_buffer_clone : nat → nat).
Context (Hdup : NoDup names) (Hnodes : prefix_free nodes) (Htaps : prefix_free taps).

(** An open tap of a context has a known name. *)
Definition taps_ok (fds : list Z) (tnames : list (option cstring)) : Prop :=
  Forall2 (λ fd tn, (0 < fd)%Z → ∃ x, tn = Some x ∧ x ∈ taps) fds tnames.

Definition ctx_ok (s : state) (c : tap_mirror_context) : Prop :=
  names !! target_rt c = Some (target_node_name c) ∧ target_fn c = Orig (target_rt c)
  ∧ runtimes s !! target_rt c = Some Mirror ∧ taps_ok (tap_fds c) (tap_names c) ∧ target_node_name c ∈ nodes.

Definition live (s : state) (i : nat) (c : tap_mirror_context) : Prop := contexts s !! i = Some (Some c).

Record inv (s : state) : Prop := Inv {
  inv_length : length (runtimes s) = length names;
  inv_orig : ∀ n m, runtimes s !! n = Some (Orig m) → m = n;
  inv_mirror : ∀ n, runtimes s !! n = Some Mirror → ∃ i c, live s i c ∧ target_rt c = n;
  inv_ctx : ∀ i c, live s i c → ctx_ok s c;
  inv_unique : ∀ i j c d, live s i c → live s j d → target_rt c = target_rt d → i = j;
}.

Lemma inv_emit e s : inv s → inv (emit e s).
Proof. intros []. by constructor. Qed.

(** Changing a context without touching its node keeps the invariant. *)
Lemma inv_update s i c c' rest sig en l : inv s → live s i c → target_rt c' = target_rt c → target_fn c' = target_fn c →
  target_node_name c' = target_node_name c → taps_ok (tap_fds c') (tap_names c') →
  inv (State (<[i := Some c']> (contexts s)) (runtimes s) rest sig en l).
Proof.
  intros [I1 I2 I3 I4 I5] Hi Hrt Hfn Hnm Ht. pose proof (lookup_lt_Some _ _ _ Hi) as Hlt.
  assert (∀ j d, live (State (<[i := Some c']> (contexts s)) (runtimes s) rest sig en l) j d →
    ∃ d', live s j d' ∧ target_rt d = target_rt d' ∧ (d = d' ∨ j = i ∧ d = c')) as Hback.
  { unfold live. cbn. intros j d Hj. destruct (decide (j = i)) as [->|Hne].
    - rewrite list_lookup_insert_eq in Hj by done. injection Hj as <-. exists c. by split_and!; [..|right].
    - rewrite list_lookup_insert_ne in Hj by done. exists d. by split_and!; [..|left]. }
  constructor; cbn; [done|done| | |].
  - intros n Hn. destruct (I3 n Hn) as (j & d & Hj & Hd). destruct (decide (j = i)) as [->|Hne].
    + exists i, c'. unfold live. cbn. rewrite list_lookup_insert_eq by done. split; [done|].
      assert (d = c) as -> by (unfold live in *; congruence). congruence.
    + exists j, d. unfold live. cbn. by rewrite list_lookup_insert_ne.
  - intros j d Hj. destruct (Hback j d Hj) as (d' & Hd' & Hr & [->|[-> ->]]); [by apply (I4 j)|].
    assert (d' = c) as -> by (unfold live in *; congruence). destruct (I4 i c Hi) as (A & B & C & _ & D).
    split_and!; cbn; [by rewrite Hrt, Hnm|by rewrite Hfn, Hrt|by rewrite Hrt|done|by rewrite Hnm].
  - intros j k d e Hj Hk E. destruct (Hback j d Hj) as (d' & Hd' & Hr & _), (Hback k e Hk) as (e' & He' & Hr' & _).
    apply (I5 j k d' e'); congruence.
Qed.

Lemma find_ctx_spec s name : inv s → name ∈ nodes → ∃ r, find_ctx (contexts s) name 0 = Some r ∧
  match r with
  | Some i => ∃ c, live s i c ∧ target_node_name c = name
  | None => ∀ i c, live s i c → target_node_name c ≠ name
  end.
Proof.
  intros [_ _ _ I4 _] Hname. unfold live in *.
  assert (∀ i c, contexts s !! i = Some (Some c) → target_node_name c ∈ nodes) as Hc.
  { intros i c Hi. apply (I4 i c Hi). }
  clear I4. revert Hc. generalize (contexts s). intros cs Hc.
  enough (∀ k, ∃ r, find_ctx cs name k = Some r ∧
    match r with Some i => ∃ j c, i = k + j ∧ cs !! j = Some (Some c) ∧ target_node_name c = name
    | None => ∀ i c, cs !! i = Some (Some c) → target_node_name c ≠ name end) as Hall.
  { destruct (Hall 0) as (r & E & Hr). exists r. split; [exact E|]. destruct r as [i|]; [|done]. destruct Hr as (j & c & -> & ? & ?). by exists c. }
  induction cs as [|[c|] cs IH]; intros k; cbn.
  - exists None. split; [done|]. intros i c Hi. done.
  - rewrite (memcmp_free nodes) by (done || by apply (Hc 0)). obind. case_bool_decide as Heq.
    + exists (Some k). split; [done|]. exists 0, c. by rewrite Nat.add_0_r.
    + destruct (IH (λ i d Hi, Hc (S i) d Hi) (S k)) as (r & E & Hr). exists r. split; [exact E|]. destruct r as [i|].
      * destruct Hr as (j & d & -> & ? & ?). exists (S j), d. split; [lia|done].
      * intros [|i] d Hi; [by injection Hi as <-|by apply (Hr i d)].
  - destruct (IH (λ i d Hi, Hc (S i) d Hi) (S k)) as (r & E & Hr). exists r. split; [exact E|]. destruct r as [i|].
    + destruct Hr as (j & d & -> & ? & ?). exists (S j), d. split; [lia|done].
    + intros [|i] d Hi; [done|by apply (Hr i d)].
Qed.

Lemma find_tap_total fds tnames name : taps_ok fds tnames → name ∈ taps → is_Some (find_tap fds tnames name).
Proof.
  intros Ht Hn. induction Ht as [|fd tn fds tnames Hfd _ IH]; cbn; [by eexists|].
  destruct (Z.leb_spec fd 0) as [|Hpos]; [done|]. destruct (Hfd Hpos) as (x & -> & Hx). obind.
  rewrite (memcmp_free taps) by done. obind. case_bool_decide; [by eexists|done].
Qed.

Lemma find_tapfd_total s name : inv s → name ∈ taps → is_Some (find_tapfd (contexts s) name).
Proof.
  intros [_ _ _ I4 _] Hn. assert (∀ i c, contexts s !! i = Some (Some c) → taps_ok (tap_fds c) (tap_names c)) as Hc
    by (intros i c Hi; apply (I4 i c Hi)).
  clear I4. revert Hc. generalize (contexts s). intros cs Hc. induction cs as [|[c|] cs IH]; cbn; [by eexists| |].
  - rewrite decide_True by (symmetry; exact (Forall2_length _ _ _ (Hc 0 c eq_refl))).
    destruct (find_tap_total _ _ name (Hc 0 c eq_refl) Hn) as [r ->]. obind. destruct r; [by eexists|].
    apply IH. intros i d Hi. by apply (Hc (S i)).
  - apply IH. intros i d Hi. by apply (Hc (S i)).
Qed.

Lemma delete_tap_spec fds tnames name fd0 : taps_ok fds tnames → name ∈ taps →
  ∃ r fds' tnames', delete_tap fds tnames name fd0 = Some (r, fds', tnames') ∧ taps_ok fds' tnames'.
Proof.
  intros Ht Hn. revert fd0. induction Ht as [|fd tn fds tnames Hfd Ht IH]; intros fd0; cbn.
  { by do 3 eexists; split; [|constructor]. }
  destruct (Z.leb_spec fd 0) as [Hle|Hpos].
  - destruct (IH fd0) as (r & f' & t' & -> & Hok). obind. do 3 eexists. split; [reflexivity|]. by constructor.
  - destruct (Hfd Hpos) as (x & -> & Hx). obind. rewrite (memcmp_free taps) by done. obind.
    case_bool_decide.
    + destruct (IH fd) as (r & f' & t' & -> & Hok). obind. do 3 eexists. split; [reflexivity|].
      constructor; [intros; lia|done].
    + destruct (IH fd0) as (r & f' & t' & -> & Hok). obind. do 3 eexists. split; [reflexivity|]. by constructor.
Qed.

Definition calls (l : list event) : list fn := omap (λ e, match e with Call f => Some f | _ => None end) l.

Lemma mirror_inv_ext s s' : contexts s' = contexts s → runtimes s' = runtimes s → inv s → inv s'.
Proof.
  intros Ec Er [I1 I2 I3 I4 I5]. unfold ctx_ok, live in *. constructor; unfold ctx_ok, live; by rewrite ?Ec, ?Er.
Qed.

(** Hooking a node that has no context yet. *)
Lemma inv_new s i n node : inv s → node ∈ nodes → contexts s !! i = Some None → names !! n = Some node →
  (∀ j c, live s j c → target_node_name c ≠ node) → runtimes s !! n = Some (Orig n) →
  inv (set_contexts (<[i := Some (Ctx node (replicate 9 0%Z) (replicate 9 None) (Orig n) n false)]> (contexts s))
         (set_runtimes (<[n := Mirror]> (runtimes s)) s)).
Proof.
  intros [I1 I2 I3 I4 I5] Hnode Hi Hn Hfree Hrt. set (c0 := Ctx _ _ _ _ _ _). set (s' := set_contexts _ _).
  pose proof (lookup_lt_Some _ _ _ Hi) as Hlt. pose proof (lookup_lt_Some _ _ _ Hrt) as Hltn.
  assert (∀ j d, live s' j d → j = i ∧ d = c0 ∨ j ≠ i ∧ live s j d ∧ target_rt d ≠ n) as Hback.
  { unfold live, s'. cbn. intros j d Hj. destruct (decide (j = i)) as [->|Hne].
    - rewrite list_lookup_insert_eq in Hj by done. injection Hj as <-. by left.
    - rewrite list_lookup_insert_ne in Hj by done. right. split; [done|]. split; [done|]. intros E.
      destruct (I4 j d Hj) as [En _]. rewrite E, Hn in En. injection En as En. by apply (Hfree j d Hj). }
  constructor; cbn.
  - by rewrite length_insert.
  - intros m k. destruct (decide (m = n)) as [->|]; [by rewrite list_lookup_insert_eq by done|].
    rewrite list_lookup_insert_ne by done. apply I2.
  - intros m. destruct (decide (m = n)) as [->|]; [|rewrite list_lookup_insert_ne by done].
    + intros _. exists i, c0. unfold live. cbn. by rewrite list_lookup_insert_eq.
    + intros Hm. destruct (I3 m Hm) as (j & d & Hj & Hd). exists j, d. split; [|done]. unfold live. cbn.
      rewrite list_lookup_insert_ne; [done|]. intros ->. unfold live in Hj. congruence.
  - intros j d Hj. destruct (Hback j d Hj) as [[-> ->]|(Hne & Hd & Hr)].
    + split_and!; cbn; [done|done|by rewrite list_lookup_insert_eq| |done].
      unfold taps_ok. repeat constructor; lia.
    + destruct (I4 j d Hd) as (A & B & C & D & E). split_and!; [done|done| |done|done]. cbn. by rewrite list_lookup_insert_ne.
  - intros j k d e Hj Hk E. destruct (Hback j d Hj) as [[-> ->]|(_ & Hd & Hr)], (Hback k e Hk) as [[-> ->]|(_ & He & Hr')];
      [done|by cbn in E|by cbn in E|by apply (I5 j k d e)].
Qed.

Lemma get_or_new_spec s node : inv s → node ∈ nodes →
  ∃ r s', get_or_new_tap_mirror_context names s node = Some (r, s') ∧ inv s' ∧ calls (log s') = calls (log s)
    ∧ match r with Some i => ∃ c, live s' i c | None => True end.
Proof.
  intros Hi Hn. unfold get_or_new_tap_mirror_context. destruct (find_ctx_spec s node Hi Hn) as (r & -> & Hr).
  obind. destruct r as [i|].
  { destruct Hr as (c & Hc & _). do 2 eexists. split; [reflexivity|]. split_and!; [done|done|by exists c]. }
  unfold free_slot. destruct (list_find (λ c, c = None) (contexts s)) as [[i c]|] eqn:Ef; cbn [fmap option_fmap option_map].
  2: { do 2 eexists. split; [reflexivity|]. done. }
  apply list_find_Some in Ef as (Hfree & -> & _).
  unfold get_node. destruct (list_find (λ n, n = node) names) as [[n x]|] eqn:En; cbn [fmap option_fmap option_map fst].
  2: { do 2 eexists. split; [reflexivity|]. split; [by apply inv_emit|done]. }
  apply list_find_Some in En as (En & -> & _). pose proof (lookup_lt_Some _ _ _ En) as Hlt. rewrite <- (inv_length s Hi) in Hlt.
  apply lookup_lt_is_Some_2 in Hlt as [f Hf]. rewrite Hf. obind.
  assert (f = Orig n) as ->.
  { destruct f as [m|]; [by rewrite (inv_orig s Hi n m Hf)|]. destruct (inv_mirror s Hi n Hf) as (j & c & Hj & Hc).
    destruct (inv_ctx s Hi j c Hj) as [Hnm _]. rewrite Hc, En in Hnm. injection Hnm as Hnm. by destruct (Hr j c Hj). }
  do 2 eexists. split; [reflexivity|]. split; [by apply inv_new|]. split; [done|]. eexists. unfold live. cbn.
  apply list_lookup_insert_eq. by eapply lookup_lt_Some.
Qed.

Lemma add_new_tap_spec s i c tap : inv s → live s i c → tap ∈ taps →
  ∃ s', tap_mirror_context_add_new_tap s i tap = Some s' ∧ inv s' ∧ calls (log s') = calls (log s).
Proof.
  intros Hi Hc Ht. unfold tap_mirror_context_add_new_tap, get_or_open_tapfd.
  destruct (find_tapfd_total s tap Hi Ht) as [r ->]. obind.
  set (p := match r with Some fd => _ | None => _ end).
  assert (∃ fd s1, p = Some (fd, s1) ∧ contexts s1 = contexts s ∧ runtimes s1 = runtimes s ∧ calls (log s1) = calls (log s))
    as (fd & s1 & -> & E1 & E2 & E3).
  { unfold p. destruct r as [fd|]; [by do 2 eexists|]. destruct (opens s) as [|fd rest]; do 2 eexists; (split; [reflexivity|]);
      [done|]. by destruct (fd <? 0)%Z. }
  obind. set (s2 := if (fd <? 0)%Z then _ else s1).
  assert (contexts s2 = contexts s ∧ runtimes s2 = runtimes s ∧ calls (log s2) = calls (log s)) as (F1 & F2 & F3)
    by (unfold s2; by destruct (fd <? 0)%Z).
  cbn. unfold live in Hc. rewrite F1, Hc. cbn. eexists. split; [reflexivity|]. split; [|cbn; exact F3].
  unfold set_contexts. cbn. rewrite F2. eapply inv_update; [exact Hi|exact Hc|done..|]. cbn.
  apply Forall2_app; [apply (inv_ctx s Hi i c Hc)|]. constructor; [|constructor]. intros _. by exists tap.
Qed.

Lemma enable_spec s node tap : inv s → node ∈ nodes → tap ∈ taps →
  ∃ r s', enable_tap_mirror names s node tap = Some (r, s') ∧ inv s' ∧ calls (log s') = calls (log s).
Proof.
  intros Hi Hn Ht. unfold enable_tap_mirror. set (s0 := State _ _ _ _ _ _).
  assert (inv s0) as Hi0 by (by apply (mirror_inv_ext s)).
  destruct (get_or_new_spec s0 node Hi0 Hn) as (r & s1 & -> & Hi1 & Hl1 & Hr). obind. destruct r as [i|].
  - destruct Hr as [c Hc]. destruct (add_new_tap_spec s1 i c tap Hi1 Hc Ht) as (s2 & -> & Hi2 & Hl2). obind.
    do 2 eexists. split; [reflexivity|]. split; [done|]. by rewrite Hl2, Hl1.
  - do 2 eexists. split; [reflexivity|]. split; [by apply inv_emit|]. exact Hl1.
Qed.

Lemma disable_spec s node tap : inv s → node ∈ nodes → tap ∈ taps →
  ∃ s', disable_tap_mirror s node tap = Some s' ∧ inv s' ∧ calls (log s') = calls (log s).
Proof.
  intros Hi Hn Ht. unfold disable_tap_mirror, get_tap_mirror_context. destruct (find_ctx_spec s node Hi Hn) as (r & -> & Hr).
  obind. destruct r as [i|]; [|eexists; split; [reflexivity|]; split; [by apply inv_emit|done]].
  destruct Hr as (c & Hc & _). unfold live in Hc. rewrite Hc. cbn [mjoin option_join mbind option_bind].
  destruct (inv_ctx s Hi i c Hc) as (_ & _ & _ & Hto & _).
  destruct (delete_tap_spec _ _ tap 0 Hto Ht) as (fd & fds & tns & -> & Hok). obind.
  set (s1 := set_contexts _ s). assert (inv s1) as Hi1 by (eapply inv_update; [exact Hi|exact Hc|done..]).
  unfold get_tapfd. destruct (find_tapfd_total s1 tap Hi1 Ht) as [r ->]. obind.
  set (s2 := if (_ <? 0)%Z then emit _ s1 else s1).
  assert (inv s2 ∧ contexts s2 = contexts s1 ∧ runtimes s2 = runtimes s1 ∧ calls (log s2) = calls (log s)) as (Hi2 & E2 & R2 & L2).
  { unfold s2. destruct (_ <? 0)%Z; [|done]. split; [by apply inv_emit|done]. }
  destruct (forallb _ fds); eexists; (split; [reflexivity|]); [|done]. split; [|exact L2].
  assert (live s2 i (Ctx (target_node_name c) fds tns (target_fn c) (target_rt c) (request_to_free c))) as Hl2.
  { unfold live. rewrite E2. cbn. apply list_lookup_insert_eq. by eapply lookup_lt_Some. }
  eapply inv_update; [exact Hi2|exact Hl2|done..].
Qed.

Lemma clone_loop_spec i pkts : Forall (λ p, vlib_buffer_clone p = 2) pkts → ∀ s,
  ∃ sig, clone_loop vlib_buffer_clone i pkts s = Some (State (contexts s) (runtimes s) (opens s) sig (enabled s) (log s)).
Proof.
  induction 1 as [|p pkts Hp _ IH]; intros s; cbn [clone_loop]; [exists (signals s); by destruct s|]. rewrite decide_True by done.
  apply (IH (State (contexts s) (runtimes s) (opens s) (signals s ++ [(i, p)]) (enabled s) (log s))).
Qed.

Lemma run_node_spec s n pkts : inv s → n < length names → Forall (λ p, vlib_buffer_clone p = 2) pkts →
  ∃ s', run_node names vlib_buffer_clone s n pkts = Some s' ∧ inv s' ∧ calls (log s') = Orig n :: calls (log s).
Proof.
  intros Hi Hn Hpk. unfold run_node. pose proof Hn as Hlt. rewrite <- (inv_length s Hi) in Hlt.
  apply lookup_lt_is_Some_2 in Hlt as [f Hf]. rewrite Hf. obind. destruct f as [m|].
  { rewrite (inv_orig s Hi n m Hf). eexists. split; [reflexivity|]. split; [by apply inv_emit|done]. }
  apply lookup_lt_is_Some_2 in Hn as [name Hname]. unfold tap_mirror_input_fn, get_event_type. rewrite Hname. obind.
  destruct (inv_mirror s Hi n Hf) as (j & d & Hj & Hd). destruct (inv_ctx s Hi j d Hj) as (Nd & _ & _ & _ & Ad).
  destruct (find_ctx_spec s name Hi) as (r & -> & Hr); [rewrite Hd, Hname in Nd; by injection Nd as ->|]. obind.
  destruct r as [i|]; [|rewrite Hd, Hname in Nd; injection Nd as Nd; by destruct (Hr j d Hj)].
  destruct Hr as (c & Hc & Hcn). destruct (inv_ctx s Hi i c Hc) as (Nc & Fc & Rc & Tc & _).
  assert (target_rt c = n) as Ecn.
  { apply (NoDup_lookup names _ _ name Hdup); [by rewrite Nc, Hcn|done]. }
  obind. unfold live in Hc. rewrite Hc. cbn [mjoin option_join mbind option_bind]. rewrite Fc, Ecn.
  destruct (request_to_free c).
  2: { destruct (clone_loop_spec i pkts Hpk s) as [sig ->]. obind. eexists. split; [reflexivity|]. split; [apply inv_emit; by apply (mirror_inv_ext s)|done]. }
  eexists; split; [reflexivity|]. split; [|done]. apply inv_emit. destruct Hi as [I1 I2 I3 I4 I5]. pose proof (lookup_lt_Some _ _ _ Hc) as Hlti.
  pose proof (lookup_lt_Some _ _ _ Hf) as Hltn. set (s' := set_contexts _ _).
  assert (∀ k e, live s' k e → k ≠ i ∧ live s k e ∧ target_rt e ≠ n) as Hback.
  { unfold live, s'. cbn. intros k e Hk. destruct (decide (k = i)) as [->|Hne]; [by rewrite list_lookup_insert_eq in Hk by done|].
    rewrite list_lookup_insert_ne in Hk by done. split_and!; [done|done|]. intros E. apply Hne.
    apply (I5 k i e c); [done|done|congruence]. }
  constructor; cbn.
  - by rewrite length_insert.
  - intros k m. destruct (decide (k = n)) as [->|]; [rewrite list_lookup_insert_eq by done; by intros [= <-]|].
    rewrite list_lookup_insert_ne by done. apply I2.
  - intros k. destruct (decide (k = n)) as [->|Hk]; [by rewrite list_lookup_insert_eq by done|].
    rewrite list_lookup_insert_ne by done. intros Hm. destruct (I3 k Hm) as (j' & e & Hj' & He). exists j', e. split; [|done].
    unfold live. cbn. rewrite list_lookup_insert_ne; [done|]. intros <-. unfold live in Hj'. congruence.
  - intros k e Hk. destruct (Hback k e Hk) as (_ & He & Hr). destruct (I4 k e He) as (A & B & C & D).
    split; [done|]. split; [done|]. split; [|done]. cbn. by rewrite list_lookup_insert_ne.
  - intros k k' e e' Hk Hk'. destruct (Hback k e Hk) as (_ & He & _), (Hback k' e' Hk') as (_ & He' & _). by apply I5.
Qed.

(** Histories of commands and frames, with any results of opening taps. *)
Definition with_opens (fds : list Z) (s : state) : state :=
  State (contexts s) (runtimes s) fds (signals s) (enabled s) (log s).

Inductive op := Enable (node tap : cstring) | Disable (node tap : cstring) | Frame (n : nat) (pkts : list nat).

Definition valid (o : op) : Prop :=
  match o with
  | Enable node tap | Disable node tap => node ∈ nodes ∧ tap ∈ taps
  | Frame n pkts => n < length names ∧ Forall (λ p, vlib_buffer_clone p = 2) pkts
  end.

Definition step (s : state) (o : op) : option state :=
  match o with
  | Enable node tap => snd <$> enable_tap_mirror names s node tap
  | Disable node tap => disable_tap_mirror s node tap
  | Frame n pkts => run_node names vlib_buffer_clone s n pkts
  end.

Fixpoint steps (s : state) (os : list op) : option state :=
  match os with [] => Some s | o :: os => s ← step s o; steps s os end.

Definition frames : list op → list fn := omap (λ o, match o with Frame n _ => Some (Orig n) | _ => None end).

Lemma steps_spec os : ∀ s, inv s → Forall valid os →
  ∃ s', steps s os = Some s' ∧ inv s' ∧ calls (log s') = reverse (frames os) ++ calls (log s).
Proof.
  induction os as [|o os IH]; intros s Hi Hv; [by exists s|]. apply Forall_cons in Hv as [Ho Hv]. cbn [steps].
  assert (∃ s1, step s o = Some s1 ∧ inv s1 ∧ calls (log s1) = reverse (frames [o]) ++ calls (log s)) as (s1 & -> & Hi1 & L1).
  { destruct o as [node tap|node tap|n pkts]; cbn [step valid] in *.
    - destruct Ho. destruct (enable_spec s node tap Hi) as (r & s1 & -> & ? & ?); [done..|]. by exists s1.
    - destruct Ho. by destruct (disable_spec s node tap Hi) as (s1 & -> & ? & ?); [..|exists s1].
    - destruct Ho. by destruct (run_node_spec s n pkts Hi) as (s1 & -> & ? & ?); [..|exists s1]. }
  obind. destruct (IH s1 Hi1 Hv) as (s' & -> & Hi' & L'). exists s'. split; [done|]. split; [done|].
  rewrite L', L1. assert (frames (o :: os) = frames [o] ++ frames os) as -> by (by destruct o). by rewrite reverse_app, app_assoc.
Qed.

Lemma inv_init : inv (tap_mirror_init names).
Proof.
  constructor; unfold live; cbn.
  - by rewrite length_fmap, length_seq.
  - intros n m E. rewrite list_lookup_fmap in E. destruct (seq _ _ !! n) as [k|] eqn:Ek; [|done].
    injection E as <-. apply lookup_seq in Ek. lia.
  - intros n E. rewrite list_lookup_fmap in E. by destruct (seq _ _ !! n).
  - intros i c E. by do 9 (destruct i as [|i]; [done|]).
  - intros i j c d E. by do 9 (destruct i as [|i]; [done|]).
Qed.

(** C19 Mirroring does not disturb forwarding: along every history of enable and
    disable commands, for nodes that exist or not, and of frames at any node,
    whatever opening a tap returns, in which buffers do not run out (every
    packet of a frame can be cloned) and of the node names given to the commands, as
    of the tap names, none is a proper beginning of another one (so not
    [ip4-input] and [ip4-input-no-checksum], which the code takes for one): every
    frame that reaches a node is processed by that node's own function, exactly
    once, whether the node is mirrored, was mirrored or is being restored; no step
    has undefined behaviour.  The redirector process, which runs no node's function,
    is not part of the histories. *)
Theorem mirror_transparent (fds : list Z) (os : list op) : Forall valid os →
  ∃ s', steps (with_opens fds (tap_mirror_init names)) os = Some s' ∧ calls (log s') = reverse (frames os).
Proof.
  intros Hv. assert (inv (with_opens fds (tap_mirror_init names))) as Hi by (by eapply mirror_inv_ext; [..|exact inv_init]).
  destruct (steps_spec os _ Hi Hv) as (s' & E & _ & L). exists s'. split; [done|]. by rewrite L, app_nil_r.
Qed.
End transparent.

(** Two names of which one begins with the other, one of them mirrored, and one
    that is no node. *)
Definition two_nodes : list cstring := [str "ip4-input-no-checksum"; str "ip4-input"].
Definition always_two (p : nat) : nat := 2.

Lemma mirror_transparent_witness :
  ∃ s', steps two_nodes always_two (with_opens [5]%Z (tap_mirror_init two_nodes))
      [Enable (str "ip4-input") (str "tap0"); Enable (str "dpdk") (str "tap0"); Frame 1 [7]; Frame 0 [8]; Disable (str "ip4-input") (str "tap0"); Frame 1 [9]; Frame 1 [10]]
      = Some s' ∧ calls (log s') = [Orig 1; Orig 1; Orig 0; Orig 1].
Proof.
  assert (prefix_free [str "ip4-input"; str "dpdk"]) as Hn.
  { intros a b Ha Hb. repeat (apply elem_of_cons in Ha as [->|Ha]); repeat (apply elem_of_cons in Hb as [->|Hb]);
      try (by apply elem_of_nil in Ha); try (by apply elem_of_nil in Hb); intros [k E]; first [reflexivity|discriminate E]. }
  assert (prefix_free [str "tap0"]) as Ht.
  { intros a b Ha Hb _. apply list_elem_of_singleton in Ha as ->. apply list_elem_of_singleton in Hb as ->. reflexivity. }
  destruct (mirror_transparent two_nodes [str "ip4-input"; str "dpdk"] [str "tap0"] always_two
    ltac:(by apply (bool_decide_unpack _); vm_compute) Hn Ht [5]%Z
    [Enable (str "ip4-input") (str "tap0"); Enable (str "dpdk") (str "tap0"); Frame 1 [7]; Frame 0 [8]; Disable (str "ip4-input") (str "tap0"); Frame 1 [9]; Frame 1 [10]])
    as (s' & E & L).
  - repeat constructor.
  - exists s'. split; [exact E|exact L].
Defined.

(** ** What goes wrong *)

(** Names are compared up to the length of the one that is asked for. With a
    context of a longer name, mirroring the shorter one is taken for it: the
    node itself stays as it was. *)
Example prefix_name_not_hooked :
  runtimes <$> steps two_nodes always_two (with_opens [5; 6]%Z (tap_mirror_init two_nodes))
    [Enable (str "ip4-input-no-checksum") (str "tap0"); Enable (str "ip4-input") (str "tap1")] =
  Some [Mirror; Orig 1].
Proof. reflexivity. Qed.

(** Without a buffer for the clone the assertion of the replacement fails. *)
Example clone_assertion :
  steps two_nodes (λ _, 1) (with_opens [5]%Z (tap_mirror_init two_nodes)) [Enable (str "ip4-input") (str "tap0"); Frame 1 [3]] = None.
Proof. reflexivity. Qed.

(** Disabling a tap the context does not have closes descriptor 0. *)
Example disable_unknown_closes_0 :
  (head ∘ log) <$> steps two_nodes always_two (with_opens [5]%Z (tap_mirror_init two_nodes))
    [Enable (str "ip4-input") (str "tap0"); Disable (str "ip4-input") (str "eth9")] = Some (Some (Close 0)).
Proof. reflexivity. Qed.

(** Enabling again before the next frame keeps the mark for freeing: the next
    frame removes the mirror that was just enabled. *)
Example reenabled_is_lost :
  runtimes <$> steps two_nodes always_two (with_opens [5; 6]%Z (tap_mirror_init two_nodes))
    [Enable (str "ip4-input") (str "tap0"); Disable (str "ip4-input") (str "tap0");
     Enable (str "ip4-input") (str "tap0"); Frame 1 [3]] = Some [Orig 0; Orig 1].
Proof. reflexivity. Qed.

(** A clone that is still queued when its context is freed makes the
    redirector read through a null pointer. *)
Example redirect_after_free :
  steps two_nodes always_two (with_opens [5]%Z (tap_mirror_init two_nodes))
    [Enable (str "ip4-input") (str "tap0"); Frame 1 [3]; Disable (str "ip4-input") (str "tap0"); Frame 1 [4]]
    ≫= (λ s, tap_mirror_redirector_fn s (Some 0)) = None.
Proof. reflexivity. Qed.

(** Of the packets of a frame only the first reaches the tap: the events of the
    others come in the same batch and are dropped with their buffers. *)
Example redirect_first_only :
  (λ s, (omap (λ e, if e is Wrote fd p then Some (fd, p) else None) (log s), signals s)) <$>
    (steps two_nodes always_two (with_opens [5]%Z (tap_mirror_init two_nodes)) [Enable (str "ip4-input") (str "tap0"); Frame 1 [3; 4; 5]]
       ≫= (λ s, tap_mirror_redirector_fn s (Some 0))) = Some ([(5%Z, 3)], []).
Proof. reflexivity. Qed.

(** ** Mirrored packets *)

(** The redirector writes the first packet of the batch once to every open tap
    of its context, in order. *)
Lemma redirector_writes s ev pkt rest c :
  snd <$> filter (λ e, e.1 = ev) (signals s) = pkt :: rest → live s ev c →
  ∃ s', tap_mirror_redirector_fn s (Some ev) = Some s' ∧
    log s' = reverse ((λ fd, Wrote fd pkt) <$> filter (λ fd, 0 < fd)%Z (tap_fds c)) ++ log s.
Proof.
  intros Hs Hc. unfold tap_mirror_redirector_fn, live in *. cbv zeta. rewrite Hs. cbn [head]. obind. rewrite Hc. cbn [mjoin option_join mbind option_bind].
  eexists. split; [reflexivity|]. cbn [log]. generalize (log s). induction (tap_fds c) as [|fd fds IH]; intros l; [done|].
  cbn [foldl]. rewrite IH, filter_cons. destruct (Z.leb_spec fd 0).
  - by rewrite decide_False by lia.
  - rewrite decide_True by lia. rewrite fmap_cons, reverse_cons, <- app_assoc. done.
Qed.
