(* ===== verification/VppApi.v ===== *)
(** * routerd's client of the VPP binary API: src/vpp.c

    A routerd command opens a session with VPP, sends API messages, waits for
    replies and closes the session.  The session is the state of a small monad:
    [world] holds what VPP and the environment will answer (the results of
    connecting, the replies that arrive before the timeout, random numbers) and
    records everything that was sent and printed.  A computation of [None] has
    undefined behaviour in C: a read or write outside a buffer, a failed
    assertion, a function that falls off its end.

    An API message is its header and a body with the fields the source fills
    in, each in the byte order the source stores. *)
From Stdlib Require Import Ascii String.
From stdpp Require Import prelude list.
From S2P Require Import Prelude CString Prefix PrefixText.
Set Default Goal Selector "!".

(** ** Messages *)

Record header := Hdr { h_msg_id : Z; h_client_index : Z; h_context : Z }.

Record fib_path := FibPath {
  fp_sw_if_index : Z; fp_table_id : Z; fp_rpf_id : Z; fp_weight : Z;
  fp_preference : Z; fp_type : Z; fp_flags : Z; fp_proto : Z; fp_nh : list Z
}.

Inductive body :=
  | Get_node_info (node_name : cstring)
  | Get_proc_info (node_name : cstring)
  | Sr_localsid_add_del (is_del end_psp behavior sw_if_index vlan_index fib_table : Z)
      (localsid nh_addr6 nh_addr4 : list Z)
  | Ip_route_add_del (is_add is_multipath table_id stats_index af : Z) (address : list Z)
      (len n_paths : Z) (paths : list fib_path)
  | Create_loopback
  | Control_ping
  | Ip_route_dump (table_id is_ip6 : Z)
  | Sw_interface_dump
  | Ip_address_dump (sw_if_index is_ipv6 : Z)
  | Tap_inject_dump
  | Sw_interface_set_flags (sw_if_index admin_up_down : Z)
  | Sw_interface_add_del_address (sw_if_index is_add is_ipv6 address_length : Z) (address : list Z)
  | Tap_inject_enable_disable (is_enable : Z).

Record msg := Msg { m_header : header; m_body : body }.

(** The fields of [vl_api_sw_interface_details_t] that are printed. *)
Record details := Details {
  d_name : cstring; d_l2_address : list Z; d_admin : Z; d_link : Z; d_link_mtu : Z;
  d_mtu : list Z; d_link_speed : Z; d_duplex : Z
}.

(** The fields of a reply that the source reads, as they are stored. *)
Record reply := Reply {
  r_msg_id : Z;
  r_retval : Z;
  r_sw_if_index : Z;
  r_kernel_if_index : Z;
  r_proc_flags : Z;
  r_node : list Z;           (* index, type, state, flags *)
  r_prefix_len : Z;
  r_prefix : list Z;
  r_paths : list fib_path;
  r_details : details;
}.

Inductive event :=
  | Connected (ok : bool)
  | Disconnected
  | Sent (m : msg)
  | Printed (s : cstring)
  | Registered (kern : Z) (kern_name : cstring) (vpp : Z) (vpp_name : cstring).
      (* [routerd_context_add_interface] *)

Record world := World {
  msg_table : list (cstring * Z);        (* [msg_index_by_name_and_crc], in iteration order *)
  connects : list (option Z);            (* results of connecting: the client index, or failure *)
  replies : list (option reply);         (* results of [svm_queue_sub]: a message, or the timeout *)
  randoms : list Z;
  client_index : Z;                      (* [rm->my_client_index] *)
  connected : bool;
  trace : list event;                    (* newest first *)
}.

(** ** The monad *)

Definition M (A : Type) : Type := world → option (A * world).
#[export] Instance M_ret : MRet M := λ A a w, Some (a, w).
#[export] Instance M_bind : MBind M := λ A B f m w, '(a, w) ← m w; f a w.

Definition undefined {A} : M A := λ _, None.
Definition emit (e : event) : M unit := λ w,
  Some ((), World (msg_table w) (connects w) (replies w) (randoms w) (client_index w) (connected w)
              (e :: trace w)).
Definition vty_out (s : cstring) : M unit := emit (Printed s).

(** [random()]: a missing random number counts as 0. *)
Definition random : M Z := λ w,
  let '(r, rs) := match randoms w with r :: rs => (r, rs) | [] => (0%Z, []) end in
  Some (r, World (msg_table w) (connects w) (replies w) rs (client_index w) (connected w) (trace w)).

(** [svm_queue_sub]: the next reply, or the timeout. *)
Definition svm_queue_sub : M (option reply) := λ w,
  let '(r, rs) := match replies w with r :: rs => (r, rs) | [] => (None, []) end in
  Some (r, World (msg_table w) (connects w) rs (randoms w) (client_index w) (connected w) (trace w)).

(** ** vpp.c *)

Definition nth_error_ub {A} (l : list A) (i : nat) : M A :=
  match l !! i with Some x => mret x | None => undefined end.

Definition vpp_node_type_str (num : Z) : option cstring :=
  if decide (num = 0)%Z then Some (str "internale")
  else if decide (num = 1)%Z then Some (str "input")
  else if decide (num = 2)%Z then Some (str "pre_input")
  else if decide (num = 3)%Z then Some (str "process")
  else None.

(** VLIB_PROCESS_IS_SUSPENDED_WAITING_FOR_CLOCK and ..._EVENT are bits 0 and 1;
    the flag VLIB_PROCESS_IS_RUNNING is VPP's. *)
Definition vpp_proc_flags_to_state (VLIB_PROCESS_IS_RUNNING flags : Z) : cstring :=
  let w := Z.land flags 3 in
  if decide (w = 1)%Z then str "time wait"
  else if decide (w = 2)%Z then str "event wait"
  else if decide (w = 3)%Z then str "any wait"
  else if (Z.land flags VLIB_PROCESS_IS_RUNNING =? 0)%Z then str "done"
  else str "active".

(** The keys of the table are the message name, an underscore and eight
    digits of checksum. The C function returns nothing when no key matches. *)
Fixpoint find_msg (table : list (cstring * Z)) (m : cstring) : option Z :=
  match table with
  | [] => None
  | (key, v) :: table =>
      if decide (Z.of_nat (length m) = Z.of_nat (length key) - 9)%Z then
        if strncmp_eq m key (length key - 9) then Some v else find_msg table m
      else find_msg table m
  end.

Definition find_msg_id (m : string) : M Z := λ w,
  id ← find_msg (msg_table w) (str m); Some (u32 id, w).

Definition my_client_index : M Z := λ w, Some (client_index w, w).

(** Common part of the message builders: allocate, fill in the header, send.
    [find_msg_id] returns a [uint32_t] that [ntohs] cuts to 16 bits. *)
Definition send (name : string) (context : Z) (b : body) : M unit :=
  id ← find_msg_id name;
  idx ← my_client_index;
  emit (Sent (Msg (Hdr (htons id) idx (htonl context)) b)).

Definition NODE_NAME_SIZE : nat := 64.

Definition get_node_info (msg_id : Z) (node_name : cstring) : M Z :=
  if decide (length node_name ≤ NODE_NAME_SIZE) then
    send "get_node_info" (u16 msg_id) (Get_node_info node_name);; mret 0%Z
  else undefined.

Definition get_proc_info (msg_id : Z) (node_name : cstring) : M Z :=
  if decide (length node_name ≤ NODE_NAME_SIZE) then
    send "get_proc_info" (u16 msg_id) (Get_proc_info node_name);; mret 0%Z
  else undefined.

Definition SR_BEHAVIOR_DX4 : Z := 7.

Definition ip6_route_srv6_end_dx4_add (msg_id : Z) (sid nh4 : list Z) (nh_ifindex : Z) : M unit :=
  send "sr_localsid_add_del" (u16 msg_id)
    (Sr_localsid_add_del 0 0 SR_BEHAVIOR_DX4 (htonl nh_ifindex) 0 0 sid (replicate 16 0%Z) nh4).

(** [struct prefix] of vpp.h. *)
Record vprefix := VPrefix { v_afi : Z; v_plen : Z; v_raw : list Z }.

Definition addr_bytes (p : vprefix) (afi : Z) : list Z :=
  take (if decide (afi = AF_INET6) then 16 else 4) (v_raw p).

Definition ip_route_add_del (msg_id : Z) (is_add : bool) (route nexthop : vprefix) (nh_ifindex : Z) : M unit :=
  if decide (v_afi route = v_afi nexthop) then
    send "ip_route_add_del" (u16 msg_id)
      (Ip_route_add_del (if is_add then 1 else 0) 0 0 0
         (if decide (v_afi route = AF_INET6) then 1 else 0)
         (addr_bytes route (v_afi route)) (u8 (v_plen route)) 1
         [FibPath (htonl nh_ifindex) 0 0 0 0 0 0 0 (addr_bytes nexthop (v_afi route))])
  else undefined.

Definition create_loopback (msg_id : Z) : M unit := send "create_loopback" msg_id Create_loopback.
Definition send_ping (msg_id : Z) : M unit := send "control_ping" msg_id Control_ping.
Definition ip_route_dump (msg_id table_id : Z) : M unit :=
  send "ip_route_dump" msg_id (Ip_route_dump (htonl table_id) 0).
Definition dump_ifcs (msg_id : Z) : M unit := send "sw_interface_dump" msg_id Sw_interface_dump.
Definition dump_ipaddrs (msg_id ifindex : Z) (is_ipv6 : bool) : M unit :=
  send "ip_address_dump" msg_id (Ip_address_dump (htonl ifindex) (if is_ipv6 then 1 else 0)).
Definition tap_inject_dump (msg_id : Z) : M unit :=
  send "tap_inject_dump" (u16 msg_id) Tap_inject_dump.
Definition set_interface_flag (msg_id ifindex : Z) (is_up : bool) : M unit :=
  send "sw_interface_set_flags" msg_id (Sw_interface_set_flags (htonl ifindex) (if is_up then 1 else 0)).

(** Size of the [address] field of the message. *)
Definition ADDRESS_SIZE : nat := 16.

(** The buffer is the object the caller passes the address of: copying more
    than it holds, or more than the message field holds, is undefined. *)
Definition set_interface_addr (msg_id ifindex : Z) (is_add is_ipv6 : bool) (addr_buffer : list Z)
    (addr_len : Z) : M unit :=
  let address_length := u8 addr_len in
  if decide (Z.to_nat address_length ≤ length addr_buffer ∧ Z.to_nat address_length ≤ ADDRESS_SIZE) then
    send "sw_interface_add_del_address" msg_id
      (Sw_interface_add_del_address (htonl ifindex) (if is_add then 1 else 0) (if is_ipv6 then 1 else 0)
         address_length (take (Z.to_nat address_length) addr_buffer ++
                         replicate (ADDRESS_SIZE - Z.to_nat address_length) 0%Z))
  else undefined.

Definition enable_disable_tap_inject (msg_id : Z) (is_enable : bool) : M unit :=
  send "tap_inject_enable_disable" (u16 msg_id) (Tap_inject_enable_disable (if is_enable then 1 else 0)).

(** A 32-bit value read as an [int32_t]. *)
Definition to_i32 (z : Z) : Z := let v := u32 z in (if v <? 2 ^ 31 then v else v - 2 ^ 32)%Z.

Arguments to_i32 : simpl never.

Definition enable_disable_tap_inject_retval : M Z :=
  r ← svm_queue_sub;
  mret match r with Some mp => to_i32 (htonl (r_retval mp)) | None => (-1)%Z end.

Definition vpp_waitmsg_retval : M Z :=
  r ← svm_queue_sub;
  mret match r with Some mp => to_i32 (htonl (r_retval mp)) | None => (-1)%Z end.

Definition disconnect_from_vpp : M unit := λ w,
  Some ((), World (msg_table w) (connects w) (replies w) (randoms w) (client_index w) false
              (Disconnected :: trace w)).

Definition connect_to_vpp : M Z := λ w,
  let '(r, rs) := match connects w with r :: rs => (r, rs) | [] => (None, []) end in
  match r with
  | None =>
      Some ((-1)%Z, World (msg_table w) rs (replies w) (randoms w) (client_index w) (connected w)
                      (Connected false :: trace w))
  | Some idx =>
      Some (0%Z, World (msg_table w) rs (replies w) (randoms w) idx true (Connected true :: trace w))
  end.

(** The string with a slash is copied into [buf]; a longer one is not
    terminated there and the reads that follow are undefined. A failed
    [inet_pton] leaves the address as it was. *)
Definition PARSE_BUF_SIZE : nat := 128.

Definition parse_prefix_str `{Inet} (s : cstring) (afi : Z) (pref : vprefix) : option vprefix :=
  if decide (afi = AF_INET ∨ afi = AF_INET6) then
    let set a := default (v_raw pref) ((λ bs, store (v_raw pref) 0 bs) <$> inet_pton afi a) in
    match strchr s "/" with
    | None => Some (VPrefix afi (if decide (afi = AF_INET) then 32 else 128) (set s))
    | Some (buf, plen_str) =>
        if decide (length s < PARSE_BUF_SIZE)
        then Some (VPrefix afi (strtol0 plen_str mod 2 ^ 64) (set buf)) else None
    end
  else None.

(** ** Running the monad *)

Lemma bind_run {A B} (m : M A) (k : A → M B) w a w1 : m w = Some (a, w1) → (m ≫= k) w = k a w1.
Proof. intros E. unfold mbind, M_bind. by rewrite E. Qed.

Definition logged (e : event) (w : world) : world :=
  World (msg_table w) (connects w) (replies w) (randoms w) (client_index w) (connected w) (e :: trace w).

Definition opened (idx : Z) (cs : list (option Z)) (w : world) : world :=
  World (msg_table w) cs (replies w) (randoms w) idx true (Connected true :: trace w).

Lemma connect_run w idx cs : connects w = Some idx :: cs → connect_to_vpp w = Some (0%Z, opened idx cs w).
Proof. intros E. unfold connect_to_vpp. by rewrite E. Qed.

Lemma send_run name c b w id : find_msg (msg_table w) (str name) = Some id →
  send name c b w = Some ((), logged (Sent (Msg (Hdr (htons (u32 id)) (client_index w) (htonl c)) b)) w).
Proof.
  intros E. unfold send. rewrite (bind_run _ _ w (u32 id) w); [done|]. unfold find_msg_id. by rewrite E.
Qed.

Definition dequeued (rs : list (option reply)) (w : world) : world :=
  World (msg_table w) (connects w) rs (randoms w) (client_index w) (connected w) (trace w).

Lemma queue_run w r rs : replies w = r :: rs → svm_queue_sub w = Some (r, dequeued rs w).
Proof. intros E. unfold svm_queue_sub. by rewrite E. Qed.
