(* ===== verification/VppCli.v ===== *)
(** * The VPP commands of routerd: src/vpp_cli.c

    Each command is a computation of the session monad of [VppApi] from its
    argument vector (the strings [argv[i]->arg]) to its result code.  Reading
    past the end of the arguments is undefined.  The loops
    [while (!svm_queue_sub(...))] of the dump commands read replies until the
    ping comes back or the timeout; the fuel is the number of replies the
    environment still holds, after which only timeouts follow. *)
From Stdlib Require Import Ascii String.
From stdpp Require Import prelude gmap list.
From S2P Require Import Prelude CString Prefix PrefixText VppApi.
Set Default Goal Selector "!".

Definition CMD_SUCCESS : Z := 0.
Definition CMD_WARNING_CONFIG_FAILED : Z := 13.

(** The line ends of the messages. *)
Definition nl : cstring := [chr 10].
Definition crnl : cstring := [chr 13; chr 10].

Definition streq (a : cstring) (b : string) : bool := bool_decide (a = str b).

Definition link_speed_to_str (speed : Z) : cstring :=
  if decide (speed = 10000000)%Z then str "10M"
  else if decide (speed = 100000000)%Z then str "100M"
  else if decide (speed = 1000000000)%Z then str "1G"
  else if decide (speed = 10000000000)%Z then str "10G"
  else if decide (speed = 40000000000)%Z then str "40G"
  else if decide (speed = 100000000000)%Z then str "100G"
  else str "UNKNOWN".

(** [snprintf(str, size, ...)] of a MAC address. *)
Definition snprintf_ether_addr (size : nat) (addr : list Z) : cstring :=
  truncate size (hex_colon (take 6 addr)).

(** [strfmt_append]: [buf0] holds 128 bytes; the rest of [str] limits the
    copy. [fmtted] is the formatted text. *)
Definition strfmt_append (s : cstring) (size : nat) (fmtted : cstring) : cstring :=
  s ++ truncate (size - length s) (truncate 128 fmtted).

(** The opening of every command: connect, or report [failed] and fail. *)
Definition with_session (failed : cstring) (k : M Z) : M Z :=
  ret ← connect_to_vpp;
  if (ret <? 0)%Z then vty_out failed;; mret CMD_WARNING_CONFIG_FAILED
  else k.

Definition no_vpe : cstring := str "Couldn't connect to vpe, exiting..." ++ nl.
Definition no_vpe_in (func : string) : cstring :=
  str func ++ str ": Couldn't connect to vpe, exiting..." ++ crnl.

(** [%d] of an [int32_t]. *)
Definition dec_signed (z : Z) : cstring := if (z <? 0)%Z then str "-" ++ dec (- z) else dec z.

Section reply.
(** The table of error messages comes from VPP's headers. *)
Context (vpp_vnet_strerror : Z → cstring).

Definition failed_text (retval : Z) : cstring :=
  str "setting was failed: " ++ vpp_vnet_strerror retval ++ str " (" ++ dec_signed retval ++ str ")" ++ nl.

(** Report the code of the reply, disconnect and fail. *)
Definition setting_failed (retval : Z) : M Z :=
  vty_out (failed_text retval);;
  disconnect_from_vpp;;
  mret CMD_WARNING_CONFIG_FAILED.

(** One reply decides; its absence is a timeout. *)
Definition reply_decides : M Z :=
  r ← svm_queue_sub;
  match r with
  | Some mp =>
      let retval := to_i32 (htonl (r_retval mp)) in
      if (retval <? 0)%Z then setting_failed retval
      else disconnect_from_vpp;; mret CMD_SUCCESS
  | None =>
      vty_out (str "timeout" ++ nl);;
      disconnect_from_vpp;;
      mret CMD_WARNING_CONFIG_FAILED
  end.
End reply.

Section commands.
Context `{Inet} (vpp_vnet_strerror : Z → cstring).
(** The bytes of the uninitialised variables of type [struct prefix]. *)
Context (stack nexthop_stack : vprefix) (VLIB_PROCESS_IS_RUNNING : Z).

Definition lift {A} (o : option A) : M A := match o with Some a => mret a | None => undefined end.

Definition set_interface_address (argv : list cstring) : M Z :=
  a4 ← nth_error_ub argv 4;
  let negate := streq a4 "del" in
  let ifindex_pos := if negate then 6 else 5 in
  let prefix_pos := if negate then 7 else 6 in
  a2 ← nth_error_ub argv 2;
  let is_ipv6 := streq a2 "ipv6" in
  ai ← nth_error_ub argv ifindex_pos;
  let ifindex := u32 (strtol0 ai) in
  pref_str ← nth_error_ub argv prefix_pos;
  prefix ← lift (parse_prefix_str pref_str (if is_ipv6 then AF_INET6 else AF_INET) stack);
  with_session no_vpe (
    set_interface_addr 3 ifindex (negb negate) is_ipv6 (v_raw prefix) (v_plen prefix);;
    reply_decides vpp_vnet_strerror).

(** Here a timeout counts as success. *)
Definition set_interface_state (argv : list cstring) : M Z :=
  with_session no_vpe (
    a4 ← nth_error_ub argv 4;
    a5 ← nth_error_ub argv 5;
    set_interface_flag 2 (u32 (strtol0 a4)) (streq a5 "up");;
    r ← svm_queue_sub;
    match r with
    | Some mp =>
        let retval := to_i32 (htonl (r_retval mp)) in
        if (retval <? 0)%Z then setting_failed vpp_vnet_strerror retval
        else disconnect_from_vpp;; mret CMD_SUCCESS
    | None => disconnect_from_vpp;; mret CMD_SUCCESS
    end).

Definition create_loopback_interface : M Z :=
  with_session no_vpe (
    id ← random;
    create_loopback (u32 id);;
    reply_decides vpp_vnet_strerror).

Definition vpe_connect : M Z := with_session no_vpe (mret CMD_SUCCESS).

Definition vpe_disconnect : M Z := disconnect_from_vpp;; mret CMD_SUCCESS.

Definition ip_adddel_route (argv : list cstring) : M Z :=
  a0 ← nth_error_ub argv 0;
  a1 ← nth_error_ub argv 1;
  prefix_str ← nth_error_ub argv 3;
  nexthop_str ← nth_error_ub argv 5;
  nh_ifindex_str ← nth_error_ub argv 7;
  let negate := streq a0 "del" in
  let afi := if streq a1 "ipv6" then AF_INET6 else AF_INET in
  route_pref ← lift (parse_prefix_str prefix_str afi stack);
  nexthop_pref ← lift (parse_prefix_str nexthop_str afi nexthop_stack);
  let nh_ifindex := u32 (strtol0 nh_ifindex_str) in
  with_session no_vpe (
    ip_route_add_del 10 (negb negate) route_pref nexthop_pref nh_ifindex;;
    reply_decides vpp_vnet_strerror).

(** [while (!svm_queue_sub(...))] with the test for the pong at the head of the
    body; [pong_recv] prints what the pong prints, [handle] is the rest of the body and [a] the data it accumulates. *)
Fixpoint until_pong {A} (fuel : nat) (pong_recv : M unit) (handle : A → reply → M A) (a : A) : M A :=
  match fuel with
  | 0 => mret a
  | S fuel =>
      r ← svm_queue_sub;
      match r with
      | None => mret a
      | Some mp =>
          pong ← find_msg_id "control_ping_reply";
          if decide (htons (r_msg_id mp) = u16 pong) then pong_recv;; mret a
          else a ← handle a mp; until_pong fuel pong_recv handle a
      end
  end.

Definition queue_length : M nat := λ w, Some (S (length (replies w)), w).

Definition read_replies {A} (pong_recv : M unit) (handle : A → reply → M A) (a : A) : M A :=
  n ← queue_length; until_pong n pong_recv handle a.

Definition show_vpp_tap_inject : M Z :=
  vty_out (str "show_vpp_tap_inject" ++ nl);;
  with_session (no_vpe_in "show_vpp_tap_inject") (
    tap_inject_dump 2;;
    id ← random;
    send_ping (u32 id);;
    read_replies (vty_out (str "pong recv" ++ nl)) (λ _ mp,
      vty_out (str "recv interface info v/k=" ++ dec (htonl (r_sw_if_index mp)) ++ str "/" ++
               dec (htonl (r_kernel_if_index mp)) ++ nl)) ();;
    disconnect_from_vpp;;
    mret CMD_SUCCESS).

(** The result code is not the reply's. *)
Definition enable_tap_inject (argv : list cstring) : M Z :=
  a0 ← nth_error_ub argv 0;
  let is_enable := streq a0 "enable" in
  with_session (no_vpe_in "enable_tap_inject") (
    id ← random;
    enable_disable_tap_inject id is_enable;;
    enable_disable_tap_inject_retval;;
    disconnect_from_vpp;;
    mret CMD_SUCCESS).

(** [if_indextoname] of the kernel index must succeed: the names the kernel
    has. *)
Context (if_indextoname : Z → option cstring).

Definition enable_cplane_netdev_sync : M Z :=
  with_session (no_vpe_in "enable_cplane_netdev_sync") (
    tap_inject_dump 2;;
    id ← random;
    send_ping (u32 id);;
    read_replies (mret ()) (λ _ mp,
      let vpp_index := htonl (r_sw_if_index mp) in
      let kern_index := htonl (r_kernel_if_index mp) in
      match if_indextoname kern_index with
      | Some kern_name => emit (Registered kern_index kern_name vpp_index (str "vpp"))
      | None => undefined
      end) ();;
    disconnect_from_vpp;;
    mret CMD_SUCCESS).

Definition show_vpp_proc_info (argv : list cstring) : M Z :=
  with_session no_vpe (
    name ← nth_error_ub argv 3;
    id ← random;
    get_proc_info id name;;
    r ← svm_queue_sub;
    match r with
    | Some mp =>
        if (to_i32 (r_retval mp) <? 0)%Z then
          vty_out (str "not such proc or node-type isn't process" ++ nl);;
          disconnect_from_vpp;; mret CMD_SUCCESS
        else
          vty_out (str "flags: " ++ dec (r_proc_flags mp) ++ str " (" ++
                   vpp_proc_flags_to_state VLIB_PROCESS_IS_RUNNING (u16 (r_proc_flags mp)) ++ str ")" ++ nl);;
          disconnect_from_vpp;; mret CMD_SUCCESS
    | None => vty_out (str "timeout" ++ nl);; disconnect_from_vpp;; mret CMD_WARNING_CONFIG_FAILED
    end).

Definition show_vpp_node_info (argv : list cstring) : M Z :=
  with_session no_vpe (
    name ← nth_error_ub argv 3;
    id ← random;
    get_node_info id name;;
    r ← svm_queue_sub;
    match r with
    | Some mp =>
        if (to_i32 (r_retval mp) <? 0)%Z then
          vty_out (str "not such node" ++ nl);;
          disconnect_from_vpp;; mret CMD_SUCCESS
        else
          index ← nth_error_ub (r_node mp) 0;
          vty_out (str "index: " ++ dec index ++ nl);;
          type ← nth_error_ub (r_node mp) 1;
          type_str ← lift (vpp_node_type_str (u8 type));
          vty_out (str "type : " ++ dec type ++ str " (" ++ type_str ++ str ")" ++ nl);;
          state ← nth_error_ub (r_node mp) 2;
          vty_out (str "state: " ++ dec state ++ nl);;
          flags ← nth_error_ub (r_node mp) 3;
          vty_out (str "flags: " ++ dec flags ++ nl);;
          disconnect_from_vpp;; mret CMD_SUCCESS
    | None => vty_out (str "timeout" ++ nl);; disconnect_from_vpp;; mret CMD_WARNING_CONFIG_FAILED
    end).

Definition vpp_startup_config_process_is_done : M bool :=
  ret ← connect_to_vpp;
  if (ret <? 0)%Z then mret false
  else
    id ← random;
    get_proc_info id (str "startup-config-process");;
    r ← svm_queue_sub;
    match r with
    | Some mp =>
        if (to_i32 (r_retval mp) <? 0)%Z then disconnect_from_vpp;; mret false
        else disconnect_from_vpp;; mret (r_proc_flags mp =? 0)%Z
    | None => disconnect_from_vpp;; mret false
    end.

(** The loop of [wait_startup_config_process_done]; the number of tries made. *)
Fixpoint wait_loop (try_cnt : nat) : M nat :=
  match try_cnt with
  | 0 => mret 0
  | S try_cnt =>
      done ← vpp_startup_config_process_is_done;
      if (done : bool) then mret 1
      else n ← wait_loop try_cnt; mret (S n)
  end.

Definition wait_startup_config_process_done (argv : list cstring) : M Z :=
  a2 ← nth_error_ub argv 2;
  nth_error_ub argv 4;;
  let try_cnt := (strtol0 a2 mod 2 ^ 64)%Z in
  wait_loop (Z.to_nat try_cnt);;
  mret CMD_SUCCESS.

(** [show vpp interface]: a table of 256 interfaces with 256 addresses each,
    indexed by the software index of the reply without a check. *)
Definition MAX_INTERFACES : Z := 256.
Definition MAX_ADDRS : nat := 256.

Fixpoint foreach {A} (f : A → M unit) (l : list A) : M unit :=
  match l with
  | [] => mret ()
  | x :: l => f x;; foreach f l
  end.

(** The text of one interface. The loop over its addresses prints nothing, so
    the buffer of addresses is empty and reads "none". *)
Definition interface_text (sw_if_index : Z) (mp : details) : cstring :=
  let mtu i := dec (htonl (default 0%Z (d_mtu mp !! i))) in
  str " " ++ d_name mp ++ str ": idx[" ++ dec (htonl sw_if_index) ++ str "], admin " ++
  str (if (0 <? d_admin mp)%Z then "up" else "down") ++ str ", link " ++
  str (if (0 <? d_link mp)%Z then "up" else "down") ++ nl ++
  str "  Hardwre address: " ++ snprintf_ether_addr 128 (d_l2_address mp) ++ nl ++
  str "  Internet address: none" ++ nl ++
  str "  MTU-LINK/L3/IP/IP6/MPLS: " ++ dec (htons (d_link_mtu mp)) ++ str "/" ++ mtu 0 ++ str "/" ++
  mtu 1 ++ str "/" ++ mtu 2 ++ str "/" ++ mtu 3 ++ str ", Link-Speed/Duplex: " ++
  link_speed_to_str (htonl (d_link_speed mp)) ++ str "/" ++
  str (if (d_duplex mp =? 1)%Z then "Full" else "Half") ++ nl ++ nl.

Definition show_vpp_interface : M Z :=
  with_session no_vpe (
    id ← random;
    dump_ifcs (u32 id);;
    id ← random;
    send_ping (u32 id);;
    interfaces ← read_replies (mret ()) (λ (interfaces : gmap Z (Z * details)) mp,
      let idx := htonl (r_sw_if_index mp) in
      if decide (idx < MAX_INTERFACES)%Z then
        id ← random; dump_ipaddrs (u32 id) idx false;;
        id ← random; dump_ipaddrs (u32 id) idx true;;
        mret (<[idx := (r_sw_if_index mp, r_details mp)]> interfaces)
      else undefined) ∅;
    id ← random;
    send_ping (u32 id);;
    read_replies (mret ()) (λ (n_addrs : gmap Z nat) mp,
      let idx := htonl (r_sw_if_index mp) in
      let n := default 0 (n_addrs !! idx) in
      if decide (idx < MAX_INTERFACES ∧ (n < MAX_ADDRS)%nat)%Z then mret (<[idx := S n]> n_addrs)
      else undefined) ∅;;
    disconnect_from_vpp;;
    vty_out nl;;
    foreach (λ i, match interfaces !! i with
                  | Some (idx, mp) => vty_out (interface_text idx mp)
                  | None => mret ()
                  end) (seqZ 0 MAX_INTERFACES);;
    mret CMD_SUCCESS).

Definition dotted (a : list Z) : cstring :=
  let b i := dec (default 0%Z (a !! i)) in
  b 0 ++ str "." ++ b 1 ++ str "." ++ b 2 ++ str "." ++ b 3.

Definition path_text (p : fib_path) : cstring :=
  str "{int[" ++ dec (htonl (fp_sw_if_index p)) ++ str "] table[" ++ dec (htonl (fp_table_id p)) ++
  str "] type=" ++ dec (htonl (fp_type p)) ++ str " proto=" ++ dec (htonl (fp_proto p)) ++ str " nh=" ++
  dotted (fp_nh p) ++ str "}".

(** The address is copied into four bytes, one for every full eight bits of
    prefix length. *)
Definition show_vpp_ip_fib : M Z :=
  with_session no_vpe (
    id ← random;
    ip_route_dump (u32 id) 0;;
    id ← random;
    send_ping (u32 id);;
    vty_out crnl;;
    read_replies (vty_out (str "end entry" ++ [chr 10; chr 13])) (λ _ mp,
      let n := Z.to_nat (r_prefix_len mp / 8) in
      if decide (n ≤ 4) then
        vty_out (str " " ++ dotted (take n (r_prefix mp) ++ replicate (4 - n) 0%Z) ++ str "/" ++
                 dec (r_prefix_len mp) ++ str " path=[");;
        foreach (λ p, vty_out (path_text p)) (r_paths mp);;
        vty_out (str "]" ++ crnl)
      else undefined) ();;
    disconnect_from_vpp;;
    mret CMD_SUCCESS).
End commands.

(** ** Sessions are closed

    The balance of a trace: sessions opened minus sessions closed.  A
    computation shifts the balance by [d] when it does so on every run that
    returns. *)
Definition weight (e : event) : Z :=
  match e with Connected true => 1 | Disconnected => -1 | _ => 0 end.
Definition balance (w : world) : Z := foldr (λ e n, (weight e + n)%Z) 0%Z (trace w).

Definition shifts {A} (d : Z) (m : M A) : Prop :=
  ∀ w a w', m w = Some (a, w') → (balance w' = balance w + d)%Z.

Lemma shifts_ret {A} (a : A) : shifts 0 (mret a : M A).
Proof. intros w b w' [= <- <-]. lia. Qed.

Lemma shifts_bind {A B} d d1 d2 (m : M A) (k : A → M B) :
  shifts d1 m → (∀ a, shifts d2 (k a)) → d = (d1 + d2)%Z → shifts d (m ≫= k).
Proof.
  intros Hm Hk -> w b w' H. unfold mbind, M_bind in H.
  destruct (m w) as [[a w1]|] eqn:E; [|done]. apply Hm in E. apply Hk in H. lia.
Qed.

Lemma shifts_undefined {A} d : shifts d (undefined : M A).
Proof. by intros w a w'. Qed.

Lemma shifts_emit e : weight e = 0%Z → shifts 0 (emit e).
Proof. intros He w a w' [= <- <-]. unfold balance. simpl. lia. Qed.

Lemma shifts_random : shifts 0 random.
Proof. intros w a w'. unfold random. destruct (randoms w); intros [= <- <-]; unfold balance; simpl; lia. Qed.

Lemma shifts_queue : shifts 0 svm_queue_sub.
Proof. intros w a w'. unfold svm_queue_sub. destruct (replies w); intros [= <- <-]; unfold balance; simpl; lia. Qed.

Lemma shifts_find s : shifts 0 (find_msg_id s).
Proof.
  intros w a w'. unfold find_msg_id. destruct (find_msg _ _); [|done]. intros [= <- <-]. lia.
Qed.

Lemma shifts_lift {A} (o : option A) : shifts 0 (lift o).
Proof. destruct o; [apply shifts_ret|apply shifts_undefined]. Qed.

Lemma shifts_nth {A} (l : list A) i : shifts 0 (nth_error_ub l i).
Proof. unfold nth_error_ub. destruct (l !! i); [apply shifts_ret|apply shifts_undefined]. Qed.

Lemma shifts_client : shifts 0 my_client_index.
Proof. intros w a w' [= <- <-]. lia. Qed.

Lemma shifts_length : shifts 0 queue_length.
Proof. intros w a w' [= <- <-]. lia. Qed.

Lemma shifts_disconnect : shifts (-1) disconnect_from_vpp.
Proof. intros w a w' [= <- <-]. unfold balance. simpl. lia. Qed.

Create HintDb session.
#[export] Hint Resolve shifts_ret shifts_undefined shifts_random shifts_queue shifts_find shifts_lift
  shifts_nth shifts_client shifts_length shifts_disconnect : session.
#[export] Hint Extern 1 (shifts 0 (emit _)) => apply shifts_emit; reflexivity : session.
#[export] Hint Extern 1 (shifts 0 (vty_out _)) => apply shifts_emit; reflexivity : session.

(** Walk through a computation whose parts are known not to shift, apart from
    the disconnections. *)
Ltac session :=
  repeat match goal with
  | |- shifts _ (disconnect_from_vpp ≫= _) => eapply (shifts_bind _ (-1) 0); [apply shifts_disconnect| |done]; intros []
  | |- shifts _ (_ ≫= _) => eapply (shifts_bind _ 0 _); [solve [auto with session]| |reflexivity]; intros ?
  | |- shifts _ (match ?x with _ => _ end) => destruct x
  | |- shifts _ (if ?x then _ else _) => destruct x
  | |- shifts _ (let '(_, _) := ?x in _) => destruct x
  end; auto with session.

Lemma shifts_send s c b : shifts 0 (send s c b).
Proof. unfold send. session. Qed.
#[export] Hint Resolve shifts_send : session.

Lemma shifts_builders :
  (∀ i n, shifts 0 (get_node_info i n)) ∧ (∀ i n, shifts 0 (get_proc_info i n)) ∧
  (∀ i a r n x, shifts 0 (ip_route_add_del i a r n x)) ∧ (∀ i x b, shifts 0 (dump_ipaddrs i x b)) ∧
  (∀ i x a v l n, shifts 0 (set_interface_addr i x a v l n)) ∧ shifts 0 enable_disable_tap_inject_retval.
Proof.
  split_and!; intros; unfold get_node_info, get_proc_info, ip_route_add_del, dump_ipaddrs, set_interface_addr,
    enable_disable_tap_inject_retval; session.
Qed.

Lemma shifts_foreach {A} (f : A → M unit) l : (∀ x, shifts 0 (f x)) → shifts 0 (foreach f l).
Proof. intros Hf. induction l as [|x l IH]; cbn [foreach]; session. Qed.
#[export] Hint Resolve shifts_foreach : session.

Lemma shifts_until_pong {A} fuel pong (handle : A → reply → M A) a :
  shifts 0 pong → (∀ a mp, shifts 0 (handle a mp)) → shifts 0 (until_pong fuel pong handle a).
Proof. intros Hp Hh. revert a. induction fuel as [|fuel IH]; intros a; cbn [until_pong]; session. Qed.

Lemma shifts_read {A} pong (handle : A → reply → M A) a :
  shifts 0 pong → (∀ a mp, shifts 0 (handle a mp)) → shifts 0 (read_replies pong handle a).
Proof.
  intros Hp Hh. unfold read_replies. eapply (shifts_bind _ 0 0); [apply shifts_length| |done].
  intros n. by apply shifts_until_pong.
Qed.

(** A command that closes its session keeps the balance. *)
Lemma shifts_session failed k : shifts (-1) k → shifts 0 (with_session failed k).
Proof.
  intros Hk w a w' H. unfold with_session, mbind, M_bind, connect_to_vpp in H.
  destruct (connects w) as [|[idx|] cs]; simpl in H.
  - injection H as <- <-. unfold balance. simpl. lia.
  - apply Hk in H. unfold balance in *. simpl in *. lia.
  - injection H as <- <-. unfold balance. simpl. lia.
Qed.

Lemma shifts_reply_decides strerror : shifts (-1) (reply_decides strerror).
Proof. unfold reply_decides, setting_failed, vty_out. session. Qed.
#[export] Hint Resolve shifts_reply_decides : session.

Section balance.
Context `{Inet} (strerror : Z → cstring) (stack stack2 : vprefix) (RUNNING : Z) (names : Z → option cstring).

(** The commands that talk to VPP. *)
Inductive command :=
  | C_vpe_connect
  | C_vpe_disconnect
  | C_set_interface_address (argv : list cstring)
  | C_set_interface_state (argv : list cstring)
  | C_create_loopback_interface
  | C_ip_adddel_route (argv : list cstring)
  | C_show_vpp_tap_inject
  | C_enable_tap_inject (argv : list cstring)
  | C_enable_cplane_netdev_sync
  | C_show_vpp_proc_info (argv : list cstring)
  | C_show_vpp_node_info (argv : list cstring)
  | C_wait_startup (argv : list cstring)
  | C_show_vpp_interface
  | C_show_vpp_ip_fib.

Definition run (c : command) : M Z :=
  match c with
  | C_vpe_connect => vpe_connect
  | C_vpe_disconnect => vpe_disconnect
  | C_set_interface_address argv => set_interface_address strerror stack argv
  | C_set_interface_state argv => set_interface_state strerror argv
  | C_create_loopback_interface => create_loopback_interface strerror
  | C_ip_adddel_route argv => ip_adddel_route strerror stack stack2 argv
  | C_show_vpp_tap_inject => show_vpp_tap_inject
  | C_enable_tap_inject argv => enable_tap_inject argv
  | C_enable_cplane_netdev_sync => enable_cplane_netdev_sync names
  | C_show_vpp_proc_info argv => show_vpp_proc_info RUNNING argv
  | C_show_vpp_node_info argv => show_vpp_node_info argv
  | C_wait_startup argv => wait_startup_config_process_done argv
  | C_show_vpp_interface => show_vpp_interface
  | C_show_vpp_ip_fib => show_vpp_ip_fib
  end.

#[local] Instance command_eq_dec : EqDecision command.
Proof. solve_decision. Defined.

Lemma shifts_is_done : shifts 0 vpp_startup_config_process_is_done.
Proof.
  pose proof shifts_builders as (_ & Hp & _).
  intros w a w'. unfold vpp_startup_config_process_is_done, mbind at 1, M_bind at 1, connect_to_vpp.
  destruct (connects w) as [|[idx|] cs]; simpl; [intros [= <- <-]; unfold balance; simpl; lia| |
    intros [= <- <-]; unfold balance; simpl; lia].
  set (w0 := World _ _ _ _ _ _ _). intros E. match type of E with ?m w0 = _ => assert (shifts (-1) m) as Hs by session end.
  apply Hs in E. unfold balance in *. simpl in *. lia.
Qed.

Lemma shifts_wait n : shifts 0 (wait_loop n).
Proof. pose proof shifts_is_done. induction n; cbn [wait_loop]; session. Qed.

(** By how many sessions a command with this result leaves more open than before. *)
Definition left_open (c : command) (r : Z) : Z :=
  match c with
  | C_vpe_connect => if (r =? CMD_SUCCESS)%Z then 1 else 0
  | C_vpe_disconnect => -1
  | _ => 0
  end.

Lemma connect_opens w w' r : vpe_connect w = Some (r, w') → balance w' = (balance w + left_open C_vpe_connect r)%Z.
Proof.
  unfold vpe_connect, with_session, mbind, M_bind, connect_to_vpp. destruct (connects w) as [|[idx|] cs]; simpl; intros [= <- <-]; unfold balance; simpl; lia.
Qed.

(** C16 The sessions with VPP: on every path (bad reply, timeout, failed connection,
    end of a dump) every command but the two that are for this closes the session
    it opens, exactly once; [vpe connect] leaves one more open when it succeeds and
    none otherwise; [vpe disconnect] closes one. *)
Theorem command_closes_session (c : command) (w w' : world) (r : Z) :
  run c w = Some (r, w') → balance w' = (balance w + left_open c r)%Z.
Proof.
  intros E. destruct (decide (c = C_vpe_connect)) as [->|H1]; [by apply connect_opens|].
  destruct (decide (c = C_vpe_disconnect)) as [->|H2]; [injection E as <- <-; unfold balance; simpl; lia|].
  assert (left_open c r = 0)%Z as -> by (by destruct c).
  enough (shifts 0 (run c)) as Hs by (apply Hs in E; lia). clear E.
  pose proof shifts_builders as (Hni & Hpi & Hrt & Hda & Hia & Hre).
  destruct c; cbn [run]; [done|done|..].
  - unfold set_interface_address. session. apply shifts_session. session.
  - unfold set_interface_state. apply shifts_session. unfold set_interface_flag, setting_failed, vty_out. session.
  - unfold create_loopback_interface. apply shifts_session. unfold create_loopback. session.
  - unfold ip_adddel_route. session. apply shifts_session. session.
  - unfold show_vpp_tap_inject. session. apply shifts_session. unfold tap_inject_dump, send_ping. session.
    eapply (shifts_bind _ 0 (-1)); [apply shifts_read; intros; session| |done]. intros. session.
  - unfold enable_tap_inject. session. apply shifts_session. unfold enable_disable_tap_inject. session.
  - unfold enable_cplane_netdev_sync. apply shifts_session. unfold tap_inject_dump, send_ping. session.
    eapply (shifts_bind _ 0 (-1)); [apply shifts_read; intros; session| |done]. intros. session.
  - unfold show_vpp_proc_info. apply shifts_session. unfold vty_out. session.
  - unfold show_vpp_node_info. apply shifts_session. unfold vty_out. session.
  - unfold wait_startup_config_process_done. pose proof shifts_wait. session.
  - unfold show_vpp_interface. apply shifts_session. unfold dump_ifcs, send_ping. session.
    eapply (shifts_bind _ 0 (-1)); [apply shifts_read; intros; session| |done]. intros. session.
    eapply (shifts_bind _ 0 (-1)); [apply shifts_read; intros; session| |done]. intros. session.
    eapply (shifts_bind _ 0 0); [apply shifts_foreach; intros; session| |done]. intros. session.
  - unfold show_vpp_ip_fib. apply shifts_session. unfold ip_route_dump, send_ping. session.
    eapply (shifts_bind _ 0 (-1)); [apply shifts_read; intros; session| |done]. intros. session.
Qed.
End balance.

(** ** What the route command sends *)

Lemma parse_prefix_str_afi `{Inet} s afi p q : parse_prefix_str s afi p = Some q → v_afi q = afi.
Proof.
  unfold parse_prefix_str. case_decide; [|done]. destruct (strchr s "/") as [[]|]; [case_decide; [|done]|];
    by intros [= <-].
Qed.

(** The message of a route: prefix, one path, the interface and the nexthop. *)
Definition route_msg (id idx : Z) (is_add : bool) (route nh : vprefix) (ifindex : Z) : msg :=
  Msg (Hdr (htons (u32 id)) idx (htonl 10))
    (Ip_route_add_del (if is_add then 1 else 0) 0 0 0 (if decide (v_afi route = AF_INET6) then 1 else 0)
       (addr_bytes route (v_afi route)) (u8 (v_plen route)) 1
       [FibPath (htonl ifindex) 0 0 0 0 0 0 0 (addr_bytes nh (v_afi route))]).

(** The part of the trace that the answer adds. *)
Definition answer (strerror : Z → cstring) (r : option reply) : Z * list event :=
  match r with
  | Some mp =>
      let retval := to_i32 (htonl (r_retval mp)) in
      if (retval <? 0)%Z
      then (CMD_WARNING_CONFIG_FAILED, [Disconnected; Printed (failed_text strerror retval)])
      else (CMD_SUCCESS, [Disconnected])
  | None => (CMD_WARNING_CONFIG_FAILED, [Disconnected; Printed (str "timeout" ++ nl)])
  end.

Lemma reply_decides_spec strerror w r rs : replies w = r :: rs →
  ∃ w', reply_decides strerror w = Some ((answer strerror r).1, w') ∧ trace w' = (answer strerror r).2 ++ trace w.
Proof.
  intros Hr. unfold reply_decides. rewrite (bind_run _ _ w _ _ (queue_run w r rs Hr)). unfold answer.
  destruct r as [mp|]; [cbv zeta; destruct (_ <? 0)%Z|]; by eexists.
Qed.

(** "add|del ipv4|ipv6 route PREFIX via NEXTHOP nh-ifindex N" with a
    reachable VPP sends exactly one message, whose fields are the parsed
    prefix, nexthop and interface in the byte order of the API and whose
    [is_add] is 1 unless the first word is del; the command succeeds exactly
    when VPP answers in time with a non-negative code, and the session is
    closed. *)
Theorem ip_adddel_route_sends `{Inet} (strerror : Z → cstring) (stack stack2 route nh : vprefix) (verb fam w2 P w4 N w6 I : cstring)
    (w : world) (idx id : Z) (cs rs : list _) (r : option reply) :
  let afi := if streq fam "ipv6" then AF_INET6 else AF_INET in
  parse_prefix_str P afi stack = Some route → parse_prefix_str N afi stack2 = Some nh →
  connects w = Some idx :: cs → find_msg (msg_table w) (str "ip_route_add_del") = Some id →
  replies w = r :: rs →
  ∃ w', ip_adddel_route strerror stack stack2 [verb; fam; w2; P; w4; N; w6; I] w = Some ((answer strerror r).1, w')
    ∧ trace w' = (answer strerror r).2 ++
        [Sent (route_msg id idx (negb (streq verb "del")) route nh (u32 (strtol0 I))); Connected true] ++ trace w.
Proof.
  intros afi Hroute Hnh Hc Hid Hr. unfold ip_adddel_route.
  do 5 (rewrite (bind_run _ _ w _ w) by done). cbv zeta. fold afi.
  rewrite (bind_run _ _ w route w) by (by rewrite Hroute).
  rewrite (bind_run _ _ w nh w) by (by rewrite Hnh).
  unfold with_session. rewrite (bind_run _ _ w _ _ (connect_run w idx cs Hc)).
  change (0 <? 0)%Z with false. cbv iota. unfold ip_route_add_del.
  rewrite decide_True by (by rewrite (parse_prefix_str_afi _ _ _ _ Hroute), (parse_prefix_str_afi _ _ _ _ Hnh)).
  rewrite (bind_run _ _ _ _ _ (send_run _ _ _ (opened idx cs w) id Hid)).
  match goal with |- context [reply_decides _ ?w0] => destruct (reply_decides_spec strerror w0 r rs Hr) as (w' & E & Ht) end.
  rewrite E. exists w'. split; [done|]. rewrite Ht. done.
Qed.

Definition w_example (r : option reply) : world :=
  World [(str "ip_route_add_del_5ceee41c", 77); (str "get_proc_info_00000000", 78)]%Z
    [Some 5%Z; Some 6%Z; Some 7%Z] [r; r; r] [] 0 false [].
Definition reply_example (retval : Z) : reply := Reply 0 retval 0 0 1 [] 0 [] [] (Details [] [] 0 0 0 [] 0 0).
Definition no_prefix : vprefix := VPrefix 0 0 (replicate 16 0%Z).

Lemma ip_adddel_route_sends_witness :
  ∃ w', ip_adddel_route (λ _, []) no_prefix no_prefix
          [str "add"; str "ipv4"; str "route"; str "10.1.0.0/16"; str "via"; str "192.168.0.1"; str "nh-ifindex"; str "2"]
          (w_example (Some (reply_example 0))) = Some (CMD_SUCCESS, w')
    ∧ trace w' = [Disconnected;
        Sent (Msg (Hdr (htons 77) 5 (htonl 10))
          (Ip_route_add_del 1 0 0 0 0 [10; 1; 0; 0]%Z 16 1 [FibPath (htonl 2) 0 0 0 0 0 0 0 [192; 168; 0; 1]%Z]));
        Connected true].
Proof.
  destruct (ip_adddel_route_sends (λ _, []) no_prefix no_prefix
    (VPrefix AF_INET 16 ([10; 1; 0; 0] ++ replicate 12 0)%Z) (VPrefix AF_INET 32 ([192; 168; 0; 1] ++ replicate 12 0)%Z)
    (str "add") (str "ipv4") (str "route") (str "10.1.0.0/16") (str "via") (str "192.168.0.1") (str "nh-ifindex") (str "2")
    (w_example (Some (reply_example 0))) 5 77 [Some 6; Some 7]%Z
    [Some (reply_example 0); Some (reply_example 0)] (Some (reply_example 0))) as (w' & E & Ht);
    [by vm_compute..|]. exists w'. split; [exact E|]. rewrite Ht. by vm_compute.
Defined.

(** Waiting for the startup, then opening a session that stays. *)
Lemma command_closes_session_witness :
  ∃ r w1 w2, run (λ _, []) no_prefix no_prefix 16 (λ _, None)
      (C_wait_startup (str <$> ["wait"; "try-count"; "2"; "interval"; "0"]%string)) (w_example None) = Some (r, w1)
    ∧ balance w1 = 0%Z
    ∧ run (λ _, []) no_prefix no_prefix 16 (λ _, None) C_vpe_connect w1 = Some (CMD_SUCCESS, w2) ∧ balance w2 = 1%Z.
Proof.
  destruct (run (λ _, []) no_prefix no_prefix 16 (λ _, None)
      (C_wait_startup (str <$> ["wait"; "try-count"; "2"; "interval"; "0"]%string)) (w_example None)) as [[r w1]|] eqn:E.
  - assert (fst <$> run (λ _, []) no_prefix no_prefix 16 (λ _, None) C_vpe_connect w1 = Some CMD_SUCCESS) as E2.
    { vm_compute in E. injection E as _ <-. reflexivity. }
    destruct (run (λ _, []) no_prefix no_prefix 16 (λ _, None) C_vpe_connect w1) as [[r2 w2]|] eqn:E3; [|discriminate E2].
    injection E2 as ->. exists r, w1, w2. split; [reflexivity|].
    assert (balance w1 = 0%Z) as B1 by exact (command_closes_session _ _ _ _ _ _ _ _ _ E).
    split; [exact B1|]. split; [exact E3|]. rewrite (command_closes_session _ _ _ _ _ _ _ _ _ E3), B1. reflexivity.
  - exfalso. apply (f_equal (fmap fst)) in E. by vm_compute in E.
Defined.

(** ** Waiting is bounded *)

Definition is_connect (e : event) : bool := match e with Connected _ => true | _ => false end.
Definition tries (w : world) : nat := length (List.filter is_connect (trace w)).

Lemma is_done_tries w id : find_msg (msg_table w) (str "get_proc_info") = Some id →
  ∃ b w', vpp_startup_config_process_is_done w = Some (b, w') ∧ tries w' = S (tries w) ∧ msg_table w' = msg_table w.
Proof.
  intros Hid. unfold vpp_startup_config_process_is_done.
  assert (∃ r w1, connect_to_vpp w = Some (r, w1) ∧ tries w1 = S (tries w) ∧ msg_table w1 = msg_table w)
    as (r & w1 & E1 & T1 & M1).
  { unfold connect_to_vpp. destruct (connects w) as [|[idx|] cs]; by do 2 eexists. }
  rewrite (bind_run _ _ _ _ _ E1). destruct (r <? 0)%Z; [by do 2 eexists|].
  assert (∃ i w2, random w1 = Some (i, w2) ∧ tries w2 = tries w1 ∧ msg_table w2 = msg_table w1)
    as (i & w2 & E2 & T2 & M2) by (unfold random; destruct (randoms w1); by do 2 eexists).
  rewrite (bind_run _ _ _ _ _ E2). unfold get_proc_info.
  rewrite decide_True by (by apply (bool_decide_unpack _); vm_compute).
  rewrite <- M1, <- M2 in Hid.
  erewrite bind_run by (erewrite bind_run by exact (send_run _ _ _ w2 id Hid); reflexivity).
  set (w3 := logged _ w2).
  assert (∃ q w4, svm_queue_sub w3 = Some (q, w4) ∧ tries w4 = tries w3 ∧ msg_table w4 = msg_table w3)
    as (q & w4 & E4 & T4 & M4) by (unfold svm_queue_sub; destruct (replies w3); by do 2 eexists).
  rewrite (bind_run _ _ _ _ _ E4).
  assert (tries w3 = tries w2 ∧ msg_table w3 = msg_table w2) as [T3 M3] by done.
  destruct q as [mp|]; [destruct (_ <? 0)%Z|]; do 2 eexists; (split; [reflexivity|]);
    (split; [change (tries w4 = S (tries w))|change (msg_table w4 = msg_table w)]; congruence).
Qed.

(** Waiting for VPP's startup process ends: with the message known, the
    loop makes at most the requested number of tries, connecting exactly once
    per try, whatever VPP answers. *)
Theorem wait_startup_bounded (n : nat) (w : world) (id : Z) :
  find_msg (msg_table w) (str "get_proc_info") = Some id →
  ∃ k w', wait_loop n w = Some (k, w') ∧ k ≤ n ∧ tries w' = tries w + k.
Proof.
  revert w. induction n as [|n IH]; intros w Hid; cbn [wait_loop].
  { exists 0, w. split; [done|]. lia. }
  destruct (is_done_tries w id Hid) as (b & w1 & E & Ht & Htab). rewrite (bind_run _ _ _ _ _ E). destruct b.
  - exists 1, w1. split; [done|]. lia.
  - destruct (IH w1) as (k & w' & E' & Hk & Ht'); [by rewrite Htab|]. rewrite (bind_run _ _ _ _ _ E').
    exists (S k), w'. split; [done|]. lia.
Qed.

Lemma wait_startup_bounded_witness :
  ∃ k w', wait_loop 2 (w_example None) = Some (k, w') ∧ k ≤ 2 ∧ tries w' = k.
Proof.
  destruct (wait_startup_bounded 2 (w_example None) 78) as (k & w' & E & Hk & Ht); [by vm_compute|].
  exists k, w'. split; [exact E|]. split; [exact Hk|exact Ht].
Defined.
