(* ===== verification/Netlink.v ===== *)
(** * Netlink messages: libyalin's attribute parser, link cache and receive loop

    A handler gets a pointer into the receive buffer.  The model keeps the
    buffer as a list of bytes [mem] that starts at the message the pointer
    designates, and a pointer as an offset into it, so that reads past the end
    of a message see what lies behind it, and reads past the buffer are
    [None].  [None] also stands for [exit(1)] and failed assertions: the
    process does not go on.

    - netlink_helper.h: [parse_rtattr], the table [rta_array] and the readers;
    - netlink_cache.cc: the cache of link messages;
    - netlink_socket.cc: the walk over the messages of one datagram.

    Integers are in the byte order of a little-endian host.  Lengths are
    [size_t]: subtraction wraps modulo 2^64. *)
From stdpp Require Import prelude gmap list.
From S2P Require Import Prelude.
Set Default Goal Selector "!".

(** ** Memory *)

(** [n] bytes at [off]. *)
Definition read_bytes (mem : list Z) (off n : nat) : option (list Z) :=
  if decide (off + n ≤ length mem) then Some (take n (drop off mem)) else None.

(** An unsigned integer of [n] bytes at [off]. *)
Definition peek (mem : list Z) (off n : nat) : option Z := le_read <$> read_bytes mem off n.

Definition size_t (z : Z) : Z := (z mod 2 ^ 64)%Z.

(** [RTA_ALIGN] and [NLMSG_ALIGN]: round up to a multiple of four. *)
Definition ALIGN (l : Z) : Z := (4 * ((l + 3) / 4))%Z.

(** ** Attributes *)

(** The loop of [parse_rtattr]: [RTA_OK] reads the header only when at least
    four bytes are left; [RTA_NEXT] subtracts the padded length. *)
Fixpoint parse_rtattr_loop (fuel : nat) (mem : list Z) (rta : nat) (rta_len max_attrs : Z)
    (attrs : gmap Z nat) : option (gmap Z nat) :=
  match fuel with
  | 0 => None
  | S fuel =>
      if (rta_len <? 4)%Z then Some attrs else
      l ← peek mem rta 2;
      if ((l <? 4) || (rta_len <? l))%Z then Some attrs else
      t ← peek mem (rta + 2) 2;
      if (t <? max_attrs)%Z then
        parse_rtattr_loop fuel mem (rta + Z.to_nat (ALIGN l)) (size_t (rta_len - ALIGN l)) max_attrs
          (<[t := rta]> attrs)
      else None
  end.

Definition parse_rtattr (mem : list Z) (buf : nat) (buflen : Z) (attrs : gmap Z nat) (max_attrs : Z) :
    option (gmap Z nat) :=
  parse_rtattr_loop (S (length mem)) mem buf buflen max_attrs attrs.

Definition MAX_ATTRS : Z := 50000.

(** [rta_array(rta_head, rta_len)]: a table of null pointers, then the walk. *)
Definition rta_array (mem : list Z) (rta_head : nat) (rta_len : Z) : option (gmap Z nat) :=
  parse_rtattr mem rta_head rta_len ∅ MAX_ATTRS.

(** [rta_len - sizeof(struct rtattr)] *)
Definition rta_payload (mem : list Z) (rta : nat) : option Z :=
  l ← peek mem rta 2; Some (size_t (l - 4)).

(** [rta + 1] *)
Definition rta_readptr (rta : nat) : nat := rta + 4.

(** [exit(1)] when the payload is longer than the integer; a shorter one is
    read all the same. *)
Definition rta_read (n : nat) (mem : list Z) (attr : nat) : option Z :=
  l ← rta_payload mem attr;
  if (Z.of_nat n <? l)%Z then None else peek mem (rta_readptr attr) n.

Definition rta_read8 := rta_read 1.
Definition rta_read16 := rta_read 2.
Definition rta_read32 := rta_read 4.
Definition rta_read64 := rta_read 8.

(** ** The cache of links

    A cached link is the copy of a message from its [ifinfomsg] on. *)
Abbreviation netlink_cache := (list (list Z)).

(** [ifi->ifi_index] of a link message. *)
Definition ifi_index (link : list Z) : option Z := peek link 4 4.

Fixpoint update_loop (links : netlink_cache) (index : Z) (ifm : list Z) : option netlink_cache :=
  match links with
  | [] => Some []
  | l :: links =>
      i ← ifi_index l;
      rest ← update_loop links index ifm;
      Some ((if decide (i = index) then ifm else l) :: rest)
  end.

(** [ifm] is the message in memory, of which [rta_len] bytes are copied. *)
Definition netlink_cache_update_link (links : netlink_cache) (ifm : list Z) (rta_len : Z) :
    option netlink_cache :=
  copy ← read_bytes ifm 0 (Z.to_nat rta_len);
  index ← ifi_index ifm;
  links ← update_loop links index copy;
  Some (links ++ [copy]).

(** The index is a [uint16_t] here. *)
Fixpoint netlink_cache_get_link (links : netlink_cache) (index : Z) : option (option (list Z)) :=
  match links with
  | [] => Some None
  | l :: links =>
      i ← ifi_index l;
      if decide (i = u16 index) then Some (Some l) else netlink_cache_get_link links index
  end.

Definition netlink_cachelen_get_link (links : netlink_cache) (index : Z) : option Z :=
  r ← netlink_cache_get_link links index;
  Some match r with Some l => Z.of_nat (length l) | None => 0%Z end.

(** ** Messages of one datagram *)

Definition NLMSGHDR_SIZE : Z := 16.
Definition nlmsg_len (mem : list Z) : option Z := peek mem 0 4.
Definition nlmsg_type (mem : list Z) : option Z := peek mem 4 2.

(** [IFA_PAYLOAD]: the length less the header and an [ifaddrmsg]. *)
Definition IFA_PAYLOAD (mem : list Z) : option Z := l ← nlmsg_len mem; Some (size_t (l - 24)).

Definition RTM_NEWLINK : Z := 16.
Definition RTM_DELLINK : Z := 17.
Definition RTM_NEWADDR : Z := 20.
Definition RTM_DELADDR : Z := 21.
Definition RTM_NEWROUTE : Z := 24.
Definition RTM_DELROUTE : Z := 25.
Definition RTM_NEWNEIGH : Z := 28.
Definition RTM_DELNEIGH : Z := 29.
Definition NLMSG_ERROR : Z := 2.
Definition NLMSG_DONE : Z := 3.

(** The cache's callback. A negative result ends the listening. *)
Definition cache_callback (links : netlink_cache) (n : list Z) : option (Z * netlink_cache) :=
  type ← nlmsg_type n;
  if decide (type = NLMSG_DONE) then Some ((-1)%Z, links)
  else if decide (type = RTM_NEWLINK ∨ type = RTM_DELLINK) then
    ifa_payload_len ← IFA_PAYLOAD n;
    links ← netlink_cache_update_link links (drop 16 n) ifa_payload_len;
    Some (0%Z, links)
  else Some (0%Z, links).

Section listen.
Context {S : Type} (handler : S → list Z → option (Z * S)).

(** Why the walk over a datagram ended: the handler or a final message ended
    the listening, or the datagram is used up and the next one is awaited. *)
Inductive outcome := Returned (ret : Z) | Next.

(** [for (h = buf; size_t(status) >= sizeof(h); )]: a negative [status]
    compares as a huge number. [until_done] is [netlink_listen_until_done];
    [trunc] is the flag [MSG_TRUNC] of the datagram; what is left over ends the
    process. *)
Fixpoint netlink_walk (until_done trunc : bool) (fuel : nat) (buf : list Z) (status : Z) (s : S) :
    option (outcome * S) :=
  match fuel with
  | 0 => None
  | Datatypes.S fuel =>
      if (size_t status <? NLMSGHDR_SIZE)%Z then
        if trunc then Some (Next, s) else if decide (status = 0)%Z then Some (Next, s) else None
      else
        type ← nlmsg_type buf;
        if until_done && bool_decide (type = NLMSG_ERROR ∨ type = NLMSG_DONE) then Some (Returned 0, s)
        else
          len ← nlmsg_len buf;
          '(err, s) ← handler s buf;
          if (err <? 0)%Z then Some (Returned err, s)
          else netlink_walk until_done trunc fuel (drop (Z.to_nat (ALIGN len)) buf) (status - ALIGN len) s
  end.
End listen.

(** [netlink_listen] on one datagram of [status] bytes in the buffer. *)
Definition netlink_listen {S} (handler : S → list Z → option (Z * S)) (trunc : bool) (buf : list Z) (status : Z)
    (s : S) : option (outcome * S) :=
  netlink_walk handler false trunc (Datatypes.S (length buf)) buf status s.

Definition netlink_listen_until_done {S} (handler : S → list Z → option (Z * S)) (trunc : bool) (buf : list Z)
    (status : Z) (s : S) : option (outcome * S) :=
  netlink_walk handler true trunc (Datatypes.S (length buf)) buf status s.

(** ** Reading *)

Lemma read_bytes_app pre x post : read_bytes (pre ++ x ++ post) (length pre) (length x) = Some x.
Proof.
  unfold read_bytes. rewrite decide_True by (rewrite !length_app; lia).
  by rewrite drop_app_length, take_app_length.
Qed.

Lemma read_bytes_at mem pre x post off n : mem = pre ++ x ++ post → off = length pre → n = length x →
  read_bytes mem off n = Some x.
Proof. intros -> -> ->. apply read_bytes_app. Qed.

Lemma peek_le mem pre w z post off n : mem = pre ++ le_write w z ++ post → off = length pre → n = w →
  (0 ≤ z < 2 ^ (8 * Z.of_nat w))%Z → peek mem off n = Some z.
Proof.
  intros E Ho -> Hz. unfold peek. rewrite (read_bytes_at mem pre (le_write w z) post); [|done..|].
  - simpl. by rewrite le_read_write_small.
  - by rewrite le_write_length.
Qed.

Lemma ALIGN_bounds l : (l ≤ ALIGN l < l + 4)%Z.
Proof. unfold ALIGN. pose proof (Z_div_mod_eq_full (l + 3) 4). pose proof (Z.mod_pos_bound (l + 3) 4). lia. Qed.

Lemma size_t_small z : (0 ≤ z < 2 ^ 64)%Z → size_t z = z.
Proof. apply Z.mod_small. Qed.

(** ** The walk ends: the fuel is enough *)

Lemma peek_Some mem off n z : peek mem off n = Some z → off + n ≤ length mem.
Proof. unfold peek, read_bytes. case_decide; [done|]. by intros [=]. Qed.

Lemma parse_fuel f1 f2 mem rta len max attrs : length mem < rta + f1 → length mem < rta + f2 →
  parse_rtattr_loop f1 mem rta len max attrs = parse_rtattr_loop f2 mem rta len max attrs ∨
  (f1 = 0 ∨ f2 = 0).
Proof.
  revert f2 rta len attrs. induction f1 as [|f1 IH]; intros f2 rta len attrs H1 H2; [by auto|].
  destruct f2 as [|f2]; [by auto|]. left. cbn [parse_rtattr_loop].
  destruct (len <? 4)%Z; [done|]. destruct (peek mem rta 2) as [l|] eqn:El; [|done]. simpl.
  destruct (l <? 4)%Z eqn:E4; [done|]. simpl. destruct (len <? l)%Z; [done|].
  destruct (peek mem (rta + 2) 2) as [t|]; [|done]. simpl. destruct (t <? max)%Z; [|done].
  apply peek_Some in El. pose proof (ALIGN_bounds l). apply Z.ltb_ge in E4.
  destruct (IH f2 (rta + Z.to_nat (ALIGN l)) (size_t (len - ALIGN l)) (<[t:=rta]> attrs)) as [|[->| ->]]; try lia.
  done.
Qed.

(** ** Encoding *)

(** An attribute as the kernel lays it out: header, payload, padding. *)
Definition pad (n : nat) : list Z := replicate (Z.to_nat (ALIGN (Z.of_nat n)) - n) 0%Z.

Definition attr_bytes (a : Z * list Z) : list Z :=
  le_write 2 (Z.of_nat (4 + length a.2)) ++ le_write 2 a.1 ++ a.2 ++ pad (length a.2).

Definition encode (l : list (Z * list Z)) : list Z := concat (attr_bytes <$> l).

Definition attr_ok (a : Z * list Z) : Prop :=
  (0 ≤ a.1 < MAX_ATTRS)%Z ∧ (Z.of_nat (4 + length a.2) < 2 ^ 16)%Z.

#[export] Instance attr_ok_dec a : Decision (attr_ok a).
Proof. unfold attr_ok. apply _. Defined.

(** The payload of the last attribute of a type. *)
Fixpoint last_attr (l : list (Z * list Z)) (t : Z) : option (list Z) :=
  match l with
  | [] => None
  | a :: l =>
      match last_attr l t with
      | Some p => Some p
      | None => if decide (a.1 = t) then Some a.2 else None
      end
  end.

(** A pointer that designates an attribute with payload [p]. *)
Definition attr_at (mem : list Z) (off : nat) (p : list Z) : Prop :=
  peek mem off 2 = Some (Z.of_nat (4 + length p)) ∧ read_bytes mem (rta_readptr off) (length p) = Some p.

Lemma attr_bytes_length a : Z.of_nat (length (attr_bytes a)) = ALIGN (Z.of_nat (4 + length a.2)).
Proof.
  unfold attr_bytes, pad. rewrite !length_app, !le_write_length, length_replicate.
  pose proof (ALIGN_bounds (Z.of_nat (length a.2))).
  replace (ALIGN (Z.of_nat (4 + length a.2))) with (4 + ALIGN (Z.of_nat (length a.2)))%Z; [lia|].
  unfold ALIGN. replace (Z.of_nat (4 + length a.2) + 3)%Z with (Z.of_nat (length a.2) + 3 + 1 * 4)%Z by lia.
  rewrite Z.div_add by lia. lia.
Qed.

Lemma parse_attr fuel pre a post len attrs mem : attr_ok a → mem = pre ++ attr_bytes a ++ post →
  (Z.of_nat (length (attr_bytes a)) ≤ len < 2 ^ 64)%Z →
  parse_rtattr_loop (S fuel) mem (length pre) len MAX_ATTRS attrs =
  parse_rtattr_loop fuel mem (length (pre ++ attr_bytes a)) (len - Z.of_nat (length (attr_bytes a))) MAX_ATTRS
    (<[a.1 := length pre]> attrs) ∧ attr_at mem (length pre) a.2.
Proof.
  intros [Ht Hl] -> Hlen. pose proof (attr_bytes_length a) as La.
  pose proof (ALIGN_bounds (Z.of_nat (4 + length a.2))) as HA.
  assert (peek (pre ++ attr_bytes a ++ post) (length pre) 2 = Some (Z.of_nat (4 + length a.2))) as P1.
  { apply (peek_le _ pre 2 _ (le_write 2 a.1 ++ a.2 ++ pad (length a.2) ++ post));
      [unfold attr_bytes; by rewrite <- !app_assoc|reflexivity..|]. change (2 ^ (8 * Z.of_nat 2))%Z with (2 ^ 16)%Z. lia. }
  assert (peek (pre ++ attr_bytes a ++ post) (length pre + 2) 2 = Some a.1) as P2.
  { eapply (peek_le _ (pre ++ le_write 2 (Z.of_nat (4 + length a.2)))); [unfold attr_bytes; by rewrite <- !app_assoc| |reflexivity|].
    - by rewrite length_app, le_write_length.
    - change (2 ^ (8 * Z.of_nat 2))%Z with 65536%Z. unfold MAX_ATTRS in Ht. lia. }
  split.
  - cbn [parse_rtattr_loop]. rewrite P1, P2. obind.
    destruct (Z.ltb_spec len 4); [lia|].
    destruct (Z.ltb_spec (Z.of_nat (4 + length a.2)) 4); [lia|].
    destruct (Z.ltb_spec len (Z.of_nat (4 + length a.2))); [lia|]. cbn [orb].
    destruct (Z.ltb_spec a.1 MAX_ATTRS); [|lia]. rewrite <- La, size_t_small by lia.
    f_equal. rewrite length_app. lia.
  - split; [done|]. unfold rta_readptr. eapply (read_bytes_at _ (pre ++ le_write 2 (Z.of_nat (4 + length a.2)) ++ le_write 2 a.1) a.2);
      [unfold attr_bytes; by rewrite <- !app_assoc| |reflexivity]. rewrite !length_app, !le_write_length. lia.
Qed.

(** Where the attributes of [l] go. *)
Fixpoint placed (off : nat) (l : list (Z * list Z)) (attrs : gmap Z nat) : gmap Z nat :=
  match l with
  | [] => attrs
  | a :: l => placed (off + length (attr_bytes a)) l (<[a.1 := off]> attrs)
  end.

Lemma parse_attrs fuel pre l post len attrs mem : Forall attr_ok l → mem = pre ++ encode l ++ post →
  (Z.of_nat (length (encode l)) ≤ len < 2 ^ 64)%Z →
  parse_rtattr_loop (length l + fuel) mem (length pre) len MAX_ATTRS attrs =
  parse_rtattr_loop fuel mem (length (pre ++ encode l)) (len - Z.of_nat (length (encode l))) MAX_ATTRS
    (placed (length pre) l attrs).
Proof.
  intros Hl. revert pre len attrs. induction Hl as [|a l Ha Hl IH]; intros pre len attrs -> Hlen.
  { cbn [length Nat.add placed encode fmap list_fmap concat]. rewrite app_nil_r. f_equal. cbn. lia. }
  assert (encode (a :: l) = attr_bytes a ++ encode l) as E by done. rewrite E in *.
  rewrite length_app in Hlen. cbn [length Nat.add].
  destruct (parse_attr (length l + fuel) pre a (encode l ++ post) len attrs
    (pre ++ (attr_bytes a ++ encode l) ++ post) Ha) as [-> _]; [by rewrite <- app_assoc|lia|].
  rewrite (IH (pre ++ attr_bytes a)); [|by rewrite <- !app_assoc|lia].
  cbn [placed]. rewrite !length_app. f_equal; [lia|lia].
Qed.

Lemma placed_spec l : ∀ pre post attrs mem t, Forall attr_ok l → mem = pre ++ encode l ++ post →
  match last_attr l t with
  | Some p => ∃ o, placed (length pre) l attrs !! t = Some o ∧ attr_at mem o p
  | None => placed (length pre) l attrs !! t = attrs !! t
  end.
Proof.
  induction l as [|a l IH]; intros pre post attrs mem t Hl ->; [done|].
  apply Forall_cons in Hl as [Ha Hl].
  assert (pre ++ encode (a :: l) ++ post = (pre ++ attr_bytes a) ++ encode l ++ post) as E
    by (unfold encode; cbn; by rewrite <- !app_assoc).
  specialize (IH (pre ++ attr_bytes a) post (<[a.1:=length pre]> attrs) _ t Hl E).
  cbn [last_attr placed]. rewrite length_app in IH.
  destruct (last_attr l t) as [p|]; [done|]. rewrite IH. case_decide as Ht; subst.
  - exists (length pre). split; [by rewrite lookup_insert_eq|]. rewrite E, <- app_assoc.
    destruct (parse_attr 0 pre a (encode l ++ post) (Z.of_nat (length (attr_bytes a))) ∅ _ Ha eq_refl) as [_ H]; [|exact H].
    pose proof (attr_bytes_length a). pose proof (ALIGN_bounds (Z.of_nat (4 + length a.2))). destruct Ha. lia.
  - by rewrite lookup_insert_ne.
Qed.

Lemma encode_length l : length l * 4 ≤ length (encode l).
Proof.
  induction l as [|a l IH]; [done|]. unfold encode in *. cbn. rewrite length_app.
  pose proof (attr_bytes_length a). pose proof (ALIGN_bounds (Z.of_nat (4 + length a.2))). lia.
Qed.

(** The walk stops at [post]: fewer than four bytes are left, or the next
    header is none that fits. *)
Definition stops (left : Z) (post : list Z) : bool :=
  ((left <? 4) || match peek post 0 2 with Some l => (l <? 4) || (left <? l) | None => false end)%Z.

Lemma peek_app pre post off n : peek (pre ++ post) (length pre + off) n = peek post off n.
Proof.
  unfold peek, read_bytes. rewrite length_app. rewrite drop_app_add. f_equal.
  repeat case_decide; [done|lia|lia|done].
Qed.

(** Parsing [l] inside a larger buffer, with [left] bytes more than [l] has. *)
Lemma rta_array_encode pre l post (left : Z) : Forall attr_ok l → stops left post = true → (0 ≤ left)%Z →
  (Z.of_nat (length (encode l)) + left < 2 ^ 64)%Z →
  rta_array (pre ++ encode l ++ post) (length pre) (Z.of_nat (length (encode l)) + left) =
    Some (placed (length pre) l ∅).
Proof.
  intros Hl Hs Hleft Hbound. unfold rta_array, parse_rtattr. pose proof (encode_length l) as HL.
  replace (S (length (pre ++ encode l ++ post))) with
    (length l + S (length (pre ++ encode l ++ post) - length l)) by (rewrite !length_app; lia).
  rewrite (parse_attrs _ pre l post) by (done || lia).
  replace (Z.of_nat (length (encode l)) + left - Z.of_nat (length (encode l)))%Z with left by lia.
  cbn [parse_rtattr_loop]. unfold stops in Hs. destruct (left <? 4)%Z; [done|]. cbn [orb] in Hs.
  rewrite app_assoc, <- (Nat.add_0_r (length (pre ++ encode l))), peek_app.
  destruct (peek post 0 2) as [z|]; [|done]. obind. by rewrite Hs.
Qed.

(** C14 Reading back what was laid out: parsing a padded attribute list gives
    a table in which every type points to the last attribute of that type, with
    its length and payload, and every other entry is null. *)
Theorem rtattr_roundtrip (pre post : list Z) (l : list (Z * list Z)) :
  Forall attr_ok l → (Z.of_nat (length (encode l)) < 2 ^ 64)%Z →
  ∃ m, rta_array (pre ++ encode l ++ post) (length pre) (Z.of_nat (length (encode l))) = Some m
    ∧ ∀ t, match last_attr l t with
           | Some p => ∃ o, m !! t = Some o ∧ attr_at (pre ++ encode l ++ post) o p
           | None => m !! t = None
           end.
Proof.
  intros Hl Hb. exists (placed (length pre) l ∅). split.
  - rewrite <- (Z.add_0_r (Z.of_nat _)). apply rta_array_encode; [done|done|lia|lia].
  - intros t. pose proof (placed_spec l pre post ∅ _ t Hl eq_refl) as H.
    destruct (last_attr l t); [done|]. by rewrite H, lookup_empty.
Qed.

Lemma rtattr_roundtrip_witness :
  let l := [(1, [10; 0; 0; 1]); (3, [101; 116; 104; 48; 0]); (1, [10; 0; 0; 2])]%Z in
  Forall attr_ok l ∧ ∃ m o, rta_array ([7; 7]%Z ++ encode l ++ [9]%Z) 2 (Z.of_nat (length (encode l))) = Some m
    ∧ m !! 1%Z = Some o ∧ read_bytes ([7; 7]%Z ++ encode l ++ [9]%Z) (rta_readptr o) 4 = Some [10; 0; 0; 2]%Z.
Proof.
  set (l := [(1, [10; 0; 0; 1]); (3, [101; 116; 104; 48; 0]); (1, [10; 0; 0; 2])]%Z). cbv zeta.
  assert (Forall attr_ok l) as Hl by (by apply (bool_decide_unpack _); vm_compute).
  split; [exact Hl|]. destruct (rtattr_roundtrip [7; 7]%Z [9]%Z l Hl) as (m & E & Hm); [reflexivity|].
  destruct (Hm 1%Z) as (o & Ho & _ & Hp). exists m, o. split; [exact E|]. split; [exact Ho|exact Hp].
Defined.

(** An attribute at the end of the buffer that is not padded to a multiple of
    four: [RTA_NEXT] subtracts more than is left, the unsigned length wraps to
    almost 2^64 and the walk leaves the buffer. *)
Lemma parse_rtattr_unpadded pre t p : (0 ≤ t < MAX_ATTRS)%Z → (Z.of_nat (4 + length p) < 2 ^ 16)%Z →
  (Z.of_nat (length p) mod 4 ≠ 0)%Z →
  let a := le_write 2 (Z.of_nat (4 + length p)) ++ le_write 2 t ++ p in
  rta_array (pre ++ a) (length pre) (Z.of_nat (length a)) = None.
Proof.
  intros Ht Hp Hm a. pose proof (ALIGN_bounds (Z.of_nat (4 + length p))) as HA.
  assert (length a = 4 + length p) as La by (unfold a; rewrite !length_app, !le_write_length; lia).
  assert (Z.of_nat (4 + length p) < ALIGN (Z.of_nat (4 + length p)))%Z as Hlt.
  { unfold ALIGN in *. pose proof (Z_div_mod_eq_full (Z.of_nat (4 + length p) + 3) 4).
    pose proof (Z_div_mod_eq_full (Z.of_nat (length p)) 4). pose proof (Z.mod_pos_bound (Z.of_nat (length p)) 4). lia. }
  assert (peek (pre ++ a) (length pre) 2 = Some (Z.of_nat (4 + length p))) as P1.
  { apply (peek_le _ pre 2 _ (le_write 2 t ++ p)); [reflexivity..|].
    change (2 ^ (8 * Z.of_nat 2))%Z with (2 ^ 16)%Z. lia. }
  assert (peek (pre ++ a) (length pre + 2) 2 = Some t) as P2.
  { apply (peek_le _ (pre ++ le_write 2 (Z.of_nat (4 + length p))) 2 _ p); [by rewrite <- app_assoc| |reflexivity|].
    - by rewrite length_app, le_write_length.
    - change (2 ^ (8 * Z.of_nat 2))%Z with 65536%Z. unfold MAX_ATTRS in Ht. lia. }
  unfold rta_array, parse_rtattr. rewrite (length_app pre), La.
  replace (S (length pre + (4 + length p))) with (S (S (length pre + (3 + length p)))) by lia.
  cbn [parse_rtattr_loop]. rewrite P1, P2. obind.
  destruct (Z.ltb_spec (Z.of_nat (4 + length p)) 4); [lia|].
  rewrite Z.ltb_irrefl. cbn [orb]. destruct (Z.ltb_spec t MAX_ATTRS); [|lia].
  assert (size_t (Z.of_nat (4 + length p) - ALIGN (Z.of_nat (4 + length p))) =
          2 ^ 64 + (Z.of_nat (4 + length p) - ALIGN (Z.of_nat (4 + length p))))%Z as ->.
  { unfold size_t. symmetry. apply (Z.mod_unique _ _ (-1)); lia. }
  match goal with |- context [(?x <? 4)%Z] => destruct (Z.ltb_spec x 4); [lia|] end.
  destruct (peek _ (length pre + Z.to_nat _) 2) eqn:E; [|done]. apply peek_Some in E.
  rewrite length_app, La in E. lia.
Qed.

(** ** The cache answers with the newest message *)

Definition cached (links : netlink_cache) : Prop := Forall (λ l, is_Some (ifi_index l)) links.

Lemma update_loop_spec links i c : cached links → ifi_index c = Some i →
  ∃ links', update_loop links i c = Some links' ∧ cached links' ∧ length links' = length links
    ∧ (∀ j, u16 j = i → netlink_cache_get_link (links' ++ [c]) j = Some (Some c))
    ∧ (∀ j, u16 j ≠ i → netlink_cache_get_link (links' ++ [c]) j = netlink_cache_get_link links j).
Proof.
  intros Hl Hc. induction Hl as [|l links [x Hx] Hl (links' & E & C & L & G1 & G2)]; cbn [update_loop].
  - exists []. split; [done|]. split; [constructor|]. split; [done|]. cbn. rewrite Hc.
    obind. split; intros j Hj; by case_decide.
  - rewrite Hx. obind. rewrite E. obind.
    eexists. split; [done|]. split; [constructor; [by case_decide; eexists|done]|].
    split; [cbn; by rewrite L|]. cbn [app netlink_cache_get_link]. split; intros j Hj.
    + destruct (decide (x = i)) as [->|Hne].
      * rewrite Hc. obind. by rewrite decide_True.
      * rewrite Hx. obind. rewrite decide_False by congruence. by apply G1.
    + rewrite Hx. obind. destruct (decide (x = i)) as [->|Hne].
      * rewrite Hc. obind. rewrite !decide_False by congruence. by apply G2.
      * rewrite Hx. obind. case_decide; [done|by apply G2].
Qed.

(** The link cache: after an update, looking up the message's index gives
    the bytes that were just copied and every other index gives what it gave
    before.  The cache grows by one entry on every update, also when the link
    was cached already. *)
Theorem netlink_cache_update_get (links : netlink_cache) (ifm : list Z) (len i : Z) :
  cached links → ifi_index ifm = Some i → (8 ≤ len ≤ Z.of_nat (length ifm))%Z →
  ∃ links', netlink_cache_update_link links ifm len = Some links' ∧ cached links'
    ∧ length links' = S (length links)
    ∧ (∀ j, u16 j = i → netlink_cache_get_link links' j = Some (Some (take (Z.to_nat len) ifm)))
    ∧ (∀ j, u16 j ≠ i → netlink_cache_get_link links' j = netlink_cache_get_link links j).
Proof.
  intros Hl Hi Hlen. unfold netlink_cache_update_link, read_bytes.
  rewrite decide_True by lia. rewrite drop_0, Hi. obind.
  assert (ifi_index (take (Z.to_nat len) ifm) = Some i) as Hc.
  { rewrite <- Hi. unfold ifi_index, peek, read_bytes. rewrite !length_take.
    rewrite !decide_True by lia. do 2 f_equal.
    rewrite skipn_firstn_comm, take_take. f_equal. lia. }
  destruct (update_loop_spec links i _ Hl Hc) as (links' & -> & C & L & G1 & G2). obind.
  eexists. split; [done|]. split; [apply Forall_app; split; [done|]; constructor; [by eexists|constructor]|].
  split; [rewrite length_app, L; cbn; lia|]. done.
Qed.

(** A link message without attributes. *)
Definition link_bytes (index flags change : Z) : list Z :=
  [0; 0; 1; 0]%Z ++ le_write 4 index ++ le_write 4 flags ++ le_write 4 change.

Lemma netlink_cache_update_get_witness :
  let links := [link_bytes 2 0 0; link_bytes 3 0 0] in
  cached links ∧ ∃ links', netlink_cache_update_link links (link_bytes 3 1 1) 16 = Some links'
    ∧ length links' = 3 ∧ netlink_cache_get_link links' 3 = Some (Some (link_bytes 3 1 1)).
Proof.
  cbv zeta. assert (cached [link_bytes 2 0 0; link_bytes 3 0 0]) as Hl.
  { constructor; [by eexists|]. constructor; [by eexists|]. constructor. }
  split; [exact Hl|].
  destruct (netlink_cache_update_get _ (link_bytes 3 1 1) 16 3 Hl) as (links' & E & _ & L & G & _);
    [reflexivity|vm_compute; split; discriminate|].
  exists links'. split; [exact E|]. split; [exact L|]. exact (G 3%Z eq_refl).
Defined.

(** ** The walk over a datagram *)

Definition msg_ok (m : list Z) : Prop :=
  nlmsg_len m = Some (Z.of_nat (length m)) ∧ 16 ≤ length m ∧ ALIGN (Z.of_nat (length m)) = Z.of_nat (length m).

#[export] Instance msg_ok_dec m : Decision (msg_ok m).
Proof. unfold msg_ok. apply _. Defined.

Section walk.
Context {S : Type} (handler : S → list Z → option (Z * S)).

(** Every message of [ms] handled in order. *)
Fixpoint handle_all (ms : list (list Z)) (post : list Z) (s : S) : option S :=
  match ms with
  | [] => Some s
  | m :: ms => '(_, s) ← handler s (m ++ concat ms ++ post); handle_all ms post s
  end.

Lemma peek_prefix m post off n z : peek m off n = Some z → peek (m ++ post) off n = Some z.
Proof.
  intros H. pose proof (peek_Some _ _ _ _ H). rewrite <- H. unfold peek, read_bytes.
  rewrite length_app, !decide_True by lia. do 2 f_equal. rewrite drop_app_le by lia.
  apply take_app_le. rewrite length_drop. lia.
Qed.

Lemma walk_spec fuel trunc ms post s : Forall msg_ok ms → (∀ s b r s', handler s b = Some (r, s') → (0 ≤ r)%Z) →
  length (concat ms) < fuel → (Z.of_nat (length (concat ms)) < 2 ^ 31)%Z →
  netlink_walk handler false trunc fuel (concat ms ++ post) (Z.of_nat (length (concat ms))) s =
  s' ← handle_all ms post s; Some (Next, s').
Proof.
  intros Hms Hh. revert ms s Hms. induction fuel as [|fuel IH]; intros ms s Hms Hf Hb; [lia|].
  destruct ms as [|m ms]; cbn [netlink_walk concat handle_all].
  { cbn. by destruct trunc. }
  apply Forall_cons in Hms as [(Hlen & H16 & HA) Hms]. cbn [concat] in *. rewrite length_app in *.
  rewrite size_t_small by lia. destruct (Z.ltb_spec (Z.of_nat (length m + length (concat ms))) NLMSGHDR_SIZE) as [Hlt|_];
    [unfold NLMSGHDR_SIZE in Hlt; lia|].
  rewrite <- app_assoc. unfold nlmsg_len, nlmsg_type in *.
  rewrite (peek_prefix m _ 0 4 _ Hlen).
  assert (is_Some (peek m 4 2)) as [t Ht] by (unfold peek, read_bytes; rewrite decide_True by lia; by eexists).
  rewrite (peek_prefix m _ 4 2 t Ht). cbn [mbind option_bind andb].
  destruct (handler s _) as [[r s1]|] eqn:E; obind; [|done].
  apply Hh in E. destruct (Z.ltb_spec r 0); [lia|]. rewrite HA, Nat2Z.id, drop_app_length.
  replace (Z.of_nat (length m + length (concat ms)) - Z.of_nat (length m))%Z with (Z.of_nat (length (concat ms))) by lia.
  apply IH; [done|lia|lia].
Qed.
End walk.

(** C15 Listening hands every message of a datagram to the handler exactly
    once and in order, and then waits for the next datagram. *)
Theorem netlink_listen_handles_all {S} (handler : S → list Z → option (Z * S)) (ms : list (list Z)) (post : list Z) (s : S) :
  Forall msg_ok ms → (∀ s b r s', handler s b = Some (r, s') → (0 ≤ r)%Z) →
  (Z.of_nat (length (concat ms)) < 2 ^ 31)%Z →
  netlink_listen handler false (concat ms ++ post) (Z.of_nat (length (concat ms))) s =
  s' ← handle_all handler ms post s; Some (Next, s').
Proof. intros. apply walk_spec; [done|done|rewrite length_app; lia|done]. Qed.

Lemma netlink_listen_handles_all_witness :
  let m t := le_write 4 16 ++ le_write 2 t ++ replicate 10 0%Z in
  netlink_listen (λ s b, t ← nlmsg_type b; Some (0%Z, s ++ [t])) false (concat [m 16%Z; m 20%Z] ++ []) 32 [] =
  Some (Next, [16; 20]%Z).
Proof.
  cbv zeta. set (m t := le_write 4 16 ++ le_write 2 t ++ replicate 10 0%Z).
  refine (eq_trans (netlink_listen_handles_all (λ s b, t ← nlmsg_type b; Some (0%Z, s ++ [t]))
    [m 16%Z; m 20%Z] [] [] _ _ _) _); [by apply (bool_decide_unpack _); vm_compute| |reflexivity|reflexivity].
  intros s b r s'. destruct (nlmsg_type b); [|discriminate]. intros [= <- <-]. lia.
Defined.
