(* ===== verification/Sync.v ===== *)
(** * routerd's synchronisation of kernel events into VPP: src/netlink.cc

    Every netlink message of the kernel is dispatched by its type.  A link,
    address or route event of an interface that is registered with routerd is
    translated into one VPP API exchange of [VppApi]: connect, send, wait for
    the answer, disconnect.  The interface table is filled by the command
    [enable cplane-netdev sync] and only appended to.

    The handlers get the receive buffer from the message on, as in [Netlink].
    Debug output is off. *)
From Stdlib Require Import Ascii String.
From stdpp Require Import prelude gmap list.
From S2P Require Import Prelude CString Prefix PrefixText VppApi VppCli Netlink.
Set Default Goal Selector "!".

Record routerd_interface := mkInterface {
  kern_ifindex : Z; vpp_ifindex : Z; kern_ifname : cstring; vpp_ifname : cstring
}.

Definition add_interface (interfaces : list routerd_interface) (k : Z) (k_name : cstring) (v : Z) (v_name : cstring) :
    list routerd_interface := interfaces ++ [mkInterface k v k_name v_name].

(** The first entry of the kernel index, 0 when there is none. *)
Fixpoint ifindex_kernel2vpp (interfaces : list routerd_interface) (k_idx : Z) : Z :=
  match interfaces with
  | [] => 0
  | i :: interfaces =>
      if decide (k_idx = kern_ifindex i) then vpp_ifindex i else ifindex_kernel2vpp interfaces k_idx
  end.

Record counters := Counters {
  link_new : Z; link_del : Z; addr_new : Z; addr_del : Z;
  route_new : Z; route_del : Z; neigh_new : Z; neigh_del : Z
}.

(** Connect, do [request], report a negative answer and disconnect. *)
Definition exchange (func : string) (failed : Z → cstring) (request : M unit) : M unit :=
  ret ← connect_to_vpp;
  if (ret <? 0)%Z then emit (Printed (no_vpe_in func))
  else
    request;;
    ret ← vpp_waitmsg_retval;
    (if (ret <? 0)%Z then emit (Printed (failed ret)) else mret ());;
    disconnect_from_vpp.

Definition failed_in (func : string) (_ : Z) : cstring := str func ++ str ": failed" ++ crnl.

Definition set_link (vpp_ifindex : Z) (is_up : bool) : M unit :=
  exchange "set_link" (failed_in "set_link")
    (id ← random; set_interface_flag (u16 id) vpp_ifindex is_up).

(** [addr] are the four bytes of the variable whose address is passed on. *)
Definition set_addr (vpp_ifindex : Z) (addr : list Z) (addr_len : Z) (is_add : bool) : M unit :=
  exchange "set_addr" (failed_in "set_addr")
    (id ← random; set_interface_addr (u16 id) vpp_ifindex is_add false addr addr_len).

(** ** Hooks *)

Definition IFF_UP : Z := 1.
Definition IFLA_ADDRESS : Z := 1.
Definition RTA_DST : Z := 1.
Definition RTA_OIF : Z := 4.
Definition RTA_GATEWAY : Z := 5.
Definition RTA_ENCAP_TYPE : Z := 21.
Definition RTA_ENCAP : Z := 22.
Definition LWTUNNEL_ENCAP_SEG6_LOCAL : Z := 7.
Definition SEG6_LOCAL_ACTION : Z := 1.
Definition SEG6_LOCAL_NH4 : Z := 4.

Definition SEG6_LOCAL_ACTION_END_DX4 : Z := 6.

Section hooks.
Context `{Inet} (interfaces : list routerd_interface).
(** [if_indextoname], and the uninitialised variables of the hooks. *)
Context (if_indextoname : Z → option cstring) (route_stack nexthop_stack : vprefix) (sid_stack nh4_stack : list Z).

Definition link_analyze_and_hook (ifi_index ifi_flags ifi_change : Z) : M unit :=
  let affected_flag := Z.land (2 ^ 32 - 1) ifi_change in
  let target_bit := Z.land ifi_flags ifi_change in
  if decide (Z.land affected_flag IFF_UP ≠ 0)%Z then
    let next_is_up := bool_decide (Z.land target_bit affected_flag ≠ 0)%Z in
    let vpp_ifindex := ifindex_kernel2vpp interfaces ifi_index in
    if decide (vpp_ifindex = 0)%Z then mret () else set_link vpp_ifindex next_is_up
  else mret ().

(** The pointer behind a null attribute is not null: it is read. *)
Definition addr_analyze_and_hook (mem : list Z) (rtas : gmap Z nat) (ifa_family ifa_prefixlen ifa_index : Z)
    (is_new : bool) : M unit :=
  if decide (ifa_family = AF_INET) then
    let vpp_ifindex := ifindex_kernel2vpp interfaces ifa_index in
    if decide (vpp_ifindex = 0)%Z then mret ()
    else
      rta ← lift (rtas !! IFLA_ADDRESS);
      addr ← lift (read_bytes mem (rta_readptr rta) 4);
      set_addr vpp_ifindex addr ifa_prefixlen is_new
  else mret ().

(** [inet_ntop] into a zeroed buffer; a family it does not know leaves it empty. *)
Definition inetpton (mem : list Z) (ptr : nat) (afi : Z) : option cstring :=
  if decide (inet_family afi) then inet_ntop afi <$> read_bytes mem ptr (inet_size afi) else Some [].

Definition ifindex2str (ifindex : Z) : cstring := default (str "none") (if_indextoname ifindex).

(** [std::string x; if (rtas->get(t)) x = ...]: empty without the attribute. *)
Definition attr_text (rtas : gmap Z nat) (t : Z) (f : nat → option cstring) : option cstring :=
  match rtas !! t with None => Some [] | Some rta => f rta end.

Definition SEG6_LOCAL_ACTION_to_str2 (act : Z) : cstring :=
  default (str "SEG6_LOCAL_ACTION_UNKNOWN")
    ((str <$> ["unspec "; "end"; "end.x"; "end.t"; "end.dx2"; "end.dx6"; "end.dx4"; "end.dt6"; "end.dt4";
               "end.b6"; "end.b6_encap"; "end.bm"; "end.s"; "end.as"; "end.am"]%string) !! Z.to_nat (u16 act)).

(** The SRv6 part: the texts [act] and [nh4]. The local table [sub] is not
    initialised, so an entry that parsing did not set must not be read. *)
Definition seg6_texts (mem : list Z) (rtas : gmap Z nat) : option (cstring * cstring) :=
  match rtas !! RTA_ENCAP_TYPE with
  | None => Some ([], [])
  | Some encap_rta =>
      encap_type ← rta_read16 mem encap_rta;
      if decide (encap_type = LWTUNNEL_ENCAP_SEG6_LOCAL) then
        encap ← rtas !! RTA_ENCAP;
        l ← rta_payload mem encap;
        sub ← parse_rtattr mem (rta_readptr encap) l ∅ MAX_ATTRS;
        rta ← sub !! SEG6_LOCAL_ACTION;
        num ← rta_read32 mem rta;
        let act := SEG6_LOCAL_ACTION_to_str2 num in
        if decide (num = SEG6_LOCAL_ACTION_END_DX4) then
          rta ← sub !! SEG6_LOCAL_NH4;
          nh4 ← inetpton mem (rta_readptr rta) AF_INET;
          Some (act, nh4)
        else Some (act, [])
      else Some ([], [])
  end.

Definition set_route (route_str nh_str : cstring) (vpp_oif : Z) (is_new : bool) : M unit :=
  exchange "set_route" (failed_in "set_route")
    (emit (Printed (str "set_route: " ++ crnl));;
     route_pref ← lift (parse_prefix_str route_str AF_INET route_stack);
     nexthop_pref ← lift (parse_prefix_str nh_str AF_INET nexthop_stack);
     ip_route_add_del 10 is_new route_pref nexthop_pref vpp_oif).

(** The number the output interface's name starts with is taken for its index. *)
Definition install_srv6 (dst oif nh4 : cstring) : M unit :=
  emit (Printed (str " [install srv6 fib msg] " ++ crnl));;
  emit (Printed (str "  dst: " ++ dst ++ [chr 10; chr 13]));;
  emit (Printed (str "  oif: " ++ oif ++ crnl));;
  emit (Printed (str "  nh4: " ++ nh4 ++ crnl));;
  oif_uint ← lift (atoi oif);
  let sid_addr := default sid_stack (inet_pton AF_INET6 dst) in
  let nh4_addr := default nh4_stack (inet_pton AF_INET nh4) in
  let sw_ifindex := ifindex_kernel2vpp interfaces (u32 oif_uint) in
  exchange "route_analyze_and_hook"
    (λ ret, str "route_analyze_and_hook: failed ret=" ++ dec_signed ret ++ crnl)
    (ip6_route_srv6_end_dx4_add 13 sid_addr nh4_addr sw_ifindex).

Definition route_analyze_and_hook (mem : list Z) (rtas : gmap Z nat) (rtm_family rtm_dst_len : Z) (is_new : bool) :
    M unit :=
  dst ← lift (attr_text rtas RTA_DST (λ rta, inetpton mem (rta_readptr rta) rtm_family));
  oif ← lift (attr_text rtas RTA_OIF (λ rta, ifindex2str <$> rta_read32 mem rta));
  if decide (rtm_family ≠ AF_INET) then
    '(act, nh4) ← lift (seg6_texts mem rtas);
    if decide (dst ≠ [] ∧ oif ≠ [] ∧ nh4 ≠ [] ∧ act ≠ []) then install_srv6 dst oif nh4 else mret ()
  else
    gw ← lift (attr_text rtas RTA_GATEWAY (λ rta, inetpton mem (rta_readptr rta) rtm_family));
    k_index ← lift (match rtas !! RTA_OIF with None => Some 0%Z | Some rta => rta_read32 mem rta end);
    set_route (dst ++ str "/" ++ dec rtm_dst_len) gw (ifindex_kernel2vpp interfaces k_index) is_new.

(** ** Handlers

    [hdr + 1] is at offset 16. An [ifinfomsg] has 16 bytes, an [ifaddrmsg] 8
    and an [rtmsg] 12; all handlers take the attributes' length from
    [IFA_PAYLOAD], the one of [ifaddrmsg]. *)
Definition rtas_at (mem : list Z) (off : nat) : M (gmap Z nat) :=
  len ← lift (IFA_PAYLOAD mem); lift (rta_array mem off len).

Definition monitor_NEWLINK (c : counters) (mem : list Z) : M counters :=
  rtas_at mem 32;;
  index ← lift (peek mem 20 4);
  flags ← lift (peek mem 24 4);
  change ← lift (peek mem 28 4);
  link_analyze_and_hook index flags change;;
  mret (Counters (size_t (link_new c + 1)) (link_del c) (addr_new c) (addr_del c)
          (route_new c) (route_del c) (neigh_new c) (neigh_del c)).

Definition monitor_DELLINK (c : counters) (mem : list Z) : M counters :=
  rtas_at mem 32;;
  mret (Counters (link_new c) (size_t (link_del c + 1)) (addr_new c) (addr_del c)
          (route_new c) (route_del c) (neigh_new c) (neigh_del c)).

Definition monitor_addr (mem : list Z) (is_new : bool) : M unit :=
  rtas ← rtas_at mem 24;
  family ← lift (peek mem 16 1);
  prefixlen ← lift (peek mem 17 1);
  index ← lift (peek mem 20 4);
  addr_analyze_and_hook mem rtas family prefixlen index is_new.

Definition monitor_NEWADDR (c : counters) (mem : list Z) : M counters :=
  monitor_addr mem true;;
  mret (Counters (link_new c) (link_del c) (size_t (addr_new c + 1)) (addr_del c)
          (route_new c) (route_del c) (neigh_new c) (neigh_del c)).

Definition monitor_DELADDR (c : counters) (mem : list Z) : M counters :=
  monitor_addr mem false;;
  mret (Counters (link_new c) (link_del c) (addr_new c) (size_t (addr_del c + 1))
          (route_new c) (route_del c) (neigh_new c) (neigh_del c)).

Definition monitor_route (mem : list Z) (is_new : bool) : M unit :=
  rtas ← rtas_at mem 28;
  family ← lift (peek mem 16 1);
  dst_len ← lift (peek mem 17 1);
  route_analyze_and_hook mem rtas family dst_len is_new.

Definition monitor_NEWROUTE (c : counters) (mem : list Z) : M counters :=
  monitor_route mem true;;
  mret (Counters (link_new c) (link_del c) (addr_new c) (addr_del c)
          (size_t (route_new c + 1)) (route_del c) (neigh_new c) (neigh_del c)).

Definition monitor_DELROUTE (c : counters) (mem : list Z) : M counters :=
  monitor_route mem false;;
  mret (Counters (link_new c) (link_del c) (addr_new c) (addr_del c)
          (route_new c) (size_t (route_del c + 1)) (neigh_new c) (neigh_del c)).

(** An [ndmsg] has 12 bytes. *)
Definition monitor_NEWNEIGH (c : counters) (mem : list Z) : M counters :=
  rtas_at mem 28;;
  mret (Counters (link_new c) (link_del c) (addr_new c) (addr_del c)
          (route_new c) (route_del c) (size_t (neigh_new c + 1)) (neigh_del c)).

Definition monitor_DELNEIGH (c : counters) (mem : list Z) : M counters :=
  rtas_at mem 28;;
  mret (Counters (link_new c) (link_del c) (addr_new c) (addr_del c)
          (route_new c) (route_del c) (neigh_new c) (size_t (neigh_del c + 1))).

Definition monitor (c : counters) (n : list Z) : M counters :=
  type ← lift (nlmsg_type n);
  if decide (type = RTM_NEWLINK) then monitor_NEWLINK c n
  else if decide (type = RTM_DELLINK) then monitor_DELLINK c n
  else if decide (type = RTM_NEWADDR) then monitor_NEWADDR c n
  else if decide (type = RTM_DELADDR) then monitor_DELADDR c n
  else if decide (type = RTM_NEWROUTE) then monitor_NEWROUTE c n
  else if decide (type = RTM_DELROUTE) then monitor_DELROUTE c n
  else if decide (type = RTM_NEWNEIGH) then monitor_NEWNEIGH c n
  else if decide (type = RTM_DELNEIGH) then monitor_DELNEIGH c n
  else mret c.

(** The callback [netlink_listen] calls; it always returns 0. *)
Definition monitor_callback (s : counters * world) (n : list Z) : option (Z * (counters * world)) :=
  '(c, w) ← monitor s.1 n s.2; Some (0%Z, (c, w)).

(** The cached links of registered interfaces are set up or down. [ifi_index]
    is printed as read. *)
Fixpoint sync_loop (i : nat) (links : netlink_cache) : M unit :=
  match links with
  | [] => mret ()
  | link :: links =>
      index ← lift (ifi_index link);
      let vpp_index := ifindex_kernel2vpp interfaces index in
      (if decide (vpp_index = 0)%Z then mret ()
       else
         emit (Printed (str "link[" ++ dec (Z.of_nat i) ++ str "]: vpp" ++ dec vpp_index ++ str " kern" ++
                        dec index ++ crnl));;
         flags ← lift (peek link 8 4);
         set_link vpp_index (bool_decide (Z.land flags IFF_UP ≠ 0)%Z));;
      sync_loop (S i) links
  end.

Definition vpp_sync_with_nlc (nlc : netlink_cache) : M unit := sync_loop 0 nlc.
End hooks.

(** ** Messages as the kernel sends them *)

Definition nl_msg (type : Z) (body : list Z) (attrs : list (Z * list Z)) : list Z :=
  le_write 4 (Z.of_nat (16 + length body + length (encode attrs))) ++ le_write 2 type ++ replicate 10 0%Z ++
  body ++ encode attrs.

(** The message fits its length field, and what follows it in the buffer ends
    the attribute walk, which may run beyond the message. *)
Definition delivered (body : list Z) (attrs : list (Z * list Z)) (post : list Z) : Prop :=
  Forall attr_ok attrs ∧ 8 ≤ length body ∧ (Z.of_nat (16 + length body + length (encode attrs)) < 2 ^ 32)%Z
  ∧ stops (Z.of_nat (length body) - 8) post = true.

#[export] Instance delivered_dec body attrs post : Decision (delivered body attrs post).
Proof. unfold delivered. apply _. Defined.

Definition nl_head (type : Z) (body : list Z) (attrs : list (Z * list Z)) : list Z :=
  le_write 4 (Z.of_nat (16 + length body + length (encode attrs))) ++ le_write 2 type ++ replicate 10 0%Z.

Lemma nl_msg_split type body attrs post :
  nl_msg type body attrs ++ post = nl_head type body attrs ++ body ++ encode attrs ++ post.
Proof. unfold nl_msg, nl_head. by rewrite <- !app_assoc. Qed.

Lemma nl_head_length type body attrs : length (nl_head type body attrs) = 16.
Proof. unfold nl_head. by rewrite !length_app, !le_write_length. Qed.

Section messages.
Context (type : Z) (body : list Z) (attrs : list (Z * list Z)) (post : list Z).
Context (Hdel : delivered body attrs post) (Htype : (0 ≤ type < 2 ^ 16)%Z).
Local Abbreviation mem := (nl_msg type body attrs ++ post).

Lemma msg_type_run : nlmsg_type mem = Some type.
Proof.
  unfold nlmsg_type. apply (peek_le _ (le_write 4 (Z.of_nat (16 + length body + length (encode attrs)))) 2 type
    (replicate 10 0%Z ++ body ++ encode attrs ++ post)); [unfold nl_msg; by rewrite <- !app_assoc| |reflexivity|exact Htype].
  by rewrite le_write_length.
Qed.

Lemma peek_body_run k n : k + n ≤ length body → peek mem (16 + k) n = peek body k n.
Proof.
  intros Hk. rewrite nl_msg_split. rewrite <- (nl_head_length type body attrs), peek_app.
  destruct (peek body k n) as [z|] eqn:E; [by apply peek_prefix|].
  unfold peek, read_bytes in E. by rewrite decide_True in E by lia.
Qed.

Lemma rtas_run w : rtas_at mem (16 + length body) w = Some (placed (16 + length body) attrs ∅, w).
Proof.
  destruct Hdel as (Ha & H8 & Hlen & Hs). unfold rtas_at, IFA_PAYLOAD, nlmsg_len.
  rewrite (peek_le mem [] 4 (Z.of_nat (16 + length body + length (encode attrs)))
    (le_write 2 type ++ replicate 10 0%Z ++ body ++ encode attrs ++ post)); [|unfold nl_msg; by rewrite <- !app_assoc|reflexivity..|].
  2: { change (2 ^ (8 * Z.of_nat 4))%Z with (2 ^ 32)%Z. lia. }
  obind. rewrite size_t_small by lia.
  erewrite bind_run by reflexivity. rewrite nl_msg_split, app_assoc.
  replace (Z.of_nat (16 + length body + length (encode attrs)) - 24)%Z
    with (Z.of_nat (length (encode attrs)) + (Z.of_nat (length body) - 8))%Z by lia.
  replace (16 + length body) with (length (nl_head type body attrs ++ body)) by (by rewrite length_app, nl_head_length).
  rewrite rta_array_encode; [reflexivity|done|done|lia|lia].
Qed.

Lemma attr_run t p : last_attr attrs t = Some p →
  ∃ o, placed (16 + length body) attrs ∅ !! t = Some o ∧ attr_at mem o p.
Proof.
  intros Ht. destruct Hdel as (Ha & _). pose proof (placed_spec attrs (nl_head type body attrs ++ body) post ∅ _ t Ha eq_refl) as P.
  rewrite Ht, length_app, nl_head_length in P. rewrite nl_msg_split, app_assoc. exact P.
Qed.

Lemma attr_missing t : last_attr attrs t = None → placed (16 + length body) attrs ∅ !! t = None.
Proof.
  intros Ht. destruct Hdel as (Ha & _). pose proof (placed_spec attrs (nl_head type body attrs ++ body) post ∅ _ t Ha eq_refl) as P.
  rewrite Ht, length_app, nl_head_length, lookup_empty in P. exact P.
Qed.
End messages.

Lemma rta_read32_run mem o k : attr_at mem o (le_write 4 k) → (0 ≤ k < 2 ^ 32)%Z → rta_read32 mem o = Some k.
Proof.
  intros [H1 H2] Hk. unfold rta_read32, rta_read, rta_payload. rewrite H1. rewrite le_write_length in *.
  obind. change (size_t (Z.of_nat (4 + 4) - 4)) with 4%Z. cbn.
  unfold peek. rewrite H2. cbn [fmap option_fmap option_map]. by rewrite le_read_write_small.
Qed.

(** ** One exchange *)

Definition next_reply (w : world) : option reply := match replies w with r :: _ => r | [] => None end.
Definition retval (r : option reply) : Z := match r with Some mp => to_i32 (htonl (r_retval mp)) | None => -1 end.

(** The messages of a trace, newest first. *)
Definition sent : list event → list msg := omap (λ e, match e with Sent m => Some m | _ => None end).

(** What an exchange prints about the answer. *)
Definition report (failed : Z → cstring) (r : option reply) : list event :=
  if (retval r <? 0)%Z then [Printed (failed (retval r))] else [].

Lemma exchange_run func failed request w idx cs w1 : connects w = Some idx :: cs →
  request (opened idx cs w) = Some ((), w1) →
  ∃ w', exchange func failed request w = Some ((), w')
    ∧ trace w' = Disconnected :: report failed (next_reply w1) ++ trace w1
    ∧ connects w' = connects w1 ∧ msg_table w' = msg_table w1.
Proof.
  intros Hc Hr. unfold exchange. rewrite (bind_run _ _ w _ _ (connect_run w idx cs Hc)).
  change (0 <? 0)%Z with false. cbv iota. rewrite (bind_run _ _ _ _ _ Hr).
  assert (∃ w2, vpp_waitmsg_retval w1 = Some (retval (next_reply w1), w2) ∧ trace w2 = trace w1
    ∧ connects w2 = connects w1 ∧ msg_table w2 = msg_table w1) as (w2 & E & Ht & Hcs & Hm).
  { unfold vpp_waitmsg_retval, next_reply. destruct (replies w1) as [|[mp|] rs] eqn:Er;
      eexists; (split; [unfold mbind, M_bind, svm_queue_sub; rewrite Er; reflexivity|done]). }
  rewrite (bind_run _ _ _ _ _ E). unfold report. destruct (_ <? 0)%Z; eexists; (split; [reflexivity|]);
    cbn; by rewrite Ht, Hcs, Hm.
Qed.

Lemma random_run w : ∃ i w', random w = Some (i, w') ∧ trace w' = trace w ∧ connects w' = connects w
  ∧ msg_table w' = msg_table w ∧ client_index w' = client_index w ∧ replies w' = replies w.
Proof. unfold random. destruct (randoms w); by do 2 eexists. Qed.

Lemma lift_run {A} (o : option A) a w : o = Some a → lift o w = Some (a, w).
Proof. by intros ->. Qed.

Lemma bind_none {A B} (m : M A) (k : A → M B) w : m w = None → (m ≫= k) w = None.
Proof. intros E. unfold mbind, M_bind. by rewrite E. Qed.

(** Run the next step of a computation, given an equation for it. *)
Ltac step E := rewrite (bind_run _ _ _ _ _ (lift_run _ _ _ E)).

Definition set_flags_msg (id idx ctx vpp : Z) (is_up : bool) : msg :=
  Msg (Hdr (htons (u32 id)) idx (htonl ctx)) (Sw_interface_set_flags (htonl vpp) (if is_up then 1 else 0)).

Lemma set_link_run v is_up w idx cs id : connects w = Some idx :: cs →
  find_msg (msg_table w) (str "sw_interface_set_flags") = Some id →
  ∃ ctx w', set_link v is_up w = Some ((), w')
    ∧ trace w' = Disconnected :: report (failed_in "set_link") (next_reply w) ++
        [Sent (set_flags_msg id idx ctx v is_up); Connected true] ++ trace w
    ∧ connects w' = cs ∧ msg_table w' = msg_table w.
Proof.
  intros Hc Hid. destruct (random_run (opened idx cs w)) as (i & w1 & E & Ht & Hcs & Hm & Hi & Hr).
  exists (u16 i). unfold set_link.
  edestruct (exchange_run "set_link" (failed_in "set_link") (id ← random; set_interface_flag (u16 id) v is_up) w idx cs)
    as (w' & Hw' & Tw & Cw & Mw); [exact Hc| |].
  - rewrite (bind_run _ _ _ _ _ E). unfold set_interface_flag.
    rewrite (send_run _ _ _ w1 id) by (by rewrite Hm). reflexivity.
  - exists w'. split; [exact Hw'|]. cbn [trace logged connects msg_table] in *. rewrite Cw, Mw, Hcs, Hm, Tw, Ht.
    split; [|done]. unfold next_reply. cbn [replies logged]. rewrite Hr, Hi. done.
Qed.

(** The bytes of an [ifinfomsg] read as its fields. *)
Lemma link_bytes_fields i f ch : (0 ≤ i < 2 ^ 32 → 0 ≤ f < 2 ^ 32 → 0 ≤ ch < 2 ^ 32 →
  peek (link_bytes i f ch) 4 4 = Some i ∧ peek (link_bytes i f ch) 8 4 = Some f ∧ peek (link_bytes i f ch) 12 4 = Some ch)%Z.
Proof.
  intros Hi Hf Hch. change (2 ^ 32)%Z with (2 ^ (8 * Z.of_nat 4))%Z in *. unfold link_bytes. split_and!.
  - by apply (peek_le _ [0; 0; 1; 0]%Z 4 i (le_write 4 f ++ le_write 4 ch)).
  - by apply (peek_le _ ([0; 0; 1; 0]%Z ++ le_write 4 i) 4 f (le_write 4 ch)).
  - apply (peek_le _ ([0; 0; 1; 0]%Z ++ le_write 4 i ++ le_write 4 f) 4 ch []); [|done..].
    by rewrite <- !app_assoc, app_nil_r.
Qed.

Definition link_seen (c : counters) : counters :=
  Counters (size_t (link_new c + 1)) (link_del c) (addr_new c) (addr_del c) (route_new c) (route_del c)
    (neigh_new c) (neigh_del c).

Section link_event.
Context `{Inet} (ifs : list routerd_interface) (names : Z → option cstring) (rs ns : vprefix) (ss n4 : list Z).
Local Abbreviation monitor' := (monitor ifs names rs ns ss n4).

Lemma newlink_run i f ch attrs post c w : (0 ≤ i < 2 ^ 32)%Z → (0 ≤ f < 2 ^ 32)%Z → (0 ≤ ch < 2 ^ 32)%Z →
  delivered (link_bytes i f ch) attrs post →
  monitor' c (nl_msg RTM_NEWLINK (link_bytes i f ch) attrs ++ post) w =
  (link_analyze_and_hook ifs i f ch;; mret (link_seen c)) w.
Proof.
  intros Hi Hf Hch Hd. destruct (link_bytes_fields i f ch Hi Hf Hch) as (F1 & F2 & F3).
  assert (length (link_bytes i f ch) = 16) as HL by (unfold link_bytes; by rewrite !length_app, !le_write_length).
  unfold monitor. step (msg_type_run RTM_NEWLINK (link_bytes i f ch) attrs post ltac:(done)).
  rewrite decide_True by done. unfold monitor_NEWLINK.
  pose proof (rtas_run RTM_NEWLINK _ attrs post Hd w) as R. rewrite HL in R. rewrite (bind_run _ _ _ _ _ R).
  step (eq_trans (peek_body_run RTM_NEWLINK (link_bytes i f ch) attrs post 4 4 ltac:(rewrite HL; lia)) F1).
  step (eq_trans (peek_body_run RTM_NEWLINK (link_bytes i f ch) attrs post 8 4 ltac:(rewrite HL; lia)) F2).
  step (eq_trans (peek_body_run RTM_NEWLINK (link_bytes i f ch) attrs post 12 4 ltac:(rewrite HL; lia)) F3).
  done.
Qed.

(** C10 A link event.  When the change mask does not name IFF_UP, or the
    interface is not registered, nothing is sent.  Otherwise exactly one
    set-flags message goes to VPP for the registered interface, in a session of
    its own.  Its admin state is 1 when any of the changed flags is set; that
    is the IFF_UP bit of the flags when IFF_UP is the only changed flag. *)
Theorem link_event_sends (i f ch : Z) (attrs : list (Z * list Z)) (post : list Z) (c : counters) (w : world)
    (idx id : Z) (cs : list (option Z)) :
  (0 ≤ i < 2 ^ 32)%Z → (0 ≤ f < 2 ^ 32)%Z → (0 ≤ ch < 2 ^ 32)%Z → delivered (link_bytes i f ch) attrs post →
  connects w = Some idx :: cs → find_msg (msg_table w) (str "sw_interface_set_flags") = Some id →
  let vpp := ifindex_kernel2vpp ifs i in
  let mem := nl_msg RTM_NEWLINK (link_bytes i f ch) attrs ++ post in
  (Z.testbit ch 0 = false ∨ vpp = 0%Z → monitor' c mem w = Some (link_seen c, w))
  ∧ (Z.testbit ch 0 = true → vpp ≠ 0%Z → ∃ ctx w', monitor' c mem w = Some (link_seen c, w')
       ∧ trace w' = Disconnected :: report (failed_in "set_link") (next_reply w) ++
           [Sent (set_flags_msg id idx ctx vpp (bool_decide (Z.land f ch ≠ 0%Z))); Connected true] ++ trace w)
  ∧ (ch = IFF_UP → bool_decide (Z.land f ch ≠ 0%Z) = Z.testbit f 0).
Proof.
  intros Hi Hf Hch Hd Hc Hid vpp mem. unfold mem. rewrite newlink_run by done. unfold link_analyze_and_hook.
  assert (Z.land (2 ^ 32 - 1) ch = ch) as ->.
  { rewrite Z.land_comm. change (2 ^ 32 - 1)%Z with (Z.ones 32). rewrite Z.land_ones by lia. by apply Z.mod_small. }
  assert (∀ z, Z.land z IFF_UP = if Z.testbit z 0 then 1 else 0)%Z as Hup.
  { intros z. change IFF_UP with (Z.ones 1). rewrite Z.land_ones by lia. change (2 ^ 1)%Z with 2%Z.
    rewrite <- Z.bit0_mod. by destruct (Z.testbit z 0). }
  replace (Z.land (Z.land f ch) ch) with (Z.land f ch) by (by rewrite <- Z.land_assoc, Z.land_diag).
  rewrite (Hup ch). split_and!.
  - intros [->| Hv]; [done|]. fold vpp. rewrite Hv. by destruct (Z.testbit ch 0).
  - intros -> Hv. rewrite decide_True by done. fold vpp. rewrite decide_False by done.
    destruct (set_link_run vpp (bool_decide (Z.land f ch ≠ 0%Z)) w idx cs id Hc Hid) as (ctx & w' & E & Tr & _).
    exists ctx, w'. rewrite (bind_run _ _ _ _ _ E). done.
  - intros ->. rewrite Hup. by destruct (Z.testbit f 0).
Qed.
End link_event.

Definition ifs_example : list routerd_interface := [mkInterface 7 2 (str "vpp-0-1") (str "vpp")].
Definition sync_world : world :=
  World [(str "sw_interface_set_flags_00000000", 40); (str "ip_route_add_del_00000000", 41);
         (str "sr_localsid_add_del_00000000", 42)]%Z [Some 5%Z] [None] [] 0 false [].

(** A link that was created and is down: the kernel reports all flags as
    changed and some of them as set.  VPP is told that it is up. *)
Lemma link_event_sends_witness :
  ∃ ctx w', monitor ifs_example (λ _, None) no_prefix no_prefix [] [] (Counters 0 0 0 0 0 0 0 0)
      (nl_msg RTM_NEWLINK (link_bytes 7 4098 (2 ^ 32 - 1)) [] ++ le_write 4 16) sync_world =
      Some (Counters 1 0 0 0 0 0 0 0, w')
    ∧ Sent (set_flags_msg 40 5 ctx 2 true) ∈ trace w' ∧ Z.testbit 4098 0 = false.
Proof.
  destruct (link_event_sends ifs_example (λ _, None) no_prefix no_prefix [] [] 7 4098 (2 ^ 32 - 1) [] (le_write 4 16)
    (Counters 0 0 0 0 0 0 0 0) sync_world 5 40 []) as (_ & H & _);
    [lia|lia|lia|by apply (bool_decide_unpack _); vm_compute|reflexivity|by vm_compute|].
  destruct H as (ctx & w' & E & Tr); [reflexivity|discriminate|]. exists ctx, w'. split; [exact E|].
  split; [|reflexivity]. rewrite Tr. right. apply elem_of_app. right. left.
Defined.

(** ** Address events *)

(** An [ifaddrmsg]. *)
Definition addr_body (family plen index : Z) : list Z := [family; plen; 0; 0]%Z ++ le_write 4 index.

Lemma peek1 l k b : l !! k = Some b → peek l k 1 = Some b.
Proof.
  intros Hk. unfold peek, read_bytes. pose proof (lookup_lt_Some _ _ _ Hk). rewrite decide_True by lia.
  rewrite (drop_S _ _ _ Hk). cbn. f_equal. apply Z.lor_0_r.
Qed.

Definition addr_seen (is_new : bool) (c : counters) : counters :=
  if is_new then
    Counters (link_new c) (link_del c) (size_t (addr_new c + 1)) (addr_del c) (route_new c) (route_del c)
      (neigh_new c) (neigh_del c)
  else
    Counters (link_new c) (link_del c) (addr_new c) (size_t (addr_del c + 1)) (route_new c) (route_del c)
      (neigh_new c) (neigh_del c).

Section events.
Context `{Inet} (ifs : list routerd_interface) (names : Z → option cstring) (rs ns : vprefix) (ss n4 : list Z).
Local Abbreviation monitor' := (monitor ifs names rs ns ss n4).

Lemma addr_run (is_new : bool) family plen index attrs post c w :
  (0 ≤ index < 2 ^ 32)%Z → delivered (addr_body family plen index) attrs post →
  let type := if is_new then RTM_NEWADDR else RTM_DELADDR in
  let mem := nl_msg type (addr_body family plen index) attrs ++ post in
  monitor' c mem w =
  (addr_analyze_and_hook ifs mem (placed 24 attrs ∅) family plen index is_new;; mret (addr_seen is_new c)) w.
Proof.
  intros Hi Hd type mem. set (body := addr_body family plen index) in *.
  assert (length body = 8) as HL by (unfold body, addr_body; by rewrite length_app, le_write_length).
  assert (peek body 4 4 = Some index) as F3.
  { apply (peek_le _ [family; plen; 0; 0]%Z 4 index []); [by rewrite app_nil_r|done..]. }
  assert (monitor_addr ifs mem is_new w = addr_analyze_and_hook ifs mem (placed 24 attrs ∅) family plen index is_new w)
    as Em.
  { unfold monitor_addr, mem. pose proof (rtas_run type body attrs post Hd w) as R. rewrite HL in R.
    rewrite (bind_run _ _ _ _ _ R).
    step (eq_trans (peek_body_run type body attrs post 0 1 ltac:(rewrite HL; lia)) (peek1 body 0 family eq_refl)).
    step (eq_trans (peek_body_run type body attrs post 1 1 ltac:(rewrite HL; lia)) (peek1 body 1 plen eq_refl)).
    by step (eq_trans (peek_body_run type body attrs post 4 4 ltac:(rewrite HL; lia)) F3). }
  assert (nlmsg_type mem = Some type) as ET by (apply msg_type_run; by destruct is_new).
  unfold monitor. step ET. unfold type. destruct is_new; cbv iota;
    repeat (rewrite decide_False by discriminate); rewrite decide_True by reflexivity;
    unfold monitor_NEWADDR, monitor_DELADDR, mbind, M_bind; by rewrite Em.
Qed.

(** C13 An address event of a registered interface with an IPv4 address.  VPP
    is sent the prefix length as the number of address bytes, so only lengths up
    to four are within bounds: then exactly that many bytes of the address are
    sent.  For any longer prefix the handler copies past the four bytes of its
    variable. *)
Theorem addr_event_length (is_new : bool) (plen index : Z) (addr : list Z) (attrs : list (Z * list Z))
    (post : list Z) (c : counters) (w : world) (idx id : Z) (cs : list (option Z)) :
  (0 ≤ plen < 256)%Z → (0 ≤ index < 2 ^ 32)%Z → delivered (addr_body AF_INET plen index) attrs post →
  last_attr attrs IFLA_ADDRESS = Some addr → length addr = 4 → ifindex_kernel2vpp ifs index ≠ 0%Z →
  connects w = Some idx :: cs → find_msg (msg_table w) (str "sw_interface_add_del_address") = Some id →
  let mem := nl_msg (if is_new then RTM_NEWADDR else RTM_DELADDR) (addr_body AF_INET plen index) attrs ++ post in
  ((4 < plen)%Z → monitor' c mem w = None)
  ∧ ((plen ≤ 4)%Z → ∃ ctx w', monitor' c mem w = Some (addr_seen is_new c, w')
       ∧ trace w' = Disconnected :: report (failed_in "set_addr") (next_reply w) ++
           [Sent (Msg (Hdr (htons (u32 id)) idx (htonl ctx))
              (Sw_interface_add_del_address (htonl (ifindex_kernel2vpp ifs index)) (if is_new then 1 else 0) 0 plen
                 (take (Z.to_nat plen) addr ++ replicate (ADDRESS_SIZE - Z.to_nat plen) 0%Z))); Connected true] ++ trace w).
Proof.
  intros Hp Hi Hd Ha HL Hv Hc Hid mem. pose proof (addr_run is_new AF_INET plen index attrs post c w Hi Hd) as Er.
  cbv zeta in Er. unfold mem. rewrite Er. clear Er. unfold addr_analyze_and_hook. rewrite decide_True by reflexivity.
  rewrite decide_False by exact Hv.
  destruct (attr_run (if is_new then RTM_NEWADDR else RTM_DELADDR) _ _ _ Hd IFLA_ADDRESS addr Ha) as (o & Ho & _ & Hb).
  assert (16 + length (addr_body AF_INET plen index) = 24) as L24 by (unfold addr_body; by rewrite length_app, le_write_length).
  rewrite L24 in Ho. rewrite HL in Hb.
  destruct (random_run (opened idx cs w)) as (r & w1 & Er & Ht & Hcs & Hm & Hci & Hr).
  assert (u8 plen = plen) as Eu by (apply Z.mod_small; lia). split; intros Hlen.
  - apply bind_none. step Ho. step Hb. unfold set_addr, exchange.
    rewrite (bind_run _ _ w _ _ (connect_run w idx cs Hc)). change (0 <? 0)%Z with false. cbv iota.
    apply bind_none. rewrite (bind_run _ _ _ _ _ Er). unfold set_interface_addr. cbv zeta. rewrite Eu.
    by rewrite decide_False by (rewrite HL; lia).
  - exists (u16 r).
    edestruct (exchange_run "set_addr" (failed_in "set_addr")
      (id ← random; set_interface_addr (u16 id) (ifindex_kernel2vpp ifs index) is_new false addr plen) w idx cs)
      as (w' & Hw' & Tw & _); [exact Hc| |].
    + rewrite (bind_run _ _ _ _ _ Er). unfold set_interface_addr. cbv zeta. rewrite Eu.
      rewrite decide_True by (rewrite HL; unfold ADDRESS_SIZE; lia).
      rewrite (send_run _ _ _ w1 id) by (by rewrite Hm). reflexivity.
    + exists w'. split; [erewrite bind_run; [reflexivity|]; step Ho; step Hb; exact Hw'|].
      rewrite Tw. cbn [trace logged next_reply replies]. rewrite Ht, Hci. unfold next_reply. cbn [replies logged].
      by rewrite Hr.
Qed.
End events.

Lemma addr_event_length_witness :
  let mem := nl_msg RTM_NEWADDR (addr_body AF_INET 24 7) [(IFLA_ADDRESS, [10; 0; 0; 1]%Z)] ++ [] in
  let w := World [(str "sw_interface_add_del_address_00000000", 43)]%Z [Some 5%Z] [None] [] 0 false [] in
  monitor ifs_example (λ _, None) no_prefix no_prefix [] [] (Counters 0 0 0 0 0 0 0 0) mem w = None.
Proof.
  cbv zeta.
  refine (proj1 (addr_event_length ifs_example (λ _, None) no_prefix no_prefix [] [] true 24 7 [10; 0; 0; 1]%Z
    [(IFLA_ADDRESS, [10; 0; 0; 1]%Z)] [] (Counters 0 0 0 0 0 0 0 0) _ 5 43 [] _ _ _ _ _ _ _ _) _);
    [lia|lia|by apply (bool_decide_unpack _); vm_compute|reflexivity|reflexivity|discriminate|reflexivity|by vm_compute|lia].
Defined.

(** ** Route events *)

Definition route_body (family dst_len : Z) (rest : list Z) : list Z := [family; dst_len] ++ rest.

Definition route_seen (is_new : bool) (c : counters) : counters :=
  if is_new then
    Counters (link_new c) (link_del c) (addr_new c) (addr_del c) (size_t (route_new c + 1)) (route_del c)
      (neigh_new c) (neigh_del c)
  else
    Counters (link_new c) (link_del c) (addr_new c) (addr_del c) (route_new c) (size_t (route_del c + 1))
      (neigh_new c) (neigh_del c).

Definition route_type (is_new : bool) : Z := if is_new then RTM_NEWROUTE else RTM_DELROUTE.

Lemma strtol0_dec n : (0 ≤ n < 256)%Z → strtol0 (dec n) = n ∧ length (dec n) ≤ 3.
Proof.
  revert n. apply Forall_seqZ_below. by apply (bool_decide_unpack _); vm_compute.
Qed.

(** Text of an IPv4 address and back, with and without a prefix length. *)
Lemma parse_prefix_str_ntop `{InetLaws} a n q : bytes a → length a = 4 → (0 ≤ n < 256)%Z →
  parse_prefix_str (inet_ntop AF_INET a ++ str "/" ++ dec n) AF_INET q =
    Some (VPrefix AF_INET n (store (v_raw q) 0 a)).
Proof.
  intros Hb HL Hn. destruct (ntop_chars AF_INET a) as (Hs & _ & H45); [by left|done|done|].
  destruct (strtol0_dec n Hn) as [En Ln]. unfold parse_prefix_str. rewrite decide_True by (by left).
  change (str "/" ++ dec n) with ("/"%char :: dec n). rewrite strchr_app by done.
  rewrite decide_True by (rewrite length_app; cbn [length]; unfold PARSE_BUF_SIZE; lia).
  rewrite En, (pton_ntop AF_INET a) by (done || by left). rewrite Z.mod_small by lia. done.
Qed.

Lemma parse_prefix_str_addr `{InetLaws} a q : bytes a → length a = 4 →
  parse_prefix_str (inet_ntop AF_INET a) AF_INET q = Some (VPrefix AF_INET 32 (store (v_raw q) 0 a)).
Proof.
  intros Hb HL. destruct (ntop_chars AF_INET a) as (Hs & _ & _); [by left|done|done|].
  unfold parse_prefix_str. rewrite decide_True by (by left). rewrite strchr_None by done.
  by rewrite (pton_ntop AF_INET a) by (done || by left).
Qed.

Lemma take4_store r a : length a = 4 → take 4 (store r 0 a) = a.
Proof. intros <-. rewrite store_0. apply take_app_length. Qed.

Section routes.
Context `{InetLaws} (ifs : list routerd_interface) (names : Z → option cstring) (rs ns : vprefix) (ss n4 : list Z).
Local Abbreviation monitor' := (monitor ifs names rs ns ss n4).

Lemma route_run (is_new : bool) family dst_len rest attrs post c w :
  length rest = 10 → delivered (route_body family dst_len rest) attrs post →
  let mem := nl_msg (route_type is_new) (route_body family dst_len rest) attrs ++ post in
  monitor' c mem w =
  (route_analyze_and_hook ifs names rs ns ss n4 mem (placed 28 attrs ∅) family dst_len is_new;;
   mret (route_seen is_new c)) w.
Proof.
  intros HR Hd mem. set (body := route_body family dst_len rest) in *.
  assert (length body = 12) as HL by (unfold body, route_body; rewrite length_app, HR; done).
  assert (monitor_route ifs names rs ns ss n4 mem is_new w =
          route_analyze_and_hook ifs names rs ns ss n4 mem (placed 28 attrs ∅) family dst_len is_new w) as Em.
  { unfold monitor_route, mem. pose proof (rtas_run (route_type is_new) body attrs post Hd w) as R. rewrite HL in R.
    rewrite (bind_run _ _ _ _ _ R).
    step (eq_trans (peek_body_run (route_type is_new) body attrs post 0 1 ltac:(rewrite HL; lia)) (peek1 body 0 family eq_refl)).
    by step (eq_trans (peek_body_run (route_type is_new) body attrs post 1 1 ltac:(rewrite HL; lia)) (peek1 body 1 dst_len eq_refl)). }
  assert (nlmsg_type mem = Some (route_type is_new)) as ET by (apply msg_type_run; by destruct is_new).
  unfold monitor. step ET. unfold route_type. destruct is_new; cbv iota;
    repeat (rewrite decide_False by discriminate); rewrite decide_True by reflexivity;
    unfold monitor_NEWROUTE, monitor_DELROUTE, mbind, M_bind; by rewrite Em.
Qed.

(** An attribute of the message. *)
Lemma route_attr is_new family dst_len rest attrs post t p :
  length rest = 10 → delivered (route_body family dst_len rest) attrs post → last_attr attrs t = Some p →
  ∃ o, placed 28 attrs ∅ !! t = Some o ∧
    attr_at (nl_msg (route_type is_new) (route_body family dst_len rest) attrs ++ post) o p.
Proof.
  intros HR Hd Ht. pose proof (attr_run (route_type is_new) _ _ _ Hd t p Ht) as P.
  unfold route_body in P at 1. rewrite length_app, HR in P. exact P.
Qed.

Lemma inetpton_run mem o p : attr_at mem o p → length p = 4 →
  inetpton mem (rta_readptr o) AF_INET = Some (inet_ntop AF_INET p).
Proof.
  intros [_ Hp] HL. unfold inetpton. rewrite decide_True by (by left). unfold inet_size.
  rewrite decide_True by reflexivity. rewrite HL in Hp. by rewrite Hp.
Qed.

Lemma route_attr_missing (is_new : bool) family dst_len rest attrs post t :
  length rest = 10 → delivered (route_body family dst_len rest) attrs post → last_attr attrs t = None → placed 28 attrs ∅ !! t = None.
Proof.
  intros HR Hd Ht. pose proof (attr_missing (route_type is_new) _ _ _ Hd t Ht) as P.
  unfold route_body in P at 1. rewrite length_app, HR in P. exact P.
Qed.

(** No text is no address. *)
Context (pton_empty : inet_pton AF_INET [] = None).

(** The text of an address attribute, and what the parser makes of it: without
    the attribute the variable keeps its bytes. *)
Lemma address_text is_new dst_len rest attrs post t :
  length rest = 10 → delivered (route_body AF_INET dst_len rest) attrs post →
  (∀ a, last_attr attrs t = Some a → bytes a ∧ length a = 4) →
  ∃ x, attr_text (placed 28 attrs ∅) t (λ rta, inetpton (nl_msg (route_type is_new) (route_body AF_INET dst_len rest) attrs ++ post) (rta_readptr rta) AF_INET) = Some x
    ∧ (∀ n q, (0 ≤ n < 256)%Z → ∃ raw, parse_prefix_str (x ++ str "/" ++ dec n) AF_INET q = Some (VPrefix AF_INET n raw)
         ∧ take 4 raw = default (take 4 (v_raw q)) (last_attr attrs t))
    ∧ (∀ q, ∃ raw, parse_prefix_str x AF_INET q = Some (VPrefix AF_INET 32 raw) ∧ take 4 raw = default (take 4 (v_raw q)) (last_attr attrs t)).
Proof.
  intros HR Hd Ha. unfold attr_text. destruct (last_attr attrs t) as [a|] eqn:Et.
  - destruct (Ha a eq_refl) as [Ba La]. destruct (route_attr is_new AF_INET dst_len rest attrs post _ _ HR Hd Et) as (o & -> & Ao).
    exists (inet_ntop AF_INET a). split; [by apply inetpton_run|]. split.
    + intros n q Hn. eexists. split; [by apply parse_prefix_str_ntop|]. by apply take4_store.
    + intros q. eexists. split; [by apply parse_prefix_str_addr|]. by apply take4_store.
  - rewrite (route_attr_missing is_new AF_INET dst_len rest attrs post t HR Hd Et). exists []. split; [done|]. unfold parse_prefix_str. split.
    + intros n q Hn. destruct (strtol0_dec n Hn) as [En Ln]. exists (v_raw q). split; [|done]. rewrite decide_True by (by left). cbn [app].
      change (str "/" ++ dec n) with ("/"%char :: dec n). change ("/"%char :: dec n) with ([] ++ "/"%char :: dec n). rewrite strchr_app by (by intros ?%elem_of_nil). cbn [app].
      rewrite decide_True by (cbn [length]; unfold PARSE_BUF_SIZE; lia). rewrite pton_empty, En, Z.mod_small by lia. done.
    + intros q. exists (v_raw q). split; [|done]. rewrite decide_True by (by left). rewrite strchr_None by (by intros ?%elem_of_nil).
      by rewrite pton_empty.
Qed.

(** C11 An IPv4 route event behind which the buffer ends the walk over the
    attributes sends exactly one route message, added or deleted as the event
    says: the destination and its length, one path through the gateway and the VPP
    interface registered first for the kernel's output interface (0 when there is
    none).  For an attribute the event does not have, as the gateway of a connected
    route or the destination of a default route, the message has what the code's
    variable had: the bytes on the stack, or interface 0. *)
Theorem route_event_sends (is_new : bool) (dst_len : Z) (oif : option Z) (rest : list Z) (attrs : list (Z * list Z))
    (post : list Z) (c : counters) (w : world) (idx id : Z) (cs : list (option Z)) :
  length rest = 10 → (0 ≤ dst_len < 256)%Z → delivered (route_body AF_INET dst_len rest) attrs post →
  (∀ t a, t = RTA_DST ∨ t = RTA_GATEWAY → last_attr attrs t = Some a → bytes a ∧ length a = 4) →
  last_attr attrs RTA_OIF = le_write 4 <$> oif → (∀ k, oif = Some k → 0 ≤ k < 2 ^ 32)%Z →
  connects w = Some idx :: cs → find_msg (msg_table w) (str "ip_route_add_del") = Some id →
  ∃ w', monitor' c (nl_msg (route_type is_new) (route_body AF_INET dst_len rest) attrs ++ post) w =
          Some (route_seen is_new c, w')
    ∧ trace w' = Disconnected :: report (failed_in "set_route") (next_reply w) ++
        [Sent (Msg (Hdr (htons (u32 id)) idx (htonl 10))
           (Ip_route_add_del (if is_new then 1 else 0) 0 0 0 0 (default (take 4 (v_raw rs)) (last_attr attrs RTA_DST)) dst_len 1
              [FibPath (htonl (ifindex_kernel2vpp ifs (default 0%Z oif))) 0 0 0 0 0 0 0 (default (take 4 (v_raw ns)) (last_attr attrs RTA_GATEWAY))]));
         Printed (str "set_route: " ++ crnl); Connected true] ++ trace w.
Proof.
  intros HR Hl Hd Haddr Hoif Hk Hc Hid.
  destruct (address_text is_new dst_len rest attrs post RTA_DST HR Hd (λ a, Haddr _ a (or_introl eq_refl))) as (dst & Ed & Pd & _).
  destruct (address_text is_new dst_len rest attrs post RTA_GATEWAY HR Hd (λ a, Haddr _ a (or_intror eq_refl))) as (gw & Eg & _ & Pg).
  destruct (Pd dst_len rs Hl) as (rawd & Ed' & <-). destruct (Pg ns) as (rawg & Eg' & <-).
  pose proof (route_run is_new AF_INET dst_len rest attrs post c w HR Hd) as Er. cbv zeta in Er. rewrite Er. clear Er.
  set (mem := nl_msg _ _ _ ++ _) in *.
  assert (∃ o, attr_text (placed 28 attrs ∅) RTA_OIF (λ rta, ifindex2str names <$> rta_read32 mem rta) = Some o
    ∧ match placed 28 attrs ∅ !! RTA_OIF with None => Some 0%Z | Some rta => rta_read32 mem rta end = Some (default 0%Z oif)) as (o & Eo & Ek).
  { unfold attr_text. destruct oif as [k|]; cbn [fmap option_fmap option_map] in Hoif.
    - destruct (route_attr is_new AF_INET dst_len rest attrs post _ _ HR Hd Hoif) as (oo & -> & Ao).
      rewrite (rta_read32_run mem oo k Ao (Hk k eq_refl)). by eexists.
    - rewrite (route_attr_missing is_new AF_INET dst_len rest attrs post _ HR Hd Hoif). by eexists. }
  edestruct (exchange_run "set_route" (failed_in "set_route")
    (emit (Printed (str "set_route: " ++ crnl));;
     route_pref ← lift (parse_prefix_str (dst ++ str "/" ++ dec dst_len) AF_INET rs);
     nexthop_pref ← lift (parse_prefix_str gw AF_INET ns);
     ip_route_add_del 10 is_new route_pref nexthop_pref (ifindex_kernel2vpp ifs (default 0%Z oif))) w idx cs)
    as (w' & Hw' & Tw & _); [exact Hc| |].
  - rewrite (bind_run _ _ _ tt (logged (Printed (str "set_route: " ++ crnl)) (opened idx cs w))) by reflexivity.
    step Ed'. step Eg'. unfold ip_route_add_del. rewrite decide_True by reflexivity.
    rewrite (send_run _ _ _ _ id) by exact Hid. reflexivity.
  - exists w'. split.
    + erewrite bind_run; [reflexivity|]. unfold route_analyze_and_hook. step Ed. step Eo.
      rewrite decide_False by (intros Hne; by apply Hne). step Eg. step Ek. exact Hw'.
    + rewrite Tw. unfold next_reply. cbn [replies logged opened trace client_index]. unfold addr_bytes.
      cbn [v_afi v_plen v_raw]. rewrite !decide_False by discriminate.
      replace (u8 dst_len) with dst_len by (symmetry; apply Z.mod_small; lia). reflexivity.
Qed.
End routes.

Definition route_attrs : list (Z * list Z) :=
  [(RTA_DST, [10; 1; 0; 0]%Z); (RTA_GATEWAY, [192; 168; 0; 1]%Z); (RTA_OIF, le_write 4 7)].

Lemma plain_empty : inet_pton AF_INET [] = None.
Proof. vm_compute. reflexivity. Qed.

Lemma route_attrs_ok t a : t = RTA_DST ∨ t = RTA_GATEWAY → last_attr route_attrs t = Some a → bytes a ∧ length a = 4.
Proof. intros [-> | ->] [= <-]; (split; [by apply (bool_decide_unpack _); vm_compute|reflexivity]). Qed.

(** A route through a gateway, and the deletion of a default route without one. *)
Lemma route_event_sends_witness :
  (∃ w', monitor ifs_example (λ _, None) no_prefix no_prefix [] [] (Counters 0 0 0 0 0 0 0 0)
      (nl_msg RTM_NEWROUTE (route_body AF_INET 16 (replicate 10 0%Z)) route_attrs ++ le_write 4 16) sync_world =
      Some (Counters 0 0 0 0 1 0 0 0, w')
    ∧ Sent (Msg (Hdr (htons 41) 5 (htonl 10))
        (Ip_route_add_del 1 0 0 0 0 [10; 1; 0; 0]%Z 16 1 [FibPath (htonl 2) 0 0 0 0 0 0 0 [192; 168; 0; 1]%Z])) ∈ trace w')
  ∧ ∃ w', monitor ifs_example (λ _, None) (VPrefix 0 0 (replicate 16 1%Z)) (VPrefix 0 0 (replicate 16 2%Z)) [] [] (Counters 0 0 0 0 0 0 0 0)
      (nl_msg RTM_DELROUTE (route_body AF_INET 0 (replicate 10 0%Z)) [(RTA_OIF, le_write 4 7)] ++ le_write 4 16) sync_world =
      Some (Counters 0 0 0 0 0 1 0 0, w')
    ∧ Sent (Msg (Hdr (htons 41) 5 (htonl 10))
        (Ip_route_add_del 0 0 0 0 0 [1; 1; 1; 1]%Z 0 1 [FibPath (htonl 2) 0 0 0 0 0 0 0 [2; 2; 2; 2]%Z])) ∈ trace w'.
Proof.
  split.
  - destruct (route_event_sends ifs_example (λ _, None) no_prefix no_prefix [] [] plain_empty true 16 (Some 7%Z) (replicate 10 0%Z)
      route_attrs (le_write 4 16) (Counters 0 0 0 0 0 0 0 0) sync_world 5 41 []) as (w' & E & Tr);
      [reflexivity|lia|by apply (bool_decide_unpack _); vm_compute|exact route_attrs_ok|reflexivity|by intros k [= <-]|reflexivity|by vm_compute|].
    exists w'. split; [exact E|]. rewrite Tr. right. apply elem_of_app. right. left.
  - destruct (route_event_sends ifs_example (λ _, None) (VPrefix 0 0 (replicate 16 1%Z)) (VPrefix 0 0 (replicate 16 2%Z)) [] [] plain_empty false 0 (Some 7%Z)
      (replicate 10 0%Z) [(RTA_OIF, le_write 4 7)] (le_write 4 16) (Counters 0 0 0 0 0 0 0 0) sync_world 5 41 []) as (w' & E & Tr);
      [reflexivity|lia|by apply (bool_decide_unpack _); vm_compute|by intros t a [-> | ->]|reflexivity|by intros k [= <-]|reflexivity|by vm_compute|].
    exists w'. split; [exact E|]. rewrite Tr. right. apply elem_of_app. right. left.
Defined.

(** ** SRv6 route events *)

Lemma read_bytes_inv mem off n p : read_bytes mem off n = Some p →
  ∃ pre post, mem = pre ++ p ++ post ∧ length pre = off ∧ length p = n.
Proof.
  unfold read_bytes. case_decide as Hn; [|done]. intros [= <-].
  exists (take off mem), (drop n (drop off mem)). rewrite take_drop, take_drop.
  rewrite !length_take, length_drop. split; [done|lia].
Qed.

(** A nested attribute list is parsed like a list at the top. *)
Lemma nested_run mem o sub t p : attr_at mem o (encode sub) → Forall attr_ok sub → last_attr sub t = Some p →
  (Z.of_nat (length (encode sub)) < 2 ^ 16)%Z →
  ∃ m, parse_rtattr mem (rta_readptr o) (Z.of_nat (length (encode sub))) ∅ MAX_ATTRS = Some m
    ∧ ∃ o', m !! t = Some o' ∧ attr_at mem o' p.
Proof.
  intros [_ Hr] Hs Ht Hb. destruct (read_bytes_inv _ _ _ _ Hr) as (pre & post & -> & Hpre & _).
  exists (placed (length pre) sub ∅). split.
  - rewrite <- Hpre. rewrite <- (Z.add_0_r (Z.of_nat _)). apply rta_array_encode; [done|done|lia|lia].
  - pose proof (placed_spec sub pre post ∅ _ t Hs eq_refl) as P. by rewrite Ht in P.
Qed.

Lemma rta_payload_run mem o p : attr_at mem o p → rta_payload mem o = Some (size_t (Z.of_nat (length p))).
Proof. intros [H1 _]. unfold rta_payload. rewrite H1. obind. do 2 f_equal. lia. Qed.

(** The texts of an END.DX4 route: the action's name and the nexthop. *)
Lemma seg6_texts_run `{Inet} mem rtas oe on sub nh4 :
  rtas !! RTA_ENCAP_TYPE = Some oe → attr_at mem oe (le_write 2 LWTUNNEL_ENCAP_SEG6_LOCAL) →
  rtas !! RTA_ENCAP = Some on → attr_at mem on (encode sub) → Forall attr_ok sub →
  (Z.of_nat (length (encode sub)) < 2 ^ 16)%Z →
  last_attr sub SEG6_LOCAL_ACTION = Some (le_write 4 SEG6_LOCAL_ACTION_END_DX4) →
  last_attr sub SEG6_LOCAL_NH4 = Some nh4 → length nh4 = 4 →
  seg6_texts mem rtas = Some (str "end.dx4", inet_ntop AF_INET nh4).
Proof.
  intros He Ae Hn An Hs Hb Hact Hnh HL. unfold seg6_texts. rewrite He.
  assert (rta_read16 mem oe = Some LWTUNNEL_ENCAP_SEG6_LOCAL) as ->.
  { destruct Ae as [E1 E2]. unfold rta_read16, rta_read. rewrite (rta_payload_run mem oe (le_write 2 LWTUNNEL_ENCAP_SEG6_LOCAL)) by done.
    rewrite le_write_length in *. obind. unfold peek. by rewrite E2. }
  obind. rewrite decide_True by reflexivity. rewrite Hn. obind.
  rewrite (rta_payload_run _ _ _ An). obind. rewrite size_t_small by lia.
  destruct (nested_run mem on sub _ _ An Hs Hact Hb) as (m & Em & oa & Ha & Aa).
  destruct (nested_run mem on sub _ _ An Hs Hnh Hb) as (m' & Em' & o4 & H4 & A4).
  rewrite Em in Em' |- *. injection Em' as <-. obind. rewrite Ha. obind.
  rewrite (rta_read32_run _ _ _ Aa) by (unfold SEG6_LOCAL_ACTION_END_DX4; lia). obind.
  rewrite decide_True by reflexivity. rewrite H4. obind.
  by rewrite (inetpton_run _ _ _ A4 HL).
Qed.

Section srv6.
Context `{InetLaws} (ifs : list routerd_interface) (names : Z → option cstring) (rs ns : vprefix) (ss n4 : list Z).
Local Abbreviation monitor' := (monitor ifs names rs ns ss n4).

(** C12 An IPv6 route event with an SRv6 END.DX4 action.  The output interface
    is looked up under the number its name starts with instead of its index, so
    for an interface whose name does not start with a digit the segment is
    installed on VPP interface 0, whatever the kernel's output interface is.
    A deletion sends the same message as an addition. *)
Theorem srv6_event_sends (is_new : bool) (dst_len k : Z) (rest dst nh4 : list Z) (name : cstring)
    (attrs sub : list (Z * list Z)) (post : list Z) (c : counters) (w : world) (idx id : Z) (cs : list (option Z)) :
  length rest = 10 → delivered (route_body AF_INET6 dst_len rest) attrs post →
  last_attr attrs RTA_DST = Some dst → bytes dst → length dst = 16 → inet_ntop AF_INET6 dst ≠ [] →
  last_attr attrs RTA_OIF = Some (le_write 4 k) → (0 ≤ k < 2 ^ 32)%Z → names k = Some name → name ≠ [] →
  atoi name = Some 0%Z → ifindex_kernel2vpp ifs 0 = 0%Z →
  last_attr attrs RTA_ENCAP_TYPE = Some (le_write 2 LWTUNNEL_ENCAP_SEG6_LOCAL) →
  last_attr attrs RTA_ENCAP = Some (encode sub) → Forall attr_ok sub → (Z.of_nat (length (encode sub)) < 2 ^ 16)%Z →
  last_attr sub SEG6_LOCAL_ACTION = Some (le_write 4 SEG6_LOCAL_ACTION_END_DX4) →
  last_attr sub SEG6_LOCAL_NH4 = Some nh4 → bytes nh4 → length nh4 = 4 → inet_ntop AF_INET nh4 ≠ [] →
  connects w = Some idx :: cs → find_msg (msg_table w) (str "sr_localsid_add_del") = Some id →
  ∃ w', monitor' c (nl_msg (route_type is_new) (route_body AF_INET6 dst_len rest) attrs ++ post) w =
          Some (route_seen is_new c, w')
    ∧ sent (trace w') =
        Msg (Hdr (htons (u32 id)) idx (htonl 13))
          (Sr_localsid_add_del 0 0 SR_BEHAVIOR_DX4 (htonl 0) 0 0 dst (replicate 16 0%Z) nh4) :: sent (trace w).
Proof.
  intros HR Hd Hdst Bd Ld Nd Hoif Hk Hn Nn Hat Hz Het Hen Hs Hsl Hact Hnh B4 L4 N4 Hc Hid.
  destruct (route_attr is_new AF_INET6 dst_len rest attrs post _ _ HR Hd Hdst) as (od & Pd & Ad).
  destruct (route_attr is_new AF_INET6 dst_len rest attrs post _ _ HR Hd Hoif) as (oo & Po & Ao).
  destruct (route_attr is_new AF_INET6 dst_len rest attrs post _ _ HR Hd Het) as (ot & Pt & At).
  destruct (route_attr is_new AF_INET6 dst_len rest attrs post _ _ HR Hd Hen) as (oe & Pe & Ae).
  pose proof (route_run ifs names rs ns ss n4 is_new AF_INET6 dst_len rest attrs post c w HR Hd) as Er.
  cbv zeta in Er. rewrite Er. clear Er. set (mem := nl_msg _ _ _ ++ _) in *.
  assert (inetpton mem (rta_readptr od) AF_INET6 = Some (inet_ntop AF_INET6 dst)) as Ed.
  { unfold inetpton. rewrite decide_True by (by right). change (inet_size AF_INET6) with 16. rewrite <- Ld.
    destruct Ad as [_ Ad]. by rewrite Ad. }
  unfold route_analyze_and_hook, attr_text. rewrite Pd, Po.
  set (w0 := logged (Printed (str "  nh4: " ++ inet_ntop AF_INET nh4 ++ crnl))
    (logged (Printed (str "  oif: " ++ name ++ crnl))
    (logged (Printed (str "  dst: " ++ inet_ntop AF_INET6 dst ++ [chr 10; chr 13]))
    (logged (Printed (str " [install srv6 fib msg] " ++ crnl)) w)))).
  edestruct (exchange_run "route_analyze_and_hook"
    (λ ret, str "route_analyze_and_hook: failed ret=" ++ dec_signed ret ++ crnl)
    (ip6_route_srv6_end_dx4_add 13 dst nh4 0) w0 idx cs) as (w' & Hw' & Tw & _); [exact Hc| |].
  - unfold ip6_route_srv6_end_dx4_add. apply (send_run _ _ _ _ id). exact Hid.
  - exists w'. split.
    + erewrite bind_run; [reflexivity|]. step Ed. rewrite (rta_read32_run _ _ _ Ao Hk). erewrite bind_run by reflexivity.
      rewrite decide_True by discriminate.
      step (seg6_texts_run mem _ ot oe sub nh4 Pt At Pe Ae Hs Hsl Hact Hnh L4). unfold ifindex2str. rewrite Hn. cbn [default].
      rewrite decide_True by done. unfold install_srv6. do 4 (erewrite bind_run by reflexivity). fold w0.
      step Hat. cbv zeta. rewrite (pton_ntop AF_INET6 dst), (pton_ntop AF_INET nh4) by (done || by constructor).
      cbn [default]. change (u32 0) with 0%Z. rewrite Hz. exact Hw'.
    + rewrite Tw. unfold report. by destruct (_ <? 0)%Z.
Qed.
End srv6.

Definition sid : list Z := [32; 1; 13; 184]%Z ++ replicate 12 0%Z.
Definition dx4_attrs : list (Z * list Z) :=
  [(SEG6_LOCAL_ACTION, le_write 4 SEG6_LOCAL_ACTION_END_DX4); (SEG6_LOCAL_NH4, [10; 0; 0; 9]%Z)].
Definition srv6_attrs : list (Z * list Z) :=
  [(RTA_DST, sid); (RTA_ENCAP_TYPE, le_write 2 LWTUNNEL_ENCAP_SEG6_LOCAL); (RTA_ENCAP, encode dx4_attrs);
   (RTA_OIF, le_write 4 7)].

Lemma srv6_event_sends_witness :
  ifindex_kernel2vpp ifs_example 7 = 2%Z ∧
  ∃ w', monitor ifs_example (λ _, Some (str "vpp-0-1")) no_prefix no_prefix [] [] (Counters 0 0 0 0 0 0 0 0)
      (nl_msg RTM_DELROUTE (route_body AF_INET6 128 (replicate 10 0%Z)) srv6_attrs ++ le_write 4 16) sync_world =
      Some (Counters 0 0 0 0 0 1 0 0, w')
    ∧ sent (trace w') = [Msg (Hdr (htons 42) 5 (htonl 13))
        (Sr_localsid_add_del 0 0 7 (htonl 0) 0 0 sid (replicate 16 0%Z) [10; 0; 0; 9]%Z)].
Proof.
  split; [reflexivity|].
  destruct (srv6_event_sends ifs_example (λ _, Some (str "vpp-0-1")) no_prefix no_prefix [] [] false 128 7
    (replicate 10 0%Z) sid [10; 0; 0; 9]%Z (str "vpp-0-1") srv6_attrs dx4_attrs (le_write 4 16)
    (Counters 0 0 0 0 0 0 0 0) sync_world 5 42 []) as (w' & E & Tr);
    [reflexivity|by apply (bool_decide_unpack _); vm_compute|reflexivity|by apply (bool_decide_unpack _); vm_compute|reflexivity|
     by vm_compute|reflexivity|lia|reflexivity|discriminate|reflexivity|reflexivity|reflexivity|reflexivity|
     by apply (bool_decide_unpack _); vm_compute|reflexivity|reflexivity|reflexivity|
     by apply (bool_decide_unpack _); vm_compute|reflexivity|by vm_compute|reflexivity|by vm_compute|].
  exists w'. split; [exact E|exact Tr].
Defined.

(** ** What the code does with incomplete messages *)

(** A route without a gateway, such as a connected one, is sent with whatever
    bytes the nexthop variable had on the stack. *)
Example route_without_gateway (a b c d : Z) :
  let stack := VPrefix 0 0 ([a; b; c; d] ++ replicate 12 0%Z) in
  (sent ∘ trace ∘ snd) <$> monitor ifs_example (λ _, None) no_prefix stack [] [] (Counters 0 0 0 0 0 0 0 0)
    (nl_msg RTM_NEWROUTE (route_body AF_INET 24 (replicate 10 0%Z))
       [(RTA_DST, [10; 1; 0; 0]%Z); (RTA_OIF, le_write 4 7)] ++ le_write 4 16) sync_world =
  Some [Msg (Hdr (htons 41) 5 (htonl 10))
    (Ip_route_add_del 1 0 0 0 0 [10; 1; 0; 0]%Z 24 1 [FibPath (htonl 2) 0 0 0 0 0 0 0 [a; b; c; d]])].
Proof. vm_compute. reflexivity. Qed.

(** A route message is parsed four bytes beyond its end. Stale bytes behind the
    last message of a datagram that look like the header of a gateway make the
    handler read a gateway from behind the message. *)
Example route_with_stale_gateway :
  (sent ∘ trace ∘ snd) <$> monitor ifs_example (λ _, None) no_prefix no_prefix [] [] (Counters 0 0 0 0 0 0 0 0)
    (nl_msg RTM_NEWROUTE (route_body AF_INET 24 (replicate 10 0%Z))
       [(RTA_DST, [10; 1; 0; 0]%Z); (RTA_OIF, le_write 4 7)] ++ [4; 0; 5; 0; 6; 6; 6; 6]%Z) sync_world =
  Some [Msg (Hdr (htons 41) 5 (htonl 10))
    (Ip_route_add_del 1 0 0 0 0 [10; 1; 0; 0]%Z 24 1 [FibPath (htonl 2) 0 0 0 0 0 0 0 [6; 6; 6; 6]%Z])].
Proof. vm_compute. reflexivity. Qed.

(** ** The interface table *)

(** Registering again does not change the answer for a known kernel index. *)
Lemma kernel2vpp_app ifs k kn v vn j : ifindex_kernel2vpp (add_interface ifs k kn v vn) j =
  if decide (Exists (λ i, kern_ifindex i = j) ifs) then ifindex_kernel2vpp ifs j
  else if decide (j = k) then v else 0%Z.
Proof.
  induction ifs as [|i ifs IH]; cbn [add_interface app ifindex_kernel2vpp].
  - destruct (decide (Exists _ [])) as [X|_]; [inversion X|done].
  - unfold add_interface in IH. rewrite IH. destruct (decide (j = kern_ifindex i)) as [->|Hne].
    + destruct (decide (Exists _ (i :: ifs))) as [_|X]; [done|]. destruct X. apply Exists_cons. by left.
    + assert (Exists (λ i, kern_ifindex i = j) (i :: ifs) ↔ Exists (λ i, kern_ifindex i = j) ifs) as HE.
      { rewrite Exists_cons. split; [by intros [E|]|auto]. }
      destruct (decide (Exists _ ifs)), (decide (Exists _ (i :: ifs))); tauto || done.
Qed.

(** ** Synchronising with the cache *)

Section sync.
Context (ifs : list routerd_interface).

(** What a cached link asks for. *)
Definition wanted (link : list Z) : option body :=
  index ← ifi_index link; flags ← peek link 8 4;
  let v := ifindex_kernel2vpp ifs index in
  if decide (v = 0)%Z then None else Some (Sw_interface_set_flags (htonl v) (if Z.testbit flags 0 then 1 else 0)).

Lemma land_up z : bool_decide (Z.land z IFF_UP ≠ 0)%Z = Z.testbit z 0.
Proof.
  change IFF_UP with (Z.ones 1). rewrite Z.land_ones by lia. change (2 ^ 1)%Z with 2%Z.
  rewrite <- Z.bit0_mod. by destruct (Z.testbit z 0).
Qed.

Lemma sync_loop_run links : ∀ i w id idxs cs,
  Forall (λ l, 12 ≤ length l) links → find_msg (msg_table w) (str "sw_interface_set_flags") = Some id →
  connects w = (Some <$> idxs) ++ cs → length (omap wanted links) = length idxs →
  ∃ w', sync_loop ifs i links w = Some ((), w') ∧ connects w' = cs
    ∧ m_body <$> sent (trace w') = reverse (omap wanted links) ++ (m_body <$> sent (trace w)).
Proof.
  induction links as [|l links IH]; intros i w id idxs cs Hl Hid Hc Hn.
  { destruct idxs; [|done]. by exists w. }
  apply Forall_cons in Hl as [Hl Hls]. cbn [sync_loop].
  assert (∃ x f, ifi_index l = Some x ∧ peek l 8 4 = Some f) as (x & f & Ex & Ef).
  { unfold ifi_index, peek, read_bytes. rewrite !decide_True by lia. by do 2 eexists. }
  step Ex. cbv zeta. cbn [omap list_omap] in *. unfold wanted in Hn at 1. unfold wanted at 1. rewrite Ex, Ef in *.
  cbn [mbind option_bind] in *. destruct (decide (ifindex_kernel2vpp ifs x = 0%Z)) as [Hz|Hz].
  - rewrite (bind_run _ _ w () w) by reflexivity. by apply (IH (S i) w id idxs cs).
  - destruct idxs as [|idx idxs]; [done|].
    set (e := Printed _). set (w0 := logged e w).
    destruct (set_link_run (ifindex_kernel2vpp ifs x) (Z.testbit f 0) w0 idx ((Some <$> idxs) ++ cs) id)
      as (ctx & w1 & E1 & T1 & C1 & M1); [exact Hc|exact Hid|].
    rewrite (bind_run _ _ w () w1); [|erewrite bind_run by reflexivity; fold w0; erewrite bind_run by reflexivity; by rewrite land_up].
    destruct (IH (S i) w1 id idxs cs) as (w' & Ew & Cw & Sw); [done|by rewrite M1|done|by injection Hn|].
    exists w'. split; [exact Ew|]. split; [exact Cw|]. rewrite Sw, T1, reverse_cons, <- app_assoc. f_equal.
    unfold report. by destruct (_ <? 0)%Z.
Qed.

(** At startup every cached link of a registered interface is set up or
    down in VPP according to its IFF_UP flag, one message per cached link in the
    order of the cache, and no message is sent for other links. *)
Theorem sync_sets_links (nlc : netlink_cache) (w : world) (id : Z) (idxs : list Z) (cs : list (option Z)) :
  Forall (λ l, 12 ≤ length l) nlc → find_msg (msg_table w) (str "sw_interface_set_flags") = Some id →
  connects w = (Some <$> idxs) ++ cs → length (omap wanted nlc) = length idxs →
  ∃ w', vpp_sync_with_nlc ifs nlc w = Some ((), w')
    ∧ m_body <$> sent (trace w') = reverse (omap wanted nlc) ++ (m_body <$> sent (trace w)).
Proof. intros. destruct (sync_loop_run nlc 0 w id idxs cs) as (w' & E & _ & S); [done..|]. by exists w'. Qed.
End sync.

Lemma sync_sets_links_witness :
  ∃ w', vpp_sync_with_nlc ifs_example [link_bytes 1 73 0; link_bytes 7 4098 0] sync_world = Some ((), w')
    ∧ m_body <$> sent (trace w') = [Sw_interface_set_flags (htonl 2) 0].
Proof.
  destruct (sync_sets_links ifs_example [link_bytes 1 73 0; link_bytes 7 4098 0] sync_world 40 [5]%Z []) as (w' & E & S);
    [by apply (bool_decide_unpack _); vm_compute|by vm_compute|reflexivity|reflexivity|].
  exists w'. split; [exact E|exact S].
Defined.
